(* ===== verification/_CoqProject ===== *)
-Q . S2P
Prelude.v
CStr.v
Fmt.v
FmtFacts.v
StrUtil.v
StrFacts.v
ListenFacts.v
ParseConf.v
ParseConfFacts.v
NumFacts.v
Tokens.v
ConfFile.v
Users.v
UsersFacts.v
Desc.v
Tracking.v
UpsClient.v
StateTree.v
StateFacts.v
World.v
SState.v
Upsd.v
UpsdConf.v
NetGet.v
NetList.v
NetUser.v
NetSet.v
Server.v
ServerLib.v
ServerFacts.v
ListFacts.v
ServerInv.v
ProtoLines.v
EndToEnd.v
UpsClientFacts.v
Clients.v
ClientsSet.v
ClientsFacts.v
ClientsEnd.v
Liveness.v
MonState.v
MonStatus.v
MonParse.v
MonCrit.v
MonPoll.v
MonConf.v
MonFacts.v
MonCritFacts.v
MonShutFacts.v
MonPower.v
MonConfFacts.v
DState.v
DStateFacts.v
Float64.v
DStatus.v
DriverMain.v
DSock.v
Wire.v
DMirror.v
DReplay.v
DFollow.v
DStatusFacts.v
HidParser.v
HidFacts.v
HidSafe.v
LibHid.v
LibHidFacts.v
LibHidEnd.v
HidPath.v
HidInfo.v
UsbHid.v
UsbHidStatus.v
UsbHidEnd.v
Upssched.v
UpsschedCli.v
UpsschedFacts.v
UpsschedQueue.v
UpsschedEnd.v
UpsdConfFacts.v
UpsdReload.v
