(* ===== verification/Prelude.v ===== *)
(** * A verification library for the core of Network UPS Tools (NUT)

    NUT monitors power devices.  A driver process per device publishes the device's variables and
    commands over a local socket; the server upsd mirrors them and serves them to clients over a
    text protocol; clients such as upsmon act on what they read, up to shutting the system down.
    This library models the chain from a driver to that shutdown: the part that all drivers share,
    the server with its configuration, the client library, the command-line clients upsc, upscmd and upsrw,
    upsmon and the scheduler upssched, with the code these have in common; and of the drivers the one for USB HID
    devices, usbhid-ups, with the HID library and the parser of report descriptors under it.  The models are executable
    functions that follow the C sources under src/, with the theorems that make them correct.

    ** How the parts interact

    Every text (configuration files, the socket between driver and server, the network protocol)
    is split into words by parseconf.  A driver changes its data with the operations of [DState], which
    broadcast each change as a line; [DSock] answers a new connection by a dump.  Such a line,
    completed by [pconf_char], goes to [SState.parse_args], which updates the UPS's variable tree and
    command list in the server (common/state.c is the tree of both sides).  A client's line goes to
    [Server.parse_net], whose table of handlers reads those trees, checks permissions against upsd.users
    (server/user.c), answers with [Upsd.sendback], and forwards SET and INSTCMD to the driver, whose
    later TRACKING report updates the tracking list.  The service loop watches over silent drivers and
    idle clients.  [UpsClient] sends such lines and reads the answers, packet by packet; [MonPoll.pollups]
    asks it for the status, [MonParse.parse_status] turns that into flags and notices, [MonCrit.recalc]
    decides, and [MonCrit.forceshutdown] acts.  A notice of upsmon may run upssched
    ([UpsschedCli.upssched_main]), which sends a line to a daemon of its own ([Upssched.daemon_round]) with
    timers that run a script later.  The programs of [Clients] and [ClientsSet] use the same library for one request or
    list.  Below the driver framework, [UsbHid.hid_ups_walk] reads the items of a table through [LibHid], whose report
    buffers and paths come from the descriptor that [HidParser.Parse_ReportDesc] took apart, and publishes them with the
    operations of [DState] and [DStatus]; SET and INSTCMD go the other way.
    On SIGHUP [UpsdConf.conf_reload] changes the list of UPSes of the server under all of this.

    ** Files and what they model

    Shared code:
    - [Prelude]: byte strings, characters, fixed-width integers, tactics and hints.
      [CStr]: the C library's string functions (comparison, searching, [strtol], [snprintf]), and
      [snprintfcat] of common/common.c, which leaves one byte of the buffer unused.
    - [Fmt] (common/common.c: format strings chosen at run time) and [FmtFacts].
    - [StrUtil] (common/str.c): trimming, integer conversions, [str_split_listen].
      [StrFacts], [ListenFacts]: what they accept.
    - [Float64]: the type double by the Standard Library's executable specification of floating point, the conversions
      of common/str.c from text to double, [printf] with a double.
    - [ParseConf] (common/parseconf.c): the context with its limits and allocation sizes, the state
      functions, the feeders [pconf_line], [pconf_char] and [pconf_file_next], and [pconf_encode]
      with its buffer.  [ParseConfFacts]: memory bounds, agreement of the feeders, round trip.
      [NumFacts]: numbers in words.  [ConfFile]: the reading loop that the configuration readers share,
      and that what it makes of a file is what it makes of its lines one after the other.
    - [Tokens] (common/common.c: lists of words).
    - [StateTree] (common/state.c) and [StateFacts]: the variable tree as a finite map, the command
      list as a finite set, both up to the case of the names.

    The server:
    - [Users] (server/user.c) and [UsersFacts]: the meaning of upsd.users and the checks.
    - [Desc] (server/desc.c), [Tracking] (tracking_* of server/upsd.c): with their theorems.
    - [World]: the globals of upsd (lists of UPSes and clients, users, descriptions, tracking), the
      clock, random numbers and outcomes of system calls, and the monad [M] of the handlers, where
      [None] is the use of a pointer to a client or UPS that is not in the lists.
    - [SState] (server/sstate.c), [Upsd] (server/upsd.c), [NetGet], [NetList], [NetUser], [NetSet]
      (server/netget.c, netlist.c, netuser.c, netmisc.c with the handler of netssl.c for a
      build without SSL, netset.c and netinstcmd.c), [Server] (netcmds.h, [parse_net],
      [client_readline], the scans and the event dispatch of [mainloop] in server/upsd.c).
    - [ServerLib], [ServerFacts], [ListFacts], [ServerInv], [ProtoLines], [EndToEnd], [Liveness]: the theorems about the server.
    - [UpsdConf] (server/conf.c and common/upsconf.c): upsd.conf, ups.conf and the reload, in a monad over
      [M] with the exit of the process and a crash as outcomes.  [UpsdConfFacts]: a reload keeps the
      invariant; [UpsdReload]: what it makes of ups.conf.

    The driver side:
    - [DState] (drivers/dstate.c: the data and its broadcasts, in a monad of its own with faults),
      [DSock] (drivers/dstate.c: the socket server), [DStatus] (drivers/dstate.c: ups.status, alarms and
      buzzwords), [DriverMain] (drivers/main.c: what every driver handles).
    - [DStateFacts], [DStatusFacts]: broadcasts and the status.  [Wire], [DMirror], [DReplay],
      [DFollow]: the lines between driver and server, the dump, that the server tracks the driver, and faults
      found.
    - [HidParser] (drivers/hidparser.c), [HidFacts], [HidSafe]: report descriptors and fields.
    - [LibHid] (drivers/libhid.c): reports, physical values, paths, events.  [LibHidFacts]: every access is inside the
      buffers; [LibHidEnd]: what is set is read back; [HidPath]: paths as text.
    - [HidInfo] (drivers/usbhid-ups.c: tables and conversions), [UsbHid] (drivers/usbhid-ups.c: walks, status, settings,
      commands, reconnection).  [UsbHidStatus]: from the flags to ups.status; [UsbHidEnd]: settings, a lost device.

    The client side:
    - [UpsClient] (clients/upsclient.c) and [UpsClientFacts].
    - [Clients] (clients/upsc.c, common/strjson.c and what the programs share), [ClientsSet] (clients/upscmd.c and
      clients/upsrw.c); [ClientsFacts]: they end, rows and JSON; [ClientsEnd]: from the server's tree to the terminal, from
      the command line to the driver, and faults found.
    - [MonState] (the data of clients/upsmon.c, notices), [MonStatus] (status handlers, [get_var]),
      [MonParse] ([parse_status] and the tree of unclassified words), [MonCrit] (the decision and the
      shutdown), [MonPoll] (connecting, polling, POWERDOWNFLAG, a cycle of the main loop), [MonConf]
      (upsmon.conf).
    - [MonFacts], [MonCritFacts], [MonShutFacts], [MonPower], [MonConfFacts]: theorems about the status (and
      faults found), the decision, the shutdown, a power failure from end to end, the configuration.
    - [Upssched] (the daemon of clients/upssched.c: queue, commands, rounds), [UpsschedCli] (its client
      process and upssched.conf), [UpsschedFacts] (the invariant of the daemon), [UpsschedQueue] (the queue
      against an abstract one), [UpsschedEnd] (from the notice to the script, and faults found).

    State is passed explicitly.  A function that writes through a [T **] returns the new value; a
    [upstype_t *] is the position in [firstups]; a [nut_ctype_t *] and a driver's [conn_t *] are
    identities that are found in their list or not, and the nodes of upsmon's tree of words have
    addresses, so that a use after free shows.  Characters are [ascii]; integers are [Z] with
    the wrapping of the C type written out wherever it can matter ([wrap8], [wrap32], [wrapS 64]).

    ** What the theorems show

    - A power failure shuts the system down: from the bytes of the server's answers to the exit of
      upsmon, with what is sent and said on the way ([MonPower]); the flags after a status are what the
      status says ([MonFacts]); the decision of [recalc] is the documented sum ([MonCritFacts]); the
      shutdown happens once and in time, and only a negative SHUTDOWNEXIT without a signal can keep the process after it
      ([MonShutFacts]); every configuration file leaves
      usable settings ([MonConfFacts]).
    - End to end: a value published by a driver is returned unchanged by the client library, in
      whatever packets it travels; what upsrw is asked to set reaches the driver as SET with that
      very value; upsc shows each variable of the server's tree once with its value, and its JSON reads back; the
      result of a setting is reported or the wait given up in time, and the programs end whatever the server sends
      ([ClientsEnd], [ClientsFacts]); data of a driver silent for too long is never served.
    - The server tracks the driver: after any sequence of changes the server's copy is the driver's
      public data, and a dump reproduces it; a broadcast goes to each connection once ([DStateFacts.broadcast_exact]).  The
      status that a driver publishes is the words it set, as far as they fit ([DStatusFacts]).
    - Access control and soundness of the server: each request does one step of the abstract
      specification [ServerFacts.request_step], with exactly one reply unless it is LIST;
      privileged effects need the permission that upsd.users grants; and over any batch of events,
      with any bytes received and any write failing, no stale pointer is followed and the login
      counters stay equal to the number of clients logged in.
    - Configuration of the server: a reload keeps that invariant for any files, even when descriptors run
      out; the UPSes after it are the complete sections of ups.conf, and the clients that stay are those whose UPS is
      still there ([UpsdReload]).
    - Timers: a notice that upssched.conf maps to START-TIMER runs the script once, no sooner than asked and in the
      first round after that, unless a CANCEL-TIMER comes first; the queue is the abstract one after any commands;
      the daemon ends ([UpsschedQueue], [UpsschedEnd]).
    - Refinement of data structures: the variable tree to a finite map, the command list to a set,
      a status buffer to an ordered set of words.
    - Parsing: memory bounds of parseconf for all inputs (the subject of CVE-2012-2944), agreement
      of its three feeders, round trip with [pconf_encode]; upsd.users grants what its sections
      say; integers and LISTEN addresses are recognised exactly; a format string that passes
      validation reads no argument of another type.
    - HID: report descriptors of up to 500 bytes are parsed without any out-of-bounds access, and
      fields written by [SetValue] are read back by [GetValue].  Whatever a device answers, libhid stays inside its
      report buffers ([LibHidFacts]); a name that it prints for an item finds the item ([HidPath]).
    - usbhid-ups: ups.status is what the flags of the items say ([UsbHidStatus]); a setting reaches the bits of the
      item's report, and is read back from the device; a reconnection resets the settings that the driver keeps itself; a
      driver that lost its device gives up after the attempts that are configured ([UsbHidEnd]).
    - Faults found: the properties of the kind error, and other theorems named in the findings, prove
      among others the use after free of nested broadcasts and of upsmon's unclassified words, reads
      past an answer in the client library and in upsmon, dumps cut short by an old errno, flags that are
      never withdrawn, frequent polling that is given up while the UPS still needs it, timers used after they
      were freed or written past their end, texts that fit a buffer by the code's own test and are cut by [snprintfcat],
      values that a device refused and that are shown all the same, lists that were cut and look whole, and a reload that
      ends the server.

    ** Fuel and bounds

    [ConfFile.conf_load] has fuel for one round per byte of the file and one more; every round
    consumes a byte ([ConfFile.conf_loop_enough]).  [HidParser.HIDParse] has one round per byte and
    one more, [HidParser.parse_loop] 256 rounds per byte, since a main item is repeated at most 256
    times; [HidSafe.report_descriptor_safe] shows both suffice for descriptors of up to 500 bytes.
    The loops of [hibit] need at most 8 rounds each for 64 bits.  Nested broadcasts are at most
    [DState.SEND_DEPTH] deep: [DStateFacts.broadcasts_terminate] shows that this never runs out, a use after free apart,
    after which C says nothing.  In upsmon the loop for the greatest
    common divisor has the sum of its arguments as fuel ([MonCritFacts.gcd_loop_gcd]), the wait for the
    secondaries four rounds per second of HOSTSYNC and one more ([MonShutFacts.sync_loop_ends]), the final
    delay a round per second ([MonShutFacts.wait_loop_waits]), the loop of SHUTDOWNEXIT a round per second or until the signal
    ([MonCrit.ping_fuel]; with neither, it does run on, and the result says so); when such a loop would not end, or a walk
    of the tree of words meets a node twice, the result says so.  In upssched the lists shorten with
    each step, and the tries of the client are counted by the code.  [UpsdConf.open_retry] tries again once per
    EMFILE that [v_emfile] holds in store, or ten times where the code counts; [UpsdConf.delete_lost] looks at each UPS
    once.  The loops of the clients over a list have one round per byte that is still to come and one more, since every
    row uses up bytes; the wait for a result one per second of its limit and one more; [ClientsFacts.tools_end] shows that
    they suffice.  [UsbHid.instcmd] calls itself one level deep at most ([UsbHid.instcmd_fuel]), and [Float64.printf_double] has the
    length of the format.  Everything else is structural.

    ** Assumptions

    Allocation does not fail.  The callbacks of a driver, [getaddrinfo] to [connect], the
    contents of files, the peer of a socket (the data of each read, the length of each write) and the
    settings of nutauth.conf and of host certificates are arguments.  In upsmon the clock stands still
    while a function runs and goes on where the code sleeps, and signals come at the round that the state names, or not
    at all; [fork] and [popen] succeed.  What a HID device answers, and what opening it gives, are parts of the state.

    ** What is not modelled

    Log messages; SSL, tcp-wrappers and Windows code; listening sockets, the choice of descriptors to
    poll and the process set-up of upsd; hexadecimal floating point in common/str.c; the time limits of the client
    library's reads and its authconf.c; of upsmon the parent process, process set-up, signals but the flags they set, and
    what systemd tells about sleep; of the command-line clients their options and help; upslog and the CGI programs; of
    usbhid-ups matching, opening and shutting down the device and the hooks and tables of its subdrivers; the other
    drivers; [dstate_detect_phasecount]; the main loop of drivers but [DStatus.remember_charge]; nut-scanner and the C++
    libraries. *)

From stdpp Require Export base numbers list gmap strings fin_maps sorting pretty.
From Stdlib Require Export Ascii ZArith Lia.
From Stdlib Require String.
From stdpp Require Import options.

#[global] Set Default Proof Using "Type".
#[global] Open Scope Z_scope.

(** ** Byte strings

    A C string is the list of its characters before the terminating NUL. *)

Abbreviation bytes := (list ascii).

Declare Scope nut_scope.
Delimit Scope nut_scope with nut.
#[global] Open Scope nut_scope.

(** [$"text"] is the C string literal ["text"]. *)
Notation "$ s" := (String.list_ascii_of_string s%string)
  (at level 1, s constr at level 0, only parsing) : nut_scope.

(** The value of a character as an [unsigned char], and as a (signed) [char]. *)
Definition code (c : ascii) : Z := Z.of_N (N_of_ascii c).
Definition schar (c : ascii) : Z := if code c <? 128 then code c else code c - 256.
Definition chr (z : Z) : ascii := ascii_of_N (Z.to_N (z mod 256)).

Definition NUL : ascii := chr 0.
Definition LF : ascii := chr 10.

(** A C truth value. *)
Definition Zbool (b : bool) : Z := if b then 1 else 0.

(** ** Case analysis over the 256 characters *)

Definition all_ascii : list ascii := map (fun n => ascii_of_nat n) (seq 0 256).

Lemma ascii_forall (p : ascii -> bool) :
  forallb p all_ascii = true -> forall c, p c = true.
Proof.
  intros H c. rewrite forallb_forall in H. apply H.
  unfold all_ascii. apply in_map_iff. exists (nat_of_ascii c). split.
  - apply ascii_nat_embedding.
  - apply in_seq. pose proof (nat_ascii_bounded c). lia.
Qed.

Lemma ascii_forall_prop (P : ascii -> Prop) `{forall c, Decision (P c)} :
  forallb (fun c => bool_decide (P c)) all_ascii = true -> forall c, P c.
Proof.
  intros Hall c.
  eapply bool_decide_unpack, Is_true_true_2.
  exact (ascii_forall (fun c => bool_decide (P c)) Hall c).
Qed.

(** [by_ascii] proves a decidable statement about one character by evaluating it on all of them. *)
Ltac by_ascii :=
  match goal with
  | |- forall c : ascii, @?P c =>
      let H := fresh in
      assert (forall c, Decision (P c)) as H by (intros; cbv beta; apply _);
      clear H; apply (ascii_forall_prop P); vm_compute; reflexivity
  end.

Lemma code_range c : 0 <= code c < 256.
Proof. revert c. by_ascii. Qed.

Lemma chr_code c : chr (code c) = c.
Proof. revert c. by_ascii. Qed.

Lemma code_chr z : 0 <= z < 256 -> code (chr z) = z.
Proof.
  intros Hz. unfold code, chr. rewrite Z.mod_small by lia.
  rewrite N_ascii_embedding; [lia|]. lia.
Qed.

Lemma code_inj c d : code c = code d -> c = d.
Proof. intros H. rewrite <- (chr_code c), <- (chr_code d). by rewrite H. Qed.

Lemma schar_small c : code c < 128 -> schar c = code c.
Proof. unfold schar. intros. case_match; [done|]. rewrite Z.ltb_ge in *. lia. Qed.

(** ** Fixed-width integers *)

Definition wrapU (w z : Z) : Z := z mod 2 ^ w.
Definition wrapS (w z : Z) : Z := (z + 2 ^ (w - 1)) mod 2 ^ w - 2 ^ (w - 1).

Abbreviation wrap8 := (wrapU 8).
Abbreviation wrap16 := (wrapU 16).
Abbreviation wrap32 := (wrapU 32).
Abbreviation wrap64 := (wrapU 64).

Lemma wrapU_range w z : 0 <= w -> 0 <= wrapU w z < 2 ^ w.
Proof. intros. apply Z.mod_pos_bound. apply Z.pow_pos_nonneg; lia. Qed.

Lemma wrapU_small w z : 0 <= z < 2 ^ w -> wrapU w z = z.
Proof. intros. by apply Z.mod_small. Qed.

Lemma wrapS_range w z : 0 < w -> - 2 ^ (w - 1) <= wrapS w z < 2 ^ (w - 1).
Proof.
  intros Hw. unfold wrapS.
  assert (2 ^ w = 2 * 2 ^ (w - 1)) as E.
  { replace w with (Z.succ (w - 1)) at 1 by lia. apply Z.pow_succ_r. lia. }
  pose proof (Z.mod_pos_bound (z + 2 ^ (w - 1)) (2 ^ w)).
  assert (0 < 2 ^ (w - 1)) by (apply Z.pow_pos_nonneg; lia). lia.
Qed.

Lemma wrapS_small w z : 0 < w -> - 2 ^ (w - 1) <= z < 2 ^ (w - 1) -> wrapS w z = z.
Proof.
  intros Hw Hz. unfold wrapS.
  assert (2 ^ w = 2 * 2 ^ (w - 1)) as E.
  { replace w with (Z.succ (w - 1)) at 1 by lia. apply Z.pow_succ_r. lia. }
  rewrite Z.mod_small; lia.
Qed.

(** ** Tactics and hints of the development *)

Create HintDb nut.
Create HintDb nutrw.

#[export] Hint Resolve code_range : nut.
#[export] Hint Rewrite @length_app @length_take @length_drop @length_insert
  @length_map @length_replicate : nutrw.

(** Turn the boolean tests of the C code into propositions. *)
Ltac breflect :=
  repeat match goal with
  | H : (_ && _) = true |- _ => apply andb_true_iff in H; destruct H
  | H : (_ || _) = false |- _ => apply orb_false_iff in H; destruct H
  | H : (_ || _) = true |- _ => apply orb_true_iff in H
  | H : (_ && _) = false |- _ => apply andb_false_iff in H
  | H : negb _ = true |- _ => apply negb_true_iff in H
  | H : negb _ = false |- _ => apply negb_false_iff in H
  | H : (_ <? _) = true |- _ => apply Z.ltb_lt in H
  | H : (_ <? _) = false |- _ => apply Z.ltb_ge in H
  | H : (_ <=? _) = true |- _ => apply Z.leb_le in H
  | H : (_ <=? _) = false |- _ => apply Z.leb_gt in H
  | H : (_ =? _) = true |- _ => apply Z.eqb_eq in H
  | H : (_ =? _) = false |- _ => apply Z.eqb_neq in H
  | H : (_ <? _)%nat = true |- _ => apply Nat.ltb_lt in H
  | H : (_ <? _)%nat = false |- _ => apply Nat.ltb_ge in H
  | H : (_ <=? _)%nat = true |- _ => apply Nat.leb_le in H
  | H : (_ <=? _)%nat = false |- _ => apply Nat.leb_gt in H
  | H : (_ =? _)%nat = true |- _ => apply Nat.eqb_eq in H
  | H : (_ =? _)%nat = false |- _ => apply Nat.eqb_neq in H
  | H : bool_decide _ = true |- _ => apply bool_decide_eq_true in H
  | H : bool_decide _ = false |- _ => apply bool_decide_eq_false in H
  end.

(** Split on the scrutinee of an [if] or [match] of the goal and reflect the tests. *)
Ltac csplit := case_match; breflect; simplify_eq/=.
