(* ===== verification/CStr.v ===== *)
(** * The C library's string functions

    What the modelled code relies on of [<string.h>], [<strings.h>], [<ctype.h>]
    and [<stdlib.h>], in the "C" locale: comparison with and without case,
    character classes, searching, number scanning and decimal printing.
    These are library functions, so no line of the repository maps here. *)

From S2P Require Import Prelude.
From stdpp Require Import options.

(** ** Character classes *)

Definition isspace (z : Z) : bool := (z =? 32) || ((9 <=? z) && (z <=? 13)).
Definition tolower_code (z : Z) : Z := if (65 <=? z) && (z <=? 90) then z + 32 else z.
Definition tolower (c : ascii) : ascii := chr (tolower_code (code c)).
Definition lower (s : bytes) : bytes := map tolower s.

(** ** Comparison

    The result of the C functions is specified up to its sign, which is all the
    callers look at, so the model returns -1, 0 or 1. *)

Fixpoint strcmp (a b : bytes) : Z :=
  match a, b with
  | [], [] => 0
  | [], _ :: _ => -1
  | _ :: _, [] => 1
  | x :: a', y :: b' =>
      if code x <? code y then -1 else if code y <? code x then 1 else strcmp a' b'
  end.

Definition strcasecmp (a b : bytes) : Z := strcmp (lower a) (lower b).
Definition strncmp (a b : bytes) (n : nat) : Z := strcmp (take n a) (take n b).
Definition strncasecmp (a b : bytes) (n : nat) : Z := strcasecmp (take n a) (take n b).

(** [!strcmp(a,b)] and [!strcasecmp(a,b)] *)
Definition streq (a b : bytes) : bool := strcmp a b =? 0.
Definition strcaseeq (a b : bytes) : bool := strcasecmp a b =? 0.

Lemma strcmp_cases a b : strcmp a b = -1 \/ strcmp a b = 0 \/ strcmp a b = 1.
Proof. revert b. induction a; intros [|]; simpl; repeat case_match; auto. Qed.

Lemma strcmp_refl a : strcmp a a = 0.
Proof. induction a; simpl; [done|]. by rewrite Z.ltb_irrefl. Qed.

Lemma strcmp_eq a b : strcmp a b = 0 <-> a = b.
Proof.
  split; [|intros ->; apply strcmp_refl].
  revert b. induction a as [|x a IH]; intros [|y b]; simpl; try done.
  repeat csplit; try done. intros ?. f_equal; [apply code_inj; lia|auto].
Qed.

Lemma strcmp_antisym a b : strcmp b a = - strcmp a b.
Proof.
  revert b. induction a as [|x a IH]; intros [|y b]; simpl; try done.
  repeat csplit; try lia. apply IH.
Qed.

Lemma strcmp_trans a b c : strcmp a b < 0 -> strcmp b c < 0 -> strcmp a c < 0.
Proof.
  revert b c. induction a as [|x a IH]; intros [|y b] [|z c]; simpl; try lia.
  repeat csplit; try lia. apply IH.
Qed.

Lemma strcasecmp_antisym a b : strcasecmp b a = - strcasecmp a b.
Proof. apply strcmp_antisym. Qed.

Lemma strcasecmp_eq a b : strcasecmp a b = 0 <-> lower a = lower b.
Proof. apply strcmp_eq. Qed.

Lemma strcasecmp_refl a : strcasecmp a a = 0.
Proof. by apply strcasecmp_eq. Qed.

Lemma strcasecmp_trans a b c :
  strcasecmp a b < 0 -> strcasecmp b c < 0 -> strcasecmp a c < 0.
Proof. apply strcmp_trans. Qed.

Lemma strcasecmp_proper a a' b b' :
  lower a = lower a' -> lower b = lower b' -> strcasecmp a b = strcasecmp a' b'.
Proof. unfold strcasecmp. by intros -> ->. Qed.

Lemma streq_spec a b : streq a b = bool_decide (a = b).
Proof.
  unfold streq. case_bool_decide as E.
  - subst. by rewrite strcmp_refl.
  - apply Z.eqb_neq. by rewrite strcmp_eq.
Qed.

Lemma strcaseeq_spec a b : strcaseeq a b = bool_decide (lower a = lower b).
Proof. apply (streq_spec (lower a) (lower b)). Qed.

Lemma streq_true a b : streq a b = true <-> a = b.
Proof. rewrite streq_spec. apply bool_decide_eq_true. Qed.

Lemma streq_refl a : streq a a = true.
Proof. by apply streq_true. Qed.

Lemma strcaseeq_true a b : strcaseeq a b = true <-> lower a = lower b.
Proof. rewrite strcaseeq_spec. apply bool_decide_eq_true. Qed.

Lemma strcaseeq_refl a : strcaseeq a a = true.
Proof. by apply strcaseeq_true. Qed.

Lemma strcaseeq_sym a b : strcaseeq a b = strcaseeq b a.
Proof. rewrite !strcaseeq_spec. by apply bool_decide_ext. Qed.

Lemma strcaseeq_trans_l a b c :
  strcaseeq a b = true -> strcaseeq a c = strcaseeq b c.
Proof. rewrite strcaseeq_true, !strcaseeq_spec. by intros ->. Qed.

#[export] Hint Resolve streq_refl strcaseeq_refl strcasecmp_refl : nut.

(** ** Searching *)

(** [strchr(set, c) != NULL]; the terminating NUL of [set] is found too. *)
Definition strchr (set : bytes) (c : ascii) : bool :=
  bool_decide (c = NUL) || existsb (Ascii.eqb c) set.

(** The position of the first [c] of [s]. *)
Fixpoint index_of (s : bytes) (c : ascii) : option nat :=
  match s with
  | [] => None
  | x :: s' => if Ascii.eqb x c then Some 0%nat else S <$> index_of s' c
  end.

Fixpoint has_prefix (p s : bytes) : bool :=
  match p, s with
  | [], _ => true
  | _ :: _, [] => false
  | x :: p', y :: s' => Ascii.eqb x y && has_prefix p' s'
  end.

(** The position of the first occurrence of [p] in [s]. *)
Fixpoint strstr_pos (s p : bytes) : option nat :=
  if has_prefix p s then Some 0%nat
  else match s with [] => None | _ :: s' => S <$> strstr_pos s' p end.

Definition strspn_all (s set : bytes) : bool := forallb (fun c => existsb (Ascii.eqb c) set) s.

(** A character array seen as a C string: the characters before its first NUL,
    [None] when the array holds no NUL. *)
Fixpoint cstring (buf : bytes) : option bytes :=
  match buf with
  | [] => None
  | c :: buf' => if decide (c = NUL) then Some [] else cons c <$> cstring buf'
  end.

Definition no_nul (s : bytes) : Prop := Forall (fun c => c <> NUL) s.

Lemma cstring_app s n : no_nul s -> (0 < n)%nat -> cstring (s ++ replicate n NUL) = Some s.
Proof.
  intros Hs Hn. induction Hs as [|c s Hc Hs IH]; simpl.
  - destruct n; [lia|]. by simpl.
  - rewrite decide_False by done. by rewrite IH.
Qed.

(** The words of [s] between separators, without the empty ones: what [strtok] returns in turn. *)
Fixpoint strtok_words (sep : ascii) (word s : bytes) : list bytes :=
  let flush (l : list bytes) := match word with [] => l | _ => word :: l end in
  match s with
  | [] => flush []
  | c :: s' => if Ascii.eqb c sep then flush (strtok_words sep [] s') else strtok_words sep (word ++ [c]) s'
  end.

Example strtok_ex : strtok_words (chr 44) [] ($",load.off,,shutdown.default") = [$"load.off"; $"shutdown.default"].
Proof. reflexivity. Qed.

(** include/common.h: the usual size of a local text buffer. *)
Definition SMALLBUF : nat := 512.

(** [snprintf(dst, size, "%s", s)] into a buffer of [size] bytes. *)
Definition snprintf_s (size : nat) (s : bytes) : bytes := take (size - 1) s.

(** common.c's [snprintfcat(dst, size, ...)], [s] being the text that the format and its arguments describe.
    [vsnprintfcat] takes 1 from [size] before it leaves the byte for the NUL, so the string that results has
    at most [size - 2] characters; what is there already is never cut. *)
Definition snprintfcat (dst : bytes) (size : nat) (s : bytes) : bytes :=
  dst ++ take (size - 1 - length dst - 1) s.

Lemma snprintf_s_id n s : (length s < n)%nat -> snprintf_s n s = s.
Proof. intros. apply take_ge. lia. Qed.

Lemma snprintfcat_id dst n s : (S (length (dst ++ s)) < n)%nat -> snprintfcat dst n s = dst ++ s.
Proof. rewrite length_app. intros. unfold snprintfcat. rewrite take_ge by lia. done. Qed.

Lemma snprintfcat_length dst n s m :
  (length dst <= m)%nat -> (length (snprintfcat dst n s) <= m + length s)%nat.
Proof. intros. unfold snprintfcat. rewrite length_app, length_take. lia. Qed.

Lemma snprintfcat_bound dst n s :
  (length dst < n - 1)%nat -> (length (snprintfcat dst n s) < n - 1)%nat.
Proof. intros. unfold snprintfcat. rewrite length_app, length_take. lia. Qed.

(** Where there is no room, nothing is added. *)
Lemma snprintfcat_full dst n s : (n <= length dst + 2)%nat -> snprintfcat dst n s = dst.
Proof. intros. unfold snprintfcat. replace (n - 1 - length dst - 1)%nat with 0%nat by lia. apply app_nil_r. Qed.

(** A text one character longer than what fits loses its last character. *)
Lemma snprintfcat_cut dst n s c :
  S (S (length (dst ++ s))) = n -> snprintfcat dst n (s ++ [c]) = dst ++ s.
Proof.
  rewrite length_app. intros H. unfold snprintfcat. replace (n - 1 - length dst - 1)%nat with (length s) by lia.
  by rewrite take_app_length.
Qed.

(** ** Number scanning *)

Inductive errno := E_OK | E_INVAL | E_RANGE.

#[export] Instance errno_eq_dec : EqDecision errno.
Proof. solve_decision. Defined.

Definition digit_val (c : ascii) : option Z :=
  let z := code c in
  if (48 <=? z) && (z <=? 57) then Some (z - 48)
  else if (97 <=? z) && (z <=? 122) then Some (z - 87)
  else if (65 <=? z) && (z <=? 90) then Some (z - 55)
  else None.

Definition is_digit (base : Z) (c : ascii) : option Z :=
  d ← digit_val c; if d <? base then Some d else None.

(** The longest run of digits: its value (from [acc]), how many, and the rest. *)
Fixpoint scan_digits (base acc : Z) (s : bytes) : Z * nat * bytes :=
  match s with
  | [] => (acc, 0%nat, [])
  | c :: s' =>
      match is_digit base c with
      | Some d => let '(v, n, r) := scan_digits base (acc * base + d) s' in (v, S n, r)
      | None => (acc, 0%nat, s)
      end
  end.

Fixpoint skip_space (s : bytes) : bytes :=
  match s with
  | c :: s' => if isspace (code c) then skip_space s' else s
  | [] => []
  end.

(** "0x" or "0X" followed by a hexadecimal digit *)
Definition hex_prefix (s : bytes) : bool :=
  match s with
  | z :: x :: d :: _ =>
      (code z =? 48) && ((code x =? 120) || (code x =? 88))
      && match is_digit 16 d with Some _ => true | None => false end
  | _ => false
  end.

Definition eff_base (base : Z) (s : bytes) : Z :=
  if base =? 0
  then if hex_prefix s then 16
       else match s with c :: _ => if code c =? 48 then 8 else 10 | [] => 10 end
  else base.

Definition strip_sign (s : bytes) : bool * bytes :=
  match s with
  | c :: s' => if code c =? 45 then (true, s') else if code c =? 43 then (false, s') else (false, s)
  | [] => (false, [])
  end.

(** The common part of [strtol] and [strtoul]: sign, magnitude, number of digits
    converted and the unconverted tail; [None] for an invalid base. *)
Definition strto (s : bytes) (base : Z) : option (bool * Z * nat * bytes) :=
  if (base =? 0) || ((2 <=? base) && (base <=? 36)) then
    let '(neg, s1) := strip_sign (skip_space s) in
    let b := eff_base base s1 in
    let s2 := if (b =? 16) && hex_prefix s1 then drop 2 s1 else s1 in
    let '(v, n, r) := scan_digits b 0 s2 in
    if (n =? 0)%nat then Some (neg, 0, 0%nat, s) else Some (neg, v, n, r)
  else None.

Definition LONG_MIN : Z := - 2 ^ 63.
Definition LONG_MAX : Z := 2 ^ 63 - 1.
Definition ULONG_MAX : Z := 2 ^ 64 - 1.
Definition INT_MIN : Z := - 2 ^ 31.
Definition INT_MAX : Z := 2 ^ 31 - 1.
Definition UINT_MAX : Z := 2 ^ 32 - 1.
Definition SHRT_MIN : Z := - 2 ^ 15.
Definition SHRT_MAX : Z := 2 ^ 15 - 1.
Definition USHRT_MAX : Z := 2 ^ 16 - 1.

(** [strtol(s, &end, base)]: the value, what [end] points to, and [errno]. *)
Definition strtol (s : bytes) (base : Z) : Z * bytes * errno :=
  match strto s base with
  | None => (0, s, E_INVAL)
  | Some (neg, v, _, r) =>
      let z := if neg then - v else v in
      if z <? LONG_MIN then (LONG_MIN, r, E_RANGE)
      else if LONG_MAX <? z then (LONG_MAX, r, E_RANGE)
      else (z, r, E_OK)
  end.

Definition strtoul (s : bytes) (base : Z) : Z * bytes * errno :=
  match strto s base with
  | None => (0, s, E_INVAL)
  | Some (neg, v, _, r) =>
      if ULONG_MAX <? v then (ULONG_MAX, r, E_RANGE)
      else (if neg then wrap64 (- v) else v, r, E_OK)
  end.

(** [atoi]: the value of [strtol(s, NULL, 10)] converted to [int]. *)
Definition atoi (s : bytes) : Z := wrapS 32 (strtol s 10).1.1.

(** ** Decimal printing ([%d], [%ld], [%i]) *)

Definition show_Z (z : Z) : bytes := String.list_ascii_of_string (pretty z).

Example atoi_ex : atoi ($" -42x") = -42.
Proof. reflexivity. Qed.
Example show_ex : show_Z (-42) = $"-42".
Proof. reflexivity. Qed.
