(* ===== verification/Fmt.v ===== *)
(** * common/common.c: checked formatting strings

    Formatting strings that come from configuration files or tables ("dynamic") are compared with
    the one the code expects before they reach [vsnprintf].  [minimize_formatting_string] keeps what
    matters for reading the arguments; [validate_formatting_string] compares the two results;
    [snprintf_dynamic] formats when they agree.  C strings hold no NUL.

    [minimize_formatting_string] writes to a buffer of [buflen] bytes: the model returns the
    characters it stores before the final NUL, so that it writes one byte more than their number. *)

From S2P Require Import Prelude CStr.
From stdpp Require Import options.

(** How the loop treats a character after a percent sign: kept, kept and ending the conversion
    (as the given character), or skipped. *)
Inductive fmt_class := FKeep | FConv (c : ascii) | FSkip.

Definition ascii_in (c : ascii) (s : bytes) : bool := existsb (Ascii.eqb c) s.

(** the [switch] on [*p], in a C99 build *)
Definition fmt_switch (c : ascii) : fmt_class :=
  if ascii_in c ($"lLhzjt*") then FKeep
  else if ascii_in c ($"di") then FConv (chr 105)
  else if ascii_in c ($"uoxX") then FConv (chr 117)
  else if ascii_in c ($"feEgGFaA") then FConv (chr 102)
  else if ascii_in c ($"cspn") then FConv c
  else FSkip.

(** The [for] loop from the position [p] in [fmt]; [b] are the characters stored, [i] of them. *)
Fixpoint minimize_loop (buflen : nat) (fmt b : bytes) (inEscape : bool) : bytes * bool :=
  match fmt with
  | [] => (b, inEscape)
  | c :: rest =>
      if (length b <? buflen)%nat then
        if Ascii.eqb c (chr 37) then
          match rest with
          | c' :: rest' =>
              if Ascii.eqb c' (chr 37) then minimize_loop buflen rest' b inEscape
              else minimize_loop buflen rest (b ++ [c]) true
          | [] => minimize_loop buflen rest (b ++ [c]) true
          end
        else if inEscape then
          match fmt_switch c with
          | FKeep => minimize_loop buflen rest (b ++ [c]) true
          | FConv c' => minimize_loop buflen rest (b ++ [c']) false
          | FSkip => minimize_loop buflen rest b true
          end
        else minimize_loop buflen rest b false
      else (b, inEscape)
  end.

Definition minimize_formatting_string (buflen : nat) (fmt : option bytes) : option bytes :=
  match fmt with
  | None => None
  | Some fmt => if (buflen =? 0)%nat then None else Some (minimize_loop buflen fmt [] false).1
  end.

(** The bytes [minimize_formatting_string] writes, the NUL included. *)
Definition minimize_written (buflen : nat) (fmt : bytes) : bytes :=
  (minimize_loop buflen fmt [] false).1 ++ [NUL].

(** include/common.h; the buffer of the variant with a static buffer *)
Definition LARGEBUF : nat := 1024.

Definition minimize_formatting_string_staticbuf (fmt : option bytes) : option bytes :=
  minimize_formatting_string LARGEBUF fmt.

(** "strip dangling non-conversion characters", from the end *)
Fixpoint strip_dangling_rev (r : bytes) : bytes :=
  match r with
  | [] => []
  | c :: r' => if ascii_in c ($"*iufcspn") then r else strip_dangling_rev r'
  end.
Definition strip_dangling (s : bytes) : bytes := rev (strip_dangling_rev (rev s)).

Definition validate_formatting_string (fmt_dynamic fmt_reference : option bytes) : Z :=
  match fmt_dynamic, fmt_reference with
  | Some d, Some r =>
      match minimize_formatting_string (length d + 1) (Some d),
            minimize_formatting_string (length r + 1) (Some r) with
      | Some bufD, Some bufR =>
          if streq bufD bufR then 0
          else
            let bufD := strip_dangling bufD in
            if strncmp bufD bufR (length bufD) =? 0 then 1 else -3
      | _, _ => -2
      end
  | _, _ => -1
  end.

(** ** vsnprintf with strings as arguments

    The conversions of the C library that take a string: flags, width and precision, then [s].
    [None] is a conversion that reads another type or no argument at all, which is undefined here. *)

Definition fmt_flag (c : ascii) : bool := ascii_in c ($"-+ #0").
Fixpoint skip_flags (s : bytes) : bool * bytes :=
  match s with
  | c :: s' => if fmt_flag c then let '(m, r) := skip_flags s' in (Ascii.eqb c (chr 45) || m, r) else (false, s)
  | [] => (false, [])
  end.

Definition pad (lft : bool) (width : nat) (s : bytes) : bytes :=
  let fill := replicate (width - length s) (chr 32) in
  if lft then s ++ fill else fill ++ s.

(** A conversion from after the percent sign, with its argument: the text and the rest of the format. *)
Definition printf_string (fmt arg : bytes) : option (bytes * bytes) :=
  let '(lft, f1) := skip_flags fmt in
  let '(width, _, f2) := scan_digits 10 0 f1 in
  let '(txt, f3) :=
    match f2 with
    | c :: f' => if Ascii.eqb c (chr 46)
                 then let '(prec, _, f3) := scan_digits 10 0 f' in (take (Z.to_nat prec) arg, f3)
                 else (arg, f2)
    | [] => (arg, f2)
    end in
  match f3 with
  | c :: f4 => if Ascii.eqb c (chr 115) then Some (pad lft (Z.to_nat width) txt, f4) else None
  | [] => None
  end.

(** The text of a format; the fuel is its length. *)
Fixpoint printf_strings (fuel : nat) (fmt : bytes) (args : list bytes) : option bytes :=
  match fuel with
  | O => Some []
  | S fuel =>
      match fmt with
      | [] => Some []
      | c :: rest =>
          if Ascii.eqb c (chr 37) then
            match rest with
            | c' :: rest' =>
                if Ascii.eqb c' (chr 37) then cons (chr 37) <$> printf_strings fuel rest' args
                else
                  match args with
                  | [] => None
                  | a :: args =>
                      '(txt, rest'') ← printf_string rest a;
                      app txt <$> printf_strings fuel rest'' args
                  end
            | [] => None
            end
          else cons c <$> printf_strings fuel rest args
      end
  end.

Definition vsnprintf_s (size : nat) (fmt : bytes) (args : list bytes) : option bytes :=
  take (size - 1) <$> printf_strings (length fmt) fmt args.

(** The outcomes of [snprintf_dynamic] for a destination of [size] bytes: the text stored; the
    destination left as it was, with the result -1; or undefined behaviour in the C library. *)
Inductive fmt_result := FStored (s : bytes) | FRejected | FUndefined.

Definition vsnprintf_dynamic (size : nat) (fmt_dynamic fmt_reference : bytes) (args : list bytes) : fmt_result :=
  if validate_formatting_string (Some fmt_dynamic) (Some fmt_reference) <? 0 then FRejected
  else match vsnprintf_s size fmt_dynamic args with Some s => FStored s | None => FUndefined end.

Definition snprintf_dynamic := vsnprintf_dynamic.

Example dyn_ex1 : snprintf_dynamic SMALLBUF ($"UPS %s: [%5s] 100%%") ($"%s%s") [$"apc"; $"x"]
  = FStored ($"UPS apc: [    x] 100%").
Proof. reflexivity. Qed.
Example dyn_ex2 : snprintf_dynamic SMALLBUF ($"UPS %s: %d") ($"%s%s") [$"apc"; $"x"] = FRejected.
Proof. reflexivity. Qed.
Example minimize_ex : minimize_formatting_string 99 (Some ($"a%-5.2ld %% %hhX%s %")) = Some ($"%li%hhu%s%").
Proof. reflexivity. Qed.
