(* ===== verification/FmtFacts.v ===== *)
(** * Theorems about checked formatting strings

    A grammar of the formats of the C standard, the types of the arguments that [printf] reads
    for them, and what [minimize_formatting_string] and [validate_formatting_string] make of them. *)

From S2P Require Import Prelude CStr Fmt.
From stdpp Require Import options.

(** ** Formats of the C standard *)

Inductive width_spec := WNone | WStar | WDigits (ds : bytes).

Record conv_spec := mkConv {
  cv_flags : bytes;
  cv_width : width_spec;
  cv_prec : option width_spec;
  cv_len : bytes;
  cv_conv : ascii
}.

Inductive piece := PChar (c : ascii) | PPercent | PConv (s : conv_spec).

Definition render_width (w : width_spec) : bytes :=
  match w with WNone => [] | WStar => $"*" | WDigits ds => ds end.
Definition render_conv (s : conv_spec) : bytes :=
  [chr 37] ++ cv_flags s ++ render_width (cv_width s)
  ++ match cv_prec s with None => [] | Some w => $"." ++ render_width w end
  ++ cv_len s ++ [cv_conv s].
Definition render_piece (p : piece) : bytes :=
  match p with PChar c => [c] | PPercent => $"%%" | PConv s => render_conv s end.
Definition render_fmt (ps : list piece) : bytes := ps ≫= render_piece.

Definition width_ok (w : width_spec) : bool :=
  match w with WDigits ds => forallb (fun c => ascii_in c ($"0123456789")) ds | _ => true end.
Definition conv_ok (s : conv_spec) : bool :=
  forallb fmt_flag (cv_flags s) && width_ok (cv_width s)
  && match cv_prec s with None => true | Some w => width_ok w end
  && bool_decide (cv_len s ∈ [$""; $"hh"; $"h"; $"l"; $"ll"; $"j"; $"z"; $"t"; $"L"])
  && ascii_in (cv_conv s) ($"diuoxXfeEgGFaAcspn").
Definition piece_ok (p : piece) : bool :=
  match p with PChar c => negb (Ascii.eqb c (chr 37)) | PPercent => true | PConv s => conv_ok s end.

(** The type of an argument: by its length modifier, the promoted integers, floating point numbers,
    characters, strings, pointers and counts. *)
Inductive ctype :=
| TSigned (len : bytes) | TUnsigned (len : bytes) | TDouble (len : bytes) | TChar (len : bytes)
| TString (len : bytes) | TPointer (len : bytes) | TCount (len : bytes).

Definition conv_type (len : bytes) (c : ascii) : ctype :=
  if ascii_in c ($"di") then TSigned len
  else if ascii_in c ($"uoxX") then TUnsigned len
  else if ascii_in c ($"c") then TChar len
  else if ascii_in c ($"s") then TString len
  else if ascii_in c ($"p") then TPointer len
  else if ascii_in c ($"n") then TCount len
  else TDouble len.

(** the [int] that an asterisk reads *)
Definition width_types (w : width_spec) : list ctype :=
  match w with WStar => [TSigned []] | _ => [] end.
Definition piece_types (p : piece) : list ctype :=
  match p with
  | PConv s =>
      width_types (cv_width s) ++ match cv_prec s with None => [] | Some w => width_types w end
      ++ [conv_type (cv_len s) (cv_conv s)]
  | _ => []
  end.
(** The arguments [printf] reads for a format. *)
Definition arg_types (ps : list piece) : list ctype := ps ≫= piece_types.

(** ** The loop without its bound *)

Fixpoint mini (fmt : bytes) (esc : bool) : bytes * bool :=
  match fmt with
  | [] => ([], esc)
  | c :: rest =>
      if Ascii.eqb c (chr 37) then
        match rest with
        | c' :: rest' =>
            if Ascii.eqb c' (chr 37) then mini rest' esc
            else let r := mini rest true in (c :: r.1, r.2)
        | [] => ([c], true)
        end
      else if esc then
        match fmt_switch c with
        | FKeep => let r := mini rest true in (c :: r.1, r.2)
        | FConv c' => let r := mini rest false in (c' :: r.1, r.2)
        | FSkip => mini rest true
        end
      else mini rest false
  end.

Lemma bytes_ind2 (P : bytes -> Prop) :
  P [] -> (forall c s, P s -> (forall c' s', s = c' :: s' -> P s') -> P (c :: s)) -> forall s, P s.
Proof.
  intros H0 HS. enough (forall n s, (length s <= n)%nat -> P s) as H by (intros s; by apply (H (length s))).
  induction n as [|n IH]; intros [|c s] Hn; cbn [length] in Hn; try done; [lia|].
  apply HS; [apply IH; lia|]. intros c' s' ->. apply IH. cbn [length] in Hn. lia.
Qed.

Lemma minimize_loop_mini n fmt : forall b esc,
  (length b <= n)%nat -> (minimize_loop n fmt b esc).1 = take n (b ++ (mini fmt esc).1).
Proof.
  induction fmt as [|c s IH IH2] using bytes_ind2; intros b esc Hb.
  { cbn. rewrite app_nil_r, take_ge; done. }
  cbn [minimize_loop mini].
  destruct (Nat.ltb_spec (length b) n) as [Hlt|Hge].
  2:{ cbn. rewrite take_app_le, take_ge by lia. done. }
  assert (forall x e, (minimize_loop n s (b ++ [x]) e).1 = take n (b ++ x :: (mini s e).1)) as Hstep.
  { intros x e. rewrite IH by (rewrite length_app; cbn; lia). by rewrite <- app_assoc. }
  destruct (Ascii.eqb c (chr 37)).
  - destruct s as [|c' s']; [by rewrite Hstep|].
    destruct (Ascii.eqb c' (chr 37)); [exact (IH2 c' s' eq_refl b esc Hb)|by rewrite Hstep].
  - destruct esc; [|by apply IH]. destruct (fmt_switch c); [by rewrite Hstep..|by apply IH].
Qed.

Lemma mini_length fmt : forall esc, (length (mini fmt esc).1 <= length fmt)%nat.
Proof.
  induction fmt as [|c s IH IH2] using bytes_ind2; intros esc; [done|]. cbn [mini length].
  pose proof (IH true). pose proof (IH false).
  destruct (Ascii.eqb c (chr 37)).
  - destruct s as [|c' s']; [done|]. pose proof (IH2 c' s' eq_refl esc).
    destruct (Ascii.eqb c' (chr 37)); cbn [length fst] in *; lia.
  - destruct esc; [destruct (fmt_switch c)|]; cbn [length fst] in *; lia.
Qed.

Lemma minimize_fits n fmt :
  (length fmt < n)%nat -> minimize_formatting_string n (Some fmt) = Some (mini fmt false).1.
Proof.
  intros Hn. unfold minimize_formatting_string. destruct (Nat.eqb_spec n 0); [lia|]. f_equal.
  pose proof (mini_length fmt false). rewrite minimize_loop_mini by (cbn; lia). apply take_ge. cbn. lia.
Qed.

(** ** Minimized standard formats *)

Definition stars (w : width_spec) : bytes := match w with WStar => $"*" | _ => [] end.
Definition mini_conv (s : conv_spec) : bytes :=
  stars (cv_width s) ++ match cv_prec s with None => [] | Some w => stars w end ++ cv_len s.
Definition canon (c : ascii) : ascii :=
  match fmt_switch c with FConv c' => c' | _ => c end.
Definition mini_piece (p : piece) : bytes :=
  match p with PConv s => chr 37 :: mini_conv s ++ [canon (cv_conv s)] | _ => [] end.

Definition is_skip (c : ascii) : bool :=
  match fmt_switch c with FSkip => negb (Ascii.eqb c (chr 37)) | _ => false end.
Definition is_keep (c : ascii) : bool :=
  match fmt_switch c with FKeep => negb (Ascii.eqb c (chr 37)) | _ => false end.

Lemma mini_esc_app s t (f : ascii -> bytes) :
  Forall (fun c => (is_skip c = true /\ f c = []) \/ (is_keep c = true /\ f c = [c])) s ->
  (mini (s ++ t) true) = ((s ≫= f) ++ (mini t true).1, (mini t true).2).
Proof.
  induction 1 as [|c s Hc Hs IH]; [cbn; by destruct (mini t true)|].
  rewrite bind_cons, <- (app_assoc (f c)). cbn [app mini].
  destruct Hc as [[Hc ->]|[Hc ->]]; unfold is_skip, is_keep in Hc;
    destruct (fmt_switch c) eqn:Hsw; try done; apply negb_true_iff in Hc; rewrite Hc, IH; done.
Qed.

Lemma mini_plain c t : Ascii.eqb c (chr 37) = false -> mini (c :: t) false = mini t false.
Proof. intros H. cbn [mini]. by rewrite H. Qed.

(** ** The characters of a conversion, by their role *)

Definition flag_ok (c : ascii) : bool := implb (fmt_flag c) (is_skip c).
Definition digit_ok (c : ascii) : bool := implb (ascii_in c ($"0123456789")) (is_skip c).
Definition type_ok (c : ascii) : bool :=
  implb (ascii_in c ($"diuoxXfeEgGFaAcspn"))
    (match fmt_switch c with FConv c' => negb (is_keep c') && ascii_in c' ($"*iufcspn") | _ => false end
     && negb (Ascii.eqb c (chr 37))).

Lemma flags_skipped s : forallb fmt_flag s = true -> Forall (fun c => is_skip c = true) s.
Proof.
  intros H. rewrite forallb_forall in H. apply Forall_forall. intros c Hc. apply list_elem_of_In, H in Hc.
  pose proof (ascii_forall flag_ok eq_refl c) as Hok. unfold flag_ok in Hok. by rewrite Hc in Hok.
Qed.

Lemma digits_skipped s :
  forallb (fun c => ascii_in c ($"0123456789")) s = true -> Forall (fun c => is_skip c = true) s.
Proof.
  intros H. rewrite forallb_forall in H. apply Forall_forall. intros c Hc. apply list_elem_of_In, H in Hc.
  pose proof (ascii_forall digit_ok eq_refl c) as Hok. unfold digit_ok in Hok. by rewrite Hc in Hok.
Qed.

Lemma mini_skip s t : Forall (fun c => is_skip c = true) s -> mini (s ++ t) true = mini t true.
Proof.
  intros Hs. rewrite (mini_esc_app s t (fun _ => [])).
  - replace (s ≫= fun _ => []) with (@nil ascii) by (clear; by induction s). by destruct (mini t true).
  - eapply Forall_impl; [exact Hs|]. auto.
Qed.

Lemma mini_keep s t :
  Forall (fun c => is_keep c = true) s -> mini (s ++ t) true = (s ++ (mini t true).1, (mini t true).2).
Proof.
  intros Hs. rewrite (mini_esc_app s t (fun c => [c])).
  - replace (s ≫= fun c => [c]) with s; [done|]. clear. induction s; [done|]. by rewrite bind_cons, <- IHs.
  - eapply Forall_impl; [exact Hs|]. auto.
Qed.

Lemma mini_width w t : width_ok w = true ->
  mini (render_width w ++ t) true = (stars w ++ (mini t true).1, (mini t true).2).
Proof.
  destruct w as [| |ds]; intros Hw; [by cbn; destruct (mini t true)|done|].
  rewrite mini_skip by (by apply digits_skipped). by cbn; destruct (mini t true).
Qed.

Lemma len_kept l : l ∈ [$""; $"hh"; $"h"; $"l"; $"ll"; $"j"; $"z"; $"t"; $"L"] -> Forall (fun c => is_keep c = true) l.
Proof.
  intros H. repeat (apply elem_of_cons in H as [->|H]; [repeat constructor|]). by apply elem_of_nil in H.
Qed.

Lemma mini_type c t : ascii_in c ($"diuoxXfeEgGFaAcspn") = true ->
  mini (c :: t) true = (canon c :: (mini t false).1, (mini t false).2).
Proof.
  intros H. pose proof (ascii_forall type_ok eq_refl c) as Hok. unfold type_ok in Hok. rewrite H in Hok.
  apply andb_true_iff in Hok as [Hsw Hp%negb_true_iff]. cbn [mini]. unfold canon. rewrite Hp.
  by destruct (fmt_switch c).
Qed.

Lemma skip_keep_no_percent (p : ascii -> bool) s :
  (p = is_skip \/ p = is_keep) -> Forall (fun c => p c = true) s -> Forall (fun c => Ascii.eqb c (chr 37) = false) s.
Proof.
  intros Hp Hs. eapply Forall_impl; [exact Hs|]. intros c Hc. apply negb_true_iff.
  destruct Hp as [-> | ->]; unfold is_skip, is_keep in Hc; by destruct (fmt_switch c).
Qed.

Lemma width_no_percent w : width_ok w = true -> Forall (fun c => Ascii.eqb c (chr 37) = false) (render_width w).
Proof.
  destruct w; intros Hw; [constructor|by repeat constructor|].
  apply (skip_keep_no_percent is_skip); [by left|]. by apply digits_skipped.
Qed.

Lemma conv_no_percent s :
  forallb fmt_flag (cv_flags s) = true -> width_ok (cv_width s) = true ->
  match cv_prec s with None => true | Some w => width_ok w end = true ->
  cv_len s ∈ [$""; $"hh"; $"h"; $"l"; $"ll"; $"j"; $"z"; $"t"; $"L"] ->
  ascii_in (cv_conv s) ($"diuoxXfeEgGFaAcspn") = true ->
  Forall (fun c => Ascii.eqb c (chr 37) = false)
    (cv_flags s ++ render_width (cv_width s)
     ++ match cv_prec s with None => [] | Some w => $"." ++ render_width w end ++ cv_len s ++ [cv_conv s]).
Proof.
  intros Hf Hw Hp Hl Hc. rewrite !Forall_app. split_and!.
  - apply (skip_keep_no_percent is_skip); [by left|]. by apply flags_skipped.
  - by apply width_no_percent.
  - destruct (cv_prec s); [|constructor]. apply Forall_cons. split; [done|]. by apply width_no_percent.
  - apply (skip_keep_no_percent is_keep); [by right|]. by apply len_kept.
  - apply Forall_singleton. pose proof (ascii_forall type_ok eq_refl (cv_conv s)) as Hok. unfold type_ok in Hok.
    rewrite Hc in Hok. by apply andb_true_iff in Hok as [_ ?%negb_true_iff].
Qed.

Lemma mini_conv_piece s t : conv_ok s = true ->
  mini (render_conv s ++ t) false = (mini_piece (PConv s) ++ (mini t false).1, (mini t false).2).
Proof.
  unfold conv_ok. intros ((((Hf & Hw)%andb_true_iff & Hp)%andb_true_iff & Hl%bool_decide_eq_true)%andb_true_iff & Hc)%andb_true_iff.
  set (tail := cv_flags s ++ render_width (cv_width s)
     ++ match cv_prec s with None => [] | Some w => $"." ++ render_width w end ++ cv_len s ++ [cv_conv s]).
  assert (mini (tail ++ t) true = (mini_conv s ++ canon (cv_conv s) :: (mini t false).1, (mini t false).2)) as Ht.
  { unfold tail, mini_conv. rewrite <- !app_assoc, mini_skip by (by apply flags_skipped).
    rewrite mini_width by done.
    assert (forall u, mini (match cv_prec s with None => [] | Some w => $"." ++ render_width w end ++ u) true
      = (match cv_prec s with None => [] | Some w => stars w end ++ (mini u true).1, (mini u true).2)) as Hpr.
    { intros u. destruct (cv_prec s) as [w|]; [|by cbn; destruct (mini u true)].
      rewrite <- app_assoc. rewrite (mini_skip ($".")) by (by repeat constructor). by apply mini_width. }
    rewrite Hpr, (mini_keep (cv_len s)) by (by apply len_kept). cbn [app fst snd].
    rewrite mini_type by done. cbn [fst snd]. done. }
  change (render_conv s) with (chr 37 :: tail). cbn [app mini]. rewrite Ht, Ascii.eqb_refl.
  assert (exists c r, tail ++ t = c :: r /\ Ascii.eqb c (chr 37) = false) as (c & r & Htl & Hne).
  { assert (Forall (fun c => Ascii.eqb c (chr 37) = false) tail) as Hall by (by apply conv_no_percent).
    destruct tail as [|c r] eqn:Et.
    - exfalso. apply (f_equal length) in Et. unfold tail in Et. rewrite !length_app in Et. cbn in Et. lia.
    - exists c, (r ++ t). by apply Forall_cons in Hall as [? _]. }
  rewrite Htl, Hne. cbn [fst snd mini_piece app]. by rewrite <- app_assoc.
Qed.

Lemma mini_render ps : forallb piece_ok ps = true -> (mini (render_fmt ps) false) = (ps ≫= mini_piece, false).
Proof.
  induction ps as [|p ps IH]; [done|]. cbn [forallb]. intros [Hp Hps]%andb_true_iff. specialize (IH Hps).
  unfold render_fmt in *. rewrite !bind_cons. destruct p as [c| |s]; cbn [render_piece mini_piece app].
  - cbn [piece_ok] in Hp. apply negb_true_iff in Hp. by rewrite mini_plain.
  - exact IH.
  - rewrite mini_conv_piece by done. by rewrite IH.
Qed.

(** ** Reading the types off a minimized format *)

(** what the characters between a percent sign and a conversion character mean *)
Fixpoint key_types (x : bytes) (k : ascii) : list ctype :=
  match x with
  | c :: x' => if Ascii.eqb c (chr 42) then TSigned [] :: key_types x' k else [conv_type x k]
  | [] => [conv_type [] k]
  end.

Lemma conv_type_canon l c : ascii_in c ($"diuoxXfeEgGFaAcspn") = true -> conv_type l (canon c) = conv_type l c.
Proof.
  intros H. unfold ascii_in in H. apply existsb_exists in H as (c' & Hin & ->%Ascii.eqb_eq).
  repeat (destruct Hin as [<-|Hin]; [reflexivity|]). done.
Qed.

Lemma key_types_conv s : conv_ok s = true ->
  piece_types (PConv s) = key_types (mini_conv s) (canon (cv_conv s)).
Proof.
  unfold conv_ok. intros ((((_ & _)%andb_true_iff & _)%andb_true_iff & Hl%bool_decide_eq_true)%andb_true_iff & Hc)%andb_true_iff.
  assert (forall x, key_types (stars x ++ cv_len s) (canon (cv_conv s))
      = width_types x ++ [conv_type (cv_len s) (cv_conv s)]
    /\ key_types (cv_len s) (canon (cv_conv s)) = [conv_type (cv_len s) (cv_conv s)]) as Hk.
  { intros x. rewrite <- (conv_type_canon _ _ Hc). clear Hc. revert Hl. generalize (cv_len s). intros l Hl.
    repeat (apply elem_of_cons in Hl as [->|Hl]; [by destruct x|]). by apply elem_of_nil in Hl. }
  unfold piece_types, mini_conv. destruct (cv_prec s) as [w|].
  - destruct (Hk w) as [<- _]. destruct (cv_width s); reflexivity.
  - cbn [app]. destruct (Hk (cv_width s)) as [<- _]. done.
Qed.

Lemma key_prefix x k s x' k' s' :
  Forall (fun c => is_keep c = true) x -> Forall (fun c => is_keep c = true) x' ->
  is_keep k = false -> is_keep k' = false ->
  (x ++ k :: s) `prefix_of` (x' ++ k' :: s') -> x = x' /\ k = k' /\ s `prefix_of` s'.
Proof.
  intros Hx. revert x'. induction Hx as [|c x Hc Hx IH]; intros [|c' x'] Hx' Hk Hk' Hpre;
    cbn [app] in Hpre; pose proof (prefix_cons_inv_1 _ _ _ _ Hpre) as <-;
    apply prefix_cons_inv_2 in Hpre.
  - done.
  - apply Forall_cons in Hx' as [? _]. congruence.
  - congruence.
  - apply Forall_cons in Hx' as [_ Hx']. by destruct (IH x' Hx' Hk Hk' Hpre) as (-> & -> & ?).
Qed.

Lemma mini_conv_key s : conv_ok s = true ->
  Forall (fun c => is_keep c = true) (mini_conv s) /\ is_keep (canon (cv_conv s)) = false
  /\ ascii_in (canon (cv_conv s)) ($"*iufcspn") = true.
Proof.
  unfold conv_ok. intros ((((_ & _)%andb_true_iff & _)%andb_true_iff & Hl%bool_decide_eq_true)%andb_true_iff & Hc)%andb_true_iff.
  pose proof (ascii_forall type_ok eq_refl (cv_conv s)) as Hok. unfold type_ok in Hok. rewrite Hc in Hok.
  apply andb_true_iff in Hok as [Hsw _]. split.
  - unfold mini_conv. rewrite !Forall_app. split_and!; [by destruct (cv_width s); repeat constructor| |by apply len_kept].
    by destruct (cv_prec s) as [[]|]; repeat constructor.
  - unfold canon. destruct (fmt_switch (cv_conv s)); try done.
    by apply andb_true_iff in Hsw as [?%negb_true_iff ?].
Qed.

Lemma types_prefix ds rs :
  forallb piece_ok ds = true -> forallb piece_ok rs = true ->
  (ds ≫= mini_piece) `prefix_of` (rs ≫= mini_piece) -> arg_types ds `prefix_of` arg_types rs.
Proof.
  unfold arg_types. revert rs. induction ds as [|d ds IH]; intros rs Hd Hr Hpre; [apply prefix_nil|].
  cbn [forallb] in Hd. apply andb_true_iff in Hd as [Hd Hds].
  destruct d as [c| |s]; [by apply IH..|].
  induction rs as [|r rs IHr].
  - by apply prefix_nil_not in Hpre.
  - cbn [forallb] in Hr. apply andb_true_iff in Hr as [Hr Hrs].
    destruct r as [c'| |s']; [by apply IHr..|]. clear IHr. cbn [piece_ok] in Hd, Hr.
    destruct (mini_conv_key s Hd) as (Hk1 & Hk2 & _), (mini_conv_key s' Hr) as (Hk1' & Hk2' & _).
    rewrite !bind_cons in Hpre. rewrite !bind_cons. cbn [mini_piece] in Hpre. rewrite <- !app_comm_cons, <- !app_assoc in Hpre.
    apply prefix_cons_inv_2 in Hpre.
    destruct (key_prefix _ _ _ _ _ _ Hk1 Hk1' Hk2 Hk2' Hpre) as (Heq & Hc & Hrest).
    rewrite !key_types_conv by done. rewrite Heq, Hc. apply prefix_app. by apply IH.
Qed.

(** A minimized standard format ends in a conversion character: nothing dangles. *)
Lemma strip_dangling_mini ps :
  forallb piece_ok ps = true -> strip_dangling (ps ≫= mini_piece) = ps ≫= mini_piece.
Proof.
  intros Hps. unfold strip_dangling.
  assert (strip_dangling_rev (rev (ps ≫= mini_piece)) = rev (ps ≫= mini_piece)) as ->; [|apply rev_involutive].
  induction ps as [|p ps IH] using rev_ind; [done|].
  rewrite forallb_app in Hps. apply andb_true_iff in Hps as [Hps [Hp _]%andb_true_iff].
  rewrite bind_app, bind_cons. cbn [mbind list_bind]. rewrite app_nil_r, rev_app_distr.
  destruct p as [c| |s]; [by apply IH..|]. cbn [mini_piece piece_ok] in *.
  destruct (mini_conv_key s Hp) as (_ & _ & Hin). rewrite app_comm_cons, rev_app_distr.
  cbn [rev app strip_dangling_rev]. by rewrite Hin.
Qed.

(** ** The theorems *)

(** C24. Formats from outside are type safe: when [validate_formatting_string] accepts a standard
    format in place of the expected one, every argument that [printf] reads for it is there and has
    the expected type (the two lists of types are equal, or the first is a prefix of the second). *)
Theorem validated_format_is_type_safe d r :
  forallb piece_ok d = true -> forallb piece_ok r = true ->
  0 <= validate_formatting_string (Some (render_fmt d)) (Some (render_fmt r)) ->
  arg_types d `prefix_of` arg_types r.
Proof.
  intros Hd Hr. unfold validate_formatting_string. rewrite !minimize_fits by lia.
  rewrite !mini_render by done. cbn [fst]. rewrite strip_dangling_mini by done.
  destruct (streq (d ≫= mini_piece) (r ≫= mini_piece)) eqn:Heq.
  - apply streq_true in Heq. intros _. apply types_prefix; [done..|]. by rewrite Heq.
  - unfold strncmp. rewrite (take_ge (d ≫= mini_piece)) by done.
    destruct (Z.eqb_spec (strcmp (d ≫= mini_piece) (take (length (d ≫= mini_piece)) (r ≫= mini_piece))) 0)
      as [Hc|_]; [|lia].
    intros _. apply types_prefix; [done..|]. apply strcmp_eq in Hc. rewrite Hc. apply prefix_take.
Qed.

Lemma validated_format_is_type_safe_witness :
  let conv w c := PConv (mkConv [] w None [] c) in
  let d := map PChar ($"UPS ") ++ [conv (WDigits ($"20")) (chr 115); PChar (chr 58)] in
  let r := [conv WNone (chr 115); conv WNone (chr 115)] in
  arg_types d `prefix_of` arg_types r /\ arg_types d = [TString []].
Proof.
  cbv zeta. split; [|reflexivity]. apply validated_format_is_type_safe; [reflexivity..|]. by vm_compute.
Defined.

(** The bytes [minimize_formatting_string] writes are bounded by the format and the
    buffer: one more than the smaller of the length of the complete result and the size of the
    buffer.  A buffer longer than the format is never exceeded, but a result that fills the buffer
    is terminated one byte after its end. *)
Theorem minimize_writes n fmt :
  length (minimize_written n fmt) = (min n (length (mini fmt false).1) + 1)%nat
  /\ ((length fmt < n)%nat -> (length (minimize_written n fmt) <= n)%nat).
Proof.
  pose proof (mini_length fmt false). unfold minimize_written.
  rewrite length_app, minimize_loop_mini, length_take by (cbn; lia). cbn [app length]. split; lia.
Qed.

Example minimize_overflow :
  (minimize_formatting_string 4 (Some ($"%s%s")), length (minimize_written 4 ($"%s%s"))) = (Some ($"%s%s"), 5%nat).
Proof. reflexivity. Qed.
