(* ===== verification/StrUtil.v ===== *)
(** * common/str.c: trimming, LISTEN addresses and numbers

    The functions that edit a string in place return the new string.  A
    conversion returns the int result, the number stored through the pointer
    and [errno].  The conversions to [double] are in [Float64]. *)

From S2P Require Import Prelude CStr.
From stdpp Require Import options.

(** ** Trimming *)

Fixpoint drop_while (p : ascii -> bool) (s : bytes) : bytes :=
  match s with
  | c :: s' => if p c then drop_while p s' else s
  | [] => []
  end.

Definition str_ltrim_m (string characters : bytes) : bytes :=
  match string, characters with
  | [], _ | _, [] => string
  | _, _ => drop_while (strchr characters) string
  end.

Definition str_rtrim_m (string characters : bytes) : bytes :=
  match string, characters with
  | [], _ | _, [] => string
  | _, _ => rev (drop_while (strchr characters) (rev string))
  end.

Definition str_trim_m (string characters : bytes) : bytes :=
  str_rtrim_m (str_ltrim_m string characters) characters.

(** [char characters[2] = { character, 0 }]: a set with no character if [character] is NUL *)
Definition one_char (character : ascii) : bytes :=
  if decide (character = NUL) then [] else [character].

Definition str_ltrim (string : bytes) (character : ascii) : bytes := str_ltrim_m string (one_char character).
Definition str_rtrim (string : bytes) (character : ascii) : bytes := str_rtrim_m string (one_char character).
Definition str_trim (string : bytes) (character : ascii) : bytes :=
  str_rtrim (str_ltrim string character) character.

Definition space (c : ascii) : bool := isspace (code c).

Definition str_ltrim_space (string : bytes) : bytes := drop_while space string.
Definition str_rtrim_space (string : bytes) : bytes := rev (drop_while space (rev string)).
Definition str_trim_space (string : bytes) : bytes := str_rtrim_space (str_ltrim_space string).

Definition str_ends_with (s suff : option bytes) : Z :=
  match s, suff with
  | None, _ => 0
  | _, None => 1
  | Some s, Some suff =>
      Zbool ((length suff <=? length s)%nat
             && bool_decide (take (length suff) (drop (length s - length suff) s) = suff))
  end.

Definition str_concat (strings : list bytes) : bytes := concat strings.

(** ** Integers *)

Definition conversion : Type := Z * Z * errno.

Definition starts_with (p : ascii -> bool) (s : bytes) : bool :=
  match s with c :: _ => p c | [] => false end.

Definition str_to_long_strict (string : option bytes) (base : Z) : conversion :=
  match string with
  | None | Some [] => (0, 0, E_INVAL)
  | Some s =>
      if starts_with space s then (0, 0, E_INVAL)
      else
        let '(number, ptr, errno) := strtol s base in
        if bool_decide (errno = E_INVAL) || bool_decide (ptr <> []) then (0, 0, E_INVAL)
        else if bool_decide (errno = E_RANGE) then (0, 0, E_RANGE)
        else (1, number, errno)
  end.

Definition str_to_long (string : option bytes) (base : Z) : conversion :=
  match string with
  | None | Some [] => (0, 0, E_INVAL)
  | Some s => str_to_long_strict (Some (str_trim_space s)) base
  end.

Definition plus_or_minus (c : ascii) : bool := (code c =? 43) || (code c =? 45).

Definition str_to_ulong_strict (string : option bytes) (base : Z) : conversion :=
  match string with
  | None | Some [] => (0, 0, E_INVAL)
  | Some s =>
      if starts_with plus_or_minus s || starts_with space s then (0, 0, E_INVAL)
      else
        let '(number, ptr, errno) := strtoul s base in
        if bool_decide (errno = E_INVAL) || bool_decide (ptr <> []) then (0, 0, E_INVAL)
        else if bool_decide (errno = E_RANGE) then (0, 0, E_RANGE)
        else (1, number, errno)
  end.

Definition str_to_ulong (string : option bytes) (base : Z) : conversion :=
  match string with
  | None | Some [] => (0, 0, E_INVAL)
  | Some s => str_to_ulong_strict (Some (str_trim_space s)) base
  end.

(** The tail the narrower conversions share: a range test on a wider number. *)
Definition narrow (lo hi : Z) (r : conversion) : conversion :=
  let '(ret, num, errno) := r in
  if ret =? 0 then (0, 0, errno)
  else if (num <? lo) || (num >? hi) then (0, 0, E_RANGE)
  else (1, num, errno).

Definition str_to_short (string : option bytes) (base : Z) : conversion :=
  narrow SHRT_MIN SHRT_MAX (str_to_long string base).
Definition str_to_short_strict (string : option bytes) (base : Z) : conversion :=
  narrow SHRT_MIN SHRT_MAX (str_to_long_strict string base).
Definition str_to_ushort (string : option bytes) (base : Z) : conversion :=
  narrow 0 USHRT_MAX (str_to_ulong string base).
Definition str_to_ushort_strict (string : option bytes) (base : Z) : conversion :=
  narrow 0 USHRT_MAX (str_to_ulong_strict string base).
Definition str_to_int (string : option bytes) (base : Z) : conversion :=
  narrow INT_MIN INT_MAX (str_to_long string base).
Definition str_to_int_strict (string : option bytes) (base : Z) : conversion :=
  narrow INT_MIN INT_MAX (str_to_long_strict string base).
Definition str_to_uint (string : option bytes) (base : Z) : conversion :=
  narrow 0 UINT_MAX (str_to_ulong string base).
Definition str_to_uint_strict (string : option bytes) (base : Z) : conversion :=
  narrow 0 UINT_MAX (str_to_ulong_strict string base).

Definition str_is_short (string : option bytes) (base : Z) : Z := (str_to_short string base).1.1.
Definition str_is_short_strict (string : option bytes) (base : Z) : Z := (str_to_short_strict string base).1.1.
Definition str_is_ushort (string : option bytes) (base : Z) : Z := (str_to_ushort string base).1.1.
Definition str_is_ushort_strict (string : option bytes) (base : Z) : Z := (str_to_ushort_strict string base).1.1.
Definition str_is_int (string : option bytes) (base : Z) : Z := (str_to_int string base).1.1.
Definition str_is_int_strict (string : option bytes) (base : Z) : Z := (str_to_int_strict string base).1.1.
Definition str_is_uint (string : option bytes) (base : Z) : Z := (str_to_uint string base).1.1.
Definition str_is_uint_strict (string : option bytes) (base : Z) : Z := (str_to_uint_strict string base).1.1.
Definition str_is_long (string : option bytes) (base : Z) : Z := (str_to_long string base).1.1.
Definition str_is_long_strict (string : option bytes) (base : Z) : Z := (str_to_long_strict string base).1.1.
Definition str_is_ulong (string : option bytes) (base : Z) : Z := (str_to_ulong string base).1.1.
Definition str_is_ulong_strict (string : option bytes) (base : Z) : Z := (str_to_ulong_strict string base).1.1.

(** ** LISTEN addresses *)

(** [if (colon)]: the port after the colon at [colon]; the address starts at
    [host] and is cut at [end] if that is set. *)
Definition split_port (string : bytes) (host : nat) (colon end_ : option nat)
    : option (bytes * option bytes) :=
  match colon with
  | Some colon =>
      let p := drop (colon + 1) string in
      let '(ret, number, _) := str_to_uint_strict (Some p) 10 in
      if (colon =? host)%nat || bool_decide (p = []) || negb (strspn_all p ($"0123456789"))
         || (ret =? 0) || (number >? 65535)
      then None
      else Some (take (default colon end_ - host) (drop host string), Some p)
  | None => Some (drop host string, None)
  end.

(** [strchr(s + from, c)]: the position in [s]. *)
Definition index_from (s : bytes) (from : nat) (c : ascii) : option nat :=
  (fun i => from + i)%nat <$> index_of (drop from s) c.

Definition COLON : ascii := chr 58.
Definition LBRACKET : ascii := chr 91.
Definition RBRACKET : ascii := chr 93.

(** [None] is the result 0; otherwise [*address] and [*port]. *)
Definition str_split_listen (string : bytes) : option (bytes * option bytes) :=
  match string with
  | [] => None
  | c0 :: _ =>
      let colon := index_of string COLON in
      if Ascii.eqb c0 LBRACKET then
        end_ ← index_of string RBRACKET;
        colon ← colon;
        if (end_ <? colon)%nat then None
        else
          second ← index_from string (colon + 1) COLON;
          if (end_ <? second)%nat then None
          else if bool_decide (is_Some (index_from string 1 LBRACKET))
               || bool_decide (is_Some (index_from string (end_ + 1) RBRACKET)) then None
          else
            match drop (end_ + 1) string with
            | [] => Some (string, None)
            | c :: _ =>
                if negb (Ascii.eqb c COLON) then None
                else split_port string 1 (Some (end_ + 1)%nat) (Some end_)
            end
      else if bool_decide (is_Some (index_of string LBRACKET))
           || bool_decide (is_Some (index_of string RBRACKET)) then None
      else
        match colon with
        | None => split_port string 0 None None
        | Some k =>
            match strstr_pos string ($":::") with
            | Some triple =>
                if bool_decide (strstr_pos string ($"::") <> Some triple) then None
                else split_port string 0 (Some (triple + 2)%nat) None
            | None =>
                if bool_decide (is_Some (index_from string (k + 1) COLON))
                then split_port string 0 None None
                else split_port string 0 (Some k) None
            end
        end
  end.

Example split_v4_ex : str_split_listen ($"127.0.0.1:3493") = Some ($"127.0.0.1", Some ($"3493")).
Proof. vm_compute. reflexivity. Qed.
Example split_v6_ex : str_split_listen ($"[fe80::1]:3493") = Some ($"fe80::1", Some ($"3493")).
Proof. vm_compute. reflexivity. Qed.
Example split_bare_ex : str_split_listen ($"fe80::1") = Some ($"fe80::1", None).
Proof. vm_compute. reflexivity. Qed.
Example split_any_ex : str_split_listen ($":::80") = Some ($"::", Some ($"80")).
Proof. vm_compute. reflexivity. Qed.
Example split_bracket_ex : str_split_listen ($"[::1]") = Some ($"[::1]", None).
Proof. vm_compute. reflexivity. Qed.
Example split_bad_ex : str_split_listen ($"host:99999") = None.
Proof. vm_compute. reflexivity. Qed.
Example long_hex : str_to_long (Some ($" 0x1F ")) 16 = (1, 31, E_OK).
Proof. vm_compute. reflexivity. Qed.
