(* ===== verification/StrFacts.v ===== *)
(** * What the string utilities accept

    The integers the conversions recognise, and the addresses [str_split_listen] takes apart. *)

From S2P Require Import Prelude CStr StrUtil.
From stdpp Require Import options.

(** ** Numerals *)

Definition digit_of (b : Z) (c : ascii) : Prop := is_Some (is_digit b c).

Definition digits_value (b acc : Z) (ds : bytes) : Z :=
  foldl (fun a c => a * b + default 0 (is_digit b c)) acc ds.

Definition zero_head (ds : bytes) : bool := starts_with (fun c => code c =? 48) ds.

Definition hex_mark (m : bytes) : Prop := m = $"0x" \/ m = $"0X".

(** The digits [ds] of base [b], as they are written when the base argument is
    [base]: hexadecimal digits may follow 0x, and base 0 tells the base by the first characters. *)
Definition written (base b : Z) (m ds : bytes) : Prop :=
  if base =? 0 then
    (b = 16 /\ exists p, hex_mark p /\ m = p ++ ds) \/
    (b = 8 /\ m = ds /\ zero_head ds = true) \/
    (b = 10 /\ m = ds /\ zero_head ds = false)
  else b = base /\ (m = ds \/ (base = 16 /\ exists p, hex_mark p /\ m = p ++ ds)).

(** The string [m] is a numeral without sign of value [v]. *)
Definition magnitude (base : Z) (m : bytes) (v : Z) : Prop :=
  exists b ds, ds <> [] /\ Forall (digit_of b) ds /\ written base b m ds /\ v = digits_value b 0 ds.

(** An optional sign and a magnitude. *)
Definition signed_numeral (base : Z) (s : bytes) (z : Z) : Prop :=
  exists m v, magnitude base m v /\
    ((s = m /\ z = v) \/ (s = chr 43 :: m /\ z = v) \/ (s = chr 45 :: m /\ z = - v)).

Definition valid_base (base : Z) : Prop := base = 0 \/ 2 <= base <= 36.

(** *** The digits that are scanned *)

Lemma scan_digits_all b ds : forall acc, Forall (digit_of b) ds ->
  scan_digits b acc ds = (digits_value b acc ds, length ds, []).
Proof.
  induction ds as [|c ds IH]; intros acc H; [done|]. apply Forall_cons_1 in H as [[d Hd] H].
  simpl. rewrite Hd. simpl. by rewrite IH.
Qed.

Lemma scan_digits_sound b s : forall acc v n,
  scan_digits b acc s = (v, n, []) ->
  Forall (digit_of b) s /\ v = digits_value b acc s /\ n = length s.
Proof.
  induction s as [|c s IH]; intros acc v n H; simpl in *; [by simplify_eq|].
  destruct (is_digit b c) as [d|] eqn:Ed; [|done].
  destruct (scan_digits b (acc * b + d) s) as [[v' n'] r'] eqn:E. simplify_eq.
  destruct (IH _ _ _ E) as (? & -> & ->). split_and!; [|done|done].
  constructor; [by exists d|done].
Qed.

Lemma hex_digit_small c : is_Some (is_digit 16 c) -> (code c =? 120) || (code c =? 88) = false.
Proof.
  revert c. cut (forall c, bool_decide (is_Some (is_digit 16 c)) && ((code c =? 120) || (code c =? 88)) = false).
  { intros H c Hc. specialize (H c). by rewrite bool_decide_true in H. }
  by_ascii.
Qed.

Lemma digit_mono b c : digit_of b c -> b <= 16 -> digit_of 16 c.
Proof.
  intros [d Hd] Hb. unfold is_digit in *. unfold digit_of, is_digit.
  destruct (digit_val c) as [x|]; simpl in *; [|done].
  destruct (Z.ltb_spec x b); [|done]. rewrite (proj2 (Z.ltb_lt x 16)) by lia. by eexists.
Qed.

Lemma no_hex_prefix b ds : Forall (digit_of b) ds -> b <= 16 -> hex_prefix ds = false.
Proof.
  intros H Hb. destruct ds as [|z [|x [|d ds]]]; try done. simpl.
  apply Forall_cons_1 in H as [_ H]. apply Forall_cons_1 in H as [Hx _].
  rewrite (hex_digit_small x) by (by apply (digit_mono b)). by rewrite andb_false_r.
Qed.

Lemma hex_mark_prefix p ds : hex_mark p -> Forall (digit_of 16) ds -> ds <> [] ->
  hex_prefix (p ++ ds) = true /\ drop 2 (p ++ ds) = ds.
Proof.
  intros Hp H Hne. destruct ds as [|d ds]; [done|]. apply Forall_cons_1 in H as [[x Hx] _].
  destruct Hp as [-> | ->]; (split; [|done]); simpl; by rewrite Hx.
Qed.

Lemma hex_prefix_mark s : hex_prefix s = true -> exists p, hex_mark p /\ s = p ++ drop 2 s.
Proof.
  destruct s as [|z [|x [|d s]]]; try done. simpl. intros H. breflect.
  assert (z = chr 48) as -> by (apply code_inj; by rewrite code_chr by lia).
  destruct H1 as [H1|H1]; breflect.
  - assert (x = chr 120) as -> by (apply code_inj; by rewrite code_chr by lia).
    exists ($"0x"). split; [by left|done].
  - assert (x = chr 88) as -> by (apply code_inj; by rewrite code_chr by lia).
    exists ($"0X"). split; [by right|done].
Qed.

(** *** [strto] reads exactly the numerals *)

(** The digits that [strto] scans in a magnitude. *)
Definition scanned (base : Z) (m : bytes) : bytes :=
  if (eff_base base m =? 16) && hex_prefix m then drop 2 m else m.

Lemma zero_head_test m : match m with c :: _ => if code c =? 48 then 8 else 10 | [] => 10 end
  = if zero_head m then 8 else 10.
Proof. by destruct m. Qed.

Lemma written_scanned base b m ds : valid_base base -> ds <> [] -> Forall (digit_of b) ds ->
  written base b m ds -> eff_base base m = b /\ scanned base m = ds.
Proof.
  intros Hv Hne Hd Hw. unfold scanned. unfold written in Hw. unfold eff_base.
  destruct (Z.eqb_spec base 0) as [->|Hb].
  - destruct Hw as [(-> & p & Hp & ->)|[(-> & -> & Hz)|(-> & -> & Hz)]].
    + destruct (hex_mark_prefix p ds Hp Hd Hne) as [-> ->]. done.
    + rewrite (no_hex_prefix 8 ds) by done. by rewrite zero_head_test, Hz.
    + rewrite (no_hex_prefix 10 ds) by done. by rewrite zero_head_test, Hz.
  - destruct Hw as (-> & Hm). split; [done|]. destruct Hm as [->|(-> & p & Hp & ->)].
    + destruct (Z.eqb_spec base 16) as [->|]; [|done]. by rewrite (no_hex_prefix 16 ds).
    + by destruct (hex_mark_prefix p ds Hp Hd Hne) as [-> ->].
Qed.

Lemma scanned_written base m : valid_base base -> scanned base m <> [] ->
  Forall (digit_of (eff_base base m)) (scanned base m) ->
  written base (eff_base base m) m (scanned base m).
Proof.
  intros Hv Hne Hd. unfold written, scanned in *. unfold eff_base in *.
  destruct (Z.eqb_spec base 0) as [->|Hb].
  - destruct (hex_prefix m) eqn:Ex; simpl in *.
    + left. split; [done|]. by apply hex_prefix_mark.
    + right. rewrite zero_head_test. destruct (zero_head m) eqn:Ez; simpl; auto.
  - split; [done|]. destruct (Z.eqb_spec base 16) as [->|]; [|by left].
    destruct (hex_prefix m) eqn:Ex; [|by left]. right. split; [done|]. by apply hex_prefix_mark.
Qed.

(** The characters that start a numeral or are neither a space nor a sign. *)
Definition plain_start (s : bytes) : Prop :=
  s <> [] /\ starts_with space s = false /\ starts_with plus_or_minus s = false.

Lemma digit_not_blank b c : is_Some (is_digit b c) -> space c = false /\ plus_or_minus c = false.
Proof.
  intros [d Hd]. assert (is_Some (digit_val c)) as H.
  { unfold is_digit in Hd. destruct (digit_val c); [by eexists|done]. }
  clear Hd. revert c H.
  cut (forall c, negb (bool_decide (is_Some (digit_val c))) || (negb (space c) && negb (plus_or_minus c)) = true).
  { intros H c Hc. specialize (H c). rewrite bool_decide_true in H by done. simpl in H.
    breflect. by split. }
  by_ascii.
Qed.

Lemma written_plain base b m ds : ds <> [] -> Forall (digit_of b) ds -> written base b m ds -> plain_start m.
Proof.
  intros Hne Hd Hw.
  assert (plain_start ds) as Hds.
  { destruct ds as [|c ds]; [done|]. apply Forall_cons_1 in Hd as [Hc _].
    destruct (digit_not_blank b c Hc). done. }
  assert (forall p, hex_mark p -> plain_start (p ++ ds)) as Hx by (intros p [-> | ->]; done).
  unfold written in Hw. destruct (base =? 0).
  - destruct Hw as [(-> & p & Hp & ->)|[(-> & -> & _)|(-> & -> & _)]]; auto.
  - destruct Hw as (-> & [->|(-> & p & Hp & ->)]); auto.
Qed.

Lemma skip_space_plain s : starts_with space s = false -> skip_space s = s.
Proof. destruct s as [|c s]; [done|]. simpl. unfold space. by intros ->. Qed.

Lemma strip_sign_plain s : starts_with plus_or_minus s = false -> strip_sign s = (false, s).
Proof.
  destruct s as [|c s]; [done|]. simpl. unfold plus_or_minus. intros H. breflect.
  by rewrite (proj2 (Z.eqb_neq _ _) H), (proj2 (Z.eqb_neq _ _) H0).
Qed.

Lemma strto_scan base s neg m : valid_base base -> starts_with space s = false ->
  strip_sign s = (neg, m) ->
  strto s base = let '(v, n, r) := scan_digits (eff_base base m) 0 (scanned base m) in
                 if (n =? 0)%nat then Some (neg, 0, 0%nat, s) else Some (neg, v, n, r).
Proof.
  intros Hv Hsp Hs. unfold strto. rewrite skip_space_plain, Hs by done.
  assert ((base =? 0) || ((2 <=? base) && (base <=? 36)) = true) as ->; [|done].
  destruct Hv as [->|[? ?]]; [done|]. apply orb_true_iff. right. apply andb_true_iff.
  by rewrite !Z.leb_le.
Qed.

(** A magnitude after a sign that [strip_sign] takes off. *)
Lemma strto_magnitude base s neg m v : valid_base base -> starts_with space s = false ->
  strip_sign s = (neg, m) -> magnitude base m v ->
  exists n, strto s base = Some (neg, v, n, []).
Proof.
  intros Hv Hsp Hs (b & ds & Hne & Hd & Hw & ->).
  rewrite (strto_scan base s neg m) by done.
  destruct (written_scanned base b m ds Hv Hne Hd Hw) as [-> ->].
  rewrite scan_digits_all by done. destruct ds; [done|]. by eexists.
Qed.

Lemma strto_none base s neg m : valid_base base -> s <> [] -> starts_with space s = false ->
  strip_sign s = (neg, m) -> ~ (exists v, magnitude base m v) ->
  exists neg' v n r, strto s base = Some (neg', v, n, r) /\ r <> [].
Proof.
  intros Hv Hs0 Hsp Hs Hno. rewrite (strto_scan base s neg m) by done.
  destruct (scan_digits _ _ _) as [[v n] r] eqn:E.
  destruct (Nat.eqb_spec n 0) as [->|Hn]; [by eexists _, _, _, _|].
  eexists _, _, _, _. split; [done|]. intros ->. apply Hno.
  apply scan_digits_sound in E as (Hd & -> & ->).
  assert (scanned base m <> []) as Hne by (intros E; rewrite E in Hn; done).
  eexists _, (eff_base base m), (scanned base m). split_and!; [done|done| |done].
  by apply scanned_written.
Qed.

(** ** The conversions *)

Lemma magnitude_plain base m v : magnitude base m v -> plain_start m.
Proof. intros (b & ds & Hne & Hd & Hw & _). by apply (written_plain base b m ds). Qed.

Lemma strip_sign_numeral base s neg m z : strip_sign s = (neg, m) ->
  signed_numeral base s z <-> exists v, magnitude base m v /\ z = if neg then - v else v.
Proof.
  intros Hs. split.
  - intros (m' & v & Hm & Hc). exists v.
    destruct (magnitude_plain _ _ _ Hm) as (_ & _ & Hp).
    destruct Hc as [[-> ->]|[[-> ->]|[-> ->]]].
    + rewrite strip_sign_plain in Hs by done. by simplify_eq.
    + simpl in Hs. by simplify_eq.
    + simpl in Hs. by simplify_eq.
  - intros (v & Hm & ->). exists m, v. split; [done|].
    destruct s as [|c s]; simpl in Hs; [simplify_eq; by left|].
    destruct (Z.eqb_spec (code c) 45) as [E|]; [|destruct (Z.eqb_spec (code c) 43) as [E|]]; simplify_eq.
    + right. right. split; [|done]. f_equal. apply code_inj. by rewrite code_chr.
    + right. left. split; [|done]. f_equal. apply code_inj. by rewrite code_chr.
    + by left.
Qed.

Inductive int_kind := KShort | KUShort | KInt | KUInt | KLong | KULong.

Definition signed (k : int_kind) : bool :=
  match k with KShort | KInt | KLong => true | _ => false end.

Definition kind_min (k : int_kind) : Z :=
  match k with KShort => - 2 ^ 15 | KInt => - 2 ^ 31 | KLong => - 2 ^ 63 | _ => 0 end.

Definition kind_max (k : int_kind) : Z :=
  match k with
  | KShort => 2 ^ 15 - 1 | KUShort => 2 ^ 16 - 1 | KInt => 2 ^ 31 - 1
  | KUInt => 2 ^ 32 - 1 | KLong => 2 ^ 63 - 1 | KULong => 2 ^ 64 - 1
  end.

Definition strict_conv (k : int_kind) : option bytes -> Z -> conversion :=
  match k with
  | KShort => str_to_short_strict | KUShort => str_to_ushort_strict | KInt => str_to_int_strict
  | KUInt => str_to_uint_strict | KLong => str_to_long_strict | KULong => str_to_ulong_strict
  end.

Definition lenient_conv (k : int_kind) : option bytes -> Z -> conversion :=
  match k with
  | KShort => str_to_short | KUShort => str_to_ushort | KInt => str_to_int
  | KUInt => str_to_uint | KLong => str_to_long | KULong => str_to_ulong
  end.

Definition numeral (k : int_kind) (base : Z) (s : bytes) (z : Z) : Prop :=
  if signed k then signed_numeral base s z else magnitude base s z.

(** The number if [s] is a numeral in range, ERANGE if it is a numeral out of range, else EINVAL. *)
Definition converts (k : int_kind) (base : Z) (s : bytes) (r : conversion) : Prop :=
  (forall z, numeral k base s z ->
     r = if (kind_min k <=? z) && (z <=? kind_max k) then (1, z, E_OK) else (0, 0, E_RANGE)) /\
  (~ (exists z, numeral k base s z) -> r = (0, 0, E_INVAL)).

Lemma digits_value_nonneg b ds : 0 <= b -> forall acc, 0 <= acc -> 0 <= digits_value b acc ds.
Proof.
  intros Hb. induction ds as [|c ds IH]; intros acc Ha; simpl; [done|]. apply IH.
  assert (0 <= default 0 (is_digit b c)); [|nia].
  assert (forall d, digit_val c = Some d -> 0 <= d) as Hd.
  { intros d. unfold digit_val. repeat case_match; intros ?; simplify_eq; breflect; lia. }
  unfold is_digit. destruct (digit_val c) as [d|]; simpl; [|done].
  specialize (Hd d eq_refl). by destruct (d <? b).
Qed.

Lemma magnitude_nonneg base m v : valid_base base -> magnitude base m v -> 0 <= v.
Proof.
  intros Hv (b & ds & _ & _ & Hw & ->). apply digits_value_nonneg; [|done].
  unfold written in Hw. destruct (Z.eqb_spec base 0).
  - destruct Hw as [(-> & _)|[(-> & _)|(-> & _)]]; lia.
  - destruct Hw as (-> & _). destruct Hv as [?|[? ?]]; lia.
Qed.

Lemma long_strict_converts base s : valid_base base ->
  converts KLong base s (str_to_long_strict (Some s) base).
Proof.
  intros Hv. destruct (strip_sign s) as [neg m] eqn:Es. unfold converts, numeral. simpl signed. cbv iota.
  assert (s = [] \/ starts_with space s = true \/ (s <> [] /\ starts_with space s = false)) as Hcase.
  { destruct s; [by left|]. destruct (starts_with space _); auto. }
  assert ((s = [] \/ starts_with space s = true) -> ~ exists z, signed_numeral base s z) as Hbad.
  { intros Hb (z & m' & v & Hm & Hc). destruct (magnitude_plain _ _ _ Hm) as (H0 & H1 & _).
    destruct Hc as [[-> _]|[[-> _]|[-> _]]]; destruct Hb as [Hb|Hb]; try done. by rewrite H1 in Hb. }
  unfold str_to_long_strict. destruct Hcase as [->|[Hsp|[Hne Hsp]]].
  - split; [|done]. intros z Hz. destruct Hbad; [by left|by exists z].
  - split; [|intros _; destruct s; [done|by rewrite Hsp]].
    intros z Hz. destruct Hbad; [by right|by exists z].
  - destruct s as [|c s']; [done|]. rewrite Hsp. set (s := c :: s') in *. clearbody s. split.
    + intros z Hz. rewrite (strip_sign_numeral base s neg m z Es) in Hz. destruct Hz as (v & Hm & ->).
      destruct (strto_magnitude base s neg m v Hv Hsp Es Hm) as [n Hn].
      unfold strtol. rewrite Hn. unfold LONG_MIN, LONG_MAX. simpl kind_min. simpl kind_max.
      set (z := if neg then - v else v). clearbody z. clear.
      destruct (Z.ltb_spec z (- 2 ^ 63)); [by rewrite (proj2 (Z.leb_gt (- 2 ^ 63) z))|].
      rewrite (proj2 (Z.leb_le (- 2 ^ 63) z)) by lia.
      destruct (Z.ltb_spec (2 ^ 63 - 1) z); [by rewrite (proj2 (Z.leb_gt z (2 ^ 63 - 1)))|].
      by rewrite (proj2 (Z.leb_le z (2 ^ 63 - 1))) by lia.
    + intros Hno. destruct (strto_none base s neg m Hv Hne Hsp Es) as (neg' & v & n & r & E & Hr).
      { intros [v Hm]. apply Hno. exists (if neg then - v else v).
        rewrite (strip_sign_numeral base s neg m _ Es). by exists v. }
      unfold strtol. rewrite E. cbv zeta.
      destruct (_ <? LONG_MIN); [|destruct (LONG_MAX <? _)];
        by rewrite (bool_decide_true (r <> [])), orb_true_r by done.
Qed.

Lemma ulong_strict_converts base s : valid_base base ->
  converts KULong base s (str_to_ulong_strict (Some s) base).
Proof.
  intros Hv. unfold converts, numeral. simpl signed. cbv iota.
  assert ((s = [] \/ starts_with plus_or_minus s || starts_with space s = true) ->
    ~ exists z, magnitude base s z) as Hbad.
  { intros Hb (z & Hm). destruct (magnitude_plain _ _ _ Hm) as (H0 & H1 & H2).
    destruct Hb as [Hb|Hb]; [done|]. by rewrite H1, H2 in Hb. }
  destruct (decide (s = [])) as [->|Hne]; [split; [|done]; intros z Hz; destruct Hbad; eauto|].
  unfold str_to_ulong_strict. destruct s as [|c s']; [done|].
  destruct (starts_with plus_or_minus _ || starts_with space _) eqn:Hst.
  { split; [|done]. intros z Hz. destruct Hbad; eauto. }
  set (s := c :: s') in *. clearbody s. breflect.
  pose proof (strip_sign_plain s H) as Es. split.
  - intros z Hm. pose proof (magnitude_nonneg _ _ _ Hv Hm).
    destruct (strto_magnitude base s false s z Hv H0 Es Hm) as [n Hn].
    unfold strtoul. rewrite Hn. unfold ULONG_MAX. simpl kind_min. simpl kind_max.
    rewrite (proj2 (Z.leb_le 0 z)) by lia.
    destruct (Z.ltb_spec (2 ^ 64 - 1) z); [by rewrite (proj2 (Z.leb_gt z (2 ^ 64 - 1)))|].
    by rewrite (proj2 (Z.leb_le z (2 ^ 64 - 1))) by lia.
  - intros Hno. destruct (strto_none base s false s Hv Hne H0 Es Hno) as (neg' & v & n & r & E & Hr).
    unfold strtoul. rewrite E. cbv zeta.
    destruct (ULONG_MAX <? _); by rewrite (bool_decide_true (r <> [])), orb_true_r by done.
Qed.

(** A narrower type of the same signedness. *)
Lemma narrow_converts k k' base s r : signed k = signed k' ->
  kind_min k' <= kind_min k -> kind_max k <= kind_max k' ->
  converts k' base s r -> converts k base s (narrow (kind_min k) (kind_max k) r).
Proof.
  intros Hs Hlo Hhi [H1 H2]. unfold converts, numeral in *. rewrite Hs. split.
  - intros z Hz. rewrite (H1 z Hz).
    destruct (Z.leb_spec (kind_min k') z), (Z.leb_spec z (kind_max k')),
      (Z.leb_spec (kind_min k) z), (Z.leb_spec z (kind_max k)); simpl; rewrite ?Z.gtb_ltb; try done; try lia;
      destruct (Z.ltb_spec z (kind_min k)), (Z.ltb_spec (kind_max k) z); simpl; done || lia.
  - intros Hno. by rewrite (H2 Hno).
Qed.

Lemma strict_converts k base s : valid_base base -> converts k base s (strict_conv k (Some s) base).
Proof.
  intros Hv. pose proof (long_strict_converts base s Hv) as Hl.
  pose proof (ulong_strict_converts base s Hv) as Hu.
  destruct k; simpl; try done;
    first [by apply (narrow_converts KShort KLong)|by apply (narrow_converts KUShort KULong)
          |by apply (narrow_converts KInt KLong)|by apply (narrow_converts KUInt KULong)].
Qed.

(** The lenient conversions are the strict ones after trimming. *)
Lemma lenient_strict k base s : lenient_conv k (Some s) base = strict_conv k (Some (str_trim_space s)) base.
Proof. by destruct k, s. Qed.

(** *** Trimming *)

Lemma drop_while_spec p s : exists a : bytes, s = a ++ drop_while p s /\
  Forall (fun c => p c = true) a /\ starts_with p (drop_while p s) = false.
Proof.
  induction s as [|c s (a & E & Ha & Hs)]; simpl; [by exists []|].
  destruct (p c) eqn:Ec; [|by exists []]. exists (c :: a). simpl. rewrite <- E. split_and!; [done|by constructor|done].
Qed.

Lemma trim_spec p s : let t := rev (drop_while p (rev (drop_while p s))) in
  exists a b : bytes, s = a ++ t ++ b /\ Forall (fun c => p c = true) a /\ Forall (fun c => p c = true) b /\
  starts_with p t = false /\ starts_with p (rev t) = false.
Proof.
  intros t. destruct (drop_while_spec p s) as (a & Ea & Ha & Hsa).
  destruct (drop_while_spec p (rev (drop_while p s))) as (b & Eb & Hb & Hsb).
  assert (drop_while p s = t ++ rev b) as Et.
  { unfold t. by rewrite <- rev_app_distr, <- Eb, rev_involutive. }
  exists a, (rev b). rewrite <- Et. split_and!; [done|done| | |].
  - apply Forall_forall. intros c Hc. apply list_elem_of_In, in_rev, list_elem_of_In in Hc.
    by apply (proj1 (Forall_forall _ _) Hb).
  - rewrite Et in Hsa. by destruct t.
  - unfold t. by rewrite rev_involutive.
Qed.

(** C40. Each of the twelve integer conversions accepts exactly the numerals of its
    base (2 to 36, or 0 for the base told by the prefix) whose value its type can hold, with or without
    a sign as the type allows, and stores that value; a numeral out of range
    gives ERANGE, anything else EINVAL, and both store 0.  The lenient ones first drop the
    spaces at both ends, and nothing else. *)
Theorem str_to_integer_correct k base s : valid_base base ->
  converts k base s (strict_conv k (Some s) base) /\
  converts k base (str_trim_space s) (lenient_conv k (Some s) base) /\
  exists a b : bytes, s = a ++ str_trim_space s ++ b /\
  Forall (fun c => space c = true) a /\ Forall (fun c => space c = true) b /\
  starts_with space (str_trim_space s) = false /\ starts_with space (rev (str_trim_space s)) = false.
Proof.
  intros Hv. split; [by apply strict_converts|]. split; [|apply (trim_spec space s)].
  rewrite lenient_strict. by apply strict_converts.
Qed.

Lemma str_to_integer_correct_witness :
  converts KUShort 10 ($"70000") (0, 0, E_RANGE) /\
  converts KInt 16 ($"-0x1F") (1, -31, E_OK) /\
  converts KLong 0 (str_trim_space ($" 017 ")) (1, 15, E_OK).
Proof.
  split; [|split].
  - apply (str_to_integer_correct KUShort 10 ($"70000")). right. lia.
  - apply (str_to_integer_correct KInt 16 ($"-0x1F")). right. lia.
  - apply (str_to_integer_correct KLong 0 ($" 017 ")). by left.
Defined.
