(* ===== verification/ListenFacts.v ===== *)
(** * What [str_split_listen] does to an address

    The forms of a LISTEN address, as a relation, and the theorem that the
    function recognises exactly these. *)

From S2P Require Import Prelude CStr StrUtil StrFacts.
From stdpp Require Import options.

(** ** Positions in a string *)

Lemma index_of_app (l r : bytes) c : c ∉ l -> index_of (l ++ c :: r) c = Some (length l).
Proof.
  induction l as [|x l IH]; intros H; simpl.
  - by rewrite Ascii.eqb_refl.
  - apply not_elem_of_cons in H as [Hx Hl]. rewrite (proj2 (Ascii.eqb_neq x c)) by done.
    by rewrite IH.
Qed.

Lemma index_of_none (s : bytes) c : index_of s c = None <-> c ∉ s.
Proof.
  induction s as [|x s IH]; simpl; [by split; [intros _ H; apply elem_of_nil in H|]|].
  rewrite not_elem_of_cons, <- IH. destruct (Ascii.eqb_spec x c) as [->|].
  - split; [done|]. by intros [? _].
  - rewrite fmap_None. naive_solver.
Qed.

Lemma index_of_some (s : bytes) c i : index_of s c = Some i ->
  exists l r : bytes, s = l ++ c :: r /\ c ∉ l /\ length l = i.
Proof.
  revert i. induction s as [|x s IH]; intros i H; simpl in H; [done|].
  destruct (Ascii.eqb_spec x c) as [->|Hne]; simplify_eq.
  - exists [], s. split_and!; [done|apply not_elem_of_nil|done].
  - apply fmap_Some in H as (j & Hj & ->). destruct (IH j Hj) as (l & r & -> & Hl & <-).
    exists (x :: l), r. split_and!; [done| |done]. by apply not_elem_of_cons.
Qed.

Lemma index_of_is_some (s : bytes) c : is_Some (index_of s c) <-> c ∈ s.
Proof.
  rewrite <- not_eq_None_Some, index_of_none. destruct (decide (c ∈ s)); naive_solver.
Qed.

Lemma index_from_app (l r : bytes) c n : n = length l -> index_from (l ++ r) n c = (fun i => n + i)%nat <$> index_of r c.
Proof. intros ->. unfold index_from. by rewrite drop_app_length. Qed.

(** An occurrence of [p] in [s] after [l]. *)
Definition occurs (s p l : bytes) : Prop := exists r : bytes, s = l ++ p ++ r.

Lemma has_prefix_spec (p s : bytes) : has_prefix p s = true <-> exists r : bytes, s = p ++ r.
Proof.
  revert s. induction p as [|x p IH]; intros s; simpl; [split; [by exists s|done]|].
  destruct s as [|y s]; [split; [done|by intros [r ?]]|].
  rewrite andb_true_iff, IH, Ascii.eqb_eq. split.
  - intros [-> [r ->]]. by exists r.
  - intros [r [= -> ->]]. split; [done|by exists r].
Qed.

Lemma strstr_none (s p : bytes) : strstr_pos s p = None <-> forall l, ~ occurs s p l.
Proof.
  induction s as [|c s IH]; simpl; destruct (has_prefix p _) eqn:Ep.
  - split; [done|]. intros H. apply has_prefix_spec in Ep as [r Hr]. destruct (H []). by exists r.
  - split; [|done]. intros _ l [r Hr]. destruct l; [|done]. simpl in Hr.
    rewrite (proj2 (has_prefix_spec p [])) in Ep; [done|by exists r].
  - split; [done|]. intros H. apply has_prefix_spec in Ep as [r Hr]. destruct (H []). by exists r.
  - rewrite fmap_None, IH. split.
    + intros H l [r Hr]. destruct l as [|x l]; simpl in Hr.
      * rewrite (proj2 (has_prefix_spec p (c :: s))) in Ep; [done|by exists r].
      * simplify_eq. apply (H l). by exists r.
    + intros H l [r ->]. apply (H (c :: l)). by exists r.
Qed.

(** The first occurrence. *)
Lemma strstr_some (s p : bytes) i : strstr_pos s p = Some i <->
  exists l, occurs s p l /\ length l = i /\ forall l', occurs s p l' -> (length l <= length l')%nat.
Proof.
  revert i. induction s as [|c s IH]; intros i; simpl; destruct (has_prefix p _) eqn:Ep.
  - apply has_prefix_spec in Ep as [r Hr]. split.
    + intros ?. simplify_eq. exists []. split_and!; [by exists r|done|simpl; lia].
    + intros (l & [r' Hl] & <- & _). by destruct l.
  - split; [done|]. intros (l & [r Hr] & _). destruct l; [|done]. simpl in Hr.
    rewrite (proj2 (has_prefix_spec p [])) in Ep; [done|by exists r].
  - apply has_prefix_spec in Ep as [r Hr]. split.
    + intros ?. simplify_eq. exists []. split_and!; [by exists r|done|simpl; lia].
    + intros (l & _ & <- & Hmin). specialize (Hmin [] ltac:(by exists r)). by destruct l; simpl in *; [|lia].
  - rewrite fmap_Some. split.
    + intros (j & Hj & ->). apply IH in Hj as (l & [r ->] & <- & Hmin). exists (c :: l).
      split_and!; [by exists r|done|]. intros l' [r' Hl']. destruct l' as [|x l']; simpl in Hl'.
      * rewrite (proj2 (has_prefix_spec p _)) in Ep; [done|by exists r'].
      * injection Hl' as -> Hl'. simpl. apply le_n_S, Hmin. by exists r'.
    + intros (l & [r Hl] & <- & Hmin). destruct l as [|x l]; simpl in Hl.
      * rewrite (proj2 (has_prefix_spec p _)) in Ep; [done|by exists r].
      * injection Hl as -> ->. exists (length l). split; [|done]. apply IH. exists l.
        split_and!; [by exists r|done|]. intros l' [r' Hl'].
        specialize (Hmin (x :: l') ltac:(exists r'; by rewrite Hl')). simpl in Hmin. lia.
Qed.

(** ** Ports *)

Definition port_ok (p : bytes) : Prop :=
  p <> [] /\ Forall (digit_of 10) p /\ digits_value 10 0 p <= 65535.

Lemma strspn_digits p : strspn_all p ($"0123456789") = true <-> Forall (digit_of 10) p.
Proof.
  unfold strspn_all. rewrite forallb_forall, Forall_forall.
  assert (forall c, existsb (Ascii.eqb c) ($"0123456789") = bool_decide (is_Some (is_digit 10 c))) as E by by_ascii.
  split; intros H c Hc.
  - apply list_elem_of_In, H in Hc. rewrite E in Hc. by apply bool_decide_eq_true in Hc.
  - rewrite E. apply bool_decide_eq_true, H. by apply list_elem_of_In.
Qed.

Lemma digits_magnitude p : p <> [] -> Forall (digit_of 10) p -> magnitude 10 p (digits_value 10 0 p).
Proof. intros Hne Hd. exists 10, p. split_and!; [done|done| |done]. split; [done|by left]. Qed.

Lemma port_test p :
  (let '(ret, number, _) := str_to_uint_strict (Some p) 10 in
   bool_decide (p = []) || negb (strspn_all p ($"0123456789")) || (ret =? 0) || (number >? 65535)) = false
  <-> port_ok p.
Proof.
  destruct (decide (p = [])) as [->|Hne].
  { split; [vm_compute; done|]. by intros [? _]. }
  destruct (strspn_all p ($"0123456789")) eqn:Ed.
  2: { destruct (str_to_uint_strict (Some p) 10) as [[ret number] e].
       rewrite orb_true_r. split; [done|]. intros (_ & Hd & _). by rewrite (proj2 (strspn_digits p)) in Ed. }
  apply strspn_digits in Ed.
  destruct (strict_converts KUInt 10 p) as [H _]; [right; lia|]. simpl strict_conv in H.
  rewrite (H (digits_value 10 0 p)) by (by apply digits_magnitude).
  rewrite bool_decide_false by done. simpl kind_min. simpl kind_max.
  pose proof (digits_value_nonneg 10 p ltac:(lia) 0 ltac:(lia)).
  rewrite (proj2 (Z.leb_le 0 _)) by lia. unfold port_ok.
  destruct (Z.leb_spec (digits_value 10 0 p) (2 ^ 32 - 1)); simpl; rewrite ?Z.gtb_ltb.
  - rewrite Z.ltb_ge. naive_solver.
  - split; [done|]. intros (_ & _ & ?). lia.
Qed.

#[export] Instance port_ok_dec p : Decision (port_ok p).
Proof. unfold port_ok, digit_of. apply _. Defined.

Lemma split_port_spec (l p : bytes) host e :
  split_port (l ++ COLON :: p) host (Some (length l)) e
  = if decide (length l <> host /\ port_ok p)
    then Some (take (default (length l) e - host) (drop host (l ++ COLON :: p)), Some p) else None.
Proof.
  unfold split_port.
  assert (drop (length l + 1) (l ++ COLON :: p) = p) as ->.
  { rewrite Nat.add_comm. rewrite cons_middle, app_assoc.
    replace (1 + length l)%nat with (length (l ++ [COLON])) by (rewrite length_app; simpl; lia).
    by rewrite drop_app_length. }
  pose proof (port_test p) as Hp.
  destruct (str_to_uint_strict (Some p) 10) as [[ret number] errno].
  destruct (Nat.eqb_spec (length l) host) as [->|Hne]; simpl.
  - rewrite decide_False by naive_solver. done.
  - destruct (bool_decide (p = []) || _ || _ || _).
    + rewrite decide_False; [done|]. intros [_ H]. by apply Hp in H.
    + rewrite decide_True; [done|]. split; [done|]. by apply Hp.
Qed.

Lemma split_port_none (s : bytes) host : split_port s host None None = Some (drop host s, None).
Proof. done. Qed.

(** ** The forms of an address *)

Definition no_brackets (s : bytes) : Prop := LBRACKET ∉ s /\ RBRACKET ∉ s.

(** An IPv6 address has at least two colons. *)
Definition two_colons (s : bytes) : Prop :=
  exists x y z : bytes, s = x ++ COLON :: y ++ COLON :: z.

Definition never (s p : bytes) : Prop := forall l, ~ occurs s p l.

(** [listens s a port]: the text [s] means address [a], with the given port if any. *)
Inductive listens : bytes -> bytes -> option bytes -> Prop :=
| ListenHost h : h <> [] -> no_brackets h -> COLON ∉ h -> listens h h None
| ListenHostPort h p : h <> [] -> no_brackets h -> COLON ∉ h -> port_ok p ->
    listens (h ++ COLON :: p) h (Some p)
| ListenV6 a : no_brackets a -> two_colons a -> never a ($":::") -> listens a a None
| ListenAny a p : no_brackets a -> never (a ++ [COLON]) ($"::") -> port_ok p ->
    listens (a ++ $":::" ++ p) (a ++ $"::") (Some p)
| ListenBracket a : no_brackets a -> two_colons a ->
    listens (LBRACKET :: a ++ [RBRACKET]) (LBRACKET :: a ++ [RBRACKET]) None
| ListenBracketPort a p : no_brackets a -> two_colons a -> port_ok p ->
    listens (LBRACKET :: a ++ RBRACKET :: COLON :: p) a (Some p).

Lemma port_chars p c : port_ok p -> c ∈ p -> c <> COLON /\ c <> LBRACKET /\ c <> RBRACKET.
Proof.
  intros (_ & Hd & _) Hc. apply (proj1 (Forall_forall _ _) Hd) in Hc. clear Hd. revert c Hc.
  cut (forall c, bool_decide (digit_of 10 c) = true -> c <> COLON /\ c <> LBRACKET /\ c <> RBRACKET).
  { intros H c Hc. apply H. by apply bool_decide_eq_true. }
  by_ascii.
Qed.

Lemma port_no_brackets p : port_ok p -> no_brackets p /\ COLON ∉ p.
Proof.
  intros Hp. unfold no_brackets. split_and!; intros H; by apply (port_chars p _ Hp) in H as (? & ? & ?).
Qed.

(** The first two colons of a text. *)
Lemma two_colons_first (s : bytes) : two_colons s <-> exists x y z : bytes,
  s = x ++ COLON :: y ++ COLON :: z /\ COLON ∉ x /\ COLON ∉ y.
Proof.
  split; [|intros (x & y & z & -> & _); by exists x, y, z].
  intros (x & y & z & ->).
  assert (exists l r, x ++ COLON :: y ++ COLON :: z = l ++ COLON :: r /\ COLON ∉ l /\ COLON ∈ r)
    as (l & r & -> & Hl & Hr).
  { destruct (decide (COLON ∈ x)) as [Hx|Hx].
    - apply list_elem_of_split_l in Hx as (l & r & -> & Hl).
      exists l, (r ++ COLON :: y ++ COLON :: z). rewrite <- app_assoc. split_and!; [done|done|].
      apply elem_of_app. right. by left.
    - exists x, (y ++ COLON :: z). split_and!; [done|done|]. apply elem_of_app. right. by left. }
  apply list_elem_of_split_l in Hr as (y' & z' & -> & Hy). by exists l, y', z'.
Qed.

(** ** Bracketed addresses *)

#[local] Arguments split_port : simpl never.
#[local] Arguments index_from : simpl never.

Lemma elem_bracket_ne : COLON <> LBRACKET /\ COLON <> RBRACKET /\ LBRACKET <> RBRACKET.
Proof. done. Qed.

(** The second colon, searched from behind the first. *)
Lemma second_colon (w x y : bytes) :
  COLON ∉ w -> COLON ∉ x ->
  index_of (w ++ x ++ COLON :: y) COLON = Some (length w + length x)%nat /\
  index_from (w ++ x ++ COLON :: y) (length w + length x + 1) COLON
  = (fun i => length w + length x + 1 + i)%nat <$> index_of y COLON.
Proof.
  intros Hw Hx. split.
  - rewrite app_assoc, index_of_app by set_solver. by rewrite length_app.
  - replace (w ++ x ++ COLON :: y) with ((w ++ x ++ [COLON]) ++ y) by (by rewrite <- !app_assoc).
    apply index_from_app. rewrite !length_app. simpl. lia.
Qed.

(** The test of the code that there are two colons before the closing bracket. *)
Lemma bracket_colons (a rest : bytes) : RBRACKET ∉ a ->
  let s := LBRACKET :: a ++ RBRACKET :: rest in
  two_colons a <-> exists i j, index_of s COLON = Some i /\ (i <= S (length a))%nat /\
    index_from s (i + 1) COLON = Some j /\ (j <= S (length a))%nat.
Proof.
  intros Ha s. split.
  - intros Hc. apply two_colons_first in Hc as (x & y & z & -> & Hx & Hy).
    exists (1 + length x)%nat, (1 + length x + 1 + length y)%nat.
    destruct (second_colon [LBRACKET] x (y ++ COLON :: z ++ RBRACKET :: rest)) as [E1 E2]; [set_solver|done|].
    assert (s = [LBRACKET] ++ x ++ COLON :: y ++ COLON :: z ++ RBRACKET :: rest) as ->.
    { unfold s. simpl. f_equal. by rewrite <- !app_assoc; simpl; rewrite <- !app_assoc. }
    rewrite E1. simpl length in *. rewrite E2, index_of_app by done. simpl.
    rewrite !length_app. simpl. rewrite length_app. simpl. split_and!; [done|lia|f_equal; lia|lia].
  - intros (i & j & Hi & Hil & Hj & Hjl).
    apply index_of_some in Hi as (l & r & E & Hl & <-). unfold s in E.
    destruct l as [|c l]; [done|]. simpl in E. injection E as <- E.
    apply not_elem_of_cons in Hl as [_ Hl].
    unfold index_from, s in Hj. simpl in Hj. rewrite E in Hj.
    replace (length l + 1)%nat with (length (l ++ [COLON])) in Hj by (rewrite length_app; simpl; lia).
    rewrite (cons_middle COLON l r), app_assoc, drop_app_length in Hj.
    apply fmap_Some in Hj as (k & Hk & ->). simpl in *. rewrite length_app in Hjl. simpl in Hjl.
    apply index_of_some in Hk as (y & z & -> & Hy & <-).
    (* both colons lie in the first [length a] characters *)
    assert (exists z', a = l ++ COLON :: y ++ COLON :: z') as [z' ->]; [|by exists l, y, z'].
    exists (take (length a - (length l + length y + 2)) z).
    assert (length l + length y + 1 <> length a)%nat as Hne.
    { intros Hlen. replace (l ++ COLON :: y ++ COLON :: z) with ((l ++ COLON :: y) ++ COLON :: z) in E
        by (by rewrite <- app_assoc).
      apply app_inj_1 in E as [_ E]; [done|]. rewrite length_app. simpl. lia. }
    assert (take (length a) (a ++ RBRACKET :: rest) = a) as Ea by apply take_app_length.
    rewrite <- Ea, E at 1.
    replace (l ++ COLON :: y ++ COLON :: z) with ((l ++ COLON :: y ++ [COLON]) ++ z)
      by (rewrite <- !app_assoc; simpl; by rewrite <- app_assoc).
    rewrite take_app_ge by (rewrite !length_app; simpl; rewrite length_app; simpl; lia).
    rewrite <- !app_assoc. simpl. rewrite <- !app_assoc. simpl. do 5 f_equal.
    rewrite !length_app. simpl. rewrite length_app. simpl. lia.
Qed.

(** What follows the closing bracket. *)
Lemma bracket_tail (a rest addr : bytes) port : let s := LBRACKET :: a ++ RBRACKET :: rest in
  (match drop (S (length a) + 1) s with
   | [] => Some (s, None)
   | c :: _ => if negb (Ascii.eqb c COLON) then None
               else split_port s 1 (Some (S (length a) + 1)%nat) (Some (S (length a)))
   end) = Some (addr, port) <->
  (rest = [] /\ addr = s /\ port = None) \/
  (exists p, rest = COLON :: p /\ port_ok p /\ addr = a /\ port = Some p).
Proof.
  intros s.
  assert (drop (S (length a) + 1) s = rest) as ->.
  { unfold s. change (LBRACKET :: a ++ RBRACKET :: rest) with ((LBRACKET :: a) ++ [RBRACKET] ++ rest).
    rewrite app_assoc. rewrite drop_app_length'; [done|]. rewrite length_app. simpl. lia. }
  destruct rest as [|c p]; simpl.
  { split; [intros ?; simplify_eq; by left|]. intros [(_ & -> & ->)|(p & ? & _)]; done. }
  destruct (Ascii.eqb_spec c COLON) as [->|Hc]; simpl.
  2: { split; [done|]. intros [(? & _)|(p' & ? & _)]; by simplify_eq. }
  assert (s = (LBRACKET :: a ++ [RBRACKET]) ++ COLON :: p) as Es by (unfold s; simpl; by rewrite <- app_assoc).
  rewrite Es. replace (S (length a + 1)) with (length (LBRACKET :: a ++ [RBRACKET]))
    by (simpl; rewrite length_app; simpl; lia).
  rewrite split_port_spec. simpl default.
  assert (take (S (length a) - 1) (drop 1 ((LBRACKET :: a ++ [RBRACKET]) ++ COLON :: p)) = a) as ->.
  { simpl. rewrite Nat.sub_0_r, drop_0, <- app_assoc. apply take_app_length. }
  destruct (decide _) as [[? Hp]|Hn].
  - split; [intros ?; simplify_eq; right; by exists p|].
    intros [(? & _)|(p' & ? & _ & -> & ->)]; by simplify_eq.
  - split; [done|]. intros [(? & _)|(p' & ? & Hp & _)]; simplify_eq.
    destruct Hn. split; [simpl; rewrite length_app; simpl; lia|done].
Qed.

Lemma split_bracket (a rest addr : bytes) port : RBRACKET ∉ a ->
  str_split_listen (LBRACKET :: a ++ RBRACKET :: rest) = Some (addr, port) <->
  two_colons a /\ LBRACKET ∉ a /\ no_brackets rest /\
  ((rest = [] /\ addr = LBRACKET :: a ++ RBRACKET :: rest /\ port = None) \/
   (exists p, rest = COLON :: p /\ port_ok p /\ addr = a /\ port = Some p)).
Proof.
  intros Ha. rewrite <- (bracket_tail a rest addr port), (bracket_colons a rest Ha). cbv zeta.
  set (s := LBRACKET :: a ++ RBRACKET :: rest).
  assert (index_of s RBRACKET = Some (S (length a))) as E by (unfold s; simpl; by rewrite index_of_app).
  assert (bool_decide (is_Some (index_from s 1 LBRACKET)) = false <-> LBRACKET ∉ a /\ LBRACKET ∉ rest) as E1.
  { rewrite bool_decide_eq_false. unfold index_from, s. simpl. rewrite drop_0, fmap_is_Some, index_of_is_some.
    rewrite elem_of_app, elem_of_cons. naive_solver. }
  assert (bool_decide (is_Some (index_from s (S (length a) + 1) RBRACKET)) = false <-> RBRACKET ∉ rest) as E2.
  { rewrite bool_decide_eq_false. unfold s.
    change (LBRACKET :: a ++ RBRACKET :: rest) with ((LBRACKET :: a) ++ [RBRACKET] ++ rest).
    rewrite app_assoc, index_from_app by (rewrite length_app; simpl; lia).
    by rewrite fmap_is_Some, index_of_is_some. }
  unfold str_split_listen. fold s. unfold s at 1. rewrite Ascii.eqb_refl, E. cbn [mbind option_bind].
  destruct (index_of s COLON) as [i|]; cbn [mbind option_bind]; [|split; [done|by intros ((? & ? & ? & _) & _)]].
  destruct (Nat.ltb_spec (S (length a)) i); [split; [done|]; intros ((i' & j & ? & ? & _) & _); simplify_eq; lia|].
  destruct (index_from s (i + 1) COLON) as [j|] eqn:Ej; cbn [mbind option_bind].
  2: { split; [done|]. intros ((i' & j & ? & _ & ? & _) & _). simplify_eq. }
  destruct (Nat.ltb_spec (S (length a)) j); [split; [done|]; intros ((i' & j' & ? & ? & ? & ?) & _); simplify_eq; lia|].
  destruct (bool_decide (is_Some (index_from s 1 LBRACKET))); cbn [orb].
  { split; [done|]. intros (_ & ? & [? _] & _). by assert (true = false) by (by apply E1). }
  destruct (bool_decide (is_Some (index_from s (S (length a) + 1) RBRACKET))).
  { split; [done|]. intros (_ & ? & [_ ?] & _). by assert (true = false) by (by apply E2). }
  split.
  - intros Ht. split_and!; [by exists i, j|by apply E1|split; [by apply E1|by apply E2]|done].
  - by intros (_ & _ & _ & ?).
Qed.

(** ** Plain addresses *)

Lemma split_plain s : s <> [] -> no_brackets s ->
  str_split_listen s =
    match index_of s COLON with
    | None => Some (s, None)
    | Some k =>
        match strstr_pos s ($":::") with
        | Some triple =>
            if bool_decide (strstr_pos s ($"::") <> Some triple) then None
            else split_port s 0 (Some (triple + 2)%nat) None
        | None =>
            if bool_decide (is_Some (index_from s (k + 1) COLON)) then Some (s, None)
            else split_port s 0 (Some k) None
        end
    end.
Proof.
  intros Hne [Hl Hr]. unfold str_split_listen. destruct s as [|c s']; [done|].
  rewrite (proj2 (Ascii.eqb_neq c LBRACKET)) by (apply not_elem_of_cons in Hl as [? _]; done).
  set (s := c :: s') in *. clearbody s.
  rewrite !(bool_decide_false (is_Some (index_of s _))) by (by rewrite index_of_is_some). simpl orb.
  cbv iota. destruct (index_of s COLON); [|done]. destruct (strstr_pos s ($":::")); [done|].
  by destruct (bool_decide _).
Qed.

(** A text with one colon is a host and a port. *)
Lemma one_colon (h p : bytes) l r : COLON ∉ h -> COLON ∉ p -> h ++ COLON :: p = l ++ COLON :: r -> l = h /\ r = p.
Proof.
  intros Hh Hp. revert l. induction h as [|x h IH]; intros l E; destruct l as [|y l]; simpl in E.
  - by simplify_eq.
  - injection E as <- E. destruct Hp. rewrite E. set_solver.
  - injection E as -> E. destruct Hh. by left.
  - injection E as <- E. apply not_elem_of_cons in Hh as [_ Hh]. by destruct (IH Hh l E) as [-> ->].
Qed.

Lemma colons_split : $"::" = [COLON; COLON] /\ $":::" = [COLON; COLON; COLON].
Proof. done. Qed.

Lemma host_port_no_triple h p : COLON ∉ h -> COLON ∉ p -> strstr_pos (h ++ COLON :: p) ($":::") = None.
Proof.
  intros Hh Hp. apply strstr_none. intros l [r E]. simpl in E.
  destruct (one_colon h p l _ Hh Hp E) as [_ <-]. destruct Hp. by left.
Qed.

Lemma after_colon (h p : bytes) :
  index_from (h ++ COLON :: p) (length h + 1) COLON = (fun i => length h + 1 + i)%nat <$> index_of p COLON.
Proof.
  rewrite cons_middle, app_assoc. apply index_from_app. rewrite length_app. simpl. lia.
Qed.

(** The first double colon of an address that ends in its only one. *)
Lemma first_double (a p : bytes) : never (a ++ [COLON]) ($"::") ->
  strstr_pos (a ++ $":::" ++ p) ($"::") = Some (length a) /\
  strstr_pos (a ++ $":::" ++ p) ($":::") = Some (length a).
Proof.
  intros Hn.
  assert (forall l, occurs (a ++ $":::" ++ p) ($"::") l -> (length a <= length l)%nat) as Hmin.
  { intros l [r E]. destruct (decide (length a <= length l)%nat) as [|Hlt]; [done|]. destruct (Hn l).
    exists (take (length a - length l - 1) r).
    assert (a ++ [COLON] = take (length a + 1) (a ++ $":::" ++ p)) as ->.
    { rewrite take_app_ge by lia. by replace (length a + 1 - length a)%nat with 1%nat by lia. }
    rewrite E. rewrite take_app_ge by lia. f_equal.
    replace (length a + 1 - length l)%nat with (S (S (length a - length l - 1))) by lia. done. }
  split; apply strstr_some; exists a; (split_and!; [|done|]).
  - by exists (COLON :: p).
  - done.
  - by exists p.
  - intros l [r E]. apply Hmin. exists (COLON :: r). by rewrite E.
Qed.

Lemma listens_split s a port : listens s a port -> str_split_listen s = Some (a, port).
Proof.
  assert (forall h : bytes, h <> [] -> length h <> 0%nat) as Hlen by (by intros [|? ?]).
  intros [h Hne Hb Hc|h p Hne [Hb1 Hb2] Hc Hp|a' Hb Hc Hn|a' p [Hb1 Hb2] Hn Hp|a' [Hb1 Hb2] Hc|a' p [Hb1 Hb2] Hc Hp].
  - rewrite split_plain by done. by rewrite (proj2 (index_of_none h COLON)).
  - destruct (port_no_brackets p Hp) as [[Hp1 Hp2] Hp3].
    rewrite split_plain; [|by destruct h|split; set_solver].
    rewrite index_of_app, host_port_no_triple, after_colon, (proj2 (index_of_none p COLON)) by done.
    rewrite bool_decide_false by (by intros [? ?]).
    rewrite split_port_spec, decide_True by auto. simpl. by rewrite Nat.sub_0_r, drop_0, take_app_length.
  - apply two_colons_first in Hc as (x & y & z & -> & Hx & Hy).
    rewrite split_plain; [|by destruct x|done].
    rewrite index_of_app, after_colon, index_of_app, (proj2 (strstr_none _ _)) by done.
    by rewrite bool_decide_true by (by eexists).
  - destruct (port_no_brackets p Hp) as [[Hp1 Hp2] Hp3].
    rewrite split_plain; [|by destruct a'|split; set_solver].
    destruct (index_of (a' ++ $":::" ++ p) COLON) as [k|] eqn:Ek.
    2: { apply index_of_none in Ek. destruct Ek. set_solver. }
    destruct (first_double a' p Hn) as [-> ->]. rewrite bool_decide_false by (intros H; by apply H).
    assert (a' ++ $":::" ++ p = (a' ++ $"::") ++ COLON :: p) as -> by (by rewrite <- app_assoc).
    replace (length a' + 2)%nat with (length (a' ++ $"::")) by (rewrite length_app; simpl; lia).
    rewrite split_port_spec, decide_True by (split; [rewrite length_app; simpl; lia|done]).
    simpl default. by rewrite Nat.sub_0_r, drop_0, take_app_length.
  - apply split_bracket; [done|]. split_and!; [done|done|split; set_solver|by left].
  - destruct (port_no_brackets p Hp) as [[Hp1 Hp2] Hp3].
    apply split_bracket; [done|]. split_and!; [done|done|split; set_solver|right; by exists p].
Qed.

Lemma split_listens s a port : str_split_listen s = Some (a, port) -> listens s a port.
Proof.
  destruct (decide (s = [])) as [->|Hne]; [done|].
  destruct (decide (head s = Some LBRACKET)) as [Hh|Hh].
  - destruct s as [|c s]; [done|]. simpl in Hh. simplify_eq. intros H.
    destruct (index_of s RBRACKET) as [e|] eqn:Ee.
    + apply index_of_some in Ee as (a' & rest & -> & Ha & <-).
      apply split_bracket in H as (Hc & Hl & Hb & [(-> & -> & ->)|(p & -> & Hp & -> & ->)]); [| |done].
      * by apply ListenBracket.
      * by apply ListenBracketPort.
    + exfalso. revert H. unfold str_split_listen. rewrite Ascii.eqb_refl. simpl index_of. by rewrite Ee.
  - destruct (decide (no_brackets s)) as [Hb|Hb].
    2: { intros H. exfalso. apply Hb. revert H. unfold str_split_listen. destruct s as [|c s']; [done|].
         rewrite (proj2 (Ascii.eqb_neq c LBRACKET)) by (intros ->; done). unfold no_brackets.
         destruct (bool_decide (is_Some (index_of _ LBRACKET))) eqn:E1; [done|].
         destruct (bool_decide (is_Some (index_of _ RBRACKET))) eqn:E2; [done|].
         apply bool_decide_eq_false in E1, E2. by rewrite index_of_is_some in E1, E2. }
    rewrite split_plain by done. destruct (index_of s COLON) as [k|] eqn:Ek.
    2: { intros ?; simplify_eq. apply index_of_none in Ek. by apply ListenHost. }
    apply index_of_some in Ek as (h & p & -> & Hh' & <-).
    destruct (strstr_pos _ ($":::")) as [t|] eqn:Et.
    + destruct (bool_decide _) eqn:Ed; [done|]. apply bool_decide_eq_false in Ed.
      destruct (decide (strstr_pos (h ++ COLON :: p) ($"::") = Some t)) as [E2|]; [|done]. clear Ed.
      apply strstr_some in Et as (l & [r E] & <- & _).
      apply strstr_some in E2 as (l2 & _ & Hl2 & Hmin). rewrite E in *.
      assert (l ++ $":::" ++ r = (l ++ $"::") ++ COLON :: r) as E3 by (by rewrite <- app_assoc).
      rewrite E3. replace (length l + 2)%nat with (length (l ++ $"::")) by (rewrite length_app; simpl; lia).
      rewrite split_port_spec. destruct (decide _) as [[_ Hp]|]; [|done]. intros ?. simplify_eq.
      rewrite <- E3. simpl default. rewrite Nat.sub_0_r, drop_0, E3, take_app_length, <- E3.
      apply ListenAny; [|intros l' [r' E']|done].
      * destruct Hb. split; set_solver.
      * assert (l ++ $":::" ++ r = l' ++ $"::" ++ (r' ++ $"::" ++ r)) as Eo.
        { change ($":::") with ([COLON] ++ $"::"). rewrite <- (app_assoc [COLON]), app_assoc, E'.
          by rewrite <- !app_assoc. }
        specialize (Hmin l' ltac:(by eexists)). apply (f_equal length) in E'.
        rewrite !length_app in E'. simpl in E'. lia.
    + rewrite after_colon. destruct (bool_decide _) eqn:Ed.
      * apply bool_decide_eq_true in Ed. rewrite fmap_is_Some, index_of_is_some in Ed.
        intros ?; simplify_eq. apply ListenV6; [done| |exact (proj1 (strstr_none _ _) Et)].
        apply list_elem_of_split_l in Ed as (y & z & -> & _). by exists h, y, z.
      * rewrite split_port_spec. destruct (decide _) as [[Hh0 Hp]|]; [|done]. intros ?. simplify_eq.
        simpl. rewrite Nat.sub_0_r, drop_0, take_app_length.
        apply ListenHostPort; [by intros ->| |done|done]. destruct Hb. split; set_solver.
Qed.

(** A LISTEN address is taken apart exactly as documented: [str_split_listen]
    succeeds if and only if the text has one of the six forms (a host, a host with a port, a bare IPv6
    address, one that ends in its sole double colon with a port, and a bracketed one with or without a port), and
    then it returns that form's address and port.  In particular a bare IPv6 address never
    loses its last group and a port is a decimal number up to 65535. *)
Theorem str_split_listen_forms s a port : str_split_listen s = Some (a, port) <-> listens s a port.
Proof. split; [apply split_listens|apply listens_split]. Qed.
