(* ===== verification/ParseConf.v ===== *)
(** * common/parseconf.c: the configuration and protocol line parser

    [PCONF_CTX] is the struct of include/parseconf.h; each state function of the
    character-driven machine is one definition, [parse_char] dispatches on the
    state, and the three entry points ([pconf_line], [pconf_char],
    [pconf_file_next]) feed it.  [pconf_encode] is the escaping used by every
    writer of such lines.

    Memory: [wordbuf] is the accumulated word (its characters before the NUL),
    [wordptr] the offset of the write position in it and [wordbufsize] the
    allocation; [arglist] has one entry per allocated slot and [argsize] the
    size of its allocation.  Allocation does not fail in the model. *)

From S2P Require Import Prelude CStr.
From stdpp Require Import options.

Inductive pstate :=
| STATE_FINDWORDSTART
| STATE_FINDEOL
| STATE_QUOTECOLLECT
| STATE_QC_LITERAL
| STATE_COLLECT
| STATE_COLLECTLITERAL
| STATE_ENDOFLINE
| STATE_PARSEERR.

#[export] Instance pstate_eq_dec : EqDecision pstate.
Proof. solve_decision. Defined.

Definition PCONF_CTX_t_MAGIC : Z := 0x00726630.
Definition PCONF_ERR_LEN : nat := 256.
Definition PCONF_DEFAULT_ARG_LIMIT : nat := 32.
Definition PCONF_DEFAULT_WORDLEN_LIMIT : nat := 512.

(** [f] is the unread part of the stream, when a file is open. *)
Record PCONF_CTX := mkCtx {
  p_f : option bytes;
  p_state : pstate;
  p_ch : Z;
  p_arglist : list bytes;
  p_argsize : list nat;
  p_numargs : nat;
  p_maxargs : nat;
  p_wordbuf : bytes;
  p_wordptr : nat;
  p_wordbufsize : nat;
  p_linenum : Z;
  p_error : Z;
  p_errmsg : bytes;
  p_magic : Z;
  p_arg_limit : nat;
  p_wordlen_limit : nat
}.

(** Assignments to the fields. *)
Definition with_f (c : PCONF_CTX) f := mkCtx f (p_state c) (p_ch c) (p_arglist c) (p_argsize c)
  (p_numargs c) (p_maxargs c) (p_wordbuf c) (p_wordptr c) (p_wordbufsize c) (p_linenum c)
  (p_error c) (p_errmsg c) (p_magic c) (p_arg_limit c) (p_wordlen_limit c).
Definition with_state (c : PCONF_CTX) s := mkCtx (p_f c) s (p_ch c) (p_arglist c) (p_argsize c)
  (p_numargs c) (p_maxargs c) (p_wordbuf c) (p_wordptr c) (p_wordbufsize c) (p_linenum c)
  (p_error c) (p_errmsg c) (p_magic c) (p_arg_limit c) (p_wordlen_limit c).
Definition with_ch (c : PCONF_CTX) z := mkCtx (p_f c) (p_state c) z (p_arglist c) (p_argsize c)
  (p_numargs c) (p_maxargs c) (p_wordbuf c) (p_wordptr c) (p_wordbufsize c) (p_linenum c)
  (p_error c) (p_errmsg c) (p_magic c) (p_arg_limit c) (p_wordlen_limit c).
Definition with_args (c : PCONF_CTX) al sz n m := mkCtx (p_f c) (p_state c) (p_ch c) al sz
  n m (p_wordbuf c) (p_wordptr c) (p_wordbufsize c) (p_linenum c)
  (p_error c) (p_errmsg c) (p_magic c) (p_arg_limit c) (p_wordlen_limit c).
Definition with_word (c : PCONF_CTX) w p sz := mkCtx (p_f c) (p_state c) (p_ch c) (p_arglist c)
  (p_argsize c) (p_numargs c) (p_maxargs c) w p sz (p_linenum c)
  (p_error c) (p_errmsg c) (p_magic c) (p_arg_limit c) (p_wordlen_limit c).
Definition with_linenum (c : PCONF_CTX) l := mkCtx (p_f c) (p_state c) (p_ch c) (p_arglist c)
  (p_argsize c) (p_numargs c) (p_maxargs c) (p_wordbuf c) (p_wordptr c) (p_wordbufsize c) l
  (p_error c) (p_errmsg c) (p_magic c) (p_arg_limit c) (p_wordlen_limit c).
Definition with_err (c : PCONF_CTX) e msg := mkCtx (p_f c) (p_state c) (p_ch c) (p_arglist c)
  (p_argsize c) (p_numargs c) (p_maxargs c) (p_wordbuf c) (p_wordptr c) (p_wordbufsize c)
  (p_linenum c) e msg (p_magic c) (p_arg_limit c) (p_wordlen_limit c).
Definition with_magic (c : PCONF_CTX) m := mkCtx (p_f c) (p_state c) (p_ch c) (p_arglist c)
  (p_argsize c) (p_numargs c) (p_maxargs c) (p_wordbuf c) (p_wordptr c) (p_wordbufsize c)
  (p_linenum c) (p_error c) (p_errmsg c) m (p_arg_limit c) (p_wordlen_limit c).

(** The words of the line a caller sees: [arglist[0..numargs-1]]. *)
Definition args (c : PCONF_CTX) : list bytes := take (p_numargs c) (p_arglist c).

(** ** Committing words *)

Definition add_arg_word (c : PCONF_CTX) : PCONF_CTX :=
  let argpos := p_numargs c in
  let numargs := S (p_numargs c) in
  let '(arglist, argsize, maxargs) :=
    if (p_maxargs c <? numargs)%nat
    then (<[argpos := []]> (resize numargs [] (p_arglist c)),
          <[argpos := 0%nat]> (resize numargs 0%nat (p_argsize c)), numargs)
    else (p_arglist c, p_argsize c, p_maxargs c) in
  let wbuflen := length (p_wordbuf c) in
  let argsize :=
    if (default 0%nat (argsize !! argpos) <=? wbuflen)%nat
    then <[argpos := (wbuflen + 1)%nat]> argsize
    else argsize in
  with_args c (<[argpos := p_wordbuf c]> arglist) argsize numargs maxargs.

Definition addchar (c : PCONF_CTX) : PCONF_CTX :=
  let wbuflen := length (p_wordbuf c) in
  if (p_ch c <? 0x20) || (0x7f <? p_ch c) then c
  else if negb (p_wordlen_limit c =? 0)%nat && (p_wordlen_limit c <=? wbuflen)%nat then c
  else
    let '(wordptr, wordbufsize) :=
      if (p_wordbufsize c - 1 <=? wbuflen)%nat
      then (wbuflen, (p_wordbufsize c + 8)%nat)
      else (p_wordptr c, p_wordbufsize c) in
    with_word c (take wordptr (p_wordbuf c) ++ [chr (p_ch c)]) (S wordptr) wordbufsize.

(** [ctx->wordptr = ctx->wordbuf; *ctx->wordptr = 0] *)
Definition reset_word (c : PCONF_CTX) : PCONF_CTX := with_word c [] 0 (p_wordbufsize c).

Definition endofword (c : PCONF_CTX) : PCONF_CTX :=
  if negb (p_arg_limit c =? 0)%nat && (p_arg_limit c <=? p_numargs c)%nat
  then reset_word c
  else reset_word (add_arg_word c).

(** ** The state functions *)

Definition findwordstart (c : PCONF_CTX) : pstate * PCONF_CTX :=
  if p_ch c =? 10 then (STATE_ENDOFLINE, c)
  else if p_ch c =? 35 (* # *) then (STATE_FINDEOL, c)
  else if isspace (p_ch c) then (STATE_FINDWORDSTART, c)
  else if p_ch c =? 92 (* \ *) then (STATE_COLLECTLITERAL, c)
  else if p_ch c =? 34 (* double quote *) then (STATE_QUOTECOLLECT, c)
  else
    let c := addchar c in
    if p_ch c =? 61 (* = *) then (STATE_FINDWORDSTART, endofword c)
    else (STATE_COLLECT, c).

Definition findeol (c : PCONF_CTX) : pstate * PCONF_CTX :=
  if p_ch c =? 10 then (STATE_ENDOFLINE, c) else (STATE_FINDEOL, c).

Definition quotecollect (c : PCONF_CTX) : pstate * PCONF_CTX :=
  if p_ch c =? 34 then (STATE_FINDWORDSTART, endofword c)
  else if p_ch c =? 92 then (STATE_QC_LITERAL, c)
  else (STATE_QUOTECOLLECT, addchar c).

Definition qc_literal (c : PCONF_CTX) : pstate * PCONF_CTX :=
  if p_ch c =? 10 then (STATE_QUOTECOLLECT, c)
  else (STATE_QUOTECOLLECT, addchar c).

Definition collect (c : PCONF_CTX) : pstate * PCONF_CTX :=
  if p_ch c =? 35 then (STATE_FINDEOL, endofword c)
  else if p_ch c =? 10 then (STATE_ENDOFLINE, endofword c)
  else if isspace (p_ch c) then (STATE_FINDWORDSTART, endofword c)
  else if p_ch c =? 61 then (STATE_FINDWORDSTART, (findwordstart (endofword c)).2)
  else if p_ch c =? 92 then (STATE_COLLECTLITERAL, c)
  else (STATE_COLLECT, addchar c).

Definition collectliteral (c : PCONF_CTX) : pstate * PCONF_CTX :=
  if p_ch c =? 10 then (STATE_COLLECT, c) else (STATE_COLLECT, addchar c).

Definition parse_char (c : PCONF_CTX) : PCONF_CTX :=
  let upd (r : pstate * PCONF_CTX) := with_state r.2 r.1 in
  match p_state c with
  | STATE_FINDWORDSTART => upd (findwordstart c)
  | STATE_FINDEOL => upd (findeol c)
  | STATE_QUOTECOLLECT => upd (quotecollect c)
  | STATE_QC_LITERAL => upd (qc_literal c)
  | STATE_COLLECT => upd (collect c)
  | STATE_COLLECTLITERAL => upd (collectliteral c)
  | STATE_ENDOFLINE | STATE_PARSEERR => c
  end.

(** ** Entry points *)

Definition pconf_init : PCONF_CTX :=
  mkCtx None STATE_FINDWORDSTART 0 [] [] 0 0 [] 0 16 0 0 [] PCONF_CTX_t_MAGIC
    PCONF_DEFAULT_ARG_LIMIT PCONF_DEFAULT_WORDLEN_LIMIT.

(** the members set to NULL and 0; the freed word buffer is not looked at again *)
Definition free_storage (c : PCONF_CTX) : PCONF_CTX :=
  with_word (with_args c [] [] 0 0) [] 0 0.

Definition check_magic (c : PCONF_CTX) : Z * PCONF_CTX :=
  if negb (p_magic c =? PCONF_CTX_t_MAGIC)
  then (0, with_err c (p_error c) (snprintf_s PCONF_ERR_LEN ($"Invalid ctx buffer")))
  else (1, c).

(** [fopen] gives the contents of the file, or the error text. *)
Definition pconf_file_begin (fopen : bytes -> bytes + bytes) (c : PCONF_CTX) (fn : bytes)
    : Z * PCONF_CTX :=
  let '(ok, c) := check_magic c in
  if ok =? 0 then (0, c) else
  match fopen fn with
  | inl contents => (1, with_f c (Some contents))
  | inr err =>
      (0, with_err (with_f c None) (p_error c)
            (snprintf_s PCONF_ERR_LEN ($"Can't open " ++ fn ++ $": " ++ err)))
  end.

Definition pconf_parse_error (c : PCONF_CTX) : Z * PCONF_CTX :=
  let '(ok, c) := check_magic c in
  if ok =? 0 then (0, c)
  else if p_error c =? 1 then (1, with_err c 0 (p_errmsg c))
  else (0, c).

Definition pconf_finish (c : PCONF_CTX) : PCONF_CTX :=
  let '(ok, c) := check_magic c in
  if ok =? 0 then c else with_magic (free_storage c) 0.

(** Is the logical line over? *)
Definition line_over (s : pstate) : bool :=
  match s with STATE_PARSEERR | STATE_ENDOFLINE => true | _ => false end.

(** The read loop of [pconf_file_next]: [true] when it returned 1 from inside. *)
Fixpoint file_loop (c : PCONF_CTX) (stream : bytes) : bool * PCONF_CTX :=
  match stream with
  | [] => (false, with_ch (with_f c (Some [])) (-1))
  | x :: rest =>
      let c := parse_char (with_ch (with_f c (Some rest)) (code x)) in
      if line_over (p_state c) then (true, c) else file_loop c rest
  end.

(** [numargs = 0; state = STATE_FINDWORDSTART] *)
Definition start_over (c : PCONF_CTX) : PCONF_CTX :=
  with_state (with_args c (p_arglist c) (p_argsize c) 0 (p_maxargs c)) STATE_FINDWORDSTART.

Definition pconf_file_next (c : PCONF_CTX) : Z * PCONF_CTX :=
  let '(ok, c) := check_magic c in
  if ok =? 0 then (0, c) else
  let c := start_over (with_linenum c (p_linenum c + 1)) in
  let '(over, c) := file_loop c (default [] (p_f c)) in
  if over then (1, c)
  else if negb (p_numargs c =? 0)%nat
  then (1, if negb (p_wordptr c =? 0)%nat then endofword c else c)
  else (0, c).

(** The loop of [pconf_line]; a [char] is signed. *)
Fixpoint line_loop (c : PCONF_CTX) (line : bytes) : bool * PCONF_CTX :=
  match line with
  | [] => (false, c)
  | x :: rest =>
      let c := parse_char (with_ch c (schar x)) in
      if line_over (p_state c) then (true, c) else line_loop c rest
  end.

Definition pconf_line (c : PCONF_CTX) (line : bytes) : Z * PCONF_CTX :=
  let '(ok, c) := check_magic c in
  if ok =? 0 then (0, c) else
  let c := start_over (with_linenum c (p_linenum c + 1)) in
  let '(over, c) := line_loop c line in
  if over then (1, c)
  else (1, if negb (p_wordptr c =? 0)%nat then endofword c else c).

Definition pconf_char (c : PCONF_CTX) (ch : ascii) : Z * PCONF_CTX :=
  let '(ok, c) := check_magic c in
  if ok =? 0 then (-1, c) else
  let c := if line_over (p_state c) then start_over c else c in
  let c := parse_char (with_ch c (schar ch)) in
  match p_state c with
  | STATE_ENDOFLINE => (1, c)
  | STATE_PARSEERR => (-1, c)
  | _ => (0, c)
  end.

(** ** Encoding *)

Definition PCONF_ESCAPE : bytes := [chr 35; chr 92; chr 34].

(** The loop over [src]: the characters written so far to [dest]; [size_t]
    arithmetic on [maxlen - 1]. *)
Fixpoint encode_loop (src dest : bytes) (maxlen : Z) : bytes :=
  match src with
  | [] => dest
  | x :: src' =>
      if strchr PCONF_ESCAPE x then
        if wrap64 (maxlen - 1) <=? Z.of_nat (length dest) then dest
        else
          let dest := dest ++ [chr 92] in
          if maxlen <=? Z.of_nat (length dest) then dest
          else encode_loop src' (dest ++ [x]) maxlen
      else
        if maxlen <=? Z.of_nat (length dest) then dest
        else encode_loop src' (dest ++ [x]) maxlen
  end.

(** The whole destination array of [destsize] bytes after the call. *)
Definition pconf_encode_buf (src : bytes) (destsize : nat) : bytes :=
  if (destsize <? 1)%nat then []
  else
    let out := encode_loop src [] (Z.of_nat destsize - 1) in
    out ++ replicate (destsize - length out) NUL.

(** The C string the caller reads from the array. *)
Definition pconf_encode (src : bytes) (destsize : nat) : bytes :=
  default [] (cstring (pconf_encode_buf src destsize)).

Definition qt : bytes := [chr 34].
(** A word between double quotes, as the writers print it. *)
Definition quoted (s : bytes) : bytes := qt ++ s ++ qt.

Example line_ex :
  args (pconf_line pconf_init ($"this " ++ qt ++ $"is also" ++ qt ++ $" a\ li\\ne=x #c")).2
  = [$"this"; $"is also"; $"a li\ne"; $"="; $"x"].
Proof. reflexivity. Qed.
