(* ===== verification/ParseConfFacts.v ===== *)
(** * Properties of the line parser

    The memory and content invariant of [PCONF_CTX], the behaviour of
    [pconf_encode], the round trip through [pconf_line], and the agreement of
    the three ways of feeding the parser. *)

From S2P Require Import Prelude CStr ParseConf.
From stdpp Require Import options.

(** ** The invariant *)

(** The characters [addchar] lets through. *)
Definition printable (c : ascii) : Prop := 32 <= code c <= 127.

#[export] Instance printable_dec c : Decision (printable c).
Proof. unfold printable. apply _. Defined.

Lemma printable_no_nul s : Forall printable s -> no_nul s.
Proof. intros H. eapply Forall_impl; [exact H|]. intros c Hc ->. by destruct Hc. Qed.

Definition within (limit n : nat) : Prop := limit = 0%nat \/ (n <= limit)%nat.

Definition word_ok (c : PCONF_CTX) (w : bytes) : Prop :=
  Forall printable w /\ within (p_wordlen_limit c) (length w).

(** Every word fits its allocation, the accumulator fits its own and is NUL
    terminated where [wordptr] points, and the caller's limits are respected. *)
Record pconf_wf (c : PCONF_CTX) : Prop := mkWf {
  wf_arglist : length (p_arglist c) = p_maxargs c;
  wf_argsize : Forall2 (fun a n => (length a < n)%nat) (p_arglist c) (p_argsize c);
  wf_numargs : (p_numargs c <= p_maxargs c)%nat;
  wf_maxargs : within (p_arg_limit c) (p_maxargs c);
  wf_wordptr : p_wordptr c = length (p_wordbuf c);
  wf_wordbuf : (length (p_wordbuf c) < p_wordbufsize c)%nat;
  wf_word : word_ok c (p_wordbuf c);
  wf_words : Forall (word_ok c) (p_arglist c)
}.

Lemma within_0 limit : within limit 0.
Proof. unfold within. lia. Qed.

Lemma pconf_init_wf : pconf_wf pconf_init.
Proof.
  split; simpl; try (repeat constructor; fail); lia.
Qed.

(** [add_arg_word], when [arglist] has its [maxargs] slots: the word becomes
    argument number [numargs]. *)
Lemma add_arg_word_spec c :
  pconf_wf c ->
  let c' := add_arg_word c in
  args c' = args c ++ [p_wordbuf c]
  /\ p_numargs c' = S (p_numargs c)
  /\ p_maxargs c' = Nat.max (p_maxargs c) (S (p_numargs c))
  /\ length (p_arglist c') = p_maxargs c'
  /\ Forall2 (fun a n => (length a < n)%nat) (p_arglist c') (p_argsize c')
  /\ Forall (word_ok c) (p_arglist c').
Proof.
  intros [Hal Has Hnum Hmax Hptr Hbuf Hw Hws]. unfold add_arg_word, args.
  pose proof (Forall2_length _ _ _ Has) as Hlen.
  set (n := p_numargs c) in *.
  assert (exists al sz m,
    (if (p_maxargs c <? S n)%nat
     then (<[n := []]> (resize (S n) [] (p_arglist c)),
           <[n := 0%nat]> (resize (S n) 0%nat (p_argsize c)), S n)
     else (p_arglist c, p_argsize c, p_maxargs c)) = (al, sz, m)
    /\ m = Nat.max (p_maxargs c) (S n) /\ length al = m /\ length sz = m
    /\ take n al = take n (p_arglist c)
    /\ (forall i a s, i <> n -> al !! i = Some a -> sz !! i = Some s -> (length a < s)%nat)
    /\ Forall (word_ok c) al) as (al & sz & m & -> & Em & Hl1 & Hl2 & Htk & Hfit & Hok).
  { destruct (Nat.ltb_spec (p_maxargs c) (S n)) as [Hlt|Hge].
    - assert (n = p_maxargs c) as En by lia.
      eexists _, _, _. split; [reflexivity|].
      rewrite !length_insert, !length_resize. repeat split; try lia.
      + rewrite take_insert_ge by lia. rewrite resize_ge by lia.
        rewrite take_app_le by lia. done.
      + intros i a s Hne. rewrite !list_lookup_insert_ne by done.
        intros Ha Hs.
        assert (i < n)%nat.
        { apply lookup_lt_Some in Ha. rewrite length_resize in Ha. lia. }
        rewrite !resize_ge in * by lia.
        rewrite lookup_app_l in Ha by lia. rewrite lookup_app_l in Hs by lia.
        eapply (Forall2_lookup_lr (fun a n => (length a < n)%nat)); eauto.
      + apply Forall_insert.
        * apply Forall_resize; [|done]. split; [constructor|apply within_0].
        * split; [constructor|apply within_0].
    - eexists _, _, _. split; [reflexivity|]. repeat split; try lia; try done.
      intros i a s _ Ha Hs. by eapply (Forall2_lookup_lr (fun a n => (length a < n)%nat)). }
  assert (n < length al)%nat as Hn by lia.
  set (sz' := if (default 0%nat (sz !! n) <=? length (p_wordbuf c))%nat
              then <[n := (length (p_wordbuf c) + 1)%nat]> sz else sz).
  simpl. repeat split.
  - erewrite take_S_r by (by apply list_lookup_insert_eq). rewrite take_insert_ge by lia.
    by rewrite Htk.
  - done.
  - by rewrite length_insert.
  - apply Forall2_same_length_lookup_2.
    { rewrite length_insert. subst sz'. case_match; rewrite ?length_insert; lia. }
    intros i a s Ha Hs. destruct (decide (i = n)) as [->|Hne].
    + rewrite list_lookup_insert_eq in Ha by done. simplify_eq.
      subst sz'. case_match; breflect.
      * rewrite list_lookup_insert_eq in Hs by lia. simplify_eq. lia.
      * rewrite Hs in *. simpl in *. lia.
    + rewrite list_lookup_insert_ne in Ha by done.
      eapply Hfit; [done..|]. subst sz'. case_match; [|done].
      by rewrite list_lookup_insert_ne in Hs.
  - by apply Forall_insert.
Qed.

(** [add_arg_word] writes the argument arrays only. *)
Lemma add_arg_word_frame c :
  add_arg_word c = with_args c (p_arglist (add_arg_word c)) (p_argsize (add_arg_word c))
                     (p_numargs (add_arg_word c)) (p_maxargs (add_arg_word c)).
Proof. unfold add_arg_word. by destruct (p_maxargs c <? S (p_numargs c))%nat. Qed.

Lemma endofword_wf c : pconf_wf c -> pconf_wf (endofword c).
Proof.
  intros Hwf. pose proof (add_arg_word_spec c Hwf) as (_ & Hn & Hm & Hl & Hf & Hok).
  destruct Hwf as [Hal Has Hnum Hmax Hptr Hbuf Hw Hws].
  unfold endofword. case_match eqn:E.
  - split; simpl; try done; [lia|]. split; [constructor|apply within_0].
  - assert (within (p_arg_limit c) (S (p_numargs c))) as Hlim.
    { unfold within. breflect. destruct E; breflect; [lia|]. lia. }
    rewrite add_arg_word_frame. split; simpl; try done; try lia.
    + unfold within in *. lia.
    + split; [constructor|apply within_0].
Qed.

(** When [addchar] stores its character. *)
Definition accepts (c : PCONF_CTX) : Prop :=
  32 <= p_ch c <= 127
  /\ (p_wordlen_limit c = 0 \/ length (p_wordbuf c) < p_wordlen_limit c)%nat.

#[export] Instance accepts_dec c : Decision (accepts c).
Proof. unfold accepts. apply _. Defined.

Lemma addchar_spec c :
  pconf_wf c ->
  addchar c =
    if decide (accepts c)
    then with_word c (p_wordbuf c ++ [chr (p_ch c)]) (S (length (p_wordbuf c)))
           (if (p_wordbufsize c - 1 <=? length (p_wordbuf c))%nat
            then p_wordbufsize c + 8 else p_wordbufsize c)
    else c.
Proof.
  intros [_ _ _ _ Hptr Hbuf _ _]. unfold addchar, accepts.
  destruct (_ || _) eqn:E1; breflect.
  { rewrite decide_False; [done|]. destruct E1; breflect; lia. }
  destruct (negb _ && _) eqn:E2; breflect.
  { rewrite decide_False; [done|]. lia. }
  rewrite decide_True by (destruct E2; breflect; lia).
  rewrite Hptr. by destruct (_ - 1 <=? _)%nat; rewrite take_ge by lia.
Qed.

Lemma addchar_wf c : pconf_wf c -> pconf_wf (addchar c).
Proof.
  intros Hwf. rewrite addchar_spec by done. destruct (decide _) as [[Hch Hlim]|]; [|done].
  destruct Hwf as [Hal Has Hnum Hmax Hptr Hbuf [Hp Hlen] Hws].
  split; simpl; try done.
  - rewrite length_app; simpl; lia.
  - rewrite length_app; simpl. csplit; lia.
  - split; simpl.
    + apply Forall_app; split; [done|]. repeat constructor; rewrite code_chr by lia; lia.
    + unfold within in *. rewrite length_app; simpl. lia.
Qed.

(** Writes to these fields do not concern the invariant. *)
Lemma with_state_wf c s : pconf_wf c -> pconf_wf (with_state c s).
Proof. by intros []. Qed.
Lemma with_ch_wf c z : pconf_wf c -> pconf_wf (with_ch c z).
Proof. by intros []. Qed.
Lemma with_f_wf c f : pconf_wf c -> pconf_wf (with_f c f).
Proof. by intros []. Qed.
Lemma start_over_wf c : pconf_wf c -> pconf_wf (start_over c).
Proof. intros []. split; try done. simpl. lia. Qed.
Lemma with_linenum_wf c l : pconf_wf c -> pconf_wf (with_linenum c l).
Proof. by intros []. Qed.
Lemma with_err_wf c e m : pconf_wf c -> pconf_wf (with_err c e m).
Proof. by intros []. Qed.

#[export] Hint Resolve endofword_wf addchar_wf with_state_wf with_ch_wf with_f_wf
  start_over_wf with_linenum_wf with_err_wf : nut.

Lemma findwordstart_wf c : pconf_wf c -> pconf_wf (findwordstart c).2.
Proof. intros. unfold findwordstart. repeat case_match; simpl; auto with nut. Qed.
#[export] Hint Resolve findwordstart_wf : nut.

Lemma parse_char_wf c : pconf_wf c -> pconf_wf (parse_char c).
Proof.
  intros. unfold parse_char, findeol, quotecollect, qc_literal, collect, collectliteral.
  repeat case_match; simpl; auto with nut.
Qed.
#[export] Hint Resolve parse_char_wf : nut.

Lemma line_loop_wf line c : pconf_wf c -> pconf_wf (line_loop c line).2.
Proof.
  revert c. induction line as [|x line IH]; intros c Hc; simpl; [done|].
  case_match; simpl; auto with nut.
Qed.

Lemma file_loop_wf stream c : pconf_wf c -> pconf_wf (file_loop c stream).2.
Proof.
  revert c. induction stream as [|x stream IH]; intros c Hc; simpl; [auto with nut|].
  case_match; simpl; auto with nut.
Qed.

Lemma check_magic_wf c : pconf_wf c -> pconf_wf (check_magic c).2.
Proof. unfold check_magic. case_match; simpl; auto with nut. Qed.

Lemma check_magic_ok c : p_magic c = PCONF_CTX_t_MAGIC -> check_magic c = (1, c).
Proof. unfold check_magic. intros ->. done. Qed.

Lemma pconf_char_wf c ch : pconf_wf c -> pconf_wf (pconf_char c ch).2.
Proof.
  intros H%check_magic_wf. unfold pconf_char. destruct (check_magic c) as [ok c1].
  repeat case_match; simpl in *; auto with nut.
Qed.

Lemma pconf_line_wf c line : pconf_wf c -> pconf_wf (pconf_line c line).2.
Proof.
  intros H%check_magic_wf. unfold pconf_line. destruct (check_magic c) as [ok c1].
  simpl in H. case_match; [done|].
  pose proof (line_loop_wf line (start_over (with_linenum c1 (p_linenum c1 + 1)))) as Hl.
  destruct (line_loop _ _) as [over c2]. simpl in Hl.
  repeat case_match; simpl; auto with nut.
Qed.

Lemma pconf_file_next_wf c : pconf_wf c -> pconf_wf (pconf_file_next c).2.
Proof.
  intros H%check_magic_wf. unfold pconf_file_next. destruct (check_magic c) as [ok c1].
  simpl in H. case_match; [done|].
  pose proof (file_loop_wf (default [] (p_f c1))
    (start_over (with_linenum c1 (p_linenum c1 + 1)))) as Hl.
  change (p_f (start_over (with_linenum c1 (p_linenum c1 + 1)))) with (p_f c1).
  destruct (file_loop _ _) as [over c2]. simpl in Hl.
  repeat case_match; simpl; auto with nut.
Qed.
#[export] Hint Resolve pconf_char_wf pconf_line_wf pconf_file_next_wf pconf_init_wf : nut.

(** ** Encoding *)

(** The unbounded escaping that [pconf_encode] truncates to its buffer. *)
Definition escape_char (x : ascii) : bytes :=
  if strchr PCONF_ESCAPE x then [chr 92; x] else [x].
Definition escape (s : bytes) : bytes := flat_map escape_char s.

Lemma encode_loop_spec src dest maxlen :
  1 <= maxlen < 2 ^ 64 -> Z.of_nat (length dest) <= maxlen ->
  exists k, encode_loop src dest maxlen = dest ++ escape (take k src)
    /\ Z.of_nat (length dest + length (escape (take k src))) <= maxlen
    /\ ((length src <= k)%nat
        \/ maxlen < Z.of_nat (length dest + length (escape (take (S k) src)))).
Proof.
  intros Hmax. unfold wrap64. revert dest. induction src as [|x src IH]; intros dest Hd.
  { exists 0%nat. simpl. rewrite app_nil_r. repeat split; lia. }
  assert (forall n, Z.of_nat (length dest) + Z.of_nat n <= maxlen -> n = length (escape_char x) ->
    exists k, encode_loop src (dest ++ escape_char x) maxlen
              = dest ++ escape (take k (x :: src))
    /\ Z.of_nat (length dest + length (escape (take k (x :: src)))) <= maxlen
    /\ ((length (x :: src) <= k)%nat
        \/ maxlen < Z.of_nat (length dest + length (escape (take (S k) (x :: src)))))) as Hstep.
  { intros n Hn ->. destruct (IH (dest ++ escape_char x)) as (k & -> & Hle & Hk).
    { rewrite length_app. lia. }
    exists (S k). rewrite length_app in *. cbn [take escape flat_map].
    change (flat_map escape_char) with escape. rewrite <- app_assoc, !length_app.
    split; [done|]. split; [lia|]. simpl length. destruct Hk as [?|Hk]; [left; lia|right; lia]. }
  assert (forall n, n = length (escape_char x) -> maxlen < Z.of_nat (length dest + n) ->
    exists k, dest = dest ++ escape (take k (x :: src))
    /\ Z.of_nat (length dest + length (escape (take k (x :: src)))) <= maxlen
    /\ ((length (x :: src) <= k)%nat
        \/ maxlen < Z.of_nat (length dest + length (escape (take (S k) (x :: src)))))) as Hstop.
  { intros n -> Hn. exists 0%nat. cbn [take escape flat_map]. rewrite !app_nil_r. simpl length.
    repeat split; [lia|right; lia]. }
  unfold escape_char in Hstep, Hstop. simpl. destruct (strchr PCONF_ESCAPE x).
  - rewrite wrapU_small by lia. csplit.
    + apply (Hstop 2%nat); [done|lia].
    + rewrite length_app. simpl. csplit; [lia|].
      rewrite <- app_assoc. simpl. apply (Hstep 2%nat); [lia|done].
  - csplit; [apply (Hstop 1%nat); [done|lia]|apply (Hstep 1%nat); [lia|done]].
Qed.

Lemma escape_no_nul s : no_nul s -> no_nul (escape s).
Proof.
  intros H. unfold no_nul, escape in *. rewrite !Forall_forall in *. intros c Hc.
  apply list_elem_of_In, in_flat_map in Hc as (x & Hx%list_elem_of_In & Hc).
  unfold escape_char in Hc. case_match; simpl in Hc; destruct Hc as [<-|Hc]; try done;
    try (by apply H). destruct Hc as [<-|[]]. by apply H.
Qed.

Lemma pconf_encode_spec src destsize :
  no_nul src -> (2 <= destsize)%nat -> Z.of_nat destsize <= 2 ^ 64 ->
  exists k, pconf_encode src destsize = escape (take k src)
    /\ cstring (pconf_encode_buf src destsize) = Some (escape (take k src))
    /\ length (pconf_encode_buf src destsize) = destsize
    /\ (length (escape (take k src)) < destsize)%nat
    /\ ((length src <= k)%nat \/ (destsize <= length (escape (take (S k) src)))%nat).
Proof.
  intros Hn Hd Hmax. unfold pconf_encode, pconf_encode_buf.
  rewrite (proj2 (Nat.ltb_ge _ _)) by lia.
  destruct (encode_loop_spec src [] (Z.of_nat destsize - 1)) as (k & -> & Hle & Hk);
    [lia|simpl; lia|]. simpl in *.
  exists k. rewrite cstring_app.
  - rewrite length_app, length_replicate. repeat split; try done; lia.
  - apply escape_no_nul. unfold no_nul in *. by apply Forall_take.
  - lia.
Qed.

Lemma pconf_encode_fits src destsize :
  no_nul src -> (length (escape src) < destsize)%nat -> (2 <= destsize)%nat ->
  Z.of_nat destsize <= 2 ^ 64 -> pconf_encode src destsize = escape src.
Proof.
  intros Hn Hfit Hd Hmax.
  destruct (pconf_encode_spec src destsize Hn Hd Hmax) as (k & -> & _ & _ & _ & [Hk|Hk]).
  - by rewrite take_ge by lia.
  - exfalso.
    assert (length (escape (take (S k) src)) <= length (escape src))%nat; [|lia].
    rewrite <- (take_drop (S k) src) at 2. unfold escape. rewrite flat_map_app, length_app. lia.
Qed.

(** ** The abstract machine

    What the parser computes, without its memory: the state, the word being
    accumulated and the words committed so far. *)

Record aview := mkView { a_state : pstate; a_word : bytes; a_args : list bytes }.

Definition view (c : PCONF_CTX) : aview := mkView (p_state c) (p_wordbuf c) (args c).

Section Abstract.
Context (arg_limit wordlen_limit : nat).

Definition a_room (limit n : nat) : bool := (limit =? 0)%nat || (n <? limit)%nat.

Definition a_addch (w : bytes) (z : Z) : bytes :=
  if (32 <=? z) && (z <=? 127) && a_room wordlen_limit (length w) then w ++ [chr z] else w.

Definition a_commit (l : list bytes) (w : bytes) : list bytes :=
  if a_room arg_limit (length l) then l ++ [w] else l.

Definition astep (v : aview) (z : Z) : aview :=
  let '(mkView st w l) := v in
  match st with
  | STATE_FINDWORDSTART =>
      if z =? 10 then mkView STATE_ENDOFLINE w l
      else if z =? 35 then mkView STATE_FINDEOL w l
      else if isspace z then v
      else if z =? 92 then mkView STATE_COLLECTLITERAL w l
      else if z =? 34 then mkView STATE_QUOTECOLLECT w l
      else if z =? 61 then mkView STATE_FINDWORDSTART [] (a_commit l (a_addch w z))
      else mkView STATE_COLLECT (a_addch w z) l
  | STATE_FINDEOL => if z =? 10 then mkView STATE_ENDOFLINE w l else v
  | STATE_QUOTECOLLECT =>
      if z =? 34 then mkView STATE_FINDWORDSTART [] (a_commit l w)
      else if z =? 92 then mkView STATE_QC_LITERAL w l
      else mkView STATE_QUOTECOLLECT (a_addch w z) l
  | STATE_QC_LITERAL => mkView STATE_QUOTECOLLECT (if z =? 10 then w else a_addch w z) l
  | STATE_COLLECT =>
      if z =? 35 then mkView STATE_FINDEOL [] (a_commit l w)
      else if z =? 10 then mkView STATE_ENDOFLINE [] (a_commit l w)
      else if isspace z then mkView STATE_FINDWORDSTART [] (a_commit l w)
      else if z =? 61 then
        mkView STATE_FINDWORDSTART [] (a_commit (a_commit l w) (a_addch [] z))
      else if z =? 92 then mkView STATE_COLLECTLITERAL w l
      else mkView STATE_COLLECT (a_addch w z) l
  | STATE_COLLECTLITERAL => mkView STATE_COLLECT (if z =? 10 then w else a_addch w z) l
  | STATE_ENDOFLINE | STATE_PARSEERR => v
  end.

Definition arun (v : aview) (s : list Z) : aview := fold_left astep s v.

(** What the end of the input leaves: the pending word is tied off. *)
Definition a_finish (v : aview) : list bytes :=
  match a_word v with [] => a_args v | w => a_commit (a_args v) w end.
End Abstract.

(** The parts of a context the parser never writes. *)
Definition settings (c : PCONF_CTX) : nat * nat * Z :=
  (p_arg_limit c, p_wordlen_limit c, p_magic c).

Lemma args_length c : pconf_wf c -> length (args c) = p_numargs c.
Proof. intros []. unfold args. rewrite length_take. lia. Qed.

Lemma add_arg_word_settings c : settings (add_arg_word c) = settings c.
Proof. rewrite add_arg_word_frame. done. Qed.

Lemma endofword_view c :
  pconf_wf c ->
  p_wordbuf (endofword c) = [] /\ args (endofword c) = a_commit (p_arg_limit c) (args c) (p_wordbuf c)
  /\ settings (endofword c) = settings c /\ p_ch (endofword c) = p_ch c
  /\ p_linenum (endofword c) = p_linenum c /\ p_f (endofword c) = p_f c.
Proof.
  intros Hwf. pose proof (add_arg_word_spec c Hwf) as (Ha & _).
  unfold a_commit, a_room. rewrite (args_length c Hwf). unfold endofword.
  rewrite Nat.ltb_antisym.
  destruct (p_arg_limit c =? 0)%nat eqn:E1, (p_arg_limit c <=? p_numargs c)%nat eqn:E2;
    simpl; try done; (split; [done|split; [exact Ha|by rewrite add_arg_word_frame]]).
Qed.

Lemma addchar_view c :
  pconf_wf c ->
  p_wordbuf (addchar c) = a_addch (p_wordlen_limit c) (p_wordbuf c) (p_ch c)
  /\ args (addchar c) = args c
  /\ settings (addchar c) = settings c /\ p_ch (addchar c) = p_ch c
  /\ p_linenum (addchar c) = p_linenum c /\ p_f (addchar c) = p_f c.
Proof.
  intros Hwf. rewrite addchar_spec by done. unfold a_addch, a_room, accepts.
  destruct (decide _) as [[? ?]|Hno].
  - split; [|done]. simpl. case_match eqn:E; [done|]. breflect. destruct E; breflect; lia.
  - split; [|done]. case_match eqn:E; [|done]. breflect. exfalso. apply Hno.
    destruct H0; breflect; lia.
Qed.

(** The outcome of an operation that may only change the word and the arguments. *)
Definition effect (c c' : PCONF_CTX) (w : bytes) (l : list bytes) : Prop :=
  pconf_wf c' /\ p_wordbuf c' = w /\ args c' = l
  /\ settings c' = settings c /\ p_ch c' = p_ch c
  /\ p_linenum c' = p_linenum c /\ p_f c' = p_f c.

Lemma effect_id c : pconf_wf c -> effect c c (p_wordbuf c) (args c).
Proof. unfold effect. auto 10. Qed.

Lemma effect_addchar c :
  pconf_wf c ->
  effect c (addchar c) (a_addch (p_wordlen_limit c) (p_wordbuf c) (p_ch c)) (args c).
Proof.
  intros Hwf. destruct (addchar_view c Hwf) as (?&?&?&?&?&?). unfold effect. auto 10 with nut.
Qed.

Lemma effect_endofword c :
  pconf_wf c -> effect c (endofword c) [] (a_commit (p_arg_limit c) (args c) (p_wordbuf c)).
Proof.
  intros Hwf. destruct (endofword_view c Hwf) as (?&?&?&?&?&?). unfold effect. auto 10 with nut.
Qed.

Lemma effect_trans c1 c2 c3 w2 l2 w3 l3 :
  effect c1 c2 w2 l2 -> effect c2 c3 w3 l3 -> effect c1 c3 w3 l3.
Proof.
  intros (_&_&_&?&?&?&?) (?&?&?&?&?&?&?). unfold effect. split_and!; congruence.
Qed.

(** the word completed by its last character, as for ["="] *)
Lemma effect_addchar_endofword c :
  pconf_wf c ->
  effect c (endofword (addchar c)) []
    (a_commit (p_arg_limit c) (args c) (a_addch (p_wordlen_limit c) (p_wordbuf c) (p_ch c))).
Proof.
  intros Hwf. pose proof (effect_addchar c Hwf) as H1.
  eapply effect_trans; [exact H1|]. destruct H1 as (Hwf' & Hw & Ha & Hs & _).
  pose proof (effect_endofword _ Hwf') as H2.
  unfold settings in Hs. injection Hs as Hs1 Hs2 Hs3. by rewrite Hw, Ha, Hs1 in H2.
Qed.

#[export] Hint Resolve effect_id effect_addchar effect_endofword effect_addchar_endofword : nut.

Lemma effect_collect_eq c :
  pconf_wf c -> p_ch c = 61 ->
  effect c (findwordstart (endofword c)).2 []
    (a_commit (p_arg_limit c) (a_commit (p_arg_limit c) (args c) (p_wordbuf c))
       (a_addch (p_wordlen_limit c) [] (p_ch c))).
Proof.
  intros Hwf Hch. rewrite Hch. pose proof (effect_endofword c Hwf) as H1.
  destruct H1 as (Hwf1 & Hw & Ha & Hs & Hch1 & Hl & Hf). unfold findwordstart.
  rewrite Hch1, Hch. cbn -[endofword addchar].
  assert (p_ch (addchar (endofword c)) = 61) as ->.
  { destruct (effect_addchar _ Hwf1) as (_&_&_&_&->&_). congruence. }
  simpl. pose proof (effect_addchar_endofword _ Hwf1) as H2.
  unfold settings in Hs. injection Hs as Hs1 Hs2 Hs3.
  rewrite Hw, Ha, Hs1, Hs2, Hch1, Hch in H2.
  eapply effect_trans; [|exact H2]. unfold effect, settings. rewrite Hs1, Hs2, Hs3. auto 10.
Qed.

Lemma addchar_ch c : p_ch (addchar c) = p_ch c.
Proof.
  unfold addchar. repeat (destruct (_ || _) || destruct (negb _ && _)); try done.
  by destruct (_ - 1 <=? _)%nat.
Qed.

Definition step_ok (c c' : PCONF_CTX) : Prop :=
  pconf_wf c'
  /\ view c' = astep (p_arg_limit c) (p_wordlen_limit c) (view c) (p_ch c)
  /\ settings c' = settings c /\ p_linenum c' = p_linenum c /\ p_f c' = p_f c.

Lemma step_ok_effect c c' s w l :
  effect c c' w l ->
  astep (p_arg_limit c) (p_wordlen_limit c) (view c) (p_ch c) = mkView s w l ->
  step_ok c (with_state c' s).
Proof.
  intros (Hwf&Hw&Ha&Hs&Hc&Hl&Hf) E. unfold step_ok. rewrite E. unfold view, args in *. simpl.
  split_and!; auto with nut. by rewrite Hw, Ha.
Qed.

(** Every character: the concrete machine refines the abstract one. *)
Lemma parse_char_refines c : pconf_wf c -> step_ok c (parse_char c).
Proof.
  intros Hwf. unfold parse_char.
  destruct (p_state c) eqn:Est;
    unfold findwordstart, findeol, quotecollect, qc_literal, collect, collectliteral;
    try (by split; [done|]; unfold view; rewrite Est; simpl; auto);
    cbn zeta; rewrite ?addchar_ch;
    repeat match goal with
    | |- context [if p_ch c =? ?n then _ else _] => destruct (p_ch c =? n) eqn:?
    | |- context [if isspace (p_ch c) then _ else _] => destruct (isspace (p_ch c)) eqn:?
    end;
    cbn [fst snd];
    (eapply step_ok_effect;
     [ solve [auto with nut | apply effect_collect_eq; [done|lia]]
     | unfold view; rewrite Est; cbn [astep];
       repeat match goal with E : (_ =? _) = _ |- _ => rewrite E; clear E
                         | E : isspace _ = _ |- _ => rewrite E; clear E end; reflexivity ]).
Qed.

(** ** Whole lines *)

#[local] Arguments astep : simpl never.

Definition a_start : aview := mkView STATE_FINDWORDSTART [] [].

(** The abstract outcome of a line under the context's limits. *)
Definition a_line (c : PCONF_CTX) (s : list Z) : aview :=
  arun (p_arg_limit c) (p_wordlen_limit c) a_start s.

Lemma astep_over al wl v z : line_over (a_state v) = true -> astep al wl v z = v.
Proof. by destruct v as [[]]. Qed.

Lemma arun_over al wl v s : line_over (a_state v) = true -> arun al wl v s = v.
Proof.
  revert v. induction s as [|z s IH]; intros v Hv; [done|].
  simpl. rewrite astep_over by done. by apply IH.
Qed.

Lemma parse_char_feed c z :
  pconf_wf c ->
  let c' := parse_char (with_ch c z) in
  pconf_wf c' /\ view c' = astep (p_arg_limit c) (p_wordlen_limit c) (view c) z
  /\ settings c' = settings c /\ p_linenum c' = p_linenum c /\ p_f c' = p_f c.
Proof. intros Hwf. apply (parse_char_refines (with_ch c z)). auto with nut. Qed.

Lemma settings_eq c c' :
  settings c' = settings c ->
  p_arg_limit c' = p_arg_limit c /\ p_wordlen_limit c' = p_wordlen_limit c
  /\ p_magic c' = p_magic c.
Proof. unfold settings. by intros [= -> -> ->]. Qed.

Lemma line_loop_view line c :
  pconf_wf c -> line_over (p_state c) = false ->
  let r := line_loop c line in
  pconf_wf r.2
  /\ view r.2 = arun (p_arg_limit c) (p_wordlen_limit c) (view c) (map schar line)
  /\ r.1 = line_over (p_state r.2)
  /\ settings r.2 = settings c.
Proof.
  revert c. induction line as [|x line IH]; intros c Hwf Hover; simpl; [done|].
  destruct (parse_char_feed c (schar x) Hwf) as (Hwf' & Hv & Hs & _).
  destruct (line_over (p_state (parse_char (with_ch c (schar x))))) eqn:E; simpl.
  - rewrite <- Hv, arun_over by done. auto.
  - destruct (settings_eq _ _ Hs) as (Hs1 & Hs2 & _).
    rewrite <- Hv, <- Hs1, <- Hs2, <- Hs. by apply IH.
Qed.

(** Outside a word the accumulator is empty. *)
Definition a_inv (v : aview) : Prop :=
  match a_state v with
  | STATE_FINDWORDSTART | STATE_FINDEOL | STATE_ENDOFLINE => a_word v = []
  | STATE_PARSEERR => False
  | _ => True
  end.

Lemma astep_inv al wl v z : a_inv v -> a_inv (astep al wl v z).
Proof.
  destruct v as [st w l]. unfold a_inv, astep.
  destruct st; simpl; intros; repeat case_match; simpl in *; simplify_eq; done.
Qed.

Lemma arun_inv al wl v s : a_inv v -> a_inv (arun al wl v s).
Proof. revert v. induction s; simpl; auto using astep_inv. Qed.

Lemma start_over_view c : view (start_over c) = mkView STATE_FINDWORDSTART (p_wordbuf c) [].
Proof. done. Qed.

(** Tying off the pending word. *)
Lemma finish_view c :
  pconf_wf c ->
  let c' := if negb (p_wordptr c =? 0)%nat then endofword c else c in
  pconf_wf c' /\ args c' = a_finish (p_arg_limit c) (view c) /\ p_wordbuf c' = []
  /\ settings c' = settings c.
Proof.
  intros Hwf. destruct (endofword_view c Hwf) as (Hw & Ha & Hs & _).
  unfold a_finish. simpl. rewrite (wf_wordptr _ Hwf).
  destruct (p_wordbuf c) as [|x w] eqn:E; simpl; [by auto|].
  split_and!; auto with nut.
Qed.

Lemma pconf_line_view c line :
  pconf_wf c -> p_magic c = PCONF_CTX_t_MAGIC -> p_wordbuf c = [] ->
  let r := pconf_line c line in
  r.1 = 1 /\ pconf_wf r.2 /\ p_wordbuf r.2 = [] /\ settings r.2 = settings c
  /\ args r.2 = a_finish (p_arg_limit c) (a_line c (map schar line)).
Proof.
  intros Hwf Hm Hw. unfold pconf_line. rewrite check_magic_ok by done. simpl.
  set (c1 := start_over (with_linenum c (p_linenum c + 1))).
  assert (pconf_wf c1) as Hwf1 by (subst c1; auto with nut).
  destruct (line_loop_view line c1 Hwf1 eq_refl) as (Hwf2 & Hv & Hov & Hs).
  assert (view c1 = a_start) as E1 by (unfold view; simpl; by rewrite Hw).
  rewrite E1 in Hv.
  assert (a_inv (view (line_loop c1 line).2)) as Hinv by (rewrite Hv; by apply arun_inv).
  change (arun (p_arg_limit c1) (p_wordlen_limit c1) a_start (map schar line))
    with (a_line c (map schar line)) in Hv.
  destruct (line_loop c1 line) as [over c2]; simpl in *. subst over.
  change (settings c1) with (settings c) in Hs.
  destruct (settings_eq _ _ Hs) as (Hs1 & _).
  destruct (line_over (p_state c2)) eqn:E; simpl.
  - assert (p_wordbuf c2 = []) as Hw2.
    { unfold a_inv in Hinv. simpl in Hinv. by destruct (p_state c2). }
    split_and!; try done. rewrite <- Hv. unfold a_finish. simpl. by rewrite Hw2.
  - destruct (finish_view c2 Hwf2) as (?&Ha&?&?). rewrite Hs1, Hv in Ha.
    split_and!; auto. congruence.
Qed.

(** ** The round trip on the abstract machine *)

(** A line as the writers of the protocol compose it: bare words, and values
    between double quotes that went through [pconf_encode]. *)
Inductive token := Bare (w : bytes) | Quoted (w : bytes).

Definition token_word (t : token) : bytes := match t with Bare w | Quoted w => w end.

Definition render_token (t : token) : bytes :=
  match t with Bare w => w | Quoted w => qt ++ escape w ++ qt end.

Fixpoint render (ts : list token) : bytes :=
  match ts with
  | [] => []
  | [t] => render_token t
  | t :: ts' => render_token t ++ [chr 32] ++ render ts'
  end.

(** Characters that stand for themselves outside quotes. *)
Definition bare_char (c : ascii) : Prop :=
  33 <= code c <= 127 /\ code c <> 35 /\ code c <> 34 /\ code c <> 92 /\ code c <> 61.

Definition token_ok (wordlen_limit : nat) (t : token) : Prop :=
  within wordlen_limit (length (token_word t)) /\
  match t with
  | Bare w => w <> [] /\ Forall bare_char w
  | Quoted w => Forall printable w
  end.

#[export] Instance within_dec limit n : Decision (within limit n).
Proof. unfold within. apply _. Defined.
#[export] Instance bare_char_dec c : Decision (bare_char c).
Proof. unfold bare_char. apply _. Defined.
#[export] Instance token_ok_dec wl t : Decision (token_ok wl t).
Proof. unfold token_ok. destruct t; apply _. Defined.

Lemma schar_printable c : printable c -> schar c = code c.
Proof. unfold printable. intros. apply schar_small. lia. Qed.

Lemma bare_printable c : bare_char c -> printable c.
Proof. unfold bare_char, printable. lia. Qed.

Lemma a_addch_ok wl w c :
  printable c -> within wl (length (w ++ [c])) -> a_addch wl w (code c) = w ++ [c].
Proof.
  unfold printable, within, a_addch, a_room. rewrite length_app. simpl. intros Hc Hl.
  rewrite chr_code. case_match eqn:E; [done|]. breflect.
  destruct E as [E|E]; breflect; [destruct E; breflect; lia|lia].
Qed.

Lemma escape_char_codes c :
  strchr PCONF_ESCAPE c = false -> code c <> 92 /\ code c <> 34 /\ code c <> 35.
Proof. revert c. by_ascii. Qed.

Lemma arun_app al wl v s1 s2 : arun al wl v (s1 ++ s2) = arun al wl (arun al wl v s1) s2.
Proof. apply fold_left_app. Qed.

Section Render.
Context (al wl : nat).

Lemma within_snoc (w : bytes) c r :
  within wl (length (w ++ c :: r)) -> within wl (length (w ++ [c])).
Proof. unfold within. rewrite !length_app. simpl. lia. Qed.

(** An escaped value between quotes is collected unchanged. *)
Lemma arun_escape w w0 l :
  Forall printable w -> within wl (length (w0 ++ w)) ->
  arun al wl (mkView STATE_QUOTECOLLECT w0 l) (map schar (escape w))
  = mkView STATE_QUOTECOLLECT (w0 ++ w) l.
Proof.
  revert w0. induction w as [|c w IH]; intros w0 Hp Hlen.
  { by rewrite app_nil_r. }
  inversion_clear Hp as [|? ? Hc Hp'].
  unfold escape. cbn [flat_map]. rewrite map_app, arun_app.
  change (flat_map escape_char w) with (escape w).
  assert (arun al wl (mkView STATE_QUOTECOLLECT w0 l) (map schar (escape_char c))
          = mkView STATE_QUOTECOLLECT (w0 ++ [c]) l) as ->.
  { pose proof (escape_char_codes c) as Hcodes. pose proof (within_snoc _ _ _ Hlen) as Hl1.
    unfold escape_char. destruct (strchr PCONF_ESCAPE c); unfold arun; cbn [map fold_left];
      rewrite (schar_printable c) by done.
    - change (astep al wl (mkView STATE_QUOTECOLLECT w0 l) (schar (chr 92)))
        with (mkView STATE_QC_LITERAL w0 l).
      unfold astep. rewrite a_addch_ok by done. unfold printable in Hc.
      by rewrite (proj2 (Z.eqb_neq _ _)) by lia.
    - specialize (Hcodes eq_refl). unfold astep. rewrite a_addch_ok by done.
      by rewrite !(proj2 (Z.eqb_neq _ _)) by lia. }
  rewrite IH; [|done|by rewrite <- app_assoc]. by rewrite <- app_assoc.
Qed.

(** Bare characters start or continue a word. *)
Lemma astep_collect w l c :
  bare_char c ->
  astep al wl (mkView STATE_COLLECT w l) (code c) = mkView STATE_COLLECT (a_addch wl w (code c)) l.
Proof.
  intros (?&?&?&?&?). unfold astep, isspace. rewrite !(proj2 (Z.eqb_neq _ _)) by lia.
  by rewrite (proj2 (Z.leb_gt (code c) 13)), andb_false_r by lia.
Qed.

Lemma astep_findword l c :
  bare_char c ->
  astep al wl (mkView STATE_FINDWORDSTART [] l) (code c)
  = mkView STATE_COLLECT (a_addch wl [] (code c)) l.
Proof.
  intros (?&?&?&?&?). unfold astep, isspace. rewrite !(proj2 (Z.eqb_neq _ _)) by lia.
  by rewrite (proj2 (Z.leb_gt (code c) 13)), andb_false_r by lia.
Qed.

(** So is a bare word once its first character has been seen. *)
Lemma arun_bare w w0 l :
  Forall bare_char w -> within wl (length (w0 ++ w)) ->
  arun al wl (mkView STATE_COLLECT w0 l) (map schar w) = mkView STATE_COLLECT (w0 ++ w) l.
Proof.
  revert w0. induction w as [|c w IH]; intros w0 Hp Hlen.
  { by rewrite app_nil_r. }
  inversion_clear Hp as [|? ? Hc Hp']. pose proof (bare_printable _ Hc) as Hpr.
  cbn [map]. change (arun al wl ?v (?z :: ?s)) with (arun al wl (astep al wl v z) s).
  rewrite schar_printable by done. rewrite astep_collect by done. rewrite a_addch_ok by (done || exact (within_snoc _ _ _ Hlen)).
  rewrite IH; [|done|by rewrite <- app_assoc]. by rewrite <- app_assoc.
Qed.

Lemma arun_token t l :
  token_ok wl t ->
  arun al wl (mkView STATE_FINDWORDSTART [] l) (map schar (render_token t)) =
    match t with
    | Bare w => mkView STATE_COLLECT w l
    | Quoted w => mkView STATE_FINDWORDSTART [] (a_commit al l w)
    end.
Proof.
  intros [Hlen Ht]. destruct t as [w|w]; cbn [render_token token_word] in *.
  - destruct Ht as [Hne Hb]. destruct w as [|c w]; [done|].
    inversion_clear Hb as [|? ? Hc Hp']. pose proof (bare_printable _ Hc) as Hpr.
    cbn [map]. change (arun al wl ?v (?z :: ?s)) with (arun al wl (astep al wl v z) s).
    rewrite schar_printable by done. rewrite astep_findword by done. rewrite a_addch_ok by (done || exact (within_snoc [] _ _ Hlen)).
    by rewrite arun_bare.
  - rewrite !map_app, !arun_app. change (arun al wl (mkView STATE_FINDWORDSTART [] l)
      (map schar qt)) with (mkView STATE_QUOTECOLLECT [] l).
    by rewrite arun_escape.
Qed.

Lemma arun_render ts l :
  Forall (token_ok wl) ts -> within al (length l + length ts) ->
  a_finish al (arun al wl (mkView STATE_FINDWORDSTART [] l) (map schar (render ts)))
  = l ++ map token_word ts.
Proof.
  intros Hok. revert l. induction Hok as [|t ts Ht Hok IH]; intros l Hal.
  { by rewrite app_nil_r. }
  assert (forall w, a_commit al l w = l ++ [w]) as Hcommit.
  { intros w. unfold a_commit, a_room, within in *. simpl in Hal.
    case_match eqn:E; [done|]. breflect. lia. }
  destruct ts as [|t' ts].
  - simpl render. rewrite arun_token by done. destruct Ht as [_ Ht]. unfold a_finish.
    destruct t as [[|c w]|w]; simpl; [by destruct Ht| |]; by rewrite Hcommit.
  - change (render (t :: t' :: ts)) with (render_token t ++ [chr 32] ++ render (t' :: ts)).
    rewrite !map_app, !arun_app, arun_token by done.
    replace (arun al wl _ (map schar [chr 32]))
      with (mkView STATE_FINDWORDSTART [] (l ++ [token_word t])).
    2: { destruct t as [w|w]; simpl; rewrite <- Hcommit; reflexivity. }
    rewrite IH.
    + by rewrite <- app_assoc.
    + unfold within in *. rewrite length_app. simpl in *. lia.
Qed.
End Render.

(** ** The other two ways of feeding the parser *)

(** Characters above 127 are dropped whether [char] is signed or not. *)
Lemma astep_signed al wl v x : astep al wl v (code x) = astep al wl v (schar x).
Proof.
  destruct (Z.ltb_spec (code x) 128) as [Hlt|Hge].
  { by rewrite schar_small. }
  assert (forall z, z = code x \/ z = schar x ->
    z <> 10 /\ z <> 35 /\ z <> 92 /\ z <> 34 /\ z <> 61 /\ isspace z = false
    /\ (32 <=? z) && (z <=? 127) = false) as Hz.
  { pose proof (code_range x). unfold isspace, schar.
    rewrite (proj2 (Z.ltb_ge (code x) 128)) by lia. intros z [->| ->].
    - rewrite (proj2 (Z.leb_gt (code x) 13)), (proj2 (Z.leb_gt (code x) 127)),
        (proj2 (Z.eqb_neq (code x) 32)), !andb_false_r by lia. repeat split; lia.
    - rewrite (proj2 (Z.leb_gt 9 (_ - 256))), (proj2 (Z.leb_gt 32 (_ - 256))),
        (proj2 (Z.eqb_neq (_ - 256) 32)) by lia. repeat split; lia. }
  destruct (Hz _ (or_introl eq_refl)) as (?&?&?&?&?&E1&E1').
  destruct (Hz _ (or_intror eq_refl)) as (?&?&?&?&?&E2&E2').
  destruct v as [st w l]. unfold astep, a_addch. rewrite E1, E2, E1', E2'.
  rewrite !(proj2 (Z.eqb_neq _ _)) by done. by destruct st.
Qed.

Lemma arun_signed al wl v s : arun al wl v (map code s) = arun al wl v (map schar s).
Proof.
  revert v. induction s as [|x s IH]; intros v; [done|]. cbn [map].
  change (arun al wl v (?z :: ?s)) with (arun al wl (astep al wl v z) s).
  by rewrite astep_signed, IH.
Qed.

Lemma arun_not_over al wl v z s :
  line_over (a_state (arun al wl v (z :: s))) = false ->
  line_over (a_state (astep al wl v z)) = false.
Proof.
  change (arun al wl v (z :: s)) with (arun al wl (astep al wl v z) s). intros H.
  destruct (line_over (a_state (astep al wl v z))) eqn:E; [|done].
  by rewrite arun_over, E in H.
Qed.

Lemma file_loop_line s rest c :
  pconf_wf c ->
  line_over (a_state (arun (p_arg_limit c) (p_wordlen_limit c) (view c) (map schar s))) = false ->
  line_over (a_state (arun (p_arg_limit c) (p_wordlen_limit c) (view c) (map schar s ++ [10]))) = true ->
  let r := file_loop c (s ++ LF :: rest) in
  r.1 = true
  /\ view r.2 = arun (p_arg_limit c) (p_wordlen_limit c) (view c) (map schar s ++ [10])
  /\ p_f r.2 = Some rest /\ pconf_wf r.2.
Proof.
  revert c. induction s as [|x s IH]; intros c Hwf Hno Hov; simpl.
  - destruct (parse_char_feed (with_f c (Some rest)) (code LF)) as (Hwf' & Hv & _ & _ & Hf);
      [auto with nut|].
    simpl in Hv, Hf. change (code LF) with 10 in *. change (view (with_f c (Some rest))) with (view c) in Hv.
    simpl in Hov. rewrite <- Hv in Hov. simpl in Hov. rewrite Hov. simpl. by rewrite Hv.
  - destruct (parse_char_feed (with_f c (Some (s ++ LF :: rest))) (code x))
      as (Hwf' & Hv & Hs & _ & Hf); [auto with nut|].
    simpl in Hv. change (view (with_f c ?f)) with (view c) in Hv. rewrite astep_signed in Hv.
    pose proof (arun_not_over _ _ _ _ _ Hno) as Hx. rewrite <- Hv in Hx. simpl in Hx. rewrite Hx.
    destruct (settings_eq _ _ Hs) as (Hs1 & Hs2 & _). simpl in Hs1, Hs2.
    simpl in Hno, Hov. rewrite <- Hv, <- Hs1, <- Hs2 in *. by apply IH.
Qed.

(** [pconf_char] on each character in turn: the results and the final context. *)
Fixpoint feed_chars (c : PCONF_CTX) (s : bytes) : list Z * PCONF_CTX :=
  match s with
  | [] => ([], c)
  | x :: s' =>
      let '(r, c1) := pconf_char c x in
      let '(rs, c2) := feed_chars c1 s' in (r :: rs, c2)
  end.

Lemma pconf_char_view c x :
  pconf_wf c -> p_magic c = PCONF_CTX_t_MAGIC -> line_over (p_state c) = false ->
  let r := pconf_char c x in
  pconf_wf r.2 /\ view r.2 = astep (p_arg_limit c) (p_wordlen_limit c) (view c) (schar x)
  /\ settings r.2 = settings c
  /\ (line_over (p_state r.2) = false -> r.1 = 0)
  /\ (p_state r.2 = STATE_ENDOFLINE -> r.1 = 1).
Proof.
  intros Hwf Hm Hov. unfold pconf_char. rewrite check_magic_ok by done. simpl. rewrite Hov.
  destruct (parse_char_feed c (schar x) Hwf) as (Hwf' & Hv & Hs & _).
  destruct (p_state (parse_char (with_ch c (schar x)))) eqn:E; simpl; rewrite ?E;
    split_and!; done.
Qed.

Lemma feed_chars_view s c :
  pconf_wf c -> p_magic c = PCONF_CTX_t_MAGIC -> line_over (p_state c) = false ->
  line_over (a_state (arun (p_arg_limit c) (p_wordlen_limit c) (view c) (map schar s))) = false ->
  let r := feed_chars c s in
  r.1 = replicate (length s) 0 /\ pconf_wf r.2
  /\ view r.2 = arun (p_arg_limit c) (p_wordlen_limit c) (view c) (map schar s)
  /\ settings r.2 = settings c.
Proof.
  revert c. induction s as [|x s IH]; intros c Hwf Hm Hov Hno; simpl; [done|].
  destruct (pconf_char_view c x Hwf Hm Hov) as (Hwf' & Hv & Hs & Hr & _).
  pose proof (arun_not_over _ _ _ _ _ Hno) as Hx. rewrite <- Hv in Hx. specialize (Hr Hx).
  destruct (pconf_char c x) as [r1 c1]. simpl in *. subst r1.
  destruct (settings_eq _ _ Hs) as (Hs1 & Hs2 & Hs3).
  rewrite <- Hv, <- Hs1, <- Hs2 in Hno.
  destruct (IH c1) as (Hr & ? & Hv' & Hs'); [done|congruence|done|done|].
  destruct (feed_chars c1 s) as [rs c2]. simpl in *. subst rs.
  rewrite <- Hv, <- Hs1, <- Hs2. split_and!; try done. congruence.
Qed.

Lemma feed_chars_app s1 s2 c :
  feed_chars c (s1 ++ s2) =
  let r1 := feed_chars c s1 in let r2 := feed_chars r1.2 s2 in (r1.1 ++ r2.1, r2.2).
Proof.
  revert c. induction s1 as [|x s1 IH]; intros c; simpl; [by destruct (feed_chars c s2)|].
  destruct (pconf_char c x) as [r c1]. rewrite IH. by destruct (feed_chars c1 s1).
Qed.

(** The logical line ends where the physical line does: not inside quotes, not
    after a backslash, and a word begun has a character. *)
Definition complete (v : aview) : bool :=
  match a_state v with
  | STATE_FINDWORDSTART | STATE_FINDEOL => true
  | STATE_COLLECT => negb (bool_decide (a_word v = []))
  | _ => false
  end.

Lemma complete_newline al wl v :
  a_inv v -> complete v = true -> astep al wl v 10 = mkView STATE_ENDOFLINE [] (a_finish al v).
Proof.
  destruct v as [st w l]. unfold a_inv, complete, astep, a_finish.
  destruct st; simpl; try done; intros; subst; try done. by destruct w.
Qed.

(** ** The properties *)

(** What a caller does with a context: initialise it, open a file, feed it. *)
Inductive pconf_reachable : PCONF_CTX -> Prop :=
| reach_init : pconf_reachable pconf_init
| reach_file_begin fopen c fn :
    pconf_reachable c -> pconf_reachable (pconf_file_begin fopen c fn).2
| reach_file_next c : pconf_reachable c -> pconf_reachable (pconf_file_next c).2
| reach_line c line : pconf_reachable c -> pconf_reachable (pconf_line c line).2
| reach_char c ch : pconf_reachable c -> pconf_reachable (pconf_char c ch).2
| reach_error c : pconf_reachable c -> pconf_reachable (pconf_parse_error c).2.

Lemma pconf_file_begin_wf fopen c fn : pconf_wf c -> pconf_wf (pconf_file_begin fopen c fn).2.
Proof.
  intros H%check_magic_wf. unfold pconf_file_begin. destruct (check_magic c) as [ok c1].
  repeat case_match; simpl in *; auto with nut.
Qed.

(** An operation that keeps the invariant and the settings. *)
Definition keeps (c c' : PCONF_CTX) : Prop := pconf_wf c' /\ settings c' = settings c.

Lemma keeps_trans c1 c2 c3 : keeps c1 c2 -> keeps c2 c3 -> keeps c1 c3.
Proof. intros [? E1] [? E2]. split; [done|]. by rewrite E2, E1. Qed.

Lemma check_magic_keeps c : pconf_wf c -> keeps c (check_magic c).2.
Proof. intros. unfold check_magic. case_match; split; simpl; auto with nut; done. Qed.

Lemma parse_char_keeps c z : pconf_wf c -> keeps c (parse_char (with_ch c z)).
Proof. intros Hwf. destruct (parse_char_feed c z Hwf) as (?&_&?&_). by split. Qed.

Lemma finish_keeps c :
  pconf_wf c -> keeps c (if negb (p_wordptr c =? 0)%nat then endofword c else c).
Proof. intros Hwf. destruct (finish_view c Hwf) as (?&_&_&?). by split. Qed.

Lemma line_loop_keeps line c : pconf_wf c -> keeps c (line_loop c line).2.
Proof.
  revert c. induction line as [|x line IH]; intros c Hwf; simpl; [by split|].
  pose proof (parse_char_keeps c (schar x) Hwf) as Hk. case_match; [done|].
  eapply keeps_trans; [exact Hk|]. apply IH, Hk.
Qed.

Lemma file_loop_keeps stream c : pconf_wf c -> keeps c (file_loop c stream).2.
Proof.
  revert c. induction stream as [|x stream IH]; intros c Hwf; simpl; [by split; [auto with nut|]|].
  assert (keeps c (parse_char (with_ch (with_f c (Some stream)) (code x)))) as Hk.
  { apply (parse_char_keeps (with_f c (Some stream))). auto with nut. }
  case_match; [done|]. eapply keeps_trans; [exact Hk|]. apply IH, Hk.
Qed.

Lemma pconf_char_keeps c ch : pconf_wf c -> keeps c (pconf_char c ch).2.
Proof.
  intros H. pose proof (check_magic_keeps c H) as Hk. unfold pconf_char.
  destruct (check_magic c) as [ok c1]. simpl in Hk. case_match; [done|].
  assert (keeps c (if line_over (p_state c1) then start_over c1 else c1)) as Hk2.
  { destruct Hk. case_match; split; simpl; auto with nut; done. }
  pose proof (parse_char_keeps _ (schar ch) (proj1 Hk2)) as Hk3.
  pose proof (keeps_trans _ _ _ Hk2 Hk3). repeat case_match; done.
Qed.

Lemma pconf_line_keeps c line : pconf_wf c -> keeps c (pconf_line c line).2.
Proof.
  intros H. pose proof (check_magic_keeps c H) as Hk. unfold pconf_line.
  destruct (check_magic c) as [ok c1]. simpl in Hk. case_match; [done|].
  set (c2 := start_over (with_linenum c1 (p_linenum c1 + 1))).
  assert (keeps c c2) as Hk2 by (destruct Hk; split; subst c2; simpl; auto with nut; done).
  pose proof (keeps_trans _ _ _ Hk2 (line_loop_keeps line c2 (proj1 Hk2))) as Hk3.
  destruct (line_loop c2 line) as [over c3]. simpl in Hk3. case_match; [done|].
  eapply keeps_trans; [exact Hk3|]. apply finish_keeps, Hk3.
Qed.

Lemma pconf_file_next_keeps c : pconf_wf c -> keeps c (pconf_file_next c).2.
Proof.
  intros H. pose proof (check_magic_keeps c H) as Hk. unfold pconf_file_next.
  destruct (check_magic c) as [ok c1]. simpl in Hk. case_match; [done|].
  set (c2 := start_over (with_linenum c1 (p_linenum c1 + 1))).
  assert (keeps c c2) as Hk2 by (destruct Hk; split; subst c2; simpl; auto with nut; done).
  pose proof (keeps_trans _ _ _ Hk2 (file_loop_keeps (default [] (p_f c2)) c2 (proj1 Hk2))) as Hk3.
  destruct (file_loop c2 _) as [over c3]. simpl in Hk3. case_match; [done|]. case_match; [|done].
  eapply keeps_trans; [exact Hk3|]. apply finish_keeps, Hk3.
Qed.

Lemma pconf_file_begin_keeps fopen c fn : pconf_wf c -> keeps c (pconf_file_begin fopen c fn).2.
Proof.
  intros H. pose proof (check_magic_keeps c H) as [H1 H2]. unfold pconf_file_begin.
  destruct (check_magic c) as [ok c1]. simpl in *. repeat case_match; split; simpl; auto with nut; done.
Qed.

Lemma pconf_parse_error_keeps c : pconf_wf c -> keeps c (pconf_parse_error c).2.
Proof.
  intros H. pose proof (check_magic_keeps c H) as [H1 H2]. unfold pconf_parse_error.
  destruct (check_magic c) as [ok c1]. simpl in *. repeat case_match; split; simpl; auto with nut; done.
Qed.
#[export] Hint Resolve pconf_char_keeps pconf_line_keeps pconf_file_next_keeps
  pconf_file_begin_keeps pconf_parse_error_keeps : nut.

Lemma reachable_keeps c : pconf_reachable c -> keeps pconf_init c.
Proof.
  induction 1; [split; [apply pconf_init_wf|done]|..];
    (eapply keeps_trans; [eassumption|]); match goal with H : keeps _ _ |- _ => destruct H end;
    auto with nut.
Qed.

(** C28. CVE-2012-2944 and memory bounds: however a context is used, every word
    it holds consists of printable ASCII (and DEL), has at most 512 characters
    and fits its allocation together with its NUL, there are at most 32 words,
    and the accumulator and its NUL stay inside its buffer. *)
Theorem pconf_memory_safe c :
  pconf_reachable c ->
  (length (args c) <= PCONF_DEFAULT_ARG_LIMIT)%nat
  /\ Forall (fun w => Forall printable w /\ (length w <= PCONF_DEFAULT_WORDLEN_LIMIT)%nat) (args c)
  /\ Forall2 (fun w n => (length w < n)%nat) (p_arglist c) (p_argsize c)
  /\ p_wordptr c = length (p_wordbuf c) /\ (p_wordptr c < p_wordbufsize c)%nat.
Proof.
  intros [Hwf Hs]%reachable_keeps. unfold settings in Hs. injection Hs as Ha Hw _.
  pose proof (args_length c Hwf) as Hl. destruct Hwf as [Hal Hfit Hn Hm Hp Hb Hword Hws].
  unfold PCONF_DEFAULT_ARG_LIMIT, PCONF_DEFAULT_WORDLEN_LIMIT, within in *.
  split_and!; try done; try lia.
  unfold args. apply Forall_take. eapply Forall_impl; [exact Hws|].
  intros w [Hpw Hlw]. unfold within in Hlw. split; [done|lia].
Qed.

Lemma pconf_memory_safe_witness :
  let c := (pconf_line pconf_init ($"SETINFO ups.status OL")).2 in
  pconf_reachable c /\ (length (args c) <= PCONF_DEFAULT_ARG_LIMIT)%nat.
Proof.
  split; [|refine (proj1 (pconf_memory_safe _ _))]; apply reach_line, reach_init.
Defined.

Lemma pconf_line_render c ts :
  pconf_wf c -> p_magic c = PCONF_CTX_t_MAGIC -> p_wordbuf c = [] ->
  Forall (token_ok (p_wordlen_limit c)) ts -> within (p_arg_limit c) (length ts) ->
  args (pconf_line c (render ts)).2 = map token_word ts.
Proof.
  intros Hwf Hm Hw Hts Hlen.
  destruct (pconf_line_view c (render ts) Hwf Hm Hw) as (_ & _ & _ & _ & Ha).
  rewrite Ha. by apply (arun_render _ _ ts []).
Qed.

(** C29. Round trip: a line of bare words and of double-quoted [pconf_encode]d
    values, within the context's limits, parses to exactly those words. *)
Theorem pconf_line_roundtrip c ts :
  pconf_wf c -> p_magic c = PCONF_CTX_t_MAGIC -> p_wordbuf c = [] ->
  Forall (token_ok (p_wordlen_limit c)) ts ->
  within (p_arg_limit c) (length ts) ->
  (pconf_line c (render ts)).1 = 1 /\ args (pconf_line c (render ts)).2 = map token_word ts.
Proof.
  intros Hwf Hm Hw Hts Hlen. split; [|by apply pconf_line_render].
  by destruct (pconf_line_view c (render ts) Hwf Hm Hw).
Qed.

Lemma pconf_line_roundtrip_witness :
  let ts := [Bare ($"SET"); Bare ($"ups.id"); Quoted (qt ++ $" #1\ ")] in
  args (pconf_line pconf_init (render ts)).2 = map token_word ts.
Proof.
  apply pconf_line_roundtrip; try (vm_compute; reflexivity).
  - apply pconf_init_wf.
  - apply (bool_decide_unpack _). vm_compute. exact I.
  - right. simpl. unfold PCONF_DEFAULT_ARG_LIMIT. lia.
Defined.

(** A complete line followed by its newline, on the abstract machine. *)
Lemma complete_run c s :
  complete (a_line c (map schar s)) = true ->
  line_over (a_state (a_line c (map schar s))) = false
  /\ astep (p_arg_limit c) (p_wordlen_limit c) (a_line c (map schar s)) 10
     = mkView STATE_ENDOFLINE [] (a_finish (p_arg_limit c) (a_line c (map schar s)))
  /\ a_line c (map schar s ++ [10])
     = mkView STATE_ENDOFLINE [] (a_finish (p_arg_limit c) (a_line c (map schar s))).
Proof.
  intros Hc.
  assert (a_inv (a_line c (map schar s))) as Hinv by by apply arun_inv.
  pose proof (complete_newline (p_arg_limit c) (p_wordlen_limit c) _ Hinv Hc) as Hlf.
  split; [|split; [exact Hlf|]].
  - revert Hc. unfold complete. by destruct (a_state _).
  - unfold a_line at 1. rewrite arun_app. exact Hlf.
Qed.

Lemma file_next_complete c s rest :
  pconf_wf c -> p_magic c = PCONF_CTX_t_MAGIC -> p_wordbuf c = [] ->
  complete (a_line c (map schar s)) = true ->
  let r := pconf_file_next (with_f c (Some (s ++ LF :: rest))) in
  r.1 = 1 /\ args r.2 = a_finish (p_arg_limit c) (a_line c (map schar s)) /\ p_f r.2 = Some rest.
Proof.
  intros Hwf Hm Hw (Hno & _ & Hrun)%complete_run. unfold pconf_file_next.
  rewrite check_magic_ok by done. cbn [fst snd Z.eqb].
  set (c1 := start_over _).
  assert (view c1 = a_start) as Hv1 by (unfold view; simpl; by rewrite Hw).
  destruct (file_loop_line s rest c1) as (Hov & Hv & Hf & _);
    [subst c1; auto with nut|rewrite Hv1; exact Hno|rewrite Hv1; unfold a_line in Hrun; simpl; by rewrite Hrun|].
  rewrite Hv1 in Hv. unfold a_line in Hrun. simpl in Hv. rewrite Hrun in Hv. simpl default.
  destruct (file_loop c1 (s ++ LF :: rest)) as [over c2]. simpl in *. subst over. simpl.
  split; [done|]. split; [|done]. by injection Hv.
Qed.

Lemma feed_chars_complete c s :
  pconf_wf c -> p_magic c = PCONF_CTX_t_MAGIC -> view c = a_start ->
  complete (a_line c (map schar s)) = true ->
  let r := feed_chars c (s ++ [LF]) in
  r.1 = replicate (length s) 0 ++ [1]
  /\ args r.2 = a_finish (p_arg_limit c) (a_line c (map schar s)).
Proof.
  intros Hwf Hm Hv (Hno & Hlf & _)%complete_run. rewrite feed_chars_app.
  destruct (feed_chars_view s c) as (Hr1 & Hwf1 & Hv1 & Hs1);
    [done|done|by injection Hv as ->|by rewrite Hv|].
  rewrite Hv in Hv1. fold (a_line c (map schar s)) in Hv1.
  destruct (feed_chars c s) as [rs c1]. cbn [fst snd] in *. subst rs.
  destruct (settings_eq _ _ Hs1) as (Hs2 & Hs3 & Hs4).
  destruct (pconf_char_view c1 LF Hwf1) as (_ & Hv2 & _ & _ & H1);
    [congruence|by rewrite <- Hno, <- Hv1|].
  rewrite Hs2, Hs3, Hv1 in Hv2. change (schar LF) with 10 in Hv2. rewrite Hlf in Hv2.
  simpl. destruct (pconf_char c1 LF) as [r2 c2]. simpl in *.
  injection Hv2 as Hst2 _ Hargs. by rewrite H1.
Qed.

(** C38. "The parsing is identical no matter how you feed it": a physical line
    that ends outside quotes and escapes gives the same words, whatever its
    bytes, through [pconf_line], through [pconf_char] (which says 0 on each
    character and 1 on the newline) and through [pconf_file_next] (which leaves
    the rest of the file unread). *)
Theorem pconf_feeders_agree c s rest :
  pconf_wf c -> p_magic c = PCONF_CTX_t_MAGIC -> p_wordbuf c = [] ->
  p_state c = STATE_FINDWORDSTART -> p_numargs c = 0%nat ->
  complete (a_line c (map schar s)) = true ->
  let by_line := pconf_line c s in
  let by_file := pconf_file_next (with_f c (Some (s ++ LF :: rest))) in
  let by_char := feed_chars c (s ++ [LF]) in
  by_line.1 = 1 /\ by_file.1 = 1 /\ by_char.1 = replicate (length s) 0 ++ [1]
  /\ args by_file.2 = args by_line.2 /\ args by_char.2 = args by_line.2
  /\ p_f by_file.2 = Some rest.
Proof.
  intros Hwf Hm Hw Hst Hn Hcomplete. cbv zeta.
  destruct (pconf_line_view c s Hwf Hm Hw) as (Hr & _ & _ & _ & ->).
  assert (view c = a_start) as Hv by (unfold view, a_start, args; by rewrite Hst, Hw, Hn).
  destruct (file_next_complete c s rest Hwf Hm Hw Hcomplete) as (?&->&?).
  destruct (feed_chars_complete c s Hwf Hm Hv Hcomplete) as (?&->). auto 10.
Qed.

Lemma pconf_feeders_agree_witness :
  let s := $"MONITOR su@host 1 u p\=#w primary # note" ++ [chr 200] in
  args (pconf_file_next (with_f pconf_init (Some (s ++ LF :: $"next")))).2
  = args (pconf_line pconf_init s).2.
Proof.
  intros s. assert (complete (a_line pconf_init (map schar s)) = true) as Hc
    by (vm_compute; reflexivity).
  exact (proj1 (proj2 (proj2 (proj2 (pconf_feeders_agree pconf_init s ($"next")
    pconf_init_wf eq_refl eq_refl eq_refl eq_refl Hc))))).
Defined.

(** [pconf_encode] into a buffer of at least two bytes writes exactly the
    buffer, always NUL-terminates it, never splits an escape sequence, and
    stores the longest prefix of the source whose escaped form fits. *)
Theorem pconf_encode_bounds src destsize :
  no_nul src -> (2 <= destsize)%nat -> Z.of_nat destsize <= 2 ^ 64 ->
  length (pconf_encode_buf src destsize) = destsize
  /\ exists k,
      cstring (pconf_encode_buf src destsize) = Some (escape (take k src))
      /\ (length (escape (take k src)) < destsize)%nat
      /\ ((length src <= k)%nat \/ (destsize <= length (escape (take (S k) src)))%nat).
Proof.
  intros Hn Hd Hm. destruct (pconf_encode_spec src destsize Hn Hd Hm) as (k & _ & ? & ? & ? & ?).
  eauto.
Qed.

Lemma pconf_encode_bounds_witness : length (pconf_encode_buf ($"a\b#") 5) = 5%nat.
Proof.
  refine (proj1 (pconf_encode_bounds _ 5 _ _ _)); [|lia|lia].
  apply (bool_decide_unpack _). vm_compute. exact I.
Defined.

(** A one-byte buffer is not covered by that: [maxlen - 1] wraps around, and
    a source that begins with a character to escape leaves no NUL in it. *)
Theorem pconf_encode_one_byte x src :
  strchr PCONF_ESCAPE x = true ->
  pconf_encode_buf (x :: src) 1 = [chr 92] /\ cstring (pconf_encode_buf (x :: src) 1) = None.
Proof. intros Hx. unfold pconf_encode_buf. simpl. rewrite Hx. done. Qed.

Lemma pconf_encode_one_byte_witness : cstring (pconf_encode_buf ($"#1") 1) = None.
Proof. refine (proj2 (pconf_encode_one_byte (chr 35) ($"1") _)). reflexivity. Defined.

Lemma file_loop_end s c :
  pconf_wf c ->
  line_over (a_state (arun (p_arg_limit c) (p_wordlen_limit c) (view c) (map schar s))) = false ->
  let r := file_loop c s in
  r.1 = false
  /\ view r.2 = arun (p_arg_limit c) (p_wordlen_limit c) (view c) (map schar s)
  /\ pconf_wf r.2.
Proof.
  revert c. induction s as [|x s IH]; intros c Hwf Hno; simpl; [by split_and!; auto with nut|].
  destruct (parse_char_feed (with_f c (Some s)) (code x)) as (Hwf' & Hv & Hs & _ & _);
    [auto with nut|].
  simpl in Hv. change (view (with_f c ?f)) with (view c) in Hv. rewrite astep_signed in Hv.
  pose proof (arun_not_over _ _ _ _ _ Hno) as Hx. rewrite <- Hv in Hx. simpl in Hx. rewrite Hx.
  destruct (settings_eq _ _ Hs) as (Hs1 & Hs2 & _). simpl in Hs1, Hs2.
  simpl in Hno. rewrite <- Hv, <- Hs1, <- Hs2 in *. by apply IH.
Qed.

(** Reaching the end of the file with no committed word. *)
Lemma file_next_no_args c s :
  pconf_wf c -> p_magic c = PCONF_CTX_t_MAGIC -> p_wordbuf c = [] ->
  line_over (a_state (a_line c (map schar s))) = false -> a_args (a_line c (map schar s)) = [] ->
  let r := pconf_file_next (with_f c (Some s)) in r.1 = 0 /\ args r.2 = [].
Proof.
  intros Hwf Hm Hw Hno Hargs. unfold pconf_file_next.
  rewrite check_magic_ok by done. cbn [fst snd Z.eqb].
  set (c1 := start_over _).
  assert (view c1 = a_start) as Hv1 by (unfold view; simpl; by rewrite Hw).
  destruct (file_loop_end s c1) as (Hov & Hv & Hwf2);
    [subst c1; auto with nut|by rewrite Hv1|].
  rewrite Hv1 in Hv. simpl in Hv. fold (a_line c (map schar s)) in Hv. simpl default.
  destruct (file_loop c1 s) as [over c2]. simpl in *. subst over.
  assert (args c2 = []) as Ha by (rewrite <- Hargs, <- Hv; done).
  pose proof (args_length c2 Hwf2) as Hl. rewrite Ha in Hl. simpl in Hl. by rewrite <- Hl.
Qed.

(** The comment at the top of parseconf.c says that reaching EOF also forces
    parsing of what has been scanned so far; [pconf_file_next] does so only if
    an earlier word of the line was committed: a last line without newline that
    is one bare word is reported as the end of the file and the word is dropped,
    where [pconf_line] returns it. *)
Theorem pconf_file_last_word_lost c w :
  pconf_wf c -> p_magic c = PCONF_CTX_t_MAGIC -> p_wordbuf c = [] ->
  token_ok (p_wordlen_limit c) (Bare w) -> within (p_arg_limit c) 1 ->
  let r := pconf_file_next (with_f c (Some w)) in
  r.1 = 0 /\ args r.2 = [] /\ args (pconf_line c w).2 = [w].
Proof.
  intros Hwf Hm Hw Hok Hal. cbv zeta.
  assert (a_line c (map schar w) = mkView STATE_COLLECT w []) as Hrun
    by exact (arun_token _ _ _ [] Hok).
  destruct (file_next_no_args c w) as [-> ->]; [done..|by rewrite Hrun|by rewrite Hrun|].
  split; [done|]. split; [done|].
  apply (pconf_line_render c [Bare w]); auto.
Qed.

Lemma pconf_file_last_word_lost_witness :
  (pconf_file_next (with_f pconf_init (Some ($"MAXAGE")))).1 = 0.
Proof.
  refine (proj1 (pconf_file_last_word_lost pconf_init ($"MAXAGE") pconf_init_wf eq_refl eq_refl _ _));
    apply (bool_decide_unpack _); vm_compute; exact I.
Defined.
