(* ===== verification/NumFacts.v ===== *)
(** * Printing and reading numbers

    What [%d], [%i] and [%ld] print is read back by [strtol] and [atoi], and is a bare word of
    parseconf. *)

From S2P Require Import Prelude CStr StrUtil StrFacts ParseConf ParseConfFacts.
From stdpp Require Import options.

Lemma pretty_digit x : (x < 10)%N -> is_digit 10 (pretty_N_char x) = Some (Z.of_N x).
Proof.
  intros Hx. assert (x = 0 \/ x = 1 \/ x = 2 \/ x = 3 \/ x = 4 \/ x = 5 \/ x = 6 \/ x = 7 \/ x = 8 \/ x = 9)%N
    as Hc by lia. by repeat destruct Hc as [->|Hc]; [..|subst].
Qed.

Lemma digits_value_app b acc ds1 ds2 :
  digits_value b acc (ds1 ++ ds2) = digits_value b (digits_value b acc ds1) ds2.
Proof. unfold digits_value. by rewrite foldl_app. Qed.

(** The digits in front of what was already printed: their value, and how many there are. *)
Lemma pretty_go_spec x s :
  exists ds, String.list_ascii_of_string (pretty_N_go x s) = ds ++ String.list_ascii_of_string s
    /\ Forall (digit_of 10) ds /\ digits_value 10 0 ds = Z.of_N x /\ (x = 0%N -> ds = [])
    /\ ((0 < x)%N -> ds <> [] /\ 10 ^ (Z.of_nat (length ds) - 1) <= Z.of_N x).
Proof.
  revert s. induction (N.lt_wf_0 x) as [x _ IH]; intros s.
  assert (x = 0 \/ 0 < x)%N as [->|Hx] by lia.
  { rewrite pretty_N_go_0. exists []. split_and!; [done|done|done|done|lia]. }
  rewrite pretty_N_go_step by done.
  destruct (IH (x `div` 10)%N (N.div_lt x 10 Hx eq_refl) (String.String (pretty_N_char (x `mod` 10)) s))
    as (ds & -> & Hd & Hv & Hz & Hlen).
  assert ((x `mod` 10 < 10)%N) as Hm by (by apply N.mod_lt).
  pose proof (N.div_mod' x 10) as Hdm.
  exists (ds ++ [pretty_N_char (x `mod` 10)]). split_and!.
  - by rewrite <- app_assoc.
  - apply Forall_app. split; [done|]. constructor; [|done]. unfold digit_of. rewrite pretty_digit by done. by eexists.
  - rewrite digits_value_app, Hv. unfold digits_value. simpl. rewrite pretty_digit by done. simpl. lia.
  - lia.
  - intros _. split; [by destruct ds|]. rewrite length_app. simpl.
    assert (x `div` 10 = 0 \/ 0 < x `div` 10)%N as [Hz'|Hp] by lia.
    + rewrite (Hz Hz'). simpl. lia.
    + destruct (Hlen Hp) as [Hne Hb]. assert (0 < length ds)%nat by (destruct ds; simpl; [done|lia]).
      replace (Z.of_nat (length ds + 1) - 1) with (Z.succ (Z.of_nat (length ds) - 1)) by lia.
      rewrite Z.pow_succ_r by lia. revert Hb Hdm. clear.
      generalize (10 ^ (Z.of_nat (length ds) - 1)) (x `div` 10)%N (x `mod` 10)%N. lia.
Qed.

Lemma show_pos p :
  let ds := show_Z (Zpos p) in
  ds <> [] /\ Forall (digit_of 10) ds /\ digits_value 10 0 ds = Zpos p
  /\ 10 ^ (Z.of_nat (length ds) - 1) <= Zpos p.
Proof.
  cbv zeta. destruct (pretty_go_spec (Npos p) "") as (ds & Hs & Hd & Hv & _ & Hlen).
  assert (show_Z (Zpos p) = ds) as ->.
  { unfold show_Z. change (pretty (Zpos p)) with (pretty_N_go (Npos p) ""). by rewrite Hs, app_nil_r. }
  destruct Hlen; [done|]. by split_and!.
Qed.

Lemma show_neg p : show_Z (Zneg p) = chr 45 :: show_Z (Zpos p).
Proof. reflexivity. Qed.

(** A number is printed as a numeral of its value. *)
Lemma show_numeral z : signed_numeral 10 (show_Z z) z.
Proof.
  assert (forall p, magnitude 10 (show_Z (Zpos p)) (Zpos p)) as Hpos.
  { intros p. destruct (show_pos p) as (Hne & Hd & Hv & _). exists 10, (show_Z (Zpos p)).
    split_and!; [done|done|split; auto|done]. }
  destruct z as [|p|p].
  - exists (show_Z 0), 0. split; [|by left]. exists 10, (show_Z 0).
    split_and!; [done| |split; auto|done]. repeat constructor. by eexists.
  - exists (show_Z (Zpos p)), (Zpos p). split; [done|by left].
  - exists (show_Z (Zpos p)), (Zpos p). split; [done|right; right]. by split.
Qed.

Lemma show_start z : starts_with space (show_Z z) = false.
Proof.
  destruct (show_numeral z) as (m & v & Hm & [[-> _]|[[-> _]|[-> _]]]); [|done..].
  by destruct (magnitude_plain _ _ _ Hm) as (_ & ? & _).
Qed.

Lemma strtol_show z : LONG_MIN <= z <= LONG_MAX -> strtol (show_Z z) 10 = (z, [], E_OK).
Proof.
  intros Hz. destruct (strip_sign (show_Z z)) as [neg m] eqn:Hs.
  destruct (proj1 (strip_sign_numeral 10 _ neg m z Hs) (show_numeral z)) as (v & Hm & Hv).
  destruct (strto_magnitude 10 (show_Z z) neg m v) as (n & Hn); [right; lia|apply show_start|done|done|].
  unfold strtol. rewrite Hn, <- Hv.
  rewrite (proj2 (Z.ltb_ge _ _)) by lia. by rewrite (proj2 (Z.ltb_ge _ _)) by lia.
Qed.

Lemma atoi_show z : INT_MIN <= z <= INT_MAX -> atoi (show_Z z) = z.
Proof.
  unfold INT_MIN, INT_MAX. intros Hz. unfold atoi. rewrite strtol_show; [|unfold LONG_MIN, LONG_MAX; lia].
  apply wrapS_small; lia.
Qed.

(** ** As words *)

Lemma digit_bare c : digit_of 10 c -> bare_char c.
Proof.
  cut (forall c, bool_decide (is_Some (is_digit 10 c)) = true -> bare_char c).
  { intros H Hc. apply H. by apply bool_decide_eq_true. }
  unfold bare_char. by_ascii.
Qed.

Lemma show_bare z : show_Z z <> [] /\ Forall bare_char (show_Z z).
Proof.
  assert (forall p, Forall bare_char (show_Z (Zpos p))) as Hpos.
  { intros p. destruct (show_pos p) as (_ & Hd & _). eapply Forall_impl; [exact Hd|apply digit_bare]. }
  destruct z as [|p|p].
  - split; [done|]. repeat constructor; vm_compute; intuition congruence.
  - split; [by destruct (show_pos p)|apply Hpos].
  - rewrite show_neg. split; [done|]. constructor; [|apply Hpos]. split_and!; vm_compute; intuition congruence.
Qed.

(** A [long] takes at most 20 characters. *)
Lemma show_length z : LONG_MIN <= z <= LONG_MAX -> (length (show_Z z) <= 20)%nat.
Proof.
  unfold LONG_MIN, LONG_MAX. intros Hz.
  assert (forall p, Zpos p <= 2 ^ 63 -> (length (show_Z (Zpos p)) <= 19)%nat) as Hpos.
  { intros p Hp. destruct (show_pos p) as (_ & _ & _ & Hlen).
    destruct (Nat.le_gt_cases (length (show_Z (Zpos p))) 19) as [|Hgt]; [done|exfalso].
    assert (10 ^ 19 <= 10 ^ (Z.of_nat (length (show_Z (Zpos p))) - 1)) by (apply Z.pow_le_mono_r; lia).
    lia. }
  destruct z as [|p|p]; [simpl; lia| |].
  - specialize (Hpos p). lia.
  - rewrite show_neg. simpl. specialize (Hpos p). lia.
Qed.
