(* ===== verification/Tokens.v ===== *)
(** * common/common.c: lists of words separated by spaces

    [str_contains_token] and [str_add_unique_token], on which ups.status and the
    buzzwords of a driver are built: a text of words joined by spaces is an ordered
    set of words, in a buffer of a fixed size. *)

From S2P Require Import Prelude CStr ListenFacts.
From stdpp Require Import options.

Abbreviation SPACE := (chr 32).

(** ** The functions *)

(** The loop of [str_contains_token]: occurrences of [token] from position [from] on. *)
Fixpoint contains_loop (fuel : nat) (string token : bytes) (from : nat) : bool :=
  match fuel, strstr_pos (drop from string) token with
  | S fuel', Some i =>
      let offset := (from + i)%nat in
      (((offset =? 0)%nat || bool_decide (string !! (offset - 1)%nat = Some SPACE))
       && match string !! (offset + length token)%nat with None => true | Some c => Ascii.eqb c SPACE end)
      || contains_loop fuel' string token (S offset)
  | _, _ => false
  end.

(** [NULL] is [None]; an occurrence more than there are characters is not possible. *)
Definition str_contains_token (string token : option bytes) : bool :=
  match token, string with
  | Some ((_ :: _) as t), Some ((_ :: _) as s) => contains_loop (S (length s)) s t 0
  | _, _ => false
  end.

Section AddToken.
(** The callbacks may change a state of their own. *)
Context {St : Type}.
Definition callback : Type := bytes -> bytes -> St -> St * Z.
Context (tgtsize : nat) (callback_always callback_unique : option callback).

Definition run_callback (f : option callback) (tgt token : bytes) (st : St) : St * Z :=
  match f with Some f => f tgt token st | None => (st, 1) end.

(** A token without spaces; the result comes last. *)
Definition add_one_token (tgt token : bytes) (st : St) : bytes * St * Z :=
  match token with
  | [] => (tgt, st, -2)
  | _ =>
      let '(st, cbret) := run_callback callback_always tgt token st in
      if cbret =? 0 then (tgt, st, -3)
      else if str_contains_token (Some tgt) (Some token) then (tgt, st, 0)
      else
        let '(st, cbret) := run_callback callback_unique tgt token st in
        if cbret =? 0 then (tgt, st, -3)
        else
          let sep := match tgt with [] => [] | _ => [SPACE] end in
          if (tgtsize <? length tgt + length sep + length token + 1)%nat then (tgt, st, -1)
          else (snprintfcat tgt tgtsize (sep ++ token), st, 1)
  end.

(** The result of several tokens, from the results so far and the next one. *)
Definition merge_ret (retval ret : Z) : Z :=
  if (retval =? -2) || (ret <? 0) || ((retval >=? 0) && (ret >=? retval)) then ret else retval.

(** The loop over the words of a token with spaces: [word] is the one being read. *)
Fixpoint add_words (tgt word token : bytes) (st : St) (retval : Z) : bytes * St * Z :=
  let flush :=
    match word with
    | [] => (tgt, st, retval)
    | _ => let '(tgt, st, ret) := add_one_token tgt word st in (tgt, st, merge_ret retval ret)
    end in
  match token with
  | [] => flush
  | c :: token' =>
      if Ascii.eqb c SPACE then let '(tgt, st, retval) := flush in add_words tgt [] token' st retval
      else add_words tgt (word ++ [c]) token' st retval
  end.

Definition str_add_unique_token (tgt token : bytes) (st : St) : bytes * St * Z :=
  match token, strstr_pos token [SPACE] with
  | [], _ => (tgt, st, -2)
  | _, Some _ => add_words tgt [] token st (-2)
  | _, None => add_one_token tgt token st
  end.
End AddToken.

Example add_token_ex :
  str_add_unique_token 256 None None ($"OL CHRG") ($"  OL TRIM ") tt = ($"OL CHRG TRIM", tt, 1).
Proof. reflexivity. Qed.

(** ** Words *)

Definition word (w : bytes) : Prop := w <> [] /\ SPACE ∉ w.

Definition words (s : bytes) : list bytes := strtok_words SPACE [] s.

(** The text of a list of words. *)
Fixpoint join (ws : list bytes) : bytes :=
  match ws with
  | [] => []
  | [w] => w
  | w :: ws' => w ++ [SPACE] ++ join ws'
  end.

Lemma strtok_no_sep sep u : sep ∉ u -> forall acc s, strtok_words sep acc (u ++ s) = strtok_words sep (acc ++ u) s.
Proof.
  intros Hu. induction u as [|c u IH]; intros acc s; [by rewrite app_nil_r|].
  apply not_elem_of_cons in Hu as [Hc Hu]. simpl. destruct (Ascii.eqb_spec c sep); [congruence|].
  rewrite IH by done. by rewrite <- app_assoc.
Qed.

Lemma words_no_space u : SPACE ∉ u -> words u = match u with [] => [] | _ => [u] end.
Proof. intros Hu. unfold words. rewrite <- (app_nil_r u) at 1. rewrite strtok_no_sep by done. simpl. by destruct u. Qed.

Lemma words_word w : word w -> words w = [w].
Proof. intros [Hne Hw]. rewrite words_no_space by done. by destruct w. Qed.

(** The text up to its first space. *)
Lemma split_space s : SPACE ∉ s \/ exists u s', s = u ++ SPACE :: s' /\ SPACE ∉ u.
Proof.
  induction s as [|c s IH]; [left; by apply not_elem_of_nil|].
  destruct (decide (c = SPACE)) as [->|Hc]; [right; exists [], s; split; [done|by apply not_elem_of_nil]|].
  destruct IH as [Hs|(u & s' & -> & Hu)]; [left|right; exists (c :: u), s'; split; [done|]];
    by apply not_elem_of_cons.
Qed.

Lemma words_cut u s : SPACE ∉ u -> words (u ++ SPACE :: s) = words u ++ words s.
Proof.
  intros Hu. rewrite (words_no_space u) by done. unfold words. rewrite strtok_no_sep by done. simpl.
  by destruct u.
Qed.

Lemma words_app_space a b : words (a ++ SPACE :: b) = words a ++ words b.
Proof.
  remember (length a) as n eqn:Hn. revert a Hn. induction n as [n IH] using lt_wf_ind. intros a ->.
  destruct (split_space a) as [Ha|(u & a' & -> & Hu)]; [by apply words_cut|].
  rewrite <- app_assoc. simpl. rewrite words_cut, (IH (length a')), words_cut by (rewrite ?length_app; simpl; done || lia).
  by rewrite app_assoc.
Qed.

Lemma words_are_words s : Forall word (words s).
Proof.
  remember (length s) as n eqn:Hn. revert s Hn. induction n as [n IH] using lt_wf_ind. intros s ->.
  assert (forall u, SPACE ∉ u -> Forall word (words u)) as Hu0.
  { intros u Hu. rewrite words_no_space by done. destruct u; [done|]. by apply Forall_singleton. }
  destruct (split_space s) as [Ha|(u & s' & -> & Hu)]; [by apply Hu0|].
  rewrite words_cut by done. apply Forall_app. split; [by apply Hu0|]. apply (IH (length s')); [|done].
  rewrite length_app. simpl. lia.
Qed.

Lemma words_join ws : Forall word ws -> words (join ws) = ws.
Proof.
  induction 1 as [|w ws Hw Hws IH]; [done|]. destruct ws as [|w' ws]; [by apply words_word|].
  change (join (w :: w' :: ws)) with (w ++ SPACE :: join (w' :: ws)).
  rewrite words_app_space, IH, words_word by done. done.
Qed.

Lemma join_app ws w : ws <> [] -> join (ws ++ [w]) = join ws ++ [SPACE] ++ w.
Proof.
  induction ws as [|w0 ws IH]; [done|]. intros _. destruct ws as [|w1 ws]; [done|].
  change ((w0 :: w1 :: ws) ++ [w]) with (w0 :: (w1 :: ws) ++ [w]).
  change (join (w0 :: (w1 :: ws) ++ [w])) with (w0 ++ [SPACE] ++ join ((w1 :: ws) ++ [w])).
  rewrite IH by done. simpl join. by rewrite <- !app_assoc.
Qed.

Lemma join_nil ws : Forall word ws -> join ws = [] -> ws = [].
Proof. intros Hws Hj. by rewrite <- (words_join ws), Hj. Qed.

(** ** Occurrences between spaces *)

Definition at_word (s w l : bytes) : Prop :=
  exists r, s = l ++ w ++ r /\ (l = [] \/ last l = Some SPACE) /\ (r = [] \/ head r = Some SPACE).

Lemma at_word_cut u s w l :
  word w -> SPACE ∉ u -> at_word (u ++ SPACE :: s) w l ->
  (l = [] /\ u = w) \/ exists l', l = u ++ SPACE :: l' /\ at_word s w l'.
Proof.
  intros [Hne Hw] Hu (r & Heq & Hl & Hr).
  destruct (decide (length l <= length u)%nat) as [Hle|Hgt].
  - left. assert (l = take (length l) u) as Hlu.
    { assert (take (length l) (u ++ SPACE :: s) = take (length l) (l ++ w ++ r)) as Ht by (by rewrite Heq).
      rewrite take_app_le, take_app_length in Ht by done. done. }
    assert (l = []) as ->.
    { destruct Hl as [|Hl]; [done|]. exfalso. apply Hu. apply last_Some_elem_of in Hl. rewrite Hlu in Hl.
      rewrite <- (take_drop (length l) u). apply elem_of_app. by left. }
    split; [done|]. simpl in Heq. clear Hlu Hle Hl.
    revert u Hu Heq. induction w as [|c w IH]; intros u Hu Heq; [done|].
    apply not_elem_of_cons in Hw as [Hc Hw]. destruct u as [|d u]; simpl in Heq; injection Heq as Hcd Heq; [congruence|].
    subst d. f_equal. apply not_elem_of_cons in Hu as [_ Hu]. destruct w as [|c2 w]; [|by apply IH].
    destruct u as [|d u]; [done|]. destruct Hr as [->|Hr]; [done|]. destruct r; simplify_eq/=. set_solver.
  - right. exists (drop (S (length u)) l). 
    assert (l = u ++ SPACE :: drop (S (length u)) l) as Hlu.
    { rewrite <- (take_drop (S (length u)) l) at 1.
      assert (take (S (length u)) (u ++ SPACE :: s) = take (S (length u)) (l ++ w ++ r)) as Ht by (by rewrite Heq).
      rewrite (take_app_le l) in Ht by lia. rewrite <- Ht.
      change (u ++ SPACE :: s) with (u ++ [SPACE] ++ s). rewrite app_assoc.
      rewrite take_app_length' by (rewrite length_app; simpl; lia). by rewrite <- app_assoc. }
    split; [done|]. exists r. rewrite Hlu in Heq. rewrite <- app_assoc in Heq. simplify_eq/=.
    split; [done|]. split; [|done]. destruct Hl as [->|Hl]; [simpl in Hgt; lia|].
    rewrite Hlu in Hl. rewrite last_app in Hl. destruct (drop (S (length u)) l) as [|x l']; [by left|right].
    rewrite last_cons_cons in Hl. destruct (last (x :: l')) eqn:El; [done|]. by apply last_None in El.
Qed.

Lemma words_elem s w : word w -> w ∈ words s <-> exists l, at_word s w l.
Proof.
  intros Hw. pose proof Hw as [Hne Hsp]. split.
  - remember (length s) as n eqn:Hn. revert s Hn. induction n as [n IH] using lt_wf_ind. intros s ->.
    destruct (split_space s) as [Hs|(u & s' & -> & Hu)].
    + rewrite words_no_space by done. destruct s as [|c s]; [by intros ?%elem_of_nil|].
      intros Hin%list_elem_of_singleton. exists [], []. rewrite app_nil_r, Hin. auto.
    + rewrite words_cut by done. intros [Hin|Hin]%elem_of_app.
      * rewrite words_no_space in Hin by done. destruct u as [|c u]; [by apply elem_of_nil in Hin|].
        apply list_elem_of_singleton in Hin as ->. exists [], (SPACE :: s'). auto.
      * apply (IH (length s')) in Hin as (l & r & -> & Hl & Hr); [|rewrite length_app; simpl; lia|done].
        exists (u ++ SPACE :: l), r. rewrite <- app_assoc. split; [done|]. split; [right|done].
        rewrite last_app. destruct Hl as [->|Hl]; [done|]. destruct l as [|x l]; [done|].
        by rewrite last_cons_cons, Hl.
  - intros (l & r & -> & Hl & Hr).
    assert (w ∈ words (w ++ r)) as Hin.
    { destruct Hr as [->|Hr]; [rewrite app_nil_r, words_word by done; by left|].
      destruct r as [|c r]; [done|]. injection Hr as ->. rewrite words_cut, words_word by done. by left. }
    destruct Hl as [->|Hl]; [done|]. destruct l as [|x l _] using rev_ind; [done|].
    rewrite last_snoc in Hl. injection Hl as ->. rewrite <- app_assoc. simpl. rewrite words_app_space.
    apply elem_of_app. by right.
Qed.

(** ** [str_contains_token] *)

Lemma at_word_test s w l :
  occurs s w l ->
  (((length l =? 0)%nat || bool_decide (s !! (length l - 1)%nat = Some SPACE))
   && match s !! (length l + length w)%nat with None => true | Some c => Ascii.eqb c SPACE end) = true
  <-> at_word s w l.
Proof.
  intros [r ->]. assert ((l ++ w ++ r) !! (length l + length w)%nat = head r) as ->.
  { rewrite app_assoc. rewrite lookup_app_r by (rewrite length_app; lia). rewrite length_app, Nat.sub_diag.
    by destruct r. }
  assert (((length l =? 0)%nat || bool_decide ((l ++ w ++ r) !! (length l - 1)%nat = Some SPACE)) = true
    <-> (l = [] \/ last l = Some SPACE)) as Hl.
  { destruct l as [|x l _] using rev_ind; [naive_solver|]. rewrite last_snoc, length_app. simpl length.
    replace (length l + 1 =? 0)%nat with false by (symmetry; apply Nat.eqb_neq; lia). simpl orb.
    replace (length l + 1 - 1)%nat with (length l) by lia. rewrite bool_decide_eq_true.
    rewrite <- app_assoc. simpl. rewrite list_lookup_middle by done. split; [by right|]. intros [?|?]; [|done].
    by destruct l. }
  rewrite andb_true_iff, Hl. unfold at_word. split.
  - intros [? Hr]. exists r. split_and!; [done|done|]. destruct r as [|c r]; [by left|right].
    simpl in Hr. by apply Ascii.eqb_eq in Hr as ->.
  - intros (r' & Heq & ? & Hr). simplify_eq. split; [done|]. destruct Hr as [->|Hr]; [done|].
    destruct r' as [|c r']; [done|]. by simplify_eq/=.
Qed.

Lemma contains_loop_spec fuel s w from :
  w <> [] -> (length s < from + fuel)%nat ->
  contains_loop fuel s w from = true <-> exists l, (from <= length l)%nat /\ at_word s w l.
Proof.
  intros Hne. revert from. induction fuel as [|fuel IH]; intros from Hf.
  { split; [done|]. intros (l & Hl & r & -> & _). rewrite !length_app in Hf. lia. }
  cbn [contains_loop]. destruct (strstr_pos (drop from s) w) as [i|] eqn:E.
  - apply strstr_some in E as (l0 & [r0 Hr0] & Hi & Hmin).
    assert (from + length l0 + length w <= length s)%nat as Hlen.
    { assert (length (drop from s) = length (l0 ++ w ++ r0)) as Hd by (by rewrite Hr0).
      rewrite length_drop, !length_app in Hd. destruct w; [done|]. simpl in *. lia. }
    set (l := take from s ++ l0).
    assert (length l = from + i)%nat as Hl by (unfold l; rewrite length_app, length_take; lia).
    assert (occurs s w l) as Hocc.
    { exists r0. unfold l. rewrite <- app_assoc, <- Hr0. by rewrite take_drop. }
    rewrite <- Hl, orb_true_iff, at_word_test, IH by (done || lia). split.
    + intros [Hat|(l' & Hl' & Hat)]; [exists l|exists l']; (split; [lia|done]).
    + intros (l' & Hl' & Hat). destruct (decide (length l' = length l)) as [Heq|Hneq].
      * left. assert (l' = l) as <-; [|done]. destruct Hocc as [r1 H1]. destruct Hat as (r2 & H2 & _).
        rewrite H1 in H2. by apply app_inj_1 in H2 as [-> _].
      * right. exists l'. split; [|done]. assert (length l <= length l')%nat; [|lia].
        destruct Hat as (r' & H' & _).
        assert (occurs (drop from s) w (drop from l')) as Hocc'.
        { exists r'. rewrite H'. rewrite drop_app_le by lia. done. }
        apply Hmin in Hocc'. rewrite length_drop in Hocc'. lia.
  - split; [done|]. intros (l' & Hl' & r' & H' & _). exfalso. rewrite strstr_none in E.
    apply (E (drop from l')). exists r'. rewrite H'. by rewrite drop_app_le.
Qed.

(** Finding a token is finding a word. *)
Lemma str_contains_token_spec s w :
  word w -> str_contains_token (Some s) (Some w) = bool_decide (w ∈ words s).
Proof.
  intros Hw. pose proof Hw as [Hne _]. apply Bool.eq_iff_eq_true. rewrite bool_decide_eq_true, words_elem by done.
  destruct w as [|c w]; [done|]. unfold str_contains_token. destruct s as [|d s].
  - split; [done|]. intros (l & r & Heq & _). by destruct l.
  - rewrite (contains_loop_spec (S (length (d :: s))) (d :: s) (c :: w) 0) by first [done | lia].
    split; [intros (l & _ & ?); by exists l|].
    intros (l & ?). exists l. split; [lia|done].
Qed.

(** ** [str_add_unique_token] *)

(** The effect on the list of words, in a buffer of [size] bytes: a new word is added when the text with
    its NUL takes fewer than [size] bytes.  The text of exactly [size] bytes passes the test of the code as well, but
    [snprintfcat] cuts its last character: [last_fit_is_cut] below.  [whole] says that no word of a sequence
    meets that case. *)
Definition add_word (size : nat) (ws : list bytes) (w : bytes) : list bytes :=
  if decide (w ∈ ws) then ws
  else if (S (length (join (ws ++ [w]))) <? size)%nat then ws ++ [w] else ws.

Fixpoint whole (size : nat) (ws l : list bytes) : bool :=
  match l with
  | [] => true
  | w :: l =>
      (bool_decide (w ∈ ws) || negb (S (length (join (ws ++ [w]))) =? size)%nat) && whole size (add_word size ws w) l
  end.

Lemma whole_app size l1 l2 ws :
  whole size ws (l1 ++ l2) = whole size ws l1 && whole size (fold_left (add_word size) l1 ws) l2.
Proof. revert ws. induction l1 as [|w l1 IH]; intros ws; [done|]. cbn [app whole fold_left]. by rewrite IH, andb_assoc. Qed.

Section AddFacts.
Context {St : Type} (size : nat) (always unique : option (@callback St)).

(** The words that the callbacks let through, one by one: the first may see a word that is in the
    list, the second is only called for a new one. *)
Definition admit_word (ws : list bytes) (w : bytes) (st : St) : list bytes * St :=
  let '(st, r) := run_callback always (join ws) w st in
  if r =? 0 then (ws, st)
  else if decide (w ∈ ws) then (ws, st)
  else
    let '(st, r) := run_callback unique (join ws) w st in
    if r =? 0 then (ws, st) else (add_word size ws w, st).

Lemma add_word_words ws w : Forall word ws -> word w -> Forall word (add_word size ws w).
Proof. intros. unfold add_word. repeat case_match; try done. apply Forall_app. by rewrite Forall_singleton. Qed.

Lemma admit_word_words ws w st : Forall word ws -> word w -> Forall word (admit_word ws w st).1.
Proof.
  intros. unfold admit_word. destruct (run_callback always _ _ _) as [st1 r1]. destruct (r1 =? 0); [done|].
  destruct (decide _); [done|]. destruct (run_callback unique _ _ _) as [st2 r2].
  destruct (r2 =? 0); [done|]. by apply add_word_words.
Qed.

(** The words among them that the callbacks let through to the buffer *)
Definition let_through (ws : list bytes) (w : bytes) (st : St) : list bytes :=
  let '(st, r) := run_callback always (join ws) w st in
  if r =? 0 then []
  else if decide (w ∈ ws) then []
  else let '(st, r) := run_callback unique (join ws) w st in if r =? 0 then [] else [w].

Fixpoint admits_whole (ws l : list bytes) (st : St) : bool :=
  match l with
  | [] => true
  | w :: l => whole size ws (let_through ws w st) && admits_whole (admit_word ws w st).1 l (admit_word ws w st).2
  end.

Lemma add_one_token_words ws w st :
  Forall word ws -> word w -> whole size ws (let_through ws w st) = true ->
  (add_one_token size always unique (join ws) w st).1 = (join (admit_word ws w st).1, (admit_word ws w st).2).
Proof.
  intros Hws Hw. pose proof Hw as [Hne _]. unfold add_one_token, admit_word, let_through. destruct w as [|c w]; [done|].
  destruct (run_callback always _ _ _) as [st1 r1]. destruct (r1 =? 0); [done|].
  rewrite str_contains_token_spec, words_join by done. case_bool_decide as Hin.
  { by rewrite !decide_True. }
  rewrite !decide_False by done. destruct (run_callback unique _ _ _) as [st2 r2]. destruct (r2 =? 0); [done|].
  cbn [whole]. rewrite bool_decide_false, andb_true_r, orb_false_l, negb_true_iff, Nat.eqb_neq by done. intros Hcut.
  unfold add_word. rewrite decide_False by done.
  assert (join (ws ++ [c :: w]) = join ws ++ (match join ws with [] => [] | _ => [SPACE] end) ++ c :: w) as Hj.
  { destruct ws as [|w0 ws]; [done|]. rewrite join_app by done.
    destruct (join (w0 :: ws)) eqn:Ej; [|done]. by apply join_nil in Ej. }
  set (sep := match join ws with [] => [] | _ => [SPACE] end) in *.
  replace (size <? length (join ws) + length sep + length (c :: w) + 1)%nat
    with (negb (S (length (join (ws ++ [c :: w]))) <? size)%nat).
  2: { rewrite Hj, !length_app in *. destruct (Nat.ltb_spec (S (length (join ws) + (length sep + length (c :: w)))) size)%nat,
         (Nat.ltb_spec size (length (join ws) + length sep + length (c :: w) + 1))%nat; simpl in *; lia. }
  destruct (Nat.ltb_spec (S (length (join (ws ++ [c :: w])))) size) as [Hlt|Hge]; simpl negb; cbv iota; [|done].
  cbn [fst]. f_equal. rewrite Hj in *. by apply snprintfcat_id.
Qed.

Definition admit_words (ws l : list bytes) (st : St) : list bytes * St :=
  fold_left (fun '(ws, st) w => admit_word ws w st) l (ws, st).

Lemma admits_whole_app l1 l2 ws st :
  admits_whole ws (l1 ++ l2) st
  = admits_whole ws l1 st && admits_whole (admit_words ws l1 st).1 l2 (admit_words ws l1 st).2.
Proof.
  revert ws st. induction l1 as [|w l1 IH]; intros ws st; [done|]. cbn [app admits_whole]. rewrite IH, andb_assoc.
  unfold admit_words. cbn [fold_left]. by destruct (admit_word ws w st).
Qed.

Lemma add_words_flush ws u st r :
  Forall word ws -> SPACE ∉ u -> admits_whole ws (words u) st = true ->
  exists ws' st' r', match u with
    | [] => (join ws, st, r)
    | _ :: _ => let '(tgt, st, ret) := add_one_token size always unique (join ws) u st in (tgt, st, merge_ret r ret)
    end = (join ws', st', r') /\ admit_words ws (words u) st = (ws', st') /\ Forall word ws'.
Proof.
  intros Hws Hu. rewrite words_no_space by done. destruct u as [|c u]; [by exists ws, st, r|].
  cbn [admits_whole]. rewrite andb_true_r. intros Hwh.
  assert (word (c :: u)) as Hw by done. pose proof (add_one_token_words ws _ st Hws Hw Hwh) as Hadd.
  pose proof (admit_word_words ws _ st Hws Hw) as Hok.
  unfold admit_words. cbn [fold_left]. destruct (admit_word ws (c :: u) st) as [ws' st'].
  destruct (add_one_token _ _ _ _ _ _) as [[tgt st1] ret]. simpl in *. simplify_eq.
  by exists ws', st', (merge_ret r ret).
Qed.

Lemma add_words_spec token : forall ws u st r,
  Forall word ws -> SPACE ∉ u -> admits_whole ws (words (u ++ token)) st = true ->
  (add_words size always unique (join ws) u token st r).1
  = (join (admit_words ws (words (u ++ token)) st).1, (admit_words ws (words (u ++ token)) st).2).
Proof.
  induction token as [|c token IH]; intros ws u st r Hws Hu Hwh; cbn [add_words].
  - rewrite app_nil_r in *. destruct (add_words_flush ws u st r Hws Hu Hwh) as (ws' & st' & r' & Hf & Hadm & Hws').
    by rewrite Hf, Hadm.
  - destruct (Ascii.eqb_spec c SPACE) as [->|Hc].
    + rewrite words_cut, admits_whole_app in Hwh by done. apply andb_true_iff in Hwh as [Hwh1 Hwh2].
      destruct (add_words_flush ws u st r Hws Hu Hwh1) as (ws' & st' & r' & Hf & Hadm & Hws').
      rewrite Hadm in Hwh2. rewrite Hf, IH by (done || apply not_elem_of_nil). rewrite words_cut by done.
      unfold admit_words in *. rewrite fold_left_app, Hadm. done.
    + rewrite IH; [by rewrite <- app_assoc|done| |by rewrite <- app_assoc].
      apply not_elem_of_app. split; [done|]. intros ?%list_elem_of_singleton. congruence.
Qed.
End AddFacts.

Section AddSpec.
Context {St : Type} (size : nat) (always unique : option (@callback St)).

(** Adding a text to a buffer of words adds the text's words in turn. *)
Lemma str_add_unique_token_spec ws token st :
  Forall word ws -> admits_whole size always unique ws (words token) st = true ->
  (str_add_unique_token size always unique (join ws) token st).1
  = (join (admit_words size always unique ws (words token) st).1,
     (admit_words size always unique ws (words token) st).2).
Proof.
  intros Hws Hwh. unfold str_add_unique_token. destruct token as [|c token]; [done|].
  destruct (strstr_pos (c :: token) [SPACE]) eqn:E.
  - rewrite add_words_spec by (done || apply not_elem_of_nil). done.
  - assert (SPACE ∉ c :: token) as Hsp.
    { intros (l & r & Heq)%list_elem_of_split. rewrite strstr_none in E. apply (E l). exists r. by rewrite Heq. }
    rewrite words_no_space in * by done. cbn [admits_whole] in Hwh. rewrite andb_true_r in Hwh. by rewrite add_one_token_words.
Qed.

Lemma admit_words_words l ws st : Forall word ws -> Forall word l -> Forall word (admit_words size always unique ws l st).1.
Proof.
  intros Hws Hl. revert ws st Hws. induction Hl as [|w l Hw Hl IH]; intros ws st Hws; [done|].
  unfold admit_words. cbn [fold_left]. pose proof (admit_word_words size always unique ws w st Hws Hw) as Hok.
  destruct (admit_word _ _ _ ws w st) as [ws' st']. by apply IH.
Qed.
End AddSpec.

Lemma admit_words_plain {St} size ws l (st : St) :
  admit_words size None None ws l st = (fold_left (add_word size) l ws, st).
Proof.
  revert ws. induction l as [|w l IH]; intros ws; [done|]. unfold admit_words. cbn [fold_left].
  unfold admit_word. cbn [run_callback Z.eqb]. destruct (decide (w ∈ ws)) as [Hin|Hin]; [|apply IH].
  assert (add_word size ws w = ws) as -> by (unfold add_word; by rewrite decide_True). apply IH.
Qed.

Lemma admits_whole_plain {St} size ws l (st : St) : admits_whole size None None ws l st = whole size ws l.
Proof.
  revert ws. induction l as [|w l IH]; intros ws; [done|]. cbn [admits_whole whole].
  unfold admit_word, let_through. cbn [run_callback Z.eqb]. destruct (decide (w ∈ ws)) as [Hin|Hin]; cbn [whole fst snd]; rewrite IH.
  - rewrite bool_decide_true by done. assert (add_word size ws w = ws) as -> by (unfold add_word; by rewrite decide_True). done.
  - by rewrite andb_true_r.
Qed.

(** A list that a buffer of [size] bytes can hold. *)
Definition word_list (size : nat) (ws : list bytes) : Prop :=
  Forall word ws /\ NoDup ws /\ (ws = [] \/ (S (length (join ws)) < size)%nat).

Lemma add_word_list size ws w : word_list size ws -> word w -> word_list size (add_word size ws w).
Proof.
  intros (Hws & Hnd & Hl) Hw. split; [by apply add_word_words|]. unfold add_word.
  destruct (decide (w ∈ ws)); [done|]. destruct (Nat.ltb_spec (S (length (join (ws ++ [w])))) size); [|done].
  split; [|by right]. apply NoDup_app. split_and!; [done| |by apply NoDup_singleton].
  intros x Hx ->%list_elem_of_singleton. done.
Qed.

Lemma fold_add_word_list size l ws : word_list size ws -> Forall word l -> word_list size (fold_left (add_word size) l ws).
Proof. intros Hws Hl. revert ws Hws. induction Hl as [|w l Hw Hl IH]; intros ws Hws; [done|]. by apply IH, add_word_list. Qed.

(** The words whose text takes [size] bytes exactly: the last one is reported as added, and loses its last character. *)
Lemma last_fit_is_cut {St} size ws w c (st : St) :
  Forall word ws -> ws <> [] -> word (w ++ [c]) -> w ++ [c] ∉ ws -> S (length (join (ws ++ [w ++ [c]]))) = size ->
  add_one_token size None None (join ws) (w ++ [c]) st = (join ws ++ SPACE :: w, st, 1).
Proof.
  intros Hws Hne Hw Hin Hlen. unfold add_one_token. cbn [run_callback Z.eqb].
  rewrite str_contains_token_spec, words_join, bool_decide_false by done.
  rewrite join_app, !length_app in Hlen by done. simpl in Hlen.
  destruct (join ws) as [|d t] eqn:E; [destruct ws; [done|by apply join_nil in E]|].
  destruct (Nat.ltb_spec size (length (d :: t) + length [SPACE] + length (w ++ [c]) + 1))%nat as [H|_].
  { rewrite length_app in H. simpl in *. lia. }
  assert (snprintfcat (d :: t) size ([SPACE] ++ w ++ [c]) = d :: t ++ SPACE :: w) as ->.
  { rewrite app_assoc. rewrite snprintfcat_cut; [done|]. rewrite !length_app. simpl in *. lia. }
  by destruct w.
Qed.

(** The calls of [str_add_unique_token] on one buffer. *)
Definition add_tokens (size : nat) (tgt : bytes) (tokens : list bytes) : bytes :=
  fold_left (fun tgt t => (str_add_unique_token size None None tgt t tt).1.1) tokens tgt.

(** A buffer filled by [str_add_unique_token] is an ordered set.  Whatever texts are added, with
    any spaces in them, the buffer holds distinct words joined by single spaces, in the order of
    their first addition, leaving out those that did not fit when they came; its text with the
    terminating NUL fits the buffer; and [str_contains_token] finds exactly these words, whole.  (No word may fill the
    buffer to the last byte: such a word is cut.) *)
Theorem token_buffer_is_ordered_set size tokens w :
  word w -> whole size [] (concat (words <$> tokens)) = true ->
  let ws := fold_left (add_word size) (concat (words <$> tokens)) [] in
  add_tokens size [] tokens = join ws /\ word_list size ws
  /\ str_contains_token (Some (add_tokens size [] tokens)) (Some w) = bool_decide (w ∈ ws).
Proof.
  intros Hw Hwh. cbv zeta.
  assert (forall ws, word_list size ws -> whole size ws (concat (words <$> tokens)) = true ->
    let ws' := fold_left (add_word size) (concat (words <$> tokens)) ws in
    add_tokens size (join ws) tokens = join ws' /\ word_list size ws') as Hall.
  { clear Hwh. induction tokens as [|t tokens IH]; intros ws Hws Hwh; [done|]. cbv zeta. revert Hwh. csimpl.
    rewrite fold_left_app, whole_app. intros [Hwh1 Hwh2]%andb_true_iff.
    unfold add_tokens. cbn [fold_left]. pose proof Hws as (Hw1 & Hrest).
    rewrite str_add_unique_token_spec by (by rewrite ?admits_whole_plain). rewrite admit_words_plain. cbn [fst]. apply IH; [|done].
    apply fold_add_word_list; [done|apply words_are_words]. }
  destruct (Hall []) as [Heq Hl]; [split_and!; [done|apply NoDup_nil_2|by left]|done|]. simpl join in Heq.
  split; [done|]. split; [done|]. rewrite Heq, str_contains_token_spec by done.
  destruct Hl as [Hws _]. by rewrite words_join.
Qed.

Lemma token_buffer_is_ordered_set_witness :
  add_tokens 14 [] [$"OL CHRG"; $" CHRG  TRIM BOOST"; $"LB"] = $"OL CHRG TRIM"
  /\ str_contains_token (Some (add_tokens 14 [] [$"OL CHRG"; $" CHRG  TRIM BOOST"; $"LB"])) (Some ($"RIM")) = false.
Proof.
  destruct (token_buffer_is_ordered_set 14 [$"OL CHRG"; $" CHRG  TRIM BOOST"; $"LB"] ($"RIM")) as (Heq & _ & Hc).
  - apply (bool_decide_unpack _). vm_compute. exact I.
  - reflexivity.
  - split; [rewrite Heq; vm_compute; reflexivity|rewrite Hc; vm_compute; reflexivity].
Defined.

(** In 13 bytes the third word is stored as TRI. *)
Example cut_ex : add_tokens 13 [] [$"OL CHRG"; $"TRIM"] = $"OL CHRG TRI".
Proof. reflexivity. Qed.
