(* ===== verification/ConfFile.v ===== *)
(** * Reading a configuration file line by line

    The loop that user.c, desc.c and the other readers share:
    [while (pconf_file_next(&ctx)) { if (pconf_parse_error(&ctx)) continue; handle }].
    [body] is the handler of one line.  The loop has fuel; [conf_fuel] bounds the
    number of lines by the bytes left to read, and [conf_loop_enough] shows that
    it never runs out. *)

From S2P Require Import Prelude CStr ParseConf.
From stdpp Require Import options.

Section Loop.
Context {S : Type} (body : S -> list bytes -> S).

Fixpoint conf_loop (fuel : nat) (c : PCONF_CTX) (s : S) : option (S * PCONF_CTX) :=
  match fuel with
  | O => None
  | Datatypes.S fuel =>
      let '(r, c) := pconf_file_next c in
      if r =? 0 then Some (s, c)
      else
        let '(e, c) := pconf_parse_error c in
        if negb (e =? 0) then conf_loop fuel c s
        else conf_loop fuel c (body s (args c))
  end.
End Loop.

Definition conf_fuel (c : PCONF_CTX) : nat := length (default [] (p_f c)) + 2.

(** [pconf_init], [pconf_file_begin], the loop and [pconf_finish]; [None] when
    the file cannot be opened. *)
Definition conf_load {S} (fopen : bytes -> bytes + bytes) (fn : bytes)
    (body : S -> list bytes -> S) (s : S) : option S :=
  let '(ok, c) := pconf_file_begin fopen pconf_init fn in
  if ok =? 0 then None
  else fst <$> conf_loop body (conf_fuel c) c s.

(** ** Termination *)

Lemma addchar_f c : p_f (addchar c) = p_f c.
Proof.
  unfold addchar. case_match; [done|]. case_match; [done|].
  by destruct (if (_ <=? _)%nat then _ else _).
Qed.

Lemma add_arg_word_f c : p_f (add_arg_word c) = p_f c.
Proof. unfold add_arg_word. by destruct (if (_ <? _)%nat then _ else _) as [[??]?]. Qed.

Lemma endofword_f c : p_f (endofword c) = p_f c.
Proof. unfold endofword. case_match; [done|]. apply (add_arg_word_f c). Qed.

Lemma findwordstart_f c : p_f (findwordstart c).2 = p_f c.
Proof.
  unfold findwordstart. do 6 (case_match; [simpl; rewrite ?endofword_f, ?addchar_f; done|]).
  simpl. by rewrite addchar_f.
Qed.

Lemma parse_char_f c : p_f (parse_char c) = p_f c.
Proof.
  unfold parse_char, findeol, quotecollect, qc_literal, collect, collectliteral.
  destruct (p_state c); simpl; try apply findwordstart_f; repeat case_match; simpl;
    rewrite ?findwordstart_f, ?endofword_f, ?addchar_f; done.
Qed.

Lemma file_loop_consumes stream c :
  let r := file_loop c stream in
  if r.1 then (length (default [] (p_f r.2)) < length stream)%nat else p_f r.2 = Some [].
Proof.
  revert c. induction stream as [|x stream IH]; intros c; simpl; [done|].
  destruct (line_over _); simpl; [rewrite parse_char_f; simpl; lia|].
  specialize (IH (parse_char (with_ch (with_f c (Some stream)) (code x)))).
  destruct (file_loop _ stream) as [[] c2]; simpl in *; [lia|done].
Qed.

Lemma check_magic_f c : p_f (check_magic c).2 = p_f c.
Proof. unfold check_magic. by case_match. Qed.

Lemma pconf_parse_error_f c : p_f (pconf_parse_error c).2 = p_f c.
Proof.
  unfold pconf_parse_error. pose proof (check_magic_f c). destruct (check_magic c).
  by repeat case_match.
Qed.

(** A line that was read consumed a byte, or was cut short by the end of the
    file, after which no line is left. *)
Lemma file_next_consumes c :
  let r := pconf_file_next c in
  r.1 <> 0 ->
  (length (default [] (p_f r.2)) < length (default [] (p_f c)))%nat \/ p_f r.2 = Some [].
Proof.
  unfold pconf_file_next. pose proof (check_magic_f c) as Hm.
  destruct (check_magic c) as [ok c1]. simpl in Hm. case_match; simpl; [done|].
  rewrite <- Hm. clear Hm c.
  pose proof (file_loop_consumes (default [] (p_f c1)) (start_over (with_linenum c1 (p_linenum c1 + 1)))) as Hl.
  destruct (file_loop _ _) as [[] c3]; simpl in *; [auto|].
  case_match; simpl; [|done]. case_match; rewrite ?endofword_f; auto.
Qed.

Lemma file_next_eof c : p_f c = Some [] -> (pconf_file_next c).1 = 0.
Proof.
  intros Hf. unfold pconf_file_next. pose proof (check_magic_f c) as Hm.
  destruct (check_magic c) as [ok c1]. simpl in Hm. case_match; [done|].
  simpl. by rewrite Hm, Hf.
Qed.

Section Enough.
Context {S : Type} (body : S -> list bytes -> S).

Lemma conf_loop_step fuel c s :
  (pconf_file_next c).1 <> 0 ->
  exists s' c', p_f c' = p_f (pconf_file_next c).2
    /\ conf_loop body (Datatypes.S fuel) c s = conf_loop body fuel c' s'.
Proof.
  intros Hr. simpl. destruct (pconf_file_next c) as [r c1]. simpl in Hr |- *.
  rewrite (proj2 (Z.eqb_neq _ _) Hr). pose proof (pconf_parse_error_f c1) as Hf.
  destruct (pconf_parse_error c1) as [e c2]. simpl in Hf. case_match; eauto.
Qed.

Lemma conf_loop_enough c s : is_Some (conf_loop body (conf_fuel c) c s).
Proof.
  unfold conf_fuel. remember (length (default [] (p_f c))) as n eqn:Hn.
  revert c s Hn. induction n as [n IH] using lt_wf_ind; intros c s Hn.
  replace (n + 2)%nat with (Datatypes.S (Datatypes.S n)) by lia.
  destruct (decide ((pconf_file_next c).1 = 0)) as [Hr|Hr].
  { simpl. destruct (pconf_file_next c). simpl in Hr. subst. simpl. eauto. }
  destruct (conf_loop_step (Datatypes.S n) c s Hr) as (s' & c' & Hf & ->).
  destruct (file_next_consumes c Hr) as [Hlt|Heof]; rewrite <- Hf in *.
  - destruct n as [|n]; [lia|].
    assert (forall k m c s, conf_loop body k c s <> None -> (k <= m)%nat ->
      conf_loop body m c s = conf_loop body k c s) as Hmono.
    { clear. induction k as [|k IHk]; intros [|m] c s; simpl; try lia; try done.
      intros Hs ?. repeat case_match; try done; apply IHk; try done; lia. }
    destruct (IH (length (default [] (p_f c'))) ltac:(lia) c' s' eq_refl) as [x Hx].
    rewrite (Hmono (length (default [] (p_f c')) + 2)%nat); [by rewrite Hx|by rewrite Hx|lia].
  - apply file_next_eof in Heof. simpl. destruct (pconf_file_next c'). simpl in Heof.
    subst. simpl. eauto.
Qed.
End Enough.

(** ** Invariants of the handler of a line *)

Lemma conf_loop_inv {S} (P : S -> Prop) body fuel c s s' c' :
  (forall s a, P s -> P (body s a)) -> P s -> conf_loop body fuel c s = Some (s', c') -> P s'.
Proof.
  intros Hb. revert c s. induction fuel as [|fuel IH]; intros c s Hs; simpl; [done|].
  destruct (pconf_file_next c) as [r c1]. case_match; [by intros [= <- _]|].
  destruct (pconf_parse_error c1) as [e c2]. case_match; apply IH; auto.
Qed.

Lemma conf_load_inv {S} (P : S -> Prop) fopen fn body s s' :
  (forall s a, P s -> P (body s a)) -> P s -> conf_load fopen fn body s = Some s' -> P s'.
Proof.
  intros Hb Hs. unfold conf_load. destruct (pconf_file_begin _ _ _) as [ok c].
  case_match; [done|]. destruct (conf_loop _ _ _ _) as [[s1 c1]|] eqn:El; [|done].
  intros [= <-]. by eapply (conf_loop_inv P).
Qed.

(** ** The lines of a file

    What a handler makes of a file is what it makes of its lines, one after the other; lines that parseconf
    rejects are not among them. *)

Definition conf_lines (text : bytes) : list (list bytes) :=
  default [] (conf_load (fun _ => inl text) [] (fun l a => l ++ [a]) []).

Lemma conf_loop_fold {S} (body : S -> list bytes -> S) fuel c (l0 : list (list bytes)) s :
  match conf_loop (fun l a => l ++ [a]) fuel c l0 with
  | Some (l, c') => exists l1, l = l0 ++ l1 /\ conf_loop body fuel c s = Some (fold_left body l1 s, c')
  | None => conf_loop body fuel c s = None
  end.
Proof.
  revert c l0 s. induction fuel as [|fuel IH]; intros c l0 s; simpl; [done|].
  destruct (pconf_file_next c) as [r c1]. destruct (r =? 0); [by exists []; rewrite app_nil_r|].
  destruct (pconf_parse_error c1) as [e c2]. destruct (negb (e =? 0)); [apply IH|].
  specialize (IH c2 (l0 ++ [args c2]) (body s (args c2))).
  destruct (conf_loop (fun l a => l ++ [a]) fuel c2 _) as [[l c']|]; [|done].
  destruct IH as (l1 & -> & ->). exists (args c2 :: l1). by rewrite <- app_assoc.
Qed.

Lemma conf_load_lines {S} (body : S -> list bytes -> S) text s :
  conf_load (fun _ => inl text) [] body s = Some (fold_left body (conf_lines text) s).
Proof.
  unfold conf_lines, conf_load. destruct (pconf_file_begin _ _ _) as [ok c] eqn:Eb.
  assert (ok <> 0) as Hok by (unfold pconf_file_begin in Eb; vm_compute in Eb; by injection Eb as <- _).
  apply Z.eqb_neq in Hok. rewrite Hok. destruct (conf_loop_enough body c s) as [[s1 c1] E1].
  pose proof (conf_loop_fold body (conf_fuel c) c [] s) as H.
  destruct (conf_loop (fun l a => l ++ [a]) (conf_fuel c) c []) as [[l c']|]; [|congruence].
  destruct H as (l1 & -> & E). rewrite E. done.
Qed.
