(* ===== verification/Users.v ===== *)
(** * server/user.c: the users of upsd.users and what they may do

    [users] is the linked list in file order, [curr_user] the entry the settings
    that follow belong to (a position in the list, the pointer of the code).
    Warnings go to the log and are not modelled. *)

From S2P Require Import Prelude CStr ParseConf ConfFile.
From stdpp Require Import options.

Record ulist_t := mkUser {
  username : bytes;
  password : option bytes;
  firstcmd : list bytes;
  firstaction : list bytes
}.

Record user_state := mkUsers { users : list ulist_t; curr_user : option nat }.

(** An assignment to members of the current entry. *)
Definition upd_curr (st : user_state) (f : ulist_t -> ulist_t) : user_state :=
  match curr_user st with
  | Some i => mkUsers (alter f i (users st)) (Some i)
  | None => st
  end.

Definition user_add (st : user_state) (un : bytes) : user_state :=
  if existsb (fun tmp => streq (username tmp) un) (users st) then st
  else mkUsers (users st ++ [mkUser un None [] []]) (Some (length (users st))).

Definition user_password (st : user_state) (pw : bytes) : user_state :=
  upd_curr st (fun u =>
    match password u with
    | Some _ => u
    | None => mkUser (username u) (Some pw) (firstcmd u) (firstaction u)
    end).

Definition user_add_instcmd (st : user_state) (cmd : bytes) : user_state :=
  upd_curr st (fun u =>
    if existsb (fun c => strcaseeq c cmd) (firstcmd u) then u
    else mkUser (username u) (password u) (firstcmd u ++ [cmd]) (firstaction u)).

Definition addaction (base : list bytes) (action : bytes) : list bytes := base ++ [action].

Definition user_add_action (st : user_state) (act : bytes) : user_state :=
  upd_curr st (fun u =>
    mkUser (username u) (password u) (firstcmd u) (addaction (firstaction u) act)).

(** What is freed, in order: the last user first, and of each its commands,
    its actions and its own strings. *)
Fixpoint flushcmd (l : list bytes) : list bytes :=
  match l with [] => [] | c :: l' => flushcmd l' ++ [c] end.

Fixpoint flushaction (l : list bytes) : list bytes :=
  match l with [] => [] | a :: l' => flushaction l' ++ [a] end.

Fixpoint flushuser (l : list ulist_t) : list bytes :=
  match l with
  | [] => []
  | u :: l' =>
      flushuser l' ++ flushcmd (firstcmd u) ++ flushaction (firstaction u)
      ++ username u :: option_list (password u)
  end.

(** [curr_user] is left alone. *)
Definition user_flush (st : user_state) : user_state := mkUsers [] (curr_user st).

(** ** Checking *)

Fixpoint user_matchinstcmd (l : list bytes) (cmd : bytes) : bool :=
  match l with
  | [] => false
  | c :: l' =>
      if strcaseeq c cmd then true
      else if strcaseeq c ($"all") then true
      else user_matchinstcmd l' cmd
  end.

Fixpoint user_matchaction (l : list bytes) (action : bytes) : bool :=
  match l with
  | [] => false
  | a :: l' => if strcaseeq a action then true else user_matchaction l' action
  end.

(** The loop both checks share in the code, written out in each. *)
Fixpoint checkinstcmd_loop (l : list ulist_t) (un pw cmd : bytes) : Z :=
  match l with
  | [] => 0
  | tmp :: l' =>
      match password tmp with
      | None => checkinstcmd_loop l' un pw cmd
      | Some tpw =>
          if negb (streq (username tmp) un) then checkinstcmd_loop l' un pw cmd
          else if negb (streq tpw pw) then 0
          else if negb (user_matchinstcmd (firstcmd tmp) cmd) then 0
          else 1
      end
  end.

Definition user_checkinstcmd (st : user_state) (un pw : option bytes) (cmd : bytes) : Z :=
  match un, pw with
  | Some un, Some pw => checkinstcmd_loop (users st) un pw cmd
  | _, _ => 0
  end.

Fixpoint checkaction_loop (l : list ulist_t) (un pw action : bytes) : Z :=
  match l with
  | [] => 0
  | tmp :: l' =>
      match password tmp with
      | None => checkaction_loop l' un pw action
      | Some tpw =>
          if negb (streq (username tmp) un) then checkaction_loop l' un pw action
          else if negb (streq tpw pw) then 0
          else if negb (user_matchaction (firstaction tmp) action) then 0
          else 1
      end
  end.

Definition user_checkaction (st : user_state) (un pw : option bytes) (action : bytes) : Z :=
  match un, pw with
  | Some un, Some pw => checkaction_loop (users st) un pw action
  | _, _ => 0
  end.

(** ** Parsing *)

Definition set_upsmon_type (st : user_state) (type : bytes) : user_state :=
  if strcaseeq type ($"master") || strcaseeq type ($"primary") then
    user_add_action (user_add_action (user_add_action st ($"login")) ($"master")) ($"fsd")
  else if strcaseeq type ($"slave") || strcaseeq type ($"secondary") then
    user_add_action st ($"login")
  else st.

Definition parse_var (st : user_state) (var val : bytes) : user_state :=
  if strcaseeq var ($"password") then user_password st val
  else if strcaseeq var ($"instcmds") then user_add_instcmd st val
  else if strcaseeq var ($"actions") then user_add_action st val
  else if strcaseeq var ($"allowfrom") then st
  else if strcaseeq var ($"upsmon") then set_upsmon_type st val
  else st.

(** [rest] is [arg[next .. next+left-1]]. *)
Definition parse_rest (st : user_state) (var fval : bytes) (rest : list bytes) : user_state :=
  match curr_user st with
  | None => st
  | Some _ => fold_left (fun st v => parse_var st var v) rest (parse_var st var fval)
  end.

Definition user_parse_arg (st : user_state) (arg : list bytes) : user_state :=
  match arg with
  | [] => st
  | a0 :: arg1 =>
      if strcaseeq a0 ($"user") then st
      else match index_of a0 "="%char with
      | Some ep => parse_rest st (take ep a0) (drop (S ep) a0) arg1
      | None =>
          if bool_decide (head a0 = Some "["%char) && bool_decide (last a0 = Some "]"%char)
          then user_add st (drop 1 (take (length a0 - 1) a0))
          else match arg1 with
          | [] => st
          | a1 :: arg2 =>
              let st := if strcaseeq a0 ($"upsmon") then set_upsmon_type st a1 else st in
              match arg2 with
              | [] => st
              | a2 :: arg3 =>
                  if streq a1 ($"=") then parse_rest st a0 a2 arg3 else st
              end
          end
      end
  end.

(** [fopen] opens upsd.users of the configuration directory [confpath]. *)
Definition user_load (fopen : bytes -> bytes + bytes) (confpath : bytes) (st : user_state)
    : user_state :=
  let st0 := mkUsers (users st) None in
  default st0 (conf_load fopen (snprintf_s 512 (confpath ++ $"/upsd.users")) user_parse_arg st0).

Example user_ex :
  let text := $"[admin]
  password = secret
  actions = SET FSD
  instcmds = ALL
[mon]
  password = x
  upsmon secondary
" in
  let st := user_load (fun _ => inl text) ($"/etc/nut") (mkUsers [] None) in
  (user_checkaction st (Some ($"admin")) (Some ($"secret")) ($"set"),
   user_checkaction st (Some ($"mon")) (Some ($"x")) ($"FSD"),
   user_checkaction st (Some ($"mon")) (Some ($"x")) ($"LOGIN"),
   user_checkinstcmd st (Some ($"admin")) (Some ($"secret")) ($"load.off")) = (1, 0, 1, 1).
Proof. vm_compute. reflexivity. Qed.
