(* ===== verification/UsersFacts.v ===== *)
(** * Properties of the users file and of the permission checks *)

From S2P Require Import Prelude CStr ParseConf ConfFile Users.
From stdpp Require Import options.

(** ** The two checks as one search *)

Fixpoint check_loop (m : ulist_t -> bool) (l : list ulist_t) (un pw : bytes) : Z :=
  match l with
  | [] => 0
  | tmp :: l' =>
      match password tmp with
      | None => check_loop m l' un pw
      | Some tpw =>
          if negb (streq (username tmp) un) then check_loop m l' un pw
          else if negb (streq tpw pw) then 0
          else if negb (m tmp) then 0 else 1
      end
  end.

Lemma checkaction_loop_eq l un pw act :
  checkaction_loop l un pw act = check_loop (fun u => user_matchaction (firstaction u) act) l un pw.
Proof. induction l as [|u l IH]; [done|]. simpl. by rewrite IH. Qed.

Lemma checkinstcmd_loop_eq l un pw cmd :
  checkinstcmd_loop l un pw cmd = check_loop (fun u => user_matchinstcmd (firstcmd u) cmd) l un pw.
Proof. induction l as [|u l IH]; [done|]. simpl. by rewrite IH. Qed.

Lemma matchaction_spec l act :
  user_matchaction l act = true <-> exists a, a ∈ l /\ lower a = lower act.
Proof.
  induction l as [|a l IH]; simpl; [set_solver|].
  destruct (strcaseeq a act) eqn:E.
  - apply strcaseeq_true in E. split; [|done]. intros _. exists a. by split; [left|].
  - rewrite IH. assert (lower a <> lower act) by (rewrite <- strcaseeq_true; congruence).
    set_solver.
Qed.

Lemma matchinstcmd_spec l cmd :
  user_matchinstcmd l cmd = true
  <-> exists c, c ∈ l /\ (lower c = lower cmd \/ lower c = lower ($"all")).
Proof.
  induction l as [|c l IH]; cbn [user_matchinstcmd]; [set_solver|].
  destruct (strcaseeq c cmd) eqn:E; [|destruct (strcaseeq c ($"all")) eqn:E2].
  - apply strcaseeq_true in E. split; [|done]. intros _. exists c. by split; [left|left].
  - apply strcaseeq_true in E2. split; [|done]. intros _. exists c. by split; [left|right].
  - rewrite IH. assert (lower c <> lower cmd) by (rewrite <- strcaseeq_true; congruence).
    assert (lower c <> lower ($"all")) by (rewrite <- strcaseeq_true; congruence).
    setoid_rewrite elem_of_cons. naive_solver.
Qed.

Lemma elem_cons_ex {A} (P : A -> Prop) x l :
  (exists y, y ∈ x :: l /\ P y) <-> P x \/ exists y, y ∈ l /\ P y.
Proof.
  split.
  - intros (y & [->|Hy]%elem_of_cons & HP); eauto.
  - intros [HP|(y & Hy & HP)]; [exists x|exists y]; rewrite elem_of_cons; auto.
Qed.

(** With unique names the first entry that matches is the only one. *)
Lemma check_loop_spec m l un pw :
  NoDup (username <$> l) ->
  (check_loop m l un pw = 1
   <-> exists u, u ∈ l /\ username u = un /\ password u = Some pw /\ m u = true)
  /\ (check_loop m l un pw = 0 \/ check_loop m l un pw = 1).
Proof.
  induction l as [|u l IH]; intros Hnd.
  { split; [|by left]. split; [done|]. intros (u & Hu & _). by apply elem_of_nil in Hu. }
  rewrite elem_cons_ex. simpl.
  apply NoDup_cons in Hnd as [Hni Hnd]. destruct (IH Hnd) as [IH1 IH2].
  destruct (password u) as [tpw|] eqn:Ep; [|split; [rewrite IH1; naive_solver|done]].
  destruct (streq (username u) un) eqn:Eu; simpl.
  2: { split; [|done]. rewrite IH1. assert (username u <> un) by (rewrite <- streq_true; congruence).
       naive_solver. }
  apply streq_true in Eu. assert (~ exists v, v ∈ l /\ username v = un /\ password v = Some pw /\ m v = true).
  { intros (v & Hv & Heq & _). apply Hni. rewrite Eu, <- Heq. by apply list_elem_of_fmap_2. }
  split; [|destruct (streq tpw pw), (m u); simpl; auto].
  destruct (streq tpw pw) eqn:Etp; simpl.
  - apply streq_true in Etp as ->. destruct (m u) eqn:Em; simpl; naive_solver.
  - assert (tpw <> pw) by (rewrite <- streq_true; congruence). naive_solver.
Qed.

(** ** The invariant of the table *)

Definition users_wf (st : user_state) : Prop :=
  NoDup (username <$> users st)
  /\ forall i, curr_user st = Some i -> (i < length (users st))%nat.

Lemma alter_usernames f i (l : list ulist_t) :
  (forall u, username (f u) = username u) -> username <$> alter f i l = username <$> l.
Proof.
  intros Hf. revert i. induction l as [|u l IH]; intros [|i]; csimpl; try done.
  - by rewrite Hf.
  - f_equal. apply IH.
Qed.

Lemma upd_curr_wf st f :
  (forall u, username (f u) = username u) -> users_wf st -> users_wf (upd_curr st f).
Proof.
  intros Hf [Hnd Hc]. unfold upd_curr. destruct (curr_user st) as [i|] eqn:Ei; [|by split; rewrite ?Ei].
  split; simpl.
  - by rewrite alter_usernames.
  - intros j [= <-]. rewrite length_alter. by apply Hc.
Qed.

Lemma add_user_wf st un : users_wf st -> users_wf (user_add st un).
Proof.
  intros [Hnd Hc]. unfold user_add. destruct (existsb _ _) eqn:E; [by split|]. split; simpl.
  - rewrite fmap_app. apply NoDup_app. split; [done|]. split; [|apply NoDup_singleton].
    intros x Hx Hx'. simpl in Hx'. apply list_elem_of_singleton in Hx' as ->.
    apply list_elem_of_fmap in Hx as (u & -> & Hu). apply not_true_iff_false in E. apply E.
    apply existsb_exists. exists u. split; [by apply list_elem_of_In|]. apply streq_refl.
  - intros i [= <-]. rewrite length_app. simpl. lia.
Qed.

Lemma user_password_wf st pw : users_wf st -> users_wf (user_password st pw).
Proof. apply upd_curr_wf. intros u. by destruct (password u). Qed.
Lemma user_add_instcmd_wf st c : users_wf st -> users_wf (user_add_instcmd st c).
Proof. apply upd_curr_wf. intros u. by destruct (existsb _ _). Qed.
Lemma user_add_action_wf st a : users_wf st -> users_wf (user_add_action st a).
Proof. by apply upd_curr_wf. Qed.
#[export] Hint Resolve add_user_wf user_password_wf user_add_instcmd_wf user_add_action_wf : nut.

Lemma set_upsmon_type_wf st t : users_wf st -> users_wf (set_upsmon_type st t).
Proof. intros. unfold set_upsmon_type. repeat case_match; auto with nut. Qed.
#[export] Hint Resolve set_upsmon_type_wf : nut.

Lemma parse_var_wf st var val : users_wf st -> users_wf (parse_var st var val).
Proof. intros. unfold parse_var. repeat case_match; auto with nut. Qed.
#[export] Hint Resolve parse_var_wf : nut.

Lemma parse_rest_wf st var fval rest : users_wf st -> users_wf (parse_rest st var fval rest).
Proof.
  intros H. unfold parse_rest. case_match; [|done].
  assert (users_wf (parse_var st var fval)) as H1 by auto with nut. revert H1.
  generalize (parse_var st var fval). induction rest; simpl; auto with nut.
Qed.
#[export] Hint Resolve parse_rest_wf : nut.

Lemma user_parse_arg_wf st arg : users_wf st -> users_wf (user_parse_arg st arg).
Proof. intros. unfold user_parse_arg. repeat case_match; auto with nut. Qed.

(** Reloading: [user_flush], then [user_load]. *)
Lemma user_load_wf fopen dir st : users_wf (user_load fopen dir (user_flush st)).
Proof.
  unfold user_load. set (st0 := mkUsers _ _).
  assert (users_wf st0) as H0 by (split; simpl; [constructor|done]).
  destruct (conf_load _ _ _ _) as [s'|] eqn:E; [|done]. simpl.
  by eapply (conf_load_inv users_wf); [apply user_parse_arg_wf|exact H0|].
Qed.

(** ** The theorems *)

Lemma check_iff (P : ulist_t -> Prop) (l : list ulist_t) un pw :
  (exists u, u ∈ l /\ username u = un /\ password u = Some pw /\ P u)
  <-> exists u p, u ∈ l /\ Some un = Some (username u) /\ password u = Some p /\ Some pw = Some p /\ P u.
Proof.
  split.
  - intros (u & Hu & <- & Hp & HP). eauto 10.
  - intros (u & p & Hu & [= ->] & Hp & [= ->] & HP). eauto 10.
Qed.

Lemma check_none (P : ulist_t -> Prop) (l : list ulist_t) (un pw : option bytes) :
  un = None \/ pw = None ->
  (0 = 1 <-> exists u p, u ∈ l /\ un = Some (username u) /\ password u = Some p /\ pw = Some p /\ P u)
  /\ (0 = 0 \/ 0 = 1).
Proof.
  intros Hn. split; [|by left]. split; [done|].
  intros (u & p & _ & -> & _ & -> & _). by destruct Hn.
Qed.

(** C27. A check grants an action exactly when the file gave it: after any
    upsd.users file has been loaded, [user_checkaction] is 1 if and only if the
    client named a configured user, supplied that user's password (a user without one
    is never accepted) and the action is among that user's, up to case; otherwise it
    is 0.  A client that has not sent both a name and a password gets 0. *)
Theorem user_checkaction_correct fopen dir st0 un pw act :
  let st := user_load fopen dir (user_flush st0) in
  (user_checkaction st un pw act = 1
   <-> exists u p, u ∈ users st /\ un = Some (username u) /\ password u = Some p /\ pw = Some p
         /\ exists a, a ∈ firstaction u /\ lower a = lower act)
  /\ (user_checkaction st un pw act = 0 \/ user_checkaction st un pw act = 1).
Proof.
  intros st. destruct (user_load_wf fopen dir st0) as [Hnd _]. fold st in Hnd.
  unfold user_checkaction. destruct un as [un|]; [|by apply check_none; left].
  destruct pw as [pw|]; [|by apply check_none; right]. rewrite checkaction_loop_eq.
  destruct (check_loop_spec (fun u => user_matchaction (firstaction u) act) _ un pw Hnd) as [H1 H2].
  split; [|exact H2]. rewrite H1, check_iff. by setoid_rewrite matchaction_spec.
Qed.

(** The same for instant commands: [user_checkinstcmd] is 1 exactly for the
    configured user with the right password whose list names the command, up to case, or
    holds the word ALL. *)
Theorem user_checkinstcmd_correct fopen dir st0 un pw cmd :
  let st := user_load fopen dir (user_flush st0) in
  (user_checkinstcmd st un pw cmd = 1
   <-> exists u p, u ∈ users st /\ un = Some (username u) /\ password u = Some p /\ pw = Some p
         /\ exists c, c ∈ firstcmd u /\ (lower c = lower cmd \/ lower c = lower ($"all")))
  /\ (user_checkinstcmd st un pw cmd = 0 \/ user_checkinstcmd st un pw cmd = 1).
Proof.
  intros st. destruct (user_load_wf fopen dir st0) as [Hnd _]. fold st in Hnd.
  unfold user_checkinstcmd. destruct un as [un|]; [|by apply check_none; left].
  destruct pw as [pw|]; [|by apply check_none; right]. rewrite checkinstcmd_loop_eq.
  destruct (check_loop_spec (fun u => user_matchinstcmd (firstcmd u) cmd) _ un pw Hnd) as [H1 H2].
  split; [|exact H2]. rewrite H1, check_iff. by setoid_rewrite matchinstcmd_spec.
Qed.

(** ** A file of sections gives each user the settings of its own section *)

(** The settings of a section in the split form, and "upsmon <type>". *)
Inductive setting :=
| SetPassword (p : bytes)
| SetActions (a : bytes) (more : list bytes)
| SetInstcmds (c : bytes) (more : list bytes)
| SetPrimary
| SetSecondary.

Definition setting_line (s : setting) : list bytes :=
  match s with
  | SetPassword p => [$"password"; $"="; p]
  | SetActions a more => $"actions" :: $"=" :: a :: more
  | SetInstcmds c more => $"instcmds" :: $"=" :: c :: more
  | SetPrimary => [$"upsmon"; $"primary"]
  | SetSecondary => [$"upsmon"; $"secondary"]
  end.

Definition add_instcmd (u : ulist_t) (c : bytes) : ulist_t :=
  if existsb (fun d => strcaseeq d c) (firstcmd u) then u
  else mkUser (username u) (password u) (firstcmd u ++ [c]) (firstaction u).

Definition add_actions (u : ulist_t) (l : list bytes) : ulist_t :=
  mkUser (username u) (password u) (firstcmd u) (firstaction u ++ l).

(** What a setting means for the user it is about. *)
Definition apply_setting (u : ulist_t) (s : setting) : ulist_t :=
  match s with
  | SetPassword p =>
      match password u with
      | Some _ => u
      | None => mkUser (username u) (Some p) (firstcmd u) (firstaction u)
      end
  | SetActions a more => add_actions u (a :: more)
  | SetInstcmds c more => fold_left add_instcmd (c :: more) u
  | SetPrimary => add_actions u [$"login"; $"master"; $"fsd"]
  | SetSecondary => add_actions u [$"login"]
  end.

Definition section_header (un : bytes) : list bytes := [$"[" ++ un ++ $"]"].

Definition section_lines (s : bytes * list setting) : list (list bytes) :=
  section_header s.1 :: map setting_line s.2.

Definition section_user (s : bytes * list setting) : ulist_t :=
  fold_left apply_setting s.2 (mkUser s.1 None [] []).

Lemma header_line st un :
  index_of un "="%char = None ->
  user_parse_arg st (section_header un) = user_add st un.
Proof.
  intros Hne. unfold section_header, user_parse_arg.
  assert (strcaseeq ($"[" ++ un ++ $"]") ($"user") = false) as ->.
  { apply not_true_iff_false. rewrite strcaseeq_true. by intros [=]. }
  assert (index_of ($"[" ++ un ++ $"]") "="%char = None) as ->.
  { simpl. clear -Hne. assert (index_of (un ++ [("]")%char]) "="%char = None) as ->; [|done].
    induction un as [|c un IH]; [done|]. simpl in *. destruct (Ascii.eqb c "="); [done|].
    destruct (index_of un "="); [done|]. by rewrite IH. }
  rewrite bool_decide_eq_true_2 by done.
  rewrite bool_decide_eq_true_2 by (rewrite app_assoc; apply last_snoc).
  simpl andb. cbv iota. f_equal. simpl. rewrite length_app. simpl.
  replace (length un + 1 - 0)%nat with (S (length un)) by lia. simpl.
  rewrite take_app_le by lia. apply take_ge. lia.
Qed.

Lemma upd_curr_last f l u :
  upd_curr (mkUsers (l ++ [u]) (Some (length l))) f = mkUsers (l ++ [f u]) (Some (length l)).
Proof. unfold upd_curr. simpl. by rewrite alter_app_r_alt, Nat.sub_diag by lia. Qed.

Lemma upd_curr_ext st f g : (forall u, f u = g u) -> upd_curr st f = upd_curr st g.
Proof.
  intros Hfg. unfold upd_curr. destruct (curr_user st); [|done]. f_equal.
  by apply list_alter_ext.
Qed.

Lemma upd_curr_id st : upd_curr st (fun u => u) = st.
Proof. unfold upd_curr. destruct st as [us [i|]]; simpl; [|done]. by rewrite list_alter_id. Qed.

Lemma upd_curr_compose st f g : upd_curr (upd_curr st f) g = upd_curr st (fun u => g (f u)).
Proof.
  unfold upd_curr. destruct st as [us [i|]]; simpl; [|done]. by rewrite list_alter_alter_eq.
Qed.

Lemma fold_upd {A} (g : user_state -> A -> user_state) (f : ulist_t -> A -> ulist_t) l st :
  (forall st a, g st a = upd_curr st (fun u => f u a)) ->
  fold_left g l st = upd_curr st (fun u => fold_left f l u).
Proof.
  intros Hg. revert st. induction l as [|a l IH]; intros st; simpl; [by rewrite upd_curr_id|].
  by rewrite IH, Hg, upd_curr_compose.
Qed.

Lemma add_actions_fold l u : fold_left (fun u a => add_actions u [a]) l u = add_actions u l.
Proof.
  revert u. induction l as [|a l IH]; intros u; simpl.
  - unfold add_actions. rewrite app_nil_r. by destruct u.
  - rewrite IH. unfold add_actions. simpl. by rewrite <- app_assoc.
Qed.

(** A line of settings applies to the entry [curr_user] points to. *)
Lemma setting_upd st s :
  is_Some (curr_user st) ->
  user_parse_arg st (setting_line s) = upd_curr st (fun u => apply_setting u s).
Proof.
  intros [i Hi]. destruct st as [us cu]. simpl in Hi. subst cu.
  destruct s as [p|a more|c more| |].
  - done.
  - set (st := mkUsers us (Some i)).
    change (fold_left (fun st v => parse_var st ($"actions") v) more
      (upd_curr st (fun u => add_actions u [a])) = upd_curr st (fun u => add_actions u (a :: more))).
    rewrite (fold_upd _ (fun u a => add_actions u [a])) by done. rewrite upd_curr_compose.
    apply upd_curr_ext. intros u. apply (add_actions_fold (a :: more)).
  - set (st := mkUsers us (Some i)).
    change (fold_left (fun st v => parse_var st ($"instcmds") v) more
      (upd_curr st (fun u => add_instcmd u c))
      = upd_curr st (fun u => fold_left add_instcmd more (add_instcmd u c))).
    rewrite (fold_upd _ add_instcmd) by done. by rewrite upd_curr_compose.
  - set (st := mkUsers us (Some i)).
    change (user_parse_arg st _)
      with (upd_curr (upd_curr (upd_curr st (fun u => add_actions u [$"login"]))
              (fun u => add_actions u [$"master"])) (fun u => add_actions u [$"fsd"])).
    rewrite !upd_curr_compose. apply upd_curr_ext. intros u.
    unfold apply_setting, add_actions. simpl. by rewrite <- !app_assoc.
  - done.
Qed.

Definition run_lines (st : user_state) (ls : list (list bytes)) : user_state :=
  fold_left user_parse_arg ls st.

Lemma settings_run l u ss :
  run_lines (mkUsers (l ++ [u]) (Some (length l))) (map setting_line ss)
  = mkUsers (l ++ [fold_left apply_setting ss u]) (Some (length l)).
Proof.
  revert u. induction ss as [|s ss IH]; intros u; [done|]. unfold run_lines in *. simpl.
  rewrite setting_upd, upd_curr_last by (simpl; eauto). apply IH.
Qed.

Lemma user_add_new st un :
  un ∉ (username <$> users st) ->
  user_add st un = mkUsers (users st ++ [mkUser un None [] []]) (Some (length (users st))).
Proof.
  intros Hn. unfold user_add. destruct (existsb _ _) eqn:E; [|done]. exfalso. apply Hn.
  apply existsb_exists in E as (u & Hu & E). apply streq_true in E as <-.
  apply list_elem_of_fmap_2. by apply list_elem_of_In.
Qed.

Lemma section_user_name s : username (section_user s) = s.1.
Proof.
  unfold section_user. assert (forall u, username (fold_left apply_setting s.2 u) = username u) as ->; [|done].
  assert (forall u x, username (apply_setting u x) = username u) as Hone.
  { intros u [p|a more|c more| |]; simpl; try done; [by destruct (password u)|].
    assert (forall u d, username (add_instcmd u d) = username u) as H
      by (intros ? ?; unfold add_instcmd; by case_match).
    rewrite <- (H u c). generalize (add_instcmd u c). induction more as [|d more IH]; intros v; [done|].
    simpl. by rewrite IH, H. }
  induction s.2 as [|x xs IH]; intros u; [done|]. simpl. by rewrite IH, Hone.
Qed.

(** What upsd.users means: a file of sections with distinct names (none holding an
    equals sign), whose lines are "password = p", "actions = a ...", "instcmds = c ...", "upsmon primary" or
    "upsmon secondary", gives exactly one user per section, in order, with exactly the
    settings of its own section: the first password wins, actions accumulate, a
    command is recorded once, "primary" grants login, master and fsd, "secondary" grants login. *)
Theorem users_file_sections secs :
  NoDup secs.*1 -> Forall (fun s => index_of s.1 "="%char = None) secs ->
  users (run_lines (mkUsers [] None) (flat_map section_lines secs)) = section_user <$> secs.
Proof.
  intros Hnd Hne.
  assert (forall l c, NoDup (l.*1 ++ secs.*1) ->
    users (run_lines (mkUsers (section_user <$> l) c) (flat_map section_lines secs))
    = section_user <$> (l ++ secs)) as Hgen; [|by apply (Hgen [])].
  clear Hnd. induction secs as [|s secs IH]; intros l c Hnd.
  { by rewrite app_nil_r. }
  apply Forall_cons in Hne as [Hs Hne]. unfold run_lines.
  change (flat_map section_lines (s :: secs))
    with (section_header s.1 :: (map setting_line s.2 ++ flat_map section_lines secs)).
  cbn [fold_left]. rewrite header_line by done.
  assert (username <$> (section_user <$> l) = l.*1) as Hnames.
  { rewrite <- list_fmap_compose. apply list_fmap_ext. intros _ x _. apply section_user_name. }
  rewrite user_add_new.
  2: { simpl. rewrite Hnames. simpl in Hnd. apply NoDup_app in Hnd as (_ & Hd & _).
       intros Hin. apply (Hd _ Hin). left. }
  rewrite fold_left_app.
  pose proof (settings_run (section_user <$> l) (mkUser s.1 None [] []) s.2) as Hrun.
  unfold run_lines in Hrun, IH |- *. simpl users. rewrite Hrun. fold (section_user s).
  replace ((section_user <$> l) ++ [section_user s]) with (section_user <$> (l ++ [s]))
    by (by rewrite fmap_app).
  rewrite IH; [by rewrite <- app_assoc|done|]. rewrite fmap_app, <- app_assoc. done.
Qed.

Lemma users_file_sections_witness :
  users (run_lines (mkUsers [] None) (flat_map section_lines
    [($"admin", [SetPassword ($"x"); SetActions ($"SET") [$"FSD"]]); ($"mon", [SetSecondary])]))
  = [mkUser ($"admin") (Some ($"x")) [] [$"SET"; $"FSD"]; mkUser ($"mon") None [] [$"login"]].
Proof.
  apply users_file_sections; apply (bool_decide_unpack _); vm_compute; exact I.
Defined.

(** A section whose name was used before is announced as ignored, but only its header is:
    [curr_user] still points to the user of the section before it, and the
    actions that follow are granted to that user. *)
Theorem duplicate_section_grants_previous_user st un i act more :
  curr_user st = Some i -> un ∈ (username <$> users st) -> index_of un "="%char = None ->
  run_lines st [section_header un; setting_line (SetActions act more)]
  = mkUsers (alter (fun u => add_actions u (act :: more)) i (users st)) (Some i).
Proof.
  intros Hc Hin Hne. unfold run_lines. cbn [fold_left]. rewrite header_line by done.
  assert (user_add st un = st) as ->.
  { unfold user_add. assert (existsb (fun tmp => streq (username tmp) un) (users st) = true) as ->; [|done].
    apply existsb_exists. apply list_elem_of_fmap in Hin as (u & -> & Hu). exists u.
    split; [by apply list_elem_of_In|apply streq_refl]. }
  rewrite setting_upd by (rewrite Hc; eauto). unfold upd_curr. by rewrite Hc.
Qed.

Lemma duplicate_section_grants_previous_user_witness :
  let st := run_lines (mkUsers [] None) (flat_map section_lines
    [($"admin", [SetPassword ($"x")]); ($"guest", [SetPassword ($"g")])]) in
  user_checkaction (run_lines st [section_header ($"admin"); setting_line (SetActions ($"SET") [])])
    (Some ($"guest")) (Some ($"g")) ($"SET") = 1.
Proof.
  intros st. erewrite (duplicate_section_grants_previous_user st ($"admin") 1);
    [reflexivity|reflexivity| |reflexivity].
  apply (bool_decide_unpack _). vm_compute. exact I.
Defined.
