(* ===== verification/Desc.v ===== *)
(** * server/desc.c: descriptions of variables and commands

    Two association lists filled from the file cmdvartab; the newest name is at
    the head. *)

From S2P Require Import Prelude CStr ParseConf ConfFile.
From stdpp Require Import options.

(** A [dlist_t]: the name and the description of each node. *)
Abbreviation dlist := (list (bytes * bytes)).

Record desc_state := mkDesc { cmd_list : dlist; var_list : dlist }.

(** The nodes in the order in which they are freed. *)
Fixpoint list_free (ptr : dlist) : dlist :=
  match ptr with [] => [] | d :: next => d :: list_free next end.

Fixpoint list_get (list : dlist) (name : bytes) : option bytes :=
  match list with
  | [] => None
  | (n, d) :: next => if strcaseeq n name then Some d else list_get next name
  end.

(** Overwriting the description of the first node of that name, when there is one. *)
Fixpoint desc_replace (list : dlist) (name desc : bytes) : option dlist :=
  match list with
  | [] => None
  | (n, d) :: next =>
      if strcaseeq n name then Some ((n, desc) :: next)
      else cons (n, d) <$> desc_replace next name desc
  end.

Definition desc_add (list : dlist) (name desc : bytes) : dlist :=
  match desc_replace list name desc with
  | Some l => l
  | None => (name, desc) :: list
  end.

(** One line of cmdvartab. *)
Definition desc_line (st : desc_state) (arg : list bytes) : desc_state :=
  match arg with
  | a0 :: a1 :: a2 :: _ =>
      if streq a0 ($"CMDDESC") then mkDesc (desc_add (cmd_list st) a1 a2) (var_list st)
      else if streq a0 ($"VARDESC") then mkDesc (cmd_list st) (desc_add (var_list st) a1 a2)
      else st
  | _ => st
  end.

Definition desc_load (fopen : bytes -> bytes + bytes) (datapath : bytes) (st : desc_state)
    : desc_state :=
  default st (conf_load fopen (snprintf_s 512 (datapath ++ $"/cmdvartab")) desc_line st).

Definition desc_free (st : desc_state) : desc_state := mkDesc [] [].

Definition desc_get_cmd (st : desc_state) (name : bytes) : option bytes := list_get (cmd_list st) name.
Definition desc_get_var (st : desc_state) (name : bytes) : option bytes := list_get (var_list st) name.

(** ** Properties *)

Lemma desc_replace_get l name desc l' w :
  desc_replace l name desc = Some l' ->
  list_get l' w = if strcaseeq name w then Some desc else list_get l w.
Proof.
  revert l'. induction l as [|[n d] l IH]; intros l'; simpl; [done|].
  destruct (strcaseeq n name) eqn:E.
  - intros [= <-]. simpl. rewrite (strcaseeq_trans_l _ _ _ E). by destruct (strcaseeq name w).
  - destruct (desc_replace l name desc) as [l1|]; [|done]. intros [= <-]. simpl.
    rewrite (IH l1 eq_refl). destruct (strcaseeq n w) eqn:Ew; [|done].
    destruct (strcaseeq name w) eqn:E2; [|done].
    rewrite strcaseeq_sym in E2. rewrite (strcaseeq_trans_l _ _ _ Ew), E2 in E. done.
Qed.

Lemma desc_add_get l name desc w :
  list_get (desc_add l name desc) w = if strcaseeq name w then Some desc else list_get l w.
Proof.
  unfold desc_add. destruct (desc_replace l name desc) as [l'|] eqn:E; [|done].
  by apply desc_replace_get.
Qed.

(** The description the lines of a file give a name: the last one wins. *)
Definition file_desc (kw : bytes) (lines : list (list bytes)) (w : bytes) : option bytes :=
  fold_left (fun acc arg =>
    match arg with
    | a0 :: a1 :: a2 :: _ => if streq a0 kw && strcaseeq a1 w then Some a2 else acc
    | _ => acc
    end) lines None.

(** Descriptions: after any sequence of lines of cmdvartab, a variable or a
    command has the description of the last VARDESC or CMDDESC line that names
    it, whatever the case of the name, and none if there is no such line. *)
Theorem desc_lookup_last_line lines w :
  let st := fold_left desc_line lines (mkDesc [] []) in
  desc_get_var st w = file_desc ($"VARDESC") lines w
  /\ desc_get_cmd st w = file_desc ($"CMDDESC") lines w.
Proof.
  unfold file_desc. induction lines as [|arg lines IH] using rev_ind; [done|].
  cbv zeta in *. rewrite !fold_left_app. destruct IH as [IHv IHc]. cbn [fold_left].
  destruct arg as [|a0 [|a1 [|a2 more]]]; [by split..|].
  rewrite <- IHv, <- IHc. unfold desc_line, desc_get_var, desc_get_cmd.
  destruct (streq a0 ($"CMDDESC")) eqn:Ec.
  - apply streq_true in Ec as ->. cbn [cmd_list var_list]. split; [done|].
    rewrite desc_add_get. done.
  - destruct (streq a0 ($"VARDESC")) eqn:Ev; cbn [cmd_list var_list andb]; [|done].
    rewrite desc_add_get. done.
Qed.

Example desc_ex :
  let st := desc_load (fun _ => inl ($"VARDESC ups.load Load
VARDESC UPS.LOAD Percent
")) ($"/usr/share/nut") (mkDesc [] []) in
  desc_get_var st ($"Ups.Load") = Some ($"Percent").
Proof. vm_compute. reflexivity. Qed.
