(* ===== verification/Tracking.v ===== *)
(** * server/upsd.c: status tracking of INSTCMD and SET VAR

    The doubly linked list of tracking entries, newest first.  [enabled] is the
    static [tracking_enabled]; [now] what [time()] returns. *)

From S2P Require Import Prelude CStr.
From stdpp Require Import options.

Definition STAT_PENDING : Z := -1.
Definition STAT_HANDLED : Z := 0.
Definition STAT_UNKNOWN : Z := 1.
Definition STAT_INVALID : Z := 2.
Definition STAT_FAILED : Z := 3.
Definition STAT_CONVERSION_FAILED : Z := 4.

Record tracking_t := mkTracking { t_id : bytes; t_status : Z; t_request_time : Z }.

Definition tracking_add (enabled now : Z) (l : list tracking_t) (id : bytes) : list tracking_t * Z :=
  if enabled =? 0 then (l, 0)
  else (mkTracking id STAT_PENDING now :: l, 1).

Fixpoint tracking_set (l : list tracking_t) (id value : bytes) : list tracking_t * Z :=
  match l with
  | [] => ([], 0)
  | item :: l' =>
      if strcaseeq (t_id item) id
      then (mkTracking (t_id item) (atoi value) (t_request_time item) :: l', 1)
      else let '(l'', r) := tracking_set l' id value in (item :: l'', r)
  end.

Fixpoint tracking_del (l : list tracking_t) (id : bytes) : list tracking_t * Z :=
  match l with
  | [] => ([], 0)
  | item :: l' =>
      if negb (strcaseeq (t_id item) id)
      then let '(l'', r) := tracking_del l' id in (item :: l'', r)
      else (l', 1)
  end.

(** The loops walk the entries of the list as it was on entry: a deletion by id
    never removes an entry the walk has still to reach before its own. *)
Definition tracking_free (l : list tracking_t) : list tracking_t :=
  fold_left (fun cur item => (tracking_del cur (t_id item)).1) l l.

Definition tracking_cleanup (now delay : Z) (l : list tracking_t) : list tracking_t :=
  fold_left (fun cur item =>
    if now - t_request_time item >? delay then (tracking_del cur (t_id item)).1 else cur) l l.

Fixpoint tracking_get (l : list tracking_t) (id : bytes) : bytes :=
  match l with
  | [] => $"ERR UNKNOWN"
  | item :: l' =>
      if negb (strcaseeq (t_id item) id) then tracking_get l' id
      else if t_status item =? STAT_PENDING then $"PENDING"
      else if t_status item =? STAT_HANDLED then $"SUCCESS"
      else if t_status item =? STAT_UNKNOWN then $"ERR UNKNOWN"
      else if (t_status item =? STAT_INVALID) || (t_status item =? STAT_CONVERSION_FAILED)
      then $"ERR INVALID-ARGUMENT"
      else if t_status item =? STAT_FAILED then $"ERR FAILED"
      else tracking_get l' id
  end.

(** ** Properties *)

(** No two entries have the same id, up to case. *)
Definition tracking_wf (l : list tracking_t) : Prop := NoDup ((fun i => lower (t_id i)) <$> l).

Lemma del_notin l id :
  lower id ∉ ((fun i => lower (t_id i)) <$> l) -> tracking_del l id = (l, 0).
Proof.
  induction l as [|i l IH]; [done|]. csimpl. intros [Hne Hni]%not_elem_of_cons.
  assert (strcaseeq (t_id i) id = false) as ->
    by (apply not_true_iff_false; rewrite strcaseeq_true; congruence).
  simpl. by rewrite IH.
Qed.

Lemma del_middle l1 i l2 :
  tracking_wf (l1 ++ i :: l2) -> tracking_del (l1 ++ i :: l2) (t_id i) = (l1 ++ l2, 1).
Proof.
  unfold tracking_wf. induction l1 as [|j l1 IH]; csimpl; [by rewrite strcaseeq_refl|].
  intros [Hni Hnd]%NoDup_cons.
  assert (strcaseeq (t_id j) (t_id i) = false) as ->.
  { apply not_true_iff_false. rewrite strcaseeq_true. intros Heq. apply Hni.
    rewrite fmap_app, elem_of_app, Heq. csimpl. right. left. }
  simpl. by rewrite IH.
Qed.

Lemma wf_sublist l l' : sublist l l' -> tracking_wf l' -> tracking_wf l.
Proof.
  intros Hs Hw. unfold tracking_wf in *. eapply sublist_NoDup; [exact Hw|].
  by apply fmap_sublist.
Qed.

(** Walking the rest [l2] of the list after [l1] was filtered. *)
Lemma cleanup_walk (p : tracking_t -> bool) l2 l1 :
  tracking_wf (l1 ++ l2) ->
  fold_left (fun cur item => if p item then (tracking_del cur (t_id item)).1 else cur) l2 (l1 ++ l2)
  = l1 ++ filter (fun i => p i = false) l2.
Proof.
  revert l1. induction l2 as [|i l2 IH]; intros l1 Hw; [done|]. cbn [fold_left].
  destruct (p i) eqn:Ep.
  - rewrite del_middle by done. cbn [fst]. rewrite filter_cons_False by congruence. apply IH.
    eapply wf_sublist; [|exact Hw]. apply sublist_app; [done|]. by apply sublist_cons.
  - rewrite filter_cons_True by done.
    replace (l1 ++ i :: l2) with ((l1 ++ [i]) ++ l2) by (by rewrite <- app_assoc).
    rewrite IH; [by rewrite <- app_assoc|]. by rewrite <- app_assoc.
Qed.

(** With distinct ids, [tracking_cleanup] drops exactly the entries older
    than the delay and keeps the others in order, and [tracking_free] drops all. *)
Theorem tracking_cleanup_exact now delay l :
  tracking_wf l ->
  tracking_cleanup now delay l = filter (fun i => now - t_request_time i <= delay) l
  /\ tracking_free l = [].
Proof.
  intros Hw. split.
  - unfold tracking_cleanup.
    pose proof (cleanup_walk (fun i => now - t_request_time i >? delay) l [] Hw) as H.
    cbn [app] in H. rewrite H. clear H.
    apply list_filter_iff. intros i. rewrite Z.gtb_ltb, Z.ltb_ge. lia.
  - pose proof (cleanup_walk (fun _ => true) l [] Hw) as H. unfold tracking_free. simpl in H.
    rewrite H. clear. induction l as [|i l IH]; [done|]. by rewrite filter_cons_False.
Qed.

Lemma tracking_cleanup_exact_witness :
  tracking_cleanup 5000 3600 [mkTracking ($"b") 0 4000; mkTracking ($"a") 0 10]
  = [mkTracking ($"b") 0 4000].
Proof.
  refine (eq_trans (proj1 (tracking_cleanup_exact 5000 3600 _ _)) _); [|reflexivity].
  apply (bool_decide_unpack _). vm_compute. exact I.
Defined.

Lemma set_get l id v w :
  tracking_wf l ->
  tracking_get (tracking_set l id v).1 w
  = if strcaseeq id w then
      match (tracking_set l id v).2 with
      | 0 => $"ERR UNKNOWN" | _ => tracking_get [mkTracking id (atoi v) 0] id
      end
    else tracking_get l w.
Proof.
  induction l as [|i l IH]; intros Hw; [simpl; by destruct (strcaseeq id w)|].
  unfold tracking_wf in Hw. csimpl in Hw. apply NoDup_cons in Hw as [Hni Hw]. specialize (IH Hw).
  cbn [tracking_set]. destruct (strcaseeq (t_id i) id) eqn:E.
  - cbn [fst snd tracking_get t_id t_status]. rewrite strcaseeq_refl.
    rewrite (strcaseeq_trans_l _ _ w E). destruct (strcaseeq id w) eqn:Ew; [|done]. cbn [negb].
    assert (tracking_get l w = $"ERR UNKNOWN") as ->; [|done].
    assert (lower w ∉ ((fun i => lower (t_id i)) <$> l)) as Hnw.
    { apply strcaseeq_true in E, Ew. by rewrite <- Ew, <- E. }
    clear -Hnw. induction l as [|j l IH]; [done|]. csimpl in Hnw.
    apply not_elem_of_cons in Hnw as [Hne Hni]. simpl.
    assert (strcaseeq (t_id j) w = false) as ->
      by (apply not_true_iff_false; rewrite strcaseeq_true; congruence).
    by apply IH.
  - destruct (tracking_set l id v) as [l' r]. cbn [fst snd tracking_get] in *.
    rewrite IH. destruct (strcaseeq id w) eqn:Ew; [|done].
    assert (strcaseeq (t_id i) w = false) as ->; [|done].
    rewrite strcaseeq_sym in Ew. rewrite strcaseeq_sym, (strcaseeq_trans_l _ _ _ Ew), strcaseeq_sym.
    done.
Qed.

(** The protocol's words for a driver's status number. *)
Definition status_text (z : Z) : bytes :=
  if z =? -1 then $"PENDING"
  else if z =? 0 then $"SUCCESS"
  else if (z =? 2) || (z =? 4) then $"ERR INVALID-ARGUMENT"
  else if z =? 3 then $"ERR FAILED"
  else $"ERR UNKNOWN".

(** The life of a tracking entry: with tracking enabled a new id reads as
    PENDING until the driver reports; a report for it is accepted and from then
    on the id, in any case, reads as the text of the reported status; ids
    that differ are not affected. *)
Theorem tracking_lifecycle enabled now l id v w :
  enabled <> 0 -> tracking_wf l -> lower id ∉ ((fun i => lower (t_id i)) <$> l) ->
  lower w = lower id ->
  let l1 := (tracking_add enabled now l id).1 in
  let l2 := (tracking_set l1 id v).1 in
  tracking_wf l1 /\ tracking_get l1 w = $"PENDING"
  /\ (tracking_set l1 id v).2 = 1 /\ tracking_get l2 w = status_text (atoi v)
  /\ (forall x, lower x <> lower id -> tracking_get l2 x = tracking_get l x).
Proof.
  intros He Hw Hni Hcase. cbv zeta. unfold tracking_add. rewrite (proj2 (Z.eqb_neq _ _) He). cbn [fst].
  set (l1 := mkTracking id STAT_PENDING now :: l).
  assert (tracking_wf l1) as Hw1 by (by apply NoDup_cons).
  assert (strcaseeq id w = true) as Heq by (by apply strcaseeq_true).
  assert ((tracking_set l1 id v).2 = 1) as Hr by (simpl; by rewrite strcaseeq_refl).
  split; [done|]. split; [simpl; by rewrite Heq|]. split; [done|]. split.
  - rewrite set_get, Heq, Hr by done. simpl. rewrite strcaseeq_refl. simpl.
    unfold status_text, STAT_PENDING, STAT_HANDLED, STAT_UNKNOWN, STAT_INVALID, STAT_FAILED,
      STAT_CONVERSION_FAILED. generalize (atoi v). intros z.
    destruct (Z.eqb_spec z 1) as [->|]; [done|].
    by destruct (z =? -1), (z =? 0), (z =? 2), (z =? 4), (z =? 3).
  - intros x Hx. rewrite set_get by done.
    assert (strcaseeq id x = false) as Hf
      by (apply not_true_iff_false; rewrite strcaseeq_true; congruence).
    rewrite Hf. simpl. by rewrite Hf.
Qed.

Lemma tracking_lifecycle_witness :
  tracking_get (tracking_set (tracking_add 1 7 [] ($"AB-1")).1 ($"AB-1") ($"3")).1 ($"ab-1")
  = $"ERR FAILED".
Proof.
  assert (lower ($"AB-1") ∉ ((fun i => lower (t_id i)) <$> (@nil tracking_t))) as Hn
    by apply not_elem_of_nil.
  destruct (tracking_lifecycle 1 7 [] ($"AB-1") ($"3") ($"ab-1") ltac:(lia) (NoDup_nil_2) Hn eq_refl)
    as (_ & _ & _ & H & _).
  exact H.
Defined.
