(* ===== verification/UpsClient.v ===== *)
(** * clients/upsclient.c: the client library

    A connection to upsd in a build without SSL.  [peer] is what the system does with the socket: the
    results of the next [read] and [write] calls, and what was written, oldest first.  A line that
    [upscli_readline] returns is the C string in the caller's buffer.

    [None] as the result of an operation is a read outside the array [arglist] of the parser. *)

From S2P Require Import Prelude CStr ParseConf.
From stdpp Require Import options.

Definition UPSCLI_NETBUF_LEN : nat := 512.
Definition UPSCLIENT_MAGIC : Z := 0x19980308.

Definition UPSCLI_ERR_NONE : Z := -1.
Definition UPSCLI_ERR_UNKNOWN : Z := 0.
Definition UPSCLI_ERR_VARNOTSUPP : Z := 1.
Definition UPSCLI_ERR_NOSUCHHOST : Z := 2.
Definition UPSCLI_ERR_INVRESP : Z := 3.
Definition UPSCLI_ERR_UNKNOWNUPS : Z := 4.
Definition UPSCLI_ERR_INVLISTTYPE : Z := 5.
Definition UPSCLI_ERR_ACCESSDENIED : Z := 6.
Definition UPSCLI_ERR_PWDREQUIRED : Z := 7.
Definition UPSCLI_ERR_PWDINCORRECT : Z := 8.
Definition UPSCLI_ERR_MISSINGARG : Z := 9.
Definition UPSCLI_ERR_DATASTALE : Z := 10.
Definition UPSCLI_ERR_VARUNKNOWN : Z := 11.
Definition UPSCLI_ERR_LOGINTWICE : Z := 12.
Definition UPSCLI_ERR_PWDSETTWICE : Z := 13.
Definition UPSCLI_ERR_UNKNOWNTYPE : Z := 14.
Definition UPSCLI_ERR_UNKNOWNVAR : Z := 15.
Definition UPSCLI_ERR_VARREADONLY : Z := 16.
Definition UPSCLI_ERR_TOOLONG : Z := 17.
Definition UPSCLI_ERR_INVALIDVALUE : Z := 18.
Definition UPSCLI_ERR_SETFAILED : Z := 19.
Definition UPSCLI_ERR_UNKINSTCMD : Z := 20.
Definition UPSCLI_ERR_CMDFAILED : Z := 21.
Definition UPSCLI_ERR_CMDNOTSUPP : Z := 22.
Definition UPSCLI_ERR_INVUSERNAME : Z := 23.
Definition UPSCLI_ERR_USERSETTWICE : Z := 24.
Definition UPSCLI_ERR_UNKCOMMAND : Z := 25.
Definition UPSCLI_ERR_INVALIDARG : Z := 26.
Definition UPSCLI_ERR_SENDFAILURE : Z := 27.
Definition UPSCLI_ERR_RECVFAILURE : Z := 28.
Definition UPSCLI_ERR_SOCKFAILURE : Z := 29.
Definition UPSCLI_ERR_BINDFAILURE : Z := 30.
Definition UPSCLI_ERR_CONNFAILURE : Z := 31.
Definition UPSCLI_ERR_WRITE : Z := 32.
Definition UPSCLI_ERR_READ : Z := 33.
Definition UPSCLI_ERR_INVPASSWORD : Z := 34.
Definition UPSCLI_ERR_USERREQUIRED : Z := 35.
Definition UPSCLI_ERR_SSLFAIL : Z := 36.
Definition UPSCLI_ERR_SSLERR : Z := 37.
Definition UPSCLI_ERR_SRVDISC : Z := 38.
Definition UPSCLI_ERR_DRVNOTCONN : Z := 39.
Definition UPSCLI_ERR_NOMEM : Z := 40.
Definition UPSCLI_ERR_PARSE : Z := 41.
Definition UPSCLI_ERR_PROTOCOL : Z := 42.

(** The result of [select] and [read]: data (none when the time is over or the server is gone), or
    an error.  Without further results nothing comes. *)
Inductive read_result := RData (d : bytes) | RError.

Record peer := mkPeer {
  nt_reads : list read_result;
  nt_writes : list Z;
  nt_sent : list bytes
}.

Definition set_nt_reads (p : peer) x := mkPeer x (nt_writes p) (nt_sent p).
Definition set_nt_writes (p : peer) x := mkPeer (nt_reads p) x (nt_sent p).
Definition set_nt_sent (p : peer) x := mkPeer (nt_reads p) (nt_writes p) x.

Record UPSCONN := mkUpsconn {
  cn_host : option bytes;
  cn_port : Z;
  cn_fd : Z;
  cn_upserror : Z;
  cn_magic : Z;
  cn_ctx : PCONF_CTX;
  cn_readbuf : bytes;
  cn_readlen : nat;
  cn_readidx : nat;
  cn_net : peer
}.

Definition set_cn_host (c : UPSCONN) x := mkUpsconn x (cn_port c) (cn_fd c) (cn_upserror c)
  (cn_magic c) (cn_ctx c) (cn_readbuf c) (cn_readlen c) (cn_readidx c) (cn_net c).
Definition set_cn_fd (c : UPSCONN) x := mkUpsconn (cn_host c) (cn_port c) x (cn_upserror c)
  (cn_magic c) (cn_ctx c) (cn_readbuf c) (cn_readlen c) (cn_readidx c) (cn_net c).
Definition set_cn_upserror (c : UPSCONN) x := mkUpsconn (cn_host c) (cn_port c) (cn_fd c) x
  (cn_magic c) (cn_ctx c) (cn_readbuf c) (cn_readlen c) (cn_readidx c) (cn_net c).
Definition set_cn_ctx (c : UPSCONN) x := mkUpsconn (cn_host c) (cn_port c) (cn_fd c) (cn_upserror
  c) (cn_magic c) x (cn_readbuf c) (cn_readlen c) (cn_readidx c) (cn_net c).
Definition set_cn_net (c : UPSCONN) x := mkUpsconn (cn_host c) (cn_port c) (cn_fd c) (cn_upserror
  c) (cn_magic c) (cn_ctx c) (cn_readbuf c) (cn_readlen c) (cn_readidx c) x.
Definition set_cn_readbuf (c : UPSCONN) buf len idx := mkUpsconn (cn_host c) (cn_port c) (cn_fd c) (cn_upserror c)
  (cn_magic c) (cn_ctx c) buf len idx (cn_net c).

(** ** The socket *)

Definition net_read (c : UPSCONN) (buflen : nat) : Z * bytes * UPSCONN :=
  match nt_reads (cn_net c) with
  | RData ((_ :: _) as d) :: rs =>
      let got := take buflen d in
      let rs := match drop buflen d with [] => rs | d' => RData d' :: rs end in
      (Z.of_nat (length got), got, set_cn_net c (set_nt_reads (cn_net c) rs))
  | RData [] :: rs => (0, [], set_cn_upserror (set_cn_net c (set_nt_reads (cn_net c) rs)) UPSCLI_ERR_SRVDISC)
  | RError :: rs => (-1, [], set_cn_upserror (set_cn_net c (set_nt_reads (cn_net c) rs)) UPSCLI_ERR_READ)
  | [] => (0, [], set_cn_upserror c UPSCLI_ERR_SRVDISC)
  end.

(** [write] accepts some of the bytes; by default all of them. *)
Definition net_write (c : UPSCONN) (buf : bytes) : Z * UPSCONN :=
  let p := cn_net c in
  let '(ret, ws) := match nt_writes p with [] => (Z.of_nat (length buf), []) | r :: ws => (r, ws) end in
  let ret := Z.min ret (Z.of_nat (length buf)) in
  let p := set_nt_writes p ws in
  if ret <? 0 then (ret, set_cn_upserror (set_cn_net c p) UPSCLI_ERR_WRITE)
  else if ret =? 0 then (ret, set_cn_upserror (set_cn_net c p) UPSCLI_ERR_SRVDISC)
  else (ret, set_cn_net c (set_nt_sent p (nt_sent p ++ [take (Z.to_nat ret) buf]))).

Definition upscli_disconnect (c : UPSCONN) : Z * UPSCONN :=
  if negb (cn_magic c =? UPSCLIENT_MAGIC) then (-1, c)
  else
    let c := set_cn_host (set_cn_ctx c (pconf_finish (cn_ctx c))) None in
    if cn_fd c <? 0 then (0, c)
    else
      let '(_, c) := net_write c ($"LOGOUT" ++ [LF]) in
      let '(_, _, c) := net_read c UPSCLI_NETBUF_LEN in
      (0, set_cn_fd c (-1)).

Definition upscli_fd (c : UPSCONN) : Z := if negb (cn_magic c =? UPSCLIENT_MAGIC) then -1 else cn_fd c.
Definition upscli_upserror (c : UPSCONN) : Z :=
  if negb (cn_magic c =? UPSCLIENT_MAGIC) then -1 else cn_upserror c.

(** ** Lines *)

Definition upscli_sendline_timeout_may_disconnect (c : UPSCONN) (buf : bytes) (may_disconnect : bool) : Z * UPSCONN :=
  if cn_fd c <? 0 then (-1, set_cn_upserror c UPSCLI_ERR_DRVNOTCONN)
  else if (length buf <? 1)%nat then (-1, set_cn_upserror c UPSCLI_ERR_INVALIDARG)
  else if negb (cn_magic c =? UPSCLIENT_MAGIC) then (-1, set_cn_upserror c UPSCLI_ERR_INVALIDARG)
  else
    let '(ret, c) := net_write c buf in
    if ret <? 1 then (-1, if may_disconnect then (upscli_disconnect c).2 else c) else (0, c).

Definition upscli_sendline_timeout (c : UPSCONN) (buf : bytes) : Z * UPSCONN :=
  upscli_sendline_timeout_may_disconnect c buf true.
Definition upscli_sendline (c : UPSCONN) (buf : bytes) : Z * UPSCONN := upscli_sendline_timeout c buf.

(** [sizeof(ups->readbuf)] *)
Definition READBUF_LEN : nat := 64.

(** The [for] loop with room for [k] more characters; [buf] are those stored. *)
Fixpoint readline_loop (k : nat) (c : UPSCONN) (buf : bytes) (may_disconnect : bool) : Z * bytes * UPSCONN :=
  match k with
  | O => (0, buf, c)
  | S k =>
      let '(failed, c) :=
        if (cn_readidx c =? cn_readlen c)%nat then
          let '(ret, got, c) := net_read c READBUF_LEN in
          if ret <? 1 then (true, if may_disconnect then (upscli_disconnect c).2 else c)
          else (false, set_cn_readbuf c got (Z.to_nat ret) 0)
        else (false, c) in
      if failed : bool then (-1, buf, c)
      else
        let x := nth (cn_readidx c) (cn_readbuf c) NUL in
        let c := set_cn_readbuf c (cn_readbuf c) (cn_readlen c) (S (cn_readidx c)) in
        if Ascii.eqb x LF then (0, buf, c) else readline_loop k c (buf ++ [x]) may_disconnect
  end.

(** The characters of an array before its first NUL *)
Definition c_string (buf : bytes) : bytes := default buf (cstring buf).

Definition upscli_readline_timeout_may_disconnect (c : UPSCONN) (buflen : nat) (may_disconnect : bool)
    : Z * bytes * UPSCONN :=
  if cn_fd c <? 0 then (-1, [], set_cn_upserror c UPSCLI_ERR_DRVNOTCONN)
  else if (buflen <? 1)%nat then (-1, [], set_cn_upserror c UPSCLI_ERR_INVALIDARG)
  else if negb (cn_magic c =? UPSCLIENT_MAGIC) then (-1, [], set_cn_upserror c UPSCLI_ERR_INVALIDARG)
  else
    let '(ret, buf, c) := readline_loop (buflen - 1) c [] may_disconnect in
    (ret, c_string buf, c).

Definition upscli_readline_timeout (c : UPSCONN) (buflen : nat) : Z * bytes * UPSCONN :=
  upscli_readline_timeout_may_disconnect c buflen true.
Definition upscli_readline (c : UPSCONN) (buflen : nat) : Z * bytes * UPSCONN := upscli_readline_timeout c buflen.

(** ** Errors of the server *)

Definition upsd_errlist : list (Z * bytes) := [
  (UPSCLI_ERR_VARNOTSUPP, $"VAR-NOT-SUPPORTED");
  (UPSCLI_ERR_UNKNOWNUPS, $"UNKNOWN-UPS");
  (UPSCLI_ERR_ACCESSDENIED, $"ACCESS-DENIED");
  (UPSCLI_ERR_PWDREQUIRED, $"PASSWORD-REQUIRED");
  (UPSCLI_ERR_PWDINCORRECT, $"PASSWORD-INCORRECT");
  (UPSCLI_ERR_MISSINGARG, $"MISSING-ARGUMENT");
  (UPSCLI_ERR_DATASTALE, $"DATA-STALE");
  (UPSCLI_ERR_VARUNKNOWN, $"VAR-UNKNOWN");
  (UPSCLI_ERR_LOGINTWICE, $"ALREADY-LOGGED-IN");
  (UPSCLI_ERR_PWDSETTWICE, $"ALREADY-SET-PASSWORD");
  (UPSCLI_ERR_UNKNOWNTYPE, $"UNKNOWN-TYPE");
  (UPSCLI_ERR_UNKNOWNVAR, $"UNKNOWN-VAR");
  (UPSCLI_ERR_VARREADONLY, $"READONLY");
  (UPSCLI_ERR_TOOLONG, $"TOO-LONG");
  (UPSCLI_ERR_INVALIDVALUE, $"INVALID-VALUE");
  (UPSCLI_ERR_SETFAILED, $"SET-FAILED");
  (UPSCLI_ERR_UNKINSTCMD, $"UNKNOWN-INSTCMD");
  (UPSCLI_ERR_CMDFAILED, $"INSTCMD-FAILED");
  (UPSCLI_ERR_CMDNOTSUPP, $"CMD-NOT-SUPPORTED");
  (UPSCLI_ERR_INVUSERNAME, $"INVALID-USERNAME");
  (UPSCLI_ERR_USERSETTWICE, $"ALREADY-SET-USERNAME");
  (UPSCLI_ERR_UNKCOMMAND, $"UNKNOWN-COMMAND");
  (UPSCLI_ERR_INVPASSWORD, $"INVALID-PASSWORD");
  (UPSCLI_ERR_USERREQUIRED, $"USERNAME-REQUIRED");
  (UPSCLI_ERR_DRVNOTCONN, $"DRIVER-NOT-CONNECTED")
].

Fixpoint errlist_find (l : list (Z * bytes)) (text : bytes) : option Z :=
  match l with
  | [] => None
  | (errnum, t) :: l' => if strncmp text t (length t) =? 0 then Some errnum else errlist_find l' text
  end.

Definition upscli_errcheck (c : UPSCONN) (buf : bytes) : Z * UPSCONN :=
  if negb (strncmp buf ($"ERR") 3 =? 0) then (0, c)
  else
    match errlist_find upsd_errlist (drop 4 buf) with
    | Some errnum => (-1, set_cn_upserror c errnum)
    | None => (-1, set_cn_upserror c UPSCLI_ERR_UNKNOWN)
    end.

(** ** GET and LIST *)

Fixpoint build_args (buf : bytes) (bufsize : nat) (arg : list bytes) : bytes :=
  match arg with
  | [] => buf
  | a :: arg =>
      let enc := pconf_encode a UPSCLI_NETBUF_LEN in
      let txt := if strchr a (chr 32) then quoted enc else enc in
      build_args (snprintfcat buf bufsize ($" " ++ txt)) bufsize arg
  end.

Definition build_cmd (bufsize : nat) (cmdname : bytes) (arg : list bytes) : bytes :=
  let buf := build_args (snprintf_s bufsize cmdname) bufsize arg in
  buf ++ snprintf_s (bufsize - length buf) [LF].

Fixpoint verify_resp (q : list bytes) (a : list bytes) : option bool :=
  match q with
  | [] => Some true
  | x :: q =>
      match a with
      | [] => None
      | y :: a => if strcaseeq x y then verify_resp q a else Some false
      end
  end.

(** The common beginning of a request: the line is sent, the answer read, checked for an error and split. *)
Definition upscli_query (c : UPSCONN) (cmdname : bytes) (query : list bytes) : bool * UPSCONN :=
  let cmd := build_cmd UPSCLI_NETBUF_LEN cmdname query in
  let '(r, c) := upscli_sendline c cmd in
  if negb (r =? 0) then (false, c) else
  let '(r, tmp, c) := upscli_readline c UPSCLI_NETBUF_LEN in
  if negb (r =? 0) then (false, c) else
  let '(r, c) := upscli_errcheck c tmp in
  if negb (r =? 0) then (false, c) else
  let '(r, ctx) := pconf_line (cn_ctx c) tmp in
  let c := set_cn_ctx c ctx in
  if r =? 0 then (false, set_cn_upserror c UPSCLI_ERR_PARSE) else (true, c).

(** On success [numa] is [p_numargs] and [answer] the array [p_arglist] of the connection's parser. *)
Definition upscli_get (c : UPSCONN) (query : list bytes) : option (Z * UPSCONN) :=
  if (length query <? 1)%nat then Some (-1, set_cn_upserror c UPSCLI_ERR_INVALIDARG) else
  let '(ok, c) := upscli_query c ($"GET") query in
  if negb ok then Some (-1, c) else
  if (p_numargs (cn_ctx c) <? length query)%nat then Some (-1, set_cn_upserror c UPSCLI_ERR_PROTOCOL) else
  match verify_resp query (p_arglist (cn_ctx c)) with
  | None => None
  | Some false => Some (-1, set_cn_upserror c UPSCLI_ERR_PROTOCOL)
  | Some true => Some (0, c)
  end.

Definition upscli_list_start (c : UPSCONN) (query : list bytes) : option (Z * UPSCONN) :=
  if (length query <? 1)%nat then Some (-1, set_cn_upserror c UPSCLI_ERR_INVALIDARG) else
  let '(ok, c) := upscli_query c ($"LIST") query in
  if negb ok then Some (-1, c) else
  match p_arglist (cn_ctx c) with
  | a0 :: a1 :: rest =>
      if (p_numargs (cn_ctx c) <? 2)%nat then Some (-1, set_cn_upserror c UPSCLI_ERR_PROTOCOL)
      else if negb (strcaseeq a0 ($"BEGIN")) || negb (strcaseeq a1 ($"LIST"))
      then Some (-1, set_cn_upserror c UPSCLI_ERR_PROTOCOL)
      else
        match verify_resp query rest with
        | None => None
        | Some false => Some (-1, set_cn_upserror c UPSCLI_ERR_PROTOCOL)
        | Some true => Some (0, c)
        end
  | _ => if (p_numargs (cn_ctx c) <? 2)%nat then Some (-1, set_cn_upserror c UPSCLI_ERR_PROTOCOL) else None
  end.

Definition upscli_list_next (c : UPSCONN) (query : list bytes) : option (Z * UPSCONN) :=
  let '(r, tmp, c) := upscli_readline c UPSCLI_NETBUF_LEN in
  if negb (r =? 0) then Some (-1, c) else
  let '(r, c) := upscli_errcheck c tmp in
  if negb (r =? 0) then Some (-1, c) else
  let '(r, ctx) := pconf_line (cn_ctx c) tmp in
  let c := set_cn_ctx c ctx in
  if r =? 0 then Some (-1, set_cn_upserror c UPSCLI_ERR_PARSE) else
  if (p_numargs ctx <? 1)%nat then Some (-1, set_cn_upserror c UPSCLI_ERR_PROTOCOL) else
  if (2 <=? p_numargs ctx)%nat
     && streq (nth 0 (p_arglist ctx) []) ($"END") && streq (nth 1 (p_arglist ctx) []) ($"LIST")
  then Some (0, c)
  else
    match verify_resp query (p_arglist ctx) with
    | None => None
    | Some false => Some (-1, set_cn_upserror c UPSCLI_ERR_PROTOCOL)
    | Some true => Some (1, c)
    end.

(** ** Names and addresses *)

(** The port that configure builds in. *)
Definition NUT_PORT : Z := 3493.

(** [strtok_r(s, sep, &last)] for one separator: leading separators are skipped; the token, if any, and what
    follows the separator that ended it. *)
Fixpoint skip_sep (sep : ascii) (s : bytes) : bytes :=
  match s with c :: s' => if Ascii.eqb c sep then skip_sep sep s' else s | [] => [] end.
Fixpoint until_sep (sep : ascii) (s : bytes) : bytes * bytes :=
  match s with
  | [] => ([], [])
  | c :: s' => if Ascii.eqb c sep then ([], s') else let '(t, r) := until_sep sep s' in (c :: t, r)
  end.
Definition strtok_r (sep : ascii) (s : bytes) : option bytes * bytes :=
  match skip_sep sep s with
  | [] => (None, [])
  | s' => let '(t, r) := until_sep sep s' in (Some t, r)
  end.

(** What the two functions return and store; [None] is NULL, or not stored. *)
Record split_result := mkSplit { sr_ret : Z; sr_upsname : option bytes; sr_hostname : option bytes; sr_port : option Z }.

(** the port number at [s] *)
Definition split_port (hostname : option bytes) (s : bytes) : split_result :=
  let l := (strtol s 10).1.1 in
  if bool_decide (s = []) || (l <? 1) || (65535 <? l) then mkSplit (-1) None hostname None
  else mkSplit 0 None hostname (Some l).

Definition upscli_splitaddr (buf : bytes) : split_result :=
  let tmp := snprintf_s SMALLBUF buf in
  match buf, tmp with
  | [], _ | _, [] => mkSplit (-1) None None None
  | _, t0 :: tmp1 =>
      if Ascii.eqb t0 (chr 91) (* [ *) then
        match index_of tmp (chr 93) with
        | None => mkSplit (-1) None None None
        | Some _ =>
            let '(hostname, last) := strtok_r (chr 93) tmp1 in
            match hostname with
            | None => mkSplit (-1) None None None
            | Some _ =>
                match last with
                | c :: s => if Ascii.eqb c (chr 58) then split_port hostname s else mkSplit 0 None hostname (Some NUT_PORT)
                | [] => mkSplit 0 None hostname (Some NUT_PORT)
                end
            end
        end
      else
        let '(hostname, _) := strtok_r (chr 58) tmp in
        match hostname with
        | None => mkSplit (-1) None None None
        | Some _ =>
            match index_of tmp (chr 58) with
            | None => mkSplit 0 None hostname (Some NUT_PORT)
            | Some k => split_port hostname (drop (S k) tmp)
            end
        end
  end.

Definition upscli_splitname (buf : bytes) : split_result :=
  let tmp := snprintf_s SMALLBUF buf in
  match buf with
  | [] => mkSplit (-1) None None None
  | _ =>
      let sat := index_of tmp (chr 64) in
      let ssc := index_of tmp (chr 58) in
      if bool_decide (sat = Some 0%nat) then mkSplit (-1) None None None
      else
        match (strtok_r (chr 64) tmp).1 with
        | None => mkSplit (-1) None None None
        | Some upsname =>
            match sat with
            | None =>
                match ssc with
                | Some _ => mkSplit (-1) (Some upsname) None None
                | None => mkSplit 0 (Some upsname) (Some ($"localhost")) (Some NUT_PORT)
                end
            | Some k =>
                match drop (S k) tmp with
                | [] => mkSplit (-1) (Some upsname) None None
                | addr =>
                    let r := upscli_splitaddr addr in
                    mkSplit (sr_ret r) (Some upsname) (sr_hostname r) (sr_port r)
                end
            end
        end
  end.

Example split_ex1 : upscli_splitname ($"su700@[::1]:3500") = mkSplit 0 (Some ($"su700")) (Some ($"::1")) (Some 3500).
Proof. reflexivity. Qed.
Example split_ex2 : upscli_splitname ($"su700@box") = mkSplit 0 (Some ($"su700")) (Some ($"box")) (Some 3493).
Proof. reflexivity. Qed.
(** an empty host name is taken from the port *)
Example split_ex3 : upscli_splitname ($"su700@:3500") = mkSplit 0 (Some ($"su700")) (Some ($"3500")) (Some 3500).
Proof. reflexivity. Qed.

(** ** Connecting *)

Definition UPSCLI_CONN_TRYSSL : Z := 0x0001.
Definition UPSCLI_CONN_REQSSL : Z := 0x0002.
Definition UPSCLI_CONN_CERTVERIF : Z := 0x0010.

(** What [getaddrinfo], [socket] and [connect] come to: a descriptor with what its peer will do, or the
    error they leave. *)
Inductive dial_result := Dialled (fd : Z) (net : peer) | DialFailed (upserror : Z).

(** The structure after [memset] to 0, and with its magic number. *)
Definition zero_conn : UPSCONN :=
  mkUpsconn None 0 0 0 0 (with_magic pconf_init 0) (replicate READBUF_LEN NUL) 0 0 (mkPeer [] [] []).
Definition fresh_conn : UPSCONN :=
  mkUpsconn None 0 (-1) 0 UPSCLIENT_MAGIC (with_magic pconf_init 0) (replicate READBUF_LEN NUL) 0 0 (mkPeer [] [] []).

(** [hostcert] is the CERTHOST rule of the host: certverify and forcessl, -1 when left open.  What the
    structure held before is overwritten. *)
Definition upscli_tryconnect (dial : dial_result) (hostcert : option (Z * Z))
    (host : option bytes) (port flags : Z) : Z * UPSCONN :=
  match host with
  | None => (-1, set_cn_upserror fresh_conn UPSCLI_ERR_NOSUCHHOST)
  | Some h =>
      match dial with
      | DialFailed e => (-1, set_cn_upserror fresh_conn e)
      | Dialled fd net =>
          let c := mkUpsconn (Some h) port fd 0 UPSCLIENT_MAGIC pconf_init (cn_readbuf fresh_conn) 0 0 net in
          let flag m := negb (Z.land flags m =? 0) in
          let of_rule rule m := if negb (rule =? -1) then negb (rule =? 0) else flag m in
          let certverify := match hostcert with Some (cv, _) => of_rule cv UPSCLI_CONN_CERTVERIF | None => flag UPSCLI_CONN_CERTVERIF end in
          let forcessl := match hostcert with Some (_, fs) => of_rule fs UPSCLI_CONN_REQSSL | None => flag UPSCLI_CONN_REQSSL end in
          let tryssl := flag UPSCLI_CONN_TRYSSL in
          if forcessl then (-1, (upscli_disconnect (set_cn_upserror c UPSCLI_ERR_SSLFAIL)).2)
          else if tryssl && certverify then (-1, (upscli_disconnect c).2)
          else (0, c)
      end
  end.

(** ** Logging in *)

(** A line that must be answered by OK: -2 when it is not. *)
Definition expect_ok (c : UPSCONN) (line : bytes) : Z * UPSCONN :=
  let '(r, c) := upscli_sendline c line in
  if r <? 0 then (-2, c) else
  let '(r, buf, c) := upscli_readline c UPSCLI_NETBUF_LEN in
  if r <? 0 then (-2, c) else
  let '(r, c) := upscli_errcheck c buf in
  if r <? 0 then (-2, c) else
  if negb (strncmp buf ($"OK") 2 =? 0) then (-2, set_cn_upserror c UPSCLI_ERR_PROTOCOL) else (0, c).

(** [check_os_user] and [ask_password] are 0: nothing is asked on the terminal. *)
Definition upscli_authenticate (c : UPSCONN) (username password : option bytes) : Z * UPSCONN :=
  match username, password with
  | Some user, Some pass =>
      let '(r, c) := expect_ok c (snprintf_s UPSCLI_NETBUF_LEN ($"USERNAME " ++ user ++ [LF])) in
      if r <? 0 then (r, c) else
      expect_ok c (snprintf_s UPSCLI_NETBUF_LEN ($"PASSWORD " ++ pass ++ [LF]))
  | _, _ => (-1, c)
  end.

(** [None] when 512 bytes without a NUL arrive: the text in the array then has no end. *)
Definition ask_version (c : UPSCONN) (cmd : bytes) : option (bytes * UPSCONN) :=
  let '(_, c) := net_write c cmd in
  let '(ret, got, c) := net_read c UPSCLI_NETBUF_LEN in
  version ← cstring (got ++ replicate (UPSCLI_NETBUF_LEN - length got) NUL);
  Some ((if (0 <? ret) && (strncmp version ($"ERR") 3 =? 0) then [] else version), c).

Definition upscli_is_valid_protocol_version (c : UPSCONN) (version_re : option bytes) : option (Z * UPSCONN) :=
  '(version, c) ← ask_version c ($"PROTVER" ++ [LF]);
  '(version, c) ← match version with [] => ask_version c ($"NETVER" ++ [LF; NUL]) | _ => Some (version, c) end;
  match version with
  | [] => Some (-1, c)
  | _ =>
      let version := match reverse version with x :: r => if Ascii.eqb x LF then reverse r else version | [] => version end in
      Some (Zbool match version_re with
       | None => streq version ($"1.0") || streq version ($"1.1") || streq version ($"1.2") || streq version ($"1.3")
       | Some v => streq v version
       end, c)
  end.
