(* ===== verification/StateTree.v ===== *)
(** * common/state.c: the tree of variables and the list of commands

    A UPS's variables are kept in an unbalanced binary search tree ordered by
    [strcasecmp] on the names; its instant commands in a sorted linked list.
    A function that walks a [st_tree_t **] and overwrites what it points to is
    a recursive function returning the new tree; the int it returns comes
    second.  Allocation does not fail.  [now] is what [state_get_timestamp]
    reads from the clock. *)

From S2P Require Import Prelude CStr ParseConf.
From stdpp Require Import options.

Definition ST_MAX_VALUE_LEN : nat := 256.

Definition ST_FLAG_NONE : Z := 0x0000.
Definition ST_FLAG_RW : Z := 0x0001.
Definition ST_FLAG_STRING : Z := 0x0002.
Definition ST_FLAG_NUMBER : Z := 0x0004.
Definition ST_FLAG_IMMUTABLE : Z := 0x0008.

(** [flags & mask] as a C condition *)
Definition has_flag (flags mask : Z) : bool := negb (Z.land flags mask =? 0).

(** [node->val] points to [node->raw] or to [node->safe]. *)
Inductive val_ptr := VRaw | VSafe.

(** [raw] and [safe] are the strings in the two buffers, [rawsize] and
    [safesize] the allocations; [lastset] is the timestamp. *)
Record st_node := mkNode {
  n_var : bytes;
  n_valp : val_ptr;
  n_raw : bytes;
  n_rawsize : nat;
  n_safe : bytes;
  n_safesize : nat;
  n_flags : Z;
  n_aux : Z;
  n_lastset : Z;
  n_enum_list : list bytes;
  n_range_list : list (Z * Z)
}.

Definition n_val (n : st_node) : bytes :=
  match n_valp n with VRaw => n_raw n | VSafe => n_safe n end.

Inductive st_tree :=
| Leaf
| Node (n : st_node) (left right : st_tree).

Definition set_raw n raw sz := mkNode (n_var n) (n_valp n) raw sz (n_safe n) (n_safesize n)
  (n_flags n) (n_aux n) (n_lastset n) (n_enum_list n) (n_range_list n).
Definition set_valp n p := mkNode (n_var n) p (n_raw n) (n_rawsize n) (n_safe n) (n_safesize n)
  (n_flags n) (n_aux n) (n_lastset n) (n_enum_list n) (n_range_list n).
Definition set_safe n safe sz := mkNode (n_var n) VSafe (n_raw n) (n_rawsize n) safe sz
  (n_flags n) (n_aux n) (n_lastset n) (n_enum_list n) (n_range_list n).
Definition set_flags n f := mkNode (n_var n) (n_valp n) (n_raw n) (n_rawsize n) (n_safe n)
  (n_safesize n) f (n_aux n) (n_lastset n) (n_enum_list n) (n_range_list n).
Definition set_aux n a := mkNode (n_var n) (n_valp n) (n_raw n) (n_rawsize n) (n_safe n)
  (n_safesize n) (n_flags n) a (n_lastset n) (n_enum_list n) (n_range_list n).
Definition set_enums n l := mkNode (n_var n) (n_valp n) (n_raw n) (n_rawsize n) (n_safe n)
  (n_safesize n) (n_flags n) (n_aux n) (n_lastset n) l (n_range_list n).
Definition set_ranges n l := mkNode (n_var n) (n_valp n) (n_raw n) (n_rawsize n) (n_safe n)
  (n_safesize n) (n_flags n) (n_aux n) (n_lastset n) (n_enum_list n) l.

(** ** Internal helpers *)

Definition val_escape (n : st_node) : st_node :=
  let etmp := pconf_encode (n_raw n) ST_MAX_VALUE_LEN in
  if streq (n_raw n) etmp then set_valp n VRaw
  else
    let safesize := if (n_safesize n <? length etmp + 1)%nat
                    then (length etmp + 1)%nat else n_safesize n in
    set_safe n (snprintf_s safesize etmp) safesize.

(** The order in which the members of the lists and the nodes are freed. *)
Fixpoint st_tree_enum_free (l : list bytes) : list bytes :=
  match l with [] => [] | v :: l' => st_tree_enum_free l' ++ [v] end.

Fixpoint st_tree_range_free (l : list (Z * Z)) : list (Z * Z) :=
  match l with [] => [] | r :: l' => st_tree_range_free l' ++ [r] end.

(** add a subtree to another subtree *)
Definition st_tree_node_add (t sptr : st_tree) : st_tree :=
  match sptr with
  | Leaf => t
  | Node s _ _ =>
      (fix go (t : st_tree) : st_tree :=
         match t with
         | Leaf => sptr
         | Node n l r =>
             if strcasecmp (n_var n) (n_var s) >? 0 then Node n (go l) r
             else if strcasecmp (n_var n) (n_var s) <? 0 then Node n l (go r)
             else t
         end) t
  end.

Definition st_tree_node_refresh_timestamp (now : Z) (n : st_node) : st_node :=
  mkNode (n_var n) (n_valp n) (n_raw n) (n_rawsize n) (n_safe n) (n_safesize n)
    (n_flags n) (n_aux n) now (n_enum_list n) (n_range_list n).

(** ** Interface *)

Definition difftime_st_tree_timespec (finish start : Z) : Z := finish - start.

Definition st_tree_node_compare_timestamp (n : st_node) (cutoff : option Z) : Z :=
  match cutoff with
  | None => -3
  | Some c =>
      let d := difftime_st_tree_timespec (n_lastset n) c in
      if d <? 0 then -1 else if 0 <? d then 1 else 0
  end.

Fixpoint state_delinfo (t : st_tree) (var : bytes) : st_tree * Z :=
  match t with
  | Leaf => (Leaf, 0)
  | Node n l r =>
      if strcasecmp (n_var n) var >? 0 then
        let '(l', ret) := state_delinfo l var in (Node n l' r, ret)
      else if strcasecmp (n_var n) var <? 0 then
        let '(r', ret) := state_delinfo r var in (Node n l r', ret)
      else if has_flag (n_flags n) ST_FLAG_IMMUTABLE then (t, 0)
      else (st_tree_node_add r l, 1)
  end.

Fixpoint state_delinfo_olderthan (t : st_tree) (var : bytes) (cutoff : option Z) : st_tree * Z :=
  match t with
  | Leaf => (Leaf, 0)
  | Node n l r =>
      if strcasecmp (n_var n) var >? 0 then
        let '(l', ret) := state_delinfo_olderthan l var cutoff in (Node n l' r, ret)
      else if strcasecmp (n_var n) var <? 0 then
        let '(r', ret) := state_delinfo_olderthan r var cutoff in (Node n l r', ret)
      else if has_flag (n_flags n) ST_FLAG_IMMUTABLE then (t, 0)
      else if st_tree_node_compare_timestamp n cutoff >=? 0 then (t, 0)
      else (st_tree_node_add r l, 1)
  end.

(** what [state_setinfo] does to the entry it finds *)
Definition setinfo_node (now : Z) (n : st_node) (val : bytes) : st_node * Z :=
  let n := st_tree_node_refresh_timestamp now n in
  if streq (n_raw n) val then (n, 0)
  else if has_flag (n_flags n) ST_FLAG_IMMUTABLE then (n, 0)
  else
    let rawsize := if (n_rawsize n <? length val + 1)%nat
                   then (length val + 1)%nat else n_rawsize n in
    (val_escape (set_raw n (snprintf_s rawsize val) rawsize), 1).

(** the entry it adds otherwise *)
Definition setinfo_new (now : Z) (var val : bytes) : st_node :=
  val_escape (st_tree_node_refresh_timestamp now
    (mkNode var VRaw val (length val + 1) [] 0 ST_FLAG_NONE 0 0 [] [])).

Fixpoint state_setinfo (now : Z) (t : st_tree) (var val : bytes) : st_tree * Z :=
  match t with
  | Leaf => (Node (setinfo_new now var val) Leaf Leaf, 1)
  | Node n l r =>
      if strcasecmp (n_var n) var >? 0 then
        let '(l', ret) := state_setinfo now l var val in (Node n l' r, ret)
      else if strcasecmp (n_var n) var <? 0 then
        let '(r', ret) := state_setinfo now r var val in (Node n l r', ret)
      else let '(n', ret) := setinfo_node now n val in (Node n' l r, ret)
  end.

Fixpoint state_tree_find (t : st_tree) (var : bytes) : option st_node :=
  match t with
  | Leaf => None
  | Node n l r =>
      if strcasecmp (n_var n) var >? 0 then state_tree_find l var
      else if strcasecmp (n_var n) var <? 0 then state_tree_find r var
      else Some n
  end.

(** Writing through the pointer [state_tree_find] returned. *)
Fixpoint tree_update (t : st_tree) (var : bytes) (f : st_node -> st_node) : st_tree :=
  match t with
  | Leaf => Leaf
  | Node n l r =>
      if strcasecmp (n_var n) var >? 0 then Node n (tree_update l var f) r
      else if strcasecmp (n_var n) var <? 0 then Node n l (tree_update r var f)
      else Node (f n) l r
  end.

Fixpoint st_tree_enum_add (l : list bytes) (enc : bytes) : list bytes * Z :=
  match l with
  | [] => ([enc], 1)
  | v :: l' =>
      if negb (streq v enc) then let '(l'', r) := st_tree_enum_add l' enc in (v :: l'', r)
      else (l, 0)
  end.

Definition state_addenum (now : Z) (root : st_tree) (var val : bytes) : st_tree * Z :=
  match state_tree_find root var with
  | None => (root, 0)
  | Some sttmp =>
      let enc := pconf_encode val ST_MAX_VALUE_LEN in
      let '(l, r) := st_tree_enum_add (n_enum_list sttmp) enc in
      (tree_update root var (fun n => set_enums (st_tree_node_refresh_timestamp now n) l), r)
  end.

Fixpoint st_tree_range_add (l : list (Z * Z)) (min max : Z) : list (Z * Z) * Z :=
  match l with
  | [] => ([(min, max)], 1)
  | (mn, mx) :: l' =>
      if negb (mn =? min) && negb (mx =? max)
      then let '(l'', r) := st_tree_range_add l' min max in ((mn, mx) :: l'', r)
      else (l, 0)
  end.

Definition state_addrange (now : Z) (root : st_tree) (var : bytes) (min max : Z) : st_tree * Z :=
  if min >? max then (root, 0)
  else match state_tree_find root var with
  | None => (root, 0)
  | Some sttmp =>
      let '(l, r) := st_tree_range_add (n_range_list sttmp) min max in
      (tree_update root var (fun n => set_ranges (st_tree_node_refresh_timestamp now n) l), r)
  end.

Definition state_setaux (now : Z) (root : st_tree) (var auxs : bytes) : st_tree * Z :=
  match state_tree_find root var with
  | None => (root, -1)
  | Some sttmp =>
      let aux := (strtol auxs 10).1.1 in
      if n_aux sttmp =? aux
      then (tree_update root var (st_tree_node_refresh_timestamp now), 0)
      else (tree_update root var (fun n => set_aux (st_tree_node_refresh_timestamp now n) aux), 1)
  end.

Definition state_getinfo (root : st_tree) (var : bytes) : option bytes :=
  n_val <$> state_tree_find root var.

Definition state_getflags (root : st_tree) (var : bytes) : Z :=
  match state_tree_find root var with None => -1 | Some n => n_flags n end.

Definition state_getaux (root : st_tree) (var : bytes) : Z :=
  match state_tree_find root var with None => -1 | Some n => n_aux n end.

(** [NULL] and the empty list are the same pointer. *)
Definition state_getenumlist (root : st_tree) (var : bytes) : list bytes :=
  match state_tree_find root var with None => [] | Some n => n_enum_list n end.

Definition state_getrangelist (root : st_tree) (var : bytes) : list (Z * Z) :=
  match state_tree_find root var with None => [] | Some n => n_range_list n end.

(** the loop over the flag words; unrecognized ones are only logged *)
Definition setflags_word (flags : Z) (w : bytes) : Z :=
  if strcaseeq w ($"RW") then Z.lor flags ST_FLAG_RW
  else if strcaseeq w ($"STRING") then Z.lor flags ST_FLAG_STRING
  else if strcaseeq w ($"NUMBER") then Z.lor flags ST_FLAG_NUMBER
  else flags.

Definition state_setflags (now : Z) (root : st_tree) (var : bytes) (flag : list bytes) : st_tree :=
  match state_tree_find root var with
  | None => root
  | Some _ =>
      tree_update root var (fun n =>
        set_flags (st_tree_node_refresh_timestamp now n) (fold_left setflags_word flag 0))
  end.

Fixpoint state_addcmd (l : list bytes) (cmd : bytes) : list bytes * Z :=
  match l with
  | [] => ([cmd], 1)
  | name :: l' =>
      if strcasecmp name cmd >? 0 then (cmd :: l, 1)
      else if strcasecmp name cmd <? 0
      then let '(l'', r) := state_addcmd l' cmd in (name :: l'', r)
      else (l, 0)
  end.

(** The nodes in the order in which they are freed. *)
Fixpoint state_infofree (t : st_tree) : list st_node :=
  match t with
  | Leaf => []
  | Node n l r => state_infofree l ++ state_infofree r ++ [n]
  end.

Fixpoint state_cmdfree (l : list bytes) : list bytes :=
  match l with [] => [] | c :: l' => state_cmdfree l' ++ [c] end.

Fixpoint state_delcmd (l : list bytes) (cmd : bytes) : list bytes * Z :=
  match l with
  | [] => ([], 0)
  | name :: l' =>
      if strcasecmp name cmd >? 0 then (l, 0)
      else if strcasecmp name cmd <? 0
      then let '(l'', r) := state_delcmd l' cmd in (name :: l'', r)
      else (l', 1)
  end.

Fixpoint st_tree_del_enum (l : list bytes) (val : bytes) : list bytes * Z :=
  match l with
  | [] => ([], 0)
  | v :: l' =>
      if negb (strcaseeq v val)
      then let '(l'', r) := st_tree_del_enum l' val in (v :: l'', r)
      else (l', 1)
  end.

Definition state_delenum (now : Z) (root : st_tree) (var val : bytes) : st_tree * Z :=
  match state_tree_find root var with
  | None => (root, 0)
  | Some sttmp =>
      let '(l, r) := st_tree_del_enum (n_enum_list sttmp) val in
      (tree_update root var (fun n => set_enums (st_tree_node_refresh_timestamp now n) l), r)
  end.

Fixpoint st_tree_del_range (l : list (Z * Z)) (min max : Z) : list (Z * Z) * Z :=
  match l with
  | [] => ([], 0)
  | (mn, mx) :: l' =>
      if negb (mn =? min) && negb (mx =? max)
      then let '(l'', r) := st_tree_del_range l' min max in ((mn, mx) :: l'', r)
      else (l', 1)
  end.

Definition state_delrange (now : Z) (root : st_tree) (var : bytes) (min max : Z) : st_tree * Z :=
  match state_tree_find root var with
  | None => (root, 0)
  | Some sttmp =>
      let '(l, r) := st_tree_del_range (n_range_list sttmp) min max in
      (tree_update root var (fun n => set_ranges (st_tree_node_refresh_timestamp now n) l), r)
  end.

Example getinfo_ex :
  let t := (state_setinfo 1 (state_setinfo 0 Leaf ($"ups.status") ($"OL")).1 ($"UPS.ID") ($"a#b")).1 in
  (state_getinfo t ($"Ups.Status"), state_getinfo t ($"ups.id")) = (Some ($"OL"), Some ($"a\#b")).
Proof. reflexivity. Qed.
