(* ===== verification/StateFacts.v ===== *)
(** * Properties of the variable tree and the command list

    The search-tree invariant, the refinement of every tree operation to a
    finite map from lower-cased names to entries, and the sortedness of the
    command list. *)

From S2P Require Import Prelude CStr ParseConf ParseConfFacts StateTree.
From stdpp Require Import options.

(** ** The invariant and the abstraction *)

Fixpoint nodes (t : st_tree) : list st_node :=
  match t with Leaf => [] | Node n l r => nodes l ++ n :: nodes r end.

Definition before (m n : st_node) : Prop := strcasecmp (n_var m) (n_var n) < 0.

Fixpoint bst (t : st_tree) : Prop :=
  match t with
  | Leaf => True
  | Node n l r =>
      bst l /\ bst r /\ Forall (fun m => before m n) (nodes l)
      /\ Forall (fun m => before n m) (nodes r)
  end.

Fixpoint to_map (t : st_tree) : gmap bytes st_node :=
  match t with
  | Leaf => ∅
  | Node n l r => <[lower (n_var n) := n]> (to_map l ∪ to_map r)
  end.

(** ** The order *)

Lemma cmp_gt_lt a b : strcasecmp a b > 0 <-> strcasecmp b a < 0.
Proof. rewrite (strcasecmp_antisym a b). lia. Qed.

Lemma before_ne m n : before m n -> lower (n_var m) <> lower (n_var n).
Proof. unfold before. rewrite <- strcasecmp_eq. lia. Qed.

Lemma before_trans a b c : before a b -> before b c -> before a c.
Proof. apply strcasecmp_trans. Qed.

(** The three outcomes of comparing a node's name with the one looked for. *)
Lemma cmp_dec a b :
  (strcasecmp a b >? 0) = true /\ strcasecmp b a < 0 /\ lower a <> lower b
  \/ (strcasecmp a b >? 0) = false /\ (strcasecmp a b <? 0) = true /\ strcasecmp a b < 0
     /\ lower a <> lower b
  \/ (strcasecmp a b >? 0) = false /\ (strcasecmp a b <? 0) = false /\ lower a = lower b.
Proof.
  rewrite <- (strcasecmp_eq a b), Z.gtb_ltb, (strcasecmp_antisym a b).
  destruct (Z.ltb_spec 0 (strcasecmp a b)), (Z.ltb_spec (strcasecmp a b) 0); lia.
Qed.

Ltac cmp_case a b :=
  let E1 := fresh "E" in let E2 := fresh "E" in
  let Hlt := fresh "Hlt" in let Hk := fresh "Hk" in
  destruct (cmp_dec a b) as [(E1 & Hlt & Hk)|[(E1 & E2 & Hlt & Hk)|(E1 & E2 & Hk)]];
  rewrite ?E1; rewrite ?E2.

(** ** Lookups *)

Lemma to_map_None t k : Forall (fun m => lower (n_var m) <> k) (nodes t) <-> to_map t !! k = None.
Proof.
  induction t as [|n l IHl r IHr]; simpl; [by split|].
  rewrite Forall_app, Forall_cons, IHl, IHr, lookup_insert_None, lookup_union_None. tauto.
Qed.

Lemma left_None (l : st_tree) k w :
  Forall (fun m => strcasecmp (n_var m) k < 0) (nodes l) ->
  (strcasecmp k w < 0 \/ lower k = lower w) -> to_map l !! lower w = None.
Proof.
  intros Hl Hk. apply to_map_None. eapply Forall_impl; [exact Hl|]. intros m Hm Heq; cbv beta in Hm.
  destruct Hk as [Hk|Hk].
  - apply strcasecmp_eq in Heq. pose proof (strcasecmp_trans _ _ _ Hm Hk). lia.
  - rewrite <- Hk in Heq. apply strcasecmp_eq in Heq. lia.
Qed.

Lemma right_None (r : st_tree) k w :
  Forall (fun m => strcasecmp k (n_var m) < 0) (nodes r) ->
  (strcasecmp w k < 0 \/ lower k = lower w) -> to_map r !! lower w = None.
Proof.
  intros Hr Hk. apply to_map_None. eapply Forall_impl; [exact Hr|]. intros m Hm Heq; cbv beta in Hm.
  symmetry in Heq. destruct Hk as [Hk|Hk].
  - apply strcasecmp_eq in Heq. pose proof (strcasecmp_trans _ _ _ Hk Hm). lia.
  - rewrite <- Hk in Heq. apply strcasecmp_eq in Heq. lia.
Qed.

(** Where a name is found in a search tree. *)
Lemma to_map_left n l r w :
  bst (Node n l r) -> strcasecmp w (n_var n) < 0 ->
  to_map (Node n l r) !! lower w = to_map l !! lower w.
Proof.
  intros (_ & _ & _ & Hr) Hw. simpl.
  rewrite lookup_insert_ne by (intros Heq; symmetry in Heq; apply strcasecmp_eq in Heq; lia).
  rewrite lookup_union_l; [done|]. by apply (right_None _ (n_var n)); [|left].
Qed.

Lemma to_map_right n l r w :
  bst (Node n l r) -> strcasecmp (n_var n) w < 0 ->
  to_map (Node n l r) !! lower w = to_map r !! lower w.
Proof.
  intros (_ & _ & Hl & _) Hw. simpl.
  rewrite lookup_insert_ne by (intros Heq; apply strcasecmp_eq in Heq; lia).
  rewrite lookup_union_r; [done|]. by apply (left_None _ (n_var n)); [|left].
Qed.

Lemma find_lookup t v : bst t -> state_tree_find t v = to_map t !! lower v.
Proof.
  induction t as [|n l IHl r IHr]; intros Hb; [done|].
  pose proof Hb as (Hl & Hr & _ & _). cbn [state_tree_find]. cmp_case (n_var n) v.
  - rewrite to_map_left by done. by apply IHl.
  - rewrite to_map_right by done. by apply IHr.
  - simpl. by rewrite Hk, lookup_insert_eq.
Qed.

(** ** Changing the entry of one name

    Every operation of state.c changes the map at one key only, so the three
    cases of the descent are proved once, for [partial_alter]. *)

Lemma to_map_left_alter n l l' r w f :
  bst (Node n l r) -> strcasecmp w (n_var n) < 0 ->
  to_map l' = partial_alter f (lower w) (to_map l) ->
  to_map (Node n l' r) = partial_alter f (lower w) (to_map (Node n l r)).
Proof.
  intros Hb Hw Hl'. pose proof (to_map_left _ _ _ _ Hb Hw) as Hlk.
  assert (lower (n_var n) <> lower w) as Hne.
  { intros Heq. symmetry in Heq. apply strcasecmp_eq in Heq. lia. }
  assert (to_map r !! lower w = None) as Hr.
  { destruct Hb as (_ & _ & _ & Hr). by apply (right_None _ (n_var n)); [|left]. }
  apply map_eq. intros j. destruct (decide (j = lower w)) as [->|Hj].
  - rewrite lookup_partial_alter_eq, Hlk. simpl. rewrite lookup_insert_ne by done.
    rewrite lookup_union_l by done. by rewrite Hl', lookup_partial_alter_eq.
  - rewrite lookup_partial_alter_ne by done. simpl.
    destruct (decide (j = lower (n_var n))) as [->|?]; [by rewrite !lookup_insert_eq|].
    rewrite !lookup_insert_ne by done. rewrite !lookup_union.
    by rewrite Hl', lookup_partial_alter_ne.
Qed.

Lemma to_map_right_alter n l r r' w f :
  bst (Node n l r) -> strcasecmp (n_var n) w < 0 ->
  to_map r' = partial_alter f (lower w) (to_map r) ->
  to_map (Node n l r') = partial_alter f (lower w) (to_map (Node n l r)).
Proof.
  intros Hb Hw Hr'. pose proof (to_map_right _ _ _ _ Hb Hw) as Hlk.
  assert (lower (n_var n) <> lower w) as Hne.
  { intros Heq. apply strcasecmp_eq in Heq. lia. }
  assert (to_map l !! lower w = None) as Hl.
  { destruct Hb as (_ & _ & Hl & _). by apply (left_None _ (n_var n)); [|left]. }
  apply map_eq. intros j. destruct (decide (j = lower w)) as [->|Hj].
  - rewrite lookup_partial_alter_eq, Hlk. simpl. rewrite lookup_insert_ne by done.
    rewrite lookup_union_r by done. by rewrite Hr', lookup_partial_alter_eq.
  - rewrite lookup_partial_alter_ne by done. simpl.
    destruct (decide (j = lower (n_var n))) as [->|?]; [by rewrite !lookup_insert_eq|].
    rewrite !lookup_insert_ne by done. rewrite !lookup_union.
    by rewrite Hr', lookup_partial_alter_ne.
Qed.

(** A property of nodes that only looks at the name. *)
Definition by_name (P : st_node -> Prop) : Prop := forall m n, n_var m = n_var n -> P m -> P n.

Lemma before_by_name_l n : by_name (fun m => before m n).
Proof. unfold by_name, before. by intros ? ? ->. Qed.
Lemma before_by_name_r n : by_name (fun m => before n m).
Proof. unfold by_name, before. by intros ? ? ->. Qed.
#[export] Hint Resolve before_by_name_l before_by_name_r : nut.

(** *** [state_setinfo] *)

Lemma val_escape_var n : n_var (val_escape n) = n_var n.
Proof. unfold val_escape. by case_match. Qed.

Lemma setinfo_node_var now n val : n_var (setinfo_node now n val).1 = n_var n.
Proof. unfold setinfo_node. repeat case_match; simpl; rewrite ?val_escape_var; done. Qed.

Lemma setinfo_new_var now var val : n_var (setinfo_new now var val) = var.
Proof. unfold setinfo_new. by rewrite val_escape_var. Qed.

Lemma setinfo_nodes P now t var val :
  by_name P -> Forall P (nodes t) -> (forall n, n_var n = var -> P n) ->
  Forall P (nodes (state_setinfo now t var val).1).
Proof.
  intros HP Ht Hnew. induction t as [|n l IHl r IHr]; simpl in *.
  { constructor; [|done]. apply Hnew, setinfo_new_var. }
  apply Forall_app in Ht as [Hl [Hn Hr]%Forall_cons].
  cmp_case (n_var n) var.
  - destruct (state_setinfo now l var val); simpl in *. rewrite Forall_app, Forall_cons. auto.
  - destruct (state_setinfo now r var val); simpl in *. rewrite Forall_app, Forall_cons. auto.
  - destruct (setinfo_node now n val) as [n' ret] eqn:En; simpl. rewrite Forall_app, Forall_cons.
    split_and!; try done. eapply HP; [|exact Hn].
    pose proof (setinfo_node_var now n val). rewrite En in *. done.
Qed.

Definition setinfo_entry (now : Z) (o : option st_node) (var val : bytes) : st_node * Z :=
  match o with Some n => setinfo_node now n val | None => (setinfo_new now var val, 1) end.

Lemma state_setinfo_spec now t var val :
  bst t ->
  bst (state_setinfo now t var val).1
  /\ to_map (state_setinfo now t var val).1
     = partial_alter (fun o => Some (setinfo_entry now o var val).1) (lower var) (to_map t)
  /\ (state_setinfo now t var val).2 = (setinfo_entry now (to_map t !! lower var) var val).2.
Proof.
  induction t as [|n l IHl r IHr]; intros Hb.
  { simpl. rewrite setinfo_new_var, lookup_empty. simpl. split; [repeat constructor|split; [|done]].
    apply map_eq. intros j. destruct (decide (j = lower var)) as [->|?].
    - by rewrite lookup_insert_eq, lookup_partial_alter_eq, lookup_empty.
    - rewrite lookup_insert_ne, lookup_partial_alter_ne by done. by rewrite (left_id_L ∅ (∪)). }
  pose proof Hb as (Hl & Hr & Hbl & Hbr).
  cbn [state_setinfo]. cmp_case (n_var n) var.
  - destruct (IHl Hl) as (Hb' & Hm' & Hret).
    assert (Forall (fun m => before m n) (nodes (state_setinfo now l var val).1)).
    { apply setinfo_nodes; auto with nut. by intros m <-. }
    rewrite to_map_left by done.
    destruct (state_setinfo now l var val) as [l' ret]. cbn [fst snd] in *.
    split; [done|]. split; [by apply (to_map_left_alter _ l)|done].
  - destruct (IHr Hr) as (Hb' & Hm' & Hret).
    assert (Forall (fun m => before n m) (nodes (state_setinfo now r var val).1)).
    { apply setinfo_nodes; auto with nut. by intros m <-. }
    rewrite to_map_right by done.
    destruct (state_setinfo now r var val) as [r' ret]. cbn [fst snd] in *.
    split; [done|]. split; [by apply (to_map_right_alter _ l r)|done].
  - pose proof (setinfo_node_var now n val) as Hv. simpl to_map. rewrite <- Hk, lookup_insert_eq.
    simpl setinfo_entry. destruct (setinfo_node now n val) as [n' ret] eqn:En. simpl in Hv |- *.
    split; [|split; [|done]].
    + unfold before in *. by rewrite Hv.
    + rewrite Hv. apply map_eq. intros j. destruct (decide (j = lower (n_var n))) as [->|?].
      * rewrite lookup_partial_alter_eq, !lookup_insert_eq. simpl. by rewrite En.
      * by rewrite lookup_partial_alter_ne, !lookup_insert_ne.
Qed.

(** *** Deletion *)

Lemma node_add_cons n l r s :
  s <> Leaf -> (forall m, m ∈ nodes s -> before m n) ->
  st_tree_node_add (Node n l r) s = Node n (st_tree_node_add l s) r.
Proof.
  intros Hs Hb. destruct s as [|s sl sr]; [done|]. simpl.
  assert (before s n) as Hlt by (apply Hb; simpl; rewrite elem_of_app, elem_of_cons; auto).
  unfold before in Hlt. rewrite (strcasecmp_antisym (n_var n)) in Hlt.
  by destruct (Z.gtb_spec (strcasecmp (n_var n) (n_var s)) 0); [|lia].
Qed.

Lemma to_map_elem t k n : to_map t !! k = Some n -> n ∈ nodes t /\ lower (n_var n) = k.
Proof.
  revert k. induction t as [|m l IHl r IHr]; intros k; simpl; [by rewrite lookup_empty|].
  rewrite lookup_insert_Some, lookup_union_Some_raw. rewrite elem_of_app, elem_of_cons.
  intros [[<- <-]|[_ [Hl|[_ Hr]]]]; [by auto|apply IHl in Hl as []|apply IHr in Hr as []]; auto.
Qed.

(** Trees whose names do not meet have disjoint maps. *)
Lemma to_map_disjoint t s :
  (forall m n, m ∈ nodes s -> n ∈ nodes t -> before m n) -> to_map t ##ₘ to_map s.
Proof.
  intros Hb. apply map_disjoint_spec. intros k x y [Hx Ex]%to_map_elem [Hy Ey]%to_map_elem.
  pose proof (before_ne _ _ (Hb _ _ Hy Hx)). congruence.
Qed.

(** Hanging the left subtree under the right one. *)
Lemma node_add_spec t s :
  bst t -> bst s -> (forall m n, m ∈ nodes s -> n ∈ nodes t -> before m n) ->
  bst (st_tree_node_add t s) /\ to_map (st_tree_node_add t s) = to_map t ∪ to_map s
  /\ nodes (st_tree_node_add t s) = nodes s ++ nodes t.
Proof.
  intros Ht Hs Hb. destruct s as [|s sl sr]; [simpl; by rewrite (right_id_L ∅ (∪))|].
  set (sub := Node s sl sr) in *. assert (sub <> Leaf) as Hne by done. clearbody sub.
  induction t as [|n l IHl r IHr].
  { destruct sub as [|s' sl' sr']; [done|]. split_and!; [done| |by rewrite app_nil_r].
    change (to_map Leaf) with (∅ : gmap bytes st_node). by rewrite (left_id_L ∅ (∪)). }
  destruct Ht as (Hl & Hr & Hbl & Hbr).
  assert (forall m, m ∈ nodes sub -> before m n) as Hn 
    by (intros; apply Hb; simpl; rewrite ?elem_of_app, ?elem_of_cons; auto).
  rewrite node_add_cons by done.
  destruct (IHl Hl) as (Hb' & Hm' & Hn').
  { intros m n' ? ?. apply Hb; simpl; rewrite ?elem_of_app, ?elem_of_cons; auto. }
  assert (Forall (fun m => before m n) (nodes sub)) as Hsub by (by apply Forall_forall).
  assert (to_map r ##ₘ to_map sub) as Hdisj.
  { apply to_map_disjoint. intros m n' ? ?. apply Hb; simpl; rewrite ?elem_of_app, ?elem_of_cons; auto. }
  split_and!; [| |].
  - simpl. rewrite Hn'. split_and!; try done. by apply Forall_app.
  - simpl. rewrite Hm', <- insert_union_l. f_equal.
    by rewrite <- !(assoc_L (∪)), (map_union_comm (to_map sub)) by (by symmetry).
  - simpl. by rewrite Hn', <- app_assoc.
Qed.

Lemma bst_children n l r m k : bst (Node n l r) -> m ∈ nodes l -> k ∈ nodes r -> before m k.
Proof.
  intros (_ & _ & Hl & Hr) Hm Hk. rewrite Forall_forall in Hl, Hr.
  eapply before_trans; [apply Hl|apply Hr]; done.
Qed.

(** Replacing a node by its merged subtrees removes exactly its entry. *)
Lemma delete_node_spec n l r :
  bst (Node n l r) ->
  bst (st_tree_node_add r l)
  /\ to_map (st_tree_node_add r l) = delete (lower (n_var n)) (to_map (Node n l r))
  /\ nodes (st_tree_node_add r l) = nodes l ++ nodes r.
Proof.
  intros Hb. pose proof Hb as (Hl & Hr & Hbl & Hbr).
  destruct (node_add_spec r l Hr Hl) as (Hb' & Hm & Hn).
  { intros m k Hm Hk. by eapply bst_children. }
  split; [done|]. split; [|done]. simpl. rewrite Hm, delete_insert_id.
  - apply map_union_comm, to_map_disjoint. intros m k Hm' Hk. by eapply bst_children.
  - apply lookup_union_None. split; [apply (left_None _ (n_var n)); auto|apply (right_None _ (n_var n)); auto].
Qed.

(** Both deletions are one descent; they differ in the test on the entry. *)
Fixpoint delinfo_if (p : st_node -> bool) (t : st_tree) (var : bytes) : st_tree * Z :=
  match t with
  | Leaf => (Leaf, 0)
  | Node n l r =>
      if strcasecmp (n_var n) var >? 0 then
        let '(l', ret) := delinfo_if p l var in (Node n l' r, ret)
      else if strcasecmp (n_var n) var <? 0 then
        let '(r', ret) := delinfo_if p r var in (Node n l r', ret)
      else if p n then (st_tree_node_add r l, 1) else (t, 0)
  end.

Definition deletable (n : st_node) : bool := negb (has_flag (n_flags n) ST_FLAG_IMMUTABLE).

Definition deletable_olderthan (cutoff : option Z) (n : st_node) : bool :=
  deletable n && (st_tree_node_compare_timestamp n cutoff <? 0).

Lemma delinfo_eq t var : state_delinfo t var = delinfo_if deletable t var.
Proof.
  induction t as [|n l IHl r IHr]; [done|]. simpl. rewrite IHl, IHr. unfold deletable.
  by destruct (has_flag _ _).
Qed.

Lemma delinfo_olderthan_eq t var cutoff :
  state_delinfo_olderthan t var cutoff = delinfo_if (deletable_olderthan cutoff) t var.
Proof.
  induction t as [|n l IHl r IHr]; [done|]. simpl. rewrite IHl, IHr.
  assert (deletable_olderthan cutoff n = negb (has_flag (n_flags n) ST_FLAG_IMMUTABLE)
          && negb (st_tree_node_compare_timestamp n cutoff >=? 0)) as ->.
  { unfold deletable_olderthan, deletable. rewrite Z.geb_leb. by rewrite Z.ltb_antisym. }
  by destruct (has_flag _ _), (st_tree_node_compare_timestamp n cutoff >=? 0).
Qed.

(** The keyed effect of a guarded deletion, and what it returns. *)
Definition del_entry (p : st_node -> bool) (o : option st_node) : option st_node :=
  match o with Some n => if p n then None else Some n | None => None end.
Definition del_ret (p : st_node -> bool) (o : option st_node) : Z :=
  match o with Some n => Zbool (p n) | None => 0 end.

Section Delete.
Context (p : st_node -> bool).

Lemma delinfo_if_nodes P t var :
  Forall P (nodes t) -> bst t -> Forall P (nodes (delinfo_if p t var).1).
Proof.
  induction t as [|n l IHl r IHr]; intros HP Hb; [done|].
  simpl in HP. apply Forall_app in HP as [Hl [Hn Hr]%Forall_cons].
  cbn [delinfo_if]. pose proof Hb as (Hbl & Hbr & _). cmp_case (n_var n) var.
  - destruct (delinfo_if p l var); simpl in *. rewrite Forall_app, Forall_cons. auto.
  - destruct (delinfo_if p r var); simpl in *. rewrite Forall_app, Forall_cons. auto.
  - case_match; simpl; [|by rewrite Forall_app, Forall_cons].
    destruct (delete_node_spec n l r Hb) as (_ & _ & ->). by rewrite Forall_app.
Qed.

Lemma delinfo_if_spec t var :
  bst t ->
  bst (delinfo_if p t var).1
  /\ to_map (delinfo_if p t var).1 = partial_alter (del_entry p) (lower var) (to_map t)
  /\ (delinfo_if p t var).2 = del_ret p (to_map t !! lower var).
Proof.
  induction t as [|n l IHl r IHr]; intros Hb.
  { simpl. rewrite lookup_empty. by split_and!. }
  pose proof Hb as (Hl & Hr & Hbl & Hbr).
  cbn [delinfo_if]. cmp_case (n_var n) var.
  - destruct (IHl Hl) as (Hb' & Hm' & Hret). pose proof (delinfo_if_nodes _ l var Hbl Hl).
    rewrite to_map_left by done. destruct (delinfo_if p l var) as [l' ret]. cbn [fst snd] in *.
    split; [done|]. split; [by apply (to_map_left_alter _ l)|done].
  - destruct (IHr Hr) as (Hb' & Hm' & Hret). pose proof (delinfo_if_nodes _ r var Hbr Hr).
    rewrite to_map_right by done. destruct (delinfo_if p r var) as [r' ret]. cbn [fst snd] in *.
    split; [done|]. split; [by apply (to_map_right_alter _ l r)|done].
  - rewrite <- Hk. assert (to_map (Node n l r) !! lower (n_var n) = Some n) as Hlk
      by apply lookup_insert_eq.
    rewrite Hlk. simpl del_ret. destruct (p n) eqn:Ep; cbn [fst snd].
    + destruct (delete_node_spec n l r Hb) as (? & -> & _). split_and!; try done.
      apply partial_alter_ext. intros x Hx. rewrite Hlk in Hx. simplify_eq.
      simpl. by rewrite Ep.
    + split_and!; try done. symmetry. apply partial_alter_id. rewrite Hlk. simpl. by rewrite Ep.
Qed.
End Delete.

(** *** In-place updates *)

Lemma tree_update_nodes P t var f :
  by_name P -> (forall n, n_var (f n) = n_var n) -> Forall P (nodes t) ->
  Forall P (nodes (tree_update t var f)).
Proof.
  intros HP Hf Ht. induction t as [|n l IHl r IHr]; [done|]. simpl in *.
  apply Forall_app in Ht as [Hl [Hn Hr]%Forall_cons].
  cmp_case (n_var n) var; simpl; rewrite Forall_app, Forall_cons; auto.
  split_and!; try done. apply (HP n); [by rewrite Hf|done].
Qed.

Lemma tree_update_spec t var f :
  bst t -> (forall n, n_var (f n) = n_var n) ->
  bst (tree_update t var f) /\ to_map (tree_update t var f) = alter f (lower var) (to_map t).
Proof.
  intros Hb Hf. induction t as [|n l IHl r IHr]; [done|].
  pose proof Hb as (Hl & Hr & Hbl & Hbr). cbn [tree_update]. cmp_case (n_var n) var.
  - destruct (IHl Hl) as (Hb' & Hm'). split; [|by apply (to_map_left_alter _ l)].
    split_and!; try done. apply tree_update_nodes; auto with nut.
  - destruct (IHr Hr) as (Hb' & Hm'). split; [|by apply (to_map_right_alter _ l r)].
    split_and!; try done. apply tree_update_nodes; auto with nut.
  - split.
    + unfold bst, before in *. simpl. by rewrite Hf.
    + rewrite <- Hk. simpl. rewrite Hf. by rewrite alter_insert_eq.
Qed.

(** ** The abstract store

    A finite map from lower-cased names to entries; each operation reads and
    writes one entry. *)

Inductive st_op :=
| OpSetInfo (now : Z) (var val : bytes)
| OpDelInfo (var : bytes)
| OpDelInfoOlder (var : bytes) (cutoff : option Z)
| OpAddEnum (now : Z) (var val : bytes)
| OpDelEnum (now : Z) (var val : bytes)
| OpAddRange (now : Z) (var : bytes) (min max : Z)
| OpDelRange (now : Z) (var : bytes) (min max : Z)
| OpSetAux (now : Z) (var auxs : bytes)
| OpSetFlags (now : Z) (var : bytes) (flag : list bytes).

Definition op_var (op : st_op) : bytes :=
  match op with
  | OpSetInfo _ v _ | OpDelInfo v | OpDelInfoOlder v _ | OpAddEnum _ v _ | OpDelEnum _ v _
  | OpAddRange _ v _ _ | OpDelRange _ v _ _ | OpSetAux _ v _ | OpSetFlags _ v _ => v
  end.

(** The C functions; [state_setflags] returns nothing. *)
Definition run_op (t : st_tree) (op : st_op) : st_tree * Z :=
  match op with
  | OpSetInfo now v val => state_setinfo now t v val
  | OpDelInfo v => state_delinfo t v
  | OpDelInfoOlder v c => state_delinfo_olderthan t v c
  | OpAddEnum now v val => state_addenum now t v val
  | OpDelEnum now v val => state_delenum now t v val
  | OpAddRange now v mn mx => state_addrange now t v mn mx
  | OpDelRange now v mn mx => state_delrange now t v mn mx
  | OpSetAux now v a => state_setaux now t v a
  | OpSetFlags now v fl => (state_setflags now t v fl, 0)
  end.

Local Abbreviation touch := st_tree_node_refresh_timestamp.

(** What an operation makes of the entry it is about, and what it returns. *)
Definition entry_op (op : st_op) (o : option st_node) : option st_node * Z :=
  match op, o with
  | OpSetInfo now v val, _ => let '(n, r) := setinfo_entry now o v val in (Some n, r)
  | OpDelInfo _, _ => (del_entry deletable o, del_ret deletable o)
  | OpDelInfoOlder _ c, _ =>
      (del_entry (deletable_olderthan c) o, del_ret (deletable_olderthan c) o)
  | OpSetAux _ _ _, None => (None, -1)
  | _, None => (None, 0)
  | OpAddEnum now _ val, Some n =>
      let '(l, r) := st_tree_enum_add (n_enum_list n) (pconf_encode val ST_MAX_VALUE_LEN) in
      (Some (set_enums (touch now n) l), r)
  | OpDelEnum now _ val, Some n =>
      let '(l, r) := st_tree_del_enum (n_enum_list n) val in (Some (set_enums (touch now n) l), r)
  | OpAddRange now _ mn mx, Some n =>
      if mn >? mx then (Some n, 0) else
      let '(l, r) := st_tree_range_add (n_range_list n) mn mx in
      (Some (set_ranges (touch now n) l), r)
  | OpDelRange now _ mn mx, Some n =>
      let '(l, r) := st_tree_del_range (n_range_list n) mn mx in
      (Some (set_ranges (touch now n) l), r)
  | OpSetAux now _ a, Some n =>
      let aux := (strtol a 10).1.1 in
      if n_aux n =? aux then (Some (touch now n), 0) else (Some (set_aux (touch now n) aux), 1)
  | OpSetFlags now _ fl, Some n =>
      (Some (set_flags (touch now n) (fold_left setflags_word fl 0)), 0)
  end.

Definition map_op (m : gmap bytes st_node) (op : st_op) : gmap bytes st_node * Z :=
  let k := lower (op_var op) in
  (partial_alter (fun o => (entry_op op o).1) k m, (entry_op op (m !! k)).2).

(** An update through [state_tree_find] is the entry's change. *)
Lemma update_refines t v f g :
  bst t -> (forall n, n_var (f n) = n_var n) ->
  (forall n, to_map t !! lower v = Some n -> g (Some n) = Some (f n)) ->
  is_Some (to_map t !! lower v) ->
  bst (tree_update t v f) /\ to_map (tree_update t v f) = partial_alter g (lower v) (to_map t).
Proof.
  intros Hb Hf Hg [n Hn]. destruct (tree_update_spec t v f Hb Hf) as [? ->]. split; [done|].
  apply partial_alter_ext. intros x Hx. rewrite Hn in Hx. subst. simpl. symmetry. by apply Hg.
Qed.

Lemma run_op_refines t op :
  bst t ->
  bst (run_op t op).1 /\ to_map (run_op t op).1 = (map_op (to_map t) op).1
  /\ (run_op t op).2 = (map_op (to_map t) op).2.
Proof.
  intros Hb. unfold map_op. cbn [fst snd].
  destruct op as [now v val|v|v c|now v val|now v val|now v mn mx|now v mn mx|now v a|now v fl];
    cbn [run_op op_var].
  1: { destruct (state_setinfo_spec now t v val Hb) as (? & -> & ->).
       split; [done|]. simpl. split.
       - apply partial_alter_ext. intros x _. by destruct (setinfo_entry _ _ _ _).
       - by destruct (setinfo_entry _ _ _ _). }
  1: { rewrite delinfo_eq. by apply delinfo_if_spec. }
  1: { rewrite delinfo_olderthan_eq. by apply delinfo_if_spec. }
  all: unfold state_addenum, state_delenum, state_addrange, state_delrange, state_setaux, state_setflags;
    rewrite ?find_lookup by done;
    destruct (to_map t !! lower v) as [n|] eqn:En;
    [|try match goal with |- context [?a >? ?b] => destruct (a >? b) end;
      simpl; split_and!; try done; symmetry; apply partial_alter_id;
      rewrite En; done].
  all: simpl;
    repeat match goal with
    | |- context [let '(_, _) := ?e in _] => destruct e as [l r] eqn:El
    | |- context [if ?b then _ else _] => destruct b eqn:Eb
    end; cbn [fst snd].
  all: try match goal with
    | |- bst (tree_update ?t ?v ?f) /\ _ /\ _ =>
        match goal with |- _ /\ _ = partial_alter ?g _ _ /\ _ =>
          destruct (update_refines t v f g Hb) as [? ->]; [done| |by rewrite En|by split_and!];
          intros n' Hn'; rewrite En in Hn'; simplify_eq; simpl; rewrite ?El, ?Eb; done
        end
    end.
  split_and!; try done. symmetry. apply partial_alter_id. rewrite En. simpl. done.
Qed.

(** ** The value of an entry is the encoding of what was stored *)

Definition val_ok (n : st_node) : Prop := n_val n = pconf_encode (n_raw n) ST_MAX_VALUE_LEN.

Definition tree_wf (t : st_tree) : Prop := bst t /\ map_Forall (fun _ n => val_ok n) (to_map t).

Lemma snprintf_s_fits size s : (length s < size)%nat -> snprintf_s size s = s.
Proof. intros. apply take_ge. lia. Qed.

Lemma grow_fits size (s : bytes) :
  snprintf_s (if (size <? length s + 1)%nat then (length s + 1)%nat else size) s = s.
Proof. apply snprintf_s_fits. csplit; lia. Qed.

Lemma val_escape_raw n : n_raw (val_escape n) = n_raw n.
Proof. unfold val_escape. by case_match. Qed.

Lemma val_escape_ok n : val_ok (val_escape n).
Proof.
  unfold val_ok. rewrite val_escape_raw. unfold val_escape. case_match eqn:E.
  - by apply streq_true in E.
  - unfold n_val. simpl. by rewrite grow_fits.
Qed.

(** The stored string after [state_setinfo] reached the entry. *)
Definition setinfo_blocked (o : option st_node) (val : bytes) : bool :=
  match o with
  | Some n => has_flag (n_flags n) ST_FLAG_IMMUTABLE && negb (streq (n_raw n) val)
  | None => false
  end.

Lemma setinfo_entry_spec now o var val :
  (forall n, o = Some n -> val_ok n) ->
  let n' := (setinfo_entry now o var val).1 in
  val_ok n' /\ n_lastset n' = now
  /\ (if setinfo_blocked o val then n_raw <$> o = Some (n_raw n') else n_raw n' = val).
Proof.
  intros Hok. destruct o as [n|]; simpl.
  - specialize (Hok n eq_refl). unfold setinfo_node. simpl. destruct (streq (n_raw n) val) eqn:Eq.
    + rewrite andb_false_r. apply streq_true in Eq. by split_and!.
    + rewrite andb_true_r. destruct (has_flag _ _) eqn:Ef; simpl; [by split_and!|].
      rewrite val_escape_raw. simpl. rewrite grow_fits. split_and!; [apply val_escape_ok| |done].
      unfold val_escape. by case_match.
  - unfold setinfo_new. rewrite val_escape_raw. split_and!; [apply val_escape_ok| |done].
    unfold val_escape. by case_match.
Qed.

Lemma entry_op_ok op o n :
  (forall m, o = Some m -> val_ok m) -> (entry_op op o).1 = Some n -> val_ok n.
Proof.
  intros Hok. destruct op as [now v val| | | | | | | |]; destruct o as [m|]; simpl;
    try specialize (Hok m eq_refl);
    try (intros; simplify_eq; done);
    try (unfold del_entry; case_match; intros; by simplify_eq).
  - pose proof (setinfo_entry_spec now (Some m) v val) as Hs. simpl in Hs.
    destruct (setinfo_node now m val) as [n' r]. simpl in *. intros [= <-].
    apply Hs. by intros ? [= <-].
  - intros [= <-]. apply val_escape_ok.
  - destruct (st_tree_enum_add _ _). by intros [= <-].
  - destruct (st_tree_del_enum _ _). by intros [= <-].
  - case_match; [by intros [= <-]|]. destruct (st_tree_range_add _ _ _). by intros [= <-].
  - destruct (st_tree_del_range _ _ _). by intros [= <-].
  - case_match; by intros [= <-].
Qed.

Lemma run_op_wf t op : tree_wf t -> tree_wf (run_op t op).1.
Proof.
  intros [Hb Hok]. destruct (run_op_refines t op Hb) as (Hb' & Hm & _). split; [done|].
  rewrite Hm. intros k n. simpl. destruct (decide (k = lower (op_var op))) as [->|?].
  - rewrite lookup_partial_alter_eq. apply entry_op_ok. intros m Hm'. by apply (Hok _ _ Hm').
  - rewrite lookup_partial_alter_ne by done. apply Hok.
Qed.

Lemma tree_wf_leaf : tree_wf Leaf.
Proof. split; [done|]. apply map_Forall_empty. Qed.

(** ** Sequences of operations *)

Fixpoint run_ops (t : st_tree) (ops : list st_op) : st_tree * list Z :=
  match ops with
  | [] => (t, [])
  | op :: ops' =>
      let '(t1, r) := run_op t op in
      let '(t2, rs) := run_ops t1 ops' in (t2, r :: rs)
  end.

Fixpoint map_ops (m : gmap bytes st_node) (ops : list st_op) : gmap bytes st_node * list Z :=
  match ops with
  | [] => (m, [])
  | op :: ops' =>
      let '(m1, r) := map_op m op in
      let '(m2, rs) := map_ops m1 ops' in (m2, r :: rs)
  end.

Lemma run_ops_refines ops t :
  tree_wf t ->
  tree_wf (run_ops t ops).1 /\ to_map (run_ops t ops).1 = (map_ops (to_map t) ops).1
  /\ (run_ops t ops).2 = (map_ops (to_map t) ops).2.
Proof.
  revert t. induction ops as [|op ops IH]; intros t Hwf; [done|]. simpl.
  pose proof (run_op_wf t op Hwf) as Hwf'. destruct (run_op_refines t op (proj1 Hwf)) as (_ & Hm & Hr).
  destruct (run_op t op) as [t1 r]. cbn [fst snd] in *. destruct (IH t1 Hwf') as (? & Hm2 & Hr2).
  rewrite Hm in Hm2, Hr2. unfold map_op in *. cbn [fst snd] in *.
  destruct (run_ops t1 ops), (map_ops _ ops). cbn [fst snd] in *. by subst.
Qed.

(** ** In-order traversal is strictly sorted *)

Lemma sorted_app {A} (R : A -> A -> Prop) l1 l2 :
  StronglySorted R l1 -> StronglySorted R l2 -> (forall x y, x ∈ l1 -> y ∈ l2 -> R x y) ->
  StronglySorted R (l1 ++ l2).
Proof.
  intros H1 H2 H12. induction H1 as [|x l1 H1 IH Hx]; [done|]. simpl. constructor.
  - apply IH. intros. apply H12; [|done]. by apply list_elem_of_further.
  - apply Forall_app. split; [done|]. apply Forall_forall. intros y Hy. apply H12; [left|done].
Qed.

Lemma bst_sorted t : bst t -> StronglySorted before (nodes t).
Proof.
  induction t as [|n l IHl r IHr]; intros Hb; [constructor|]. simpl.
  pose proof Hb as (Hl & Hr & Hbl & Hbr). apply sorted_app; [auto|constructor; auto|].
  rewrite Forall_forall in Hbl. intros x y Hx [->|Hy]%elem_of_cons; [by apply Hbl|].
  by eapply bst_children.
Qed.

Lemma nodes_to_map t n : bst t -> n ∈ nodes t -> to_map t !! lower (n_var n) = Some n.
Proof.
  induction t as [|m l IHl r IHr]; intros Hb; simpl nodes; [by intros ?%elem_of_nil|].
  pose proof Hb as (Hl & Hr & Hbl & Hbr). rewrite Forall_forall in Hbl, Hbr.
  rewrite elem_of_app, elem_of_cons. intros [Hn|[->|Hn]].
  - rewrite to_map_left by (try done; by apply Hbl). auto.
  - simpl. apply lookup_insert_eq.
  - rewrite to_map_right by (try done; by apply Hbr). auto.
Qed.

(** ** Theorems on the tree *)

(** C26. The variable tree implements a finite map keyed by the lower-cased name:
    whatever sequence of the nine mutating operations of state.c is run from the empty tree,
    the tree stays a strict search tree whose in-order traversal is sorted by
    [strcasecmp], it represents the map obtained by running the same operations
    on that map, every operation returns what its map counterpart returns, and
    every lookup reads the map, whatever the case of the name. *)
Theorem state_ops_refine_map ops :
  let t := (run_ops Leaf ops).1 in
  let m := (map_ops ∅ ops).1 in
  bst t /\ StronglySorted before (nodes t) /\ to_map t = m
  /\ (run_ops Leaf ops).2 = (map_ops ∅ ops).2
  /\ (forall v, state_tree_find t v = m !! lower v).
Proof.
  cbv zeta. destruct (run_ops_refines ops Leaf tree_wf_leaf) as ([Hb _] & Hm & Hr).
  cbn [to_map] in *. split_and!; try done; [by apply bst_sorted|].
  intros v. by rewrite find_lookup, Hm.
Qed.

Lemma setinfo_lookup now t v val w :
  tree_wf t ->
  state_tree_find (state_setinfo now t v val).1 w
  = if decide (lower w = lower v) then Some (setinfo_entry now (state_tree_find t v) v val).1
    else state_tree_find t w.
Proof.
  intros [Hb _]. destruct (state_setinfo_spec now t v val Hb) as (Hb' & Hm & _).
  rewrite !find_lookup by done. rewrite Hm. case_decide as E.
  - by rewrite E, lookup_partial_alter_eq.
  - by rewrite lookup_partial_alter_ne.
Qed.

(** Storing then reading: after [state_setinfo] of a value, [state_getinfo] of
    the same name in any case returns the value in its escaped form (cut at 255
    characters), with the timestamp refreshed, unless the entry is immutable and
    holds another value, in which case the old text is kept; every other name
    reads as before. *)
Theorem state_getinfo_setinfo now t v val w :
  tree_wf t ->
  state_getinfo (state_setinfo now t v val).1 w
  = if decide (lower w = lower v) then
      if setinfo_blocked (state_tree_find t v) val then state_getinfo t v
      else Some (pconf_encode val ST_MAX_VALUE_LEN)
    else state_getinfo t w.
Proof.
  intros Hwf. unfold state_getinfo. rewrite setinfo_lookup by done. case_decide as E; [|done].
  destruct Hwf as [Hb Hok]. rewrite find_lookup by done.
  destruct (setinfo_entry_spec now (to_map t !! lower v) v val) as (Hok' & _ & Hraw).
  { intros n Hn. by apply (Hok _ _ Hn). }
  simpl. rewrite Hok'. destruct (setinfo_blocked _ _).
  - destruct (to_map t !! lower v) as [n|] eqn:En; [|done]. simpl in *.
    pose proof (Hok _ _ En) as Hn. cbv beta in Hn. rewrite Hn. congruence.
  - by rewrite Hraw.
Qed.

Lemma state_getinfo_setinfo_witness :
  let t := (run_ops Leaf [OpSetInfo 0 ($"ups.status") ($"OL"); OpSetInfo 1 ($"battery.charge") ($"90")]).1 in
  tree_wf t /\ state_getinfo (state_setinfo 5 t ($"UPS.status") ($"a#b")).1 ($"ups.Status") = Some ($"a\#b").
Proof.
  intros t. assert (tree_wf t) as Ht by apply (run_ops_refines _ Leaf tree_wf_leaf).
  split; [exact Ht|].
  exact (eq_trans (state_getinfo_setinfo 5 t ($"UPS.status") ($"a#b") ($"ups.Status") Ht) eq_refl).
Defined.

Lemma delinfo_if_keeps p t v n :
  bst t -> state_tree_find t v = Some n -> p n = false ->
  (delinfo_if p t v).2 = 0 /\ state_tree_find (delinfo_if p t v).1 v = Some n.
Proof.
  intros Hb Hf Hp. destruct (delinfo_if_spec p t v Hb) as (Hb' & Hm & ->).
  rewrite find_lookup in * by done. rewrite Hm, lookup_partial_alter_eq, Hf. simpl. by rewrite Hp.
Qed.

(** An entry flagged immutable (a driver's override) survives the operations
    that carry new data: its text is unchanged by [state_setinfo] and by both
    deletions, which report 0 entries removed. *)
Theorem immutable_entry_survives now t v val cutoff n :
  tree_wf t -> state_tree_find t v = Some n -> has_flag (n_flags n) ST_FLAG_IMMUTABLE = true ->
  state_getinfo (state_setinfo now t v val).1 v = Some (n_val n)
  /\ (state_delinfo t v).2 = 0 /\ state_getinfo (state_delinfo t v).1 v = Some (n_val n)
  /\ (state_delinfo_olderthan t v cutoff).2 = 0
  /\ state_getinfo (state_delinfo_olderthan t v cutoff).1 v = Some (n_val n).
Proof.
  intros Hwf Hf Hi. pose proof Hwf as [Hb Hok].
  assert (deletable n = false) as Hd by (unfold deletable; by rewrite Hi).
  split.
  - unfold state_getinfo. rewrite setinfo_lookup, decide_True, Hf by done. simpl.
    unfold setinfo_node. simpl. rewrite Hi. by destruct (streq _ _).
  - unfold state_getinfo. rewrite delinfo_eq, delinfo_olderthan_eq.
    destruct (delinfo_if_keeps deletable t v n Hb Hf Hd) as [-> ->].
    destruct (delinfo_if_keeps (deletable_olderthan cutoff) t v n Hb Hf) as [-> ->]; [|done].
    unfold deletable_olderthan. by rewrite Hd.
Qed.

Lemma immutable_entry_survives_witness :
  let t := Node (set_flags (setinfo_new 0 ($"ups.load") ($"42")) ST_FLAG_IMMUTABLE) Leaf Leaf in
  state_getinfo (state_setinfo 9 t ($"ups.load") ($"43")).1 ($"ups.load") = Some ($"42")
  /\ (state_delinfo t ($"ups.load")).2 = 0.
Proof.
  intros t. assert (tree_wf t) as Ht.
  { split; [repeat constructor|]. unfold t. cbn [to_map].
    apply map_Forall_insert_2; [reflexivity|].
    rewrite (left_id_L ∅ (∪)). apply map_Forall_empty. }
  destruct (immutable_entry_survives 9 t ($"ups.load") ($"43") None _ Ht eq_refl eq_refl)
    as (H1 & H2 & _).
  split; [exact H1|exact H2].
Defined.

(** A bound shared with an existing range makes [state_addrange] treat the new
    range as already present: it is dropped and 0 is returned even though the
    list holds no such range. *)
Theorem range_sharing_a_bound_is_dropped l a b mn mx :
  (a, b) ∈ l -> a = mn \/ b = mx -> st_tree_range_add l mn mx = (l, 0).
Proof.
  intros Hin Hab. induction l as [|[c d] l IH]; [by apply elem_of_nil in Hin|]. simpl.
  apply elem_of_cons in Hin as [[= <- <-]|Hin].
  - assert (negb (a =? mn) && negb (b =? mx) = false) as ->; [|done].
    apply andb_false_iff. destruct Hab as [->| ->]; rewrite Z.eqb_refl; auto.
  - destruct (negb (c =? mn) && negb (d =? mx)); [|done]. by rewrite IH.
Qed.

Lemma range_sharing_a_bound_is_dropped_witness :
  st_tree_range_add [(10, 20)] 10 30 = ([(10, 20)], 0) /\ (10, 30) ∉ [(10, 20)].
Proof.
  split; [|by intros [[=]|?%elem_of_nil]%elem_of_cons].
  apply (range_sharing_a_bound_is_dropped _ 10 20); [left|by left].
Defined.

(** ** The command list *)

Definition cmd_before (a b : bytes) : Prop := strcasecmp a b < 0.

Definition cmds_ok (l : list bytes) : Prop := StronglySorted cmd_before l.

(** The commands of a list, up to case. *)
Definition cmd_set (l : list bytes) : gset bytes := list_to_set (lower <$> l).

Lemma cmd_set_cons x l : cmd_set (x :: l) = {[lower x]} ∪ cmd_set l.
Proof. done. Qed.

Lemma cmd_set_nil : cmd_set [] = ∅.
Proof. done. Qed.

Lemma cmd_before_all l a b :
  strcasecmp a b < 0 -> Forall (cmd_before b) l -> Forall (cmd_before a) l.
Proof. intros Hab Hl. eapply Forall_impl; [exact Hl|]. intros c. by apply strcasecmp_trans. Qed.

Lemma cmd_before_notin l a : Forall (cmd_before a) l -> lower a ∉ cmd_set l.
Proof.
  intros Hl. unfold cmd_set. rewrite elem_of_list_to_set, list_elem_of_fmap.
  intros (b & Heq & Hb). rewrite Forall_forall in Hl. specialize (Hl _ Hb).
  apply strcasecmp_eq in Heq. unfold cmd_before in Hl. lia.
Qed.

Lemma addcmd_spec l cmd :
  cmds_ok l ->
  cmds_ok (state_addcmd l cmd).1
  /\ cmd_set (state_addcmd l cmd).1 = {[lower cmd]} ∪ cmd_set l
  /\ (state_addcmd l cmd).2 = Zbool (bool_decide (lower cmd ∉ cmd_set l))
  /\ (forall a, strcasecmp a cmd < 0 -> Forall (cmd_before a) l ->
      Forall (cmd_before a) (state_addcmd l cmd).1).
Proof.
  intros Hl. induction Hl as [|x l Hl IH Hx].
  { simpl. split_and!; [repeat constructor|cbn [fst]; rewrite ?cmd_set_cons, ?cmd_set_nil; set_solver|done|auto]. }
  cbn [state_addcmd]. cmp_case x cmd.
  - assert (Forall (cmd_before cmd) (x :: l)) as Hall.
    { constructor; [done|]. by apply (cmd_before_all l cmd x). }
    split_and!; [constructor; [by constructor|done]|cbn [fst]; rewrite ?cmd_set_cons, ?cmd_set_nil; set_solver|
      |by intros a Ha Hal; constructor].
    simpl. rewrite bool_decide_eq_true_2; [done|]. by apply cmd_before_notin.
  - destruct IH as (Hs & Hset & Hret & Hall). destruct (state_addcmd l cmd) as [l' r]. simpl in *.
    split_and!.
    + constructor; auto.
    + cbn [fst]; rewrite ?cmd_set_cons. rewrite Hset. clear. set_solver.
    + rewrite Hret. f_equal. apply bool_decide_ext. rewrite cmd_set_cons. set_solver.
    + intros a Ha Hax. inversion Hax. auto.
  - split_and!; [by constructor|cbn [fst]; rewrite ?cmd_set_cons, ?cmd_set_nil; rewrite Hk; set_solver| |auto].
    simpl. rewrite bool_decide_eq_false_2; [done|]. rewrite cmd_set_cons. set_solver.
Qed.

Lemma delcmd_spec l cmd :
  cmds_ok l ->
  cmds_ok (state_delcmd l cmd).1
  /\ cmd_set (state_delcmd l cmd).1 = cmd_set l ∖ {[lower cmd]}
  /\ (state_delcmd l cmd).2 = Zbool (bool_decide (lower cmd ∈ cmd_set l))
  /\ (forall a, Forall (cmd_before a) l -> Forall (cmd_before a) (state_delcmd l cmd).1).
Proof.
  intros Hl. induction Hl as [|x l Hl IH Hx].
  { simpl. split_and!; [constructor|cbn [fst]; rewrite ?cmd_set_cons, ?cmd_set_nil; set_solver|done|auto]. }
  cbn [state_delcmd]. pose proof (cmd_before_notin _ _ Hx) as Hni. cmp_case x cmd.
  - assert (lower cmd ∉ cmd_set (x :: l)) as Hnin.
    { apply cmd_before_notin. constructor; [done|]. by apply (cmd_before_all l cmd x). }
    split_and!; [by constructor|cbn [fst]; clear -Hnin; set_solver| |auto].
    simpl. by rewrite bool_decide_eq_false_2.
  - destruct IH as (Hs & Hset & Hret & Hall). destruct (state_delcmd l cmd) as [l' r]. simpl in *.
    split_and!.
    + constructor; auto.
    + cbn [fst]; rewrite ?cmd_set_cons. rewrite Hset. clear -Hk. set_solver.
    + rewrite Hret. f_equal. apply bool_decide_ext. rewrite cmd_set_cons. clear -Hk. set_solver.
    + intros a Hax. inversion Hax. auto.
  - split_and!; [done|cbn [fst]; rewrite cmd_set_cons, Hk in *; clear -Hni; set_solver| |by intros a [? ?]%Forall_cons].
    simpl. rewrite bool_decide_eq_true_2; [done|]. rewrite cmd_set_cons, Hk. clear. set_solver.
Qed.

(** A command added ([true]) or deleted. *)
Definition run_cmd (l : list bytes) (op : bool * bytes) : list bytes * Z :=
  if op.1 then state_addcmd l op.2 else state_delcmd l op.2.

Definition cmd_op (s : gset bytes) (op : bool * bytes) : gset bytes * Z :=
  let k := lower op.2 in
  if op.1 then ({[k]} ∪ s, Zbool (bool_decide (k ∉ s)))
  else (s ∖ {[k]}, Zbool (bool_decide (k ∈ s))).

(** The command list implements a finite set of names up to case: adding and
    deleting keep it strictly sorted by [strcasecmp] (so a command is listed at
    most once), change the set as the abstract operations do, and return 1
    exactly when the set changed. *)
Theorem cmdlist_refines_set ops :
  let l := fold_left (fun l op => (run_cmd l op).1) ops [] in
  let s := fold_left (fun s op => (cmd_op s op).1) ops ∅ in
  cmds_ok l /\ cmd_set l = s /\ (forall op, (run_cmd l op).2 = (cmd_op s op).2).
Proof.
  assert (forall l op, cmds_ok l -> cmds_ok (run_cmd l op).1
      /\ cmd_set (run_cmd l op).1 = (cmd_op (cmd_set l) op).1
      /\ (run_cmd l op).2 = (cmd_op (cmd_set l) op).2) as Hstep.
  { intros l [[|] c] Hl; unfold run_cmd, cmd_op; simpl;
      [destruct (addcmd_spec l c Hl) as (?&?&?&?)|destruct (delcmd_spec l c Hl) as (?&?&?&?)];
      by split_and!. }
  assert (forall l s, cmds_ok l -> cmd_set l = s ->
    cmds_ok (fold_left (fun l op => (run_cmd l op).1) ops l)
    /\ cmd_set (fold_left (fun l op => (run_cmd l op).1) ops l)
       = fold_left (fun s op => (cmd_op s op).1) ops s) as Hall.
  { induction ops as [|op ops IH]; intros l s Hl Hs; [done|]. simpl.
    destruct (Hstep l op Hl) as (? & ? & _). apply IH; [done|]. by rewrite <- Hs. }
  destruct (Hall [] ∅) as [Hok Hset]; [constructor|done|]. cbv zeta.
  split; [exact Hok|]. split; [exact Hset|]. intros op. rewrite <- Hset. by apply Hstep.
Qed.
