(* ===== verification/World.v ===== *)
(** * The state of upsd and its error monad

    The globals of the server: the lists [firstups] and [firstclient], the users,
    the descriptions, the status tracking; and what the system gives it: the
    clock, the results of [rand()] and the outcomes of the system calls.

    A handler has type [M A]: it maps a world to a result and a new world, or to
    [None] when the code would follow a pointer to a client or a UPS that is not
    in the lists.  [wp] is the total-correctness predicate over it, so that a
    [wp] theorem also says that this does not happen. *)

From S2P Require Import Prelude CStr ParseConf StateTree Users Desc Tracking.
From stdpp Require Import options.

(** ** The data *)

(** upstype.h.  [u_conn] is [VALID_FD(sock_fd)]. *)
Record upstype := mkUps {
  u_name : bytes;
  u_fn : bytes;
  u_desc : option bytes;
  u_conn : bool;
  u_stale : Z;
  u_dumpdone : Z;
  u_data_ok : Z;
  u_last_heard : Z;
  u_last_ping : Z;
  u_last_connfail : Z;
  u_sock_ctx : PCONF_CTX;
  u_inforoot : st_tree;
  u_cmdlist : list bytes;
  u_numlogins : Z;
  u_fsd : Z;
  u_retain : Z
}.

Definition set_u_conn (u : upstype) x := mkUps (u_name u) (u_fn u) (u_desc u) x (u_stale u)
  (u_dumpdone u) (u_data_ok u) (u_last_heard u) (u_last_ping u) (u_last_connfail u) (u_sock_ctx
  u) (u_inforoot u) (u_cmdlist u) (u_numlogins u) (u_fsd u) (u_retain u).
Definition set_u_stale (u : upstype) x := mkUps (u_name u) (u_fn u) (u_desc u) (u_conn u) x
  (u_dumpdone u) (u_data_ok u) (u_last_heard u) (u_last_ping u) (u_last_connfail u) (u_sock_ctx
  u) (u_inforoot u) (u_cmdlist u) (u_numlogins u) (u_fsd u) (u_retain u).
Definition set_u_dumpdone (u : upstype) x := mkUps (u_name u) (u_fn u) (u_desc u) (u_conn u)
  (u_stale u) x (u_data_ok u) (u_last_heard u) (u_last_ping u) (u_last_connfail u) (u_sock_ctx
  u) (u_inforoot u) (u_cmdlist u) (u_numlogins u) (u_fsd u) (u_retain u).
Definition set_u_data_ok (u : upstype) x := mkUps (u_name u) (u_fn u) (u_desc u) (u_conn u)
  (u_stale u) (u_dumpdone u) x (u_last_heard u) (u_last_ping u) (u_last_connfail u) (u_sock_ctx
  u) (u_inforoot u) (u_cmdlist u) (u_numlogins u) (u_fsd u) (u_retain u).
Definition set_u_last_heard (u : upstype) x := mkUps (u_name u) (u_fn u) (u_desc u) (u_conn u)
  (u_stale u) (u_dumpdone u) (u_data_ok u) x (u_last_ping u) (u_last_connfail u) (u_sock_ctx u)
  (u_inforoot u) (u_cmdlist u) (u_numlogins u) (u_fsd u) (u_retain u).
Definition set_u_last_ping (u : upstype) x := mkUps (u_name u) (u_fn u) (u_desc u) (u_conn u)
  (u_stale u) (u_dumpdone u) (u_data_ok u) (u_last_heard u) x (u_last_connfail u) (u_sock_ctx u)
  (u_inforoot u) (u_cmdlist u) (u_numlogins u) (u_fsd u) (u_retain u).
Definition set_u_last_connfail (u : upstype) x := mkUps (u_name u) (u_fn u) (u_desc u) (u_conn
  u) (u_stale u) (u_dumpdone u) (u_data_ok u) (u_last_heard u) (u_last_ping u) x (u_sock_ctx u)
  (u_inforoot u) (u_cmdlist u) (u_numlogins u) (u_fsd u) (u_retain u).
Definition set_u_sock_ctx (u : upstype) x := mkUps (u_name u) (u_fn u) (u_desc u) (u_conn u)
  (u_stale u) (u_dumpdone u) (u_data_ok u) (u_last_heard u) (u_last_ping u) (u_last_connfail u)
  x (u_inforoot u) (u_cmdlist u) (u_numlogins u) (u_fsd u) (u_retain u).
Definition set_u_inforoot (u : upstype) x := mkUps (u_name u) (u_fn u) (u_desc u) (u_conn u)
  (u_stale u) (u_dumpdone u) (u_data_ok u) (u_last_heard u) (u_last_ping u) (u_last_connfail u)
  (u_sock_ctx u) x (u_cmdlist u) (u_numlogins u) (u_fsd u) (u_retain u).
Definition set_u_cmdlist (u : upstype) x := mkUps (u_name u) (u_fn u) (u_desc u) (u_conn u)
  (u_stale u) (u_dumpdone u) (u_data_ok u) (u_last_heard u) (u_last_ping u) (u_last_connfail u)
  (u_sock_ctx u) (u_inforoot u) x (u_numlogins u) (u_fsd u) (u_retain u).
Definition set_u_numlogins (u : upstype) x := mkUps (u_name u) (u_fn u) (u_desc u) (u_conn u)
  (u_stale u) (u_dumpdone u) (u_data_ok u) (u_last_heard u) (u_last_ping u) (u_last_connfail u)
  (u_sock_ctx u) (u_inforoot u) (u_cmdlist u) x (u_fsd u) (u_retain u).
Definition set_u_fsd (u : upstype) x := mkUps (u_name u) (u_fn u) (u_desc u) (u_conn u) (u_stale
  u) (u_dumpdone u) (u_data_ok u) (u_last_heard u) (u_last_ping u) (u_last_connfail u)
  (u_sock_ctx u) (u_inforoot u) (u_cmdlist u) (u_numlogins u) x (u_retain u).

(** nut_ctype.h.  [c_id] stands for the address of the structure; the SSL members are
    those of a build without SSL. *)
Record nut_ctype := mkClient {
  c_id : nat;
  c_addr : bytes;
  c_last_heard : Z;
  c_loginups : option bytes;
  c_password : option bytes;
  c_username : option bytes;
  c_tracking : Z;
  c_ctx : PCONF_CTX
}.

Definition set_c_last_heard (c : nut_ctype) x := mkClient (c_id c) (c_addr c) x (c_loginups c)
  (c_password c) (c_username c) (c_tracking c) (c_ctx c).
Definition set_c_loginups (c : nut_ctype) x := mkClient (c_id c) (c_addr c) (c_last_heard c) x
  (c_password c) (c_username c) (c_tracking c) (c_ctx c).
Definition set_c_password (c : nut_ctype) x := mkClient (c_id c) (c_addr c) (c_last_heard c)
  (c_loginups c) x (c_username c) (c_tracking c) (c_ctx c).
Definition set_c_username (c : nut_ctype) x := mkClient (c_id c) (c_addr c) (c_last_heard c)
  (c_loginups c) (c_password c) x (c_tracking c) (c_ctx c).
Definition set_c_tracking (c : nut_ctype) x := mkClient (c_id c) (c_addr c) (c_last_heard c)
  (c_loginups c) (c_password c) (c_username c) x (c_ctx c).
Definition set_c_ctx (c : nut_ctype) x := mkClient (c_id c) (c_addr c) (c_last_heard c)
  (c_loginups c) (c_password c) (c_username c) (c_tracking c) x.

(** What is written to a socket, and whether the whole of it was. *)
Inductive output :=
| ToClient (id : nat) (ans : bytes) (ok : bool)
| ToDriver (ups : nat) (line : bytes) (ok : bool).

(** Settings of upsd.conf and of the build. *)
Record config := mkConfig {
  maxage : Z;
  tracking_delay : Z;
  UPS_VERSION : bytes;
  PACKAGE_URL : option bytes
}.

(** [w_rand] holds the next results of [rand()] (then 0); [w_sys] the outcomes of the
    next system calls that can fail (then success); [w_out] what was sent, oldest first. *)
Record world := mkWorld {
  w_ups : list upstype;
  w_clients : list nut_ctype;
  w_next_id : nat;
  w_users : user_state;
  w_desc : desc_state;
  w_tracking : list tracking_t;
  w_tracking_enabled : Z;
  w_now : Z;
  w_rand : list Z;
  w_sys : list bool;
  w_out : list output;
  w_conf : config
}.

Definition set_w_ups (w : world) x := mkWorld x (w_clients w) (w_next_id w) (w_users w) (w_desc
  w) (w_tracking w) (w_tracking_enabled w) (w_now w) (w_rand w) (w_sys w) (w_out w) (w_conf w).
Definition set_w_clients (w : world) x := mkWorld (w_ups w) x (w_next_id w) (w_users w) (w_desc
  w) (w_tracking w) (w_tracking_enabled w) (w_now w) (w_rand w) (w_sys w) (w_out w) (w_conf w).
Definition set_w_next_id (w : world) x := mkWorld (w_ups w) (w_clients w) x (w_users w) (w_desc
  w) (w_tracking w) (w_tracking_enabled w) (w_now w) (w_rand w) (w_sys w) (w_out w) (w_conf w).
Definition set_w_users (w : world) x := mkWorld (w_ups w) (w_clients w) (w_next_id w) x (w_desc
  w) (w_tracking w) (w_tracking_enabled w) (w_now w) (w_rand w) (w_sys w) (w_out w) (w_conf w).
Definition set_w_tracking (w : world) x := mkWorld (w_ups w) (w_clients w) (w_next_id w)
  (w_users w) (w_desc w) x (w_tracking_enabled w) (w_now w) (w_rand w) (w_sys w) (w_out w)
  (w_conf w).
Definition set_w_tracking_enabled (w : world) x := mkWorld (w_ups w) (w_clients w) (w_next_id w)
  (w_users w) (w_desc w) (w_tracking w) x (w_now w) (w_rand w) (w_sys w) (w_out w) (w_conf w).
Definition set_w_now (w : world) x := mkWorld (w_ups w) (w_clients w) (w_next_id w) (w_users w)
  (w_desc w) (w_tracking w) (w_tracking_enabled w) x (w_rand w) (w_sys w) (w_out w) (w_conf w).
Definition set_w_rand (w : world) x := mkWorld (w_ups w) (w_clients w) (w_next_id w) (w_users w)
  (w_desc w) (w_tracking w) (w_tracking_enabled w) (w_now w) x (w_sys w) (w_out w) (w_conf w).
Definition set_w_sys (w : world) x := mkWorld (w_ups w) (w_clients w) (w_next_id w) (w_users w)
  (w_desc w) (w_tracking w) (w_tracking_enabled w) (w_now w) (w_rand w) x (w_out w) (w_conf w).
Definition set_w_out (w : world) x := mkWorld (w_ups w) (w_clients w) (w_next_id w) (w_users w)
  (w_desc w) (w_tracking w) (w_tracking_enabled w) (w_now w) (w_rand w) (w_sys w) x (w_conf w).

(** ** The monad *)

Definition M (A : Type) : Type := world -> option (A * world).

#[export] Instance M_ret : MRet M := fun A a w => Some (a, w).
#[export] Instance M_bind : MBind M := fun A B f m w =>
  match m w with Some (a, w') => f a w' | None => None end.

Definition fail {A} : M A := fun _ => None.
Definition get {A} (f : world -> A) : M A := fun w => Some (f w, w).
Definition modify (f : world -> world) : M unit := fun w => Some (tt, f w).
Definition of_option {A} (o : option A) : M A := fun w => (fun a => (a, w)) <$> o.

(** [if (b) m] *)
Definition when (b : bool) (m : M unit) : M unit := if b then m else mret tt.

(** [for (x = list; x; x = x->next) body] *)
Fixpoint for_each {A} (l : list A) (body : A -> M unit) : M unit :=
  match l with [] => mret tt | x :: l' => body x ;; for_each l' body end.

(** *** Pointers *)

Definition client_find (cl : nat) (l : list nut_ctype) : option nut_ctype :=
  find (fun c => (c_id c =? cl)%nat) l.

Definition client_get (cl : nat) : M nut_ctype :=
  fun w => (fun c => (c, w)) <$> client_find cl (w_clients w).

Definition client_alter (cl : nat) (f : nut_ctype -> nut_ctype) (l : list nut_ctype) : list nut_ctype :=
  map (fun c => if (c_id c =? cl)%nat then f c else c) l.

(** An assignment to members of [*client]. *)
Definition client_upd (cl : nat) (f : nut_ctype -> nut_ctype) : M unit :=
  _ ← client_get cl;
  modify (fun w => set_w_clients w (client_alter cl f (w_clients w))).

(** A [upstype_t *] is the position in [firstups]. *)
Definition ups_get (i : nat) : M upstype := fun w => (fun u => (u, w)) <$> w_ups w !! i.

Definition ups_upd (i : nat) (f : upstype -> upstype) : M unit :=
  _ ← ups_get i;
  modify (fun w => set_w_ups w (alter f i (w_ups w))).

(** *** The system *)

Definition time : M Z := get w_now.

Definition rand : M Z := fun w =>
  match w_rand w with
  | [] => Some (0, w)
  | r :: rs => Some (r, set_w_rand w rs)
  end.

(** Does the next system call succeed? *)
Definition syscall : M bool := fun w =>
  match w_sys w with
  | [] => Some (true, w)
  | b :: bs => Some (b, set_w_sys w bs)
  end.

Definition emit (o : output) : M unit := modify (fun w => set_w_out w (w_out w ++ [o])).

(** ** Total correctness *)

Definition wp {A} (m : M A) (Q : A -> world -> Prop) (w : world) : Prop :=
  match m w with Some (a, w') => Q a w' | None => False end.

Lemma wp_ret {A} (a : A) Q w : Q a w -> wp (mret a) Q w.
Proof. done. Qed.

Lemma wp_bind {A B} (m : M A) (f : A -> M B) Q w :
  wp m (fun a => wp (f a) Q) w -> wp (m ≫= f) Q w.
Proof. unfold wp, mbind, M_bind. by destruct (m w) as [[a w']|]. Qed.

Lemma wp_bind_inv {A B} (m : M A) (f : A -> M B) Q w :
  wp (m ≫= f) Q w -> wp m (fun a => wp (f a) Q) w.
Proof. unfold wp, mbind, M_bind. by destruct (m w) as [[a w']|]. Qed.

Lemma wp_mono {A} (m : M A) (P Q : A -> world -> Prop) w :
  wp m P w -> (forall a w', P a w' -> Q a w') -> wp m Q w.
Proof. unfold wp. destruct (m w) as [[a w']|]; auto. Qed.

Lemma wp_get {A} (f : world -> A) Q w : Q (f w) w -> wp (get f) Q w.
Proof. done. Qed.

Lemma wp_modify f Q w : Q tt (f w) -> wp (modify f) Q w.
Proof. done. Qed.

Lemma wp_when (b : bool) m Q w : (if b then wp m Q w else Q tt w) -> wp (when b m) Q w.
Proof. by destruct b. Qed.

Lemma wp_client_get cl c Q w :
  client_find cl (w_clients w) = Some c -> Q c w -> wp (client_get cl) Q w.
Proof. unfold wp, client_get. by intros ->. Qed.

Lemma wp_ups_get i u Q w : w_ups w !! i = Some u -> Q u w -> wp (ups_get i) Q w.
Proof. unfold wp, ups_get. by intros ->. Qed.
