(* ===== verification/SState.v ===== *)
(** * server/sstate.c: the server's copy of a driver's state

    Commands that arrive on the driver's socket update the variable tree, the
    command list and the flags of the UPS.  A [upstype_t *] is never [NULL] here. *)

From S2P Require Import Prelude CStr ParseConf StateTree Tracking World.
From stdpp Require Import options.

Definition SS_CONNFAIL_INT : Z := 300.

Definition upd_tree (ups : nat) (f : st_tree -> st_tree) : M unit :=
  ups_upd ups (fun u => set_u_inforoot u (f (u_inforoot u))).

Definition upd_cmds (ups : nat) (f : list bytes -> list bytes) : M unit :=
  ups_upd ups (fun u => set_u_cmdlist u (f (u_cmdlist u))).

Definition parse_args (ups : nat) (arg : list bytes) : M Z :=
  now ← time;
  match arg with
  | [] => mret 0
  | a0 :: arg1 =>
      if strcaseeq a0 ($"PONG") then mret 1
      else if strcaseeq a0 ($"DUMPDONE") then ups_upd ups (fun u => set_u_dumpdone u 1) ;; mret 1
      else if strcaseeq a0 ($"DATASTALE") then ups_upd ups (fun u => set_u_data_ok u 0) ;; mret 1
      else if strcaseeq a0 ($"DATAOK") then ups_upd ups (fun u => set_u_data_ok u 1) ;; mret 1
      else match arg1 with
      | [] => mret 0
      | a1 :: arg2 =>
          if strcaseeq a0 ($"ADDCMD") then
            upd_cmds ups (fun l => (state_addcmd l a1).1) ;; mret 1
          else if strcaseeq a0 ($"DELCMD") then
            upd_cmds ups (fun l => (state_delcmd l a1).1) ;; mret 1
          else if strcaseeq a0 ($"DELINFO") then
            upd_tree ups (fun t => (state_delinfo t a1).1) ;; mret 1
          else match arg2 with
          | [] => mret 0
          | a2 :: arg3 =>
              if strcaseeq a0 ($"SETFLAGS") then
                upd_tree ups (fun t => state_setflags now t a1 arg2) ;; mret 1
              else if strcaseeq a0 ($"SETINFO") then
                upd_tree ups (fun t => (state_setinfo now t a1 a2).1) ;; mret 1
              else if strcaseeq a0 ($"ADDENUM") then
                upd_tree ups (fun t => (state_addenum now t a1 a2).1) ;; mret 1
              else if strcaseeq a0 ($"DELENUM") then
                upd_tree ups (fun t => (state_delenum now t a1 a2).1) ;; mret 1
              else if strcaseeq a0 ($"SETAUX") then
                upd_tree ups (fun t => (state_setaux now t a1 a2).1) ;; mret 1
              else if strcaseeq a0 ($"TRACKING") then
                modify (fun w => set_w_tracking w (tracking_set (w_tracking w) a1 a2).1) ;; mret 1
              else match arg3 with
              | [] => mret 0
              | a3 :: _ =>
                  if strcaseeq a0 ($"ADDRANGE") then
                    upd_tree ups (fun t => (state_addrange now t a1 (atoi a2) (atoi a3)).1) ;; mret 1
                  else if strcaseeq a0 ($"DELRANGE") then
                    upd_tree ups (fun t => (state_delrange now t a1 (atoi a2) (atoi a3)).1) ;; mret 1
                  else mret 0
              end
          end
      end
  end.

Definition sstate_infofree (ups : nat) : M unit := ups_upd ups (fun u => set_u_inforoot u Leaf).
Definition sstate_cmdfree (ups : nat) : M unit := ups_upd ups (fun u => set_u_cmdlist u []).

Definition sstate_disconnect (ups : nat) : M unit :=
  u ← ups_get ups;
  if negb (u_conn u) then mret tt
  else
    sstate_infofree ups ;;
    sstate_cmdfree ups ;;
    ups_upd ups (fun u => set_u_sock_ctx u (pconf_finish (u_sock_ctx u))) ;;
    ups_upd ups (fun u => set_u_conn u false).

(** [write()] of a whole line to the driver: was all of it taken? *)
Definition driver_write (ups : nat) (buf : bytes) : M bool :=
  ok ← syscall;
  emit (ToDriver ups buf ok) ;;
  mret ok.

Definition sendping (ups : nat) : M unit :=
  u ← ups_get ups;
  if negb (u_conn u) then mret tt
  else
    ok ← driver_write ups ($"PING" ++ [LF]);
    if negb ok then sstate_disconnect ups
    else
      now ← time;
      ups_upd ups (fun u => set_u_last_ping u now).

(** The new descriptor is valid ([true]) or [ERROR_FD]. *)
Definition sstate_connect (ups : nat) : M bool :=
  sock ← syscall;
  if negb sock then mret false
  else
  conn ← syscall;
  if negb conn then
    u ← ups_get ups;
    now ← time;
    if now - u_last_connfail u <? SS_CONNFAIL_INT then mret false
    else ups_upd ups (fun u => set_u_last_connfail u now) ;; mret false
  else
  getfl ← syscall;
  if negb getfl then mret false
  else
  setfl ← syscall;
  if negb setfl then mret false
  else
  ok ← driver_write ups ($"DUMPALL" ++ [LF]);
  if negb ok then mret false
  else
    now ← time;
    ups_upd ups (fun u => set_u_sock_ctx u pconf_init) ;;
    ups_upd ups (fun u => set_u_stale (set_u_dumpdone u 0) 0) ;;
    ups_upd ups (fun u => set_u_last_heard u now) ;;
    upd_tree ups (fun t => (state_setinfo now t ($"ups.status") ($"WAIT")).1) ;;
    mret true.

(** What [read()] can give: an error to retry after, another error, or the bytes. *)
Inductive read_result := ReadAgain | ReadError | ReadData (buf : bytes).

(** The loop over the bytes read. *)
Fixpoint sstate_feed (ups : nat) (buf : bytes) : M unit :=
  match buf with
  | [] => mret tt
  | ch :: buf' =>
      u ← ups_get ups;
      let '(r, ctx) := pconf_char (u_sock_ctx u) ch in
      ups_upd ups (fun u => set_u_sock_ctx u ctx) ;;
      if r =? 1 then
        ok ← parse_args ups (args ctx);
        when (negb (ok =? 0))
          (now ← time; ups_upd ups (fun u => set_u_last_heard u now)) ;;
        sstate_feed ups buf'
      else if r =? 0 then sstate_feed ups buf'
      else mret tt
  end.

Definition sstate_readline (ups : nat) (res : read_result) : M unit :=
  u ← ups_get ups;
  if negb (u_conn u) then mret tt
  else match res with
  | ReadAgain => mret tt
  | ReadError => sstate_disconnect ups
  | ReadData buf => sstate_feed ups buf
  end.

Definition sstate_getinfo (u : upstype) (var : bytes) : option bytes := state_getinfo (u_inforoot u) var.
Definition sstate_getflags (u : upstype) (var : bytes) : Z := state_getflags (u_inforoot u) var.
Definition sstate_getaux (u : upstype) (var : bytes) : Z := state_getaux (u_inforoot u) var.
Definition sstate_getenumlist (u : upstype) (var : bytes) : list bytes :=
  state_getenumlist (u_inforoot u) var.
Definition sstate_getrangelist (u : upstype) (var : bytes) : list (Z * Z) :=
  state_getrangelist (u_inforoot u) var.
Definition sstate_getcmdlist (u : upstype) : list bytes := u_cmdlist u.
Definition sstate_getnode (u : upstype) (var : bytes) : option st_node :=
  state_tree_find (u_inforoot u) var.

Definition sstate_dead (ups : nat) (arg_maxage : Z) : M Z :=
  u ← ups_get ups;
  if negb (u_conn u) then mret 1
  else
    now ← time;
    let elapsed := now - u_last_heard u in
    when ((elapsed >? Z.quot arg_maxage 3) && (now - u_last_ping u >? Z.quot arg_maxage 3))
      (sendping ups) ;;
    if elapsed >? arg_maxage + 1 then mret 1
    else if elapsed >? arg_maxage then mret 0
    else
      u ← ups_get ups;
      if negb (u_dumpdone u =? 0) && (u_data_ok u =? 0) then mret 1 else mret 0.

Definition sstate_sendline (ups : nat) (buf : bytes) : M Z :=
  u ← ups_get ups;
  if negb (u_conn u) then mret 0
  else
    ok ← driver_write ups buf;
    if (ok : bool) then mret 1
    else sstate_disconnect ups ;; mret 0.
