(* ===== verification/Upsd.v ===== *)
(** * server/upsd.c: clients, answers and the login counters

    The part of upsd.c that the protocol handlers call.  Log messages are not
    modelled.  [printf] formats are written out as concatenations. *)

From S2P Require Import Prelude CStr ParseConf StateTree Users Desc Tracking World SState.
From stdpp Require Import options.

Definition NUT_NET_ANSWER_MAX : nat := SMALLBUF.
Definition UUID4_BYTESIZE : nat := 16.
Definition UUID4_LEN : nat := 37.

(** ** neterr.h *)

Definition NUT_ERR_ACCESS_DENIED := $"ACCESS-DENIED".
Definition NUT_ERR_UNKNOWN_UPS := $"UNKNOWN-UPS".
Definition NUT_ERR_VAR_NOT_SUPPORTED := $"VAR-NOT-SUPPORTED".
Definition NUT_ERR_CMD_NOT_SUPPORTED := $"CMD-NOT-SUPPORTED".
Definition NUT_ERR_INVALID_ARGUMENT := $"INVALID-ARGUMENT".
Definition NUT_ERR_INSTCMD_FAILED := $"INSTCMD-FAILED".
Definition NUT_ERR_SET_FAILED := $"SET-FAILED".
Definition NUT_ERR_READONLY := $"READONLY".
Definition NUT_ERR_TOO_LONG := $"TOO-LONG".
Definition NUT_ERR_FEATURE_NOT_SUPPORTED := $"FEATURE-NOT-SUPPORTED".
Definition NUT_ERR_FEATURE_NOT_CONFIGURED := $"FEATURE-NOT-CONFIGURED".
Definition NUT_ERR_DRIVER_NOT_CONNECTED := $"DRIVER-NOT-CONNECTED".
Definition NUT_ERR_DATA_STALE := $"DATA-STALE".
Definition NUT_ERR_ALREADY_LOGGED_IN := $"ALREADY-LOGGED-IN".
Definition NUT_ERR_ALREADY_SET_PASSWORD := $"ALREADY-SET-PASSWORD".
Definition NUT_ERR_ALREADY_SET_USERNAME := $"ALREADY-SET-USERNAME".
Definition NUT_ERR_USERNAME_REQUIRED := $"USERNAME-REQUIRED".
Definition NUT_ERR_PASSWORD_REQUIRED := $"PASSWORD-REQUIRED".
Definition NUT_ERR_UNKNOWN_COMMAND := $"UNKNOWN-COMMAND".
Definition NUT_ERR_INVALID_VALUE := $"INVALID-VALUE".

(** ** UPS lookup *)

Fixpoint ups_find (l : list upstype) (name : bytes) : option nat :=
  match l with
  | [] => None
  | tmp :: l' => if strcaseeq (u_name tmp) name then Some 0%nat else S <$> ups_find l' name
  end.

Definition get_ups_ptr (name : bytes) : M (option nat) := get (fun w => ups_find (w_ups w) name).

Definition ups_data_stale (ups : nat) : M unit :=
  u ← ups_get ups;
  if u_stale u =? 1 then mret tt else ups_upd ups (fun u => set_u_stale u 1).

Definition ups_data_ok (ups : nat) : M unit :=
  u ← ups_get ups;
  if u_stale u =? 0 then mret tt else ups_upd ups (fun u => set_u_stale u 0).

(** decrement the login counter for this ups *)
Definition declogins (upsname : bytes) : M unit :=
  ups ← get_ups_ptr upsname;
  match ups with
  | None => mret tt
  | Some i => ups_upd i (fun u => set_u_numlogins u (u_numlogins u - 1))
  end.

(** ** Clients *)

(** The structure is unlinked and freed. *)
Definition client_disconnect (cl : nat) : M unit :=
  client ← client_get cl;
  match c_loginups client with
  | Some upsname => declogins upsname
  | None => mret tt
  end ;;
  modify (fun w => set_w_clients w (filter (fun c => c_id c <> cl) (w_clients w))).

(** [ans] is cut to the buffer; a failed or short write marks the client for disconnection. *)
Definition sendback (cl : nat) (msg : bytes) : M Z :=
  _ ← client_get cl;
  let ans := snprintf_s (NUT_NET_ANSWER_MAX + 1) msg in
  ok ← syscall;
  emit (ToClient cl ans ok) ;;
  if negb ok then client_upd cl (fun c => set_c_last_heard c 0) ;; mret 0
  else mret 1.

Definition send_err (cl : nat) (errtype : bytes) : M Z :=
  sendback cl ($"ERR " ++ errtype ++ [LF]).

Definition send_err_extra (cl : nat) (errtype : bytes) (extra : option bytes) : M Z :=
  match extra with
  | None => send_err cl errtype
  | Some extra => sendback cl ($"ERR " ++ errtype ++ $" " ++ extra ++ [LF])
  end.

(** a handler that sends one line and returns *)
Definition reply (cl : nat) (msg : bytes) : M unit := sendback cl msg ;; mret tt.
Definition reply_err (cl : nat) (errtype : bytes) : M unit := send_err cl errtype ;; mret tt.

(** disconnect anyone logged into this UPS *)
Definition kick_login_clients (upsname : bytes) : M unit :=
  clients ← get w_clients;
  for_each (c_id <$> clients) (fun cl =>
    client ← client_get cl;
    match c_loginups client with
    | None => mret tt
    | Some l => when (streq l upsname) (client_disconnect cl)
    end).

Definition ups_available (ups : nat) (cl : nat) : M Z :=
  u ← ups_get ups;
  if negb (u_conn u) then send_err cl NUT_ERR_DRIVER_NOT_CONNECTED ;; mret 0
  else if negb (u_stale u =? 0) then send_err cl NUT_ERR_DATA_STALE ;; mret 0
  else mret 1.

(** [addr] is the peer of the accepted connection, [None] when [accept] failed. *)
Definition client_connect (addr : option bytes) : M unit :=
  match addr with
  | None => mret tt
  | Some addr =>
      now ← time;
      id ← get w_next_id;
      modify (fun w => set_w_next_id w (S id)) ;;
      modify (fun w => set_w_clients w
        (mkClient id addr now None None None 0 pconf_init :: w_clients w))
  end.

Definition client_free : M unit :=
  clients ← get w_clients;
  for_each (c_id <$> clients) client_disconnect.

(** The oldest so far and the rest of the list. *)
Fixpoint oldest_client (oldest : option nut_ctype) (l : list nut_ctype) : option nut_ctype :=
  match l with
  | [] => oldest
  | client :: l' =>
      match oldest with
      | None => oldest_client (Some client) l'
      | Some o => oldest_client (if c_last_heard client <? c_last_heard o then Some client else oldest) l'
      end
  end.

Definition close_oldest_client : M unit :=
  clients ← get w_clients;
  match oldest_client None clients with
  | Some o => client_disconnect (c_id o)
  | None => mret tt
  end.

(** ** Tracking *)

Definition do_tracking_add (id : bytes) : M Z :=
  now ← time;
  enabled ← get w_tracking_enabled;
  l ← get w_tracking;
  let '(l, r) := tracking_add enabled now l id in
  modify (fun w => set_w_tracking w l) ;; mret r.

Definition tracking_enable : M Z :=
  modify (fun w => set_w_tracking_enabled w 1) ;; mret 1.

(** 1 while some client has tracking on; the global flag is not touched. *)
Definition tracking_disable : M Z :=
  clients ← get w_clients;
  mret (Zbool (existsb (fun c => c_tracking c =? 1) clients)).

Definition tracking_is_enabled : M Z := get w_tracking_enabled.

(** ** Version 4 UUIDs *)

Definition hex_digit (z : Z) : ascii := if z <? 10 then chr (48 + z) else chr (55 + z).

(** [%02X] of a byte *)
Definition hex2 (z : Z) : bytes := [hex_digit (z / 16); hex_digit (z mod 16)].

Fixpoint random_bytes (n : nat) : M (list Z) :=
  match n with
  | O => mret []
  | S n =>
      r1 ← rand;
      r2 ← rand;
      l ← random_bytes n;
      mret (wrap8 (wrap8 r1 + wrap8 r2) :: l)
  end.

Definition format_uuid (l : list Z) : bytes :=
  concat (map (fun i => hex2 (default 0 (l !! i)) ++
    (if bool_decide (i = 3%nat \/ i = 5%nat \/ i = 7%nat \/ i = 9%nat) then $"-" else []))
    (seq 0 UUID4_BYTESIZE)).

Definition nut_uuid_v4 : M bytes :=
  nut_uuid ← random_bytes UUID4_BYTESIZE;
  let nut_uuid := alter (fun b => Z.lor (Z.land b 0x0F) 0x40) 6%nat nut_uuid in
  let nut_uuid := alter (fun b => Z.lor (Z.land b 0x3F) 0x80) 8%nat nut_uuid in
  mret (snprintf_s UUID4_LEN (format_uuid nut_uuid)).
