(* ===== verification/UpsdConf.v ===== *)
(** * server/conf.c and common/upsconf.c: the configuration of upsd and its reload

    upsd.conf sets the server's parameters, ups.conf names the UPSes; on SIGHUP both are read again
    and the list of UPSes is brought up to date under the clients that use it.

    [CM] extends the monad [M] of the handlers with the state of this file and with two outcomes: the
    process exits, or crashes on a NULL pointer (or on a stale one, the [None] of [M]).  An attempt
    to open a file fails with EMFILE when the next element of [v_emfile] says so, and otherwise gives
    what [v_files] holds under that name.  A build without SSL is modelled. *)

From S2P Require Import Prelude CStr ParseConf ConfFile StrUtil StateTree Users Desc Tracking.
From S2P Require Import World SState Upsd.
From stdpp Require Import options.

(** ** State *)

(** conf.h: an entry of the table made while ups.conf is read *)
Record ups_t := mkUpsT { ut_upsname : bytes; ut_driver : option bytes; ut_port : option bytes; ut_desc : option bytes }.

Record srv := mkSrv {
  v_world : world;
  v_upstable : list ups_t;
  v_num_ups : Z;
  v_statepath : bytes;
  v_env_statepath : option bytes;  (* NUT_STATEPATH in the environment *)
  v_datapath : bytes;
  v_allow_no_device : Z;
  v_allow_not_all_listeners : Z;
  v_maxconn : Z;
  v_listeners : list (bytes * bytes);
  v_reload_flag : bool;
  v_debug_global : Z;
  v_debug : Z;
  v_debug_args : Z;
  v_files : bytes -> option bytes;
  v_emfile : list bool
}.

Definition vset_world (v : srv) x := mkSrv x (v_upstable v) (v_num_ups v) (v_statepath v) (v_env_statepath v)
  (v_datapath v) (v_allow_no_device v) (v_allow_not_all_listeners v) (v_maxconn v) (v_listeners v)
  (v_reload_flag v) (v_debug_global v) (v_debug v) (v_debug_args v) (v_files v) (v_emfile v).
Definition vset_upstable (v : srv) x := mkSrv (v_world v) x (v_num_ups v) (v_statepath v) (v_env_statepath v)
  (v_datapath v) (v_allow_no_device v) (v_allow_not_all_listeners v) (v_maxconn v) (v_listeners v)
  (v_reload_flag v) (v_debug_global v) (v_debug v) (v_debug_args v) (v_files v) (v_emfile v).
Definition vset_num_ups (v : srv) x := mkSrv (v_world v) (v_upstable v) x (v_statepath v) (v_env_statepath v)
  (v_datapath v) (v_allow_no_device v) (v_allow_not_all_listeners v) (v_maxconn v) (v_listeners v)
  (v_reload_flag v) (v_debug_global v) (v_debug v) (v_debug_args v) (v_files v) (v_emfile v).
Definition vset_statepath (v : srv) x e := mkSrv (v_world v) (v_upstable v) (v_num_ups v) x e
  (v_datapath v) (v_allow_no_device v) (v_allow_not_all_listeners v) (v_maxconn v) (v_listeners v)
  (v_reload_flag v) (v_debug_global v) (v_debug v) (v_debug_args v) (v_files v) (v_emfile v).
Definition vset_datapath (v : srv) x := mkSrv (v_world v) (v_upstable v) (v_num_ups v) (v_statepath v)
  (v_env_statepath v) x (v_allow_no_device v) (v_allow_not_all_listeners v) (v_maxconn v) (v_listeners v)
  (v_reload_flag v) (v_debug_global v) (v_debug v) (v_debug_args v) (v_files v) (v_emfile v).
Definition vset_allow (v : srv) x y := mkSrv (v_world v) (v_upstable v) (v_num_ups v) (v_statepath v)
  (v_env_statepath v) (v_datapath v) x y (v_maxconn v) (v_listeners v)
  (v_reload_flag v) (v_debug_global v) (v_debug v) (v_debug_args v) (v_files v) (v_emfile v).
Definition vset_maxconn (v : srv) x := mkSrv (v_world v) (v_upstable v) (v_num_ups v) (v_statepath v)
  (v_env_statepath v) (v_datapath v) (v_allow_no_device v) (v_allow_not_all_listeners v) x (v_listeners v)
  (v_reload_flag v) (v_debug_global v) (v_debug v) (v_debug_args v) (v_files v) (v_emfile v).
Definition vset_listeners (v : srv) x := mkSrv (v_world v) (v_upstable v) (v_num_ups v) (v_statepath v)
  (v_env_statepath v) (v_datapath v) (v_allow_no_device v) (v_allow_not_all_listeners v) (v_maxconn v) x
  (v_reload_flag v) (v_debug_global v) (v_debug v) (v_debug_args v) (v_files v) (v_emfile v).
Definition vset_debug (v : srv) x y := mkSrv (v_world v) (v_upstable v) (v_num_ups v) (v_statepath v)
  (v_env_statepath v) (v_datapath v) (v_allow_no_device v) (v_allow_not_all_listeners v) (v_maxconn v) (v_listeners v)
  (v_reload_flag v) x y (v_debug_args v) (v_files v) (v_emfile v).
Definition vset_emfile (v : srv) x := mkSrv (v_world v) (v_upstable v) (v_num_ups v) (v_statepath v)
  (v_env_statepath v) (v_datapath v) (v_allow_no_device v) (v_allow_not_all_listeners v) (v_maxconn v) (v_listeners v)
  (v_reload_flag v) (v_debug_global v) (v_debug v) (v_debug_args v) (v_files v) x.

(** The other globals of the server that upsd.conf sets. *)
Definition conf_set (f : config -> config) (w : world) : world := mkWorld (w_ups w) (w_clients w) (w_next_id w)
  (w_users w) (w_desc w) (w_tracking w) (w_tracking_enabled w) (w_now w) (w_rand w) (w_sys w) (w_out w) (f (w_conf w)).
Definition conf_maxage (x : Z) (c : config) : config := mkConfig x (tracking_delay c) (UPS_VERSION c) (PACKAGE_URL c).
Definition conf_tracking_delay (x : Z) (c : config) : config := mkConfig (maxage c) x (UPS_VERSION c) (PACKAGE_URL c).

Definition set_u_fn (u : upstype) x := mkUps (u_name u) x (u_desc u) (u_conn u) (u_stale u)
  (u_dumpdone u) (u_data_ok u) (u_last_heard u) (u_last_ping u) (u_last_connfail u) (u_sock_ctx u)
  (u_inforoot u) (u_cmdlist u) (u_numlogins u) (u_fsd u) (u_retain u).
Definition set_u_desc (u : upstype) x := mkUps (u_name u) (u_fn u) x (u_conn u) (u_stale u)
  (u_dumpdone u) (u_data_ok u) (u_last_heard u) (u_last_ping u) (u_last_connfail u) (u_sock_ctx u)
  (u_inforoot u) (u_cmdlist u) (u_numlogins u) (u_fsd u) (u_retain u).
Definition set_u_retain (u : upstype) x := mkUps (u_name u) (u_fn u) (u_desc u) (u_conn u) (u_stale u)
  (u_dumpdone u) (u_data_ok u) (u_last_heard u) (u_last_ping u) (u_last_connfail u) (u_sock_ctx u)
  (u_inforoot u) (u_cmdlist u) (u_numlogins u) (u_fsd u) x.

(** ** The monad *)

Inductive cres (A : Type) := CRet (a : A) (v : srv) | CExit (status : Z) (v : srv) | CCrash.
Arguments CRet {A} a v.
Arguments CExit {A} status v.
Arguments CCrash {A}.

Definition CM (A : Type) : Type := srv -> cres A.

#[export] Instance CM_ret : MRet CM := fun A a v => CRet a v.
#[export] Instance CM_bind : MBind CM := fun A B f m v =>
  match m v with CRet a v => f a v | CExit st v => CExit st v | CCrash => CCrash end.

Definition cget {A} (f : srv -> A) : CM A := fun v => CRet (f v) v.
Definition cmodify (f : srv -> srv) : CM unit := fun v => CRet tt (f v).
Definition cexit {A} (status : Z) : CM A := fun v => CExit status v.
Definition ccrash {A} : CM A := fun _ => CCrash.
Definition cwhen (b : bool) (m : CM unit) : CM unit := if b then m else mret tt.

(** What the handlers' monad does. *)
Definition lift {A} (m : M A) : CM A := fun v =>
  match m (v_world v) with Some (a, w) => CRet a (vset_world v w) | None => CCrash end.

(** [fopen] *)
Inductive open_result := Opened (text : bytes) | OpenEMFILE | OpenFailed.

Definition try_open (fn : bytes) : CM open_result := fun v =>
  match v_emfile v with
  | true :: rest => CRet OpenEMFILE (vset_emfile v rest)
  | l => CRet (match v_files v fn with Some text => Opened text | None => OpenFailed end) (vset_emfile v (tail l))
  end.

(** ** UPSes *)

(** A structure as [xcalloc] leaves it, with the members that [ups_create] fills in. *)
Definition new_upstype (fn name : bytes) (desc : option bytes) : upstype :=
  mkUps name fn desc false 1 0 0 0 0 0 (with_magic pconf_init 0) Leaf [] 0 0 1.

(** The structure is put at the head of the list before [sstate_connect], which does not look at the list. *)
Definition ups_create (fn name : bytes) (desc : option bytes) : CM unit :=
  ups ← cget (fun v => w_ups (v_world v));
  if existsb (fun temp => strcaseeq (u_name temp) name) ups then mret tt
  else
    lift (modify (fun w => set_w_ups w (new_upstype fn name desc :: w_ups w));;
          sock_fd ← sstate_connect 0;
          ups_upd 0 (fun u => set_u_conn u sock_fd);;
          now ← time;
          ups_upd 0 (fun u => set_u_last_heard u now));;
    cmodify (fun v => vset_num_ups v (v_num_ups v + 1)).

Definition ups_update (fn name : bytes) (desc : option bytes) : CM unit :=
  lift (
    temp ← get_ups_ptr name;
    match temp with
    | None => mret tt
    | Some i =>
        u ← ups_get i;
        when (negb (streq (u_fn u) fn)) (
          sstate_infofree i;;
          sstate_cmdfree i;;
          ups_upd i (fun u => set_u_sock_ctx u (pconf_finish (u_sock_ctx u)));;
          ups_upd i (fun u => set_u_conn u false);;
          ups_upd i (fun u => set_u_dumpdone u 0);;
          ups_upd i (fun u => set_u_fn u fn));;
        ups_upd i (fun u => set_u_desc u desc);;
        ups_upd i (fun u => set_u_retain u 1)
    end).

(** ** upsd.conf *)

Definition parse_boolean (arg : bytes) : option Z :=
  if strcaseeq arg ($"true") || strcaseeq arg ($"on") || strcaseeq arg ($"yes") || strcaseeq arg ($"1") then Some 1
  else if strcaseeq arg ($"false") || strcaseeq arg ($"off") || strcaseeq arg ($"no") || strcaseeq arg ($"0") then Some 0
  else None.

Definition starts_with_digit (arg : bytes) : bool :=
  match arg with c :: _ => (48 <=? code c) && (code c <=? 57) | [] => false end.

(** A boolean word or a number. *)
Definition bool_or_number (arg : bytes) : option Z :=
  if starts_with_digit arg then Some (Zbool (negb (atoi arg =? 0))) else parse_boolean arg.

Definition listen_add (addr port : bytes) : CM unit :=
  cmodify (fun v => if v_reload_flag v then v else vset_listeners v (v_listeners v ++ [(addr, port)])).

Definition NUT_PORT : bytes := $"3493".

Definition parse_upsd_conf_args (arg : list bytes) : CM Z :=
  match arg with
  | cmd :: arg1 :: more =>
      let '(iok, n, _) := str_to_int (Some arg1) 10 in
      let '(lok, l, _) := str_to_long (Some arg1) 10 in
      if strcaseeq cmd ($"DEBUG_MIN") then
        cmodify (fun v => if negb (iok =? 0) && (0 <=? n) then vset_debug v n (v_debug v) else v);; mret 1
      else if streq cmd ($"MAXAGE") then
        if starts_with_digit arg1 && negb (iok =? 0) then lift (modify (conf_set (conf_maxage n)));; mret 1 else mret 0
      else if streq cmd ($"TRACKINGDELAY") then
        if starts_with_digit arg1 && negb (iok =? 0) then lift (modify (conf_set (conf_tracking_delay n)));; mret 1 else mret 0
      else if streq cmd ($"ALLOW_NO_DEVICE") then
        match bool_or_number arg1 with
        | Some b => cmodify (fun v => vset_allow v b (v_allow_not_all_listeners v));; mret 1
        | None => mret 0
        end
      else if streq cmd ($"ALLOW_NOT_ALL_LISTENERS") then
        match bool_or_number arg1 with
        | Some b => cmodify (fun v => vset_allow v (v_allow_no_device v) b);; mret 1
        | None => mret 0
        end
      else if streq cmd ($"MAXCONN") then
        if starts_with_digit arg1 && negb (lok =? 0) && (wrap64 l =? l) then cmodify (fun v => vset_maxconn v l);; mret 1
        else mret 0
      else if streq cmd ($"STATEPATH") then
        cmodify (fun v => vset_statepath v (default arg1 (v_env_statepath v)) (v_env_statepath v));; mret 1
      else if streq cmd ($"DATAPATH") then cmodify (fun v => vset_datapath v arg1);; mret 1
      else if streq cmd ($"CERTREQUEST") || streq cmd ($"CERTPATH") || streq cmd ($"CERTIDENT")
              || streq cmd ($"CERTFILE") || streq cmd ($"DISABLE_WEAK_SSL") then mret 0
      else if streq cmd ($"ACCEPT") then mret 1
      else if streq cmd ($"REJECT") then mret 1
      else if streq cmd ($"LISTEN") then
        match str_split_listen arg1, more with
        | None, _ | Some (_, Some _), _ :: _ => mret (-1)
        | Some (address, _), port :: _ | Some (address, Some port), [] => listen_add address port;; mret 1
        | Some (address, None), [] => listen_add address NUT_PORT;; mret 1
        end
      else
        match more with
        | [] => mret 0
        | _ => if streq cmd ($"ACL") then mret 1 else mret 0
        end
  | _ => mret 0
  end.

(** The loop over the lines of a file, and its state: the effects so far and the count of bad LISTEN lines. *)
Definition upsdconf_body (r : cres Z) (arg : list bytes) : cres Z :=
  match r with
  | CRet listen_errors v =>
      match arg with
      | [] => r
      | _ =>
          (parsed ← parse_upsd_conf_args arg;
           mret (if (parsed : Z) <? 0 then listen_errors + 1 else listen_errors)) v
      end
  | r => r
  end.

(** Read a text by parseconf, line by line. *)
Definition read_lines {A} (body : cres A -> list bytes -> cres A) (text : bytes) (a : A) : CM A := fun v =>
  default CCrash (conf_load (fun _ => inl text) [] body (CRet a v)).

Definition UPSD_CONF : bytes := $"upsd.conf".
Definition UPS_CONF : bytes := $"ups.conf".
Definition UPSD_USERS : bytes := $"upsd.users".

(** [retry:] and [pconf_file_begin]; [tries] bounds the attempts, one for each EMFILE to come. *)
Fixpoint open_retry (tries : nat) (fn : bytes) (may_close : bool) : CM open_result :=
  f ← try_open fn;
  match f, tries with
  | OpenEMFILE, S tries => if may_close then lift close_oldest_client;; open_retry tries fn may_close else mret f
  | _, _ => mret f
  end.

Definition load_upsdconf (reloading : Z) : CM unit :=
  n ← cget (fun v => length (v_emfile v));
  f ← open_retry n UPSD_CONF (reloading =? 2);
  match f with
  | Opened text =>
      cwhen (negb (reloading =? 0)) (cmodify (fun v => vset_debug v (-1) (v_debug v)));;
      listen_errors ← read_lines upsdconf_body text 0;
      cwhen (negb (reloading =? 0))
        (cmodify (fun v => vset_debug v (v_debug_global v)
                             (if -1 <? v_debug_global v then v_debug_global v else v_debug_args v)));;
      if (0 <? listen_errors) && (reloading =? 0) then cexit 1 else mret tt
  | _ => if reloading =? 0 then cexit 1 else mret tt
  end.

(** ** ups.conf *)

(** A section header [[name]]. *)
Definition section_name (arg0 : bytes) : option bytes :=
  match arg0, last arg0 with
  | c :: name, Some e => if Ascii.eqb c (chr 91) && Ascii.eqb e (chr 93) then Some (take (length name - 1) name) else None
  | _, _ => None
  end.

(** common/upsconf.c: the line handler for any callback; [ups_section] and the client's state *)
Definition conf_args {S} (callback : S -> option bytes -> bytes -> option bytes -> S)
    (st : option bytes * S) (arg : list bytes) : option bytes * S :=
  let '(ups_section, s) := st in
  match arg with
  | [] => st
  | arg0 :: more =>
      match section_name arg0, more with
      | Some name, _ => (Some name, s)
      | None, [] => (ups_section, callback s ups_section arg0 None)
      | None, eq :: val :: _ => if streq eq ($"=") then (ups_section, callback s ups_section arg0 (Some val)) else st
      | None, _ => st
      end
  end.

Fixpoint update_entry (upsname : bytes) (f : ups_t -> ups_t) (l : list ups_t) : option (list ups_t) :=
  match l with
  | [] => None
  | temp :: l => if streq (ut_upsname temp) upsname then Some (f temp :: l) else cons temp <$> update_entry upsname f l
  end.

Definition set_entry (var : bytes) (val : option bytes) (t : ups_t) : ups_t :=
  if streq var ($"driver") then mkUpsT (ut_upsname t) val (ut_port t) (ut_desc t)
  else if streq var ($"port") then mkUpsT (ut_upsname t) (ut_driver t) val (ut_desc t)
  else if streq var ($"desc") then mkUpsT (ut_upsname t) (ut_driver t) (ut_port t) val
  else t.

(** A word without a value comes with a NULL [val].  [xstrdup] passes NULL on, so that the member is unset; but
    [strcmp] (when the variable is in the environment) and [setenv] (when it is not) follow it. *)
Definition do_upsconf_args (upsname : option bytes) (var : bytes) (val : option bytes) : CM unit :=
  match upsname with
  | None =>
      if strcaseeq var ($"STATEPATH") then
        env ← cget v_env_statepath;
        match val with
        | None => ccrash
        | Some val => let sp := default val env in cmodify (fun v => vset_statepath v sp (Some sp))
        end
      else mret tt
  | Some upsname =>
      table ← cget v_upstable;
      cmodify (fun v => vset_upstable v
        (match update_entry upsname (set_entry var val) table with
         | Some l => l
         | None => set_entry var val (mkUpsT upsname None None None) :: table
         end))
  end.

Definition upsconf_callback (r : cres unit) (upsname : option bytes) (var : bytes) (val : option bytes) : cres unit :=
  match r with CRet _ v => do_upsconf_args upsname var val v | r => r end.

(** [read_upsconf] for a text that could be opened. *)
Definition read_upsconf_text (text : bytes) : CM unit := fun v =>
  (default (None, CCrash) (conf_load (fun _ => inl text) [] (conf_args upsconf_callback) (None, CRet tt v))).2.

(** -1 when the file cannot be opened and [fatal_errors] is 0, with the reason *)
Definition read_upsconf (fatal_errors : bool) : CM (Z * bool) :=
  f ← try_open UPS_CONF;
  match f with
  | Opened text => read_upsconf_text text;; mret (1, false)
  | OpenEMFILE => if fatal_errors then cexit 1 else mret (-1, true)
  | OpenFailed => if fatal_errors then cexit 1 else mret (-1, false)
  end.

Definition load_upsconf (reloading : Z) : CM Z :=
  '(ret, emfile) ← read_upsconf false;
  if (ret : Z) =? -1 then
    if (emfile : bool) && (reloading =? 2) then
      lift close_oldest_client;;
      r ← read_upsconf true;
      mret (fst (r : Z * bool))
    else cexit 1
  else mret ret.

Definition NUT_PATH_MAX : nat := 4096.

(** An entry of the table: a UPS is updated or created when driver and port are known. *)
Definition upsconf_entry (reloading : bool) (tmp : ups_t) : CM unit :=
  match ut_driver tmp, ut_port tmp with
  | Some driver, Some _ =>
      let statefn := snprintf_s NUT_PATH_MAX (driver ++ $"-" ++ ut_upsname tmp) in
      known ← lift (get_ups_ptr (ut_upsname tmp));
      if reloading && bool_decide (known <> None)
      then ups_update statefn (ut_upsname tmp) (ut_desc tmp)
      else ups_create statefn (ut_upsname tmp) (ut_desc tmp)
  | _, _ => mret tt
  end.

Fixpoint upsconf_entries (reloading : bool) (l : list ups_t) : CM unit :=
  match l with
  | [] => mret tt
  | tmp :: l => upsconf_entry reloading tmp;; upsconf_entries reloading l
  end.

Definition upsconf_add (reloading : bool) : CM unit :=
  table ← cget v_upstable;
  upsconf_entries reloading table;;
  cmodify (fun v => vset_upstable v []).

(** ** Reload *)

(** The UPS at the position [i] is removed from the list; its data goes with it. *)
Definition delete_ups (i : nat) : CM unit :=
  lift (
    target ← ups_get i;
    kick_login_clients (u_name target);;
    modify (fun w => set_w_ups w (delete i (w_ups w)))).

(** Up to ten attempts after the first. *)
Definition check_file (fn : bytes) : CM bool :=
  f ← open_retry 10 fn true;
  match f with Opened _ => mret true | _ => mret false end.

(** The loop over the UPSes that were not found again, from the position [i]. *)
Fixpoint delete_lost (fuel : nat) (i : nat) : CM unit :=
  match fuel with
  | O => mret tt
  | S fuel =>
      ups ← cget (fun v => w_ups (v_world v));
      match ups !! i with
      | None => mret tt
      | Some u => if u_retain u =? 0 then delete_ups i;; delete_lost fuel i else delete_lost fuel (S i)
      end
  end.

Definition conf_reload : CM unit :=
  ok ← check_file UPSD_CONF;
  if negb ok then mret tt
  else
    lift (modify (fun w => set_w_ups w (map (fun u => set_u_retain u 0) (w_ups w))));;
    load_upsconf 2;;
    upsconf_add true;;
    load_upsdconf 2;;
    n ← cget (fun v => length (w_ups (v_world v)));
    delete_lost n 0;;
    ok ← check_file UPSD_USERS;
    if negb ok then mret tt
    else
      lift (modify (fun w => set_w_users w (user_flush (w_users w))));;
      f ← try_open UPSD_USERS;
      let fopen (_ : bytes) : bytes + bytes := match f with Opened text => inl text | _ => inr [] end in
      lift (modify (fun w => set_w_users w (user_load fopen [] (w_users w)))).

(** The part of [main] that reads ups.conf. *)
Definition start_ups : CM unit :=
  read_upsconf true;;
  upsconf_add false;;
  n ← cget v_num_ups;
  allow ← cget v_allow_no_device;
  if ((n : Z) =? 0) && ((allow : Z) =? 0) then cexit 1 else mret tt.
