(* ===== verification/NetGet.v ===== *)
(** * server/netget.c: the GET command *)

From S2P Require Import Prelude CStr ParseConf StateTree Desc Tracking World SState Upsd.
From stdpp Require Import options.

Definition get_numlogins (cl : nat) (upsname : bytes) : M unit :=
  ups ← get_ups_ptr upsname;
  match ups with
  | None => reply_err cl NUT_ERR_UNKNOWN_UPS
  | Some ups =>
      ok ← ups_available ups cl;
      if ok =? 0 then mret tt else
      u ← ups_get ups;
      reply cl ($"NUMLOGINS " ++ upsname ++ $" " ++ show_Z (u_numlogins u) ++ [LF])
  end.

Definition get_upsdesc (cl : nat) (upsname : bytes) : M unit :=
  ups ← get_ups_ptr upsname;
  match ups with
  | None => reply_err cl NUT_ERR_UNKNOWN_UPS
  | Some ups =>
      u ← ups_get ups;
      match u_desc u with
      | Some d => reply cl ($"UPSDESC " ++ upsname ++ $" " ++ quoted (pconf_encode d SMALLBUF) ++ [LF])
      | None => reply cl ($"UPSDESC " ++ upsname ++ $" " ++ quoted ($"Unavailable") ++ [LF])
      end
  end.

(** [var + 9] when [var] begins with "upstream." *)
Definition strip_upstream (var : bytes) : bytes :=
  if strncmp var ($"upstream.") 9 =? 0 then drop 9 var else var.

Definition get_desc (cl : nat) (upsname var : bytes) : M unit :=
  ups ← get_ups_ptr upsname;
  match ups with
  | None => reply_err cl NUT_ERR_UNKNOWN_UPS
  | Some ups =>
      ok ← ups_available ups cl;
      if ok =? 0 then mret tt else
      d ← get w_desc;
      match desc_get_var d (strip_upstream var) with
      | Some desc => reply cl ($"DESC " ++ upsname ++ $" " ++ var ++ $" " ++ quoted desc ++ [LF])
      | None =>
          reply cl ($"DESC " ++ upsname ++ $" " ++ var ++ $" "
                    ++ quoted ($"Description unavailable") ++ [LF])
      end
  end.

Definition get_cmddesc (cl : nat) (upsname cmd : bytes) : M unit :=
  ups ← get_ups_ptr upsname;
  match ups with
  | None => reply_err cl NUT_ERR_UNKNOWN_UPS
  | Some ups =>
      ok ← ups_available ups cl;
      if ok =? 0 then mret tt else
      d ← get w_desc;
      match desc_get_cmd d (strip_upstream cmd) with
      | Some desc => reply cl ($"CMDDESC " ++ upsname ++ $" " ++ cmd ++ $" " ++ quoted desc ++ [LF])
      | None =>
          reply cl ($"CMDDESC " ++ upsname ++ $" " ++ cmd ++ $" "
                    ++ quoted ($"Description unavailable") ++ [LF])
      end
  end.

Definition get_type (cl : nat) (upsname var : bytes) : M unit :=
  ups ← get_ups_ptr upsname;
  match ups with
  | None => reply_err cl NUT_ERR_UNKNOWN_UPS
  | Some ups =>
      ok ← ups_available ups cl;
      if ok =? 0 then mret tt else
      u ← ups_get ups;
      match sstate_getnode u var with
      | None => reply_err cl NUT_ERR_VAR_NOT_SUPPORTED
      | Some node =>
          let buf := snprintf_s SMALLBUF ($"TYPE " ++ upsname ++ $" " ++ var) in
          let buf := if has_flag (n_flags node) ST_FLAG_RW
                     then snprintfcat buf SMALLBUF ($" RW") else buf in
          let buf := match n_enum_list node with
                     | [] => buf | _ => snprintfcat buf SMALLBUF ($" ENUM") end in
          let buf := match n_range_list node with
                     | [] => buf | _ => snprintfcat buf SMALLBUF ($" RANGE") end in
          if has_flag (n_flags node) ST_FLAG_STRING
          then reply cl (buf ++ $" STRING:" ++ show_Z (n_aux node) ++ [LF])
          else reply cl (buf ++ $" NUMBER" ++ [LF])
      end
  end.

(** The URL part of the version strings. *)
Definition nut_url (package_url : option bytes) : bytes :=
  match package_url with
  | None => $"https://www.networkupstools.org/"
  | Some url =>
      match strstr_pos url ($"networkupstools.org") with
      | Some _ => url
      | None => url ++ $" or " ++ $"https://www.networkupstools.org/"
      end
  end.

Definition get_var_server (cl : nat) (upsname var : bytes) : M unit :=
  conf ← get w_conf;
  if strcaseeq var ($"server.info") then
    reply cl ($"VAR " ++ upsname ++ $" server.info "
      ++ quoted ($"Network UPS Tools upsd " ++ UPS_VERSION conf ++ $" - " ++ nut_url (PACKAGE_URL conf))
      ++ [LF])
  else if strcaseeq var ($"server.version") then
    reply cl ($"VAR " ++ upsname ++ $" server.version " ++ quoted (UPS_VERSION conf) ++ [LF])
  else reply_err cl NUT_ERR_VAR_NOT_SUPPORTED.

Definition get_var (cl : nat) (upsname var : bytes) : M unit :=
  if strncasecmp var ($"server.") 7 =? 0 then get_var_server cl upsname var
  else
  ups ← get_ups_ptr upsname;
  match ups with
  | None => reply_err cl NUT_ERR_UNKNOWN_UPS
  | Some ups =>
      ok ← ups_available ups cl;
      if ok =? 0 then mret tt else
      u ← ups_get ups;
      match sstate_getinfo u var with
      | None => reply_err cl NUT_ERR_VAR_NOT_SUPPORTED
      | Some val =>
          if strcaseeq var ($"ups.status") && negb (u_fsd u =? 0)
          then reply cl ($"VAR " ++ upsname ++ $" " ++ var ++ $" " ++ quoted ($"FSD " ++ val) ++ [LF])
          else reply cl ($"VAR " ++ upsname ++ $" " ++ var ++ $" " ++ quoted val ++ [LF])
      end
  end.

Definition net_get (cl : nat) (arg : list bytes) : M unit :=
  match arg with
  | [] => reply_err cl NUT_ERR_INVALID_ARGUMENT
  | a0 :: arg1 =>
      if strcaseeq a0 ($"TRACKING") then
        client ← client_get cl;
        match arg1 with
        | [] => reply cl ((if negb (c_tracking client =? 0) then $"ON" else $"OFF") ++ [LF])
        | a1 :: _ =>
            if negb (c_tracking client =? 0)
            then l ← get w_tracking; reply cl (tracking_get l a1 ++ [LF])
            else reply_err cl NUT_ERR_FEATURE_NOT_CONFIGURED
        end
      else match arg1 with
      | [] => reply_err cl NUT_ERR_INVALID_ARGUMENT
      | a1 :: arg2 =>
          if strcaseeq a0 ($"NUMLOGINS") then get_numlogins cl a1
          else if strcaseeq a0 ($"UPSDESC") then get_upsdesc cl a1
          else match arg2 with
          | [] => reply_err cl NUT_ERR_INVALID_ARGUMENT
          | a2 :: _ =>
              if strcaseeq a0 ($"VAR") then get_var cl a1 a2
              else if strcaseeq a0 ($"TYPE") then get_type cl a1 a2
              else if strcaseeq a0 ($"DESC") then get_desc cl a1 a2
              else if strcaseeq a0 ($"CMDDESC") then get_cmddesc cl a1 a2
              else reply_err cl NUT_ERR_INVALID_ARGUMENT
          end
      end
  end.
