(* ===== verification/NetList.v ===== *)
(** * server/netlist.c: the LIST command *)

From S2P Require Import Prelude CStr ParseConf StateTree World SState Upsd NetGet.
From stdpp Require Import options.

(** What is sent about one node: [None] when nothing is. *)
Definition dump_line (ups : bytes) (rw fsd : Z) (node : st_node) : option bytes :=
  if negb (rw =? 0) then
    if has_flag (n_flags node) ST_FLAG_RW
    then Some ($"RW " ++ ups ++ $" " ++ n_var node ++ $" " ++ quoted (n_val node) ++ [LF])
    else None
  else if (fsd =? 1) && strcaseeq (n_var node) ($"ups.status")
  then Some ($"VAR " ++ ups ++ $" " ++ n_var node ++ $" " ++ quoted ($"FSD " ++ n_val node) ++ [LF])
  else Some ($"VAR " ++ ups ++ $" " ++ n_var node ++ $" " ++ quoted (n_val node) ++ [LF]).

Fixpoint tree_dump (node : st_tree) (cl : nat) (ups : bytes) (rw fsd : Z) : M Z :=
  match node with
  | Leaf => mret 1
  | Node n lt rt =>
      ret ← tree_dump lt cl ups rw fsd;
      if ret =? 0 then mret 0
      else
        ret ← match dump_line ups rw fsd n with
              | Some line => sendback cl line
              | None => mret 1
              end;
        if negb (ret =? 1) then mret 0
        else tree_dump rt cl ups rw fsd
  end.

Definition list_rw (cl : nat) (upsname : bytes) : M unit :=
  ups ← get_ups_ptr upsname;
  match ups with
  | None => reply_err cl NUT_ERR_UNKNOWN_UPS
  | Some ups =>
      ok ← ups_available ups cl;
      if ok =? 0 then mret tt else
      r ← sendback cl ($"BEGIN LIST RW " ++ upsname ++ [LF]);
      if r =? 0 then mret tt else
      u ← ups_get ups;
      r ← tree_dump (u_inforoot u) cl upsname 1 (u_fsd u);
      if r =? 0 then mret tt else
      reply cl ($"END LIST RW " ++ upsname ++ [LF])
  end.

Definition list_var (cl : nat) (upsname : bytes) : M unit :=
  ups ← get_ups_ptr upsname;
  match ups with
  | None => reply_err cl NUT_ERR_UNKNOWN_UPS
  | Some ups =>
      ok ← ups_available ups cl;
      if ok =? 0 then mret tt else
      r ← sendback cl ($"BEGIN LIST VAR " ++ upsname ++ [LF]);
      if r =? 0 then mret tt else
      u ← ups_get ups;
      r ← tree_dump (u_inforoot u) cl upsname 0 (u_fsd u);
      if r =? 0 then mret tt else
      reply cl ($"END LIST VAR " ++ upsname ++ [LF])
  end.

(** [for (...) if (!sendback(...)) return;]: were all the lines sent? *)
Fixpoint send_lines (cl : nat) (lines : list bytes) : M Z :=
  match lines with
  | [] => mret 1
  | line :: lines' =>
      r ← sendback cl line;
      if r =? 0 then mret 0 else send_lines cl lines'
  end.

Definition list_cmd (cl : nat) (upsname : bytes) : M unit :=
  ups ← get_ups_ptr upsname;
  match ups with
  | None => reply_err cl NUT_ERR_UNKNOWN_UPS
  | Some ups =>
      ok ← ups_available ups cl;
      if ok =? 0 then mret tt else
      r ← sendback cl ($"BEGIN LIST CMD " ++ upsname ++ [LF]);
      if r =? 0 then mret tt else
      u ← ups_get ups;
      r ← send_lines cl (map (fun name => $"CMD " ++ upsname ++ $" " ++ name ++ [LF]) (u_cmdlist u));
      if r =? 0 then mret tt else
      reply cl ($"END LIST CMD " ++ upsname ++ [LF])
  end.

Definition list_enum (cl : nat) (upsname var : bytes) : M unit :=
  ups ← get_ups_ptr upsname;
  match ups with
  | None => reply_err cl NUT_ERR_UNKNOWN_UPS
  | Some ups =>
      ok ← ups_available ups cl;
      if ok =? 0 then mret tt else
      u ← ups_get ups;
      match sstate_getnode u var with
      | None => reply_err cl NUT_ERR_VAR_NOT_SUPPORTED
      | Some node =>
          r ← sendback cl ($"BEGIN LIST ENUM " ++ upsname ++ $" " ++ var ++ [LF]);
          if r =? 0 then mret tt else
          r ← send_lines cl (map (fun val =>
                 $"ENUM " ++ upsname ++ $" " ++ var ++ $" " ++ quoted val ++ [LF]) (n_enum_list node));
          if r =? 0 then mret tt else
          reply cl ($"END LIST ENUM " ++ upsname ++ $" " ++ var ++ [LF])
      end
  end.

Definition list_range (cl : nat) (upsname var : bytes) : M unit :=
  ups ← get_ups_ptr upsname;
  match ups with
  | None => reply_err cl NUT_ERR_UNKNOWN_UPS
  | Some ups =>
      ok ← ups_available ups cl;
      if ok =? 0 then mret tt else
      u ← ups_get ups;
      match sstate_getnode u var with
      | None => reply_err cl NUT_ERR_VAR_NOT_SUPPORTED
      | Some node =>
          r ← sendback cl ($"BEGIN LIST RANGE " ++ upsname ++ $" " ++ var ++ [LF]);
          if r =? 0 then mret tt else
          r ← send_lines cl (map (fun rg : Z * Z =>
                 $"RANGE " ++ upsname ++ $" " ++ var ++ $" " ++ quoted (show_Z rg.1) ++ $" "
                 ++ quoted (show_Z rg.2) ++ [LF]) (n_range_list node));
          if r =? 0 then mret tt else
          reply cl ($"END LIST RANGE " ++ upsname ++ $" " ++ var ++ [LF])
      end
  end.

Definition list_ups (cl : nat) : M unit :=
  r ← sendback cl ($"BEGIN LIST UPS" ++ [LF]);
  if r =? 0 then mret tt else
  upses ← get w_ups;
  r ← send_lines cl (map (fun utmp =>
         $"UPS " ++ u_name utmp ++ $" "
         ++ quoted (match u_desc utmp with
                    | Some d => pconf_encode d SMALLBUF
                    | None => $"Description unavailable" end) ++ [LF]) upses);
  if r =? 0 then mret tt else
  reply cl ($"END LIST UPS" ++ [LF]).

(** The lines about the clients logged into the UPS of that name. *)
Definition client_lines (clients : list nut_ctype) (name : bytes) : list bytes :=
  omap (fun c =>
    match c_loginups c with
    | Some l => if strcaseeq l name then Some ($"CLIENT " ++ l ++ $" " ++ c_addr c ++ [LF]) else None
    | None => None
    end) clients.

Definition list_clients (cl : nat) (upsname : bytes) : M unit :=
  ups ← get_ups_ptr upsname;
  match ups with
  | None => reply_err cl NUT_ERR_UNKNOWN_UPS
  | Some ups =>
      r ← sendback cl ($"BEGIN LIST CLIENT " ++ upsname ++ [LF]);
      if r =? 0 then mret tt else
      u ← ups_get ups;
      clients ← get w_clients;
      r ← send_lines cl (client_lines clients (u_name u));
      if r =? 0 then mret tt else
      reply cl ($"END LIST CLIENT " ++ upsname ++ [LF])
  end.

Definition net_list (cl : nat) (arg : list bytes) : M unit :=
  match arg with
  | [] => reply_err cl NUT_ERR_INVALID_ARGUMENT
  | a0 :: arg1 =>
      if strcaseeq a0 ($"UPS") then list_ups cl
      else match arg1 with
      | [] => reply_err cl NUT_ERR_INVALID_ARGUMENT
      | a1 :: arg2 =>
          if strcaseeq a0 ($"VAR") then list_var cl a1
          else if strcaseeq a0 ($"RW") then list_rw cl a1
          else if strcaseeq a0 ($"CMD") then list_cmd cl a1
          else if strcaseeq a0 ($"CLIENT") then list_clients cl a1
          else match arg2 with
          | [] => reply_err cl NUT_ERR_INVALID_ARGUMENT
          | a2 :: _ =>
              if strcaseeq a0 ($"ENUM") then list_enum cl a1 a2
              else if strcaseeq a0 ($"RANGE") then list_range cl a1 a2
              else reply_err cl NUT_ERR_INVALID_ARGUMENT
          end
      end
  end.
