(* ===== verification/NetUser.v ===== *)
(** * server/netuser.c and server/netmisc.c

    LOGIN, LOGOUT, PRIMARY, MASTER, USERNAME and PASSWORD; VER, NETVER, HELP and FSD; STARTTLS without SSL. *)

From S2P Require Import Prelude CStr Users StateTree World SState Upsd NetGet.
From stdpp Require Import options.

(** [user_checkaction(client->username, client->password, action)] *)
Definition client_checkaction (cl : nat) (action : bytes) : M Z :=
  client ← client_get cl;
  st ← get w_users;
  mret (user_checkaction st (c_username client) (c_password client) action).

Definition net_login (cl : nat) (arg : list bytes) : M unit :=
  match arg with
  | [a0] =>
      client ← client_get cl;
      match c_loginups client with
      | Some _ => reply_err cl NUT_ERR_ALREADY_LOGGED_IN
      | None =>
          ups ← get_ups_ptr a0;
          match ups with
          | None => reply_err cl NUT_ERR_UNKNOWN_UPS
          | Some ups =>
              ok ← client_checkaction cl ($"LOGIN");
              if ok =? 0 then reply_err cl NUT_ERR_ACCESS_DENIED
              else
                ups_upd ups (fun u => set_u_numlogins u (u_numlogins u + 1)) ;;
                u ← ups_get ups;
                client_upd cl (fun c => set_c_loginups c (Some (u_name u))) ;;
                reply cl ($"OK" ++ [LF])
          end
      end
  | _ => reply_err cl NUT_ERR_INVALID_ARGUMENT
  end.

Definition net_logout (cl : nat) (arg : list bytes) : M unit :=
  match arg with
  | [] =>
      reply cl ($"OK Goodbye" ++ [LF]) ;;
      client_upd cl (fun c => set_c_last_heard c 0)
  | _ => reply_err cl NUT_ERR_INVALID_ARGUMENT
  end.

(** this is just an access level check *)
Definition do_net_primary (cl : nat) (arg : list bytes) : M Z :=
  match arg with
  | [a0] =>
      ups ← get_ups_ptr a0;
      match ups with
      | None => reply_err cl NUT_ERR_UNKNOWN_UPS ;; mret (-1)
      | Some _ =>
          p ← client_checkaction cl ($"PRIMARY");
          m ← client_checkaction cl ($"MASTER");
          if (p =? 0) && (m =? 0)
          then reply_err cl NUT_ERR_ACCESS_DENIED ;; mret (-1)
          else mret 0
      end
  | _ => reply_err cl NUT_ERR_INVALID_ARGUMENT ;; mret (-1)
  end.

Definition net_master (cl : nat) (arg : list bytes) : M unit :=
  r ← do_net_primary cl arg;
  when (0 =? r) (reply cl ($"OK MASTER-GRANTED" ++ [LF])).

Definition net_primary (cl : nat) (arg : list bytes) : M unit :=
  r ← do_net_primary cl arg;
  when (0 =? r) (reply cl ($"OK PRIMARY-GRANTED" ++ [LF])).

Definition net_username (cl : nat) (arg : list bytes) : M unit :=
  match arg with
  | [a0] =>
      client ← client_get cl;
      match c_username client with
      | Some _ => reply_err cl NUT_ERR_ALREADY_SET_USERNAME
      | None =>
          client_upd cl (fun c => set_c_username c (Some a0)) ;;
          reply cl ($"OK" ++ [LF])
      end
  | _ => reply_err cl NUT_ERR_INVALID_ARGUMENT
  end.

Definition net_password (cl : nat) (arg : list bytes) : M unit :=
  match arg with
  | [a0] =>
      client ← client_get cl;
      match c_password client with
      | Some _ => reply_err cl NUT_ERR_ALREADY_SET_PASSWORD
      | None =>
          client_upd cl (fun c => set_c_password c (Some a0)) ;;
          reply cl ($"OK" ++ [LF])
      end
  | _ => reply_err cl NUT_ERR_INVALID_ARGUMENT
  end.

(** ** server/netmisc.c: VER, NETVER, HELP and FSD; and STARTTLS without SSL *)

Definition NUT_NETVERSION : bytes := $"1.3".

Definition net_ver (cl : nat) (arg : list bytes) : M unit :=
  match arg with
  | [] =>
      conf ← get w_conf;
      reply cl ($"Network UPS Tools upsd " ++ UPS_VERSION conf ++ $" - "
                ++ nut_url (PACKAGE_URL conf) ++ [LF])
  | _ => reply_err cl NUT_ERR_INVALID_ARGUMENT
  end.

Definition net_netver (cl : nat) (arg : list bytes) : M unit :=
  match arg with
  | [] => reply cl (NUT_NETVERSION ++ [LF])
  | _ => reply_err cl NUT_ERR_INVALID_ARGUMENT
  end.

Definition net_help (cl : nat) (arg : list bytes) : M unit :=
  match arg with
  | [] => reply cl ($"Commands: HELP VER PROTVER GET LIST SET INSTCMD"
                    ++ $" LOGIN LOGOUT USERNAME PASSWORD STARTTLS" ++ [LF])
  | _ => reply_err cl NUT_ERR_INVALID_ARGUMENT
  end.

Definition net_fsd (cl : nat) (arg : list bytes) : M unit :=
  match arg with
  | [a0] =>
      ups ← get_ups_ptr a0;
      match ups with
      | None => reply_err cl NUT_ERR_UNKNOWN_UPS
      | Some ups =>
          ok ← client_checkaction cl ($"FSD");
          if ok =? 0 then reply_err cl NUT_ERR_ACCESS_DENIED
          else
            ups_upd ups (fun u => set_u_fsd u 1) ;;
            reply cl ($"OK FSD-SET" ++ [LF])
      end
  | _ => reply_err cl NUT_ERR_INVALID_ARGUMENT
  end.

(** netssl.c, in a build without SSL *)
Definition net_starttls (cl : nat) (arg : list bytes) : M unit :=
  reply_err cl NUT_ERR_FEATURE_NOT_SUPPORTED.
