(* ===== verification/NetSet.v ===== *)
(** * server/netset.c and server/netinstcmd.c: SET and INSTCMD

    Both check the request, send one line to the driver and answer. *)

From S2P Require Import Prelude CStr ParseConf StateTree Users Tracking World SState Upsd.
From S2P Require Import NetGet NetUser.
From stdpp Require Import options.

(** Is the value one of the enumeration, if there is one? *)
Definition enum_allows (etmp : list bytes) (newval : bytes) : bool :=
  match etmp with [] => true | _ => existsb (fun v => streq v newval) etmp end.

(** Is the value within one of the ranges, if there are any? *)
Definition range_allows (rtmp : list (Z * Z)) (newval : bytes) : bool :=
  match rtmp with
  | [] => true
  | _ => let inewval := atoi newval in
         existsb (fun r => (inewval >=? r.1) && (inewval <=? r.2)) rtmp
  end.

(** The line for the driver; [tracking_id] is the empty string when there is none. *)
Definition set_line (var newval tracking_id : bytes) : bytes :=
  let cmd := snprintf_s SMALLBUF ($"SET " ++ var ++ $" " ++ quoted (pconf_encode newval SMALLBUF)) in
  let cmd := match tracking_id with
             | [] => cmd | _ => snprintfcat cmd SMALLBUF ($" TRACKING " ++ tracking_id) end in
  snprintfcat cmd SMALLBUF [LF].

(** [if (tracking_id && *tracking_id) tracking_add(tracking_id)], the line to the driver and
    the answer: the end that both commands share. *)
Definition finish_command (cl ups : nat) (line tracking_id errtype : bytes) : M unit :=
  match tracking_id with
  | [] => mret tt
  | _ => do_tracking_add tracking_id ;; mret tt
  end ;;
  r ← sstate_sendline ups line;
  if r =? 0 then reply_err cl errtype
  else match tracking_id with
  | [] => reply cl ($"OK" ++ [LF])
  | _ => reply cl ($"OK TRACKING " ++ tracking_id ++ [LF])
  end.

Definition set_var (cl : nat) (upsname var newval tracking_id : bytes) : M unit :=
  ups ← get_ups_ptr upsname;
  match ups with
  | None => reply_err cl NUT_ERR_UNKNOWN_UPS
  | Some ups =>
      ok ← ups_available ups cl;
      if ok =? 0 then mret tt else
      ok ← client_checkaction cl ($"SET");
      if ok =? 0 then reply_err cl NUT_ERR_ACCESS_DENIED else
      u ← ups_get ups;
      match sstate_getinfo u var with
      | None => reply_err cl NUT_ERR_VAR_NOT_SUPPORTED
      | Some _ =>
          if Z.land (sstate_getflags u var) ST_FLAG_RW =? 0 then reply_err cl NUT_ERR_READONLY
          else if has_flag (sstate_getflags u var) ST_FLAG_STRING && (sstate_getaux u var <? 1)
          then reply_err cl NUT_ERR_SET_FAILED
          else if has_flag (sstate_getflags u var) ST_FLAG_STRING
                  && (sstate_getaux u var <? wrapS 32 (Z.of_nat (length newval)))
          then reply_err cl NUT_ERR_TOO_LONG
          else if negb (enum_allows (sstate_getenumlist u var) newval)
          then reply_err cl NUT_ERR_INVALID_VALUE
          else if negb (range_allows (sstate_getrangelist u var) newval)
          then reply_err cl NUT_ERR_INVALID_VALUE
          else finish_command cl ups (set_line var newval tracking_id) tracking_id NUT_ERR_SET_FAILED
      end
  end.

(** The id generated for a client that asked for tracking, else the empty string. *)
Definition new_tracking_id (cl : nat) : M bytes :=
  client ← client_get cl;
  if negb (c_tracking client =? 0) then nut_uuid_v4 else mret [].

Definition net_set (cl : nat) (arg : list bytes) : M unit :=
  match arg with
  | a0 :: a1 :: arg2 =>
      if strcaseeq a0 ($"VAR") then
        match arg2 with
        | a2 :: a3 :: _ =>
            tracking_id ← new_tracking_id cl;
            set_var cl a1 a2 a3 tracking_id
        | _ => reply_err cl NUT_ERR_INVALID_ARGUMENT
        end
      else if strcaseeq a0 ($"TRACKING") then
        if strcaseeq a1 ($"ON") then
          r ← tracking_enable;
          client_upd cl (fun c => set_c_tracking c r) ;;
          reply cl ($"OK" ++ [LF])
        else if strcaseeq a1 ($"OFF") then
          client_upd cl (fun c => set_c_tracking c 0) ;;
          tracking_disable ;;
          reply cl ($"OK" ++ [LF])
        else reply_err cl NUT_ERR_INVALID_ARGUMENT
      else reply_err cl NUT_ERR_INVALID_ARGUMENT
  | _ => reply_err cl NUT_ERR_INVALID_ARGUMENT
  end.

(** ** INSTCMD *)

Definition instcmd_line (cmdname : bytes) (value : option bytes) (tracking_id : bytes) : bytes :=
  let cmd := snprintf_s SMALLBUF ($"INSTCMD " ++ cmdname) in
  let cmd := match value with
             | None => cmd
             | Some v => snprintfcat cmd SMALLBUF ($" " ++ pconf_encode v SMALLBUF)
             end in
  let cmd := match tracking_id with
             | [] => cmd | _ => snprintfcat cmd SMALLBUF ($" TRACKING " ++ tracking_id) end in
  snprintfcat cmd SMALLBUF [LF].

Definition send_instcmd (cl : nat) (upsname cmdname : bytes) (value : option bytes)
    (tracking_id : bytes) : M unit :=
  ups ← get_ups_ptr upsname;
  match ups with
  | None => reply_err cl NUT_ERR_UNKNOWN_UPS
  | Some ups =>
      ok ← ups_available ups cl;
      if ok =? 0 then mret tt else
      u ← ups_get ups;
      if negb (existsb (fun name => strcaseeq name cmdname) (sstate_getcmdlist u))
      then reply_err cl NUT_ERR_CMD_NOT_SUPPORTED
      else
        client ← client_get cl;
        st ← get w_users;
        if user_checkinstcmd st (c_username client) (c_password client) cmdname =? 0
        then reply_err cl NUT_ERR_ACCESS_DENIED
        else finish_command cl ups (instcmd_line cmdname value tracking_id) tracking_id
               NUT_ERR_INSTCMD_FAILED
  end.

Definition net_instcmd (cl : nat) (arg : list bytes) : M unit :=
  match arg with
  | devname :: cmdname :: arg2 =>
      let cmdparam := match arg2 with [p] => Some p | _ => None end in
      tracking_id ← new_tracking_id cl;
      send_instcmd cl devname cmdname cmdparam tracking_id
  | _ => reply_err cl NUT_ERR_INVALID_ARGUMENT
  end.
