(* ===== verification/Server.v ===== *)
(** * server/upsd.c: dispatch of requests and the service loop *)

From S2P Require Import Prelude CStr ParseConf StateTree Users Desc Tracking World SState Upsd.
From S2P Require Import NetGet NetList NetUser NetSet.
From stdpp Require Import options.

(** netcmds.h *)
Definition FLAG_USER : Z := 0x0001.

Definition netcmds : list (bytes * (nat -> list bytes -> M unit) * Z) :=
  [($"VER", net_ver, 0);
   ($"NETVER", net_netver, 0);
   ($"PROTVER", net_netver, 0);
   ($"HELP", net_help, 0);
   ($"STARTTLS", net_starttls, 0);
   ($"GET", net_get, 0);
   ($"LIST", net_list, 0);
   ($"USERNAME", net_username, 0);
   ($"PASSWORD", net_password, 0);
   ($"LOGIN", net_login, FLAG_USER);
   ($"LOGOUT", net_logout, 0);
   ($"PRIMARY", net_primary, FLAG_USER);
   ($"MASTER", net_master, FLAG_USER);
   ($"FSD", net_fsd, FLAG_USER);
   ($"SET", net_set, FLAG_USER);
   ($"INSTCMD", net_instcmd, FLAG_USER)].

(** The test on the credentials, and the call; a build without tcp-wrappers. *)
Definition check_command (func : nat -> list bytes -> M unit) (flags : Z) (cl : nat)
    (arg : list bytes) : M unit :=
  client ← client_get cl;
  if has_flag flags FLAG_USER && bool_decide (c_username client = None)
  then reply_err cl NUT_ERR_USERNAME_REQUIRED
  else if has_flag flags FLAG_USER && bool_decide (c_password client = None)
  then reply_err cl NUT_ERR_PASSWORD_REQUIRED
  else func cl (drop 1 arg).

Definition parse_net (cl : nat) : M unit :=
  client ← client_get cl;
  match args (c_ctx client) with
  | [] => reply_err cl NUT_ERR_UNKNOWN_COMMAND
  | a0 :: _ =>
      match find (fun cmd => strcaseeq cmd.1.1 a0) netcmds with
      | Some (_, func, flags) => check_command func flags cl (args (c_ctx client))
      | None => reply_err cl NUT_ERR_UNKNOWN_COMMAND
      end
  end.

(** The loop over the bytes read. *)
Fixpoint client_feed (cl : nat) (buf : bytes) : M unit :=
  match buf with
  | [] => mret tt
  | ch :: buf' =>
      client ← client_get cl;
      let '(r, ctx) := pconf_char (c_ctx client) ch in
      client_upd cl (fun c => set_c_ctx c ctx) ;;
      if r =? 1 then
        now ← time;
        client_upd cl (fun c => set_c_last_heard c now) ;;
        parse_net cl ;;
        client_feed cl buf'
      else if r =? 0 then client_feed cl buf'
      else mret tt
  end.

Definition client_readline (cl : nat) (res : read_result) : M unit :=
  match res with
  | ReadAgain | ReadError => client_disconnect cl
  | ReadData [] => client_disconnect cl
  | ReadData buf => client_feed cl buf
  end.

(** ** The service loop

    One pass over the drivers and one over the clients, as [mainloop] does before it
    polls; the selection of descriptors to poll is not modelled. *)

Definition driver_scan (ups : nat) : M unit :=
  conf ← get w_conf;
  u ← ups_get ups;
  connected ← (if negb (u_conn u) then
                 fd ← sstate_connect ups;
                 ups_upd ups (fun u => set_u_conn u fd) ;;
                 mret fd
               else mret true);
  if negb connected then mret tt
  else
    dead ← sstate_dead ups (maxage conf);
    if negb (dead =? 0) then ups_data_stale ups else ups_data_ok ups.

Definition client_scan (cl : nat) : M unit :=
  now ← time;
  client ← client_get cl;
  when (now - c_last_heard client >? 60) (client_disconnect cl).

Definition mainloop_scan : M unit :=
  conf ← get w_conf;
  now ← time;
  modify (fun w => set_w_tracking w (tracking_cleanup now (tracking_delay conf) (w_tracking w))) ;;
  upses ← get w_ups;
  for_each (seq 0 (length upses)) driver_scan ;;
  clients ← get w_clients;
  for_each (c_id <$> clients) client_scan.

(** What [poll] reports, one descriptor at a time. *)
Inductive event :=
| EvDriver (ups : nat) (res : read_result)
| EvDriverHup (ups : nat)
| EvClient (cl : nat) (res : read_result)
| EvClientHup (cl : nat)
| EvServer (addr : option bytes).

Definition handle_event (e : event) : M unit :=
  match e with
  | EvDriver ups res => sstate_readline ups res
  | EvDriverHup ups => sstate_disconnect ups
  | EvClient cl res => client_readline cl res
  | EvClientHup cl => client_disconnect cl
  | EvServer addr => client_connect addr
  end.
