(* ===== verification/ServerLib.v ===== *)
(** * Reasoning about the protocol handlers

    [quiet cl n w w']: [w'] is [w] after [n] lines were sent to client [cl], the only
    other changes being that the client may have been marked for disconnection and
    that system results and random numbers were consumed.  Weakest-precondition rules
    of the primitives that the handlers are made of. *)

From S2P Require Import Prelude CStr ParseConf StateTree StateFacts Users Desc Tracking World.
From S2P Require Import SState Upsd NetGet NetList NetUser NetSet Server.
From stdpp Require Import options.

(** ** Clients by identity *)

Lemma client_find_elem cl l c : client_find cl l = Some c -> c ∈ l /\ c_id c = cl.
Proof.
  intros [Hin E]%find_some. split; [by apply list_elem_of_In|]. by apply Nat.eqb_eq.
Qed.

Lemma client_find_alter cl f l c :
  (forall c, c_id (f c) = c_id c) -> client_find cl l = Some c ->
  client_find cl (client_alter cl f l) = Some (f c).
Proof.
  intros Hf. induction l as [|d l IH]; simpl; [done|].
  destruct (c_id d =? cl)%nat eqn:E; simpl; [intros [= ->]; by rewrite Hf, E|].
  by rewrite E.
Qed.

Lemma client_alter_alter cl f g l :
  (forall c, c_id (g c) = c_id c) ->
  client_alter cl f (client_alter cl g l) = client_alter cl (fun c => f (g c)) l.
Proof.
  intros Hg. induction l as [|d l IH]; simpl; [done|]. rewrite IH. f_equal.
  destruct (c_id d =? cl)%nat eqn:E; [by rewrite Hg, E|by rewrite E].
Qed.

Lemma client_alter_ids cl f l :
  (forall c, c_id (f c) = c_id c) -> c_id <$> client_alter cl f l = c_id <$> l.
Proof.
  intros Hf. induction l as [|d l IH]; csimpl; [done|]. rewrite IH. f_equal. by case_match.
Qed.

(** ** Quiet steps *)

Definition to_client (cl : nat) (o : output) : Prop := exists ans ok, o = ToClient cl ans ok.

Definition mark_dead (c : nut_ctype) : nut_ctype := set_c_last_heard c 0.

Record quiet (cl n : nat) (w w' : world) : Prop := {
  q_ups : w_ups w' = w_ups w;
  q_next : w_next_id w' = w_next_id w;
  q_users : w_users w' = w_users w;
  q_desc : w_desc w' = w_desc w;
  q_tracking : w_tracking w' = w_tracking w;
  q_enabled : w_tracking_enabled w' = w_tracking_enabled w;
  q_now : w_now w' = w_now w;
  q_conf : w_conf w' = w_conf w;
  q_clients : w_clients w' = w_clients w \/ w_clients w' = client_alter cl mark_dead (w_clients w);
  q_out : exists outs, w_out w' = w_out w ++ outs /\ length outs = n /\ Forall (to_client cl) outs
}.

Lemma quiet_refl cl w : quiet cl 0 w w.
Proof. split; auto. exists []. by rewrite app_nil_r. Qed.

Lemma quiet_trans cl n m w1 w2 w3 :
  quiet cl n w1 w2 -> quiet cl m w2 w3 -> quiet cl (n + m) w1 w3.
Proof.
  intros [? ? ? ? ? ? ? ? Hc (o1 & Ho1 & Hn1 & Hf1)] [? ? ? ? ? ? ? ? Hc' (o2 & Ho2 & Hn2 & Hf2)].
  split; try congruence.
  - destruct Hc as [Hc|Hc], Hc' as [Hc'|Hc']; rewrite Hc', Hc; auto.
    right. by rewrite client_alter_alter.
  - exists (o1 ++ o2). rewrite Ho2, Ho1, app_assoc, length_app, Forall_app. auto with lia.
Qed.

Lemma quiet_client cl n w w' c :
  quiet cl n w w' -> client_find cl (w_clients w) = Some c ->
  exists c', client_find cl (w_clients w') = Some c' /\ (c' = c \/ c' = mark_dead c).
Proof.
  intros Hq Hc. destruct (q_clients _ _ _ _ Hq) as [-> | ->]; [eauto|].
  exists (mark_dead c). split; [|auto]. by apply client_find_alter.
Qed.

(** [w'] differs from [w] in the random numbers left only. *)
Lemma quiet_rand cl w rs : quiet cl 0 w (set_w_rand w rs).
Proof. split; auto. exists []. by rewrite app_nil_r. Qed.

(** ** Rules *)

Lemma wp_syscall Q w : (forall b bs, Q b (set_w_sys w bs)) -> wp syscall Q w.
Proof.
  unfold wp, syscall. intros H. destruct (w_sys w) as [|b bs] eqn:E; [|done].
  specialize (H true []). rewrite <- E in H. by destruct w.
Qed.

Lemma wp_client_upd cl f c Q w :
  client_find cl (w_clients w) = Some c ->
  Q tt (set_w_clients w (client_alter cl f (w_clients w))) -> wp (client_upd cl f) Q w.
Proof. intros Hc HQ. unfold client_upd. apply wp_bind. by eapply wp_client_get. Qed.

Lemma wp_ups_upd i f u Q w :
  w_ups w !! i = Some u -> Q tt (set_w_ups w (alter f i (w_ups w))) -> wp (ups_upd i f) Q w.
Proof. intros Hu HQ. unfold ups_upd. apply wp_bind. by eapply wp_ups_get. Qed.

Lemma wp_sendback cl s c (Q : Z -> world -> Prop) w :
  client_find cl (w_clients w) = Some c ->
  (forall r w', quiet cl 1 w w' -> r = 0 \/ r = 1 -> Q r w') -> wp (sendback cl s) Q w.
Proof.
  intros Hc HQ. unfold sendback. apply wp_bind. eapply wp_client_get; [done|].
  apply wp_bind, wp_syscall. intros ok bs. apply wp_bind. unfold emit. apply wp_modify.
  destruct ok; simpl.
  - apply wp_ret, HQ; [|auto]. split; simpl; auto.
    eexists. split; [done|]. split; [done|]. repeat constructor. by eexists _, _.
  - apply wp_bind. eapply wp_client_upd; [done|]. apply wp_ret, HQ; [|auto]. split; simpl; auto.
    eexists. split; [done|]. split; [done|]. repeat constructor. by eexists _, _.
Qed.

Lemma wp_reply cl s c (Q : unit -> world -> Prop) w :
  client_find cl (w_clients w) = Some c ->
  (forall w', quiet cl 1 w w' -> Q tt w') -> wp (reply cl s) Q w.
Proof.
  intros Hc HQ. unfold reply. apply wp_bind. eapply wp_sendback; [done|]. intros r w' Hq _.
  by apply wp_ret, HQ.
Qed.

Lemma wp_reply_err cl e c (Q : unit -> world -> Prop) w :
  client_find cl (w_clients w) = Some c ->
  (forall w', quiet cl 1 w w' -> Q tt w') -> wp (reply_err cl e) Q w.
Proof. apply wp_reply. Qed.

Lemma ups_find_Some l name i :
  ups_find l name = Some i -> exists u, l !! i = Some u /\ strcaseeq (u_name u) name = true.
Proof.
  revert i. induction l as [|u l IH]; intros i; simpl; [done|].
  destruct (strcaseeq (u_name u) name) eqn:E; [intros [= <-]; eauto|].
  destruct (ups_find l name) as [j|]; [|done]. intros [= <-]. by apply IH.
Qed.

Lemma wp_get_ups {A} name (k : option nat -> M A) Q w :
  (ups_find (w_ups w) name = None -> wp (k None) Q w) ->
  (forall i u, ups_find (w_ups w) name = Some i -> w_ups w !! i = Some u ->
    strcaseeq (u_name u) name = true -> wp (k (Some i)) Q w) ->
  wp (get_ups_ptr name ≫= k) Q w.
Proof.
  intros HN HS. apply wp_bind. unfold get_ups_ptr. apply wp_get.
  destruct (ups_find (w_ups w) name) as [i|] eqn:E; [|auto].
  destruct (ups_find_Some _ _ _ E) as (u & Hu & Hn). eauto.
Qed.

Definition available (u : upstype) : Prop := u_conn u = true /\ u_stale u = 0.

Lemma wp_available {A} i cl u c (k : Z -> M A) Q w :
  w_ups w !! i = Some u -> client_find cl (w_clients w) = Some c ->
  (available u -> wp (k 1) Q w) ->
  (forall w', ~ available u -> quiet cl 1 w w' -> wp (k 0) Q w') ->
  wp (ups_available i cl ≫= k) Q w.
Proof.
  intros Hu Hc H1 H0. apply wp_bind. unfold ups_available. apply wp_bind.
  eapply wp_ups_get; [done|]. unfold available in *. destruct (u_conn u) eqn:Ec; simpl.
  - destruct (u_stale u =? 0) eqn:Es; simpl; breflect; [by apply wp_ret, H1|].
    apply wp_bind. eapply wp_sendback; [done|]. intros. apply wp_ret, H0; [|done]. by intros [_ ?].
  - apply wp_bind. eapply wp_sendback; [done|]. intros. apply wp_ret, H0; [|done]. by intros [? _].
Qed.

Lemma wp_checkaction {A} cl act c (k : Z -> M A) Q w :
  client_find cl (w_clients w) = Some c ->
  wp (k (user_checkaction (w_users w) (c_username c) (c_password c) act)) Q w ->
  wp (client_checkaction cl act ≫= k) Q w.
Proof. intros Hc HQ. unfold client_checkaction, wp, mbind, M_bind, client_get. by rewrite Hc. Qed.
