(* ===== verification/ServerFacts.v ===== *)
(** * What a request can do

    [request_step] is the abstract specification of one request of a client: the
    server either only answers, or records the client's credentials, or does one of
    the privileged things, under the conditions that entitle the client to it.
    [parse_net] refines it; the theorems on access control and on replies follow, and those on the identifiers of
    tracking. *)

From S2P Require Import Prelude CStr ParseConf Users UsersFacts Desc Tracking StateTree StateFacts World SState Upsd.
From S2P Require Import NetGet NetList NetUser NetSet Server ServerLib.
From stdpp Require Import options.

(** One step of a handler: leave the monad, or use the rule of the primitive. *)
Ltac handler_step :=
  match goal with
  | |- wp (mret _) _ _ => apply wp_ret
  | |- wp (reply _ _) _ _ => eapply wp_reply; [eassumption|intros ? ?]
  | |- wp (reply_err _ _) _ _ => eapply wp_reply_err; [eassumption|intros ? ?]
  | |- wp (get_ups_ptr _ ≫= _) _ _ => apply wp_get_ups; [intros ?|intros ? ? ? ? ?]
  | |- wp (ups_available _ _ ≫= _) _ _ =>
      eapply wp_available; [eassumption|eassumption|intros ?|intros ? ? ?]
  | |- wp (client_checkaction _ _ ≫= _) _ _ => eapply wp_checkaction; [eassumption|]
  | |- wp (get _ ≫= _) _ _ => apply wp_bind, wp_get
  | |- wp (time ≫= _) _ _ => apply wp_bind, wp_get
  | |- wp (ups_get _ ≫= _) _ _ => apply wp_bind; eapply wp_ups_get; [eassumption|]
  | |- wp (client_get _ ≫= _) _ _ => apply wp_bind; eapply wp_client_get; [eassumption|]
  end; cbn [Z.eqb] in *.

(** ... or look at the cases of the code. *)
Ltac handler_cases :=
  match goal with
  | |- wp (if ?b then _ else _) _ _ => destruct b eqn:?
  | |- wp (match ?x with _ => _ end) _ _ => destruct x eqn:?
  end.

Ltac handler := repeat (handler_step || handler_cases).

Section Handlers.
#[local] Set Default Proof Using "All".
Context (cl : nat) (w : world) (c : nut_ctype) (Hc : client_find cl (w_clients w) = Some c).

Definition answers_once (m : M unit) : Prop := wp m (fun _ w' => quiet cl 1 w w') w.

Lemma get_numlogins_quiet u : answers_once (get_numlogins cl u).
Proof. unfold answers_once, get_numlogins. handler; done. Qed.
Lemma get_upsdesc_quiet u : answers_once (get_upsdesc cl u).
Proof. unfold answers_once, get_upsdesc. handler; done. Qed.
Lemma get_desc_quiet u v : answers_once (get_desc cl u v).
Proof. unfold answers_once, get_desc. handler; done. Qed.
Lemma get_cmddesc_quiet u v : answers_once (get_cmddesc cl u v).
Proof. unfold answers_once, get_cmddesc. handler; done. Qed.
Lemma get_type_quiet u v : answers_once (get_type cl u v).
Proof. unfold answers_once, get_type. handler; done. Qed.
Lemma get_var_quiet u v : answers_once (get_var cl u v).
Proof. unfold answers_once, get_var, get_var_server. handler; done. Qed.

Lemma net_get_quiet arg : answers_once (net_get cl arg).
Proof.
  unfold answers_once, net_get.
  repeat match goal with
  | |- wp (get_numlogins _ _) _ _ => apply get_numlogins_quiet
  | |- wp (get_upsdesc _ _) _ _ => apply get_upsdesc_quiet
  | |- wp (get_desc _ _ _) _ _ => apply get_desc_quiet
  | |- wp (get_cmddesc _ _ _) _ _ => apply get_cmddesc_quiet
  | |- wp (get_type _ _ _) _ _ => apply get_type_quiet
  | |- wp (get_var _ _ _) _ _ => apply get_var_quiet
  | |- _ => handler_step || handler_cases
  end; done.
Qed.

Lemma net_misc_quiet arg :
  answers_once (net_ver cl arg) /\ answers_once (net_netver cl arg) /\ answers_once (net_help cl arg)
  /\ answers_once (net_starttls cl arg).
Proof.
  unfold answers_once, net_ver, net_netver, net_help, net_starttls.
  split_and!; handler; done.
Qed.

Lemma do_net_primary_quiet arg :
  wp (do_net_primary cl arg)
    (fun r w' => (r = 0 /\ w' = w) \/ (r = -1 /\ quiet cl 1 w w')) w.
Proof.
  unfold do_net_primary.
  repeat match goal with
  | |- wp (reply_err _ _ ≫= _) _ _ => apply wp_bind
  | |- _ => handler_step || handler_cases
  end; auto.
Qed.

Lemma net_primary_quiet arg : answers_once (net_primary cl arg) /\ answers_once (net_master cl arg).
Proof.
  unfold answers_once, net_primary, net_master.
  split; apply wp_bind; (eapply wp_mono; [apply do_net_primary_quiet|]);
    intros r w' [[-> ->]|[-> Hq]]; apply wp_when; simpl; handler; done.
Qed.

Lemma net_logout_quiet arg : answers_once (net_logout cl arg).
Proof.
  unfold answers_once, net_logout. destruct arg; [|handler; done].
  apply wp_bind. handler_step.
  destruct (quiet_client _ _ _ _ _ H Hc) as (c' & Hc' & _).
  eapply wp_client_upd; [done|]. pose proof (q_clients _ _ _ _ H) as Hcl.
  destruct H. split; simpl; auto. right.
  destruct Hcl as [-> | ->]; [done|]. by rewrite client_alter_alter.
Qed.
End Handlers.

(** ** Lists: the lines in order until a write fails *)

Definition sends (cl : nat) (w : world) (r : Z) (w' : world) : Prop :=
  (r = 0 \/ r = 1) /\ exists n, quiet cl n w w'.

Lemma tree_dump_sends t cl ups rw fsd w c :
  client_find cl (w_clients w) = Some c -> wp (tree_dump t cl ups rw fsd) (sends cl w) w.
Proof.
  revert w c. induction t as [|n l IHl r IHr]; intros w c Hc.
  { split; [auto|]. exists 0%nat. apply quiet_refl. }
  cbn [tree_dump]. apply wp_bind. eapply wp_mono; [by eapply IHl|].
  intros r1 w1 [Hr1 [n1 Hq1]]. destruct (quiet_client _ _ _ _ _ Hq1 Hc) as (c1 & Hc1 & _).
  destruct (r1 =? 0); [apply wp_ret; split; eauto|]. apply wp_bind.
  destruct (dump_line ups rw fsd n) as [line|].
  - eapply wp_sendback; [exact Hc1|]. intros r2 w2 Hq2 _.
    pose proof (quiet_trans _ _ _ _ _ _ Hq1 Hq2) as Hq. clear Hq1 Hq2.
    destruct (negb (r2 =? 1)); [apply wp_ret; split; eauto|].
    destruct (quiet_client _ _ _ _ _ Hq Hc) as (c2 & Hc2 & _).
    eapply wp_mono; [by eapply IHr|]. intros r3 w3 [Hr3 [n3 Hq3]]. split; [done|].
    eexists. by eapply quiet_trans.
  - apply wp_ret. eapply wp_mono; [by eapply IHr|]. intros r3 w3 [Hr3 [n3 Hq3]]. split; [done|].
    eexists. by eapply quiet_trans.
Qed.

Lemma send_lines_sends lines cl w c :
  client_find cl (w_clients w) = Some c -> wp (send_lines cl lines) (sends cl w) w.
Proof.
  revert w c. induction lines as [|line lines IH]; intros w c Hc.
  { split; [auto|]. exists 0%nat. apply quiet_refl. }
  cbn [send_lines]. apply wp_bind. eapply wp_sendback; [exact Hc|]. intros r1 w1 Hq1 _.
  destruct (r1 =? 0); [apply wp_ret; split; eauto|].
  destruct (quiet_client _ _ _ _ _ Hq1 Hc) as (c1 & Hc1 & _).
  eapply wp_mono; [by eapply IH|]. intros r3 w3 [Hr3 [n3 Hq3]]. split; [done|].
  eexists. by eapply quiet_trans.
Qed.

Definition answers (cl : nat) (w w' : world) : Prop := exists n, (1 <= n)%nat /\ quiet cl n w w'.

Lemma answers_one cl w w' : quiet cl 1 w w' -> answers cl w w'.
Proof. exists 1%nat. auto with lia. Qed.

(** BEGIN, the body, END: the shape of every list. *)
Lemma list_head cl head (k : M unit) w c :
  client_find cl (w_clients w) = Some c ->
  (forall w1 c1, client_find cl (w_clients w1) = Some c1 -> quiet cl 1 w w1 ->
    wp k (fun _ w' => answers cl w w') w1) ->
  wp (r ← sendback cl head; if r =? 0 then mret tt else k) (fun _ w' => answers cl w w') w.
Proof.
  intros Hc Hk. apply wp_bind. eapply wp_sendback; [exact Hc|]. intros r1 w1 Hq1 _.
  destruct (r1 =? 0); [apply wp_ret; by apply answers_one|].
  destruct (quiet_client _ _ _ _ _ Hq1 Hc) as (c1 & Hc1 & _). by eapply Hk.
Qed.

Lemma list_body cl (m : M Z) tail w w1 c1 :
  client_find cl (w_clients w1) = Some c1 -> quiet cl 1 w w1 -> wp m (sends cl w1) w1 ->
  wp (r ← m; if r =? 0 then mret tt else reply cl tail) (fun _ w' => answers cl w w') w1.
Proof.
  intros Hc1 Hq1 Hm. apply wp_bind. eapply wp_mono; [exact Hm|]. intros r2 w2 [_ [n2 Hq2]].
  pose proof (quiet_trans _ _ _ _ _ _ Hq1 Hq2) as Hq.
  destruct (r2 =? 0); [apply wp_ret; eexists; split; [|exact Hq]; lia|].
  destruct (quiet_client _ _ _ _ _ Hq2 Hc1) as (c2 & Hc2 & _).
  eapply wp_reply; [exact Hc2|]. intros w3 Hq3. exists (1 + n2 + 1)%nat. split; [lia|].
  by eapply quiet_trans.
Qed.

(** The UPSes are not changed by what was sent. *)
Lemma ups_read {A} cl i u w w1 (k : upstype -> M A) Q :
  w_ups w !! i = Some u -> quiet cl 1 w w1 -> wp (k u) Q w1 -> wp (ups_get i ≫= k) Q w1.
Proof.
  intros Hu Hq Hm. apply wp_bind. eapply wp_ups_get; [|done]. by rewrite (q_ups _ _ _ _ Hq).
Qed.

Ltac list_handler :=
  repeat first
    [ apply answers_one; assumption
    | eapply list_head; [eassumption|intros ? ? ? ?]
    | eapply ups_read; [eassumption|eassumption|]
    | eapply list_body; [eassumption|eassumption|first [by eapply tree_dump_sends|by eapply send_lines_sends]]
    | handler_step | handler_cases ].

Section Lists.
Context (cl : nat) (w : world) (c : nut_ctype) (Hc : client_find cl (w_clients w) = Some c).
#[local] Set Default Proof Using "All".

Definition lists (m : M unit) : Prop := wp m (fun _ w' => answers cl w w') w.

Lemma list_var_answers u : lists (list_var cl u).
Proof. unfold lists, list_var. list_handler. Qed.
Lemma list_rw_answers u : lists (list_rw cl u).
Proof. unfold lists, list_rw. list_handler. Qed.
Lemma list_cmd_answers u : lists (list_cmd cl u).
Proof. unfold lists, list_cmd. list_handler. Qed.
Lemma list_enum_answers u v : lists (list_enum cl u v).
Proof. unfold lists, list_enum. list_handler. Qed.
Lemma list_range_answers u v : lists (list_range cl u v).
Proof. unfold lists, list_range. list_handler. Qed.
Lemma list_ups_answers : lists (list_ups cl).
Proof. unfold lists, list_ups. list_handler. Qed.
Lemma list_clients_answers u : lists (list_clients cl u).
Proof. unfold lists, list_clients. list_handler. Qed.

Lemma net_list_answers arg : lists (net_list cl arg).
Proof.
  unfold lists, net_list.
  repeat match goal with
  | |- wp (list_var _ _) _ _ => apply list_var_answers
  | |- wp (list_rw _ _) _ _ => apply list_rw_answers
  | |- wp (list_cmd _ _) _ _ => apply list_cmd_answers
  | |- wp (list_enum _ _ _) _ _ => apply list_enum_answers
  | |- wp (list_range _ _ _) _ _ => apply list_range_answers
  | |- wp (list_ups _) _ _ => apply list_ups_answers
  | |- wp (list_clients _ _) _ _ => apply list_clients_answers
  | |- _ => handler_step || handler_cases
  end; by apply answers_one.
Qed.
End Lists.

(** ** The abstract specification of a request *)

Definition upd_client (cl : nat) (f : nut_ctype -> nut_ctype) (w : world) : world :=
  set_w_clients w (client_alter cl f (w_clients w)).

Definition upd_ups (i : nat) (f : upstype -> upstype) (w : world) : world :=
  set_w_ups w (alter f i (w_ups w)).

(** The client's credentials entitle it to an action. *)
Definition may (w : world) (c : nut_ctype) (action : bytes) : Prop :=
  user_checkaction (w_users w) (c_username c) (c_password c) action = 1.

(** The new value satisfies everything the driver said about the variable. *)
Definition value_allowed (n : st_node) (newval : bytes) : Prop :=
  has_flag (n_flags n) ST_FLAG_RW = true
  /\ (has_flag (n_flags n) ST_FLAG_STRING = true ->
      1 <= n_aux n /\ wrapS 32 (Z.of_nat (length newval)) <= n_aux n)
  /\ enum_allows (n_enum_list n) newval = true
  /\ range_allows (n_range_list n) newval = true.

(** The lines the server sends to a driver on behalf of a client, and when. *)
Inductive driver_request (w : world) (c : nut_ctype) (u : upstype) (id : bytes) : bytes -> Prop :=
| DR_set var newval node :
    may w c ($"SET") ->
    sstate_getnode u var = Some node -> value_allowed node newval ->
    driver_request w c u id (set_line var newval id)
| DR_instcmd cmdname value :
    user_checkinstcmd (w_users w) (c_username c) (c_password c) cmdname = 1 ->
    (exists name, name ∈ u_cmdlist u /\ lower name = lower cmdname) ->
    driver_request w c u id (instcmd_line cmdname value id).

(** The tracking entry of a command, when it has an id. *)
Definition track (id : bytes) (w : world) : world :=
  match id with
  | [] => w
  | _ => set_w_tracking w (tracking_add (w_tracking_enabled w) (w_now w) (w_tracking w) id).1
  end.

Definition disconnected (u : upstype) : upstype :=
  set_u_conn (set_u_sock_ctx (set_u_cmdlist (set_u_inforoot u Leaf) []) (pconf_finish (u_sock_ctx u))) false.

(** The line was written; a failed write drops the connection to the driver. *)
Definition driver_sent (i : nat) (line : bytes) (ok : bool) (w : world) : world :=
  let w := set_w_out w (w_out w ++ [ToDriver i line ok]) in
  if ok then w else upd_ups i disconnected w.

Inductive request_step (cl : nat) (c : nut_ctype) (w : world) : world -> Prop :=
| RS_answer w' : quiet cl 1 w w' -> request_step cl c w w'
| RS_list w' :
    (exists a0, head (args (c_ctx c)) = Some a0 /\ strcaseeq ($"LIST") a0 = true) ->
    answers cl w w' -> request_step cl c w w'
| RS_username a0 w' :
    c_username c = None ->
    quiet cl 1 (upd_client cl (fun c => set_c_username c (Some a0)) w) w' -> request_step cl c w w'
| RS_password a0 w' :
    c_password c = None ->
    quiet cl 1 (upd_client cl (fun c => set_c_password c (Some a0)) w) w' -> request_step cl c w w'
| RS_login i u w' :
    may w c ($"LOGIN") -> c_loginups c = None -> w_ups w !! i = Some u ->
    quiet cl 1 (upd_client cl (fun c => set_c_loginups c (Some (u_name u)))
      (upd_ups i (fun u => set_u_numlogins u (u_numlogins u + 1)) w)) w' ->
    request_step cl c w w'
| RS_fsd i u w' :
    may w c ($"FSD") -> w_ups w !! i = Some u ->
    quiet cl 1 (upd_ups i (fun u => set_u_fsd u 1) w) w' -> request_step cl c w w'
| RS_tracking_on w' :
    c_username c <> None -> c_password c <> None ->
    quiet cl 1 (upd_client cl (fun c => set_c_tracking c 1) (set_w_tracking_enabled w 1)) w' ->
    request_step cl c w w'
| RS_tracking_off w' :
    c_username c <> None -> c_password c <> None ->
    quiet cl 1 (upd_client cl (fun c => set_c_tracking c 0) w) w' -> request_step cl c w w'
| RS_driver i u id line ok rs bs w' :
    w_ups w !! i = Some u -> available u -> driver_request w c u id line ->
    quiet cl 1 (driver_sent i line ok (set_w_sys (track id (set_w_rand w rs)) bs)) w' ->
    request_step cl c w w'.

(** *** The privileged handlers *)

Lemma checkaction_may w c act :
  (user_checkaction (w_users w) (c_username c) (c_password c) act =? 0) = false -> may w c act.
Proof.
  intros H%Z.eqb_neq. unfold may.
  assert (forall l un pw, checkaction_loop l un pw act = 0 \/ checkaction_loop l un pw act = 1) as Hl.
  { clear. intros l un pw. induction l as [|u l IH]; simpl; [auto|]. repeat case_match; auto. }
  unfold user_checkaction in *. repeat case_match; try done.
  match goal with |- checkaction_loop ?l ?u ?p _ = 1 => destruct (Hl l u p) end; congruence.
Qed.

Lemma checkinstcmd_one st un pw cmd :
  (user_checkinstcmd st un pw cmd =? 0) = false -> user_checkinstcmd st un pw cmd = 1.
Proof.
  intros H%Z.eqb_neq.
  assert (forall l un pw, checkinstcmd_loop l un pw cmd = 0 \/ checkinstcmd_loop l un pw cmd = 1) as Hl.
  { clear. intros l un pw. induction l as [|u l IH]; simpl; [auto|]. repeat case_match; auto. }
  unfold user_checkinstcmd in *. repeat case_match; try done.
  match goal with |- checkinstcmd_loop ?l ?u ?p _ = 1 => destruct (Hl l u p) end; congruence.
Qed.

Lemma upd_client_find cl f w c :
  (forall c, c_id (f c) = c_id c) -> client_find cl (w_clients w) = Some c ->
  client_find cl (w_clients (upd_client cl f w)) = Some (f c).
Proof. apply client_find_alter. Qed.

(** An assignment to the client, then the rest. *)
Lemma wp_upd_client {A} cl f c (k : unit -> M A) Q w :
  client_find cl (w_clients w) = Some c ->
  wp (k tt) Q (upd_client cl f w) -> wp (client_upd cl f ≫= k) Q w.
Proof. intros Hc Hk. apply wp_bind. by eapply wp_client_upd. Qed.

Lemma wp_upd_ups {A} i f u (k : unit -> M A) Q w :
  w_ups w !! i = Some u -> wp (k tt) Q (upd_ups i f w) -> wp (ups_upd i f ≫= k) Q w.
Proof. intros Hu Hk. apply wp_bind. by eapply wp_ups_upd. Qed.

Lemma upd_ups_lookup i f u w :
  w_ups w !! i = Some u -> w_ups (upd_ups i f w) !! i = Some (f u).
Proof. intros Hu. simpl. by rewrite list_lookup_alter_eq, Hu. Qed.

Section Privileged.
Context (cl : nat) (w : world) (c : nut_ctype) (Hc : client_find cl (w_clients w) = Some c).
#[local] Set Default Proof Using "All".

Definition does_step (m : M unit) : Prop := wp m (fun _ w' => request_step cl c w w') w.

Lemma answers_once_step m : answers_once cl w m -> does_step m.
Proof. intros H. eapply wp_mono; [exact H|]. intros [] w'. apply RS_answer. Qed.

Lemma net_username_step arg : does_step (net_username cl arg).
Proof.
  unfold does_step, net_username. handler; try (by apply RS_answer).
  eapply wp_upd_client; [exact Hc|]. eapply wp_reply; [by apply upd_client_find|].
  intros w' Hq. by eapply RS_username.
Qed.

Lemma net_password_step arg : does_step (net_password cl arg).
Proof.
  unfold does_step, net_password. handler; try (by apply RS_answer).
  eapply wp_upd_client; [exact Hc|]. eapply wp_reply; [by apply upd_client_find|].
  intros w' Hq. by eapply RS_password.
Qed.

Lemma net_login_step arg : does_step (net_login cl arg).
Proof.
  unfold does_step, net_login. handler; try (by apply RS_answer).
  eapply wp_upd_ups; [eassumption|]. apply wp_bind.
  eapply wp_ups_get; [by apply upd_ups_lookup|].
  eapply wp_upd_client; [exact Hc|]. eapply wp_reply; [by apply upd_client_find|].
  intros w' Hq. eapply RS_login; eauto using checkaction_may.
Qed.

Lemma net_fsd_step arg : does_step (net_fsd cl arg).
Proof.
  unfold does_step, net_fsd. handler; try (by apply RS_answer).
  eapply wp_upd_ups; [eassumption|]. eapply wp_reply; [exact Hc|].
  intros w' Hq. eapply RS_fsd; eauto using checkaction_may.
Qed.

Lemma wp_disconnect i u Q w1 :
  w_ups w1 !! i = Some u -> u_conn u = true ->
  Q tt (upd_ups i disconnected w1) -> wp (sstate_disconnect i) Q w1.
Proof.
  intros Hu Hconn HQ. unfold sstate_disconnect, sstate_infofree, sstate_cmdfree. apply wp_bind.
  eapply wp_ups_get; [done|]. rewrite Hconn. simpl.
  eapply wp_upd_ups; [exact Hu|]. eapply wp_upd_ups; [by apply upd_ups_lookup|].
  eapply wp_upd_ups; [by do 2 apply upd_ups_lookup|].
  eapply wp_ups_upd; [by do 3 apply upd_ups_lookup|].
  unfold upd_ups in *. simpl in *. rewrite !list_alter_alter_eq. exact HQ.
Qed.

Lemma wp_sendline i u line (Q : Z -> world -> Prop) w1 :
  w_ups w1 !! i = Some u -> u_conn u = true ->
  (forall ok bs, Q (Zbool ok) (driver_sent i line ok (set_w_sys w1 bs))) ->
  wp (sstate_sendline i line) Q w1.
Proof.
  intros Hu Hconn HQ. unfold sstate_sendline. apply wp_bind. eapply wp_ups_get; [done|].
  rewrite Hconn. simpl. apply wp_bind. unfold driver_write. apply wp_bind, wp_syscall.
  intros ok bs. apply wp_bind. unfold emit. apply wp_modify, wp_ret. specialize (HQ ok bs).
  destruct ok; [by apply wp_ret|]. apply wp_bind.
  eapply wp_disconnect; [exact Hu|done|]. by apply wp_ret.
Qed.

Lemma wp_finish_command i u line id err w1 c1 (Q : unit -> world -> Prop) :
  w_ups w1 !! i = Some u -> u_conn u = true -> client_find cl (w_clients w1) = Some c1 ->
  (forall ok bs w', quiet cl 1 (driver_sent i line ok (set_w_sys (track id w1) bs)) w' -> Q tt w') ->
  wp (finish_command cl i line id err) Q w1.
Proof.
  intros Hu Hconn Hc1 HQ. unfold finish_command. apply wp_bind.
  assert (wp (match id with [] => mret tt | _ => do_tracking_add id ;; mret tt end)
            (fun _ w2 => w2 = track id w1) w1) as Ht.
  { destruct id; [done|]. unfold wp, mbind, M_bind, do_tracking_add, mbind, M_bind, time, get, track.
    by destruct (tracking_add _ _ _ _). }
  eapply wp_mono; [exact Ht|]. intros [] w2 ->. clear Ht. apply wp_bind.
  assert (w_ups (track id w1) !! i = Some u) as Hu2 by (by destruct id).
  assert (client_find cl (w_clients (track id w1)) = Some c1) as Hc2 by (by destruct id).
  eapply wp_sendline; [exact Hu2|done|]. intros ok bs.
  assert (client_find cl (w_clients (driver_sent i line ok (set_w_sys (track id w1) bs))) = Some c1)
    as Hc3 by (by destruct ok).
  specialize (HQ ok bs). destruct ok, id; simpl Zbool; cbn [Z.eqb];
    (eapply wp_reply; [exact Hc3|exact HQ]).
Qed.

(** The random numbers a tracking id uses up are no part of what is specified. *)
Lemma wp_random_bytes n (Q : list Z -> world -> Prop) w1 :
  (forall l rs, Q l (set_w_rand w1 rs)) -> wp (random_bytes n) Q w1.
Proof.
  revert Q w1. induction n as [|n IH]; intros Q w1 HQ; cbn [random_bytes].
  { apply wp_ret. specialize (HQ [] (w_rand w1)). by destruct w1. }
  assert (forall (Q : Z -> world -> Prop) w1, (forall r rs, Q r (set_w_rand w1 rs)) -> wp rand Q w1) as Hrand.
  { clear. intros Q w1 HQ. unfold wp, rand. destruct (w_rand w1) as [|r rs] eqn:E; [|auto].
    specialize (HQ 0 []). rewrite <- E in HQ. by destruct w1. }
  apply wp_bind, Hrand. intros r1 rs1. apply wp_bind, Hrand. intros r2 rs2.
  apply wp_bind, IH. intros l rs. apply wp_ret. exact (HQ _ rs).
Qed.

Lemma wp_new_tracking_id {A} (k : bytes -> M A) Q :
  (forall id rs, wp (k id) Q (set_w_rand w rs)) -> wp (new_tracking_id cl ≫= k) Q w.
Proof.
  intros HQ. apply wp_bind. unfold new_tracking_id. handler_step. case_match.
  - unfold nut_uuid_v4. apply wp_bind, wp_random_bytes. intros l rs. apply wp_ret, HQ.
  - apply wp_ret. specialize (HQ [] (w_rand w)). by destruct w.
Qed.
End Privileged.

Lemma quiet_after_rand cl n w rs w' : quiet cl n (set_w_rand w rs) w' -> quiet cl n w w'.
Proof. intros Hq. exact (quiet_trans cl 0 n _ _ _ (quiet_rand cl w rs) Hq). Qed.

Lemma zbool_false b : negb b = false -> b = true.
Proof. by destruct b. Qed.

Lemma set_var_step cl w c rs upsname var newval id :
  client_find cl (w_clients w) = Some c ->
  wp (set_var cl upsname var newval id) (fun _ w' => request_step cl c w w') (set_w_rand w rs).
Proof.
  intros Hc. set (w0 := set_w_rand w rs).
  assert (client_find cl (w_clients w0) = Some c) as Hc0 by done.
  unfold set_var. handler; try (by eapply RS_answer, quiet_after_rand).
  eapply wp_finish_command; [exact Hc0|eassumption| |exact Hc0|].
  { match goal with H : available _ |- _ => by destruct H end. }
  intros ok bs w' Hq. eapply RS_driver; [eassumption|eassumption| |exact Hq].
  match goal with H : w_ups w0 !! ?i = Some ?u |- driver_request _ _ ?u _ _ =>
    unfold sstate_getinfo, sstate_getflags, sstate_getaux, sstate_getenumlist, sstate_getrangelist,
      state_getinfo, state_getflags, state_getaux, state_getenumlist, state_getrangelist in *;
    destruct (state_tree_find (u_inforoot u) var) as [node|] eqn:Hnode; [|done] end.
  eapply DR_set; [by eapply checkaction_may|exact Hnode|]. simpl in *.
  unfold value_allowed, has_flag in *. split_and!; try (by apply zbool_false).
  - by apply negb_true_iff.
  - intros Hs. rewrite Hs in *. simpl in *. breflect. lia.
Qed.

Lemma send_instcmd_step cl w c rs upsname cmdname value id :
  client_find cl (w_clients w) = Some c ->
  wp (send_instcmd cl upsname cmdname value id) (fun _ w' => request_step cl c w w') (set_w_rand w rs).
Proof.
  intros Hc. set (w0 := set_w_rand w rs).
  assert (client_find cl (w_clients w0) = Some c) as Hc0 by done.
  unfold send_instcmd. handler; try (by eapply RS_answer, quiet_after_rand).
  eapply wp_finish_command; [exact Hc0|eassumption| |exact Hc0|].
  { match goal with H : available _ |- _ => by destruct H end. }
  intros ok bs w' Hq. eapply RS_driver; [eassumption|eassumption| |exact Hq].
  eapply DR_instcmd; [by apply checkinstcmd_one|].
  match goal with H : negb (existsb _ _) = false |- _ =>
    apply zbool_false, existsb_exists in H as (name & Hin & Heq) end.
  exists name. split; [by apply list_elem_of_In|]. by apply strcaseeq_true.
Qed.

Lemma net_set_step cl w c arg :
  client_find cl (w_clients w) = Some c -> c_username c <> None -> c_password c <> None ->
  wp (net_set cl arg) (fun _ w' => request_step cl c w w') w.
Proof.
  intros Hc Hu Hp. unfold net_set.
  repeat match goal with
  | |- wp (new_tracking_id _ ≫= _) _ _ =>
      eapply wp_new_tracking_id; [exact Hc|intros id rs; by apply set_var_step]
  | |- _ => handler_step || handler_cases
  end; try (by apply RS_answer).
  - apply wp_bind. unfold tracking_enable. apply wp_bind, wp_modify, wp_ret.
    eapply wp_upd_client; [exact Hc|]. eapply wp_reply; [by apply upd_client_find|].
    intros w' Hq. by apply RS_tracking_on.
  - eapply wp_upd_client; [exact Hc|]. apply wp_bind. unfold tracking_disable. apply wp_bind, wp_get, wp_ret.
    eapply wp_reply; [by apply upd_client_find|]. intros w' Hq. by apply RS_tracking_off.
Qed.

Lemma net_instcmd_step cl w c arg :
  client_find cl (w_clients w) = Some c ->
  wp (net_instcmd cl arg) (fun _ w' => request_step cl c w w') w.
Proof.
  intros Hc. unfold net_instcmd. destruct arg as [|a0 [|a1 arg]]; [handler..|]; try (by apply RS_answer).
  eapply wp_new_tracking_id; [exact Hc|]. intros id rs. by apply send_instcmd_step.
Qed.

Lemma check_command_step cl w c func flags arg :
  client_find cl (w_clients w) = Some c ->
  ((has_flag flags FLAG_USER = true -> c_username c <> None /\ c_password c <> None) ->
   wp (func cl (drop 1 arg)) (fun _ w' => request_step cl c w w') w) ->
  wp (check_command func flags cl arg) (fun _ w' => request_step cl c w w') w.
Proof.
  intros Hc Hf. unfold check_command. handler_step.
  destruct (has_flag flags FLAG_USER); simpl; [|by apply Hf].
  case_bool_decide; [handler; by apply RS_answer|].
  case_bool_decide; [handler; by apply RS_answer|]. by apply Hf.
Qed.

Lemma parse_net_step cl w c :
  client_find cl (w_clients w) = Some c ->
  wp (parse_net cl) (fun _ w' => request_step cl c w w') w.
Proof.
  intros Hc. unfold parse_net. handler_step.
  destruct (args (c_ctx c)) as [|a0 arg] eqn:Ea; [handler; by apply RS_answer|].
  destruct (find _ netcmds) as [[[name func] flags]|] eqn:Ef; [|handler; by apply RS_answer].
  apply find_some in Ef as [Hin Hname]. simpl in Hname.
  apply check_command_step; [done|]. intros Hauth.
  assert (forall m, answers_once cl w m -> wp m (fun _ w' => request_step cl c w w') w) as Hq.
  { intros m Hm. eapply wp_mono; [exact Hm|]. intros [] w'. apply RS_answer. }
  pose proof (net_misc_quiet cl w c Hc (drop 1 (a0 :: arg))) as (Hm1 & Hm2 & Hm3 & Hm4).
  pose proof (net_primary_quiet cl w c Hc (drop 1 (a0 :: arg))) as (Hp1 & Hp2).
  unfold netcmds in Hin.
  repeat (destruct Hin as [[= <- <- <-]|Hin]; [|]); [..|destruct Hin];
    try (by apply Hq); try (by apply Hq, net_get_quiet with c); try (by apply Hq, net_logout_quiet with c);
    try (by apply net_username_step); try (by apply net_password_step);
    try (by apply net_login_step); try (by apply net_fsd_step); try (by apply net_instcmd_step).
  - eapply wp_mono; [by eapply net_list_answers|]. intros [] w' Ha. apply RS_list; [|done].
    rewrite Ea. by exists a0.
  - destruct (Hauth eq_refl). by apply net_set_step.
Qed.

(** ** Theorems on requests *)

Definition demo_users : user_state :=
  run_lines (mkUsers [] None) (flat_map section_lines
    [($"admin", [SetPassword ($"x"); SetActions ($"SET") [$"FSD"; $"LOGIN"]; SetInstcmds ($"ALL") []])]).

Definition demo_ups : upstype :=
  mkUps ($"su700") ($"dummy-su700") None true 0 1 1 100 0 0 pconf_init
    (run_ops Leaf [OpSetInfo 0 ($"ups.status") ($"OL"); OpSetInfo 0 ($"ups.id") ($"a");
                   OpSetFlags 0 ($"ups.id") [$"RW"; $"STRING"]; OpSetAux 0 ($"ups.id") ($"8")]).1
    [$"beeper.off"] 0 0 1.

(** One UPS and one client that has sent its credentials and then a request line. *)
Definition demo_world (line : bytes) (username password : option bytes) : world :=
  mkWorld [demo_ups]
    [mkClient 0 ($"127.0.0.1") 100 None password username 0 (pconf_line pconf_init line).2] 1
    demo_users (mkDesc [] []) [] 0 100 [] [] [] (mkConfig 15 3600 ($"2.8.4") None).

Definition demo_client (line : bytes) (username password : option bytes) : nut_ctype :=
  mkClient 0 ($"127.0.0.1") 100 None password username 0 (pconf_line pconf_init line).2.

(** C9. Refinement: one request, whatever its words, does one of the steps of
    the abstract specification [request_step]: the server only answers, or it records
    the name or the password of a client that had none, or it does a privileged step whose guard
    (an action granted to these credentials, a value the variable admits, a command the UPS has) holds in the state before.
    The handlers never follow a stale pointer: [wp] fails if they do. *)
Theorem parse_net_refines_request_step cl w c :
  client_find cl (w_clients w) = Some c ->
  wp (parse_net cl) (fun _ w' => request_step cl c w w') w.
Proof. apply parse_net_step. Qed.

Lemma parse_net_refines_request_step_witness :
  let w := demo_world ($"SET VAR su700 ups.id new") (Some ($"admin")) (Some ($"x")) in
  wp (parse_net 0) (fun _ w' => request_step 0 (demo_client ($"SET VAR su700 ups.id new")
    (Some ($"admin")) (Some ($"x"))) w w') w
  /\ (fun r => w_out r.2) <$> parse_net 0 w
     = Some [ToDriver 0 ($"SET ups.id " ++ quoted ($"new") ++ [LF]) true; ToClient 0 ($"OK" ++ [LF]) true].
Proof.
  split; [apply parse_net_refines_request_step; reflexivity|vm_compute; reflexivity].
Defined.

Lemma quiet_ups cl n w w' : quiet cl n w w' -> w_ups w' = w_ups w.
Proof. apply q_ups. Qed.

(** The lines among the outputs that went to a client. *)
Definition replies (outs : list output) : list (nat * bytes) :=
  omap (fun o => match o with ToClient id ans _ => Some (id, ans) | _ => None end) outs.

Lemma replies_to_client cl outs :
  Forall (to_client cl) outs -> replies outs = (fun p => (cl, p.2)) <$> replies outs
    /\ length (replies outs) = length outs.
Proof.
  unfold replies. induction 1 as [|o outs (ans & ok & ->) _ [IH1 IH2]]; [done|].
  csimpl. split; [by f_equal|]. by rewrite IH2.
Qed.

(** What a step adds to the output. *)
Lemma request_step_out cl c w w' :
  request_step cl c w w' ->
  exists outs, w_out w' = w_out w ++ outs
    /\ (forall i line ok, ToDriver i line ok ∈ outs ->
          exists u id, w_ups w !! i = Some u /\ available u /\ driver_request w c u id line)
    /\ Forall (fun p => p.1 = cl) (replies outs)
    /\ (length (replies outs) = 1%nat
        \/ exists a0, head (args (c_ctx c)) = Some a0 /\ strcaseeq ($"LIST") a0 = true).
Proof.
  assert (forall n w1 w2, quiet cl n w1 w2 -> exists outs, w_out w2 = w_out w1 ++ outs
    /\ (forall i line ok, ToDriver i line ok ∉ outs) /\ Forall (fun p => p.1 = cl) (replies outs)
    /\ length (replies outs) = n) as Hq.
  { intros n w1 w2 H. destruct (q_out _ _ _ _ H) as (outs & Ho & Hn & Hf). exists outs.
    destruct (replies_to_client cl outs Hf) as [Hr Hl]. split_and!; [done| | |congruence].
    - rewrite Forall_forall in Hf. intros i line ok Hin. by destruct (Hf _ Hin) as (? & ? & ?).
    - rewrite Hr. apply Forall_fmap, Forall_forall. done. }
  destruct 1 as [w' H|w' Ha (n & _ & H)|a0 w' _ H|a0 w' _ H|i u w' _ _ _ H|i u w' _ _ H|w' _ _ H|w' _ _ H
    |i u id line ok rs bs w' Hu Hav Hd H]; destruct (Hq _ _ _ H) as (outs & Ho & Hnd & Hf & Hl).
  2: { exists outs. split_and!; [done| |done|by right]. intros ? ? ? Hin. by apply Hnd in Hin. }
  8: { assert (w_out (driver_sent i line ok (set_w_sys (track id (set_w_rand w rs)) bs))
               = w_out w ++ [ToDriver i line ok]) as Hw by (by destruct ok, id).
       exists (ToDriver i line ok :: outs). rewrite Ho, Hw, <- app_assoc. split_and!; [done| |done|by left].
       intros i' line' ok' [[= -> -> ->]|Hin]%elem_of_cons; [eauto|]. by apply Hnd in Hin. }
  all: exists outs; split_and!; [exact Ho| |done|by left]; intros ? ? ? Hin; by apply Hnd in Hin.
Qed.

(** C39. Every request other than LIST is answered by exactly one line, and that
    line goes to the client that sent the request. *)
Theorem request_has_one_reply cl w c :
  client_find cl (w_clients w) = Some c ->
  (forall a0, head (args (c_ctx c)) = Some a0 -> strcaseeq ($"LIST") a0 = false) ->
  wp (parse_net cl) (fun _ w' =>
    exists outs ans, w_out w' = w_out w ++ outs /\ replies outs = [(cl, ans)]) w.
Proof.
  intros Hc Hnl. eapply wp_mono; [by apply parse_net_step|]. intros [] w' Hs.
  destruct (request_step_out _ _ _ _ Hs) as (outs & Ho & _ & Hf & [Hl|(a0 & Ha & Hl)]).
  - destruct (replies outs) as [|[id ans] [|? ?]] eqn:Er; try done.
    apply Forall_cons in Hf as [Hid _]. simpl in Hid. subst id. eauto.
  - by rewrite (Hnl a0 Ha) in Hl.
Qed.

Lemma request_has_one_reply_witness :
  wp (parse_net 0) (fun _ w' => exists outs ans, w_out w' = [] ++ outs /\ replies outs = [(0%nat, ans)])
    (demo_world ($"FROB") None None).
Proof.
  refine (request_has_one_reply 0 (demo_world ($"FROB") None None) (demo_client ($"FROB") None None) _ _);
    [vm_compute; reflexivity|].
  intros a0 H. vm_compute in H. injection H as <-. vm_compute. reflexivity.
Defined.

Definition others (cl : nat) (l : list nut_ctype) : list nut_ctype := filter (fun c => c_id c <> cl) l.

Lemma others_alter cl f l :
  (forall c, c_id (f c) = c_id c) -> others cl (client_alter cl f l) = others cl l.
Proof.
  intros Hf. unfold others, client_alter. induction l as [|d l IH]; [done|]. cbn [map].
  destruct (c_id d =? cl)%nat eqn:E; breflect.
  - rewrite !filter_cons_False; [done| |]; rewrite ?Hf; intros H; by apply H.
  - rewrite !filter_cons_True by done. by rewrite IH.
Qed.

Lemma quiet_others cl n w w' : quiet cl n w w' -> others cl (w_clients w') = others cl (w_clients w).
Proof. intros H. destruct (q_clients _ _ _ _ H) as [-> | ->]; [done|]. by apply others_alter. Qed.

Lemma alter_lookup_field {A B} (g : A -> B) (f : A -> A) (l : list A) i j (x y : A) :
  (forall x, g (f x) = g x) -> l !! j = Some x -> alter f i l !! j = Some y -> g y = g x.
Proof.
  intros Hg Hx Hy. destruct (decide (i = j)) as [->|Hne].
  - rewrite list_lookup_alter_eq, Hx in Hy. simplify_eq/=. apply Hg.
  - rewrite list_lookup_alter_ne in Hy by done. congruence.
Qed.

(** What a step does to the UPSes. *)
Lemma request_step_ups cl c w w' j u u' :
  request_step cl c w w' -> w_ups w !! j = Some u -> w_ups w' !! j = Some u' ->
  (u_fsd u' <> u_fsd u -> may w c ($"FSD")) /\ (u_numlogins u' <> u_numlogins u -> may w c ($"LOGIN")).
Proof.
  intros Hs Hu Hu'.
  destruct Hs as [w' H|w' Ha (n & _ & H)|a0 w' _ H|a0 w' _ H|i v w' Hm _ _ H|i v w' Hm _ H|w' _ _ H|w' _ _ H
    |i v id line ok rs bs w' Hv Hav Hd H]; rewrite (q_ups _ _ _ _ H) in Hu'; simpl in Hu'.
  5: { split; [|done]. intros []. eapply (alter_lookup_field u_fsd); [|exact Hu|exact Hu']. done. }
  5: { split; [done|]. intros []. eapply (alter_lookup_field u_numlogins); [|exact Hu|exact Hu']. done. }
  7: { destruct ok; [assert (w_ups w !! j = Some u') by (by destruct id); simplify_eq; by split|].
       assert (alter disconnected i (w_ups w) !! j = Some u') as Hd' by (by destruct id).
       split; intros [];
         [eapply (alter_lookup_field u_fsd)|eapply (alter_lookup_field u_numlogins)];
         try exact Hu; try exact Hd'; done. }
  all: simplify_eq; by split.
Qed.

Lemma request_step_others cl c w w' :
  request_step cl c w w' -> others cl (w_clients w') = others cl (w_clients w).
Proof.
  destruct 1 as [w' H|w' Ha (n & _ & H)|a0 w' _ H|a0 w' _ H|i v w' Hm _ _ H|i v w' Hm _ H|w' _ _ H|w' _ _ H
    |i v id line ok rs bs w' Hv Hav Hd H]; rewrite (quiet_others _ _ _ _ H); simpl; try done;
    try (by apply others_alter).
  by destruct ok, id.
Qed.

(** C5. Access control: in one request of a client, a line reaches a driver only
    as a SET of an admissible value by a client granted SET or as an existing
    instant command granted to it; the forced-shutdown flag of a UPS changes only
    for a client granted FSD, a login counter only for one granted LOGIN; and no other
    client is affected. *)
Theorem privileged_effects_need_permission cl w c :
  client_find cl (w_clients w) = Some c ->
  wp (parse_net cl) (fun _ w' =>
    (exists outs, w_out w' = w_out w ++ outs /\
      forall i line ok, ToDriver i line ok ∈ outs ->
        exists u id, w_ups w !! i = Some u /\ available u /\ driver_request w c u id line)
    /\ (forall j u u', w_ups w !! j = Some u -> w_ups w' !! j = Some u' ->
          (u_fsd u' <> u_fsd u -> may w c ($"FSD"))
          /\ (u_numlogins u' <> u_numlogins u -> may w c ($"LOGIN")))
    /\ others cl (w_clients w') = others cl (w_clients w)) w.
Proof.
  intros Hc. eapply wp_mono; [by apply parse_net_step|]. intros [] w' Hs. split_and!.
  - destruct (request_step_out _ _ _ _ Hs) as (outs & Ho & Hd & _). eauto.
  - intros j u u'. by apply request_step_ups with cl.
  - by eapply request_step_others.
Qed.

Lemma privileged_effects_need_permission_witness :
  let w := demo_world ($"FSD su700") (Some ($"admin")) (Some ($"wrong")) in
  wp (parse_net 0) (fun _ w' => others 0 (w_clients w') = others 0 (w_clients w)) w
  /\ (fun r => (u_fsd <$> w_ups r.2, w_out r.2)) <$> parse_net 0 w
     = Some ([0], [ToClient 0 ($"ERR ACCESS-DENIED" ++ [LF]) true]).
Proof.
  split; [|vm_compute; reflexivity].
  eapply wp_mono; [eapply privileged_effects_need_permission; reflexivity|].
  intros [] w' (_ & _ & H). exact H.
Defined.

(** ** Tracking identifiers

    The ids the server hands out for commands under tracking, and what turning tracking off does. *)

(** ** The text form of a version 4 UUID *)

Definition upper_hex (c : ascii) : bool :=
  ((48 <=? code c) && (code c <=? 57)) || ((65 <=? code c) && (code c <=? 70)).

(** What character may stand at each of the 36 positions. *)
Definition uuid_char (i : nat) (c : ascii) : bool :=
  if bool_decide (i = 8%nat \/ i = 13%nat \/ i = 18%nat \/ i = 23%nat) then code c =? 45
  else if bool_decide (i = 14%nat) then code c =? 52
  else if bool_decide (i = 19%nat) then existsb (Ascii.eqb c) ($"89AB")
  else upper_hex c.

Definition is_uuid4 (s : bytes) : bool :=
  (length s =? 36)%nat && forallb (fun ic => uuid_char ic.1 ic.2) (zip (seq 0 36) s).

Lemma hex_digit_upper d : 0 <= d < 16 -> upper_hex (hex_digit d) = true.
Proof.
  intros Hd. unfold upper_hex, hex_digit.
  destruct (Z.ltb_spec d 10); rewrite code_chr by lia.
  - rewrite (proj2 (Z.leb_le 48 _)), (proj2 (Z.leb_le _ 57)) by lia. done.
  - rewrite (proj2 (Z.leb_le 65 _)), (proj2 (Z.leb_le _ 70)) by lia. by rewrite orb_true_r.
Qed.

(** A byte as its two hexadecimal digits. *)
Lemma byte_nibbles b : 0 <= b < 256 -> 0 <= b / 16 < 16 /\ 0 <= b mod 16 < 16.
Proof. intros. split; [Z.to_euclidean_division_equations; lia|by apply Z.mod_pos_bound]. Qed.

(** The version nibble and the variant bits. *)
Lemma version_byte b : 0 <= b < 256 -> let v := Z.lor (Z.land b 0x0F) 0x40 in
  0 <= v < 256 /\ hex_digit (v / 16) = chr 52.
Proof.
  assert (forall c, let v := Z.lor (Z.land (code c) 0x0F) 0x40 in
    (0 <=? v) && (v <? 256) && Ascii.eqb (hex_digit (v / 16)) (chr 52) = true) as H by by_ascii.
  intros Hb. specialize (H (chr b)). rewrite code_chr in H by done. cbv zeta in *.
  rewrite !andb_true_iff, Z.leb_le, Z.ltb_lt, Ascii.eqb_eq in H. tauto.
Qed.

Lemma variant_byte b : 0 <= b < 256 -> let v := Z.lor (Z.land b 0x3F) 0x80 in
  0 <= v < 256 /\ existsb (Ascii.eqb (hex_digit (v / 16))) ($"89AB") = true.
Proof.
  assert (forall c, let v := Z.lor (Z.land (code c) 0x3F) 0x80 in
    (0 <=? v) && (v <? 256) && existsb (Ascii.eqb (hex_digit (v / 16))) ($"89AB") = true) as H by by_ascii.
  intros Hb. specialize (H (chr b)). rewrite code_chr in H by done. cbv zeta in *.
  rewrite !andb_true_iff, Z.leb_le, Z.ltb_lt in H. tauto.
Qed.

Lemma random_bytes_spec n : forall w, exists l rs,
  random_bytes n w = Some (l, set_w_rand w rs) /\ length l = n /\ Forall (fun b => 0 <= b < 256) l.
Proof.
  assert (forall w, exists r rs, rand w = Some (r, set_w_rand w rs)) as Hrand.
  { intros w. unfold rand. destruct (w_rand w) as [|r rs] eqn:E; [|by exists r, rs].
    exists 0, []. rewrite <- E. by destruct w. }
  induction n as [|n IH]; intros w; simpl; [exists [], (w_rand w); by destruct w|].
  destruct (Hrand w) as (r1 & rs1 & E1). destruct (Hrand (set_w_rand w rs1)) as (r2 & rs2 & E2).
  destruct (IH (set_w_rand w rs2)) as (l & rs & E & Hl & Hb).
  exists (wrap8 (wrap8 r1 + wrap8 r2) :: l), rs. unfold mbind, M_bind. rewrite E1, E2.
  replace (set_w_rand (set_w_rand w rs1) rs2) with (set_w_rand w rs2) by done. rewrite E.
  split_and!; [done|simpl; lia|]. constructor; [|done]. by apply (wrapU_range 8).
Qed.

(** The characters of the text, with the conditions its bytes give. *)
Lemma format_uuid4 l : length l = 16%nat -> Forall (fun b => 0 <= b < 256) l ->
  (exists b, l !! 6%nat = Some b /\ hex_digit (b / 16) = chr 52) ->
  (exists b, l !! 8%nat = Some b /\ existsb (Ascii.eqb (hex_digit (b / 16))) ($"89AB") = true) ->
  is_uuid4 (format_uuid l) = true /\ length (format_uuid l) = 36%nat.
Proof.
  intros Hl Hb (b6 & E6 & H6) (b8 & E8 & H8).
  assert (forall b, b ∈ l -> upper_hex (hex_digit (b / 16)) = true /\ upper_hex (hex_digit (b mod 16)) = true) as Hx.
  { intros b E. apply (proj1 (Forall_forall _ _) Hb) in E. destruct (byte_nibbles b E).
    by rewrite !hex_digit_upper. }
  do 16 (destruct l as [|? l]; [done|]). destruct l; [|done]. simpl in E6, E8. simplify_eq.
  split; [|done].
  lazy -[hex_digit Z.div Z.modulo upper_hex existsb Ascii.eqb Z.eqb code].
  lazy -[hex_digit Z.div Z.modulo existsb Ascii.eqb] in H8. rewrite H6, H8.
  repeat match goal with
  | |- context [upper_hex (hex_digit (?b / 16))] => rewrite (proj1 (Hx b ltac:(set_solver)))
  | |- context [upper_hex (hex_digit (?b mod 16))] => rewrite (proj2 (Hx b ltac:(set_solver)))
  end.
  reflexivity.
Qed.

(** Tracking ids are version 4 UUIDs: whatever numbers [rand] returns, [nut_uuid_v4] gives
    36 characters, groups of 8, 4, 4, 4 and 12 upper-case hexadecimal digits joined by dashes, with the
    version digit 4 and a variant digit 8, 9, A or B, and uses up nothing but random numbers. *)
Theorem nut_uuid_v4_format w : exists id rs,
  nut_uuid_v4 w = Some (id, set_w_rand w rs) /\ is_uuid4 id = true.
Proof.
  destruct (random_bytes_spec UUID4_BYTESIZE w) as (l & rs & E & Hl & Hb).
  unfold nut_uuid_v4, mbind, M_bind. rewrite E. cbv zeta.
  destruct (lookup_lt_is_Some_2 l 6) as [b6 E6]; [rewrite Hl; unfold UUID4_BYTESIZE; lia|].
  destruct (lookup_lt_is_Some_2 l 8) as [b8 E8]; [rewrite Hl; unfold UUID4_BYTESIZE; lia|].
  pose proof (version_byte b6 (Forall_lookup_1 _ _ _ _ Hb E6)) as [Hv6 Hd6].
  pose proof (variant_byte b8 (Forall_lookup_1 _ _ _ _ Hb E8)) as [Hv8 Hd8].
  set (l' := alter _ 8%nat (alter _ 6%nat l)).
  destruct (format_uuid4 l') as [Hu Hlen].
  - unfold l'. by rewrite !length_alter, Hl.
  - unfold l'. apply Forall_alter; [apply Forall_alter; [done|]|].
    + intros x Hx _. rewrite E6 in Hx. by simplify_eq.
    + intros x Hx _. rewrite list_lookup_alter_ne, E8 in Hx by done. by simplify_eq.
  - exists (Z.lor (Z.land b6 0x0F) 0x40). split; [|done].
    unfold l'. by rewrite list_lookup_alter_ne, list_lookup_alter_eq, E6 by done.
  - exists (Z.lor (Z.land b8 0x3F) 0x80). split; [|done].
    unfold l'. by rewrite list_lookup_alter_eq, list_lookup_alter_ne, E8 by done.
  - exists (format_uuid l'), rs. split; [|done]. unfold mret, M_ret. do 2 f_equal.
Qed.

(** ** Turning tracking off *)

(** [tracking_disable] is documented to disable general tracking once no client
    uses it and to return the new value of [tracking_enabled]; it never assigns it: SET TRACKING OFF of the only
    client that had tracking on is answered OK, that client's tracking is off, but the general flag stays on. *)
Theorem set_tracking_off_keeps_enabled cl c w :
  client_find cl (w_clients w) = Some c -> w_clients w = [c] -> w_tracking_enabled w = 1 ->
  wp (net_set cl [$"TRACKING"; $"OFF"]) (fun _ w' =>
    w_tracking_enabled w' = 1 /\ Forall (fun c => c_tracking c = 0) (w_clients w')) w.
Proof.
  intros Hc Hw He. unfold net_set. 
  replace (strcaseeq ($"TRACKING") ($"VAR")) with false by reflexivity.
  replace (strcaseeq ($"TRACKING") ($"TRACKING")) with true by reflexivity.
  replace (strcaseeq ($"OFF") ($"ON")) with false by reflexivity.
  replace (strcaseeq ($"OFF") ($"OFF")) with true by reflexivity. cbv iota.
  apply client_find_elem in Hc as Hid. destruct Hid as [_ Hid].
  apply wp_bind. eapply wp_client_upd; [done|]. apply wp_bind. unfold tracking_disable.
  apply wp_bind, wp_get, wp_ret.
  eapply (wp_reply cl _ (set_c_tracking c 0)).
  - simpl. by apply (client_find_alter cl (fun c => set_c_tracking c 0)).
  - intros w' Hq. split; [by rewrite (q_enabled _ _ _ _ Hq)|].
    destruct (q_clients _ _ _ _ Hq) as [-> | ->]; simpl; rewrite Hw; simpl;
      rewrite Hid, Nat.eqb_refl; simpl; rewrite ?Hid, ?Nat.eqb_refl; by repeat constructor.
Qed.

Definition tracking_client : nut_ctype := mkClient 0 ($"127.0.0.1") 100 None None None 1 pconf_init.
Definition tracking_world : world :=
  mkWorld [demo_ups] [tracking_client] 1 demo_users (mkDesc [] []) [] 1 100 [] [] [] (mkConfig 15 3600 ($"2.8.4") None).

Lemma set_tracking_off_keeps_enabled_witness :
  wp (net_set 0 [$"TRACKING"; $"OFF"]) (fun _ w' =>
    w_tracking_enabled w' = 1 /\ Forall (fun c => c_tracking c = 0) (w_clients w')) tracking_world.
Proof. apply (set_tracking_off_keeps_enabled 0 tracking_client tracking_world); reflexivity. Defined.
