(* ===== verification/ListFacts.v ===== *)
(** * What LIST and GET send

    [send_script] sends lines until a write fails; every list is such a script, so its
    output is known exactly, for any pattern of failing writes. *)

From S2P Require Import Prelude CStr ParseConf StateTree StateFacts Users Desc Tracking World.
From S2P Require Import SState Upsd NetGet NetList NetUser NetSet Server ServerLib.
From S2P Require Import ServerFacts.
From stdpp Require Import options.

Definition cut (msg : bytes) : bytes := snprintf_s (NUT_NET_ANSWER_MAX + 1) msg.

Definition sent1 (cl : nat) (l : bytes) (w : world) : Z * world :=
  match w_sys w with
  | [] => (1, set_w_out w (w_out w ++ [ToClient cl (cut l) true]))
  | true :: bs => (1, set_w_out (set_w_sys w bs) (w_out w ++ [ToClient cl (cut l) true]))
  | false :: bs =>
      (0, upd_client cl mark_dead (set_w_out (set_w_sys w bs) (w_out w ++ [ToClient cl (cut l) false])))
  end.

Fixpoint send_script (cl : nat) (lines : list bytes) (w : world) : Z * world :=
  match lines with
  | [] => (1, w)
  | l :: ls => let '(r, w1) := sent1 cl l w in if r =? 0 then (0, w1) else send_script cl ls w1
  end.

Lemma sent1_client cl l w c :
  client_find cl (w_clients w) = Some c ->
  exists c', client_find cl (w_clients (sent1 cl l w).2) = Some c'.
Proof.
  intros Hc. unfold sent1. destruct (w_sys w) as [|[] bs]; simpl; eauto.
  exists (mark_dead c). by apply client_find_alter.
Qed.

Lemma sent1_ups cl l w : w_ups (sent1 cl l w).2 = w_ups w.
Proof. unfold sent1. by destruct (w_sys w) as [|[] bs]. Qed.

Lemma sent1_01 cl l w : (sent1 cl l w).1 = 0 \/ (sent1 cl l w).1 = 1.
Proof. unfold sent1. destruct (w_sys w) as [|[] bs]; auto. Qed.

Lemma sendback_script cl l w c :
  client_find cl (w_clients w) = Some c -> sendback cl l w = Some (sent1 cl l w).
Proof.
  intros Hc. unfold sendback, mbind, M_bind, client_get. rewrite Hc. simpl. unfold syscall, sent1.
  destruct (w_sys w) as [|b bs] eqn:E; simpl; [done|]. destruct b; simpl; [done|].
  unfold client_upd, mbind, M_bind, client_get. simpl. by rewrite Hc.
Qed.

Lemma script_client cl ls w c :
  client_find cl (w_clients w) = Some c ->
  exists c', client_find cl (w_clients (send_script cl ls w).2) = Some c'.
Proof.
  revert w c. induction ls as [|l ls IH]; intros w c Hc; simpl; [eauto|].
  destruct (sent1_client cl l w c Hc) as [c1 Hc1]. destruct (sent1 cl l w) as [r w1]. simpl in Hc1.
  destruct (r =? 0); simpl; eauto.
Qed.

Lemma script_ups cl ls w : w_ups (send_script cl ls w).2 = w_ups w.
Proof.
  revert w. induction ls as [|l ls IH]; intros w; simpl; [done|].
  pose proof (sent1_ups cl l w). destruct (sent1 cl l w) as [r w1]. simpl in *.
  destruct (r =? 0); simpl; [done|]. by rewrite IH.
Qed.

Lemma script_01 cl ls w : (send_script cl ls w).1 = 0 \/ (send_script cl ls w).1 = 1.
Proof.
  revert w. induction ls as [|l ls IH]; intros w; simpl; [auto|].
  destruct (sent1 cl l w) as [r w1]. destruct (r =? 0); simpl; auto.
Qed.

Lemma script_app cl ls1 ls2 w :
  send_script cl (ls1 ++ ls2) w =
  let '(r, w1) := send_script cl ls1 w in if r =? 0 then (0, w1) else send_script cl ls2 w1.
Proof.
  revert w. induction ls1 as [|l ls1 IH]; intros w; [done|]. cbn [app send_script].
  destruct (sent1 cl l w) as [r w1]. destruct (r =? 0); [done|]. apply IH.
Qed.

Lemma send_lines_script ls cl w c :
  client_find cl (w_clients w) = Some c -> send_lines cl ls w = Some (send_script cl ls w).
Proof.
  revert w c. induction ls as [|l ls IH]; intros w c Hc; [done|].
  cbn [send_lines send_script]. unfold mbind, M_bind. erewrite sendback_script by done.
  destruct (sent1_client cl l w c Hc) as [c1 Hc1]. destruct (sent1 cl l w) as [r w1]. simpl in Hc1.
  destruct (r =? 0); [done|]. by eapply IH.
Qed.

Lemma tree_dump_script t cl ups rw fsd w c :
  client_find cl (w_clients w) = Some c ->
  tree_dump t cl ups rw fsd w = Some (send_script cl (omap (dump_line ups rw fsd) (nodes t)) w).
Proof.
  revert w c. induction t as [|n l IHl r IHr]; intros w c Hc; [done|].
  cbn [tree_dump nodes]. unfold mbind at 1, M_bind at 1. erewrite IHl by done.
  rewrite omap_app, script_app. destruct (script_client cl (omap (dump_line ups rw fsd) (nodes l)) w c Hc) as [c1 Hc1].
  destruct (send_script cl (omap _ (nodes l)) w) as [r1 w1]. simpl in Hc1.
  destruct (r1 =? 0); [done|]. cbn [omap list_omap].
  unfold mbind, M_bind. change (list_omap st_node bytes) with (@omap list list_omap st_node bytes).
  destruct (dump_line ups rw fsd n) as [line|].
  - erewrite sendback_script by done. cbn [send_script].
    destruct (sent1_client cl line w1 c1 Hc1) as [c2 Hc2]. pose proof (sent1_01 cl line w1) as H01.
    destruct (sent1 cl line w1) as [r2 w2]. simpl in Hc2, H01.
    destruct H01 as [-> | ->]; cbn [Z.eqb Pos.eqb negb]; [done|]. by eapply IHr.
  - cbn [mret M_ret Z.eqb Pos.eqb negb]. by eapply IHr.
Qed.

(** The outputs of a script, given the outcomes of the writes. *)
Fixpoint script_out (cl : nat) (lines : list bytes) (sys : list bool) : list output :=
  match lines with
  | [] => []
  | l :: ls =>
      match sys with
      | [] => ToClient cl (cut l) true :: script_out cl ls []
      | true :: bs => ToClient cl (cut l) true :: script_out cl ls bs
      | false :: _ => [ToClient cl (cut l) false]
      end
  end.

Lemma script_output cl ls w :
  w_out (send_script cl ls w).2 = w_out w ++ script_out cl ls (w_sys w).
Proof.
  revert w. induction ls as [|l ls IH]; intros w; simpl; [by rewrite app_nil_r|].
  unfold sent1. destruct (w_sys w) as [|[] bs] eqn:E; simpl.
  - rewrite IH. simpl. by rewrite E, <- app_assoc.
  - rewrite IH. simpl. by rewrite <- app_assoc.
  - done.
Qed.

(** BEGIN, body, END as one script. *)
Lemma list_script cl head (m : M Z) body tail w c :
  client_find cl (w_clients w) = Some c ->
  (forall w1 c1, client_find cl (w_clients w1) = Some c1 -> w_ups w1 = w_ups w ->
     m w1 = Some (send_script cl body w1)) ->
  (r ← sendback cl head;
   if r =? 0 then mret tt else
   r ← m;
   if r =? 0 then mret tt else reply cl tail) w
  = Some (tt, (send_script cl (head :: body ++ [tail]) w).2).
Proof.
  intros Hc Hm. unfold mbind, M_bind. erewrite sendback_script by done. cbn [send_script].
  destruct (sent1_client cl head w c Hc) as [c1 Hc1]. pose proof (sent1_ups cl head w) as Hu.
  destruct (sent1 cl head w) as [r w1]. simpl in Hc1, Hu. destruct (r =? 0); [done|].
  erewrite Hm by done. rewrite script_app. destruct (script_client cl body w1 c1 Hc1) as [c2 Hc2].
  destruct (send_script cl body w1) as [r2 w2]. simpl in Hc2. destruct (r2 =? 0); [done|].
  unfold reply, mbind, M_bind. erewrite sendback_script by done. cbn [send_script].
  destruct (sent1 cl tail w2) as [r3 w3]. by destruct (r3 =? 0).
Qed.

Lemma available_get {A} i cl u (k : Z -> M A) w :
  w_ups w !! i = Some u -> available u -> (ups_available i cl ≫= k) w = k 1 w.
Proof.
  intros Hu [Hc Hs]. unfold ups_available, mbind, M_bind, ups_get. rewrite Hu. simpl. by rewrite Hc, Hs.
Qed.

Lemma ups_get_at {A} i u (k : upstype -> M A) w :
  w_ups w !! i = Some u -> (ups_get i ≫= k) w = k u w.
Proof. intros Hu. unfold mbind, M_bind, ups_get. by rewrite Hu. Qed.

Lemma get_ups_at {A} name i (k : option nat -> M A) w :
  ups_find (w_ups w) name = Some i -> (get_ups_ptr name ≫= k) w = k (Some i) w.
Proof. intros Hf. unfold mbind, M_bind, get_ups_ptr, get. by rewrite Hf. Qed.

(** LIST VAR: for a connected UPS with fresh data the client is sent BEGIN, one
    VAR line per variable in the sorted order of the tree, and END; ups.status is prefixed with FSD
    while a forced shutdown is set; the sending stops at the first write that fails and nothing else is written. *)
Theorem list_var_output cl w c upsname i u :
  client_find cl (w_clients w) = Some c -> ups_find (w_ups w) upsname = Some i ->
  w_ups w !! i = Some u -> available u ->
  wp (list_var cl upsname) (fun _ w' =>
    w_out w' = w_out w ++ script_out cl
      (($"BEGIN LIST VAR " ++ upsname ++ [LF])
       :: map (fun n =>
            $"VAR " ++ upsname ++ $" " ++ n_var n ++ $" "
            ++ quoted (if (u_fsd u =? 1) && strcaseeq (n_var n) ($"ups.status")
                       then $"FSD " ++ n_val n else n_val n) ++ [LF]) (nodes (u_inforoot u))
       ++ [$"END LIST VAR " ++ upsname ++ [LF]]) (w_sys w)) w.
Proof.
  intros Hc Hf Hu Ha. unfold wp, list_var. rewrite (get_ups_at _ _ _ _ Hf).
  rewrite (available_get _ _ _ _ _ Hu Ha). cbn [Z.eqb].
  assert (omap (dump_line upsname 0 (u_fsd u)) (nodes (u_inforoot u))
    = map (fun n => $"VAR " ++ upsname ++ $" " ++ n_var n ++ $" "
            ++ quoted (if (u_fsd u =? 1) && strcaseeq (n_var n) ($"ups.status")
                       then $"FSD " ++ n_val n else n_val n) ++ [LF]) (nodes (u_inforoot u))) as <-.
  { induction (nodes (u_inforoot u)) as [|n l IH]; [done|]. cbn [omap list_omap map].
    change (list_omap st_node bytes) with (@omap list list_omap st_node bytes). rewrite <- IH.
    unfold dump_line. simpl negb. cbv iota. by destruct (_ && _). }
  set (body := omap _ _).
  pose proof (list_script cl ($"BEGIN LIST VAR " ++ upsname ++ [LF])
    (u ← ups_get i; tree_dump (u_inforoot u) cl upsname 0 (u_fsd u)) body
    ($"END LIST VAR " ++ upsname ++ [LF]) w c Hc) as Hs.
  match type of Hs with ?P -> _ => assert P as Hp end.
  { intros w1 c1 Hc1 Hw1. rewrite (ups_get_at i u) by (by rewrite Hw1).
    by eapply tree_dump_script. }
  specialize (Hs Hp). clear Hp.
  match type of Hs with ?x = _ => match goal with |- match ?y with _ => _ end =>
    assert (y = x) as -> end end.
  { unfold mbind, M_bind. destruct (sendback _ _ w) as [[r w1]|]; [|done]. destruct (r =? 0); [done|].
    unfold ups_get. by destruct (w_ups w1 !! i). }
  rewrite Hs. apply script_output.
Qed.

Lemma list_var_output_witness :
  let w := demo_world ($"LIST VAR su700") None None in
  wp (list_var 0 ($"su700")) (fun _ w' => w_out w' =
    [ToClient 0 ($"BEGIN LIST VAR su700" ++ [LF]) true;
     ToClient 0 ($"VAR su700 ups.id " ++ quoted ($"a") ++ [LF]) true;
     ToClient 0 ($"VAR su700 ups.status " ++ quoted ($"OL") ++ [LF]) true;
     ToClient 0 ($"END LIST VAR su700" ++ [LF]) true]) w.
Proof.
  intros w. eapply wp_mono; [eapply (list_var_output 0 w _ ($"su700") 0 demo_ups)|].
  - vm_compute. reflexivity.
  - vm_compute. reflexivity.
  - reflexivity.
  - split; reflexivity.
  - intros [] w' ->. vm_compute. reflexivity.
Defined.
