(* ===== verification/ServerInv.v ===== *)
(** * The invariant of the server

    [server_wf]: client structures are distinct, UPS names are distinct up to
    case, every login names a UPS, every login counter is the number of clients logged into
    the UPS, and the copies of the drivers' data are search trees and sorted lists.  Every
    event that [poll] can report keeps it, for any bytes received and any failing system call. *)

From S2P Require Import Prelude CStr ParseConf StateTree StateFacts Users Desc Tracking World.
From S2P Require Import SState Upsd NetGet NetList NetUser NetSet Server ServerLib.
From S2P Require Import ServerFacts.
From stdpp Require Import options.

(** ** The invariant *)

Definition logins (l : list nut_ctype) (name : bytes) : Z :=
  Z.of_nat (length (filter (fun c => c_loginups c = Some name) l)).

Definition ups_ok (u : upstype) : Prop := tree_wf (u_inforoot u) /\ cmds_ok (u_cmdlist u).

Record server_wf (w : world) : Prop := {
  sw_ids : NoDup (c_id <$> w_clients w);
  sw_fresh : Forall (fun c => (c_id c < w_next_id w)%nat) (w_clients w);
  sw_names : NoDup ((fun u => lower (u_name u)) <$> w_ups w);
  sw_login : Forall (fun c => forall l, c_loginups c = Some l -> exists u, u ∈ w_ups w /\ u_name u = l)
               (w_clients w);
  sw_count : Forall (fun u => u_numlogins u = logins (w_clients w) (u_name u)) (w_ups w);
  sw_ok : Forall ups_ok (w_ups w)
}.

(** The part of a client and of a UPS that the invariant relates. *)
Definition cshape (c : nut_ctype) : nat * option bytes := (c_id c, c_loginups c).
Definition ushape (u : upstype) : bytes * Z := (u_name u, u_numlogins u).

Lemma logins_cshape l l' name : cshape <$> l = cshape <$> l' -> logins l name = logins l' name.
Proof.
  intros H. unfold logins. f_equal. revert l' H.
  induction l as [|c l IH]; intros [|c' l'] H; csimpl in H; try done.
  injection H as H1 H2 H. rewrite !filter_cons, H2. specialize (IH _ H). destruct (decide _); simpl; congruence.
Qed.

Lemma cshape_ids (l l' : list nut_ctype) : cshape <$> l = cshape <$> l' -> c_id <$> l = c_id <$> l'.
Proof.
  intros H. assert (forall l : list nut_ctype, c_id <$> l = fst <$> (cshape <$> l)) as E
    by (intros; by rewrite <- list_fmap_compose). by rewrite !E, H.
Qed.

Lemma ushape_names (l l' : list upstype) :
  ushape <$> l = ushape <$> l' ->
  (fun u => lower (u_name u)) <$> l = (fun u => lower (u_name u)) <$> l'.
Proof.
  intros H. assert (forall l : list upstype, (fun u => lower (u_name u)) <$> l = (fun p => lower p.1) <$> (ushape <$> l)) as E
    by (intros; by rewrite <- list_fmap_compose). by rewrite !E, H.
Qed.

Lemma shape_forall {A B} (f : A -> B) (P : B -> Prop) (l : list A) : Forall (fun x => P (f x)) l <-> Forall P (f <$> l).
Proof. by rewrite Forall_fmap. Qed.

Lemma ushape_has (l : list upstype) name : (exists u, u ∈ l /\ u_name u = name) <-> name ∈ (fst <$> (ushape <$> l)).
Proof.
  rewrite <- list_fmap_compose, list_elem_of_fmap. simpl. naive_solver.
Qed.

(** The invariant only looks at the shapes and at the data of the UPSes. *)
Lemma server_wf_shape w w' :
  server_wf w -> cshape <$> w_clients w' = cshape <$> w_clients w ->
  ushape <$> w_ups w' = ushape <$> w_ups w -> w_next_id w' = w_next_id w -> Forall ups_ok (w_ups w') ->
  server_wf w'.
Proof.
  intros [H1 H2 H3 H4 H5 H6] Hc Hu Hn Hok. split; [| | | | |done].
  - by rewrite (cshape_ids _ _ Hc).
  - rewrite Hn. apply (shape_forall cshape (fun p => (p.1 < w_next_id w)%nat)).
    rewrite Hc. by apply shape_forall.
  - by rewrite (ushape_names _ _ Hu).
  - setoid_rewrite ushape_has. rewrite Hu.
    apply (shape_forall cshape (fun p => forall l, p.2 = Some l -> l ∈ (fst <$> (ushape <$> w_ups w)))).
    rewrite Hc. apply (shape_forall cshape). eapply Forall_impl; [exact H4|]. intros c Hl l E.
    apply ushape_has. by apply Hl.
  - assert (Forall (fun p => p.2 = logins (w_clients w) p.1) (ushape <$> w_ups w)) as H
      by (by apply Forall_fmap).
    rewrite <- Hu, Forall_fmap in H. eapply Forall_impl; [exact H|]. intros u. simpl. intros ->.
    symmetry. by apply logins_cshape.
Qed.

Lemma client_alter_cshape cl f l :
  (forall c, cshape (f c) = cshape c) -> cshape <$> client_alter cl f l = cshape <$> l.
Proof.
  intros Hf. induction l as [|c l IH]; csimpl; [done|]. rewrite IH. f_equal. by case_match.
Qed.

Lemma alter_ushape i f (l : list upstype) :
  (forall u, ushape (f u) = ushape u) -> ushape <$> alter f i l = ushape <$> l.
Proof.
  intros Hf. revert i. induction l as [|u l IH]; intros [|i]; csimpl; try done; f_equal; auto.
Qed.

(** ** Steps that keep clients and UPSes in place *)

Record stable (w w' : world) : Prop := {
  st_wf : server_wf w';
  st_ids : c_id <$> w_clients w' = c_id <$> w_clients w;
  st_ups : length (w_ups w') = length (w_ups w)
}.

Lemma stable_refl w : server_wf w -> stable w w.
Proof. by split. Qed.

Lemma stable_trans w1 w2 w3 : stable w1 w2 -> stable w2 w3 -> stable w1 w3.
Proof. intros [? ? ?] [? ? ?]. split; [done|congruence|congruence]. Qed.

(** An assignment to a UPS that leaves its name, its counter and its invariant. *)
Definition ups_safe (f : upstype -> upstype) : Prop :=
  forall u, ushape (f u) = ushape u /\ (ups_ok u -> ups_ok (f u)).

Lemma stable_upd_ups i f w : server_wf w -> ups_safe f -> stable w (upd_ups i f w).
Proof.
  intros Hw Hf. split; [|done|simpl; by rewrite length_alter].
  apply (server_wf_shape w); simpl; try done.
  - apply alter_ushape. intros u. apply Hf.
  - apply Forall_alter; [apply Hw|]. intros u _. apply Hf.
Qed.

Lemma stable_upd_client cl f w :
  server_wf w -> (forall c, cshape (f c) = cshape c) -> stable w (upd_client cl f w).
Proof.
  intros Hw Hf. pose proof (client_alter_cshape cl f (w_clients w) Hf) as Hs.
  split; [|by apply cshape_ids|done].
  by apply (server_wf_shape w); try done; apply Hw.
Qed.

Lemma quiet_stable cl n w w' : server_wf w -> quiet cl n w w' -> stable w w'.
Proof.
  intros Hw Hq. assert (cshape <$> w_clients w' = cshape <$> w_clients w) as Hs.
  { destruct (q_clients _ _ _ _ Hq) as [-> | ->]; [done|]. by apply client_alter_cshape. }
  split; [|by apply cshape_ids|by rewrite (q_ups _ _ _ _ Hq)].
  apply (server_wf_shape w); try done; rewrite ?(q_ups _ _ _ _ Hq), ?(q_next _ _ _ _ Hq); try done.
  apply Hw.
Qed.

Lemma stable_same w w' :
  server_wf w -> w_clients w' = w_clients w -> w_ups w' = w_ups w -> w_next_id w' = w_next_id w ->
  stable w w'.
Proof.
  intros Hw Hc Hu Hn. split; [|by rewrite Hc|by rewrite Hu].
  apply (server_wf_shape w); rewrite ?Hc, ?Hu; try done. apply Hw.
Qed.

Lemma ups_safe_disconnected : ups_safe disconnected.
Proof. intros u. split; [done|]. intros _. split; [apply tree_wf_leaf|constructor]. Qed.

(** ** Logging in *)

Lemma names_distinct w i j u v :
  server_wf w -> w_ups w !! i = Some u -> w_ups w !! j = Some v -> u_name u = u_name v -> i = j.
Proof.
  intros Hw Hu Hv Hn. eapply (NoDup_lookup _ i j (lower (u_name u))); [apply (sw_names _ Hw)|..].
  - by rewrite list_lookup_fmap, Hu.
  - by rewrite list_lookup_fmap, Hv, Hn.
Qed.

Lemma logins_set cl name name' l c :
  NoDup (c_id <$> l) -> client_find cl l = Some c -> c_loginups c = None ->
  logins (client_alter cl (fun c => set_c_loginups c (Some name)) l) name'
  = logins l name' + Zbool (bool_decide (name = name')).
Proof.
  unfold logins. induction l as [|d l IH]; [done|]. csimpl. intros [Hni Hnd]%NoDup_cons.
  destruct (c_id d =? cl)%nat eqn:E; simpl.
  - intros [= ->] Hn. apply Nat.eqb_eq in E.
    assert (client_alter cl (fun c => set_c_loginups c (Some name)) l = l) as Hid.
    { clear -Hni E. subst cl. induction l as [|d l IH]; csimpl; [done|].
      csimpl in Hni. apply not_elem_of_cons in Hni as [Hne Hni].
      assert ((c_id d =? c_id c)%nat = false) as -> by (apply Nat.eqb_neq; congruence).
      f_equal. by apply IH. }
    rewrite Hid, !filter_cons, Hn. simpl.
    destruct (decide (Some name = Some name')) as [[= ->]|Hne]; simpl.
    + rewrite bool_decide_eq_true_2 by done. simpl. lia.
    + rewrite bool_decide_eq_false_2 by congruence. simpl. lia.
  - intros Hf Hn. rewrite !filter_cons. specialize (IH Hnd Hf Hn). destruct (decide _); simpl; lia.
Qed.

Lemma login_stable w i u cl c :
  server_wf w -> client_find cl (w_clients w) = Some c -> c_loginups c = None -> w_ups w !! i = Some u ->
  stable w (upd_client cl (fun c => set_c_loginups c (Some (u_name u)))
    (upd_ups i (fun u => set_u_numlogins u (u_numlogins u + 1)) w)).
Proof.
  intros Hw Hc Hn Hu. pose proof Hw as [H1 H2 H3 H4 H5 H6].
  assert (u_name <$> alter (fun u => set_u_numlogins u (u_numlogins u + 1)) i (w_ups w)
          = u_name <$> w_ups w) as Hnames.
  { clear. revert i. induction (w_ups w) as [|v l IH]; intros [|i]; csimpl; try done. by rewrite IH. }
  assert (forall name, (exists v, v ∈ alter (fun u => set_u_numlogins u (u_numlogins u + 1)) i (w_ups w)
    /\ u_name v = name) <-> exists v, v ∈ w_ups w /\ u_name v = name) as Hhas.
  { intros name. assert (forall l : list upstype, (exists v, v ∈ l /\ u_name v = name) <-> name ∈ (u_name <$> l)) as E
      by (intros; rewrite list_elem_of_fmap; naive_solver). by rewrite !E, Hnames. }
  split; simpl; [|by apply client_alter_ids|by rewrite length_alter].
  split; simpl.
  - by rewrite client_alter_ids.
  - clear -H2. unfold client_alter. apply Forall_fmap. eapply Forall_impl; [exact H2|].
    intros d Hd. simpl. by case_match.
  - assert (forall l : list upstype, (fun u => lower (u_name u)) <$> l = lower <$> (u_name <$> l)) as E
      by (intros; by rewrite <- list_fmap_compose). rewrite E, Hnames, <- E. done.
  - setoid_rewrite Hhas. unfold client_alter. apply Forall_fmap. eapply Forall_impl; [exact H4|].
    intros d Hd l. simpl. case_match; [|by apply Hd]. simpl. intros [= <-].
    exists u. split; [by eapply list_elem_of_lookup_2|done].
  - apply Forall_lookup. intros j v Hv. rewrite Forall_lookup in H5.
    rewrite (logins_set cl (u_name u) (u_name v) _ c H1 Hc Hn).
    destruct (decide (i = j)) as [->|Hne].
    + rewrite list_lookup_alter_eq, Hu in Hv. injection Hv as <-. simpl.
      rewrite (H5 _ _ Hu), bool_decide_eq_true_2; done.
    + rewrite list_lookup_alter_ne in Hv by done. rewrite (H5 _ _ Hv), bool_decide_eq_false_2; [simpl; lia|].
      intros Hname. apply Hne. by eapply names_distinct.
  - apply Forall_alter; [done|]. by intros v _.
Qed.

(** ** A request *)

Lemma request_step_stable cl c w w' :
  server_wf w -> client_find cl (w_clients w) = Some c -> request_step cl c w w' -> stable w w'.
Proof.
  intros Hw Hc. destruct 1 as [w' H|w' Ha (n & _ & H)|a0 w' _ H|a0 w' _ H|i v w' Hm Hn Hv H|i v w' Hm _ H
    |w' _ _ H|w' _ _ H|i v id line ok rs bs w' Hv Hav Hd H];
    try (by eapply quiet_stable); (eapply stable_trans; [|eapply quiet_stable; [|exact H]]);
    try apply st_wf with w.
  all: try (by apply stable_upd_client).
  all: try (by apply login_stable with c).
  all: try (apply stable_upd_ups; [done|]; by intros u).
  - assert (stable w (set_w_tracking_enabled w 1)) as H1 by (by apply stable_same).
    eapply stable_trans; [exact H1|]. apply stable_upd_client; [apply H1|done].
  - assert (stable w (set_w_tracking_enabled w 1)) as H1 by (by apply stable_same).
    eapply stable_trans; [exact H1|]. apply stable_upd_client; [apply H1|done].
  - assert (stable w (set_w_out (set_w_sys (track id (set_w_rand w rs)) bs)
      (w_out (set_w_sys (track id (set_w_rand w rs)) bs) ++ [ToDriver i line ok]))) as H1
      by (apply stable_same; by destruct id).
    unfold driver_sent. destruct ok; [done|]. eapply stable_trans; [exact H1|].
    apply stable_upd_ups; [apply H1|apply ups_safe_disconnected].
  - assert (stable w (set_w_out (set_w_sys (track id (set_w_rand w rs)) bs)
      (w_out (set_w_sys (track id (set_w_rand w rs)) bs) ++ [ToDriver i line ok]))) as H1
      by (apply stable_same; by destruct id).
    unfold driver_sent. destruct ok; [done|]. eapply stable_trans; [exact H1|].
    apply stable_upd_ups; [apply H1|apply ups_safe_disconnected].
Qed.

(** ** Disconnecting and connecting clients *)

Lemma wp_parse_net cl w c (Q : unit -> world -> Prop) :
  server_wf w -> client_find cl (w_clients w) = Some c ->
  (forall w', stable w w' -> Q tt w') -> wp (parse_net cl) Q w.
Proof.
  intros Hw Hc HQ. eapply wp_mono; [by apply parse_net_step|]. intros [] w' Hs.
  by apply HQ, (request_step_stable cl c).
Qed.

Lemma find_ids cl l : cl ∈ (c_id <$> l) <-> is_Some (client_find cl l).
Proof.
  induction l as [|c l IH]; csimpl.
  - split; [by intros ?%elem_of_nil|by intros [? ?]].
  - rewrite elem_of_cons, IH. destruct (c_id c =? cl)%nat eqn:E; breflect.
    + split; [eauto|by left].
    + split; [intros [?|?]; [congruence|done]|by right].
Qed.

Lemma ups_find_login w c l :
  server_wf w -> c ∈ w_clients w -> c_loginups c = Some l ->
  exists i u, ups_find (w_ups w) l = Some i /\ w_ups w !! i = Some u /\ u_name u = l.
Proof.
  intros Hw Hin Hl. pose proof (sw_login _ Hw) as Hall. rewrite Forall_forall in Hall.
  destruct (Hall c Hin l Hl) as (u & Hu & Hn).
  destruct (ups_find (w_ups w) l) as [i|] eqn:E.
  - destruct (ups_find_Some _ _ _ E) as (v & Hv & Hlow). exists i, v. split_and!; try done.
    apply list_elem_of_lookup in Hu as [j Hj]. apply strcaseeq_true in Hlow.
    assert (i = j) as ->; [|congruence].
    eapply (NoDup_lookup _ i j (lower l)); [apply (sw_names _ Hw)|..].
    + by rewrite list_lookup_fmap, Hv, <- Hlow.
    + by rewrite list_lookup_fmap, Hj, <- Hn.
  - exfalso. clear -E Hu Hn. induction (w_ups w) as [|v us IH]; [by apply elem_of_nil in Hu|].
    simpl in E. destruct (strcaseeq (u_name v) l) eqn:Ev; [done|].
    apply elem_of_cons in Hu as [<-|Hu]; [by rewrite Hn, strcaseeq_refl in Ev|].
    destruct (ups_find us l); [done|]. by apply IH.
Qed.

Lemma logins_remove cl l c name :
  NoDup (c_id <$> l) -> client_find cl l = Some c ->
  logins (filter (fun c => c_id c <> cl) l) name
  = logins l name - Zbool (bool_decide (c_loginups c = Some name)).
Proof.
  unfold logins. induction l as [|d l IH]; [done|]. csimpl. intros [Hni Hnd]%NoDup_cons.
  destruct (c_id d =? cl)%nat eqn:E; simpl; breflect.
  - intros [= ->]. subst cl. rewrite filter_cons_False by (intros H; by apply H).
    assert (filter (fun d => c_id d <> c_id c) l = l) as ->.
    { clear -Hni. induction l as [|d l IH]; [done|]. csimpl in Hni.
      apply not_elem_of_cons in Hni as [Hne Hni]. rewrite filter_cons_True by congruence.
      by rewrite IH. }
    rewrite filter_cons. destruct (decide (c_loginups c = Some name)) as [H|H]; simpl.
    + rewrite bool_decide_eq_true_2 by done. simpl. lia.
    + rewrite bool_decide_eq_false_2 by done. simpl. lia.
  - intros Hf. specialize (IH Hnd Hf). rewrite filter_cons_True by done.
    rewrite !(filter_cons _ d). destruct (decide (c_loginups d = Some name)); simpl; lia.
Qed.

(** The client is gone, the others are as they were. *)
Record removed (cl : nat) (w w' : world) : Prop := {
  rm_wf : server_wf w';
  rm_clients : w_clients w' = filter (fun c => c_id c <> cl) (w_clients w);
  rm_ups : length (w_ups w') = length (w_ups w)
}.

Lemma wf_remove_client w cl c ups' :
  server_wf w -> client_find cl (w_clients w) = Some c ->
  u_name <$> ups' = u_name <$> w_ups w -> Forall ups_ok ups' ->
  Forall (fun u => u_numlogins u = logins (w_clients w) (u_name u)
                    - Zbool (bool_decide (c_loginups c = Some (u_name u)))) ups' ->
  server_wf (set_w_clients (set_w_ups w ups') (filter (fun c => c_id c <> cl) (w_clients w))).
Proof.
  intros [H1 H2 H3 H4 H5 H6] Hc Hn Hok Hcount. split; simpl; [| | | | |done].
  - eapply sublist_NoDup; [exact H1|]. apply fmap_sublist, sublist_filter.
  - apply Forall_forall. rewrite Forall_forall in H2. intros d [_ Hd]%list_elem_of_filter. auto.
  - assert (forall l : list upstype, (fun u => lower (u_name u)) <$> l = lower <$> (u_name <$> l)) as E
      by (intros; by rewrite <- list_fmap_compose). rewrite E, Hn, <- E. done.
  - assert (forall name, (exists v, v ∈ ups' /\ u_name v = name) <-> exists v, v ∈ w_ups w /\ u_name v = name) as Hhas.
    { intros name. assert (forall l : list upstype, (exists v, v ∈ l /\ u_name v = name) <-> name ∈ (u_name <$> l)) as E
        by (intros; rewrite list_elem_of_fmap; naive_solver). by rewrite !E, Hn. }
    setoid_rewrite Hhas. apply Forall_forall. rewrite Forall_forall in H4.
    intros d [_ Hd]%list_elem_of_filter. by apply H4.
  - eapply Forall_impl; [exact Hcount|]. intros u ->. by erewrite logins_remove.
Qed.

Lemma wp_client_disconnect cl w c (Q : unit -> world -> Prop) :
  server_wf w -> client_find cl (w_clients w) = Some c ->
  (forall w', removed cl w w' -> Q tt w') -> wp (client_disconnect cl) Q w.
Proof.
  intros Hw Hc HQ. unfold client_disconnect. apply wp_bind. eapply wp_client_get; [done|]. apply wp_bind.
  destruct (client_find_elem _ _ _ Hc) as [Hin _]. pose proof (sw_count _ Hw) as Hcount.
  destruct (c_loginups c) as [l|] eqn:El.
  - destruct (ups_find_login _ _ _ Hw Hin El) as (i & u & Hfind & Hu & Hl).
    unfold declogins. apply wp_get_ups; [congruence|]. intros i' u' Hi' _ _.
    assert (i' = i) as -> by congruence. eapply wp_ups_upd; [exact Hu|]. apply wp_modify, HQ.
    split; simpl; [|done|by rewrite length_alter].
    refine (wf_remove_client w cl c _ Hw Hc _ _ _).
    + clear. revert i. induction (w_ups w) as [|v us IH]; intros [|i]; csimpl; try done. by rewrite IH.
    + apply Forall_alter; [apply Hw|]. by intros v _.
    + rewrite El. apply Forall_lookup. intros j v Hv. rewrite Forall_lookup in Hcount.
      destruct (decide (i = j)) as [->|Hne].
      * rewrite list_lookup_alter_eq, Hu in Hv. injection Hv as <-. simpl.
        rewrite (Hcount _ _ Hu), Hl, bool_decide_eq_true_2; done.
      * rewrite list_lookup_alter_ne in Hv by done.
        rewrite (Hcount _ _ Hv), bool_decide_eq_false_2; [simpl; lia|].
        intros [= Hn]. apply Hne. eapply names_distinct; [exact Hw|exact Hu|exact Hv|congruence].
  - apply wp_ret, wp_modify, HQ. split; simpl; [|done|done].
    refine (wf_remove_client w cl c (w_ups w) Hw Hc _ _ _); [done|apply Hw|].
    rewrite El. eapply Forall_impl; [exact Hcount|]. intros u ->. simpl. lia.
Qed.

Lemma wp_client_connect addr w (Q : unit -> world -> Prop) :
  server_wf w ->
  (forall w', server_wf w' -> length (w_ups w') = length (w_ups w) ->
     (forall cl, cl ∈ (c_id <$> w_clients w) -> cl ∈ (c_id <$> w_clients w')) -> Q tt w') ->
  wp (client_connect addr) Q w.
Proof.
  intros Hw HQ. unfold client_connect. destruct addr as [addr|]; [|apply wp_ret; by apply HQ].
  apply wp_bind, wp_get, wp_bind, wp_get, wp_bind, wp_modify, wp_modify.
  destruct Hw as [H1 H2 H3 H4 H5 H6]. apply HQ; simpl; [split; simpl|done|]; try done.
  - apply NoDup_cons. split; [|done]. intros (d & Hd & Hin)%list_elem_of_fmap.
    rewrite Forall_forall in H2. specialize (H2 d Hin). lia.
  - constructor; simpl; [lia|]. eapply Forall_impl; [exact H2|]. intros d. simpl. lia.
  - by constructor.
  - intros cl Hcl. by apply list_elem_of_further.
Qed.

(** ** The drivers' side *)

(** [m] keeps clients and UPSes in place and the invariant. *)
Definition stays {A} (m : M A) (w : world) : Prop := wp m (fun _ w' => stable w w') w.

Lemma has_ups w i : (i < length (w_ups w))%nat -> exists u, w_ups w !! i = Some u.
Proof. intros H. by apply lookup_lt_is_Some_2 in H as [u Hu]; exists u. Qed.

Lemma wp_stays {A B} (m : M A) (k : A -> M B) w :
  stays m w -> (forall a w', stable w w' -> stays (k a) w') -> stays (m ≫= k) w.
Proof.
  intros Hm Hk. apply wp_bind. eapply wp_mono; [exact Hm|]. intros a w' Hs. cbv beta in Hs.
  eapply wp_mono; [by apply Hk|]. intros b w'' Hs'. by eapply stable_trans.
Qed.

Lemma stays_ret {A} (a : A) w : server_wf w -> stays (mret a) w.
Proof. intros Hw. by apply wp_ret, stable_refl. Qed.

Lemma stays_get {A} (f : world -> A) w : server_wf w -> stays (get f) w.
Proof. intros Hw. by apply wp_get, stable_refl. Qed.

Lemma stays_ups_get i w : server_wf w -> (i < length (w_ups w))%nat -> stays (ups_get i) w.
Proof.
  intros Hw [u Hu]%has_ups. eapply wp_ups_get; [done|]. by apply stable_refl.
Qed.

Lemma stays_ups_upd i f w :
  server_wf w -> (i < length (w_ups w))%nat -> ups_safe f -> stays (ups_upd i f) w.
Proof.
  intros Hw [u Hu]%has_ups Hf. eapply wp_ups_upd; [done|]. by apply stable_upd_ups.
Qed.

Lemma stays_modify f w :
  server_wf w -> w_clients (f w) = w_clients w -> w_ups (f w) = w_ups w -> w_next_id (f w) = w_next_id w ->
  stays (modify f) w.
Proof. intros Hw ? ? ?. by apply wp_modify, stable_same. Qed.

Lemma stays_syscall w : server_wf w -> stays syscall w.
Proof. intros Hw. apply wp_syscall. intros. by apply stable_same. Qed.

Lemma safe_field f :
  (forall u, ushape (f u) = ushape u) -> (forall u, u_inforoot (f u) = u_inforoot u) ->
  (forall u, u_cmdlist (f u) = u_cmdlist u) -> ups_safe f.
Proof. intros Hs Ht Hl u. split; [done|]. unfold ups_ok. by rewrite Ht, Hl. Qed.

Lemma safe_tree f :
  (forall t, tree_wf t -> tree_wf (f t)) -> ups_safe (fun u => set_u_inforoot u (f (u_inforoot u))).
Proof. intros Hf u. split; [done|]. intros [Ht Hl]. split; [by apply Hf|done]. Qed.

Lemma safe_cmds f :
  (forall l, cmds_ok l -> cmds_ok (f l)) -> ups_safe (fun u => set_u_cmdlist u (f (u_cmdlist u))).
Proof. intros Hf u. split; [done|]. intros [Ht Hl]. split; [done|by apply Hf]. Qed.

Lemma op_wf op : forall t, tree_wf t -> tree_wf (run_op t op).1.
Proof. intros t. apply run_op_wf. Qed.

Lemma addcmd_ok c : forall l, cmds_ok l -> cmds_ok (state_addcmd l c).1.
Proof. intros l Hl. by destruct (addcmd_spec l c Hl). Qed.
Lemma delcmd_ok c : forall l, cmds_ok l -> cmds_ok (state_delcmd l c).1.
Proof. intros l Hl. by destruct (delcmd_spec l c Hl). Qed.

(** An [ups_safe] assignment, by the kind of field it is about. *)
Ltac solve_safe :=
  lazymatch goal with
  | |- ups_safe (fun u => set_u_inforoot u (state_setinfo ?n _ ?v ?x).1) => exact (safe_tree _ (op_wf (OpSetInfo n v x)))
  | |- ups_safe (fun u => set_u_inforoot u (state_delinfo _ ?v).1) => exact (safe_tree _ (op_wf (OpDelInfo v)))
  | |- ups_safe (fun u => set_u_inforoot u (state_setflags ?n _ ?v ?x)) => exact (safe_tree _ (op_wf (OpSetFlags n v x)))
  | |- ups_safe (fun u => set_u_inforoot u (state_addenum ?n _ ?v ?x).1) => exact (safe_tree _ (op_wf (OpAddEnum n v x)))
  | |- ups_safe (fun u => set_u_inforoot u (state_delenum ?n _ ?v ?x).1) => exact (safe_tree _ (op_wf (OpDelEnum n v x)))
  | |- ups_safe (fun u => set_u_inforoot u (state_setaux ?n _ ?v ?x).1) => exact (safe_tree _ (op_wf (OpSetAux n v x)))
  | |- ups_safe (fun u => set_u_inforoot u (state_addrange ?n _ ?v ?x ?y).1) =>
      exact (safe_tree _ (op_wf (OpAddRange n v x y)))
  | |- ups_safe (fun u => set_u_inforoot u (state_delrange ?n _ ?v ?x ?y).1) =>
      exact (safe_tree _ (op_wf (OpDelRange n v x y)))
  | |- ups_safe (fun u => set_u_inforoot u Leaf) => exact (safe_tree (fun _ => Leaf) (fun _ _ => tree_wf_leaf))
  | |- ups_safe (fun u => set_u_cmdlist u (state_addcmd _ ?c).1) => exact (safe_cmds _ (addcmd_ok c))
  | |- ups_safe (fun u => set_u_cmdlist u (state_delcmd _ ?c).1) => exact (safe_cmds _ (delcmd_ok c))
  | |- ups_safe (fun u => set_u_cmdlist u []) => apply (safe_cmds (fun _ => [])); by constructor
  | |- ups_safe _ => by apply safe_field
  end.

(** The side conditions, in the world a step ended in. *)
Ltac stable_side :=
  match goal with
  | H : stable _ ?w |- server_wf ?w => exact (st_wf _ _ H)
  | H : stable ?w0 ?w |- (_ < length (w_ups ?w))%nat => rewrite (st_ups _ _ H); stable_side
  | |- _ => done
  end.

Ltac stays_step :=
  match goal with
  | |- stays (_ ≫= _) _ => apply wp_stays; [|intros ? ? ?]
  | |- stays (mret _) _ => apply stays_ret; stable_side
  | |- stays (get _) _ => apply stays_get; stable_side
  | |- stays time _ => apply stays_get; stable_side
  | |- stays (ups_get _) _ => apply stays_ups_get; stable_side
  | |- stays (ups_upd _ _) _ => apply stays_ups_upd; [stable_side|stable_side|solve_safe]
  | |- stays (upd_tree _ _) _ => apply stays_ups_upd; [stable_side|stable_side|solve_safe]
  | |- stays (upd_cmds _ _) _ => apply stays_ups_upd; [stable_side|stable_side|solve_safe]
  | |- stays (modify _) _ => apply stays_modify; [stable_side|done..]
  | |- stays (emit _) _ => apply stays_modify; [stable_side|done..]
  | |- stays syscall _ => apply stays_syscall; stable_side
  | |- stays (when ?b _) _ => destruct b; cbn [when]
  | |- stays (if ?b then _ else _) _ => destruct b
  | |- stays (match ?x with _ => _ end) _ => destruct x
  end.

Section Driver.
Context (i : nat).

Lemma parse_args_stays arg w :
  server_wf w -> (i < length (w_ups w))%nat -> stays (parse_args i arg) w.
Proof. intros Hw Hi. unfold parse_args. repeat stays_step. Qed.

Lemma disconnect_stays w :
  server_wf w -> (i < length (w_ups w))%nat -> stays (sstate_disconnect i) w.
Proof. intros Hw Hi. unfold sstate_disconnect, sstate_infofree, sstate_cmdfree. repeat stays_step. Qed.

Lemma driver_write_stays buf w :
  server_wf w -> (i < length (w_ups w))%nat -> stays (driver_write i buf) w.
Proof. intros Hw Hi. unfold driver_write. repeat stays_step. Qed.

Lemma sendping_stays w :
  server_wf w -> (i < length (w_ups w))%nat -> stays (sendping i) w.
Proof.
  intros Hw Hi. unfold sendping.
  repeat match goal with
  | |- stays (driver_write _ _) _ => apply driver_write_stays; stable_side
  | |- stays (sstate_disconnect _) _ => apply disconnect_stays; stable_side
  | |- _ => stays_step
  end.
Qed.

Lemma connect_stays w :
  server_wf w -> (i < length (w_ups w))%nat -> stays (sstate_connect i) w.
Proof.
  intros Hw Hi. unfold sstate_connect.
  repeat match goal with
  | |- stays (driver_write _ _) _ => apply driver_write_stays; stable_side
  | |- _ => stays_step
  end.
Qed.

Lemma dead_stays arg_maxage w :
  server_wf w -> (i < length (w_ups w))%nat -> stays (sstate_dead i arg_maxage) w.
Proof.
  intros Hw Hi. unfold sstate_dead.
  repeat match goal with
  | |- stays (sendping _) _ => apply sendping_stays; stable_side
  | |- _ => stays_step
  end.
Qed.

Lemma sstate_feed_stays buf w :
  server_wf w -> (i < length (w_ups w))%nat -> stays (sstate_feed i buf) w.
Proof.
  revert w. induction buf as [|ch buf IH]; intros w Hw Hi; cbn [sstate_feed]; [stays_step|].
  repeat match goal with
  | |- stays (parse_args _ _) _ => apply parse_args_stays; stable_side
  | |- stays (sstate_feed _ _) _ => apply IH; stable_side
  | |- _ => stays_step
  end.
Qed.

Lemma sstate_readline_stays res w :
  server_wf w -> (i < length (w_ups w))%nat -> stays (sstate_readline i res) w.
Proof.
  intros Hw Hi. unfold sstate_readline.
  repeat match goal with
  | |- stays (sstate_disconnect _) _ => apply disconnect_stays; stable_side
  | |- stays (sstate_feed _ _) _ => apply sstate_feed_stays; stable_side
  | |- _ => stays_step
  end.
Qed.

Lemma driver_scan_stays w :
  server_wf w -> (i < length (w_ups w))%nat -> stays (driver_scan i) w.
Proof.
  intros Hw Hi. unfold driver_scan, ups_data_stale, ups_data_ok.
  repeat match goal with
  | |- stays (sstate_connect _) _ => apply connect_stays; stable_side
  | |- stays (sstate_dead _ _) _ => apply dead_stays; stable_side
  | |- _ => stays_step
  end.
Qed.
End Driver.

(** ** The clients' side and whole events *)

(** The client is still there after a stable step. *)
Lemma stable_client w w' cl :
  stable w w' -> cl ∈ (c_id <$> w_clients w) -> cl ∈ (c_id <$> w_clients w').
Proof. intros Hs. by rewrite (st_ids _ _ Hs). Qed.

Lemma stays_client_get cl w : server_wf w -> cl ∈ (c_id <$> w_clients w) -> stays (client_get cl) w.
Proof.
  intros Hw [c Hc]%find_ids. eapply wp_client_get; [done|]. by apply stable_refl.
Qed.

Lemma stays_client_upd cl f w :
  server_wf w -> cl ∈ (c_id <$> w_clients w) -> (forall c, cshape (f c) = cshape c) ->
  stays (client_upd cl f) w.
Proof.
  intros Hw [c Hc]%find_ids Hf. eapply wp_client_upd; [done|]. by apply stable_upd_client.
Qed.

Lemma stays_parse_net cl w : server_wf w -> cl ∈ (c_id <$> w_clients w) -> stays (parse_net cl) w.
Proof. intros Hw [c Hc]%find_ids. by eapply wp_parse_net. Qed.

Ltac client_side :=
  match goal with
  | H : stable ?w0 ?w |- _ ∈ (c_id <$> w_clients ?w) => apply (stable_client _ _ _ H); client_side
  | |- _ => done
  end.

Lemma client_feed_stays cl buf w :
  server_wf w -> cl ∈ (c_id <$> w_clients w) -> stays (client_feed cl buf) w.
Proof.
  revert w. induction buf as [|ch buf IH]; intros w Hw Hcl; cbn [client_feed]; [stays_step|].
  repeat match goal with
  | |- stays (client_get _) _ => apply stays_client_get; [stable_side|client_side]
  | |- stays (client_upd _ _) _ => apply stays_client_upd; [stable_side|client_side|done]
  | |- stays (parse_net _) _ => apply stays_parse_net; [stable_side|client_side]
  | |- stays (client_feed _ _) _ => apply IH; [stable_side|client_side]
  | |- _ => stays_step
  end.
Qed.

(** Which client an event is about. *)
Definition ev_client (e : event) : option nat :=
  match e with EvClient cl _ | EvClientHup cl => Some cl | _ => None end.

(** The pointers that [handler[]] holds for the event are valid. *)
Definition ev_valid (w : world) (e : event) : Prop :=
  match e with
  | EvDriver i _ | EvDriverHup i => (i < length (w_ups w))%nat
  | EvClient cl _ | EvClientHup cl => cl ∈ (c_id <$> w_clients w)
  | EvServer _ => True
  end.

(** What an event leaves: the invariant, all UPSes and all clients but its own. *)
Definition ev_post (o : option nat) (w w' : world) : Prop :=
  server_wf w' /\ length (w_ups w') = length (w_ups w)
  /\ forall cl, o <> Some cl -> cl ∈ (c_id <$> w_clients w) -> cl ∈ (c_id <$> w_clients w').

Lemma stable_post o w w' : stable w w' -> ev_post o w w'.
Proof. intros [H1 H2 H3]. split_and!; [done|done|]. intros cl _. by rewrite H2. Qed.

Lemma removed_post cl w w' : removed cl w w' -> ev_post (Some cl) w w'.
Proof.
  intros [H1 H2 H3]. split_and!; [done|done|]. intros cl' Hne Hin. rewrite H2.
  apply list_elem_of_fmap in Hin as (c & -> & Hc). apply list_elem_of_fmap_2.
  apply list_elem_of_filter. split; [congruence|done].
Qed.

Lemma wp_disconnect_client cl w :
  server_wf w -> cl ∈ (c_id <$> w_clients w) ->
  wp (client_disconnect cl) (fun _ w' => ev_post (Some cl) w w') w.
Proof.
  intros Hw [c Hc]%find_ids. eapply wp_client_disconnect; [done..|]. intros w'. apply removed_post.
Qed.

Lemma handle_event_post e w :
  server_wf w -> ev_valid w e -> wp (handle_event e) (fun _ w' => ev_post (ev_client e) w w') w.
Proof.
  intros Hw Hv. destruct e as [i res|i|cl res|cl|addr]; simpl in Hv; cbn [handle_event].
  - eapply wp_mono; [by apply sstate_readline_stays|]. intros [] w'. apply stable_post.
  - eapply wp_mono; [by apply disconnect_stays|]. intros [] w'. apply stable_post.
  - destruct res as [| |[|ch buf]]; simpl; try (by apply wp_disconnect_client).
    eapply wp_mono; [by apply (client_feed_stays cl (ch :: buf))|]. intros [] w'. apply stable_post.
  - by apply wp_disconnect_client.
  - eapply wp_client_connect; [done|]. intros w' H1 H2 H3. by split_and!; auto.
Qed.

(** One pass over what [poll] returned. *)
Definition handle_events (es : list event) : M unit := for_each es handle_event.

Lemma ev_valid_post e0 e w w' :
  ev_post (ev_client e0) w w' -> ev_valid w e ->
  (forall cl, ev_client e0 = Some cl -> ev_client e <> Some cl) -> ev_valid w' e.
Proof.
  intros (_ & Hlen & Hcl) Hv Hne. destruct e as [i res|i|cl res|cl|addr]; simpl in *;
    try (by rewrite Hlen); try done; apply Hcl; [|done| |done]; intros Heq; by apply (Hne cl Heq).
Qed.

(** C6. The server stays sound: from a state that satisfies the invariant, any
    batch of ready descriptors that [poll] may report, at most one event per client,
    is served without following a stale client or UPS pointer, whatever bytes
    were received and whichever writes fail; and the state after it again satisfies the invariant.
    In particular every UPS's login counter is the number of clients logged into it. *)
Theorem handle_events_sound es w :
  server_wf w -> Forall (ev_valid w) es -> NoDup (omap ev_client es) ->
  wp (handle_events es) (fun _ w' => server_wf w' /\ length (w_ups w') = length (w_ups w)) w.
Proof.
  revert w. induction es as [|e es IH]; intros w Hw Hv Hnd; [by apply wp_ret|].
  apply Forall_cons in Hv as [Hve Hv]. unfold handle_events. cbn [for_each]. apply wp_bind.
  eapply wp_mono; [by apply handle_event_post|]. intros [] w1 Hp. pose proof Hp as (Hw1 & Hlen & _).
  rewrite <- Hlen. apply IH; [done| |].
  - rewrite Forall_forall in Hv |- *. intros e' He'. eapply ev_valid_post; [exact Hp|by apply Hv|].
    intros cl Hcl Hcl'. csimpl in Hnd. rewrite Hcl in Hnd. apply NoDup_cons in Hnd as [Hni _].
    apply Hni. apply list_elem_of_omap. eauto.
  - csimpl in Hnd. destruct (ev_client e); [by apply NoDup_cons in Hnd as [_ ?]|done].
Qed.

Definition idle_world : world :=
  mkWorld [demo_ups] [] 1 demo_users (mkDesc [] []) [] 0 100 [] [] [] (mkConfig 15 3600 ($"2.8.4") None).

Lemma idle_world_wf : server_wf idle_world.
Proof.
  split; simpl; try (by constructor); [apply NoDup_singleton|].
  repeat constructor; apply (run_ops_refines _ Leaf tree_wf_leaf).
Qed.

Lemma handle_events_sound_witness :
  wp (handle_events [EvServer (Some ($"::1")); EvDriver 0 (ReadData ($"DATASTALE" ++ [LF])); EvDriverHup 0])
    (fun _ w' => server_wf w' /\ length (w_ups w') = 1%nat) idle_world.
Proof.
  apply (handle_events_sound _ idle_world); [exact idle_world_wf| |exact (NoDup_nil_2)].
  repeat constructor; simpl; lia.
Defined.

(** Disconnecting a client, however it happens, removes exactly that client's structure and takes its
    login off the counter of the UPS it was logged into, and off no other's. *)
Theorem client_disconnect_correct cl w c :
  server_wf w -> client_find cl (w_clients w) = Some c ->
  wp (client_disconnect cl) (fun _ w' =>
    server_wf w' /\ w_clients w' = filter (fun c => c_id c <> cl) (w_clients w)
    /\ forall name, logins (w_clients w') name
         = logins (w_clients w) name - Zbool (bool_decide (c_loginups c = Some name))) w.
Proof.
  intros Hw Hc. eapply wp_client_disconnect; [done..|]. intros w' [H1 H2 _].
  split_and!; [done|done|]. intros name. rewrite H2. apply logins_remove; [apply Hw|done].
Qed.

Lemma client_disconnect_correct_witness :
  let w := set_w_clients idle_world [mkClient 0 ($"::1") 100 None None None 0 pconf_init] in
  wp (client_disconnect 0) (fun _ w' => w_clients w' = []) w.
Proof.
  intros w. assert (server_wf w) as Hw.
  { pose proof idle_world_wf as [H1 H2 H3 H4 H5 H6]. split; simpl; try done; [apply NoDup_singleton|..];
      repeat constructor. done. }
  eapply wp_mono; [eapply (client_disconnect_correct 0 w); [exact Hw|reflexivity]|].
  intros [] w' (_ & H & _). exact H.
Defined.
