(* ===== verification/ProtoLines.v ===== *)
(** * Protocol lines through the character-fed parser

    What upsd gets when a peer sends lines composed of bare words and quoted,
    encoded values: the interface between parseconf.c and the two readers,
    sstate_readline and client_readline. *)

From S2P Require Import Prelude CStr ParseConf ParseConfFacts StateTree Users Desc Tracking.
From S2P Require Import World SState Upsd NetGet Server ServerLib ServerFacts.
From stdpp Require Import options.

(** The parser is between two lines, with the default limits. *)
Definition ready (c : PCONF_CTX) : Prop :=
  pconf_wf c /\ settings c = settings pconf_init /\ p_wordbuf c = []
  /\ (p_state c = STATE_ENDOFLINE \/ p_state c = STATE_FINDWORDSTART /\ p_numargs c = 0%nat).

Lemma ready_init : ready pconf_init.
Proof. split; [apply pconf_init_wf|]. split; [done|]. split; [done|]. by right. Qed.

Lemma feed_start_over c x s :
  line_over (p_state c) = true -> p_magic c = PCONF_CTX_t_MAGIC ->
  feed_chars c (x :: s) = feed_chars (start_over c) (x :: s).
Proof.
  intros Ho Hm. cbn [feed_chars]. unfold pconf_char. rewrite !check_magic_ok by done.
  cbn [Z.eqb]. by rewrite Ho.
Qed.

Lemma render_complete al wl ts l :
  ts <> [] -> Forall (token_ok wl) ts -> within al (length l + length ts) ->
  complete (arun al wl (mkView STATE_FINDWORDSTART [] l) (map schar (render ts))) = true.
Proof.
  intros Hne Hok. revert l Hne. induction Hok as [|t ts Ht Hok IH]; intros l Hne Hal; [done|].
  destruct ts as [|t' ts].
  - simpl render. rewrite arun_token by done. destruct Ht as [_ Ht].
    destruct t as [w|w]; [|done]. unfold complete. simpl. destruct Ht as [Hw _].
    by rewrite bool_decide_eq_false_2.
  - change (render (t :: t' :: ts)) with (render_token t ++ [chr 32] ++ render (t' :: ts)).
    rewrite !map_app, !arun_app, arun_token by done.
    assert (forall w, a_commit al l w = l ++ [w]) as Hcommit.
    { intros w. unfold a_commit, a_room, within in *. simpl in Hal.
      case_match eqn:E; [done|]. breflect. lia. }
    replace (arun al wl _ (map schar [chr 32]))
      with (mkView STATE_FINDWORDSTART [] (l ++ [token_word t])).
    2: { destruct t as [w|w]; simpl; rewrite <- Hcommit; reflexivity. }
    apply IH; [done|]. unfold within in *. rewrite length_app. simpl in *. lia.
Qed.

(** The lines of the protocol: at most 32 words of at most 512 characters. *)
Definition line_ok (ts : list token) : Prop :=
  ts <> [] /\ Forall (token_ok PCONF_DEFAULT_WORDLEN_LIMIT) ts
  /\ (length ts <= PCONF_DEFAULT_ARG_LIMIT)%nat.

#[export] Instance line_ok_dec ts : Decision (line_ok ts).
Proof. unfold line_ok. apply _. Defined.

(** Feeding such a line: 0 for each character, 1 at the newline, the words, and the parser is
    ready for the next line. *)
Lemma feed_line c ts :
  ready c -> line_ok ts ->
  let r := feed_chars c (render ts ++ [LF]) in
  r.1 = replicate (length (render ts)) 0 ++ [1] /\ args r.2 = map token_word ts /\ ready r.2.
Proof.
  intros (Hwf & Hs & Hw & Hst) (Hne & Hok & Hlen).
  assert (exists c0, feed_chars c (render ts ++ [LF]) = feed_chars c0 (render ts ++ [LF])
    /\ pconf_wf c0 /\ settings c0 = settings pconf_init /\ view c0 = a_start) as (c0 & -> & Hwf0 & Hs0 & Hv0).
  { pose proof (settings_eq _ _ Hs) as (_ & _ & Hm). destruct Hst as [Hst|[Hst Hn]].
    - exists (start_over c). split_and!; [|auto with nut|done|].
      + destruct (render ts); apply feed_start_over; by rewrite ?Hst.
      + rewrite start_over_view, Hw. done.
    - exists c. split_and!; try done. unfold view, a_start, args. by rewrite Hst, Hw, Hn. }
  clear c Hwf Hs Hw Hst. destruct (settings_eq _ _ Hs0) as (Ha & Hl & Hm).
  assert (within (p_arg_limit c0) (length (@nil bytes) + length ts)) as Hwi.
  { right. rewrite Ha. exact Hlen. }
  assert (Forall (token_ok (p_wordlen_limit c0)) ts) as Hok0 by (by rewrite Hl).
  assert (complete (a_line c0 (map schar (render ts))) = true) as Hc
    by (by apply (render_complete _ _ ts [])).
  destruct (feed_chars_complete c0 (render ts)) as [Hr Hargs]; [done..|].
  split; [done|]. split.
  { rewrite Hargs. by apply (arun_render _ _ ts []). }
  destruct (complete_run _ _ Hc) as (Hno & Hlf & _).
  destruct (feed_chars_view (render ts) c0) as (_ & Hwf1 & Hv1 & Hs1);
    [done|done|by injection Hv0 as ->|by rewrite Hv0|].
  rewrite feed_chars_app. cbv zeta. rewrite Hv0 in Hv1. fold (a_line c0 (map schar (render ts))) in Hv1.
  destruct (feed_chars c0 (render ts)) as [rs c1]. cbn [fst snd] in *.
  destruct (settings_eq _ _ Hs1) as (Hs2 & Hs3 & Hs4).
  destruct (pconf_char_view c1 LF Hwf1) as (Hwf2 & Hv2 & Hs5 & _);
    [by rewrite Hs4|by rewrite <- Hno, <- Hv1|].
  rewrite Hs2, Hs3, Hv1 in Hv2. change (schar LF) with 10 in Hv2. rewrite Hlf in Hv2.
  cbn [feed_chars]. destruct (pconf_char c1 LF) as [r2 c2]. cbn [fst snd] in *.
  injection Hv2 as Hst2 Hw2 _. split; [done|]. split; [by rewrite Hs5, Hs1|]. split; [done|]. by left.
Qed.

(** ** The two readers *)

Definition with_sock_ctx (ctx : PCONF_CTX) (u : upstype) : upstype := set_u_sock_ctx u ctx.

(** The first line of what was read is handled, then the rest. *)
Lemma sstate_feed_line_app i u s rest ctx w (Q : unit -> world -> Prop) :
  w_ups w !! i = Some u ->
  (feed_chars (u_sock_ctx u) (s ++ [LF])).1 = replicate (length s) 0 ++ [1] ->
  (feed_chars (u_sock_ctx u) (s ++ [LF])).2 = ctx ->
  wp (ok ← parse_args i (args ctx);
      when (negb (ok =? 0)) (now ← time; ups_upd i (fun u => set_u_last_heard u now)) ;;
      sstate_feed i rest) Q (upd_ups i (with_sock_ctx ctx) w) ->
  wp (sstate_feed i (s ++ LF :: rest)) Q w.
Proof.
  revert u w. induction s as [|x s IH]; intros u w Hu Hr Hctx HQ; cbn [app sstate_feed feed_chars] in *.
  - apply wp_bind. eapply wp_ups_get; [done|].
    destruct (pconf_char (u_sock_ctx u) LF) as [r c1] eqn:E. simpl in Hr, Hctx. injection Hr as ->. subst c1.
    eapply wp_upd_ups; [done|]. cbn [Z.eqb Pos.eqb]. exact HQ.
  - apply wp_bind. eapply wp_ups_get; [done|].
    destruct (pconf_char (u_sock_ctx u) x) as [r c1] eqn:E.
    destruct (feed_chars c1 (s ++ [LF])) as [rs c2] eqn:Ef. simpl in Hr, Hctx. injection Hr as -> Hrs. subst c2.
    eapply wp_upd_ups; [done|]. cbn [Z.eqb].
    apply (IH (with_sock_ctx c1 u)); [by apply upd_ups_lookup|simpl; by rewrite Ef|simpl; by rewrite Ef|].
    assert (upd_ups i (with_sock_ctx ctx) (upd_ups i (fun u => set_u_sock_ctx u c1) w)
            = upd_ups i (with_sock_ctx ctx) w) as ->; [|done].
    unfold upd_ups. simpl. by rewrite list_alter_alter_eq.
Qed.

Lemma sstate_feed_line i u s ctx w (Q : unit -> world -> Prop) :
  w_ups w !! i = Some u ->
  (feed_chars (u_sock_ctx u) (s ++ [LF])).1 = replicate (length s) 0 ++ [1] ->
  (feed_chars (u_sock_ctx u) (s ++ [LF])).2 = ctx ->
  wp (ok ← parse_args i (args ctx);
      when (negb (ok =? 0)) (now ← time; ups_upd i (fun u => set_u_last_heard u now)) ;;
      mret tt) Q (upd_ups i (with_sock_ctx ctx) w) ->
  wp (sstate_feed i (s ++ [LF])) Q w.
Proof. exact (sstate_feed_line_app i u s [] ctx w Q). Qed.

Definition with_client_ctx (ctx : PCONF_CTX) (c : nut_ctype) : nut_ctype := set_c_ctx c ctx.

Lemma client_feed_line cl c s ctx w (Q : unit -> world -> Prop) :
  client_find cl (w_clients w) = Some c ->
  (feed_chars (c_ctx c) (s ++ [LF])).1 = replicate (length s) 0 ++ [1] ->
  (feed_chars (c_ctx c) (s ++ [LF])).2 = ctx ->
  wp (parse_net cl ;; mret tt) Q
    (upd_client cl (fun c => set_c_last_heard (with_client_ctx ctx c) (w_now w)) w) ->
  wp (client_feed cl (s ++ [LF])) Q w.
Proof.
  revert c w. induction s as [|x s IH]; intros c w Hc Hr Hctx HQ; cbn [app client_feed feed_chars] in *.
  - apply wp_bind. eapply wp_client_get; [done|].
    destruct (pconf_char (c_ctx c) LF) as [r c1] eqn:E. simpl in Hr, Hctx. injection Hr as ->. subst c1.
    eapply wp_upd_client; [done|]. cbn [Z.eqb Pos.eqb]. apply wp_bind, wp_get.
    eapply wp_upd_client; [by apply upd_client_find|].
    assert (forall w, upd_client cl (fun c => set_c_last_heard c (w_now w))
             (upd_client cl (fun c => set_c_ctx c ctx) w)
           = upd_client cl (fun c => set_c_last_heard (with_client_ctx ctx c) (w_now w)) w) as Heq.
    { intros w0. unfold upd_client. simpl. by rewrite client_alter_alter. }
    change (w_now (upd_client cl (fun c0 => set_c_ctx c0 ctx) w)) with (w_now w). rewrite Heq. exact HQ.
  - apply wp_bind. eapply wp_client_get; [done|].
    destruct (pconf_char (c_ctx c) x) as [r c1] eqn:E.
    destruct (feed_chars c1 (s ++ [LF])) as [rs c2] eqn:Ef. simpl in Hr, Hctx. injection Hr as -> Hrs. subst c2.
    eapply wp_upd_client; [done|]. cbn [Z.eqb].
    apply (IH (with_client_ctx c1 c)); [by apply upd_client_find|simpl; by rewrite Ef|simpl; by rewrite Ef|].
    assert (upd_client cl (fun c => set_c_last_heard (with_client_ctx ctx c) (w_now w))
             (upd_client cl (fun c => set_c_ctx c c1) w)
           = upd_client cl (fun c => set_c_last_heard (with_client_ctx ctx c) (w_now w)) w) as Heq.
    { unfold upd_client. simpl. by rewrite client_alter_alter. }
    cbn [upd_client w_now set_w_clients] in *. rewrite Heq. exact HQ.
Qed.
