(* ===== verification/EndToEnd.v ===== *)
(** * From the driver to the client and back

    The theorems that cross components: what a driver publishes is what a
    client reads, and what a client sets is what the driver is asked to set.  A parser on each side is the one of
    parseconf.c. *)

From S2P Require Import Prelude CStr ParseConf ParseConfFacts StateTree StateFacts Users Desc.
From S2P Require Import Tracking World SState Upsd NetGet NetUser NetSet Server ServerLib.
From S2P Require Import ServerFacts ListFacts ServerInv ProtoLines.
From stdpp Require Import options.

(** ** Lines to the driver *)

Lemma encode_quoted v :
  Forall printable v -> (length (escape v) < SMALLBUF)%nat ->
  quoted (pconf_encode v SMALLBUF) = render_token (Quoted v).
Proof.
  intros Hp Hl. unfold quoted, SMALLBUF in *. rewrite pconf_encode_fits; [done| |done|lia|lia].
  by apply printable_no_nul.
Qed.

Lemma set_render var v :
  render [Bare ($"SET"); Bare var; Quoted v] = $"SET " ++ var ++ $" " ++ render_token (Quoted v).
Proof. reflexivity. Qed.

Lemma track_render ts id :
  ts <> [] -> render (ts ++ [Bare ($"TRACKING"); Bare id]) = render ts ++ $" TRACKING " ++ id.
Proof.
  intros Hne. induction ts as [|t ts IH]; [done|]. destruct ts as [|t' ts].
  - change (render ([t] ++ [Bare ($"TRACKING"); Bare id]))
      with (render_token t ++ [chr 32] ++ ($"TRACKING" ++ [chr 32] ++ id)). done.
  - change (render ((t :: t' :: ts) ++ [Bare ($"TRACKING"); Bare id]))
      with (render_token t ++ [chr 32] ++ render ((t' :: ts) ++ [Bare ($"TRACKING"); Bare id])).
    rewrite IH by done. change (render (t :: t' :: ts)) with (render_token t ++ [chr 32] ++ render (t' :: ts)).
    by rewrite <- !app_assoc.
Qed.

(** The words of a command for the driver. *)
Definition set_tokens (var newval id : bytes) : list token :=
  [Bare ($"SET"); Bare var; Quoted newval]
  ++ match id with [] => [] | _ => [Bare ($"TRACKING"); Bare id] end.

Lemma set_line_render var newval id :
  Forall printable newval -> (length (render (set_tokens var newval id)) < SMALLBUF - 2)%nat ->
  set_line var newval id = render (set_tokens var newval id) ++ [LF].
Proof.
  intros Hp Hlen. unfold set_tokens in *.
  assert (exists tl, render ([Bare ($"SET"); Bare var; Quoted newval]
      ++ match id with [] => [] | _ => [Bare ($"TRACKING"); Bare id] end)
    = render [Bare ($"SET"); Bare var; Quoted newval] ++ tl
    /\ (tl = match id with [] => [] | _ => $" TRACKING " ++ id end)) as (tl & Hr & Htl).
  { destruct id; [exists []; by rewrite !app_nil_r|]. eexists. split; [by apply track_render|done]. }
  rewrite Hr in *. rewrite length_app in Hlen.
  assert (length (escape newval) < SMALLBUF)%nat as He.
  { rewrite set_render, !length_app in Hlen. unfold render_token in Hlen. rewrite !length_app in Hlen.
    unfold SMALLBUF in *. lia. }
  unfold set_line. rewrite encode_quoted by done. rewrite <- set_render. unfold SMALLBUF in *.
  rewrite snprintf_s_id by lia. destruct id as [|x id].
  - subst tl. rewrite app_nil_r.
    apply snprintfcat_id. rewrite length_app. cbn [length] in *. lia.
  - rewrite <- Htl, (snprintfcat_id _ _ tl) by (rewrite length_app; lia).
    apply snprintfcat_id. rewrite !length_app. cbn [length]. lia.
Qed.

(** The line that SET sends to a driver means what the client asked: if it fits
    the 512-byte buffer (with at most 509 characters: [snprintfcat] leaves the last one out), the driver's parser, fed character by character, reads exactly
    the words SET, the variable, the new value (whatever quotes, backslashes, hash signs or spaces it
    holds) and, with tracking, TRACKING and the id. *)
Theorem set_line_parses_back c var newval id :
  ready c -> line_ok (set_tokens var newval id) ->
  (length (render (set_tokens var newval id)) < SMALLBUF - 2)%nat ->
  let r := feed_chars c (set_line var newval id) in
  args r.2 = [$"SET"; var; newval] ++ match id with [] => [] | _ => [$"TRACKING"; id] end
  /\ ready r.2.
Proof.
  intros Hc Hok Hlen. assert (Forall printable newval) as Hp.
  { destruct Hok as (_ & Hall & _). unfold set_tokens in Hall. simpl in Hall.
    by apply Forall_cons in Hall as [_ [_ [[_ H] _]%Forall_cons]%Forall_cons]. }
  cbv zeta. rewrite set_line_render by done. destruct (feed_line c _ Hc Hok) as (_ & -> & ?).
  split; [|done]. unfold set_tokens. rewrite map_app. by destruct id.
Qed.

Lemma set_line_parses_back_witness :
  args (feed_chars pconf_init (set_line ($"ups.id") (qt ++ $" #1\ x") ($"AB"))).2
  = [$"SET"; $"ups.id"; qt ++ $" #1\ x"; $"TRACKING"; $"AB"].
Proof.
  refine (proj1 (set_line_parses_back pconf_init ($"ups.id") (qt ++ $" #1\ x") ($"AB") ready_init _ _)).
  - apply (bool_decide_unpack _). vm_compute. exact I.
  - apply Nat.ltb_lt. vm_compute. reflexivity.
Defined.


Lemma lf_not_printable : ~ printable LF.
Proof. intros [H _]. by vm_compute in H. Qed.

Lemma escape_printable s : Forall printable s -> Forall printable (escape s).
Proof.
  intros H. induction H as [|c s Hc Hs IH]; [done|]. cbn [escape flat_map].
  assert (printable (chr 92)) as Hb by (by split; vm_compute).
  apply Forall_app. split; [|done]. unfold escape_char.
  case_match; repeat (apply Forall_cons; split); try done; by apply Forall_nil.
Qed.

Lemma encode_printable s n : (2 <= n)%nat -> Z.of_nat n <= 2 ^ 64 -> Forall printable s ->
  Forall printable (pconf_encode s n).
Proof.
  intros Hn Hm Hs. destruct (pconf_encode_spec s n (printable_no_nul _ Hs) Hn Hm) as (k & -> & _).
  by apply escape_printable, Forall_take.
Qed.

(** A command that does not fit loses its newline: when the SET text alone
    has 510 characters or more, what is written to the driver is its first 511 characters, without a line
    feed, so that the driver takes the next command for the rest of this one. *)
Theorem long_set_line_has_no_newline var newval id :
  Forall printable var -> Forall printable newval ->
  let base := $"SET " ++ var ++ $" " ++ quoted (pconf_encode newval SMALLBUF) in
  (SMALLBUF - 2 <= length base)%nat ->
  set_line var newval id = take (SMALLBUF - 1) base /\ LF ∉ set_line var newval id.
Proof.
  intros Hv Hn base Hlen.
  assert (Forall printable base) as Hb.
  { assert (forall l, forallb (fun c => bool_decide (printable c)) l = true -> Forall printable l) as Hlit.
    { intros l. induction l as [|c l IH]; simpl; [done|].
      intros [Hc Hl]%andb_true_iff. constructor; [by apply bool_decide_eq_true in Hc|auto]. }
    assert (Forall printable (pconf_encode newval SMALLBUF)) as He
      by (apply encode_printable; [unfold SMALLBUF; lia|unfold SMALLBUF; lia|exact Hn]).
    unfold base, quoted. revert He. generalize (pconf_encode newval SMALLBUF). intros e He.
    rewrite !Forall_app. split_and!; try exact Hv; try exact He; apply Hlit; vm_compute; reflexivity. }
  assert (set_line var newval id = take (SMALLBUF - 1) base) as Hset.
  { assert (forall s, snprintfcat (take (SMALLBUF - 1) base) SMALLBUF s = take (SMALLBUF - 1) base) as Hfull
      by (intros s; apply snprintfcat_full; rewrite length_take; unfold SMALLBUF in *; lia).
    unfold set_line. fold base. unfold snprintf_s. destruct id; by rewrite !Hfull. }
  split; [done|]. rewrite Hset. intros Hin.
  apply lf_not_printable. apply (Forall_take _ (SMALLBUF - 1)%nat) in Hb.
  rewrite Forall_forall in Hb. by apply Hb.
Qed.

Lemma long_set_line_has_no_newline_witness :
  LF ∉ set_line ($"ups.id") (replicate 500 "x"%char) [].
Proof.
  refine (proj2 (long_set_line_has_no_newline ($"ups.id") (replicate 500 "x"%char) [] _ _ _));
    [apply (bool_decide_unpack _); vm_compute; exact I..|].
  apply Nat.leb_le. vm_compute. reflexivity.
Defined.

(** INSTCMD encodes its parameter but, unlike SET, does not quote it: a
    parameter of two words reaches the driver as two words after the command, so the second is not part of the parameter. *)
Theorem instcmd_value_is_split c cmdname a b :
  ready c -> line_ok [Bare ($"INSTCMD"); Bare cmdname; Bare a; Bare b] ->
  (length (render [Bare ($"INSTCMD"); Bare cmdname; Bare a; Bare b]) < SMALLBUF - 2)%nat ->
  args (feed_chars c (instcmd_line cmdname (Some (a ++ $" " ++ b)) [])).2
  = [$"INSTCMD"; cmdname; a; b].
Proof.
  intros Hc Hok Hlen.
  assert (forall w, token_ok PCONF_DEFAULT_WORDLEN_LIMIT (Bare w) -> escape w = w /\ Forall printable w) as Hesc.
  { intros w [_ [_ Hw]]. split; [|eapply Forall_impl; [exact Hw|]; apply bare_printable].
    clear -Hw. induction Hw as [|x w Hx Hw IH]; [done|]. cbn [escape flat_map].
    change (flat_map escape_char w) with (escape w). rewrite IH.
    assert (strchr PCONF_ESCAPE x = false) as Hn; [|unfold escape_char; by rewrite Hn].
    destruct Hx as (Hx1 & Hx2 & Hx3 & Hx4 & _). unfold strchr.
    rewrite bool_decide_eq_false_2 by (intros ->; by destruct Hx1). simpl.
    repeat match goal with |- context [Ascii.eqb x ?d] =>
      destruct (Ascii.eqb_spec x d) as [->|_]; [done|] end. done. }
  destruct Hok as (Hne & Hall & Hn). pose proof Hall as Hall'. rewrite !Forall_cons in Hall'.
  destruct Hall' as (_ & _ & Ha & Hb & _).
  destruct (Hesc _ Ha) as [Ea Pa], (Hesc _ Hb) as [Eb Pb].
  assert (render [Bare ($"INSTCMD"); Bare cmdname; Bare a; Bare b]
          = ($"INSTCMD " ++ cmdname) ++ $" " ++ a ++ $" " ++ b) as Hr
    by (cbn [render render_token]; by rewrite <- !app_assoc).
  assert (pconf_encode (a ++ $" " ++ b) SMALLBUF = a ++ $" " ++ b) as Henc.
  { assert (escape (a ++ $" " ++ b) = a ++ $" " ++ b) as He.
    { unfold escape. rewrite !flat_map_app. change (flat_map escape_char) with escape. by rewrite Ea, Eb. }
    rewrite pconf_encode_fits; [done| |rewrite He|unfold SMALLBUF; lia|unfold SMALLBUF; lia].
    - apply printable_no_nul. rewrite !Forall_app. split_and!; try done.
      apply (bool_decide_unpack _). vm_compute. exact I.
    - rewrite Hr, length_app in Hlen. rewrite !length_app in *. simpl length in *. lia. }
  assert (instcmd_line cmdname (Some (a ++ $" " ++ b)) []
          = render [Bare ($"INSTCMD"); Bare cmdname; Bare a; Bare b] ++ [LF]) as ->.
  { rewrite Hr in *. unfold instcmd_line. rewrite Henc. clear -Hlen. revert Hlen.
    generalize ($"INSTCMD " ++ cmdname) ($" " ++ a ++ $" " ++ b). intros x y Hlen.
    rewrite length_app in Hlen. unfold SMALLBUF in *.
    rewrite snprintf_s_id by lia. rewrite (snprintfcat_id x) by (rewrite length_app; lia).
    rewrite snprintfcat_id by (rewrite !length_app; cbn [length]; lia). done. }
  by destruct (feed_line c _ Hc (conj Hne (conj Hall Hn))) as (_ & -> & _).
Qed.

Lemma instcmd_value_is_split_witness :
  args (feed_chars pconf_init (instcmd_line ($"load.off.delay") (Some ($"20 seconds")) [])).2
  = [$"INSTCMD"; $"load.off.delay"; $"20"; $"seconds"].
Proof.
  refine (instcmd_value_is_split pconf_init ($"load.off.delay") ($"20") ($"seconds") ready_init _ _).
  - apply (bool_decide_unpack _). vm_compute. exact I.
  - apply Nat.ltb_lt. vm_compute. reflexivity.
Defined.

(** ** From the driver to the client *)

(** A SETINFO line of a driver is applied to the tree. *)
Lemma setinfo_line_applied i u var val w (Q : unit -> world -> Prop) :
  w_ups w !! i = Some u -> u_conn u = true -> ready (u_sock_ctx u) ->
  line_ok [Bare ($"SETINFO"); Bare var; Quoted val] ->
  (forall ctx, ready ctx ->
    Q tt (upd_ups i (fun u => set_u_last_heard (set_u_inforoot (with_sock_ctx ctx u)
            (state_setinfo (w_now w) (u_inforoot u) var val).1) (w_now w)) w)) ->
  wp (sstate_readline i (ReadData (render [Bare ($"SETINFO"); Bare var; Quoted val] ++ [LF]))) Q w.
Proof.
  intros Hu Hconn Hready Hok HQ. unfold sstate_readline. apply wp_bind. eapply wp_ups_get; [done|].
  rewrite Hconn. cbn [negb].
  destruct (feed_line _ _ Hready Hok) as (Hr & Hargs & Hready').
  eapply sstate_feed_line; [exact Hu|exact Hr|reflexivity|]. rewrite Hargs. cbn [map token_word].
  set (ctx := (feed_chars _ _).2) in *. clearbody ctx.
  apply wp_bind. unfold parse_args. apply wp_bind, wp_get.
  repeat match goal with |- context [strcaseeq ($"SETINFO") ?k] =>
    let b := eval vm_compute in (strcaseeq ($"SETINFO") k) in change (strcaseeq ($"SETINFO") k) with b end.
  cbv iota. unfold upd_tree.
  eapply wp_upd_ups; [by apply upd_ups_lookup|]. apply wp_ret. cbn [Z.eqb negb when].
  apply wp_bind, wp_bind, wp_get. eapply wp_ups_upd; [by do 2 apply upd_ups_lookup|]. apply wp_ret.
  specialize (HQ ctx Hready'). unfold upd_ups in *. simpl in *.
  rewrite !list_alter_alter_eq. exact HQ.
Qed.

(** A client's request line is dispatched with its words. *)
Lemma request_line cl c ts w (Q : unit -> world -> Prop) :
  client_find cl (w_clients w) = Some c -> ready (c_ctx c) -> line_ok ts ->
  (forall ctx, args ctx = map token_word ts ->
    wp (parse_net cl) Q (upd_client cl (fun c => set_c_last_heard (with_client_ctx ctx c) (w_now w)) w)) ->
  wp (client_readline cl (ReadData (render ts ++ [LF]))) Q w.
Proof.
  intros Hc Hready Hok HQ. destruct (feed_line _ _ Hready Hok) as (Hr & Hargs & _).
  assert (wp (client_feed cl (render ts ++ [LF])) Q w) as Hf.
  { eapply client_feed_line; [exact Hc|exact Hr|reflexivity|]. apply wp_bind.
    eapply wp_mono; [by apply HQ|]. by intros [] w'. }
  unfold client_readline. destruct (render ts); exact Hf.
Qed.

(** What GET VAR sends when there is something to send. *)
Lemma get_var_script cl c upsname var i u v w :
  client_find cl (w_clients w) = Some c -> ups_find (w_ups w) upsname = Some i ->
  w_ups w !! i = Some u -> available u -> (strncasecmp var ($"server.") 7 =? 0) = false ->
  sstate_getinfo u var = Some v -> u_fsd u = 0 ->
  get_var cl upsname var w
  = Some (tt, (sent1 cl ($"VAR " ++ upsname ++ $" " ++ var ++ $" " ++ quoted v ++ [LF]) w).2).
Proof.
  intros Hc Hf Hu Ha Hs Hv Hfsd. unfold get_var. rewrite Hs, (get_ups_at _ _ _ _ Hf).
  rewrite (available_get _ _ _ _ _ Hu Ha). cbn [Z.eqb]. rewrite (ups_get_at _ _ _ _ Hu), Hv, Hfsd.
  cbn [Z.eqb negb]. rewrite andb_false_r. unfold reply, mbind, M_bind. erewrite sendback_script by done.
  by destruct (sent1 _ _ _).
Qed.

(** [parse_net] on GET VAR *)
Lemma parse_get_var cl c upsname var w :
  client_find cl (w_clients w) = Some c ->
  args (c_ctx c) = [$"GET"; $"VAR"; upsname; var] -> parse_net cl w = get_var cl upsname var w.
Proof.
  intros Hc Ha. unfold parse_net, mbind at 1, M_bind at 1, client_get at 1. rewrite Hc. cbn [fmap option_fmap option_map].
  rewrite Ha.
  assert (find (fun cmd : bytes * (nat -> list bytes -> M unit) * Z => strcaseeq cmd.1.1 ($"GET")) netcmds
          = Some ($"GET", net_get, 0)) as -> by reflexivity.
  unfold check_command, mbind at 1, M_bind at 1, client_get at 1. rewrite Hc. reflexivity.
Qed.

Lemma sent1_out cl l w :
  (length l <= NUT_NET_ANSWER_MAX)%nat ->
  exists ok, w_out (sent1 cl l w).2 = w_out w ++ [ToClient cl l ok].
Proof.
  intros Hl. assert (cut l = l) as Hcut by (apply snprintf_s_id; lia).
  unfold sent1. rewrite Hcut. destruct (w_sys w) as [|[] bs]; eauto.
Qed.

Lemma ups_find_alter l name i (f : upstype -> upstype) :
  (forall u, u_name (f u) = u_name u) -> ups_find (alter f i l) name = ups_find l name.
Proof.
  intros Hf. revert i. induction l as [|u l IH]; intros [|i]; csimpl; try done.
  - by rewrite Hf.
  - by rewrite IH.
Qed.

(** The lines that go from the driver to the client. *)
Lemma driver_value_lines w i u cl c upsname var val :
  w_ups w !! i = Some u -> available u -> ready (u_sock_ctx u) -> tree_wf (u_inforoot u) ->
  u_fsd u = 0 -> setinfo_blocked (state_tree_find (u_inforoot u) var) val = false ->
  client_find cl (w_clients w) = Some c -> ready (c_ctx c) ->
  ups_find (w_ups w) upsname = Some i -> (strncasecmp var ($"server.") 7 =? 0) = false ->
  line_ok [Bare ($"SETINFO"); Bare var; Quoted val] ->
  line_ok [Bare ($"GET"); Bare ($"VAR"); Bare upsname; Bare var] ->
  (length (escape val) < ST_MAX_VALUE_LEN)%nat ->
  (length (render [Bare ($"VAR"); Bare upsname; Bare var; Quoted val]) < NUT_NET_ANSWER_MAX)%nat ->
  wp (sstate_readline i (ReadData (render [Bare ($"SETINFO"); Bare var; Quoted val] ++ [LF])) ;;
      client_readline cl (ReadData (render [Bare ($"GET"); Bare ($"VAR"); Bare upsname; Bare var] ++ [LF])))
    (fun _ w' => exists ok, w_out w'
      = w_out w ++ [ToClient cl (render [Bare ($"VAR"); Bare upsname; Bare var; Quoted val] ++ [LF]) ok]) w.
Proof.
  intros Hu [Hconn Hstale] Hready Hwf Hfsd Hnb Hc Hcready Hf Hserver Hok1 Hok2 Hlen1 Hlen2.
  apply wp_bind. eapply setinfo_line_applied; [done..|]. intros ctx1 _.
  eapply request_line; [exact Hc|done|done|]. intros ctx2 Hargs. cbn [map token_word] in Hargs.
  set (w1 := upd_client _ _ _).
  assert (client_find cl (w_clients w1) = Some (set_c_last_heard (with_client_ctx ctx2 c) (w_now w))) as Hc1
    by exact (client_find_alter cl (fun c => set_c_last_heard (with_client_ctx ctx2 c) (w_now w))
      (w_clients w) c (fun _ => eq_refl) Hc).
  assert (Forall printable val) as Hp.
  { destruct Hok1 as (_ & Hall & _). by apply Forall_cons in Hall as [_ [_ [[_ H] _]%Forall_cons]%Forall_cons]. }
  set (u1 := set_u_last_heard (set_u_inforoot (with_sock_ctx ctx1 u)
            (state_setinfo (w_now w) (u_inforoot u) var val).1) (w_now w)).
  assert (w_ups w1 !! i = Some u1) as Hu1 by (simpl; by rewrite list_lookup_alter_eq, Hu).
  assert (sstate_getinfo u1 var = Some (escape val)) as Hv.
  { unfold sstate_getinfo, u1, state_getinfo. simpl.
    rewrite setinfo_lookup, decide_True by done. simpl.
    destruct Hwf as [Hb Hvals].
    destruct (setinfo_entry_spec (w_now w) (state_tree_find (u_inforoot u) var) var val) as (Hval & _ & Hraw).
    { intros n Hn. rewrite find_lookup in Hn by done. by apply (Hvals _ _ Hn). }
    rewrite Hnb in Hraw. unfold val_ok in Hval. rewrite Hval, Hraw. f_equal.
    apply pconf_encode_fits; [by apply printable_no_nul|done|unfold ST_MAX_VALUE_LEN; lia|unfold ST_MAX_VALUE_LEN; lia]. }
  unfold wp. rewrite (parse_get_var cl _ upsname var w1 Hc1) by exact Hargs.
  rewrite (get_var_script cl _ upsname var i u1 (escape val) w1 Hc1); try done.
  2: { simpl. by rewrite ups_find_alter. }
  assert ($"VAR " ++ upsname ++ $" " ++ var ++ $" " ++ quoted (escape val) ++ [LF]
    = render [Bare ($"VAR"); Bare upsname; Bare var; Quoted val] ++ [LF]) as ->
    by (cbn [render render_token]; unfold quoted; by rewrite <- !app_assoc).
  destruct (sent1_out cl (render [Bare ($"VAR"); Bare upsname; Bare var; Quoted val] ++ [LF]) w1) as [ok ->].
  { rewrite length_app. change (length [LF]) with 1%nat. lia. }
  by exists ok.
Qed.

(** End to end: when a driver publishes a value with SETINFO and a client then asks
    for the variable with GET VAR, the server answers with one line, and that line, parsed by
    the client's own parser, holds the words VAR, the UPS, the variable and exactly the value
    that the driver published, whatever printable characters it contains. *)
Theorem driver_value_reaches_client w i u cl c upsname var val :
  w_ups w !! i = Some u -> available u -> ready (u_sock_ctx u) -> tree_wf (u_inforoot u) ->
  u_fsd u = 0 -> setinfo_blocked (state_tree_find (u_inforoot u) var) val = false ->
  client_find cl (w_clients w) = Some c -> ready (c_ctx c) ->
  ups_find (w_ups w) upsname = Some i -> (strncasecmp var ($"server.") 7 =? 0) = false ->
  line_ok [Bare ($"SETINFO"); Bare var; Quoted val] ->
  line_ok [Bare ($"GET"); Bare ($"VAR"); Bare upsname; Bare var] ->
  (length (escape val) < ST_MAX_VALUE_LEN)%nat ->
  (length (render [Bare ($"VAR"); Bare upsname; Bare var; Quoted val]) < NUT_NET_ANSWER_MAX)%nat ->
  wp (sstate_readline i (ReadData (render [Bare ($"SETINFO"); Bare var; Quoted val] ++ [LF])) ;;
      client_readline cl (ReadData (render [Bare ($"GET"); Bare ($"VAR"); Bare upsname; Bare var] ++ [LF])))
    (fun _ w' => exists ans ok, w_out w' = w_out w ++ [ToClient cl (ans ++ [LF]) ok]
      /\ args (pconf_line pconf_init ans).2 = [$"VAR"; upsname; var; val]) w.
Proof.
  intros Hu Ha Hready Hwf Hfsd Hnb Hc Hcready Hf Hserver Hok1 Hok2 Hlen1 Hlen2.
  eapply wp_mono; [by apply (driver_value_lines w i u cl c upsname var val)|].
  intros _ w' (ok & Hout). eexists _, ok. split; [exact Hout|].
  apply pconf_line_render; [apply pconf_init_wf|done|done| |].
  - destruct Hok2 as (_ & Hall2 & _), Hok1 as (_ & Hall1 & _).
    rewrite !Forall_cons in Hall1, Hall2 |- *. naive_solver.
  - right. simpl. unfold PCONF_DEFAULT_ARG_LIMIT. lia.
Qed.

Lemma driver_value_reaches_client_witness :
  let w := set_w_clients idle_world [mkClient 0 ($"::1") 100 None None None 0 pconf_init] in
  wp (sstate_readline 0 (ReadData (render [Bare ($"SETINFO"); Bare ($"ups.mfr"); Quoted (qt ++ $" a\#")] ++ [LF])) ;;
      client_readline 0 (ReadData (render [Bare ($"GET"); Bare ($"VAR"); Bare ($"su700"); Bare ($"ups.mfr")] ++ [LF])))
    (fun _ w' => exists ans ok, w_out w' = [] ++ [ToClient 0 (ans ++ [LF]) ok]
      /\ args (pconf_line pconf_init ans).2 = [$"VAR"; $"su700"; $"ups.mfr"; qt ++ $" a\#"]) w.
Proof.
  intros w. refine (driver_value_reaches_client w 0 demo_ups 0 _ ($"su700") ($"ups.mfr") (qt ++ $" a\#")
    eq_refl (conj eq_refl eq_refl) ready_init _ eq_refl eq_refl eq_refl ready_init eq_refl eq_refl _ _ _ _).
  - apply (run_ops_refines _ Leaf tree_wf_leaf).
  - apply (bool_decide_unpack _). vm_compute. exact I.
  - apply (bool_decide_unpack _). vm_compute. exact I.
  - apply Nat.ltb_lt. vm_compute. reflexivity.
  - apply Nat.ltb_lt. vm_compute. reflexivity.
Defined.
