(* ===== verification/UpsClientFacts.v ===== *)
(** * Theorems about the client library

    Lines are read whatever way the bytes arrive in; a GET never reads outside the parser's array and
    returns what the server said; a LIST can. *)

From S2P Require Import Prelude CStr ParseConf ParseConfFacts StateTree StateFacts World SState Upsd NetGet.
From S2P Require Import Server ServerLib ServerFacts ServerInv ListFacts ProtoLines EndToEnd UpsClient.
From stdpp Require Import options.

(** ** The invariant of a connection *)

(** The parser was initialized and has not been finished, or it refuses to work. *)
Definition ctx_ok (c : PCONF_CTX) : Prop :=
  p_magic c <> PCONF_CTX_t_MAGIC
  \/ (pconf_wf c /\ p_wordbuf c = [] /\ settings c = settings pconf_init).

Record conn_wf (c : UPSCONN) : Prop := mkConnWf {
  cwf_ctx : ctx_ok (cn_ctx c);
  cwf_idx : (cn_readidx c <= cn_readlen c)%nat;
  cwf_len : (cn_readlen c <= length (cn_readbuf c))%nat;
  cwf_buf : (length (cn_readbuf c) <= READBUF_LEN)%nat
}.

(** What an operation on the socket leaves alone. *)
Definition same_conn (c c' : UPSCONN) : Prop :=
  cn_host c' = cn_host c /\ cn_port c' = cn_port c /\ cn_fd c' = cn_fd c /\ cn_magic c' = cn_magic c
  /\ cn_ctx c' = cn_ctx c.

Lemma net_write_frame c buf :
  let c' := (net_write c buf).2 in
  same_conn c c' /\ cn_readbuf c' = cn_readbuf c /\ cn_readlen c' = cn_readlen c /\ cn_readidx c' = cn_readidx c
  /\ nt_reads (cn_net c') = nt_reads (cn_net c).
Proof. unfold net_write. destruct (nt_writes (cn_net c)); simpl; repeat case_match; done. Qed.

Lemma net_read_frame c n :
  let c' := (net_read c n).2 in
  same_conn c c' /\ cn_readbuf c' = cn_readbuf c /\ cn_readlen c' = cn_readlen c /\ cn_readidx c' = cn_readidx c
  /\ nt_sent (cn_net c') = nt_sent (cn_net c) /\ nt_writes (cn_net c') = nt_writes (cn_net c).
Proof. unfold net_read. destruct (nt_reads (cn_net c)) as [|[[|x d]|] rs]; done. Qed.

Lemma net_read_size c n :
  (net_read c n).1.1 < 1 \/ (net_read c n).1.1 = Z.of_nat (length (net_read c n).1.2)
                            /\ (length (net_read c n).1.2 <= n)%nat.
Proof.
  unfold net_read. destruct (nt_reads (cn_net c)) as [|[[|x d]|] rs]; simpl; try lia.
  right. rewrite length_take. split; [done|lia].
Qed.

Lemma net_write_wf c buf : conn_wf c -> conn_wf (net_write c buf).2.
Proof.
  intros []. destruct (net_write_frame c buf) as ((_ & _ & _ & _ & Hctx) & Hb & Hl & Hi & _).
  split; rewrite ?Hctx, ?Hb, ?Hl, ?Hi; done.
Qed.

Lemma net_read_wf c n : conn_wf c -> conn_wf (net_read c n).2.
Proof.
  intros []. destruct (net_read_frame c n) as ((_ & _ & _ & _ & Hctx) & Hb & Hl & Hi & _).
  split; rewrite ?Hctx, ?Hb, ?Hl, ?Hi; done.
Qed.

Lemma pconf_finish_ok c : ctx_ok (pconf_finish c).
Proof.
  left. unfold pconf_finish, check_magic. destruct (Z.eqb_spec (p_magic c) PCONF_CTX_t_MAGIC); simpl; done.
Qed.

Lemma disconnect_wf c : conn_wf c -> conn_wf (upscli_disconnect c).2.
Proof.
  intros Hc. unfold upscli_disconnect. case_match; [done|].
  assert (conn_wf (set_cn_host (set_cn_ctx c (pconf_finish (cn_ctx c))) None)) as H1
    by (destruct Hc; split; simpl; auto using pconf_finish_ok).
  simpl. case_match; [done|].
  pose proof (net_write_wf _ ($"LOGOUT" ++ [LF]) H1) as H2. destruct (net_write _ _) as [r1 c1].
  pose proof (net_read_wf _ UPSCLI_NETBUF_LEN H2) as H3. simpl in *. destruct (net_read c1 _) as [[r2 g2] c2].
  destruct H3. by split.
Qed.
#[export] Hint Resolve net_write_wf net_read_wf disconnect_wf : nut.

Lemma upserror_wf c e : conn_wf c -> conn_wf (set_cn_upserror c e).
Proof. by intros []. Qed.
#[export] Hint Resolve upserror_wf : nut.

Lemma sendline_wf c buf : conn_wf c -> conn_wf (upscli_sendline c buf).2.
Proof.
  intros Hc. unfold upscli_sendline, upscli_sendline_timeout, upscli_sendline_timeout_may_disconnect.
  pose proof (net_write_wf c buf Hc) as Hw. destruct (net_write c buf) as [ret c1]. simpl in Hw.
  repeat case_match; simpl; auto with nut.
Qed.

Lemma readline_loop_wf k : forall c buf md, conn_wf c -> conn_wf (readline_loop k c buf md).2.
Proof.
  induction k as [|k IH]; intros c buf md Hc; [done|]. cbn [readline_loop].
  assert (forall c, conn_wf c -> (cn_readidx c < cn_readlen c)%nat ->
    conn_wf (set_cn_readbuf c (cn_readbuf c) (cn_readlen c) (S (cn_readidx c)))) as Hnext.
  { intros c1 [] ?. split; simpl; try done; lia. }
  destruct (Nat.eqb_spec (cn_readidx c) (cn_readlen c)) as [He|He].
  - pose proof (net_read_wf c READBUF_LEN Hc) as Hr. pose proof (net_read_size c READBUF_LEN) as Hs.
    destruct (net_read c READBUF_LEN) as [[ret got] c1]. simpl in Hr, Hs.
    destruct (Z.ltb_spec ret 1); [destruct md; simpl; auto with nut|].
    destruct Hs as [|[-> Hl]]; [lia|].
    assert (conn_wf (set_cn_readbuf c1 got (Z.to_nat (Z.of_nat (length got))) 0)) as H1.
    { destruct Hr. split; simpl; try done; lia. }
    simpl. case_match; [|apply IH]; by apply (Hnext _ H1); simpl; lia.
  - destruct Hc as [H1 H2 H3 H4]. case_match; [|apply IH]; apply Hnext; try done; lia.
Qed.

Lemma readline_wf c n : conn_wf c -> conn_wf (upscli_readline c n).2.
Proof.
  intros Hc. unfold upscli_readline, upscli_readline_timeout, upscli_readline_timeout_may_disconnect.
  pose proof (readline_loop_wf (n - 1) c [] true Hc) as Hr.
  destruct (readline_loop (n - 1) c [] true) as [[ret buf] c1].
  repeat case_match; simpl; auto with nut.
Qed.

Lemma errcheck_wf c buf : conn_wf c -> conn_wf (upscli_errcheck c buf).2.
Proof. intros []. unfold upscli_errcheck. repeat case_match; by split. Qed.
#[export] Hint Resolve sendline_wf readline_wf errcheck_wf : nut.

Lemma pconf_line_ctx_ok c line : ctx_ok c -> ctx_ok (pconf_line c line).2.
Proof.
  intros [Hm|(Hwf & Hw & Hs)].
  - left. unfold pconf_line, check_magic. by destruct (Z.eqb_spec (p_magic c) PCONF_CTX_t_MAGIC).
  - right. destruct (settings_eq _ _ Hs) as (_ & _ & Hm).
    destruct (pconf_line_view c line Hwf Hm Hw) as (_ & ? & ? & Hs' & _). split_and!; try done. congruence.
Qed.

(** A line that the parser accepted is in a well-formed context. *)
Lemma pconf_line_accepts c line :
  ctx_ok c -> (pconf_line c line).1 <> 0 -> pconf_wf (pconf_line c line).2.
Proof.
  intros [Hm|(Hwf & Hw & Hs)] Hr.
  - exfalso. apply Hr. unfold pconf_line, check_magic. by destruct (Z.eqb_spec (p_magic c) PCONF_CTX_t_MAGIC).
  - destruct (settings_eq _ _ Hs) as (_ & _ & Hm).
    by destruct (pconf_line_view c line Hwf Hm Hw) as (_ & ? & _).
Qed.

Lemma set_ctx_wf c ctx : conn_wf c -> ctx_ok ctx -> conn_wf (set_cn_ctx c ctx).
Proof. intros [] ?. by split. Qed.

Lemma query_wf c cmd q :
  conn_wf c ->
  conn_wf (upscli_query c cmd q).2
  /\ ((upscli_query c cmd q).1 = true -> pconf_wf (cn_ctx (upscli_query c cmd q).2)).
Proof.
  intros Hc. unfold upscli_query.
  pose proof (sendline_wf c (build_cmd UPSCLI_NETBUF_LEN cmd q) Hc) as Hw1.
  destruct (upscli_sendline c _) as [r1 c1]. simpl in Hw1. case_match; [done|].
  pose proof (readline_wf c1 UPSCLI_NETBUF_LEN Hw1) as Hw2.
  destruct (upscli_readline c1 _) as [[r2 tmp] c2]. simpl in Hw2. case_match; [done|].
  pose proof (errcheck_wf c2 tmp Hw2) as Hw3.
  destruct (upscli_errcheck c2 tmp) as [r3 c3]. simpl in Hw3. case_match; [done|].
  pose proof (pconf_line_ctx_ok (cn_ctx c3) tmp (cwf_ctx _ Hw3)) as Hx.
  pose proof (pconf_line_accepts (cn_ctx c3) tmp (cwf_ctx _ Hw3)) as Ha.
  destruct (pconf_line (cn_ctx c3) tmp) as [r ctx]. simpl in Hx, Ha.
  destruct (Z.eqb_spec r 0); simpl; [split; [|done]|split; [|auto]].
  - by apply upserror_wf, set_ctx_wf.
  - by apply set_ctx_wf.
Qed.

(** ** Reading a line *)

(** The bytes that have arrived and are not yet taken. *)
Definition buffered (c : UPSCONN) : bytes := drop (cn_readidx c) (take (cn_readlen c) (cn_readbuf c)).

(** The server's bytes are to arrive in [chunks], and what then happens is [more]. *)
Definition delivers (c : UPSCONN) (s : bytes) (more : list read_result) : Prop :=
  exists chunks, Forall (fun d => d <> []) chunks /\ nt_reads (cn_net c) = map RData chunks ++ more
  /\ buffered c ++ concat chunks = s.

(** Nothing is written by a read. *)
Definition same_out (c c' : UPSCONN) : Prop :=
  nt_sent (cn_net c') = nt_sent (cn_net c) /\ nt_writes (cn_net c') = nt_writes (cn_net c).

Lemma readline_delivers k : forall c buf line rest more md,
  conn_wf c -> delivers c (line ++ LF :: rest) more -> LF ∉ line -> (length line < k)%nat ->
  exists c', readline_loop k c buf md = (0, buf ++ line, c') /\ conn_wf c' /\ same_conn c c'
    /\ delivers c' rest more /\ same_out c c'.
Proof.
  induction k as [|k IH]; intros c buf line rest more md Hc (chunks & Hne & Hreads & Hs) Hlf Hk; [lia|].
  cbn [readline_loop].
  (* the next character is in the buffer *)
  assert (forall c, conn_wf c -> delivers c (line ++ LF :: rest) more -> (cn_readidx c < cn_readlen c)%nat ->
    exists c',
      (let x := nth (cn_readidx c) (cn_readbuf c) NUL in
       let c := set_cn_readbuf c (cn_readbuf c) (cn_readlen c) (S (cn_readidx c)) in
       if Ascii.eqb x LF then (0, buf, c) else readline_loop k c (buf ++ [x]) md) = (0, buf ++ line, c')
      /\ conn_wf c' /\ same_conn c c' /\ delivers c' rest more /\ same_out c c') as Hchar.
  { clear c Hc chunks Hne Hreads Hs. intros c Hc (chunks & Hne & Hreads & Hs) Hlt.
    set (c1 := set_cn_readbuf c (cn_readbuf c) (cn_readlen c) (S (cn_readidx c))).
    assert (conn_wf c1) as Hc1 by (destruct Hc; split; simpl; try done; lia).
    assert (buffered c = nth (cn_readidx c) (cn_readbuf c) NUL :: buffered c1) as Hb.
    { unfold buffered, c1. simpl. destruct Hc as [_ _ Hlen _].
      rewrite (drop_S _ (nth (cn_readidx c) (cn_readbuf c) NUL)); [done|].
      rewrite lookup_take_lt by lia. rewrite nth_lookup. destruct (cn_readbuf c !! cn_readidx c) eqn:E; [done|].
      apply lookup_ge_None in E. lia. }
    cbv zeta. revert Hs. rewrite Hb. generalize (nth (cn_readidx c) (cn_readbuf c) NUL). intros x Hs.
    destruct line as [|y line]; cbn [app] in Hs.
    - injection Hs as -> Hs. rewrite Ascii.eqb_refl. exists c1. rewrite app_nil_r.
      split_and!; try done. by exists chunks.
    - injection Hs as -> Hs. rewrite not_elem_of_cons in Hlf. destruct Hlf as [Hy Hlf].
      destruct (Ascii.eqb_spec y LF) as [->|_]; [done|]. cbn [length] in Hk.
      destruct (IH c1 (buf ++ [y]) line rest more md Hc1) as (c' & -> & Hrest);
        [by exists chunks|done|lia|]. exists c'. by rewrite <- app_assoc. }
  destruct (Nat.eqb_spec (cn_readidx c) (cn_readlen c)) as [He|He].
  - assert (buffered c = []) as Hb.
    { unfold buffered. apply drop_ge. rewrite length_take. lia. }
    rewrite Hb in Hs. cbn [app] in Hs. destruct chunks as [|d chunks]; [by destruct line|].
    apply Forall_cons in Hne as [Hd Hne]. destruct d as [|x d]; [done|].
    cbn [map app] in Hreads. unfold net_read. rewrite Hreads.
    assert (1 <= length (take READBUF_LEN (x :: d)) <= READBUF_LEN)%nat as Hg.
    { rewrite length_take. unfold READBUF_LEN. cbn [length]. lia. }
    destruct (Z.ltb_spec (Z.of_nat (length (take READBUF_LEN (x :: d)))) 1); [lia|].
    set (c1 := set_cn_readbuf _ _ _ _).
    assert (conn_wf c1) as Hc1.
    { destruct Hc as [? ? ? ?]. unfold c1. split; cbn [cn_ctx cn_readidx cn_readlen cn_readbuf set_cn_readbuf set_cn_net].
      - done.
      - lia.
      - by rewrite Nat2Z.id.
      - lia. }
    assert (buffered c1 = take READBUF_LEN (x :: d)) as Hb1.
    { unfold buffered, c1. cbn [cn_readidx cn_readlen cn_readbuf set_cn_readbuf]. rewrite drop_0, take_ge; [done|].
      by rewrite Nat2Z.id. }
    assert (delivers c1 (line ++ LF :: rest) more) as Hd1.
    { cbn [concat] in Hs. rewrite <- Hs. unfold delivers. rewrite Hb1.
      destruct (drop READBUF_LEN (x :: d)) as [|y d'] eqn:Edrop.
      - exists chunks. split_and!; [done|done|]. rewrite <- (take_drop READBUF_LEN (x :: d)) at 2.
        by rewrite Edrop, app_nil_r.
      - exists ((y :: d') :: chunks). split_and!; [by constructor|done|].
        cbn [concat]. rewrite <- Edrop, app_assoc, take_drop. done. }
    destruct (Hchar c1 Hc1 Hd1) as (c' & Hres & ? & ? & ? & ?);
      [unfold c1; cbn [cn_readidx cn_readlen set_cn_readbuf]; lia|].
    exists c'. split_and!; done.
  - destruct (Hchar c Hc) as (c' & Hres & Hrest); [by exists chunks|destruct Hc; lia|].
    exists c'. by split.
Qed.

Lemma c_string_id s : no_nul s -> c_string s = s.
Proof.
  unfold c_string. induction 1 as [|x s Hx Hs IH]; [done|]. cbn [cstring]. rewrite decide_False by done.
  destruct (cstring s); simpl in *; by rewrite ?IH.
Qed.

(** [upscli_readline] returns the next line of the server, however it is cut into packets, and
    leaves what follows for the next call. *)
Lemma readline_line c line rest more n :
  conn_wf c -> 0 <= cn_fd c -> cn_magic c = UPSCLIENT_MAGIC ->
  delivers c (line ++ LF :: rest) more -> LF ∉ line -> no_nul line -> (length line < n - 1)%nat ->
  exists c', upscli_readline c n = (0, line, c') /\ conn_wf c' /\ same_conn c c'
    /\ delivers c' rest more /\ same_out c c'.
Proof.
  intros Hc Hfd Hm Hd Hlf Hnul Hn.
  destruct (readline_delivers (n - 1) c [] line rest more true) as (c' & Hr & Hrest); [done..|].
  exists c'. split; [|done].
  unfold upscli_readline, upscli_readline_timeout, upscli_readline_timeout_may_disconnect.
  destruct (Z.ltb_spec (cn_fd c) 0); [lia|]. destruct (Nat.ltb_spec n 1); [lia|].
  rewrite Hm, Z.eqb_refl. cbn [negb]. rewrite Hr. cbn [app]. by rewrite c_string_id.
Qed.

(** ** The words of a request and of its answer *)

Lemma render_printable wl ts : Forall (token_ok wl) ts -> Forall printable (render ts).
Proof.
  assert (forall t, token_ok wl t -> Forall printable (render_token t)) as Ht.
  { intros [w|w] [_ Hw]; cbn [render_token].
    - eapply Forall_impl; [apply Hw|]. apply bare_printable.
    - rewrite !Forall_app. split_and!; [|by apply escape_printable|]; by repeat constructor. }
  induction 1 as [|t ts Hok Hts IH]; [constructor|]. destruct ts as [|t' ts]; [by apply Ht|].
  change (render (t :: t' :: ts)) with (render_token t ++ [chr 32] ++ render (t' :: ts)).
  rewrite !Forall_app. split_and!; [by apply Ht| |done]. by repeat constructor.
Qed.

Lemma printable_no_lf s : Forall printable s -> LF ∉ s.
Proof. intros Hs Hin. apply lf_not_printable. rewrite Forall_forall in Hs. by apply Hs. Qed.

Lemma bare_escape w : Forall bare_char w -> escape w = w.
Proof.
  induction 1 as [|x w (Hx1 & Hx2 & Hx3 & Hx4 & _) Hw IH]; [done|]. cbn [escape flat_map].
  change (flat_map escape_char w) with (escape w). rewrite IH. unfold escape_char.
  assert (strchr PCONF_ESCAPE x = false) as ->; [|done]. unfold strchr.
  rewrite bool_decide_eq_false_2 by (intros ->; by destruct Hx1). simpl.
  repeat match goal with |- context [Ascii.eqb x ?d] =>
    destruct (Ascii.eqb_spec x d) as [->|_]; [done|] end. done.
Qed.

Lemma bare_no_space w : Forall bare_char w -> strchr w (chr 32) = false.
Proof.
  intros Hw. unfold strchr. rewrite bool_decide_eq_false_2 by done. simpl.
  apply not_true_is_false. intros (x & Hx & <-%Ascii.eqb_eq)%existsb_exists.
  apply list_elem_of_In in Hx. rewrite Forall_forall in Hw. by destruct (Hw _ Hx) as [[] _].
Qed.

(** words that go into a request as they are *)
Definition bare_words (q : list bytes) : Prop := Forall (token_ok PCONF_DEFAULT_WORDLEN_LIMIT) (Bare <$> q).

Lemma render_bare_cons w q : render (Bare <$> (w :: q)) = w ++ concat (map (fun x => $" " ++ x) q).
Proof.
  revert w. induction q as [|x q IH]; intros w; [by rewrite app_nil_r|].
  rewrite fmap_cons. change (render (Bare w :: (Bare <$> x :: q)))
    with (w ++ [chr 32] ++ render (Bare <$> x :: q)). by rewrite IH.
Qed.

Lemma build_args_bare q buf :
  bare_words q -> (length (buf ++ concat (map (fun x => $" " ++ x) q)) < UPSCLI_NETBUF_LEN - 1)%nat ->
  build_args buf UPSCLI_NETBUF_LEN q = buf ++ concat (map (fun x => $" " ++ x) q).
Proof.
  revert buf. induction q as [|x q IH]; intros buf Hq Hl; [by rewrite app_nil_r|].
  unfold bare_words in *. rewrite fmap_cons, Forall_cons in Hq. destruct Hq as [[Hx1 [_ Hx2]] Hq].
  cbn [map concat build_args] in *. rewrite bare_no_space by done.
  rewrite app_assoc in Hl |- *. pose proof Hl as Hl'. rewrite length_app in Hl'.
  rewrite pconf_encode_fits, bare_escape, snprintfcat_id; [by apply IH|lia|done| | |..].
  - apply printable_no_nul. eapply Forall_impl; [exact Hx2|]. apply bare_printable.
  - rewrite bare_escape by done. rewrite !length_app in Hl'. simpl in Hl'. unfold UPSCLI_NETBUF_LEN in *. lia.
  - unfold UPSCLI_NETBUF_LEN. lia.
  - unfold UPSCLI_NETBUF_LEN. lia.
Qed.

(** The line of a request *)
Lemma build_cmd_bare cmd q :
  bare_words (cmd :: q) -> (length (render (Bare <$> (cmd :: q))) < UPSCLI_NETBUF_LEN - 1)%nat ->
  build_cmd UPSCLI_NETBUF_LEN cmd q = render (Bare <$> (cmd :: q)) ++ [LF].
Proof.
  intros Hq Hl. rewrite render_bare_cons in *. unfold build_cmd.
  unfold bare_words in Hq. rewrite fmap_cons, Forall_cons in Hq.
  assert (length cmd < UPSCLI_NETBUF_LEN)%nat by (rewrite length_app in Hl; lia).
  rewrite snprintf_s_id by done. rewrite build_args_bare by (try apply Hq; lia).
  by rewrite snprintf_s_id by (unfold UPSCLI_NETBUF_LEN in *; cbn [length]; lia).
Qed.

Lemma verify_resp_bounds q a : (length q <= length a)%nat -> is_Some (verify_resp q a).
Proof.
  revert a. induction q as [|x q IH]; intros [|y a] Hl; simpl in *; [by eexists..|lia|].
  case_match; [apply IH; lia|by eexists].
Qed.

Lemma verify_resp_prefix q a : verify_resp q (q ++ a) = Some true.
Proof. induction q as [|x q IH]; [done|]. simpl. by rewrite strcaseeq_refl. Qed.

(** ** GET *)

(** A connection that can be used: open, with a parser between two lines, and a system that takes
    whole lines. *)
Definition usable (c : UPSCONN) : Prop :=
  conn_wf c /\ 0 <= cn_fd c /\ cn_magic c = UPSCLIENT_MAGIC /\ p_magic (cn_ctx c) = PCONF_CTX_t_MAGIC
  /\ nt_writes (cn_net c) = [].

Lemma sendline_usable c buf :
  usable c -> buf <> [] ->
  exists c', upscli_sendline c buf = (0, c') /\ usable c' /\ same_conn c c'
    /\ nt_sent (cn_net c') = nt_sent (cn_net c) ++ [buf]
    /\ (forall s more, delivers c s more -> delivers c' s more).
Proof.
  intros (Hc & Hfd & Hm & Hp & Hw) Hne.
  unfold upscli_sendline, upscli_sendline_timeout, upscli_sendline_timeout_may_disconnect, net_write. rewrite Hw.
  destruct (Z.ltb_spec (cn_fd c) 0); [lia|].
  destruct buf as [|x buf]; [done|]. set (l := x :: buf). assert (1 <= length l)%nat by (simpl; lia).
  destruct (Nat.ltb_spec (length l) 1); [lia|]. rewrite Hm, Z.eqb_refl, Z.min_id. cbn [negb].
  destruct (Z.ltb_spec (Z.of_nat (length l)) 0); [lia|]. destruct (Z.eqb_spec (Z.of_nat (length l)) 0); [lia|].
  destruct (Z.ltb_spec (Z.of_nat (length l)) 1); [lia|].
  eexists. split; [done|]. rewrite Nat2Z.id, take_ge by done. split_and!; try done.
  split_and!; try done. by destruct Hc.
Qed.

(** A line of the server that is no error is split into its words. *)
Lemma line_words c ts rest more :
  usable c -> delivers c (render ts ++ LF :: rest) more ->
  Forall (token_ok PCONF_DEFAULT_WORDLEN_LIMIT) ts -> (length ts <= PCONF_DEFAULT_ARG_LIMIT)%nat ->
  (length (render ts) < UPSCLI_NETBUF_LEN - 1)%nat -> strncmp (render ts) ($"ERR") 3 <> 0 ->
  exists c' ctx, upscli_readline c UPSCLI_NETBUF_LEN = (0, render ts, c')
    /\ upscli_errcheck c' (render ts) = (0, c') /\ pconf_line (cn_ctx c') (render ts) = (1, ctx)
    /\ cn_ctx c' = cn_ctx c /\ usable (set_cn_ctx c' ctx) /\ args ctx = map token_word ts /\ pconf_wf ctx
    /\ delivers (set_cn_ctx c' ctx) rest more /\ nt_sent (cn_net c') = nt_sent (cn_net c).
Proof.
  intros (Hc1 & Hfd1 & Hm1 & Hp1 & Hw1) Hd Hts Hn Hl Herr.
  pose proof (render_printable _ _ Hts) as Hpr.
  destruct (readline_line c (render ts) rest more UPSCLI_NETBUF_LEN) as (c2 & Hrd & Hc2 & Hs2 & Hd2 & Hsent2 & Hw2);
    [done..|by apply printable_no_lf|by apply printable_no_nul|done|].
  destruct Hs2 as (_ & _ & Hfd2 & Hm2 & Hctx2).
  assert (pconf_wf (cn_ctx c2) /\ p_wordbuf (cn_ctx c2) = [] /\ settings (cn_ctx c2) = settings pconf_init) as (Hwf & Hwb & Hset).
  { destruct (cwf_ctx _ Hc2) as [Hno|]; [|done]. by rewrite Hctx2 in Hno. }
  destruct (settings_eq _ _ Hset) as (Hal & Hwl & Hmag).
  pose proof (pconf_line_render (cn_ctx c2) ts Hwf Hmag Hwb) as Ha. rewrite Hwl, Hal in Ha.
  specialize (Ha Hts (or_intror Hn)).
  destruct (pconf_line_view (cn_ctx c2) (render ts) Hwf Hmag Hwb) as (Hr & Hwf' & Hwb' & Hset' & _).
  destruct (settings_eq _ _ Hset') as (_ & _ & Hmag').
  exists c2, (pconf_line (cn_ctx c2) (render ts)).2. split; [done|]. split.
  { unfold upscli_errcheck. by rewrite (proj2 (Z.eqb_neq _ _) Herr). }
  destruct (pconf_line (cn_ctx c2) (render ts)) as [r ctx]. cbn [fst snd] in *. subst r.
  split_and!; try done; try exact Hd2.
  split_and!; cbn [cn_fd cn_magic cn_ctx cn_net set_cn_ctx]; try congruence.
  apply set_ctx_wf; [done|]. right. split_and!; try done. congruence.
Qed.

(** The first part of a request: what is sent, and the words of the answer. *)
Lemma query_answer c cmd q ts rest more :
  usable c -> bare_words (cmd :: q) -> (length (render (Bare <$> (cmd :: q))) < UPSCLI_NETBUF_LEN - 1)%nat ->
  delivers c (render ts ++ LF :: rest) more ->
  Forall (token_ok PCONF_DEFAULT_WORDLEN_LIMIT) ts -> (length ts <= PCONF_DEFAULT_ARG_LIMIT)%nat ->
  (length (render ts) < UPSCLI_NETBUF_LEN - 1)%nat -> strncmp (render ts) ($"ERR") 3 <> 0 ->
  exists c', upscli_query c cmd q = (true, c') /\ usable c' /\ args (cn_ctx c') = map token_word ts
    /\ cn_ctx c' = (pconf_line (cn_ctx c) (render ts)).2
    /\ pconf_wf (cn_ctx c') /\ delivers c' rest more
    /\ nt_sent (cn_net c') = nt_sent (cn_net c) ++ [render (Bare <$> (cmd :: q)) ++ [LF]].
Proof.
  intros Hu Hq Hql Hd Hts Hn Hl Herr. unfold upscli_query. rewrite build_cmd_bare by done.
  destruct (sendline_usable c (render (Bare <$> (cmd :: q)) ++ [LF]) Hu) as (c1 & -> & Hu1 & Hs1 & Hsent1 & Hd1);
    [by intros [_ ?]%app_eq_nil|]. cbn [Z.eqb negb].
  destruct (line_words c1 ts rest more Hu1 (Hd1 _ _ Hd) Hts Hn Hl Herr)
    as (c2 & ctx & -> & He & Hp & Hctx & Hu2 & Ha & Hwf & Hd2 & Hsent2).
  cbn [Z.eqb negb]. rewrite He. cbn [Z.eqb negb]. rewrite Hp. cbn [Z.eqb].
  exists (set_cn_ctx c2 ctx). split_and!; try done; cbn [cn_net set_cn_ctx cn_ctx]; [|congruence].
  destruct Hs1 as (_ & _ & _ & _ & Hctx1). by rewrite <- Hctx1, <- Hctx, Hp.
Qed.

(** An answer that is an error: nothing of it is split into words. *)
Lemma query_error c cmd q line rest more :
  usable c -> bare_words (cmd :: q) -> (length (render (Bare <$> (cmd :: q))) < UPSCLI_NETBUF_LEN - 1)%nat ->
  delivers c (line ++ LF :: rest) more -> LF ∉ line -> no_nul line -> (length line < UPSCLI_NETBUF_LEN - 1)%nat ->
  strncmp line ($"ERR") 3 = 0 ->
  exists c', upscli_query c cmd q = (false, c') /\ usable c' /\ delivers c' rest more
    /\ nt_sent (cn_net c') = nt_sent (cn_net c) ++ [render (Bare <$> (cmd :: q)) ++ [LF]].
Proof.
  intros Hu Hq Hql Hd Hlf Hnul Hl Herr. unfold upscli_query. rewrite build_cmd_bare by done.
  destruct (sendline_usable c (render (Bare <$> (cmd :: q)) ++ [LF]) Hu) as (c1 & -> & Hu1 & Hs1 & Hsent1 & Hd1);
    [by intros [_ ?]%app_eq_nil|]. cbn [Z.eqb negb].
  destruct Hu1 as (Hc1 & Hfd1 & Hm1 & Hp1 & Hw1).
  destruct (readline_line c1 line rest more UPSCLI_NETBUF_LEN) as (c2 & -> & Hc2 & Hs2 & Hd2 & Hsent2 & Hw2);
    [done..|by apply Hd1|done|done|done|]. cbn [Z.eqb negb].
  assert (exists e, upscli_errcheck c2 line = (-1, set_cn_upserror c2 e)) as [e ->].
  { unfold upscli_errcheck. rewrite Herr. cbn [Z.eqb negb]. case_match; by eexists. }
  cbn [Z.eqb negb]. eexists. split; [done|]. destruct Hs2 as (_ & _ & Hfd2 & Hm2 & Hctx2).
  split; [split_and!|split_and!]; cbn [cn_fd cn_magic cn_ctx cn_net set_cn_upserror]; try congruence.
  - by apply upserror_wf.
  - exact Hd2.
Qed.

Lemma args_arglist c l : args c = l -> exists rest, p_arglist c = l ++ rest.
Proof. intros <-. exists (drop (p_numargs c) (p_arglist c)). unfold args. by rewrite take_drop. Qed.

(** GET through the client library: for a request of bare words on a usable
    connection, when the server's answer repeats the request's words and adds values (whatever
    quotes, backslashes or spaces these hold), [upscli_get] returns 0 with exactly those words,
    in whatever packets the bytes arrive; it has sent exactly the request's line; and it leaves what
    follows for the next request, so that requests can be repeated. *)
Theorem upscli_get_answers c q vs rest more :
  usable c -> q <> [] -> bare_words ($"GET" :: q) ->
  (length (render (Bare <$> ($"GET" :: q))) < UPSCLI_NETBUF_LEN - 1)%nat ->
  Forall (token_ok PCONF_DEFAULT_WORDLEN_LIMIT) vs -> (length q + length vs <= PCONF_DEFAULT_ARG_LIMIT)%nat ->
  let answer := render ((Bare <$> q) ++ vs) in
  (length answer < UPSCLI_NETBUF_LEN - 1)%nat -> strncmp answer ($"ERR") 3 <> 0 ->
  delivers c (answer ++ LF :: rest) more ->
  exists c', upscli_get c q = Some (0, c') /\ args (cn_ctx c') = q ++ map token_word vs
    /\ p_numargs (cn_ctx c') = (length q + length vs)%nat
    /\ usable c' /\ delivers c' rest more
    /\ nt_sent (cn_net c') = nt_sent (cn_net c) ++ [render (Bare <$> ($"GET" :: q)) ++ [LF]].
Proof.
  intros Hu Hne Hq Hql Hvs Hn answer Hl Herr Hd.
  assert (map token_word ((Bare <$> q) ++ vs) = q ++ map token_word vs) as Hmap.
  { rewrite map_app. f_equal. clear. induction q; [done|]. cbn. by rewrite IHq. }
  destruct (query_answer c ($"GET") q ((Bare <$> q) ++ vs) rest more) as (c' & Hqr & Hu' & Ha & _ & Hwf & Hd' & Hsent).
  { done. } { done. } { done. } { done. }
  { apply Forall_app. split; [|done]. unfold bare_words in Hq. rewrite fmap_cons in Hq. by apply Forall_cons in Hq as [_ ?]. }
  { by rewrite length_app, length_fmap. } { done. } { done. }
  rewrite Hmap in Ha. pose proof (args_length _ Hwf) as Hlen. rewrite Ha, length_app, length_map in Hlen.
  exists c'. unfold upscli_get. destruct (Nat.ltb_spec (length q) 1); [by destruct q; simpl in *; try done; lia|].
  rewrite Hqr. cbn [negb]. rewrite <- Hlen.
  destruct (Nat.ltb_spec (length q + length vs) (length q)); [lia|].
  destruct (args_arglist _ _ Ha) as [tl ->]. rewrite <- app_assoc, verify_resp_prefix. split_and!; done.
Qed.

Definition demo_net (reads : list read_result) : peer := mkPeer reads [] [].
Definition demo_conn (reads : list read_result) : UPSCONN :=
  (upscli_tryconnect (Dialled 5 (demo_net reads)) None (Some ($"localhost")) NUT_PORT 0).2.

Lemma demo_usable reads : usable (demo_conn reads).
Proof.
  split_and!; try done. split; simpl; try lia.
  - right. split_and!; try done. apply pconf_init_wf.
  - unfold READBUF_LEN. lia.
Qed.

Lemma upscli_get_answers_witness :
  let chunks := [$"VAR su700 ups.st"; $"atus " ++ qt ++ $"OL \"; qt ++ $"x\" ++ qt ++ qt ++ [LF] ++ $"OK"] in
  exists c', upscli_get (demo_conn (map RData chunks)) [$"VAR"; $"su700"; $"ups.status"] = Some (0, c')
    /\ args (cn_ctx c') = [$"VAR"; $"su700"; $"ups.status"; $"OL " ++ qt ++ $"x" ++ qt].
Proof.
  intros chunks.
  destruct (upscli_get_answers (demo_conn (map RData chunks)) [$"VAR"; $"su700"; $"ups.status"]
    [Quoted ($"OL " ++ qt ++ $"x" ++ qt)] ($"OK") [] (demo_usable _)) as (c' & H & Ha & _).
  - discriminate.
  - apply (bool_decide_unpack _). vm_compute. exact I.
  - apply Nat.ltb_lt. vm_compute. reflexivity.
  - apply (bool_decide_unpack _). vm_compute. exact I.
  - apply Nat.leb_le. vm_compute. reflexivity.
  - apply Nat.ltb_lt. vm_compute. reflexivity.
  - by vm_compute.
  - exists chunks. split_and!; [apply (bool_decide_unpack _); vm_compute; exact I|done|by vm_compute].
  - exists c'. split; [exact H|exact Ha].
Defined.

(** C23. A GET stays inside the parser's array, whatever the server sends: on
    any well-formed connection [upscli_get] terminates without a read outside [arglist], keeps the
    connection well-formed, and on success the answer has at least the request's words, which
    [verify_resp] found equal up to case. *)
Theorem upscli_get_in_bounds c q :
  conn_wf c ->
  exists r c', upscli_get c q = Some (r, c') /\ conn_wf c'
    /\ (r = 0 \/ r = -1)
    /\ (r = 0 -> (length q <= p_numargs (cn_ctx c'))%nat /\ verify_resp q (p_arglist (cn_ctx c')) = Some true).
Proof.
  intros Hc. unfold upscli_get. case_match; [eexists _, _; split_and!; [done|by auto with nut|by right|done]|].
  destruct (query_wf c ($"GET") q Hc) as [Hw Hok]. destruct (upscli_query c _ q) as [ok c1]. cbn [fst snd] in *.
  destruct ok; cbn [negb]; [|by eexists _, _; split_and!; [done|done|right|]].
  specialize (Hok eq_refl). destruct Hok as [Hal _ Hna _ _ _ _ _].
  destruct (Nat.ltb_spec (p_numargs (cn_ctx c1)) (length q));
    [eexists _, _; split_and!; [done|by auto with nut|by right|done]|].
  destruct (verify_resp_bounds q (p_arglist (cn_ctx c1))) as [b Hb]; [lia|]. rewrite Hb.
  destruct b; eexists _, _; split_and!; try done; try (by left); try (by right); by auto with nut.
Qed.

Lemma upscli_get_in_bounds_witness :
  exists r c', upscli_get (demo_conn [RData ($"VAR" ++ [LF])]) [$"VAR"; $"su700"; $"ups.status"] = Some (r, c')
    /\ (r = 0 \/ r = -1).
Proof.
  destruct (upscli_get_in_bounds (demo_conn [RData ($"VAR" ++ [LF])]) [$"VAR"; $"su700"; $"ups.status"]
    (proj1 (demo_usable _))) as (r & c' & H & _ & Hr & _).
  exists r, c'. split; [exact H|exact Hr].
Defined.

(** A LIST does not: on a new connection, a server that answers the first
    LIST by BEGIN LIST alone makes [upscli_list_start] compare the request with array slots that
    were never allocated. *)
Theorem upscli_list_start_out_of_bounds c q rest more :
  usable c -> cn_ctx c = pconf_init -> q <> [] -> bare_words ($"LIST" :: q) ->
  (length (render (Bare <$> ($"LIST" :: q))) < UPSCLI_NETBUF_LEN - 1)%nat ->
  delivers c ($"BEGIN LIST" ++ LF :: rest) more ->
  upscli_list_start c q = None.
Proof.
  intros Hu Hctx Hne Hq Hql Hd. destruct q as [|x q]; [done|].
  destruct (query_answer c ($"LIST") (x :: q) [Bare ($"BEGIN"); Bare ($"LIST")] rest more)
    as (c' & Hqr & _ & _ & Hc' & _); [done..| | | | |].
  - by apply (bool_decide_unpack _).
  - apply Nat.leb_le. by vm_compute.
  - apply Nat.ltb_lt. by vm_compute.
  - by vm_compute.
  - unfold upscli_list_start. rewrite Hqr. cbn [length Nat.ltb Nat.leb negb]. rewrite Hc', Hctx. reflexivity.
Qed.

Lemma upscli_list_start_out_of_bounds_witness :
  upscli_list_start (demo_conn [RData ($"BEGIN LIST" ++ [LF])]) [$"UPS"] = None.
Proof.
  apply (upscli_list_start_out_of_bounds _ _ [] []).
  - apply demo_usable.
  - done.
  - done.
  - apply (bool_decide_unpack _). vm_compute. exact I.
  - apply Nat.ltb_lt. vm_compute. reflexivity.
  - exists [$"BEGIN LIST" ++ [LF]]. split_and!; [apply (bool_decide_unpack _); vm_compute; exact I|done|by vm_compute].
Defined.

(** ** From the driver to a client program *)

(** C2. End to end, through the client library: a driver publishes a value with SETINFO,
    a client program calls [upscli_get] for the variable, the server handles the line it sends
    and answers; and from the bytes of that answer, in whatever packets they arrive, [upscli_get]
    returns exactly the driver's value, whatever printable characters it contains.  (The UPS is connected and fresh, no
    forced shutdown is set, which would add FSD to ups.status, and the request, the escaped value and the answer fit
    the buffers.) *)
Theorem client_gets_driver_value w i u cl k upsname var val :
  w_ups w !! i = Some u -> available u -> ready (u_sock_ctx u) -> tree_wf (u_inforoot u) ->
  u_fsd u = 0 -> setinfo_blocked (state_tree_find (u_inforoot u) var) val = false ->
  client_find cl (w_clients w) = Some k -> ready (c_ctx k) ->
  ups_find (w_ups w) upsname = Some i -> (strncasecmp var ($"server.") 7 =? 0) = false ->
  line_ok [Bare ($"SETINFO"); Bare var; Quoted val] ->
  line_ok [Bare ($"GET"); Bare ($"VAR"); Bare upsname; Bare var] ->
  (length (escape val) < ST_MAX_VALUE_LEN)%nat ->
  (length (render [Bare ($"GET"); Bare ($"VAR"); Bare upsname; Bare var]) < UPSCLI_NETBUF_LEN - 1)%nat ->
  (length (render [Bare ($"VAR"); Bare upsname; Bare var; Quoted val]) < UPSCLI_NETBUF_LEN - 1)%nat ->
  wp (sstate_readline i (ReadData (render [Bare ($"SETINFO"); Bare var; Quoted val] ++ [LF])) ;;
      client_readline cl (ReadData (build_cmd UPSCLI_NETBUF_LEN ($"GET") [$"VAR"; upsname; var])))
    (fun _ w' => exists ans ok, w_out w' = w_out w ++ [ToClient cl ans ok]
      /\ forall c more, usable c -> delivers c ans more ->
         exists c', upscli_get c [$"VAR"; upsname; var] = Some (0, c')
         /\ args (cn_ctx c') = [$"VAR"; upsname; var; val] /\ usable c' /\ delivers c' [] more
         /\ nt_sent (cn_net c') = nt_sent (cn_net c) ++ [build_cmd UPSCLI_NETBUF_LEN ($"GET") [$"VAR"; upsname; var]]) w.
Proof.
  intros Hu Ha Hready Hwf Hfsd Hnb Hk Hkready Hf Hserver Hok1 Hok2 Hlen1 Hql Hlen2.
  assert (Forall (token_ok PCONF_DEFAULT_WORDLEN_LIMIT) [Bare ($"GET"); Bare ($"VAR"); Bare upsname; Bare var]
    /\ Forall (token_ok PCONF_DEFAULT_WORDLEN_LIMIT) [Quoted val]) as [Hq Hv].
  { destruct Hok1 as (_ & H1 & _), Hok2 as (_ & H2 & _). split; [done|]. rewrite !Forall_cons in *. naive_solver. }
  rewrite build_cmd_bare by done.
  eapply wp_mono.
  { eapply (driver_value_lines w i u cl k upsname var val); try done. unfold UPSCLI_NETBUF_LEN in Hlen2. unfold NUT_NET_ANSWER_MAX, SMALLBUF. lia. }
  intros _ w' (ok & Hout). eexists _, ok. split; [exact Hout|]. intros c more Huse Hdel.
  destruct (upscli_get_answers c [$"VAR"; upsname; var] [Quoted val] [] more)
    as (c' & Hget & Hargs & _ & Huse' & Hdel' & Hsent); try done.
  { by apply Nat.leb_le. }
  by exists c'.
Qed.

Lemma client_gets_driver_value_witness :
  let w := set_w_clients idle_world [mkClient 0 ($"::1") 100 None None None 0 pconf_init] in
  wp (sstate_readline 0 (ReadData (render [Bare ($"SETINFO"); Bare ($"ups.mfr"); Quoted (qt ++ $" a\#")] ++ [LF])) ;;
      client_readline 0 (ReadData (build_cmd UPSCLI_NETBUF_LEN ($"GET") [$"VAR"; $"su700"; $"ups.mfr"])))
    (fun _ w' => exists ans ok, w_out w' = [] ++ [ToClient 0 ans ok]
      /\ forall c more, usable c -> delivers c ans more ->
         exists c', upscli_get c [$"VAR"; $"su700"; $"ups.mfr"] = Some (0, c')
         /\ args (cn_ctx c') = [$"VAR"; $"su700"; $"ups.mfr"; qt ++ $" a\#"] /\ usable c' /\ delivers c' [] more
         /\ nt_sent (cn_net c') = nt_sent (cn_net c)
              ++ [build_cmd UPSCLI_NETBUF_LEN ($"GET") [$"VAR"; $"su700"; $"ups.mfr"]]) w.
Proof.
  intros w. refine (client_gets_driver_value w 0 demo_ups 0 _ ($"su700") ($"ups.mfr") (qt ++ $" a\#")
    eq_refl (conj eq_refl eq_refl) ready_init _ eq_refl eq_refl eq_refl ready_init eq_refl eq_refl _ _ _ _ _).
  - apply (run_ops_refines _ Leaf tree_wf_leaf).
  - apply (bool_decide_unpack _). vm_compute. exact I.
  - apply (bool_decide_unpack _). vm_compute. exact I.
  - apply Nat.ltb_lt. vm_compute. reflexivity.
  - apply Nat.ltb_lt. vm_compute. reflexivity.
  - apply Nat.ltb_lt. vm_compute. reflexivity.
Defined.
