(* ===== verification/Clients.v ===== *)
(** * clients/upsc.c: the command-line client that shows variables, and what it shares with the others

    A program is a function on the connection, the terminal and the clock ([term]).  [exit] ends it from any depth with a
    status; [clean_exit] then closes the connection.  [Undefined] is a read outside the parser's array or of a variable
    that was not set, and [NoEnd] stands for a loop that used up its fuel.

    [t_stderr] has the messages of [fatalx] and of [fprintf(stderr)]; log messages are left out.  Options are arguments
    of the main functions, as are the rule of nutauth.conf for the host ([auth]) and what connecting comes to.  The text
    of [help] is an argument. *)

From S2P Require Import Prelude CStr ParseConf UpsClient.
From stdpp Require Import options.

(** ** Programs *)

Record term := mkTerm {
  t_conn : UPSCONN;
  t_stdout : bytes;
  t_stderr : bytes;
  t_stdin : bytes; (* what [fgets] will read *)
  t_getpass : option bytes; (* what [getpass] will return *)
  t_now : Z;
  t_waits : list nat; (* the seconds that the next reads with a time limit take *)
  t_syserr : bytes (* the text of [strerror] for the last failure of the system *)
}.

Definition set_t_conn (t : term) x := mkTerm x (t_stdout t) (t_stderr t) (t_stdin t) (t_getpass t) (t_now t) (t_waits t)
  (t_syserr t).
Definition set_t_stdout (t : term) x := mkTerm (t_conn t) x (t_stderr t) (t_stdin t) (t_getpass t) (t_now t) (t_waits t)
  (t_syserr t).
Definition set_t_stderr (t : term) x := mkTerm (t_conn t) (t_stdout t) x (t_stdin t) (t_getpass t) (t_now t) (t_waits t)
  (t_syserr t).
Definition set_t_stdin (t : term) x := mkTerm (t_conn t) (t_stdout t) (t_stderr t) x (t_getpass t) (t_now t) (t_waits t)
  (t_syserr t).
Definition set_t_clock (t : term) n ws := mkTerm (t_conn t) (t_stdout t) (t_stderr t) (t_stdin t) (t_getpass t) n ws
  (t_syserr t).

Inductive outcome (A : Type) :=
  | Done (a : A) (t : term)
  | Exits (status : Z) (t : term)
  | Undefined
  | NoEnd.
Arguments Done {A}.
Arguments Exits {A}.
Arguments Undefined {A}.
Arguments NoEnd {A}.

Definition TM (A : Type) : Type := term -> outcome A.
#[export] Instance TM_ret : MRet TM := fun A a t => Done a t.
#[export] Instance TM_bind : MBind TM := fun A B f m t =>
  match m t with
  | Done a t' => f a t'
  | Exits status t' => Exits status t'
  | Undefined => Undefined
  | NoEnd => NoEnd
  end.

Definition EXIT_SUCCESS : Z := 0.
Definition EXIT_FAILURE : Z := 1.
Definition LARGEBUF : nat := 1024.

Definition exit {A} (status : Z) : TM A := fun t => Exits status t.
Definition undefined {A} : TM A := fun _ => Undefined.
Definition get_conn : TM UPSCONN := fun t => Done (t_conn t) t.
Definition put_conn (c : UPSCONN) : TM unit := fun t => Done tt (set_t_conn t c).
Definition puts (s : bytes) : TM unit := fun t => Done tt (set_t_stdout t (t_stdout t ++ s)).
Definition eputs (s : bytes) : TM unit := fun t => Done tt (set_t_stderr t (t_stderr t ++ s)).
Definition fatalx {A} (status : Z) (msg : bytes) : TM A := eputs (msg ++ [LF]) ;; exit status.

(** [fgets(buf, size, stdin)] for [size > 1]: up to and including a newline *)
Fixpoint fgets_take (k : nat) (s : bytes) : bytes * bytes :=
  match k, s with
  | S k, c :: s => if Ascii.eqb c LF then ([c], s) else let '(l, r) := fgets_take k s in (c :: l, r)
  | _, _ => ([], s)
  end.
Definition fgets (size : nat) : TM (option bytes) := fun t =>
  match t_stdin t with
  | [] => Done None t
  | s => let '(l, r) := fgets_take (size - 1) s in Done (Some (c_string l)) (set_t_stdin t r)
  end.

(** ** The client library *)

Definition on_conn {A} (f : UPSCONN -> A * UPSCONN) : TM A :=
  c ← get_conn; let '(a, c) := f c in put_conn c ;; mret a.
Definition on_conn_safe {A} (f : UPSCONN -> option (A * UPSCONN)) : TM A :=
  c ← get_conn; match f c with Some (a, c) => put_conn c ;; mret a | None => undefined end.

Definition sendline (buf : bytes) : TM Z := on_conn (fun c => upscli_sendline c buf).
Definition readline (n : nat) : TM (Z * bytes) := on_conn (fun c => upscli_readline c n).
Definition get (query : list bytes) : TM Z := on_conn_safe (fun c => upscli_get c query).
Definition list_start (query : list bytes) : TM Z := on_conn_safe (fun c => upscli_list_start c query).
Definition list_next (query : list bytes) : TM Z := on_conn_safe (fun c => upscli_list_next c query).

(** [numa] and [answer[k]] after one of them *)
Definition numa : TM nat := c ← get_conn; mret (p_numargs (cn_ctx c)).
Definition answer (k : nat) : TM bytes :=
  c ← get_conn; match p_arglist (cn_ctx c) !! k with Some a => mret a | None => undefined end.

Definition UPSCLI_ERRBUF_LEN : nat := 256.

Definition upscli_errlist : list (Z * bytes) := [
  (0, $"Unknown error"); (0, $"Variable not supported by UPS"); (0, $"No such host");
  (0, $"Invalid response from server"); (0, $"Unknown UPS"); (0, $"Invalid list type"); (0, $"Access denied");
  (0, $"Password required"); (0, $"Password incorrect"); (0, $"Missing argument"); (0, $"Data stale");
  (0, $"Variable unknown"); (0, $"Already logged in"); (0, $"Already set password"); (0, $"Unknown variable type");
  (0, $"Unknown variable"); (0, $"Read-only variable"); (0, $"New value is too long"); (0, $"Invalid value for variable");
  (0, $"Set command failed"); (0, $"Unknown instant command"); (0, $"Instant command failed");
  (0, $"Instant command not supported"); (0, $"Invalid username"); (0, $"Already set username"); (0, $"Unknown command");
  (0, $"Invalid argument"); (1, $"Send failure: "); (1, $"Receive failure: "); (1, $"socket failure: ");
  (1, $"bind failure: "); (1, $"Connection failure: "); (1, $"Write error: "); (1, $"Read error: ");
  (0, $"Invalid password"); (0, $"Username required"); (0, $"SSL is not available"); (2, $"SSL error: ");
  (0, $"Server disconnected"); (0, $"Driver not connected"); (0, $"Memory allocation failure"); (3, $"Parse error: ");
  (0, $"Protocol error") ].

(** The formats end in %s where the flag is not 0; the table keeps what precedes it. *)
Definition upscli_strerror (syserr : bytes) (c : UPSCONN) : bytes :=
  if negb (cn_magic c =? UPSCLIENT_MAGIC) then $"Invalid argument"
  else if cn_upserror c <? 0 then $"Invalid error number"
  else
    match upscli_errlist !! Z.to_nat (cn_upserror c) with
    | None => $"Invalid error number"
    | Some (0, str) => str
    | Some (1, str) => snprintf_s UPSCLI_ERRBUF_LEN (str ++ syserr)
    | Some (2, _) => snprintf_s UPSCLI_ERRBUF_LEN ($"SSL error, but SSL wasn't enabled at compile-time")
    | Some (_, str) => snprintf_s UPSCLI_ERRBUF_LEN (str ++ p_errmsg (cn_ctx c))
    end.

Definition strerror : TM bytes := fun t => Done (upscli_strerror (t_syserr t) (t_conn t)) t.
Definition upserror : TM Z := c ← get_conn; mret (upscli_upserror c).

(** The bytes that are still to come, an upper bound of the lines. *)
Definition pending (c : UPSCONN) : nat :=
  (cn_readlen c - cn_readidx c + length (concat (map (fun r => match r with RData d => d | RError => [] end)
     (nt_reads (cn_net c)))))%nat.

(** [while ((ret = upscli_list_next(...)) == 1)], after the first call: [body] handles an answer *)
Fixpoint while_next {A} (fuel : nat) (query : list bytes) (ret : Z) (a : A) (body : A -> TM A) : TM A :=
  if ret =? 1 then
    match fuel with
    | O => fun _ => NoEnd
    | S fuel => a ← body a; ret ← list_next query; while_next fuel query ret a body
    end
  else mret a.
Definition answers {A} (query : list bytes) (ret : Z) (a : A) (body : A -> TM A) : TM A :=
  c ← get_conn; while_next (S (pending c)) query ret a body.

(** ** common/strjson.c *)

Definition hex4_digit (z : Z) : ascii := if z <? 10 then chr (48 + z) else chr (87 + z).

(** printf of %04x *)
Definition show_04x (z : Z) : bytes :=
  map (fun k => hex4_digit (Z.land (Z.shiftr z k) 15)) [12; 8; 4; 0].

Definition json_esc_char (c : ascii) : bytes :=
  if Ascii.eqb c (chr 34) then [chr 92; chr 34]
  else if Ascii.eqb c (chr 92) then [chr 92; chr 92]
  else if Ascii.eqb c (chr 8) then $"\b"
  else if Ascii.eqb c (chr 12) then $"\f"
  else if Ascii.eqb c (chr 10) then $"\n"
  else if Ascii.eqb c (chr 13) then $"\r"
  else if Ascii.eqb c (chr 9) then $"\t"
  else if code c <? 32 then $"\u" ++ show_04x (wrapU 32 (schar c))
  else [c].
Definition json_esc (s : bytes) : bytes := flat_map json_esc_char s.
Definition json_print_esc (s : bytes) : TM unit := puts (json_esc s).

(** ** upsc *)

(** the text of an answer with fewer words than it must have *)
Definition insufficient (n : nat) (need : Z) : bytes :=
  $"insufficient data (got " ++ show_Z (Z.of_nat n) ++ $" args, need at least " ++ show_Z need ++ $")".

Section upsc.
Variable output_json : bool.

Definition when_json (m : TM unit) : TM unit := if output_json then m else mret tt.

Definition fatalx_error_json_simple {A} (msg_is_simple : bool) (msg : bytes) : TM A :=
  when_json (
    if msg_is_simple then puts ($"{" ++ quoted ($"error") ++ $": " ++ quoted msg ++ $"}" ++ [LF])
    else puts ($"{" ++ quoted ($"error") ++ $": " ++ [chr 34]) ;; json_print_esc msg ;; puts ([chr 34] ++ $"}" ++ [LF])) ;;
  fatalx EXIT_FAILURE ($"Error: " ++ msg).

(** What is said when a request failed. *)
Definition request_error (old : bytes) : TM (bool * bytes) :=
  e ← upserror;
  if e =? UPSCLI_ERR_UNKCOMMAND then mret (true, old) else (msg ← strerror; mret (false, msg)).

Definition printvar (upsname var : bytes) : TM unit :=
  if negb (strchr var (chr 46)) then fatalx_error_json_simple true ($"old-style variable names are not supported") else
  let query := [$"VAR"; upsname; var] in
  ret ← get query;
  if ret <? 0 then
    '(simple, msg) ← request_error ($"variable unknown (old upsd detected)");
    fatalx_error_json_simple simple msg
  else
    n ← numa;
    if (n <? length query)%nat then
      fatalx_error_json_simple true (snprintf_s LARGEBUF (insufficient n (Z.of_nat (length query))))
    else
      val ← answer 3;
      if output_json then puts [chr 34] ;; json_print_esc val ;; puts [chr 34; LF]
      else puts (val ++ [LF]).

(** A member of an object, or an element of an array. *)
Definition json_member (name val : bytes) : TM unit :=
  puts ($"  " ++ [chr 34]) ;; json_print_esc name ;; puts ([chr 34] ++ $": " ++ [chr 34]) ;; json_print_esc val ;;
  puts [chr 34].
Definition json_element (val : bytes) : TM unit := puts ($"  " ++ [chr 34]) ;; json_print_esc val ;; puts [chr 34].

(** [if (!first) printf(",\n")] *)
Definition separate (first : bool) : TM unit := if first then mret tt else puts ($"," ++ [LF]).

Definition list_vars_error (simple : bool) (msg : bytes) : TM unit :=
  when_json (
    if simple then puts ($"  " ++ quoted ($"error") ++ $": " ++ quoted msg ++ [LF] ++ $"}" ++ [LF])
    else puts ($"  " ++ quoted ($"error") ++ $": " ++ [chr 34]) ;; json_print_esc msg ;;
         puts ([chr 34; LF] ++ $"}" ++ [LF])) ;;
  fatalx EXIT_FAILURE ($"Error: " ++ msg).

(** the body of the loop of [list_vars] *)
Definition show_var (first : bool) : TM bool :=
  n ← numa;
  if (n <? 4)%nat then
    list_vars_error true (snprintf_s LARGEBUF (insufficient n 4)) ;; mret first
  else
    var ← answer 2; val ← answer 3;
    if output_json then separate first ;; json_member var val ;; mret false
    else puts (var ++ $": " ++ val ++ [LF]) ;; mret first.

Definition list_vars (upsname : bytes) : TM unit :=
  let query := [$"VAR"; upsname] in
  when_json (puts ($"{" ++ [LF])) ;;
  ret ← list_start query;
  if ret <? 0 then
    '(simple, msg) ← request_error ($"upsd is too old to support this query");
    list_vars_error simple msg
  else
    ret ← list_next query;
    answers query ret true show_var ;;
    when_json (puts ([LF] ++ $"}" ++ [LF])).

(** the body of the loop of [list_upses] *)
Definition show_ups (verbose first : bool) : TM bool :=
  n ← numa;
  if (n <? 3)%nat then
    let msg := snprintf_s LARGEBUF (insufficient n 3) in
    when_json (
      puts ($"  " ++ (if verbose then [] else $"{")) ;;
      puts (quoted ($"error") ++ $": " ++ quoted msg ++ [LF] ++ $"}" ++ [LF]) ;;
      (if verbose then mret tt else puts ($"]" ++ [LF]))) ;;
    fatalx EXIT_FAILURE ($"Error: " ++ msg)
  else
    name ← answer 1;
    if output_json then
      separate first ;;
      (if verbose then desc ← answer 2; json_member name desc else json_element name) ;;
      mret false
    else if verbose then desc ← answer 2; puts (name ++ $": " ++ desc ++ [LF]) ;; mret first
    else puts (name ++ [LF]) ;; mret first.

Definition list_upses (verbose : bool) : TM unit :=
  let query := [$"UPS"] in
  ret ← list_start query;
  if ret <? 0 then
    '(simple, msg) ← request_error ($"upsd is too old to support this query");
    fatalx_error_json_simple simple msg
  else
    when_json (puts ((if verbose then $"{" else $"[") ++ [LF])) ;;
    ret ← list_next query;
    answers query ret true (show_ups verbose) ;;
    when_json (puts ([LF] ++ (if verbose then $"}" else $"]") ++ [LF])).

(** the body of the loop of [list_clients] *)
Definition show_client (first : bool) : TM bool :=
  n ← numa;
  if (n <? 3)%nat then
    let msg := snprintf_s LARGEBUF (insufficient n 3) in
    when_json (puts ($"  {" ++ quoted ($"error") ++ $": " ++ quoted msg ++ [LF] ++ $"}" ++ [LF] ++ $"]" ++ [LF])) ;;
    fatalx EXIT_FAILURE ($"Error: " ++ msg)
  else
    addr ← answer 2;
    if output_json then separate first ;; json_element addr ;; mret false
    else puts (addr ++ [LF]) ;; mret first.

Definition list_clients (devname : bytes) : TM unit :=
  let query := [$"CLIENT"; devname] in
  ret ← list_start query;
  if ret <? 0 then
    '(simple, msg) ← request_error ($"upsd is too old to support this query");
    fatalx_error_json_simple simple msg
  else
    when_json (puts ($"[" ++ [LF])) ;;
    ret ← list_next query;
    answers query ret true show_client ;;
    when_json (puts ([LF] ++ $"]" ++ [LF])).

End upsc.

(** ** Starting and ending *)

(** [exit] calls it: what a program leaves, with its status. *)
Definition clean_exit {A} (r : outcome A) : outcome Z :=
  match r with
  | Done _ t => Done 0 (set_t_conn t (upscli_disconnect (t_conn t)).2)
  | Exits status t => Done status (set_t_conn t (upscli_disconnect (t_conn t)).2)
  | Undefined => Undefined
  | NoEnd => NoEnd
  end.

(** What a program finds when it connects, and the user and password of nutauth.conf. *)
Record startup := mkStartup {
  st_dial : dial_result;
  st_hostcert : option (Z * Z);
  st_flags : Z;
  st_auth : option (bytes * bytes)
}.

Definition connect (st : startup) (host : option bytes) (port : Z) : TM Z := fun t =>
  let '(r, c) := upscli_tryconnect (st_dial st) (st_hostcert st) host port (st_flags st) in Done r (set_t_conn t c).

Record upsc_opts := mkUpscOpts {
  o_json : bool;
  o_varlist : bool;
  o_verbose : bool;
  o_clientlist : bool
}.

(** [main] after the options; [argv] are the arguments that follow them. *)
Definition upsc_run (o : upsc_opts) (st : startup) (argv : list bytes) : TM unit :=
  let json := o_json o in
  let r := if o_varlist o then upscli_splitaddr (default ($"localhost") (argv !! 0%nat))
           else match argv !! 0%nat with Some a => upscli_splitname a | None => mkSplit (-1) None None None end in
  if negb (sr_ret r =? 0) then
    fatalx_error_json_simple json false
      (if o_varlist o then $"invalid hostname." ++ [LF] ++ $"Required format: [hostname[:port]]"
       else $"invalid UPS definition." ++ [LF] ++ $"Required format: upsname[@hostname[:port]]")
  else
    ok ← connect st (sr_hostname r) (default 0 (sr_port r));
    if ok <? 0 then msg ← strerror; fatalx_error_json_simple json false msg
    else
      match st_auth st with
      | Some (user, pass) => on_conn (fun c => upscli_authenticate c (Some user) (Some pass)) ;; mret tt
      | None => mret tt
      end ;;
      let upsname := default [] (sr_upsname r) in
      if o_varlist o then list_upses json (o_verbose o)
      else if o_clientlist o then list_clients json upsname
      else match argv !! 1%nat with
           | Some var => printvar json upsname var
           | None => list_vars json upsname
           end.

(** When nothing was connected there is nothing to close: [clean_exit] then finds a descriptor below 0. *)
Definition upsc_main (o : upsc_opts) (st : startup) (argv : list bytes) (t : term) : outcome Z :=
  clean_exit (upsc_run o st argv (set_t_conn t fresh_conn)).
