(* ===== verification/ClientsSet.v ===== *)
(** * clients/upscmd.c and clients/upsrw.c: the command-line clients that change something

    Commands and settings, with the wait for their result, and the lists of what can be commanded and set.  The programs
    are functions of [Clients.TM].  A variable that the code may leave unset is an [option]; using it then is
    [Undefined].  [assert] is checked, as in a build without NDEBUG; the texts it copies always fit. *)

From S2P Require Import Prelude CStr ParseConf UpsClient StateTree Clients.
From stdpp Require Import options.

Definition UUID4_LEN : nat := 37.
Definition DEFAULT_TRACKING_TIMEOUT : Z := 10.

Definition time : TM Z := fun t => Done (t_now t) t.

(** [sleep(1)] *)
Definition sleep1 : TM unit := fun t => Done tt (set_t_clock t (t_now t + 1) (t_waits t)).

(** [upscli_readline_timeout]: meanwhile time passes. *)
Definition readline_timeout (n : nat) : TM (Z * bytes) :=
  (fun t => let '(w, ws) := match t_waits t with [] => (0%nat, []) | w :: ws => (w, ws) end in
     Done tt (set_t_clock t (t_now t + Z.of_nat w) ws)) ;;
  on_conn (fun c => upscli_readline_timeout c n).

(** ** Waiting for a result *)

(** A request with an answer of one line, or the end of the program with one of two messages. *)
Definition ask (cant failed line : bytes) (n : nat) : TM bytes :=
  r ← sendline line;
  if r <? 0 then msg ← strerror; fatalx EXIT_FAILURE (cant ++ $": " ++ msg) else
  '(r, buf) ← readline n;
  if r <? 0 then msg ← strerror; fatalx EXIT_FAILURE (failed ++ $": " ++ msg) else mret buf.

(** The loop at the end of [do_cmd] and of [do_set]; [timeout] is an unsigned int.  Each round but the last takes a second at
    least, so that [timeout + 1] rounds are enough. *)
Fixpoint tracking_loop (fuel : nat) (timeout start : Z) (tracking_id : bytes) : TM bytes :=
  match fuel with
  | O => fun _ => NoEnd
  | S fuel =>
      now ← time;
      if timeout <=? now - start then fatalx EXIT_FAILURE ($"Can't receive status tracking information: timeout") else
      r ← sendline (snprintf_s SMALLBUF ($"GET TRACKING " ++ tracking_id ++ [LF]));
      if r <? 0 then msg ← strerror; fatalx EXIT_FAILURE ($"Can't send status tracking request: " ++ msg) else
      '(r, buf) ← readline_timeout SMALLBUF;
      if r <? 0 then msg ← strerror; fatalx EXIT_FAILURE ($"Can't receive status tracking information: " ++ msg) else
      if negb (strncmp buf ($"PENDING") 7 =? 0) then mret buf
      else sleep1 ;; tracking_loop fuel timeout start tracking_id
  end.

(** From the answer [buf] to a command or setting on, in [do_cmd] and in [do_set] *)
Definition await_result (tracking_enabled : bool) (timeout : Z) (buf : bytes) : TM unit :=
  if negb (strncmp buf ($"OK") 2 =? 0) then fatalx EXIT_FAILURE ($"Unexpected response from upsd: " ++ buf) else
  if negb tracking_enabled || negb (length buf =? UUID4_LEN - 1 + length ($"OK TRACKING "))%nat then eputs (buf ++ [LF])
  else
    let tracking_id := snprintf_s UUID4_LEN (drop (length ($"OK TRACKING ")) buf) in
    start ← time;
    buf ← tracking_loop (S (Z.to_nat timeout)) timeout start tracking_id;
    eputs (buf ++ [LF]).

(** ** Logging in *)

(** [while (len > 1)]: newlines and carriage returns at the end are removed, but not from a text of one character. *)
Fixpoint strip_newlines (r : bytes) : bytes :=
  match r with
  | c :: ((_ :: _) as r') => if Ascii.eqb c LF || Ascii.eqb c (chr 13) then strip_newlines r' else r
  | _ => r
  end.

(** The user name that [upscli_authenticate] asks for; [pw_name] is what [getpwuid] knows. *)
Definition ask_username (pw_name : option bytes) : TM (option bytes) :=
  puts (match pw_name with Some n => $"Username (" ++ n ++ $"): " | None => $"Username: " end) ;;
  line ← fgets (UPSCLI_NETBUF_LEN - 12);
  match line with
  | None => on_conn (fun c => (None, set_cn_upserror c UPSCLI_ERR_INVUSERNAME))
  | Some line =>
      match reverse (strip_newlines (reverse line)) with
      | [] =>
          match pw_name with
          | None => on_conn (fun c => (None, set_cn_upserror c UPSCLI_ERR_USERREQUIRED))
          | Some n => mret (Some (snprintf_s (UPSCLI_NETBUF_LEN - 12) n))
          end
      | user => mret (Some user)
      end
  end.

Definition ask_password : TM (option bytes) := fun t =>
  match t_getpass t with
  | None => Done None (set_t_conn t (set_cn_upserror (t_conn t) UPSCLI_ERR_INVPASSWORD))
  | Some p => Done (Some (snprintf_s (UPSCLI_NETBUF_LEN - 12) p)) t
  end.

(** [upscli_authenticate] with [check_os_user] and [ask_password] *)
Definition authenticate_asking (pw_name username password : option bytes) : TM Z :=
  user ← match username with Some u => mret (Some u) | None => ask_username pw_name end;
  match user with
  | None => mret (-1)
  | Some user =>
      pass ← match password with Some p => mret (Some p) | None => ask_password end;
      match pass with
      | None => mret (-1)
      | Some pass => on_conn (fun c => upscli_authenticate c (Some user) (Some pass))
      end
  end.

(** ** upscmd *)

Definition print_cmd (upsname cmdname : bytes) : TM unit :=
  let query := [$"CMDDESC"; upsname; cmdname] in
  ret ← get query;
  n ← numa;
  if (ret <? 0) || (n <? length query)%nat then puts (cmdname ++ [LF])
  else desc ← answer 3; puts (cmdname ++ $" - " ++ desc ++ [LF]).

(** An answer is stored for later: [answer[2]], when there are [need] words; the message says [said]. *)
Definition keep_name (need : nat) (said : Z) (names : list bytes) : TM (list bytes) :=
  n ← numa;
  if (n <? need)%nat then fatalx EXIT_FAILURE ($"Error: " ++ insufficient n said)
  else name ← answer 2; mret (names ++ [name]).

Fixpoint each {A} (l : list A) (f : A -> TM unit) : TM unit :=
  match l with [] => mret tt | x :: l => f x ;; each l f end.

(** A list of names is asked for and kept. *)
Definition list_names (query : list bytes) (need : nat) : TM (list bytes) :=
  ret ← list_start query;
  if ret <? 0 then
    e ← upserror;
    if e =? UPSCLI_ERR_UNKCOMMAND then fatalx EXIT_FAILURE ($"Error: upsd is too old to support this query")
    else msg ← strerror; fatalx EXIT_FAILURE ($"Error: " ++ msg)
  else
    ret ← list_next query;
    answers query ret [] (keep_name need (Z.of_nat need)).

Definition listcmds (upsname : bytes) : TM unit :=
  names ← list_names [$"CMD"; upsname] 3;
  puts ($"Instant commands supported on UPS [" ++ upsname ++ $"]:" ++ [LF; LF]) ;;
  each names (print_cmd upsname).

(** [argv] are the command and its value, if any. *)
Definition do_cmd (tracking_enabled : bool) (timeout : Z) (upsname cmdname : bytes) (value : option bytes) : TM unit :=
  let line := match value with
              | Some v => $"INSTCMD " ++ upsname ++ $" " ++ cmdname ++ $" " ++ v ++ [LF]
              | None => $"INSTCMD " ++ upsname ++ $" " ++ cmdname ++ [LF]
              end in
  buf ← ask ($"Can't send instant command") ($"Instant command failed") (snprintf_s SMALLBUF line) SMALLBUF;
  await_result tracking_enabled timeout buf.

(** SET TRACKING ON, in [main] of upscmd and in [do_setvar] *)
Definition enable_tracking (what : bytes) : TM unit :=
  buf ← ask ($"Can't enable " ++ what) ($"Enabling " ++ what ++ $" failed")
          (snprintf_s (SMALLBUF * 2) ($"SET TRACKING ON" ++ [LF])) (SMALLBUF * 2);
  if negb (strncmp buf ($"OK") 2 =? 0) then
    fatalx EXIT_FAILURE ($"Enabling " ++ what ++ $" failed. upsd answered: " ++ buf)
  else mret tt.

Record tool_opts := mkToolOpts {
  o_username : option bytes; (* -u *)
  o_password : option bytes; (* -p *)
  o_tracking : bool; (* -w *)
  o_timeout : Z; (* -t *)
  o_pw_name : option bytes; (* [getpwuid] *)
  o_help : bytes
}.

(** The user and password of nutauth.conf are used when neither is given on the command line. *)
Definition authenticate (st : startup) (o : tool_opts) (from_cli : TM Z) : TM unit :=
  r ← match st_auth st, o_username o, o_password o with
      | Some (user, pass), None, None =>
          r ← on_conn (fun c => upscli_authenticate c (Some user) (Some pass)); mret (negb (r =? 0))
      | _, _, _ => r ← from_cli; mret (r <? 0)
      end;
  if r : bool then msg ← strerror; fatalx EXIT_FAILURE ($"Authentication failed: " ++ msg) else mret tt.

(** [argv[0]] is split and the server called. *)
Definition call_server (st : startup) (argv0 : bytes) : TM bytes :=
  let r := upscli_splitname argv0 in
  if negb (sr_ret r =? 0) then
    fatalx EXIT_FAILURE ($"Error: invalid UPS definition.  Required format: upsname[@hostname[:port]]")
  else
    ok ← connect st (sr_hostname r) (default 0 (sr_port r));
    if ok <? 0 then msg ← strerror; fatalx EXIT_FAILURE ($"Error: " ++ msg)
    else mret (default [] (sr_upsname r)).

Definition show_help (o : tool_opts) : TM unit := puts (o_help o) ;; exit EXIT_SUCCESS.

(** The arrays [username] and [password] have what was given with -u and -p, or were never set. *)
Definition set_array (given : option bytes) : TM bytes :=
  match given with Some s => mret (snprintf_s SMALLBUF s) | None => undefined end.

(** [main] of upscmd after the options *)
Definition upscmd_run (cmdlist : bool) (o : tool_opts) (st : startup) (argv : list bytes) : TM unit :=
  match argv with
  | [] => show_help o
  | ups :: argv =>
      upsname ← call_server st ups;
      if cmdlist then listcmds upsname
      else
        match argv with
        | [] => show_help o
        | cmdname :: values =>
            if negb (strchr cmdname (chr 46)) then
              fatalx EXIT_FAILURE ($"Error: old command names are not supported")
            else
              authenticate st o (
                user ← set_array (o_username o); pass ← set_array (o_password o);
                authenticate_asking (o_pw_name o) (Some user) (Some pass)) ;;
              (if o_tracking o then enable_tracking ($"command status tracking") else mret tt) ;;
              do_cmd (o_tracking o) (o_timeout o) upsname cmdname (values !! 0%nat)
        end
  end.
Definition upscmd_main (cmdlist : bool) (o : tool_opts) (st : startup) (argv : list bytes) (t : term) : outcome Z :=
  clean_exit (upscmd_run cmdlist o st argv (set_t_conn t fresh_conn)).

(** ** upsrw: settings *)

Definition do_set (tracking_enabled : bool) (timeout : Z) (upsname varname newval : bytes) : TM unit :=
  let line := $"SET VAR " ++ upsname ++ $" " ++ varname ++ $" " ++ quoted (pconf_encode newval SMALLBUF) ++ [LF] in
  buf ← ask ($"Can't set variable") ($"Set variable failed") (snprintf_s SMALLBUF line) SMALLBUF;
  await_result tracking_enabled timeout buf.

(** The new value: what follows = in [varname], or a line that is asked for.  The last character of the line is cut off,
    a newline or not; an empty text has none. *)
Definition new_value (varname : bytes) : TM (bytes * bytes) :=
  match index_of varname (chr 61) with
  | Some k => mret (take k varname, snprintf_s SMALLBUF (drop (S k) varname))
  | None =>
      puts ($"Enter new value for " ++ varname ++ $": ") ;;
      line ← fgets SMALLBUF;
      match line with
      | Some (c :: l) => mret (varname, removelast (c :: l))
      | _ => undefined
      end
  end.

Definition do_setvar (tracking_enabled : bool) (timeout : Z) (upsname varname : bytes) : TM unit :=
  '(varname, newval) ← new_value varname;
  if negb (strchr varname (chr 46)) then fatalx EXIT_FAILURE ($"Error: old variable names are not supported") else
  (if tracking_enabled then enable_tracking ($"set variable status tracking") else mret tt) ;;
  do_set tracking_enabled timeout upsname varname newval.

(** ** upsrw: what can be set *)

Definition get_data (upsname type varname : bytes) : TM (option bytes) :=
  let query := [type; upsname; varname] in
  ret ← get query;
  n ← numa;
  if (ret <? 0) || (n <? length query)%nat then mret None else a ← answer 3; mret (Some a).

(** [get_data("VAR", ...)] for one of the functions that need the value *)
Definition current_value (upsname who varname : bytes) : TM bytes :=
  val ← get_data upsname ($"VAR") varname;
  match val with
  | None => fatalx EXIT_FAILURE (who ++ $": can't get current value of " ++ varname)
  | Some v => mret v
  end.

Definition do_string (upsname varname : bytes) (len : Z) : TM unit :=
  val ← current_value upsname ($"do_string") varname;
  puts ($"Type: STRING" ++ [LF]) ;;
  puts ($"Maximum length: " ++ show_Z len ++ [LF]) ;;
  puts ($"Value: " ++ val ++ [LF]).

Definition do_number (upsname varname : bytes) : TM unit :=
  val ← current_value upsname ($"do_number") varname;
  puts ($"Type: NUMBER" ++ [LF]) ;;
  puts ($"Value: " ++ val ++ [LF]).

(** [upscli_list_start], or the end of the program; then the first answer *)
Definition start_list (query : list bytes) : TM Z :=
  ret ← list_start query;
  if ret <? 0 then msg ← strerror; fatalx EXIT_FAILURE ($"Error: " ++ msg) else list_next query.

Definition option_line (text : bytes) (selected : bool) : bytes :=
  $"Option: " ++ quoted text ++ (if selected then $" SELECTED" else []) ++ [LF].

Definition do_enum (upsname varname : bytes) (vartype len : Z) : TM unit :=
  val ← current_value upsname ($"do_enum") varname;
  let buf := snprintf_s SMALLBUF val in
  let query := [$"ENUM"; upsname; varname] in
  ret ← start_list query;
  puts (if vartype =? ST_FLAG_NONE then $"Type: ENUM" ++ [LF]
        else $"Type: ENUM " ++ (if vartype =? ST_FLAG_STRING then $"STRING" else $"NUMBER") ++ [LF]) ;;
  (if vartype =? ST_FLAG_STRING then puts ($"Maximum length: " ++ show_Z len ++ [LF]) else mret tt) ;;
  answers query ret tt (fun _ =>
    n ← numa;
    if (n <? 4)%nat then fatalx EXIT_FAILURE ($"Error: " ++ insufficient n 4)
    else v ← answer 3; puts (option_line v (streq v buf))).

Definition do_range (upsname varname : bytes) : TM unit :=
  val ← current_value upsname ($"do_range") varname;
  let ival := atoi val in
  let query := [$"RANGE"; upsname; varname] in
  ret ← start_list query;
  puts ($"Type: RANGE NUMBER" ++ [LF]) ;;
  answers query ret tt (fun _ =>
    n ← numa;
    if (n <? 5)%nat then fatalx EXIT_FAILURE ($"Error: " ++ insufficient n 4)
    else
      mn ← answer 3; mx ← answer 4;
      let min := atoi mn in let max := atoi mx in
      puts (option_line (show_Z min ++ $"-" ++ show_Z max) ((min <=? ival) && (ival <=? max)))).

(** The loop over the words of the type *)
Fixpoint type_words (upsname varname : bytes) (is_enum : bool) (words : list bytes) : TM unit :=
  match words with
  | [] => if is_enum then do_enum upsname varname ST_FLAG_NONE 0 else mret tt
  | w :: words =>
      if strcaseeq w ($"ENUM") then type_words upsname varname true words
      else if strcaseeq w ($"RANGE") then do_range upsname varname
      else if strncasecmp w ($"STRING:") 7 =? 0 then
        let length := (strtol (drop 7 w) 10).1.1 in
        if is_enum then do_enum upsname varname ST_FLAG_STRING length else do_string upsname varname length
      else if strcaseeq w ($"NUMBER") then
        if is_enum then do_enum upsname varname ST_FLAG_NUMBER 0 else do_number upsname varname
      else if strcaseeq w ($"RW") then type_words upsname varname is_enum words
      else puts ($"Type: " ++ w ++ $" (unrecognized)" ++ [LF]) ;; type_words upsname varname is_enum words
  end.

Definition do_type (upsname varname : bytes) : TM unit :=
  let query := [$"TYPE"; upsname; varname] in
  ret ← get query;
  n ← numa;
  if (ret <? 0) || (n <? length query)%nat then puts ($"Unknown type" ++ [LF])
  else
    c ← get_conn;
    type_words upsname varname false (drop 3 (args (cn_ctx c))).

Definition print_rw (upsname varname : bytes) : TM unit :=
  puts ($"[" ++ varname ++ $"]" ++ [LF]) ;;
  tmp ← get_data upsname ($"DESC") varname;
  puts (match tmp with Some d => d | None => $"Description unavailable" end ++ [LF]) ;;
  do_type upsname varname ;;
  puts [LF].

Definition print_rwlist (upsname : bytes) : TM unit :=
  names ← list_names [$"RW"; upsname] 4; each names (print_rw upsname).

(** [main] of upsrw after the options *)
Definition upsrw_run (setvar : option bytes) (o : tool_opts) (st : startup) (argv : list bytes) : TM unit :=
  match argv with
  | [] => show_help o
  | ups :: _ =>
      upsname ← call_server st ups;
      match setvar with
      | Some var =>
          authenticate st o (authenticate_asking (o_pw_name o) (o_username o) (o_password o)) ;;
          do_setvar (o_tracking o) (o_timeout o) upsname var
      | None => print_rwlist upsname
      end
  end.
Definition upsrw_main (setvar : option bytes) (o : tool_opts) (st : startup) (argv : list bytes) (t : term) : outcome Z :=
  clean_exit (upsrw_run setvar o st argv (set_t_conn t fresh_conn)).
