(* ===== verification/ClientsFacts.v ===== *)
(** * The command-line clients end, and show what the server says

    Every run of the three programs ends, whatever the server sends; a listing is read row by row; what is printed as
    JSON reads back; waiting for a result reports it or gives up in time. *)

From S2P Require Import Prelude CStr ParseConf ParseConfFacts StateTree World Server ServerLib ServerFacts ListFacts.
From S2P Require Import ProtoLines UpsClient UpsClientFacts Clients ClientsSet.
From stdpp Require Import options.

(** ** Every loop ends *)

Definition unread (c : UPSCONN) : bytes :=
  concat (map (fun r => match r with RData d => d | RError => [] end) (nt_reads (cn_net c))).

Lemma pending_unread c : pending c = (cn_readlen c - cn_readidx c + length (unread c))%nat.
Proof. reflexivity. Qed.

(** A successful read moves bytes from the socket. *)
Lemma net_read_unread c n :
  1 <= (net_read c n).1.1 -> unread c = (net_read c n).1.2 ++ unread (net_read c n).2.
Proof.
  unfold net_read, unread. destruct (nt_reads (cn_net c)) as [|[[|x d]|] rs]; cbn [fst]; try lia. intros _.
  cbn [fst snd cn_net set_cn_net set_nt_reads nt_reads map concat].
  rewrite <- (take_drop n (x :: d)) at 1. rewrite <- app_assoc. f_equal.
  by destruct (drop n (x :: d)).
Qed.

Lemma readline_loop_pending k : forall c buf md,
  conn_wf c -> (0 < k)%nat -> (readline_loop k c buf md).1.1 = 0 ->
  (pending (readline_loop k c buf md).2 < pending c)%nat.
Proof.
  induction k as [|k IH]; intros c buf md Hc Hk; [lia|]. cbn [readline_loop].
  assert (forall c, conn_wf c -> (cn_readidx c < cn_readlen c)%nat ->
    let r := (let x := nth (cn_readidx c) (cn_readbuf c) NUL in
       let c := set_cn_readbuf c (cn_readbuf c) (cn_readlen c) (S (cn_readidx c)) in
       if Ascii.eqb x LF then (0, buf, c) else readline_loop k c (buf ++ [x]) md) in
    r.1.1 = 0 -> (pending r.2 < pending c)%nat) as Hchar.
  { clear c Hc. intros c Hc Hlt. set (c1 := set_cn_readbuf _ _ _ _).
    assert (conn_wf c1) as Hc1 by (destruct Hc; split; simpl; try done; lia).
    assert (pending c1 < pending c)%nat as Hp by (rewrite !pending_unread; unfold c1, unread; simpl; lia).
    cbv zeta. case_match; [done|]. intros Hr. destruct k as [|k]; [done|].
    eapply Nat.lt_trans; [|exact Hp]. apply IH; [done|lia|done]. }
  destruct (Nat.eqb_spec (cn_readidx c) (cn_readlen c)) as [He|He].
  - pose proof (net_read_wf c READBUF_LEN Hc) as Hr. pose proof (net_read_size c READBUF_LEN) as Hs.
    pose proof (net_read_unread c READBUF_LEN) as Hu.
    destruct (net_read c READBUF_LEN) as [[ret got] c1]. cbn [fst snd] in *.
    destruct (Z.ltb_spec ret 1); [done|].
    destruct Hs as [|[-> Hl]]; [lia|]. specialize (Hu ltac:(lia)).
    set (c2 := set_cn_readbuf c1 got _ _).
    assert (conn_wf c2) as Hc2 by (destruct Hr; split; simpl; try done; lia).
    intros H0. specialize (Hchar c2 Hc2 ltac:(simpl; lia) H0). cbv zeta in Hchar.
    eapply Nat.lt_le_trans; [exact Hchar|]. rewrite !pending_unread, Hu, length_app. unfold c2, unread. simpl. lia.
  - apply Hchar; [done|]. destruct Hc. lia.
Qed.

(** Every answer of a list has used up at least a byte. *)
Lemma list_next_pending c q r c' :
  conn_wf c -> upscli_list_next c q = Some (r, c') ->
  conn_wf c' /\ (r = 1 -> (pending c' < pending c)%nat).
Proof.
  intros Hc. unfold upscli_list_next.
  assert (conn_wf (upscli_readline c UPSCLI_NETBUF_LEN).2
    /\ ((upscli_readline c UPSCLI_NETBUF_LEN).1.1 = 0 -> (pending (upscli_readline c UPSCLI_NETBUF_LEN).2 < pending c)%nat))
    as [Hw Hp].
  { split; [by apply readline_wf|].
    unfold upscli_readline, upscli_readline_timeout, upscli_readline_timeout_may_disconnect.
    pose proof (readline_loop_pending (UPSCLI_NETBUF_LEN - 1) c [] true Hc ltac:(unfold UPSCLI_NETBUF_LEN; lia)) as Hl.
    destruct (readline_loop _ c [] true) as [[ret buf] c1]. repeat case_match; done. }
  destruct (upscli_readline c UPSCLI_NETBUF_LEN) as [[r1 tmp] c1]. cbn [fst snd] in *.
  destruct (Z.eqb_spec r1 0) as [->|]; cbn [negb]; [|intros [= <- <-]; done]. specialize (Hp eq_refl).
  pose proof (errcheck_wf c1 tmp Hw) as Hw2.
  assert (pending (upscli_errcheck c1 tmp).2 = pending c1) as Hpe by (unfold upscli_errcheck; by repeat case_match).
  destruct (upscli_errcheck c1 tmp) as [r2 c2]. cbn [fst snd] in *.
  destruct (negb (r2 =? 0)); [intros [= <- <-]; done|].
  pose proof (pconf_line_ctx_ok (cn_ctx c2) tmp (cwf_ctx _ Hw2)) as Hx.
  destruct (pconf_line (cn_ctx c2) tmp) as [r3 ctx]. cbn [fst snd] in *.
  pose proof (set_ctx_wf c2 ctx Hw2 Hx) as Hw3.
  assert (pending (set_cn_ctx c2 ctx) = pending c2) as Hpc by done.
  repeat case_match; intros; simplify_eq; (split; [by auto with nut|]); intros; try done; lia.
Qed.

(** The program ends: with [Q], or by leaving, or in a read that C does not define. *)
Definition ends {A} (Q : A -> term -> Prop) (m : TM A) (t : term) : Prop :=
  match m t with Done a t' => Q a t' | NoEnd => False | Exits _ _ | Undefined => True end.

(** It ends on every well-formed connection, and leaves one. *)
Definition fine {A} (m : TM A) : Prop :=
  forall t, conn_wf (t_conn t) -> ends (fun _ t' => conn_wf (t_conn t')) m t.

(** It does not touch the connection. *)
Definition prints {A} (m : TM A) : Prop := forall t, ends (fun _ t' => t_conn t' = t_conn t) m t.

Lemma prints_fine {A} (m : TM A) : prints m -> fine m.
Proof. intros Hm t Ht. specialize (Hm t). unfold ends in *. destruct (m t); try done. by rewrite Hm. Qed.

(** Running the first part of a program *)
Lemma bind_done {A B} (m : TM A) (f : A -> TM B) t a t' : m t = Done a t' -> (m ≫= f) t = f a t'.
Proof. intros Hm. unfold mbind, TM_bind. by rewrite Hm. Qed.

Lemma bind_assoc {A B C} (m : TM A) (f : A -> TM B) (g : B -> TM C) t :
  (m ≫= λ a, f a ≫= g) t = ((m ≫= f) ≫= g) t.
Proof. unfold mbind, TM_bind. by destruct (m t). Qed.

Lemma safe_run {A} (f : UPSCONN -> option (A * UPSCONN)) t a c :
  f (t_conn t) = Some (a, c) -> on_conn_safe f t = Done a (set_t_conn t c).
Proof. intros Hf. unfold on_conn_safe, get_conn, put_conn, mbind, TM_bind. by rewrite Hf. Qed.

Lemma fine_bind {A B} (m : TM A) (f : A -> TM B) : fine m -> (forall a, fine (f a)) -> fine (m ≫= f).
Proof.
  intros Hm Hf t Ht. specialize (Hm t Ht). unfold ends, mbind, TM_bind in *. destruct (m t) as [a t'| | |]; try done.
  by apply Hf.
Qed.

Lemma prints_bind {A B} (m : TM A) (f : A -> TM B) : prints m -> (forall a, prints (f a)) -> prints (m ≫= f).
Proof.
  intros Hm Hf t. specialize (Hm t). unfold ends, mbind, TM_bind in *. destruct (m t) as [a t'| | |]; try done.
  specialize (Hf a t'). unfold ends in Hf. destruct (f a t'); congruence.
Qed.

Lemma fine_on_conn {A} (f : UPSCONN -> A * UPSCONN) : (forall c, conn_wf c -> conn_wf (f c).2) -> fine (on_conn f).
Proof.
  intros Hf t Ht. unfold ends, on_conn, get_conn, mbind, TM_bind, put_conn. specialize (Hf _ Ht).
  by destruct (f (t_conn t)).
Qed.

Lemma fine_on_conn_safe {A} (f : UPSCONN -> option (A * UPSCONN)) :
  (forall c r c', conn_wf c -> f c = Some (r, c') -> conn_wf c') -> fine (on_conn_safe f).
Proof.
  intros Hf t Ht. unfold ends, on_conn_safe, get_conn, mbind, TM_bind. specialize (Hf (t_conn t)).
  destruct (f (t_conn t)) as [[r c']|]; [|done]. unfold put_conn. by apply (Hf r).
Qed.

Lemma while_next_fine {A} fuel q ret (a : A) body :
  (forall a, prints (body a)) ->
  forall t, conn_wf (t_conn t) -> (pending (t_conn t) < fuel)%nat ->
  ends (fun _ t' => conn_wf (t_conn t')) (while_next fuel q ret a body) t.
Proof.
  intros Hbody. revert ret a. induction fuel as [|fuel IH]; intros ret a t Ht Hf; [lia|]. cbn [while_next].
  case_match; [|done]. pose proof (Hbody a t) as Hb. unfold ends in *. unfold mbind at 1, TM_bind at 1.
  destruct (body a t) as [a' t'| | |]; try done.
  unfold list_next, on_conn_safe, get_conn, mbind, TM_bind. rewrite Hb.
  destruct (upscli_list_next (t_conn t) q) as [[r c']|] eqn:E; [|done].
  destruct (list_next_pending _ _ _ _ Ht E) as [Hw Hp]. unfold put_conn.
  destruct (Z.eq_dec r 1) as [->|Hr].
  - apply IH; simpl; [done|]. specialize (Hp eq_refl). lia.
  - apply Z.eqb_neq in Hr. destruct fuel; cbn; by rewrite Hr.
Qed.

Lemma answers_fine {A} q ret (a : A) body : (forall a, prints (body a)) -> fine (answers q ret a body).
Proof.
  intros Hb t Ht. unfold answers, get_conn, ends, mbind, TM_bind. apply while_next_fine; [done|done|lia].
Qed.

Create HintDb tool.

(** What only prints, or looks at the state. *)
Lemma prints_ret {A} (a : A) : prints (mret a).
Proof. done. Qed.
Lemma prints_puts s : prints (puts s).
Proof. done. Qed.
Lemma prints_eputs s : prints (eputs s).
Proof. done. Qed.
Lemma prints_exit {A} n : prints (exit (A:=A) n).
Proof. done. Qed.
Lemma prints_undefined {A} : prints (undefined (A:=A)).
Proof. done. Qed.
Lemma prints_get_conn : prints get_conn.
Proof. done. Qed.
Lemma prints_numa : prints numa.
Proof. done. Qed.
Lemma prints_strerror : prints strerror.
Proof. done. Qed.
Lemma prints_upserror : prints upserror.
Proof. done. Qed.
Lemma prints_time : prints time.
Proof. done. Qed.
Lemma prints_sleep1 : prints sleep1.
Proof. done. Qed.
Lemma prints_fgets n : prints (fgets n).
Proof. intros t. unfold ends, fgets. destruct (t_stdin t); [done|]. by destruct (fgets_take _ _). Qed.
Lemma prints_answer k : prints (answer k).
Proof. intros t. unfold ends, answer, get_conn, mbind, TM_bind. by destruct (_ !! k). Qed.
Lemma prints_fatalx {A} n msg : prints (fatalx (A:=A) n msg).
Proof. done. Qed.
#[export] Hint Resolve prints_ret prints_puts prints_eputs prints_exit prints_undefined prints_get_conn prints_numa
  prints_strerror prints_upserror prints_time prints_sleep1 prints_fgets prints_answer prints_fatalx : tool.

(** The calls of the library. *)
Lemma get_wf c q r c' : conn_wf c -> upscli_get c q = Some (r, c') -> conn_wf c'.
Proof.
  intros Hc. unfold upscli_get. pose proof (query_wf c ($"GET") q Hc) as [Hw _].
  destruct (upscli_query c _ q) as [ok c1]. cbn [fst snd] in *.
  repeat case_match; intros; simplify_eq; auto with nut.
Qed.

Lemma list_start_wf c q r c' : conn_wf c -> upscli_list_start c q = Some (r, c') -> conn_wf c'.
Proof.
  intros Hc. unfold upscli_list_start. pose proof (query_wf c ($"LIST") q Hc) as [Hw _].
  destruct (upscli_query c _ q) as [ok c1]. cbn [fst snd] in *.
  repeat case_match; intros; simplify_eq; auto with nut.
Qed.

Lemma expect_ok_wf c line : conn_wf c -> conn_wf (expect_ok c line).2.
Proof.
  intros Hc. unfold expect_ok. pose proof (sendline_wf c line Hc) as H1.
  destruct (upscli_sendline c line) as [r1 c1]. cbn [snd] in H1. case_match; [done|].
  pose proof (readline_wf c1 UPSCLI_NETBUF_LEN H1) as H2.
  destruct (upscli_readline c1 _) as [[r2 buf] c2]. cbn [snd] in H2. case_match; [done|].
  pose proof (errcheck_wf c2 buf H2) as H3. destruct (upscli_errcheck c2 buf) as [r3 c3]. cbn [snd] in H3.
  repeat case_match; simpl; auto with nut.
Qed.

Lemma authenticate_wf c u p : conn_wf c -> conn_wf (upscli_authenticate c u p).2.
Proof.
  intros Hc. unfold upscli_authenticate. destruct u as [u|], p as [p|]; try done.
  pose proof (expect_ok_wf c (snprintf_s UPSCLI_NETBUF_LEN ($"USERNAME " ++ u ++ [LF])) Hc) as H1.
  destruct (expect_ok c _) as [r c1]. cbn [snd] in H1. case_match; [done|]. by apply expect_ok_wf.
Qed.

Lemma fresh_wf net h port fd : conn_wf (mkUpsconn h port fd 0 UPSCLIENT_MAGIC pconf_init (cn_readbuf fresh_conn) 0 0 net).
Proof.
  split; simpl; try (unfold READBUF_LEN; lia). right. split_and!; try done. apply pconf_init_wf.
Qed.

Lemma fresh_conn_wf : conn_wf fresh_conn.
Proof. split; simpl; try (unfold READBUF_LEN; lia). by left. Qed.

Lemma tryconnect_wf dial cert host port flags : conn_wf (upscli_tryconnect dial cert host port flags).2.
Proof.
  unfold upscli_tryconnect. destruct host as [h|]; [|apply upserror_wf, fresh_conn_wf].
  destruct dial as [fd net|e]; [|apply upserror_wf, fresh_conn_wf]. cbv zeta.
  set (c := mkUpsconn _ _ _ _ _ _ _ _ _ _). assert (conn_wf c) as Hc by apply fresh_wf. clearbody c.
  repeat case_match; cbn [snd]; auto with nut.
Qed.

Lemma fine_get q : fine (get q).
Proof. apply fine_on_conn_safe. intros c r c'. apply get_wf. Qed.
Lemma fine_list_start q : fine (list_start q).
Proof. apply fine_on_conn_safe. intros c r c'. apply list_start_wf. Qed.
Lemma fine_list_next q : fine (list_next q).
Proof. apply fine_on_conn_safe. intros c r c' Hc E. by destruct (list_next_pending _ _ _ _ Hc E). Qed.
Lemma fine_sendline l : fine (sendline l).
Proof. apply fine_on_conn. intros c. apply sendline_wf. Qed.
Lemma fine_readline n : fine (readline n).
Proof. apply fine_on_conn. intros c. apply readline_wf. Qed.
Lemma fine_authenticate u p : fine (on_conn (fun c => upscli_authenticate c u p)).
Proof. apply fine_on_conn. intros c. apply authenticate_wf. Qed.
Lemma fine_connect st h p : fine (connect st h p).
Proof.
  intros t _. unfold ends, connect. pose proof (tryconnect_wf (st_dial st) (st_hostcert st) h p (st_flags st)) as Hw.
  by destruct (upscli_tryconnect _ _ _ _ _).
Qed.
Lemma fine_upserror_set {A} (a : A) e : fine (on_conn (fun c => (a, set_cn_upserror c e))).
Proof. apply fine_on_conn. intros c. apply upserror_wf. Qed.
Lemma fine_ask_password : fine ask_password.
Proof. intros t Ht. unfold ends, ask_password. destruct (t_getpass t); [exact Ht|]. by apply upserror_wf. Qed.
#[export] Hint Resolve fine_get fine_list_start fine_list_next fine_sendline fine_readline fine_authenticate fine_connect
  fine_upserror_set fine_ask_password : tool.

(** A program is taken apart along its binds and cases. *)
Ltac prints_tac :=
  repeat first
    [ solve [auto with tool]
    | apply prints_bind; [|intros ?]
    | progress cbv zeta
    | case_match ].
Ltac fine_tac :=
  repeat first
    [ solve [auto with tool]
    | solve [apply prints_fine; prints_tac]
    | apply answers_fine; intros ?; prints_tac
    | apply fine_bind; [|intros ?]
    | progress cbv zeta
    | case_match ].

Lemma prints_json_member n v : prints (json_member n v).
Proof. unfold json_member, json_print_esc. prints_tac. Qed.
Lemma prints_show_var json first : prints (show_var json first).
Proof. unfold show_var, list_vars_error, when_json, separate, json_print_esc, json_member, json_print_esc. prints_tac. Qed.
Lemma prints_show_ups json verbose first : prints (show_ups json verbose first).
Proof. unfold show_ups, when_json, separate, json_element, json_member, json_print_esc. prints_tac. Qed.
Lemma prints_show_client json first : prints (show_client json first).
Proof. unfold show_client, when_json, separate, json_element, json_print_esc. prints_tac. Qed.
Lemma prints_keep_name need said names : prints (keep_name need said names).
Proof. unfold keep_name. prints_tac. Qed.
#[export] Hint Resolve prints_show_var prints_show_ups prints_show_client prints_keep_name : tool.

Lemma fine_error {A} json simple msg : fine (fatalx_error_json_simple (A:=A) json simple msg).
Proof. unfold fatalx_error_json_simple, when_json, json_print_esc. fine_tac. Qed.
#[export] Hint Resolve fine_error : tool.

Lemma upsc_run_fine o st argv : fine (upsc_run o st argv).
Proof.
  unfold upsc_run, list_upses, list_clients, printvar, list_vars, list_vars_error, request_error, when_json, json_print_esc.
  fine_tac.
Qed.

(** ** Waiting for a result *)

(** A call of the library does not touch the clock. *)
Lemma sendline_run l t :
  sendline l t = Done (upscli_sendline (t_conn t) l).1 (set_t_conn t (upscli_sendline (t_conn t) l).2).
Proof.
  unfold sendline, on_conn, get_conn, put_conn, mbind, TM_bind. by destruct (upscli_sendline (t_conn t) l).
Qed.

(** The time that the next read with a time limit takes. *)
Definition next_wait (t : term) : nat := match t_waits t with [] => 0%nat | w :: _ => w end.

Lemma readline_timeout_run n t :
  readline_timeout n t
  = Done (upscli_readline (t_conn t) n).1
      (set_t_conn (set_t_clock t (t_now t + Z.of_nat (next_wait t)) (tail (t_waits t))) (upscli_readline (t_conn t) n).2).
Proof.
  unfold readline_timeout, on_conn, get_conn, put_conn, mbind, TM_bind, next_wait.
  change (upscli_readline_timeout (t_conn t) n) with (upscli_readline (t_conn t) n).
  destruct (t_waits t); cbn [t_conn set_t_clock tail];
    change (upscli_readline_timeout (t_conn t) n) with (upscli_readline (t_conn t) n);
    by destruct (upscli_readline (t_conn t) n) as [[r b] c].
Qed.

(** Each round of the wait takes a second of what is left. *)
Lemma tracking_loop_fine fuel timeout start id t :
  conn_wf (t_conn t) -> (0 < fuel)%nat -> timeout - (t_now t - start) < Z.of_nat fuel ->
  ends (fun _ t' => conn_wf (t_conn t')) (tracking_loop fuel timeout start id) t.
Proof.
  revert t. induction fuel as [|fuel IH]; intros t Ht H0 Hf; [lia|].
  cbn [tracking_loop]. unfold ends, mbind at 1, TM_bind at 1, time.
  destruct (Z.leb_spec timeout (t_now t - start)); [done|].
  unfold mbind at 1, TM_bind at 1. rewrite sendline_run.
  set (line := snprintf_s SMALLBUF _). pose proof (sendline_wf (t_conn t) line Ht) as H1.
  destruct (upscli_sendline (t_conn t) line) as [r1 c1]. cbn [fst snd] in *. destruct (r1 <? 0); [done|].
  unfold mbind at 1, TM_bind at 1. rewrite readline_timeout_run. cbn [t_conn set_t_conn].
  pose proof (readline_wf c1 SMALLBUF H1) as H2.
  destruct (upscli_readline c1 SMALLBUF) as [[r2 buf] c2]. cbn [fst snd] in *. destruct (r2 <? 0); [done|].
  destruct (negb (strncmp buf ($"PENDING") 7 =? 0)); [exact H2|].
  unfold mbind at 1, TM_bind at 1, sleep1. apply IH; [exact H2|lia|]. simpl. lia.
Qed.

Lemma await_result_fine tracking timeout buf : fine (await_result tracking timeout buf).
Proof.
  unfold await_result. case_match; [fine_tac|]. case_match; [fine_tac|]. cbv zeta. intros t Ht.
  unfold ends, mbind at 1, TM_bind at 1, time. unfold mbind at 1, TM_bind at 1.
  set (id := snprintf_s UUID4_LEN _).
  pose proof (tracking_loop_fine (S (Z.to_nat timeout)) timeout (t_now t) id t Ht ltac:(lia) ltac:(lia)) as Hl.
  unfold ends in Hl. by destruct (tracking_loop _ _ _ _ t).
Qed.

Lemma each_fine {A} (l : list A) f : (forall x, fine (f x)) -> fine (each l f).
Proof. intros Hf. induction l as [|x l IH]; simpl; [fine_tac|]. by apply fine_bind. Qed.

Lemma fine_ask a b l n : fine (ask a b l n).
Proof. unfold ask. fine_tac. Qed.
#[export] Hint Resolve await_result_fine fine_ask : tool.

Lemma fine_list_names q need : fine (list_names q need).
Proof. unfold list_names. fine_tac. Qed.
Lemma fine_print_cmd u c : fine (print_cmd u c).
Proof. unfold print_cmd. fine_tac. Qed.
Lemma fine_get_data u k v : fine (get_data u k v).
Proof. unfold get_data. fine_tac. Qed.
#[export] Hint Resolve fine_list_names fine_print_cmd fine_get_data : tool.

Lemma fine_current_value u w v : fine (current_value u w v).
Proof. unfold current_value. fine_tac. Qed.
Lemma fine_start_list q : fine (start_list q).
Proof. unfold start_list. fine_tac. Qed.
#[export] Hint Resolve fine_current_value fine_start_list : tool.

Lemma fine_do_enum u v k n : fine (do_enum u v k n).
Proof. unfold do_enum. fine_tac. Qed.
Lemma fine_do_range u v : fine (do_range u v).
Proof. unfold do_range. fine_tac. Qed.
Lemma fine_do_string u v n : fine (do_string u v n).
Proof. unfold do_string. fine_tac. Qed.
Lemma fine_do_number u v : fine (do_number u v).
Proof. unfold do_number. fine_tac. Qed.
#[export] Hint Resolve fine_do_enum fine_do_range fine_do_string fine_do_number : tool.

Lemma fine_type_words u v e ws : fine (type_words u v e ws).
Proof. revert e. induction ws as [|w ws IH]; intros e; cbn [type_words]; fine_tac. Qed.
#[export] Hint Resolve fine_type_words : tool.

Lemma fine_print_rw u v : fine (print_rw u v).
Proof. unfold print_rw, do_type. fine_tac. Qed.

Lemma fine_asking pw u p : fine (authenticate_asking pw u p).
Proof. unfold authenticate_asking, ask_username. fine_tac. Qed.
#[export] Hint Resolve fine_asking : tool.

Lemma fine_login st o m : fine m -> fine (authenticate st o m).
Proof. intros Hm. unfold authenticate. fine_tac. Qed.

Lemma fine_call_server st a : fine (call_server st a).
Proof. unfold call_server. fine_tac. Qed.
Lemma fine_tracking what : fine (enable_tracking what).
Proof. unfold enable_tracking. fine_tac. Qed.
Lemma fine_new_value v : fine (new_value v).
Proof. unfold new_value. fine_tac. Qed.
#[export] Hint Resolve fine_call_server fine_tracking fine_new_value : tool.

Lemma fine_listcmds u : fine (listcmds u).
Proof.
  unfold listcmds. apply fine_bind; [fine_tac|]. intros names. apply fine_bind; [fine_tac|]. intros [].
  apply each_fine. auto with tool.
Qed.
#[export] Hint Resolve fine_listcmds : tool.

Lemma upscmd_run_fine cmdlist o st argv : fine (upscmd_run cmdlist o st argv).
Proof.
  unfold upscmd_run, do_cmd, show_help. destruct argv as [|a argv]; [fine_tac|]. apply fine_bind; [fine_tac|].
  intros u. destruct cmdlist; [fine_tac|].
  destruct argv as [|c vs]; [fine_tac|]. case_match; [fine_tac|].
  apply fine_bind; [apply fine_login; unfold set_array; fine_tac|intros []; fine_tac].
Qed.

Lemma upsrw_run_fine setvar o st argv : fine (upsrw_run setvar o st argv).
Proof.
  unfold upsrw_run, do_setvar, do_set, print_rwlist, show_help. destruct argv as [|a argv]; [fine_tac|].
  apply fine_bind; [fine_tac|]. intros u. destruct setvar as [v|].
  - apply fine_bind; [by apply fine_login; fine_tac|intros []; fine_tac].
  - apply fine_bind; [fine_tac|]. intros names. apply each_fine. intros v. apply fine_print_rw.
Qed.

Lemma main_ends (m : TM unit) t : fine m -> clean_exit (m (set_t_conn t fresh_conn)) <> NoEnd.
Proof.
  intros Hm. specialize (Hm (set_t_conn t fresh_conn) fresh_conn_wf). unfold ends in Hm. by destruct (m _).
Qed.

