(* ===== verification/ClientsEnd.v ===== *)
(** * From the server's data to what upsc shows, and from upsrw to the driver

    A reader of JSON objects as the specification of upsc -j; the listing of a UPS from the server's tree to the terminal;
    a setting from the command line to the line that the driver gets; results of settings. *)

From S2P Require Import Prelude CStr ParseConf ParseConfFacts StateTree StateFacts Users Desc Tracking World SState Upsd NetGet NetList.
From S2P Require Import NetUser NetSet Server ServerLib ServerFacts ListFacts ServerInv ProtoLines EndToEnd UpsClient UpsClientFacts.
From S2P Require Import ListenFacts Clients ClientsSet ClientsFacts.
From stdpp Require Import options.

(** ** JSON *)

Definition hex_val (c : ascii) : option Z :=
  let z := code c in
  if (48 <=? z) && (z <=? 57) then Some (z - 48)
  else if (97 <=? z) && (z <=? 102) then Some (z - 87)
  else if (65 <=? z) && (z <=? 70) then Some (z - 55)
  else None.

(** the character of an escape sequence \uXXXX below 256, and of the short ones *)
Definition json_hex4 (a b c d : ascii) : option ascii :=
  a ← hex_val a; b ← hex_val b; c ← hex_val c; d ← hex_val d;
  let z := ((a * 16 + b) * 16 + c) * 16 + d in
  if z <? 256 then Some (chr z) else None.
Definition json_short (c : ascii) : option ascii :=
  (fun p => p.2) <$> find (fun p => Ascii.eqb p.1 c)
    [(chr 34, chr 34); (chr 92, chr 92); (chr 47, chr 47); (chr 98, chr 8); (chr 102, chr 12); (chr 110, chr 10);
     (chr 114, chr 13); (chr 116, chr 9)].

(** The string whose opening quote was read, and what follows its closing quote; control characters must be escaped. *)
Fixpoint json_string (s : bytes) : option (bytes * bytes) :=
  match s with
  | [] => None
  | x :: s =>
      if Ascii.eqb x (chr 34) then Some ([], s)
      else if Ascii.eqb x (chr 92) then
        match s with
        | [] => None
        | y :: s' =>
            if Ascii.eqb y (chr 117) then
              match s' with
              | a :: b :: c :: d :: s'' =>
                  z ← json_hex4 a b c d; '(t, r) ← json_string s''; Some (z :: t, r)
              | _ => None
              end
            else z ← json_short y; '(t, r) ← json_string s'; Some (z :: t, r)
        end
      else if code x <? 32 then None
      else '(t, r) ← json_string s; Some (x :: t, r)
  end.

Definition json_space (c : ascii) : bool := existsb (Ascii.eqb c) [chr 32; chr 9; chr 10; chr 13].
Fixpoint json_skip (s : bytes) : bytes :=
  match s with c :: s' => if json_space c then json_skip s' else s | [] => [] end.

(** After white space: the given character, and what follows it *)
Definition json_char (z : Z) (s : bytes) : option bytes :=
  match json_skip s with c :: s => if Ascii.eqb c (chr z) then Some s else None | [] => None end.

(** A member, and what follows it *)
Definition json_one (s : bytes) : option (bytes * bytes * bytes) :=
  s ← json_char 34 s; '(name, s) ← json_string s;
  s ← json_char 58 s; s ← json_char 34 s; '(val, s) ← json_string s; Some (name, val, s).

(** Members up to the closing brace, of which there are at most [fuel] *)
Fixpoint json_members (fuel : nat) (s : bytes) : option (list (bytes * bytes) * bytes) :=
  match fuel with
  | O => None
  | S fuel =>
      '(p, s) ← json_one s;
      match json_char 44 s with
      | Some s => '(l, s) ← json_members fuel s; Some (p :: l, s)
      | None => s ← json_char 125 s; Some ([p], s)
      end
  end.

(** A text that is one object whose members are strings *)
Definition json_object (s : bytes) : option (list (bytes * bytes)) :=
  r ← json_char 123 s;
  '(l, r) ← match json_char 125 r with Some r => Some ([], r) | None => json_members (length s) r end;
  match json_skip r with [] => Some l | _ => None end.

Example json_ex1 : json_object ($"{" ++ quoted ($"a") ++ $": " ++ quoted ($"\u0041\n") ++ $"}")
  = Some [($"a", $"A" ++ [LF])].
Proof. reflexivity. Qed.

Lemma json_esc_char_back c rest :
  json_string (json_esc_char c ++ rest) = ('(t, r) ← json_string rest; Some (c :: t, r)).
Proof.
  destruct (decide (code c < 32)) as [Hlt|Hge].
  - assert (c ∈ map chr (map Z.of_nat (seq 0 32))) as Hin.
    { apply list_elem_of_In, in_map_iff. exists (code c). split; [apply chr_code|].
      apply in_map_iff. exists (Z.to_nat (code c)). pose proof (code_range c). split; [lia|]. apply in_seq. lia. }
    assert (Forall (fun c => json_string (json_esc_char c ++ rest) = ('(t, r) ← json_string rest; Some (c :: t, r)))
      (map chr (map Z.of_nat (seq 0 32)))) as Hall by repeat constructor.
    rewrite Forall_forall in Hall. by apply Hall.
  - unfold json_esc_char.
    destruct (Ascii.eqb_spec c (chr 34)) as [->|H1]; [done|]. destruct (Ascii.eqb_spec c (chr 92)) as [->|H2]; [done|].
    repeat match goal with |- context [Ascii.eqb c ?d] =>
      destruct (Ascii.eqb_spec c d) as [->|_]; [by vm_compute in Hge|] end.
    destruct (Z.ltb_spec (code c) 32); [lia|]. cbn [app json_string].
    destruct (Ascii.eqb_spec c (chr 34)); [done|]. destruct (Ascii.eqb_spec c (chr 92)); [done|].
    destruct (Z.ltb_spec (code c) 32); [lia|]. done.
Qed.

(** A string printed by [json_print_esc] reads back, whatever its bytes. *)
Lemma json_esc_back s rest : json_string (json_esc s ++ chr 34 :: rest) = Some (s, rest).
Proof.
  induction s as [|c s IH]; [done|]. cbn [json_esc flat_map]. rewrite <- app_assoc, json_esc_char_back.
  change (flat_map json_esc_char s) with (json_esc s). by rewrite IH.
Qed.

(** ** Reading a list *)

Lemma streq_neq a b : a <> b -> streq a b = false.
Proof. intros. rewrite streq_spec. by apply bool_decide_eq_false. Qed.

(** A row repeats the words of the request. *)
Lemma list_next_row c q ts ws rest more :
  usable c -> q <> [] -> nth 0 q [] <> $"END" -> map token_word ts = q ++ ws ->
  Forall (token_ok PCONF_DEFAULT_WORDLEN_LIMIT) ts -> (length ts <= PCONF_DEFAULT_ARG_LIMIT)%nat ->
  (length (render ts) < UPSCLI_NETBUF_LEN - 1)%nat -> strncmp (render ts) ($"ERR") 3 <> 0 ->
  delivers c (render ts ++ LF :: rest) more ->
  exists c', upscli_list_next c q = Some (1, c') /\ usable c' /\ delivers c' rest more
    /\ args (cn_ctx c') = q ++ ws /\ p_numargs (cn_ctx c') = length (q ++ ws)
    /\ nt_sent (cn_net c') = nt_sent (cn_net c).
Proof.
  intros Hu Hne Hend Hw Hts Hn Hl Herr Hd.
  destruct (line_words c ts rest more Hu Hd Hts Hn Hl Herr)
    as (c2 & ctx & Hr & He & Hp & Hctx & Hu2 & Ha & Hwf & Hd2 & Hsent). rewrite Hw in Ha.
  exists (set_cn_ctx c2 ctx). pose proof (args_length _ Hwf) as Hlen. rewrite Ha in Hlen.
  split_and!; try done. unfold upscli_list_next.
  rewrite Hr. cbn [Z.eqb negb]. rewrite He. cbn [Z.eqb negb]. rewrite Hp. cbn [Z.eqb].
  destruct (args_arglist _ _ Ha) as [tl Htl]. rewrite <- Hlen, Htl. destruct q as [|x q]; [done|].
  destruct (Nat.ltb_spec (length ((x :: q) ++ ws)) 1); [simpl in *; lia|].
  cbn [app nth] in *. rewrite (streq_neq x) by done. rewrite andb_false_r. cbn [andb].
  pose proof (verify_resp_prefix (x :: q) (ws ++ tl)) as Hv. cbn [app] in Hv. by rewrite <- app_assoc, Hv.
Qed.

Definition end_list (q : list bytes) : list token := Bare <$> ([$"END"; $"LIST"] ++ q).
Definition begin_list (q : list bytes) : list token := Bare <$> ([$"BEGIN"; $"LIST"] ++ q).

Lemma bare_words_map q : map token_word (Bare <$> q) = q.
Proof. induction q as [|x q IH]; [done|]. cbn. by rewrite IH. Qed.

Lemma bare_words_ok q (lits : list bytes) :
  bare_words q -> Forall (fun w => token_ok PCONF_DEFAULT_WORDLEN_LIMIT (Bare w)) lits ->
  Forall (token_ok PCONF_DEFAULT_WORDLEN_LIMIT) (Bare <$> (lits ++ q)).
Proof. intros Hq Hl. rewrite fmap_app, Forall_app. split; [by rewrite Forall_fmap|done]. Qed.

Lemma list_next_end c q rest more :
  usable c -> bare_words q -> (2 + length q <= PCONF_DEFAULT_ARG_LIMIT)%nat ->
  (length (render (end_list q)) < UPSCLI_NETBUF_LEN - 1)%nat ->
  delivers c (render (end_list q) ++ LF :: rest) more ->
  exists c', upscli_list_next c q = Some (0, c') /\ usable c' /\ delivers c' rest more
    /\ nt_sent (cn_net c') = nt_sent (cn_net c).
Proof.
  intros Hu Hq Hn Hl Hd.
  assert (Forall (token_ok PCONF_DEFAULT_WORDLEN_LIMIT) (end_list q)) as Hok.
  { apply bare_words_ok; [done|]. apply (bool_decide_unpack _). vm_compute. exact I. }
  assert (length (end_list q) <= PCONF_DEFAULT_ARG_LIMIT)%nat as Hn' by (unfold end_list; rewrite length_fmap; done).
  destruct (line_words c (end_list q) rest more Hu Hd Hok Hn' Hl)
    as (c2 & ctx & Hr & He & Hp & Hctx & Hu2 & Ha & Hwf & Hd2 & Hsent).
  { unfold end_list. cbn [app]. rewrite render_bare_cons. cbn. discriminate. }
  unfold end_list in Ha. rewrite bare_words_map in Ha.
  exists (set_cn_ctx c2 ctx). pose proof (args_length _ Hwf) as Hlen. rewrite Ha in Hlen.
  split_and!; try done. unfold upscli_list_next.
  rewrite Hr. cbn [Z.eqb negb]. rewrite He. cbn [Z.eqb negb]. rewrite Hp. cbn [Z.eqb].
  destruct (args_arglist _ _ Ha) as [tl Htl]. rewrite <- Hlen, Htl. reflexivity.
Qed.

Lemma list_start_answers c q rest more :
  usable c -> q <> [] -> bare_words ($"LIST" :: q) -> (2 + length q <= PCONF_DEFAULT_ARG_LIMIT)%nat ->
  (length (render (Bare <$> ($"LIST" :: q))) < UPSCLI_NETBUF_LEN - 1)%nat ->
  (length (render (begin_list q)) < UPSCLI_NETBUF_LEN - 1)%nat ->
  delivers c (render (begin_list q) ++ LF :: rest) more ->
  exists c', upscli_list_start c q = Some (0, c') /\ usable c' /\ delivers c' rest more
    /\ nt_sent (cn_net c') = nt_sent (cn_net c) ++ [render (Bare <$> ($"LIST" :: q)) ++ [LF]].
Proof.
  intros Hu Hne Hq Hn Hql Hl Hd.
  assert (bare_words q) as Hq'.
  { unfold bare_words in *. rewrite fmap_cons, Forall_cons in Hq. apply Hq. }
  destruct (query_answer c ($"LIST") q (begin_list q) rest more) as (c' & Hqr & Hu' & Ha & _ & Hwf & Hd' & Hsent);
    [done..| | |done| |].
  { apply bare_words_ok; [done|]. apply (bool_decide_unpack _). vm_compute. exact I. }
  { unfold begin_list. by rewrite length_fmap. }
  { unfold begin_list. cbn [app]. rewrite render_bare_cons. cbn. discriminate. }
  unfold begin_list in Ha. rewrite bare_words_map in Ha. exists c'. split_and!; try done.
  pose proof (args_length _ Hwf) as Hlen. rewrite Ha in Hlen. destruct (args_arglist _ _ Ha) as [tl Htl].
  unfold upscli_list_start. destruct (Nat.ltb_spec (length q) 1); [destruct q; simpl in *; [done|lia]|].
  rewrite Hqr. cbn [negb]. rewrite Htl, <- Hlen. cbn [app length Nat.ltb Nat.leb].
  assert (strcaseeq ($"BEGIN") ($"BEGIN") = true) as -> by done.
  assert (strcaseeq ($"LIST") ($"LIST") = true) as -> by done. cbn [negb orb].
  by rewrite verify_resp_prefix.
Qed.

(** A row of the answer to the list request [q] that the client can read. *)
Definition row_ok (q : list bytes) (ts : list token) : Prop :=
  take (length q) (map token_word ts) = q /\ Forall (token_ok PCONF_DEFAULT_WORDLEN_LIMIT) ts
  /\ (length ts <= PCONF_DEFAULT_ARG_LIMIT)%nat /\ (length (render ts) < UPSCLI_NETBUF_LEN - 1)%nat
  /\ strncmp (render ts) ($"ERR") 3 <> 0.

#[export] Instance row_ok_dec q ts : Decision (row_ok q ts).
Proof. unfold row_ok. apply _. Defined.

(** The lines of a list *)
Definition rows_lines (rows : list (list token)) : bytes := concat (map (fun ts => render ts ++ [LF]) rows).
Definition list_lines (q : list bytes) (rows : list (list token)) : bytes :=
  render (begin_list q) ++ LF :: rows_lines rows ++ render (end_list q) ++ [LF].

Lemma delivers_pending c s more : conn_wf c -> delivers c s more -> (length s <= pending c)%nat.
Proof.
  intros [_ Hi Hl _] (chunks & _ & Hr & <-). rewrite pending_unread. unfold unread. rewrite Hr, map_app, concat_app.
  rewrite map_map, map_id. unfold buffered. rewrite !length_app, length_drop, length_take. lia.
Qed.

(** What a loop over a list prints: [body] shows the words of a row. *)
Section loop.
Context {A : Type} (q : list bytes) (body : A -> TM A) (nxt : A -> list token -> A) (out : A -> list token -> bytes)
  (ok : list token -> Prop).
Context (tl : bytes) (more : list read_result) (sent0 : list bytes) (E : UPSCONN -> Prop).
Hypothesis q_words : q <> [] /\ nth 0 q [] <> $"END".
Hypothesis list_ends : forall c, usable c -> delivers c tl more -> nt_sent (cn_net c) = sent0 ->
  exists r c', upscli_list_next c q = Some (r, c') /\ r <> 1 /\ E c'.
Hypothesis ok_row : forall ts, ok ts -> row_ok q ts.
Hypothesis body_shows : forall a ts t, ok ts -> args (cn_ctx (t_conn t)) = map token_word ts ->
  pconf_wf (cn_ctx (t_conn t)) -> body a t = Done (nxt a ts) (set_t_stdout t (t_stdout t ++ out a ts)).

Fixpoint outs (a : A) (rows : list (list token)) : bytes :=
  match rows with [] => [] | ts :: rows => out a ts ++ outs (nxt a ts) rows end.

Definition fold_rows (a : A) (rows : list (list token)) : A := fold_left nxt rows a.

Lemma while_next_shows rows : forall fuel a t,
  usable (t_conn t) -> nt_sent (cn_net (t_conn t)) = sent0 -> Forall ok rows -> (length rows <= fuel)%nat ->
  delivers (t_conn t) (rows_lines rows ++ tl) more ->
  exists c', (ret ← list_next q; while_next fuel q ret a body) t
      = Done (fold_rows a rows) (set_t_stdout (set_t_conn t c') (t_stdout t ++ outs a rows))
    /\ E c'.
Proof using q_words list_ends ok_row body_shows.
  destruct q_words as [Hne Hend].
  induction rows as [|ts rows IH]; intros fuel a t Hu Hs0 Hrows Hfuel Hd.
  - destruct (list_ends (t_conn t) Hu Hd Hs0) as (r & c' & Hr & Hr1%Z.eqb_neq & HE).
    exists c'. split; [|done]. rewrite (bind_done _ _ t r (set_t_conn t c')) by (by apply safe_run).
    cbn [outs fold_rows fold_left]. rewrite app_nil_r. destruct t, fuel; cbn; by rewrite Hr1.
  - destruct fuel as [|fuel]; [simpl in Hfuel; lia|]. apply Forall_cons in Hrows as [Hts Hrows].
    destruct (ok_row ts Hts) as (Hw & Hok & Hlen & Hsh & Herr).
    assert (q ++ drop (length q) (map token_word ts) = map token_word ts) as Hsplit
      by (rewrite <- Hw at 1; apply take_drop).
    change (rows_lines (ts :: rows)) with ((render ts ++ [LF]) ++ rows_lines rows) in Hd.
    rewrite <- !app_assoc in Hd. cbn [app] in Hd.
    destruct (list_next_row (t_conn t) q ts (drop (length q) (map token_word ts))
      (rows_lines rows ++ tl) more) as (c1 & Hr & Hu1 & Hd1 & Ha & _ & Hs1); try done.
    rewrite Hsplit in Ha.
    assert (pconf_wf (cn_ctx c1)) as Hwf1.
    { destruct Hu1 as ([Hcx _ _ _] & _ & _ & Hmag & _). destruct Hcx as [?|[? _]]; done. }
    set (t1 := set_t_stdout (set_t_conn t c1) (t_stdout t ++ out a ts)).
    destruct (IH fuel (nxt a ts) t1 Hu1) as (c' & Hrun & HE); [by rewrite <- Hs0, <- Hs1|done|simpl in Hfuel; lia|done|].
    exists c'. split; [|done].
    unfold list_next at 1, on_conn_safe, get_conn, put_conn. unfold mbind at 1 2 3, TM_bind. rewrite Hr.
    cbn [mret TM_ret while_next Z.eqb Pos.eqb]. unfold mbind at 1, TM_bind at 1.
    rewrite (body_shows a ts) by done. fold t1.
    change (t_stdout (set_t_conn t c1)) with (t_stdout t). fold t1. rewrite Hrun. cbn [outs fold_rows fold_left].
    unfold t1. cbn. by rewrite <- app_assoc.
Qed.

Lemma answers_show rows a t :
  usable (t_conn t) -> nt_sent (cn_net (t_conn t)) = sent0 -> Forall ok rows ->
  delivers (t_conn t) (rows_lines rows ++ tl) more ->
  exists c', (ret ← list_next q; answers q ret a body) t
      = Done (fold_rows a rows) (set_t_stdout (set_t_conn t c') (t_stdout t ++ outs a rows))
    /\ E c'.
Proof using q_words list_ends ok_row body_shows.
  intros Hu Hs0 Hrows Hd. destruct q_words as [Hne Hend].
  assert (forall c r, upscli_list_next (t_conn t) q = Some (r, c) -> (length rows <= S (pending c))%nat) as Hfuel.
  { intros c r. destruct rows as [|ts rows]; [simpl; lia|]. apply Forall_cons in Hrows as [(Hw & Hok & Hlen & Hsh & Herr)%ok_row _].
    assert (q ++ drop (length q) (map token_word ts) = map token_word ts) as Hsplit
      by (rewrite <- Hw at 1; apply take_drop).
    change (rows_lines (ts :: rows)) with ((render ts ++ [LF]) ++ rows_lines rows) in Hd.
    rewrite <- !app_assoc in Hd. cbn [app] in Hd.
    destruct (list_next_row (t_conn t) q ts (drop (length q) (map token_word ts))
      (rows_lines rows ++ tl) more) as (c1 & -> & (Hwf & _) & Hd1 & _); try done.
    intros [= <- <-]. pose proof (delivers_pending _ _ _ Hwf Hd1) as Hp. rewrite length_app in Hp.
    assert (length rows <= length (rows_lines rows))%nat; [|simpl; lia]. clear.
    induction rows as [|ts rows IH]; [done|]. change (rows_lines (ts :: rows)) with ((render ts ++ [LF]) ++ rows_lines rows).
    rewrite !length_app. simpl. lia. }
  unfold list_next, on_conn_safe, get_conn, put_conn, answers, mbind, TM_bind.
  destruct (upscli_list_next (t_conn t) q) as [[r c]|] eqn:El.
  - destruct (while_next_shows rows (S (pending c)) a t) as (c' & Hrun & Hrest); try done; [by eapply Hfuel|].
    exists c'. split; [|done]. unfold list_next, on_conn_safe, get_conn, put_conn, mbind, TM_bind in Hrun. rewrite El in Hrun.
    exact Hrun.
  - exfalso. destruct (while_next_shows rows (length rows) a t) as (c' & Hrun & _); [done..|].
    unfold list_next, on_conn_safe, get_conn, put_conn, mbind, TM_bind in Hrun. rewrite El in Hrun. done.
Qed.
End loop.

(** ** What upsc lists *)

Definition var_row (upsname : bytes) (p : bytes * bytes) : list token :=
  [Bare ($"VAR"); Bare upsname; Bare p.1; Quoted p.2].

Definition member_text (p : bytes * bytes) : bytes :=
  $"  " ++ quoted (json_esc p.1) ++ $": " ++ quoted (json_esc p.2).
Definition members_text (first : bool) (rows : list (bytes * bytes)) : bytes :=
  match rows with
  | [] => []
  | p :: rows => (if first then [] else $"," ++ [LF]) ++ member_text p
                 ++ concat (map (fun p => $"," ++ [LF] ++ member_text p) rows)
  end.

(** What is shown for these variables and values *)
Definition vars_text (json : bool) (rows : list (bytes * bytes)) : bytes :=
  if json then $"{" ++ [LF] ++ members_text true rows ++ [LF] ++ $"}" ++ [LF]
  else concat (map (fun p => p.1 ++ $": " ++ p.2 ++ [LF]) rows).

Lemma members_text_cons first p rows :
  members_text first (p :: rows) = (if first then [] else $"," ++ [LF]) ++ member_text p ++ members_text false rows.
Proof. destruct rows; [done|]. cbn [members_text map concat]. by rewrite <- !app_assoc. Qed.

Lemma answer_run t ws k x :
  args (cn_ctx (t_conn t)) = ws -> ws !! k = Some x -> answer k t = Done x t.
Proof.
  intros Ha Hk. destruct (args_arglist _ _ Ha) as [tl Htl].
  unfold answer, get_conn, mbind, TM_bind. rewrite Htl, lookup_app, Hk. done.
Qed.

Lemma numa_run t ws :
  pconf_wf (cn_ctx (t_conn t)) -> args (cn_ctx (t_conn t)) = ws -> numa t = Done (length ws) t.
Proof. intros Hwf Ha. unfold numa, get_conn, mbind, TM_bind. by rewrite <- Ha, args_length. Qed.

Definition row_vals (ts : list token) : bytes * bytes :=
  (nth 2 (map token_word ts) [], nth 3 (map token_word ts) []).

Lemma show_var_run json (first : bool) n v ups t :
  args (cn_ctx (t_conn t)) = [$"VAR"; ups; n; v] -> pconf_wf (cn_ctx (t_conn t)) ->
  show_var json first t
  = Done (if json then false else first)
      (set_t_stdout t (t_stdout t ++ if json then (if first then [] else $"," ++ [LF]) ++ member_text (n, v)
                                     else n ++ $": " ++ v ++ [LF])).
Proof.
  intros Ha Hwf. unfold show_var. unfold mbind at 1, TM_bind at 1. rewrite (numa_run _ _ Hwf Ha). cbn [length Nat.ltb Nat.leb].
  unfold mbind at 1, TM_bind at 1. rewrite (answer_run t _ 2 n Ha) by done.
  unfold mbind at 1, TM_bind at 1. rewrite (answer_run t _ 3 v Ha) by done.
  destruct t as [c so se si gp nw ws sy]. destruct json; [|done].
  unfold separate, json_member, json_print_esc, puts, member_text, quoted, mbind, TM_bind. destruct first; cbn;
    by rewrite <- ?app_assoc.
Qed.

Definition var_ok (ups : bytes) (ts : list token) : Prop :=
  (exists p, ts = var_row ups p) /\ row_ok [$"VAR"; ups] ts.

Lemma outs_vars (json : bool) ups rows : forall first,
  outs (fun (first : bool) _ => if json then false else first)
    (fun first ts => if json then (if first then [] else $"," ++ [LF]) ++ member_text (row_vals ts)
                     else (row_vals ts).1 ++ $": " ++ (row_vals ts).2 ++ [LF])
    first (map (var_row ups) rows)
  = if json then members_text first rows else concat (map (fun p => p.1 ++ $": " ++ p.2 ++ [LF]) rows).
Proof.
  induction rows as [|[n v] rows IH]; intros first; [by destruct json|]. cbn [map outs]. rewrite IH.
  destruct json; [|done]. by rewrite members_text_cons, <- app_assoc.
Qed.

(** The words of the request for the variables of a UPS can be sent. *)
Definition ups_ok (ups : bytes) : Prop :=
  token_ok PCONF_DEFAULT_WORDLEN_LIMIT (Bare ups) /\ (length ups < UPSCLI_NETBUF_LEN - 20)%nat.

#[export] Instance ups_ok_dec ups : Decision (ups_ok ups).
Proof. unfold ups_ok. apply _. Defined.

Lemma ups_ok_words ups (lits : list bytes) :
  ups_ok ups -> Forall (fun w => token_ok PCONF_DEFAULT_WORDLEN_LIMIT (Bare w)) lits -> bare_words (lits ++ [ups]).
Proof.
  intros [Hu _] Hl. apply (bare_words_ok [ups] lits); [|done]. by apply Forall_singleton.
Qed.

Lemma render_bare_length (lits : list bytes) (ups : bytes) :
  (length (render (Bare <$> (lits ++ [ups]))) <= length (concat (map (fun x : bytes => $" " ++ x) lits)) + length ups + 1)%nat.
Proof.
  destruct lits as [|l lits]; [simpl; lia|]. cbn [app]. rewrite render_bare_cons, map_app, concat_app.
  cbn [map concat]. rewrite !length_app. simpl. lia.
Qed.

(** The variables of a UPS, from the lines of the server to the terminal, whatever comes after the rows *)
Lemma list_vars_rows (json : bool) ups rows t tl more (E : UPSCONN -> Prop) :
  usable (t_conn t) -> ups_ok ups -> Forall (fun p => row_ok [$"VAR"; ups] (var_row ups p)) rows ->
  (forall c, usable c -> delivers c tl more ->
     nt_sent (cn_net c) = nt_sent (cn_net (t_conn t)) ++ [$"LIST VAR " ++ ups ++ [LF]] ->
     exists r c', upscli_list_next c [$"VAR"; ups] = Some (r, c') /\ r <> 1 /\ E c') ->
  delivers (t_conn t) (render (begin_list [$"VAR"; ups]) ++ LF :: rows_lines (map (var_row ups) rows) ++ tl) more ->
  exists c', list_vars json ups t = Done tt (set_t_stdout (set_t_conn t c') (t_stdout t ++ vars_text json rows))
    /\ E c'.
Proof.
  intros Hu Hups Hrows Hends Hd. set (q := [$"VAR"; ups]).
  assert (forall lits : list bytes, Forall (fun w => token_ok PCONF_DEFAULT_WORDLEN_LIMIT (Bare w)) lits -> bare_words (lits ++ [ups]))
    as Hb by (intros; by apply ups_ok_words).
  assert (forall lits : list bytes, (length (concat (map (fun x : bytes => $" " ++ x) lits)) < 17)%nat ->
    (length (render (Bare <$> (lits ++ [ups]))) < UPSCLI_NETBUF_LEN - 1)%nat) as Hshort.
  { intros lits Hl. pose proof (render_bare_length lits ups). destruct Hups as [_ Hlu]. unfold UPSCLI_NETBUF_LEN in *. lia. }
  set (t0 := if json then set_t_stdout t (t_stdout t ++ $"{" ++ [LF]) else t).
  assert (t_conn t0 = t_conn t) as Hc0 by (unfold t0; by destruct json).
  destruct (list_start_answers (t_conn t0) q (rows_lines (map (var_row ups) rows) ++ tl) more)
    as (c1 & Hstart & Hu1 & Hd1 & Hs1); rewrite ?Hc0; try done.
  { apply (Hb [$"LIST"; $"VAR"]). apply (bool_decide_unpack _). vm_compute. exact I. }
  { unfold q. apply Nat.leb_le. reflexivity. }
  { apply (Hshort [$"LIST"; $"VAR"]). apply Nat.ltb_lt. reflexivity. }
  { apply (Hshort [$"BEGIN"; $"LIST"; $"VAR"]). apply Nat.ltb_lt. reflexivity. }
  set (t1 := set_t_conn t0 c1).
  destruct (answers_show q (show_var json) (fun (first : bool) _ => if json then false else first)
    (fun first ts => if json then (if first then [] else $"," ++ [LF]) ++ member_text (row_vals ts)
                     else (row_vals ts).1 ++ $": " ++ (row_vals ts).2 ++ [LF]) (var_ok ups) tl more
    (nt_sent (cn_net (t_conn t)) ++ [$"LIST VAR " ++ ups ++ [LF]]) E) with
    (rows := map (var_row ups) rows) (a := true) (t := t1) as (c' & Hrun & HE); try done.
  - by intros ts [_ ?].
  - intros first ts t2 [[[n v] ->] _] Ha Hwf. by apply (show_var_run json first n v ups).
  - unfold t1. cbn [t_conn set_t_conn]. rewrite Hs1, ?Hc0.
    assert (render (Bare <$> ($"LIST" :: q)) = $"LIST VAR " ++ ups) as ->; [|by rewrite <- app_assoc].
    rewrite render_bare_cons. cbn. by rewrite app_nil_r.
  - rewrite Forall_map. eapply Forall_impl; [exact Hrows|]. intros p Hp. split; [by eexists|done].
  - exists c'. split; [|done].
    unfold list_vars. fold q.
    assert (when_json json (puts ($"{" ++ [LF])) t = Done tt t0) as Hw by (unfold t0; by destruct json).
    rewrite (bind_done _ _ _ _ _ Hw). rewrite (bind_done _ _ _ 0 t1) by (by apply safe_run). cbn [Z.ltb Z.compare].
    rewrite bind_assoc, (bind_done _ _ _ _ _ Hrun). unfold t1, t0, when_json, vars_text. rewrite outs_vars.
    destruct t, json; cbn; [|done]. unfold puts, set_t_stdout, set_t_conn. cbn. by rewrite <- !app_assoc.
Qed.

(** A whole list *)
Lemma list_vars_shows (json : bool) ups rows t rest more :
  usable (t_conn t) -> ups_ok ups -> Forall (fun p => row_ok [$"VAR"; ups] (var_row ups p)) rows ->
  delivers (t_conn t) (list_lines [$"VAR"; ups] (map (var_row ups) rows) ++ rest) more ->
  exists c', list_vars json ups t = Done tt (set_t_stdout (set_t_conn t c') (t_stdout t ++ vars_text json rows))
    /\ usable c' /\ delivers c' rest more
    /\ nt_sent (cn_net c') = nt_sent (cn_net (t_conn t)) ++ [$"LIST VAR " ++ ups ++ [LF]].
Proof.
  intros Hu Hups Hrows Hd.
  unfold list_lines in Hd. rewrite <- !app_assoc in Hd. cbn [app] in Hd. rewrite <- !app_assoc in Hd. cbn [app] in Hd.
  eapply (list_vars_rows json ups rows t (render (end_list [$"VAR"; ups]) ++ LF :: rest) more); try done.
  intros c Huc Hdc Hsc. destruct (list_next_end c [$"VAR"; ups] rest more) as (c' & Hr & Hu' & Hd' & Hs'); try done.
  - apply (ups_ok_words ups [$"VAR"] Hups). apply (bool_decide_unpack _). vm_compute. exact I.
  - apply Nat.leb_le. reflexivity.
  - pose proof (render_bare_length [$"END"; $"LIST"; $"VAR"] ups) as Hl. destruct Hups as [_ Hlu]. unfold end_list.
    unfold UPSCLI_NETBUF_LEN in *. eapply Nat.le_lt_trans; [exact Hl|]. simpl. lia.
  - exists 0, c'. rewrite <- Hsc. split_and!; done.
Qed.

Lemma member_back p s : json_one (member_text p ++ s) = Some (p, s).
Proof.
  destruct p as [n v]. unfold json_one, member_text, quoted. rewrite <- !app_assoc. cbn [fst snd].
  assert (json_char 34 ($"  " ++ qt ++ json_esc n ++ qt ++ $": " ++ qt ++ json_esc v ++ qt ++ s)
    = Some (json_esc n ++ chr 34 :: $": " ++ qt ++ json_esc v ++ qt ++ s)) as -> by reflexivity.
  cbn [mbind option_bind]. rewrite json_esc_back. cbn [mbind option_bind].
  assert (json_char 58 ($": " ++ qt ++ json_esc v ++ qt ++ s) = Some ($" " ++ qt ++ json_esc v ++ qt ++ s)) as -> by reflexivity.
  cbn [mbind option_bind].
  assert (json_char 34 ($" " ++ qt ++ json_esc v ++ qt ++ s) = Some (json_esc v ++ chr 34 :: s)) as -> by reflexivity.
  cbn [mbind option_bind]. by rewrite json_esc_back.
Qed.

Lemma members_back rows : forall fuel p s,
  (length rows < fuel)%nat ->
  json_members fuel (member_text p ++ members_text false rows ++ LF :: chr 125 :: s) = Some (p :: rows, s).
Proof.
  induction rows as [|r rows IH]; intros fuel p s Hf; (destruct fuel as [|fuel]; [simpl in Hf; lia|]); cbn [json_members].
  - by rewrite member_back.
  - rewrite member_back. cbn [mbind option_bind]. rewrite members_text_cons, <- !app_assoc.
    assert (forall x, json_char 44 ($"," ++ [LF] ++ x) = Some (LF :: x)) as -> by reflexivity.
    assert (forall l, json_members fuel (LF :: member_text r ++ l) = json_members fuel (member_text r ++ l)) as ->
      by (intros; by destruct fuel).
    rewrite IH by (simpl in Hf; lia). done.
Qed.

(** What upsc -j prints for a list of variables is one JSON object with exactly these members, in order. *)
Lemma vars_text_back rows : json_object (vars_text true rows) = Some rows.
Proof.
  unfold json_object, vars_text. destruct rows as [|p rows]; [reflexivity|]. rewrite members_text_cons.
  set (body := ([] ++ member_text p ++ members_text false rows) ++ [LF] ++ $"}" ++ [LF]).
  assert (body = member_text p ++ members_text false rows ++ LF :: chr 125 :: [LF]) as Hb
    by (unfold body; by rewrite <- !app_assoc).
  assert (json_char 123 ($"{" ++ [LF] ++ body) = Some (LF :: body)) as -> by reflexivity.
  cbn [mbind option_bind].
  assert (json_char 125 (LF :: body) = None) as -> by (rewrite Hb; reflexivity).
  assert (length rows < length body)%nat as Hl.
  { rewrite Hb, !length_app. cbn [length]. assert (length rows <= length (members_text false rows))%nat; [|lia]. clear.
    induction rows as [|r rows IH]; [done|]. rewrite members_text_cons, !length_app. simpl in *. lia. }
  assert (json_members (length ($"{" ++ [LF] ++ body)) (LF :: body) = json_members (length ($"{" ++ [LF] ++ body)) body) as ->.
  { rewrite Hb at 2 4. reflexivity. }
  rewrite Hb at 2. rewrite members_back by (rewrite !length_app; lia). reflexivity.
Qed.

(** ** From the server's tree to the terminal *)

(** [parse_net] on LIST VAR *)
Lemma parse_list_var cl c upsname w :
  client_find cl (w_clients w) = Some c ->
  args (c_ctx c) = [$"LIST"; $"VAR"; upsname] -> parse_net cl w = list_var cl upsname w.
Proof.
  intros Hc Ha. unfold parse_net, mbind at 1, M_bind at 1, client_get at 1. rewrite Hc. cbn [fmap option_fmap option_map].
  rewrite Ha.
  assert (find (fun cmd : bytes * (nat -> list bytes -> M unit) * Z => strcaseeq cmd.1.1 ($"LIST")) netcmds
          = Some ($"LIST", net_list, 0)) as -> by reflexivity.
  unfold check_command, mbind at 1, M_bind at 1, client_get at 1. rewrite Hc. reflexivity.
Qed.

(** The value that a client sees: ups.status is prefixed while a shutdown is forced. *)
Definition shown_value (u : upstype) (n : st_node) : bytes :=
  if (u_fsd u =? 1) && strcaseeq (n_var n) ($"ups.status") then $"FSD " ++ n_raw n else n_raw n.
Definition shown_vars (u : upstype) : list (bytes * bytes) :=
  map (fun n => (n_var n, shown_value u n)) (nodes (u_inforoot u)).

(** A variable that fits into a line of the protocol *)
Definition var_fits (u : upstype) (ups : bytes) (n : st_node) : Prop :=
  row_ok [$"VAR"; ups] (var_row ups (n_var n, shown_value u n)) /\ (length (escape (n_raw n)) < ST_MAX_VALUE_LEN)%nat.

#[export] Instance var_fits_dec u ups n : Decision (var_fits u ups n).
Proof. unfold var_fits. apply _. Defined.

Lemma escape_app a b : escape (a ++ b) = escape a ++ escape b.
Proof. apply flat_map_app. Qed.

Lemma var_line u ups n :
  val_ok n -> var_fits u ups n ->
  $"VAR " ++ ups ++ $" " ++ n_var n ++ $" "
    ++ quoted (if (u_fsd u =? 1) && strcaseeq (n_var n) ($"ups.status") then $"FSD " ++ n_val n else n_val n) ++ [LF]
  = render (var_row ups (n_var n, shown_value u n)) ++ [LF].
Proof.
  intros Hv [(_ & Hok & _) Hl].
  assert (n_val n = escape (n_raw n)) as ->.
  { rewrite Hv. apply pconf_encode_fits; [|done|unfold ST_MAX_VALUE_LEN; lia..].
    apply printable_no_nul. unfold var_row in Hok. rewrite !Forall_cons in Hok. destruct Hok as (_ & _ & _ & [_ Hp] & _).
    cbn [snd] in Hp. unfold shown_value in Hp. destruct (_ && _); [|done]. by apply Forall_app in Hp as [_ ?]. }
  assert (quoted (if (u_fsd u =? 1) && strcaseeq (n_var n) ($"ups.status") then $"FSD " ++ escape (n_raw n) else escape (n_raw n))
    = render_token (Quoted (shown_value u n))) as ->.
  { unfold shown_value, render_token, quoted. destruct (_ && _); [|done]. by rewrite escape_app. }
  unfold var_row. cbn [render render_token fst snd]. by rewrite <- !app_assoc.
Qed.

Lemma script_out_all cl ls :
  Forall (fun l => (length l <= NUT_NET_ANSWER_MAX)%nat) ls -> script_out cl ls [] = map (fun l => ToClient cl l true) ls.
Proof.
  induction 1 as [|l ls Hl Hls IH]; [done|]. cbn [script_out map]. rewrite IH. do 2 f_equal. apply snprintf_s_id. lia.
Qed.

(** The lines that upsd writes for the variables are those that the client reads. *)
Definition var_lines (u : upstype) (ups : bytes) : list bytes :=
  (render (begin_list [$"VAR"; ups]) ++ [LF])
  :: map (fun ts => render ts ++ [LF]) (map (var_row ups) (shown_vars u)) ++ [render (end_list [$"VAR"; ups]) ++ [LF]].

Lemma var_lines_concat u ups :
  concat (var_lines u ups) = list_lines [$"VAR"; ups] (map (var_row ups) (shown_vars u)) ++ [].
Proof.
  unfold var_lines, list_lines, rows_lines. cbn [concat]. rewrite concat_app. cbn [concat].
  by rewrite !app_nil_r, <- app_assoc.
Qed.

Lemma var_lines_server u ups :
  Forall val_ok (nodes (u_inforoot u)) -> Forall (var_fits u ups) (nodes (u_inforoot u)) ->
  ($"BEGIN LIST VAR " ++ ups ++ [LF])
  :: map (fun n => $"VAR " ++ ups ++ $" " ++ n_var n ++ $" "
       ++ quoted (if (u_fsd u =? 1) && strcaseeq (n_var n) ($"ups.status") then $"FSD " ++ n_val n else n_val n) ++ [LF])
       (nodes (u_inforoot u))
  ++ [$"END LIST VAR " ++ ups ++ [LF]] = var_lines u ups.
Proof.
  intros Hv Hf. unfold var_lines, shown_vars. f_equal.
  rewrite !map_map. f_equal.
  revert Hv Hf. generalize (nodes (u_inforoot u)). induction l as [|n l IH]; [done|].
  intros [Hn Hv]%Forall_cons [Hfn Hf]%Forall_cons. cbn [map]. rewrite IH by done. f_equal. by apply var_line.
Qed.

Lemma var_lines_short u ups :
  ups_ok ups -> Forall (var_fits u ups) (nodes (u_inforoot u)) ->
  Forall (fun l => (length l <= NUT_NET_ANSWER_MAX)%nat) (var_lines u ups).
Proof.
  intros [_ Hl] Hf. unfold UPSCLI_NETBUF_LEN in Hl.
  assert (forall lits : list bytes, (length (concat (map (fun x : bytes => $" " ++ x) lits)) < 17)%nat ->
    (length (render (Bare <$> (lits ++ [ups])) ++ [LF]) <= NUT_NET_ANSWER_MAX)%nat) as Hb.
  { intros lits Hx. pose proof (render_bare_length lits ups). rewrite length_app. cbn [length].
    unfold NUT_NET_ANSWER_MAX, SMALLBUF. lia. }
  unfold var_lines. constructor; [apply (Hb [$"BEGIN"; $"LIST"; $"VAR"]); apply Nat.ltb_lt; reflexivity|].
  apply Forall_app. split; [|constructor; [|constructor]; apply (Hb [$"END"; $"LIST"; $"VAR"]); apply Nat.ltb_lt; reflexivity].
  unfold shown_vars. rewrite !Forall_map. eapply Forall_impl; [exact Hf|]. intros n [(_ & _ & _ & Hn & _) _].
  rewrite length_app. cbn [length]. unfold UPSCLI_NETBUF_LEN, NUT_NET_ANSWER_MAX, SMALLBUF in *. lia.
Qed.

(** C3. From the server's tree to the terminal: when a client asks upsd for the variables of a UPS that is connected and fresh,
    and the answer is written whole, then upsc, whatever packets these bytes arrive in, shows exactly the
    variables of the UPS, each once, in the order of the tree and with the value the driver published, with any quotes,
    backslashes and spaces in it (ups.status prefixed by FSD during a forced shutdown); it sends one line and leaves
    nothing unread. *)
Theorem upsc_shows_tree json w cl k ups i u :
  client_find cl (w_clients w) = Some k -> ready (c_ctx k) -> ups_find (w_ups w) ups = Some i ->
  w_ups w !! i = Some u -> available u -> tree_wf (u_inforoot u) -> w_sys w = [] -> ups_ok ups ->
  Forall (var_fits u ups) (nodes (u_inforoot u)) ->
  wp (client_readline cl (ReadData ($"LIST VAR " ++ ups ++ [LF])))
    (fun _ w' => exists lines, w_out w' = w_out w ++ map (fun l => ToClient cl l true) lines
      /\ forall t more, usable (t_conn t) -> delivers (t_conn t) (concat lines) more ->
         exists c', list_vars json ups t
             = Done tt (set_t_stdout (set_t_conn t c') (t_stdout t ++ vars_text json (shown_vars u)))
           /\ usable c' /\ delivers c' [] more
           /\ nt_sent (cn_net c') = nt_sent (cn_net (t_conn t)) ++ [$"LIST VAR " ++ ups ++ [LF]]) w.
Proof.
  intros Hc Hready Hf Hu Ha [Hb Hvals] Hsys Hups Hfits.
  assert (render [Bare ($"LIST"); Bare ($"VAR"); Bare ups] ++ [LF] = $"LIST VAR " ++ ups ++ [LF]) as Hline
    by (cbn [render render_token]; by rewrite <- !app_assoc).
  rewrite <- Hline at 1.
  assert (line_ok [Bare ($"LIST"); Bare ($"VAR"); Bare ups]) as Hok.
  { split; [done|]. split; [|apply Nat.leb_le; reflexivity].
    apply (bare_words_ok [ups] [$"LIST"; $"VAR"]); [by apply Forall_singleton; destruct Hups|].
    apply (bool_decide_unpack _). vm_compute. exact I. }
  eapply request_line; [exact Hc|done|done|]. intros ctx Hargs. cbn [map token_word] in Hargs.
  set (w1 := upd_client _ _ _).
  assert (client_find cl (w_clients w1) = Some (set_c_last_heard (with_client_ctx ctx k) (w_now w))) as Hc1
    by exact (client_find_alter cl (fun c => set_c_last_heard (with_client_ctx ctx c) (w_now w))
      (w_clients w) k (fun _ => eq_refl) Hc).
  unfold wp. rewrite (parse_list_var cl _ ups w1 Hc1) by exact Hargs.
  pose proof (list_var_output cl w1 _ ups i u Hc1 Hf Hu Ha) as Hout. unfold wp in Hout.
  destruct (list_var cl ups w1) as [[x w']|]; [|done]. rename Hout into Hw'.
  assert (Forall val_ok (nodes (u_inforoot u))) as Hvok.
  { apply Forall_forall. intros n Hn. by apply (Hvals (lower (n_var n))), nodes_to_map. }
  exists (var_lines u ups). split.
  - rewrite Hw', var_lines_server by done. change (w_sys w1) with (w_sys w). rewrite Hsys, script_out_all; [done|].
    by apply var_lines_short.
  - intros t more Huse Hd. rewrite var_lines_concat in Hd.
    apply (list_vars_shows json ups (shown_vars u) t [] more); [done|done| |done].
    unfold shown_vars. rewrite Forall_map. eapply Forall_impl; [exact Hfits|]. by intros n [? _].
Qed.

Lemma upsc_shows_tree_witness :
  let w := set_w_clients idle_world [mkClient 0 ($"::1") 100 None None None 0 pconf_init] in
  wp (client_readline 0 (ReadData ($"LIST VAR " ++ $"su700" ++ [LF])))
    (fun _ w' => exists lines, w_out w' = [] ++ map (fun l => ToClient 0 l true) lines
      /\ forall t more, usable (t_conn t) -> delivers (t_conn t) (concat lines) more ->
         exists c', list_vars false ($"su700") t
             = Done tt (set_t_stdout (set_t_conn t c') (t_stdout t ++ vars_text false (shown_vars demo_ups)))
           /\ usable c' /\ delivers c' [] more
           /\ nt_sent (cn_net c') = nt_sent (cn_net (t_conn t)) ++ [$"LIST VAR " ++ $"su700" ++ [LF]]) w.
Proof.
  intros w. refine (upsc_shows_tree false w 0 _ ($"su700") 0 demo_ups eq_refl ready_init eq_refl eq_refl (conj eq_refl eq_refl)
    _ eq_refl _ _).
  - apply (run_ops_refines _ Leaf tree_wf_leaf).
  - apply (bool_decide_unpack _). vm_compute. exact I.
  - apply (bool_decide_unpack _). vm_compute. exact I.
Defined.

(** ** From upsrw to the driver *)

Lemma checkaction_get {A} cl c act (k : Z -> M A) w :
  client_find cl (w_clients w) = Some c ->
  (client_checkaction cl act ≫= k) w = k (user_checkaction (w_users w) (c_username c) (c_password c) act) w.
Proof. intros Hc. unfold client_checkaction, client_get, get, mbind, M_bind. by rewrite Hc. Qed.

(** SET, for a client that may and a value that the variable admits *)
Lemma set_var_sends cl w c ups var newval i u node :
  client_find cl (w_clients w) = Some c -> ups_find (w_ups w) ups = Some i -> w_ups w !! i = Some u -> available u ->
  user_checkaction (w_users w) (c_username c) (c_password c) ($"SET") <> 0 ->
  state_tree_find (u_inforoot u) var = Some node -> value_allowed node newval -> w_sys w = [] ->
  wp (set_var cl ups var newval []) (fun _ w' =>
    w_out w' = w_out w ++ [ToDriver i (set_line var newval []) true; ToClient cl ($"OK" ++ [LF]) true]) w.
Proof.
  intros Hc Hf Hu Ha Hmay Hnode (Hrw & Hstr & Henum & Hrange) Hsys.
  unfold wp, set_var. rewrite (get_ups_at _ _ _ _ Hf), (available_get _ _ _ _ _ Hu Ha). cbn [Z.eqb].
  rewrite (checkaction_get _ _ _ _ _ Hc), (proj2 (Z.eqb_neq _ _) Hmay), (ups_get_at _ _ _ _ Hu).
  unfold sstate_getinfo, sstate_getflags, sstate_getaux, sstate_getenumlist, sstate_getrangelist, state_getinfo, state_getflags,
    state_getaux, state_getenumlist, state_getrangelist. rewrite Hnode. cbn [fmap option_fmap option_map].
  apply negb_true_iff in Hrw. rewrite Hrw.
  assert (has_flag (n_flags node) ST_FLAG_STRING && (n_aux node <? 1) = false
    /\ has_flag (n_flags node) ST_FLAG_STRING && (n_aux node <? wrapS 32 (Z.of_nat (length newval))) = false) as [-> ->].
  { destruct (has_flag (n_flags node) ST_FLAG_STRING); [|done]. specialize (Hstr eq_refl). cbn [andb]. split; apply Z.ltb_ge; lia. }
  rewrite Henum, Hrange. cbn [negb]. destruct Ha as [Hconn _].
  set (line := set_line var newval []). clearbody line.
  unfold finish_command, sstate_sendline, driver_write, emit, modify, syscall, mbind, M_bind, mret, M_ret, ups_get.
  rewrite Hu. cbn [fmap option_fmap option_map]. rewrite Hconn. cbn [negb]. rewrite Hsys. cbn [Z.eqb].
  unfold reply, mbind, M_bind. erewrite sendback_script by exact Hc. unfold sent1. cbn [w_sys set_w_out].
  rewrite Hsys. cbn. by rewrite <- app_assoc.
Qed.

(** [parse_net] on SET VAR, for a client that has given its name and password and did not ask for tracking *)
Lemma parse_set_var cl c ups var val w :
  client_find cl (w_clients w) = Some c -> c_username c <> None -> c_password c <> None -> c_tracking c = 0 ->
  args (c_ctx c) = [$"SET"; $"VAR"; ups; var; val] -> parse_net cl w = set_var cl ups var val [] w.
Proof.
  intros Hc Hun Hpw Ht Ha. unfold parse_net, mbind at 1, M_bind at 1, client_get at 1. rewrite Hc.
  cbn [fmap option_fmap option_map]. rewrite Ha.
  assert (find (fun cmd : bytes * (nat -> list bytes -> M unit) * Z => strcaseeq cmd.1.1 ($"SET")) netcmds
          = Some ($"SET", net_set, FLAG_USER)) as -> by reflexivity.
  unfold check_command, mbind at 1, M_bind at 1, client_get at 1. rewrite Hc. cbn [fmap option_fmap option_map].
  rewrite !bool_decide_eq_false_2 by done. rewrite !andb_false_r. cbn [drop].
  unfold net_set. assert (strcaseeq ($"VAR") ($"VAR") = true) as -> by done.
  unfold new_tracking_id, client_get, mbind, M_bind. rewrite Hc. cbn [fmap option_fmap option_map]. by rewrite Ht.
Qed.

(** A line is sent and one comes back. *)
Lemma ask_run a b line n t buf rest more :
  usable (t_conn t) -> line <> [] -> LF ∉ buf -> no_nul buf -> (length buf < n - 1)%nat ->
  delivers (t_conn t) (buf ++ LF :: rest) more ->
  exists c', ask a b line n t = Done buf (set_t_conn t c') /\ usable c' /\ delivers c' rest more
    /\ nt_sent (cn_net c') = nt_sent (cn_net (t_conn t)) ++ [line].
Proof.
  intros Hu Hne Hlf Hnul Hn Hd.
  destruct (sendline_usable (t_conn t) line Hu Hne) as (c1 & Hs & Hu1 & _ & Hsent1 & Hd1).
  pose proof Hu1 as (Hc1 & Hfd1 & Hm1 & Hp1 & Hw1).
  destruct (readline_line c1 buf rest more n) as (c2 & Hr & Hc2 & Hs2 & Hd2 & Hsent2 & Hw2);
    [done..|by apply Hd1|done|done|done|].
  exists c2. unfold ask. rewrite (bind_done _ _ _ _ _ (sendline_run line t)), Hs. cbn [fst snd Z.ltb Z.compare].
  unfold readline, on_conn, get_conn, put_conn, mbind, TM_bind. cbn [t_conn set_t_conn]. rewrite Hr.
  split_and!; [by destruct t| |done|by rewrite Hsent2].
  destruct Hs2 as (_ & _ & Hfd2 & Hm2 & Hctx2). split_and!; congruence.
Qed.

(** The words of SET VAR *)
Definition set_request (ups var val : bytes) : list token :=
  [Bare ($"SET"); Bare ($"VAR"); Bare ups; Bare var; Quoted val].

Lemma escape_longer s : (length s <= length (escape s))%nat.
Proof.
  induction s as [|c s IH]; [done|]. cbn [escape flat_map length]. rewrite length_app. fold (escape s).
  assert (1 <= length (escape_char c))%nat; [|lia]. unfold escape_char. case_match; simpl; lia.
Qed.

Lemma set_request_line ups var val :
  Forall printable val -> (length (render (set_request ups var val)) < SMALLBUF - 1)%nat ->
  snprintf_s SMALLBUF ($"SET VAR " ++ ups ++ $" " ++ var ++ $" " ++ quoted (pconf_encode val SMALLBUF) ++ [LF])
  = render (set_request ups var val) ++ [LF].
Proof.
  intros Hp Hl.
  assert (render (set_request ups var val) = $"SET VAR " ++ ups ++ $" " ++ var ++ $" " ++ render_token (Quoted val)) as Hr
    by reflexivity.
  assert (length (escape val) < SMALLBUF)%nat as He.
  { rewrite Hr, !length_app in Hl. unfold render_token in Hl. rewrite !length_app in Hl. unfold SMALLBUF in *. lia. }
  rewrite encode_quoted by done.
  assert ($"SET VAR " ++ ups ++ $" " ++ var ++ $" " ++ render_token (Quoted val) ++ [LF]
          = render (set_request ups var val) ++ [LF]) as -> by (rewrite Hr; by rewrite <- !app_assoc).
  apply snprintf_s_id. rewrite length_app. cbn [length]. lia.
Qed.

(** C4. From the command line to the driver: the line that upsrw sends for VAR=VALUE makes upsd, for a
    client that may set and a value that the variable admits, send the driver a line that the driver's parser reads as SET, the
    variable and exactly that value, whatever quotes, backslashes, hash signs and spaces it holds; upsd then answers OK, which
    upsrw reports. *)
Theorem upsrw_sets_driver w cl k ups var val i u node drv timeout :
  client_find cl (w_clients w) = Some k -> ready (c_ctx k) -> c_username k <> None -> c_password k <> None ->
  c_tracking k = 0 -> user_checkaction (w_users w) (c_username k) (c_password k) ($"SET") <> 0 ->
  ups_find (w_ups w) ups = Some i -> w_ups w !! i = Some u -> available u -> w_sys w = [] ->
  state_tree_find (u_inforoot u) var = Some node -> value_allowed node val ->
  line_ok (set_request ups var val) -> (length (render (set_request ups var val)) < SMALLBUF - 1)%nat ->
  strchr var (chr 46) = true -> index_of var (chr 61) = None -> ready drv ->
  let line := render (set_request ups var val) ++ [LF] in
  wp (client_readline cl (ReadData line))
    (fun _ w' => exists out ans, w_out w' = w_out w ++ [ToDriver i out true; ToClient cl ans true]
       /\ args (feed_chars drv out).2 = [$"SET"; var; val]
       /\ forall t more, usable (t_conn t) -> delivers (t_conn t) ans more ->
          exists c', do_setvar false timeout ups (var ++ $"=" ++ val) t
              = Done tt (set_t_stderr (set_t_conn t c') (t_stderr t ++ $"OK" ++ [LF]))
            /\ nt_sent (cn_net c') = nt_sent (cn_net (t_conn t)) ++ [line]) w.
Proof.
  intros Hc Hready Hun Hpw Htr Hmay Hf Hu Ha Hsys Hnode Hval Hok Hl Hdot Heq Hdrv line.
  assert (Forall printable val /\ token_ok PCONF_DEFAULT_WORDLEN_LIMIT (Bare var)
    /\ token_ok PCONF_DEFAULT_WORDLEN_LIMIT (Quoted val)) as (Hp & Hvar & Hq).
  { destruct Hok as (_ & Hall & _). unfold set_request in Hall. rewrite !Forall_cons in Hall.
    destruct Hall as (_ & _ & _ & Hv & Hq & _). split_and!; try done. apply Hq. }
  eapply request_line; [exact Hc|done|done|]. intros ctx Hargs. cbn [set_request map token_word] in Hargs.
  set (w1 := upd_client _ _ _).
  assert (client_find cl (w_clients w1) = Some (set_c_last_heard (with_client_ctx ctx k) (w_now w))) as Hc1
    by exact (client_find_alter cl (fun c => set_c_last_heard (with_client_ctx ctx c) (w_now w))
      (w_clients w) k (fun _ => eq_refl) Hc).
  unfold wp. rewrite (parse_set_var cl _ ups var val w1 Hc1) by done.
  eapply wp_mono; [by eapply (set_var_sends cl w1 _ ups var val i u node Hc1)|].
  intros [] w' Hout. eexists _, _. split; [exact Hout|]. split.
  - assert (set_tokens var val [] = [Bare ($"SET"); Bare var; Quoted val]) as Hst by (unfold set_tokens; by rewrite app_nil_r).
    assert (length (render (set_tokens var val [])) < SMALLBUF - 2)%nat as Hl'.
    { rewrite Hst, set_render. unfold set_request in Hl. cbn [render] in Hl. cbn [render_token] in *.
      rewrite !length_app in *. simpl in *. unfold SMALLBUF in *. lia. }
    rewrite set_line_render by done.
    destruct (feed_line drv (set_tokens var val []) Hdrv) as (_ & -> & _); [|by rewrite Hst].
    rewrite Hst. split; [done|]. split; [|apply Nat.leb_le; reflexivity].
    rewrite !Forall_cons. split_and!; try done. destruct Hok as (_ & Hall & _). by apply Forall_cons in Hall as [? _].
  - intros t more Huse Hd.
    assert (length val < SMALLBUF)%nat as Hlv.
    { pose proof (escape_longer val). unfold set_request in Hl. cbn [render render_token] in Hl. rewrite !length_app in Hl.
      unfold SMALLBUF in *. lia. }
    assert (new_value (var ++ $"=" ++ val) t = Done (var, val) t) as Hnew.
    { unfold new_value. change ($"=" ++ val) with (chr 61 :: val). rewrite index_of_app by (by apply index_of_none).
      rewrite take_app_length, drop_app_ge by lia.
      replace (S (length var) - length var)%nat with 1%nat by lia. cbn [drop]. by rewrite snprintf_s_id. }
    unfold do_setvar. rewrite (bind_done _ _ _ _ _ Hnew), Hdot. cbn [negb].
    unfold do_set. rewrite set_request_line by done.
    destruct (ask_run ($"Can't set variable") ($"Set variable failed") line SMALLBUF t ($"OK") [] more)
      as (c' & Hask & _ & _ & Hsent); [done|by intros [_ ?]%app_eq_nil| | | |exact Hd|].
    + apply (bool_decide_unpack _). vm_compute. exact I.
    + apply (bool_decide_unpack _). vm_compute. exact I.
    + apply Nat.ltb_lt. reflexivity.
    + exists c'. split; [|done]. change (mret tt) with (fun t : term => Done tt t). unfold mbind at 1, TM_bind at 1.
      fold line. rewrite (bind_done _ _ _ _ _ Hask). reflexivity.
Qed.

Lemma upsrw_sets_driver_witness :
  let w := set_w_clients idle_world [mkClient 0 ($"::1") 100 None (Some ($"x")) (Some ($"admin")) 0 pconf_init] in
  let val := qt ++ $" #\ b" in
  let line := render (set_request ($"su700") ($"ups.id") val) ++ [LF] in
  wp (client_readline 0 (ReadData line))
    (fun _ w' => exists out ans, w_out w' = [] ++ [ToDriver 0 out true; ToClient 0 ans true]
       /\ args (feed_chars pconf_init out).2 = [$"SET"; $"ups.id"; val]
       /\ forall t more, usable (t_conn t) -> delivers (t_conn t) ans more ->
          exists c', do_setvar false 10 ($"su700") ($"ups.id" ++ $"=" ++ val) t
              = Done tt (set_t_stderr (set_t_conn t c') (t_stderr t ++ $"OK" ++ [LF]))
            /\ nt_sent (cn_net c') = nt_sent (cn_net (t_conn t)) ++ [line]) w.
Proof.
  intros w val line.
  assert (exists node, state_tree_find (u_inforoot demo_ups) ($"ups.id") = Some node /\ value_allowed node val)
    as (node & Hnode & Hval).
  { eexists. split; [vm_compute; reflexivity|]. unfold value_allowed. vm_compute. split_and!; done. }
  apply (upsrw_sets_driver w 0 (mkClient 0 ($"::1") 100 None (Some ($"x")) (Some ($"admin")) 0 pconf_init)
    ($"su700") ($"ups.id") val 0 demo_ups node pconf_init 10).
  - reflexivity.
  - apply ready_init.
  - discriminate.
  - discriminate.
  - reflexivity.
  - by vm_compute.
  - reflexivity.
  - reflexivity.
  - split; reflexivity.
  - reflexivity.
  - exact Hnode.
  - exact Hval.
  - apply (bool_decide_unpack _). vm_compute. exact I.
  - apply Nat.ltb_lt. vm_compute. reflexivity.
  - reflexivity.
  - reflexivity.
  - apply ready_init.
Defined.

(** ** The result of a setting *)

(** The lines that upsd answers while it has no result *)
Definition pending_lines (n : nat) : bytes := concat (replicate n ($"PENDING" ++ [LF])).

Definition tracking_request (id : bytes) : bytes := $"GET TRACKING " ++ id ++ [LF].

Lemma tracking_round t buf id rest more timeout start fuel :
  usable (t_conn t) -> t_waits t = [] -> length id = 36%nat -> t_now t - start < timeout ->
  LF ∉ buf -> no_nul buf -> (length buf < SMALLBUF - 1)%nat -> delivers (t_conn t) (buf ++ LF :: rest) more ->
  exists c', usable c' /\ delivers c' rest more
    /\ nt_sent (cn_net c') = nt_sent (cn_net (t_conn t)) ++ [tracking_request id]
    /\ tracking_loop (S fuel) timeout start id t
       = if negb (strncmp buf ($"PENDING") 7 =? 0) then Done buf (set_t_conn t c')
         else tracking_loop fuel timeout start id (set_t_clock (set_t_conn t c') (t_now t + 1) []).
Proof.
  intros Hu Hw Hid Ht Hlf Hnul Hn Hd.
  destruct (sendline_usable (t_conn t) (tracking_request id) Hu) as (c1 & Hs & Hu1 & _ & Hsent1 & Hd1); [done|].
  pose proof Hu1 as (Hc1 & Hfd1 & Hm1 & Hp1 & Hw1).
  destruct (readline_line c1 buf rest more SMALLBUF) as (c2 & Hr & Hc2 & Hs2 & Hd2 & Hsent2 & Hw2);
    [done..|by apply Hd1|done|done|done|].
  exists c2. split; [|split; [done|split; [by rewrite Hsent2|]]].
  { destruct Hs2 as (_ & _ & Hfd2 & Hm2 & Hctx2). split_and!; congruence. }
  cbn [tracking_loop]. rewrite (bind_done time _ t (t_now t) t) by done.
  destruct (Z.leb_spec timeout (t_now t - start)); [lia|].
  assert (snprintf_s SMALLBUF ($"GET TRACKING " ++ id ++ [LF]) = tracking_request id) as ->.
  { unfold tracking_request. apply snprintf_s_id. rewrite !length_app, Hid. apply Nat.ltb_lt. reflexivity. }
  rewrite (bind_done _ _ _ _ _ (sendline_run _ t)), Hs. cbn [fst snd Z.ltb Z.compare].
  rewrite (bind_done _ _ _ _ _ (readline_timeout_run SMALLBUF (set_t_conn t c1))). cbn [t_conn set_t_conn].
  rewrite Hr. cbn [fst snd Z.ltb Z.compare]. unfold next_wait. cbn [t_waits t_now set_t_conn]. rewrite Hw. cbn [tail].
  change (Z.of_nat 0) with 0. rewrite Z.add_0_r.
  destruct (negb (strncmp buf ($"PENDING") 7 =? 0)).
  - destruct t. cbn in *. by subst.
  - reflexivity.
Qed.

(** The rounds in which the result is still pending *)
Lemma pending_rounds n : forall t id rest more timeout start fuel,
  usable (t_conn t) -> t_waits t = [] -> length id = 36%nat -> t_now t - start + Z.of_nat n <= timeout ->
  delivers (t_conn t) (pending_lines n ++ rest) more ->
  exists c', usable c' /\ delivers c' rest more
    /\ nt_sent (cn_net c') = nt_sent (cn_net (t_conn t)) ++ replicate n (tracking_request id)
    /\ tracking_loop (n + fuel) timeout start id t
       = tracking_loop fuel timeout start id (set_t_clock (set_t_conn t c') (t_now t + Z.of_nat n) []).
Proof.
  induction n as [|n IH]; intros t id rest more timeout start fuel Hu Hw Hid Ht Hd.
  - exists (t_conn t). cbn [replicate]. rewrite app_nil_r. split_and!; try done. change (Z.of_nat 0) with 0.
    rewrite Z.add_0_r. destruct t. cbn in *. by subst.
  - change (pending_lines (S n)) with (($"PENDING" ++ [LF]) ++ pending_lines n) in Hd. rewrite <- !app_assoc in Hd.
    destruct (tracking_round t ($"PENDING") id (pending_lines n ++ rest) more timeout start (n + fuel))
      as (c1 & Hu1 & Hd1 & Hs1 & Hrun); [done..|lia| | | |exact Hd|].
    { apply (bool_decide_unpack _). vm_compute. exact I. }
    { apply (bool_decide_unpack _). vm_compute. exact I. }
    { apply Nat.ltb_lt. reflexivity. }
    change (negb (strncmp ($"PENDING") ($"PENDING") 7 =? 0)) with false in Hrun. cbv iota in Hrun.
    set (t1 := set_t_clock (set_t_conn t c1) (t_now t + 1) []) in *.
    destruct (IH t1 id rest more timeout start fuel) as (c' & Hu' & Hd' & Hs' & Hrun'); try done; [simpl; lia|].
    exists c'. split_and!; [done|done| |].
    + rewrite Hs'. unfold t1. cbn [t_conn set_t_conn set_t_clock]. by rewrite Hs1, <- app_assoc.
    + change (S n + fuel)%nat with (S (n + fuel)). rewrite Hrun, Hrun'. f_equal. unfold t1, set_t_clock, set_t_conn.
      cbn [t_now t_conn t_stdout t_stderr t_stdin t_getpass t_syserr]. f_equal. lia.
Qed.

(** A server that sends these bytes, and a terminal *)
Definition demo_term (reads : list read_result) : term := mkTerm (demo_conn reads) [] [] [] None 1700000000 [] [].

(** The wait, when the result comes in time *)
Lemma wait_reports t timeout id n result rest more :
  usable (t_conn t) -> t_waits t = [] -> Z.of_nat n < timeout -> length id = 36%nat ->
  Forall printable result -> (length result < SMALLBUF - 1)%nat -> strncmp result ($"PENDING") 7 <> 0 ->
  delivers (t_conn t) (pending_lines n ++ result ++ LF :: rest) more ->
  exists c', nt_sent (cn_net c') = nt_sent (cn_net (t_conn t)) ++ replicate (S n) (tracking_request id)
    /\ tracking_loop (S (Z.to_nat timeout)) timeout (t_now t) id t
       = Done result (set_t_clock (set_t_conn t c') (t_now t + Z.of_nat n) []).
Proof.
  intros Hu Hw Hlt Hid Hres Hlr Hnp Hd.
  destruct (pending_rounds n t id (result ++ LF :: rest) more timeout (t_now t) (S (Z.to_nat timeout - n)))
    as (c2 & Hu2 & Hd2 & Hs2 & Hrun); try done; [lia|].
  set (t2 := set_t_clock (set_t_conn t c2) (t_now t + Z.of_nat n) []) in *.
  destruct (tracking_round t2 result id rest more timeout (t_now t) (Z.to_nat timeout - n))
    as (c3 & _ & _ & Hs3 & Hrun3); try done; [simpl; lia|by apply printable_no_lf|by apply printable_no_nul|].
  rewrite (proj2 (Z.eqb_neq _ _) Hnp) in Hrun3. cbn [negb] in Hrun3. exists c3. split.
  - rewrite Hs3. unfold t2. cbn [t_conn set_t_clock set_t_conn]. by rewrite Hs2, <- app_assoc, <- replicate_cons_app.
  - replace (S (Z.to_nat timeout)) with (n + S (Z.to_nat timeout - n))%nat by lia. by rewrite Hrun, Hrun3.
Qed.

(** The wait, when it does not *)
Lemma wait_gives_up t timeout id n rest more :
  usable (t_conn t) -> t_waits t = [] -> 0 <= timeout <= Z.of_nat n -> length id = 36%nat ->
  delivers (t_conn t) (pending_lines n ++ rest) more ->
  exists c', nt_sent (cn_net c') = nt_sent (cn_net (t_conn t)) ++ replicate (Z.to_nat timeout) (tracking_request id)
    /\ tracking_loop (S (Z.to_nat timeout)) timeout (t_now t) id t
       = Exits EXIT_FAILURE (set_t_stderr (set_t_clock (set_t_conn t c') (t_now t + timeout) [])
           (t_stderr t ++ $"Can't receive status tracking information: timeout" ++ [LF])).
Proof.
  intros Hu Hw Hge Hid Hd. set (m := Z.to_nat timeout).
  assert (pending_lines n = pending_lines m ++ pending_lines (n - m)) as Hsplit.
  { unfold pending_lines. rewrite <- concat_app, <- replicate_add. do 2 f_equal. lia. }
  rewrite Hsplit, <- app_assoc in Hd.
  destruct (pending_rounds m t id (pending_lines (n - m) ++ rest) more timeout (t_now t) 1)
    as (c2 & Hu2 & Hd2 & Hs2 & Hrun); try done; [lia|].
  replace (m + 1)%nat with (S m) in Hrun by lia. exists c2. split; [done|].
  rewrite Hrun. cbn [tracking_loop]. set (t2 := set_t_clock (set_t_conn t c2) (t_now t + Z.of_nat m) []).
  rewrite (bind_done time _ t2 (t_now t2) t2) by done.
  assert (timeout <=? t_now t2 - t_now t = true) as -> by (apply Z.leb_le; unfold t2; simpl; lia).
  unfold fatalx, eputs, exit, mbind, TM_bind. unfold t2, set_t_stderr, set_t_clock, set_t_conn. cbn. do 2 f_equal. lia.
Qed.



(** ** Lists that are cut short *)

(** The next read fails, or finds the connection closed or the time over. *)
Definition conn_lost (more : list read_result) : Prop :=
  match more with [] | RData [] :: _ | RError :: _ => True | _ => False end.

Lemma list_next_lost c q more :
  usable c -> delivers c [] more -> conn_lost more -> exists r c', upscli_list_next c q = Some (r, c') /\ r <> 1 /\ True.
Proof.
  intros (Hc & Hfd & Hm & Hp & Hw) (chunks & Hne & Hreads & Hnil) Hlost.
  apply app_eq_nil in Hnil as [Hbuf Hcat].
  assert (chunks = []) as ->.
  { destruct chunks as [|d chunks]; [done|]. apply Forall_cons in Hne as [Hd _]. by apply app_eq_nil in Hcat as [? _]. }
  cbn [map app] in Hreads.
  assert (cn_readidx c = cn_readlen c) as Hidx.
  { destruct Hc as [_ Hi Hl _]. unfold buffered in Hbuf. apply (f_equal length) in Hbuf.
    rewrite length_drop, length_take in Hbuf. simpl in Hbuf. lia. }
  assert (exists buf c', upscli_readline c UPSCLI_NETBUF_LEN = (-1, buf, c')) as (buf & c' & Hr).
  { unfold upscli_readline, upscli_readline_timeout, upscli_readline_timeout_may_disconnect.
    destruct (Z.ltb_spec (cn_fd c) 0); [lia|]. rewrite Hm, Z.eqb_refl. cbn [negb].
    change (UPSCLI_NETBUF_LEN <? 1)%nat with false. cbv iota.
    change (UPSCLI_NETBUF_LEN - 1)%nat with (S 510). cbn [readline_loop]. rewrite Hidx, Nat.eqb_refl.
    unfold net_read. rewrite Hreads. destruct more as [|[[|x d]|] more]; try done; cbn; by eexists _, _. }
  exists (-1), c'. split_and!; try done. unfold upscli_list_next. by rewrite Hr.
Qed.

(** A list that is cut short is shown as if it were whole: when the connection to upsd is lost after some rows, upsc prints
    those and, as JSON, closes the object, so that the text reads back as a whole one; it says nothing and ends with
    success, because the loop over the rows does not tell their end from a failure. *)
Theorem cut_list_looks_whole json ups rows t more :
  usable (t_conn t) -> ups_ok ups -> Forall (fun p => row_ok [$"VAR"; ups] (var_row ups p)) rows ->
  delivers (t_conn t) (render (begin_list [$"VAR"; ups]) ++ LF :: rows_lines (map (var_row ups) rows)) more -> conn_lost more ->
  t_stdout t = [] ->
  exists t', clean_exit (list_vars json ups t) = Done EXIT_SUCCESS t' /\ t_stdout t' = vars_text json rows
    /\ t_stderr t' = t_stderr t /\ (json = true -> json_object (t_stdout t') = Some rows).
Proof.
  intros Hu Hups Hrows Hd Hlost Hout. rewrite <- (app_nil_r (rows_lines _)) in Hd.
  destruct (list_vars_rows json ups rows t [] more (fun _ => True)) as (c' & Hrun & _); try done.
  { intros c Huc Hdc _. by apply (list_next_lost c _ more). }
  rewrite Hrun, Hout. eexists. split; [done|]. split_and!; try done. intros ->. apply vars_text_back.
Qed.

Lemma cut_list_looks_whole_witness :
  let rows := [($"ups.id", $"a")] in
  let d := render (begin_list [$"VAR"; $"su700"]) ++ LF :: rows_lines (map (var_row ($"su700")) rows) in
  exists t', clean_exit (list_vars true ($"su700") (demo_term [RData d; RError])) = Done EXIT_SUCCESS t'
    /\ t_stderr t' = [] /\ json_object (t_stdout t') = Some rows.
Proof.
  intros rows d.
  destruct (cut_list_looks_whole true ($"su700") rows (demo_term [RData d; RError]) [RError]) as (t' & H1 & _ & H2 & H3).
  - apply demo_usable.
  - apply (bool_decide_unpack _). vm_compute. exact I.
  - apply (bool_decide_unpack _). vm_compute. exact I.
  - exists [d]. split_and!; [apply (bool_decide_unpack _); vm_compute; exact I|reflexivity|by vm_compute].
  - exact I.
  - reflexivity.
  - exists t'. split_and!; [exact H1|exact H2|exact (H3 eq_refl)].
Defined.

(** C36. What upsc -j prints is JSON: for the variables of a UPS, with any names and values that fit into lines of the protocol,
    the text is one object whose members are exactly the variables with their values, in order; quotes and
    backslashes are escaped so that they read back. *)
Theorem upsc_json_reads_back ups rows t rest more :
  usable (t_conn t) -> ups_ok ups -> Forall (fun p => row_ok [$"VAR"; ups] (var_row ups p)) rows ->
  delivers (t_conn t) (list_lines [$"VAR"; ups] (map (var_row ups) rows) ++ rest) more ->
  exists c' text, list_vars true ups t = Done tt (set_t_stdout (set_t_conn t c') (t_stdout t ++ text))
    /\ json_object text = Some rows /\ delivers c' rest more.
Proof.
  intros Hu Hups Hrows Hd. destruct (list_vars_shows true ups rows t rest more) as (c' & Hrun & _ & Hd' & _); try done.
  exists c', (vars_text true rows). split_and!; [done|apply vars_text_back|done].
Qed.

Lemma upsc_json_reads_back_witness :
  let rows := [($"ups.id", $"a " ++ qt ++ $"b" ++ qt ++ $" \c"); ($"ups.status", $"OL")] in
  let d := list_lines [$"VAR"; $"su700"] (map (var_row ($"su700")) rows) in
  exists c' text, list_vars true ($"su700") (demo_term [RData (take 30 d); RData (drop 30 d)])
      = Done tt (set_t_stdout (set_t_conn (demo_term [RData (take 30 d); RData (drop 30 d)]) c') ([] ++ text))
    /\ json_object text = Some rows.
Proof.
  intros rows d.
  destruct (upsc_json_reads_back ($"su700") rows (demo_term [RData (take 30 d); RData (drop 30 d)]) [] []) as (c' & text & H1 & H2 & _).
  - apply demo_usable.
  - apply (bool_decide_unpack _). vm_compute. exact I.
  - apply (bool_decide_unpack _). vm_compute. exact I.
  - exists [take 30 d; drop 30 d]. split_and!; [apply (bool_decide_unpack _); vm_compute; exact I|reflexivity|by vm_compute].
  - exists c', text. split; [exact H1|exact H2].
Defined.

(** ** Faults found *)

(** An answer of three words passes the check [numa < numq], and then the fourth is read. *)
Lemma short_answer_reads_outside :
  printvar false ($"su700") ($"ups.id") (demo_term [RData ($"VAR su700 ups.id" ++ [LF])]) = Undefined
  /\ print_cmd ($"su700") ($"beeper.off") (demo_term [RData ($"CMDDESC su700 beeper.off" ++ [LF])]) = Undefined.
Proof. split; vm_compute; reflexivity. Qed.

(** Without -u, upscmd passes an array that was never set as the user name. *)
Lemma upscmd_uses_unset_name o st ups cmdname argv t :
  sr_ret (upscli_splitname ups) = 0 -> strchr cmdname (chr 46) = true ->
  (upscli_tryconnect (st_dial st) (st_hostcert st) (sr_hostname (upscli_splitname ups))
     (default 0 (sr_port (upscli_splitname ups))) (st_flags st)).1 = 0 ->
  st_auth st = None -> o_username o = None ->
  upscmd_main false o st (ups :: cmdname :: argv) t = Undefined.
Proof.
  intros Hs Hdot Hconn Hauth Hname. unfold upscmd_main, upscmd_run.
  assert (exists t1, call_server st ups (set_t_conn t fresh_conn) = Done (default [] (sr_upsname (upscli_splitname ups))) t1)
    as (t1 & Hcall).
  { unfold call_server. rewrite Hs. cbn [Z.eqb negb]. unfold connect, mbind, TM_bind.
    destruct (upscli_tryconnect _ _ _ _ _) as [r c]. cbn [fst] in Hconn. subst r. by eexists. }
  rewrite (bind_done _ _ _ _ _ Hcall), Hdot. cbn [negb]. unfold authenticate. rewrite Hauth, Hname. reflexivity.
Qed.

(** A blank line is not taken for the proposed user name, since a text of one character keeps its newline. *)
Lemma blank_line_is_a_name pw t s :
  t_stdin t = LF :: s -> exists t', ask_username pw t = Done (Some [LF]) t'.
Proof.
  intros Hs. unfold ask_username, fgets, puts, mbind, TM_bind. cbn [t_stdin set_t_stdout]. rewrite Hs.
  cbn [fgets_take]. change (UPSCLI_NETBUF_LEN - 12 - 1)%nat with (S 498). cbn [fgets_take Ascii.eqb]. by eexists.
Qed.

(** The value of upscmd is sent as it is: one of two words reaches upsd as two, and upsd then takes the command to have
    none. *)
Lemma upscmd_value_is_lost c cl ups cmdname a b :
  ready c -> line_ok [Bare ($"INSTCMD"); Bare ups; Bare cmdname; Bare a; Bare b] ->
  args (feed_chars c ($"INSTCMD " ++ ups ++ $" " ++ cmdname ++ $" " ++ (a ++ $" " ++ b) ++ [LF])).2
  = [$"INSTCMD"; ups; cmdname; a; b]
  /\ net_instcmd cl [ups; cmdname; a; b] = net_instcmd cl [ups; cmdname].
Proof.
  intros Hc Hok. split; [|reflexivity].
  destruct (feed_line c _ Hc Hok) as (_ & Ha & _). cbn [map token_word] in Ha. rewrite <- Ha.
  do 3 f_equal. cbn [render render_token]. by rewrite <- !app_assoc.
Qed.
