(* ===== verification/Liveness.v ===== *)
(** * Silent drivers

    What the service loop decides about a connected driver, and what clients are then told. *)

From S2P Require Import Prelude CStr ParseConf StateTree StateFacts Users Desc Tracking World.
From S2P Require Import SState Upsd NetGet NetList NetUser NetSet Server ServerLib.
From S2P Require Import ServerFacts ListFacts EndToEnd.
From stdpp Require Import options.

(** ** The verdict of a scan *)

(** Silent for over a second more than MAXAGE, or at most MAXAGE but with data it
    declared stale after its dump. *)
Definition dead (maxage elapsed : Z) (u : upstype) : bool :=
  (elapsed >? maxage + 1) || ((elapsed <=? maxage) && negb (u_dumpdone u =? 0) && (u_data_ok u =? 0)).

(** Silent for a third of MAXAGE, and no PING in that time. *)
Definition ping_due (maxage elapsed since_ping : Z) : bool :=
  (elapsed >? Z.quot maxage 3) && (since_ping >? Z.quot maxage 3).

(** Only the UPS at [i] changed. *)
Record scanned (i : nat) (u' : upstype) (w w' : world) : Prop := {
  sc_ups : w_ups w' = <[i := u']> (w_ups w);
  sc_clients : w_clients w' = w_clients w;
  sc_tracking : w_tracking w' = w_tracking w;
  sc_now : w_now w' = w_now w;
  sc_conf : w_conf w' = w_conf w
}.

Lemma scanned_refl i u w : w_ups w !! i = Some u -> scanned i u w w.
Proof. intros Hu. split; try done. symmetry. by apply list_insert_id. Qed.

Lemma scanned_upd i u1 f w w1 : scanned i u1 w w1 -> (i < length (w_ups w))%nat ->
  scanned i (f u1) w (set_w_ups w1 (alter f i (w_ups w1))).
Proof.
  intros [E ? ? ? ?] Hi. split; simpl; try done. rewrite E.
  apply list_eq. intros j. destruct (decide (j = i)) as [->|Hne].
  - by rewrite list_lookup_alter_eq, !list_lookup_insert_eq.
  - by rewrite list_lookup_alter_ne, !list_lookup_insert_ne by done.
Qed.

Lemma scanned_lookup i u1 w w1 : scanned i u1 w w1 -> (i < length (w_ups w))%nat -> w_ups w1 !! i = Some u1.
Proof. intros [-> _ _ _ _] Hi. by apply list_lookup_insert_eq. Qed.

(** The PING of a scan: none was due, or one was written and failing that the driver was disconnected. *)
Definition pinged (i : nat) (due : bool) (u u' : upstype) (w w' : world) : Prop :=
  if due then
    exists ok, w_out w' = w_out w ++ [ToDriver i ($"PING" ++ [LF]) ok] /\ u_conn u' = ok /\
      u_inforoot u' = (if ok then u_inforoot u else Leaf)
  else w_out w' = w_out w /\ u_conn u' = u_conn u /\ u_inforoot u' = u_inforoot u.

(** What a PING leaves as it was. *)
Definition same_data (u u' : upstype) : Prop :=
  u_name u' = u_name u /\ u_last_heard u' = u_last_heard u /\ u_dumpdone u' = u_dumpdone u /\
  u_data_ok u' = u_data_ok u /\ u_stale u' = u_stale u.

Lemma sendping_wp i u w : w_ups w !! i = Some u -> u_conn u = true ->
  wp (sendping i) (fun _ w' => exists u', scanned i u' w w' /\ same_data u u' /\ pinged i true u u' w w') w.
Proof.
  intros Hu Hc. pose proof (lookup_lt_Some _ _ _ Hu) as Hi.
  unfold sendping. apply wp_bind. eapply wp_ups_get; [done|]. rewrite Hc. simpl negb. cbv iota.
  unfold driver_write. apply wp_bind, wp_bind, wp_syscall. intros ok bs.
  apply wp_bind. unfold emit. apply wp_modify, wp_ret.
  set (w1 := set_w_out _ _).
  assert (scanned i u w w1) as Hs.
  { destruct (scanned_refl i u w Hu). by split. }
  destruct ok; simpl negb; cbv iota.
  - apply wp_bind, wp_get. eapply wp_ups_upd; [by apply (scanned_lookup i u w)|].
    eexists. split; [by apply (scanned_upd i u _ w)|]. split; [done|]. by exists true.
  - unfold sstate_disconnect. apply wp_bind. eapply wp_ups_get; [by apply (scanned_lookup i u w)|].
    rewrite Hc. simpl negb. cbv iota. unfold sstate_infofree, sstate_cmdfree.
    do 3 (apply wp_bind; eapply wp_ups_upd; [by apply (scanned_lookup i _ w); [eauto using scanned_upd|]|]).
    eapply wp_ups_upd; [by apply (scanned_lookup i _ w); [eauto 10 using scanned_upd|]|].
    eexists. split; [by eauto 10 using scanned_upd|]. split; [done|]. by exists false.
Qed.

(** The verdict as an [int]. *)
Lemma sstate_dead_wp i u maxage w : w_ups w !! i = Some u -> u_conn u = true ->
  let elapsed := w_now w - u_last_heard u in
  wp (sstate_dead i maxage) (fun r w' => r = Zbool (dead maxage elapsed u) /\
    exists u', scanned i u' w w' /\ same_data u u' /\
      pinged i (ping_due maxage elapsed (w_now w - u_last_ping u)) u u' w w') w.
Proof.
  intros Hu Hc elapsed. pose proof (lookup_lt_Some _ _ _ Hu) as Hi.
  unfold sstate_dead. apply wp_bind. eapply wp_ups_get; [done|]. rewrite Hc. simpl negb. cbv iota.
  apply wp_bind, wp_get. fold elapsed. apply wp_bind.
  eapply (wp_mono _ (fun _ w' => exists u', scanned i u' w w' /\ same_data u u' /\
      pinged i (ping_due maxage elapsed (w_now w - u_last_ping u)) u u' w w')).
  - apply wp_when. unfold ping_due. destruct (_ && _); [by apply sendping_wp|].
    exists u. split; [by apply scanned_refl|]. by split.
  - intros [] w' (u' & Hs & (Hn & Hh & Hd & Ho & Hst) & Hp). unfold dead.
    assert (exists u', scanned i u' w w' /\ same_data u u' /\
      pinged i (ping_due maxage elapsed (w_now w - u_last_ping u)) u u' w w') as Hex by (by exists u').
    destruct (elapsed >? maxage + 1) eqn:E1; [by apply wp_ret|].
    rewrite Z.gtb_ltb. destruct (Z.ltb_spec maxage elapsed).
    + rewrite (proj2 (Z.leb_gt _ _)) by lia. by apply wp_ret.
    + rewrite (proj2 (Z.leb_le _ _)) by lia. apply wp_bind. eapply wp_ups_get; [by apply (scanned_lookup i u' w)|].
      rewrite Hd, Ho. destruct (negb (u_dumpdone u =? 0) && (u_data_ok u =? 0)) eqn:E2;
        cbn [andb orb]; rewrite ?E2; by apply wp_ret.
Qed.

Lemma driver_scan_wp i u w : w_ups w !! i = Some u -> u_conn u = true ->
  let maxage := maxage (w_conf w) in
  let elapsed := w_now w - u_last_heard u in
  wp (driver_scan i) (fun _ w' => exists u', scanned i u' w w' /\
    u_stale u' = Zbool (dead maxage elapsed u) /\ u_name u' = u_name u /\
    pinged i (ping_due maxage elapsed (w_now w - u_last_ping u)) u u' w w') w.
Proof.
  intros Hu Hc maxage elapsed. pose proof (lookup_lt_Some _ _ _ Hu) as Hi.
  unfold driver_scan. apply wp_bind, wp_get. apply wp_bind. eapply wp_ups_get; [done|]. rewrite Hc.
  simpl negb. cbv iota. apply wp_bind, wp_ret. simpl negb. cbv iota. apply wp_bind.
  eapply wp_mono; [by apply (sstate_dead_wp i u)|]. fold maxage elapsed.
  intros r w' (-> & u' & Hs & Hsame & Hp).
  assert (forall f, (forall u, u_conn (f u) = u_conn u) -> (forall u, u_inforoot (f u) = u_inforoot u) ->
    pinged i (ping_due maxage elapsed (w_now w - u_last_ping u)) u (f u') w (set_w_ups w' (alter f i (w_ups w')))) as Hf.
  { intros f Hfc Hft. revert Hp. unfold pinged. by rewrite Hfc, Hft. }
  destruct (dead maxage elapsed u); simpl negb; cbv iota; unfold ups_data_stale, ups_data_ok;
    (apply wp_bind; eapply wp_ups_get; [by apply (scanned_lookup i u' w)|]).
  - destruct (Z.eqb_spec (u_stale u') 1); [apply wp_ret; exists u'; by split_and!; try apply Hsame|].
    eapply wp_ups_upd; [by apply (scanned_lookup i u' w)|].
    exists (set_u_stale u' 1). split; [by apply (scanned_upd i u' (fun u => set_u_stale u 1))|]. split; [done|]. split; [apply Hsame|].
    by apply (Hf (fun u => set_u_stale u 1)).
  - destruct (Z.eqb_spec (u_stale u') 0); [apply wp_ret; exists u'; by split_and!; try apply Hsame|].
    eapply wp_ups_upd; [by apply (scanned_lookup i u' w)|].
    exists (set_u_stale u' 0). split; [by apply (scanned_upd i u' (fun u => set_u_stale u 0))|]. split; [done|]. split; [apply Hsame|].
    by apply (Hf (fun u => set_u_stale u 0)).
Qed.

(** The verdict of the service loop about a connected driver: its data is
    marked stale exactly if nothing was heard from it for over a second more than MAXAGE, or if it is within MAXAGE
    but says so itself after its dump; a PING is sent exactly if it has been silent for a third of MAXAGE
    and none was sent in that time; if the PING cannot be written the driver is
    disconnected and its variables are dropped; no other UPS and no client is affected. *)
Theorem driver_scan_verdict i u w : w_ups w !! i = Some u -> u_conn u = true ->
  let maxage := maxage (w_conf w) in
  let elapsed := w_now w - u_last_heard u in
  wp (driver_scan i) (fun _ w' => exists u', scanned i u' w w' /\
    u_stale u' = Zbool (dead maxage elapsed u) /\
    pinged i (ping_due maxage elapsed (w_now w - u_last_ping u)) u u' w w') w.
Proof.
  intros Hu Hc maxage elapsed. eapply wp_mono; [by apply (driver_scan_wp i u)|].
  intros [] w' (u' & Hs & Hst & _ & Hp). by exists u'.
Qed.

(** A driver last heard 20 seconds ago, with MAXAGE 15. *)
Definition silent_world : world :=
  set_w_now (demo_world ($"GET VAR su700 ups.id") (Some ($"admin")) (Some ($"x"))) 120.

Lemma driver_scan_verdict_witness :
  wp (driver_scan 0) (fun _ w' => exists u', scanned 0 u' silent_world w' /\ u_stale u' = 1 /\
    pinged 0 true demo_ups u' silent_world w') silent_world.
Proof. apply (driver_scan_verdict 0 demo_ups silent_world); reflexivity. Defined.

(** ** What clients are told *)

Lemma ups_find_rename l name i (u u' : upstype) :
  l !! i = Some u -> u_name u' = u_name u -> ups_find (<[i := u']> l) name = ups_find l name.
Proof.
  intros Hl Hn. revert i Hl. induction l as [|v l IH]; intros [|i] Hl; simpl in *; simplify_eq; try done.
  - by rewrite Hn.
  - by rewrite IH.
Qed.

(** An error line, whatever else is sent to drivers before. *)
Definition refused (cl : nat) (w w' : world) : Prop :=
  exists pre ok err, w_out w' = w_out w ++ pre ++ [ToClient cl ($"ERR " ++ err ++ [LF]) ok] /\
    (err = NUT_ERR_DATA_STALE \/ err = NUT_ERR_DRIVER_NOT_CONNECTED) /\
    Forall (fun o => ~ to_client cl o) pre.

Lemma get_var_unavailable cl c upsname var i u w :
  client_find cl (w_clients w) = Some c -> ups_find (w_ups w) upsname = Some i ->
  w_ups w !! i = Some u -> ~ available u -> (strncasecmp var ($"server.") 7 =? 0) = false ->
  wp (get_var cl upsname var) (fun _ w' => refused cl w w') w.
Proof.
  intros Hc Hf Hu Ha Hs. unfold wp, get_var. rewrite Hs, (get_ups_at _ _ _ _ Hf).
  assert (exists err, (err = NUT_ERR_DATA_STALE \/ err = NUT_ERR_DRIVER_NOT_CONNECTED) /\
    ups_available i cl w = Some (0, (sent1 cl ($"ERR " ++ err ++ [LF]) w).2)) as (err & Herr & E).
  { unfold ups_available. rewrite (ups_get_at _ _ _ _ Hu). unfold available in Ha.
    destruct (u_conn u); cbn [negb].
    - exists NUT_ERR_DATA_STALE. split; [by left|].
      rewrite (proj2 (Z.eqb_neq (u_stale u) 0)) by auto. cbn [negb].
      unfold send_err, mbind, M_bind. erewrite sendback_script by done. by destruct (sent1 _ _ _).
    - exists NUT_ERR_DRIVER_NOT_CONNECTED. split; [by right|].
      unfold send_err, mbind, M_bind. erewrite sendback_script by done. by destruct (sent1 _ _ _). }
  unfold mbind, M_bind. rewrite E. cbn [Z.eqb mret M_ret].
  destruct (sent1_out cl ($"ERR " ++ err ++ [LF]) w) as [ok Ho].
  { destruct Herr as [-> | ->]; apply Nat.leb_le; reflexivity. }
  exists [], ok, err. by split_and!.
Qed.

(** C37. Stale data is never served: once a driver has been silent for over a second more than
    MAXAGE, from the next pass of the service loop on a client that asks for one of
    its variables is sent a single line, ERR DATA-STALE or ERR DRIVER-NOT-CONNECTED, and no value. *)
Theorem silent_driver_is_not_served i u cl c upsname var w :
  w_ups w !! i = Some u -> u_conn u = true -> w_now w - u_last_heard u > maxage (w_conf w) + 1 ->
  client_find cl (w_clients w) = Some c -> ups_find (w_ups w) upsname = Some i ->
  (strncasecmp var ($"server.") 7 =? 0) = false ->
  wp (driver_scan i ;; get_var cl upsname var) (fun _ w' => refused cl w w') w.
Proof.
  intros Hu Hconn Hlate Hc Hf Hs. pose proof (lookup_lt_Some _ _ _ Hu) as Hi.
  apply wp_bind. eapply wp_mono; [apply (driver_scan_wp i u w Hu Hconn)|].
  intros [] w1 (u1 & Hs1 & Hstale & Hname & Hp).
  assert (u_stale u1 = 1) as Hst.
  { rewrite Hstale. unfold dead. by rewrite (proj2 (Z.gtb_gt _ _)) by lia. }
  eapply wp_mono.
  - apply (get_var_unavailable cl c upsname var i u1).
    + by rewrite (sc_clients _ _ _ _ Hs1).
    + rewrite (sc_ups _ _ _ _ Hs1), <- Hf. by apply ups_find_rename with u.
    + by apply (scanned_lookup i u1 w).
    + intros [_ E]. by rewrite E in Hst.
    + done.
  - intros [] w2 (pre & ok & err & Ho & Herr & Hpre). unfold pinged in Hp.
    destruct (ping_due _ _ _).
    + destruct Hp as (okp & Hop & _). exists (ToDriver i ($"PING" ++ [LF]) okp :: pre), ok, err.
      rewrite Ho, Hop, <- app_assoc. split_and!; [done|done|]. constructor; [|done].
      by intros (? & ? & ?).
    + destruct Hp as (Hop & _). exists pre, ok, err. by rewrite Ho, Hop.
Qed.

Lemma silent_driver_is_not_served_witness :
  wp (driver_scan 0 ;; get_var 0 ($"su700") ($"ups.id")) (fun _ w' => refused 0 silent_world w') silent_world.
Proof.
  apply (silent_driver_is_not_served 0 demo_ups 0
    (demo_client ($"GET VAR su700 ups.id") (Some ($"admin")) (Some ($"x")))); reflexivity.
Defined.
