(* ===== verification/MonState.v ===== *)
(** * The state of upsmon (clients/upsmon.c, clients/upsmon.h)

    The structure of a monitored UPS, the settings, the other globals, and the small operations that
    everything else uses: flags, the clock, notifications.

    Most functions of upsmon.c work on one UPS and the globals: they are functions on [mst], that
    pair.  The tree [status_tokens] is damaged by the code in some cases, so it is modelled with its
    pointers ([token_tree]); an operation that would follow a pointer to a freed node, or never end,
    gives [None].  The clock counts microseconds; it stands still while a function runs, and goes on
    where the code sleeps.  [fork] succeeds; the signal SIGALRM and log messages are left out. *)

From S2P Require Import Prelude CStr Fmt ParseConf UpsClient StateTree.
From stdpp Require Import options.

(** ** Flags of [ups->status] *)

Definition ST_ONLINE : Z := 1.
Definition ST_ONBATT : Z := 2.
Definition ST_LOWBATT : Z := 4.
Definition ST_FSD : Z := 8.
Definition ST_PRIMARY : Z := 16.
Definition ST_LOGIN : Z := 32.
Definition ST_CLICONNECTED : Z := 64.
Definition ST_CAL : Z := 128.
Definition ST_OFF : Z := 256.
Definition ST_BYPASS : Z := 512.
Definition ST_ECO : Z := 1024.
Definition ST_ALARM : Z := 2048.
Definition ST_OTHER : Z := 4096.
Definition ST_OVER : Z := 8192.
Definition ST_TRIM : Z := 16384.
Definition ST_BOOST : Z := 32768.

Definition setflag (val flag : Z) : Z := Z.lor val flag.
Definition clearflag (val flag : Z) : Z := Z.lxor val (Z.land val flag).
Definition flag_isset (num flag : Z) : bool := Z.land num flag =? flag.

(** ** Notifications *)

Definition NOTIFY_ONLINE : Z := 0.
Definition NOTIFY_ONBATT : Z := 1.
Definition NOTIFY_LOWBATT : Z := 2.
Definition NOTIFY_FSD : Z := 3.
Definition NOTIFY_COMMOK : Z := 4.
Definition NOTIFY_COMMBAD : Z := 5.
Definition NOTIFY_SHUTDOWN : Z := 6.
Definition NOTIFY_REPLBATT : Z := 7.
Definition NOTIFY_NOCOMM : Z := 8.
Definition NOTIFY_NOPARENT : Z := 9.
Definition NOTIFY_CAL : Z := 10.
Definition NOTIFY_NOTCAL : Z := 11.
Definition NOTIFY_OFF : Z := 12.
Definition NOTIFY_NOTOFF : Z := 13.
Definition NOTIFY_BYPASS : Z := 14.
Definition NOTIFY_NOTBYPASS : Z := 15.
Definition NOTIFY_ECO : Z := 16.
Definition NOTIFY_NOTECO : Z := 17.
Definition NOTIFY_ALARM : Z := 18.
Definition NOTIFY_NOTALARM : Z := 19.
Definition NOTIFY_OVER : Z := 20.
Definition NOTIFY_NOTOVER : Z := 21.
Definition NOTIFY_TRIM : Z := 22.
Definition NOTIFY_NOTTRIM : Z := 23.
Definition NOTIFY_BOOST : Z := 24.
Definition NOTIFY_NOTBOOST : Z := 25.
Definition NOTIFY_SHUTDOWN_HOSTSYNC : Z := 26.
Definition NOTIFY_SUSPEND_TIMEJUMP_UNEXPECTED : Z := 27.
Definition NOTIFY_OTHER : Z := 28.
Definition NOTIFY_NOTOTHER : Z := 29.
Definition NOTIFY_SUSPEND_STARTING : Z := 30.
Definition NOTIFY_SUSPEND_FINISHED : Z := 31.
Definition NOTIFY_IGNORE : Z := 1.
Definition NOTIFY_SYSLOG : Z := 2.
Definition NOTIFY_WALL : Z := 4.
Definition NOTIFY_EXEC : Z := 8.
Definition NOTIFY_DEFAULT : Z := Z.lor NOTIFY_SYSLOG NOTIFY_WALL.

Record notify_entry := mkNotify { ne_type : Z; ne_name : bytes; ne_msg : option bytes; ne_stockmsg : bytes; ne_flags : Z }.
Definition set_ne_msg (n : notify_entry) x := mkNotify (ne_type n) (ne_name n) x (ne_stockmsg n) (ne_flags n).
Definition set_ne_flags (n : notify_entry) x := mkNotify (ne_type n) (ne_name n) (ne_msg n) (ne_stockmsg n) x.

Definition notifylist_stock : list notify_entry := [
  mkNotify NOTIFY_ONLINE ($"ONLINE") None ($"UPS %s on line power") NOTIFY_DEFAULT;
  mkNotify NOTIFY_ONBATT ($"ONBATT") None ($"UPS %s on battery") NOTIFY_DEFAULT;
  mkNotify NOTIFY_LOWBATT ($"LOWBATT") None ($"UPS %s battery is low") NOTIFY_DEFAULT;
  mkNotify NOTIFY_FSD ($"FSD") None ($"UPS %s: forced shutdown in progress") NOTIFY_DEFAULT;
  mkNotify NOTIFY_COMMOK ($"COMMOK") None ($"Communications with UPS %s established") NOTIFY_DEFAULT;
  mkNotify NOTIFY_COMMBAD ($"COMMBAD") None ($"Communications with UPS %s lost") NOTIFY_DEFAULT;
  mkNotify NOTIFY_SHUTDOWN ($"SHUTDOWN") None ($"Auto logout and shutdown proceeding") NOTIFY_DEFAULT;
  mkNotify NOTIFY_SHUTDOWN_HOSTSYNC ($"SHUTDOWN_HOSTSYNC") None ($"Shutdown initiated; primary system is waiting for secondaries to log out or time out") NOTIFY_DEFAULT;
  mkNotify NOTIFY_REPLBATT ($"REPLBATT") None ($"UPS %s battery needs to be replaced") NOTIFY_DEFAULT;
  mkNotify NOTIFY_NOCOMM ($"NOCOMM") None ($"UPS %s is unavailable") NOTIFY_DEFAULT;
  mkNotify NOTIFY_NOPARENT ($"NOPARENT") None ($"upsmon parent process died - shutdown impossible") NOTIFY_DEFAULT;
  mkNotify NOTIFY_CAL ($"CAL") None ($"UPS %s: calibration in progress") NOTIFY_DEFAULT;
  mkNotify NOTIFY_NOTCAL ($"NOTCAL") None ($"UPS %s: calibration finished") NOTIFY_DEFAULT;
  mkNotify NOTIFY_OFF ($"OFF") None ($"UPS %s: administratively OFF or asleep") NOTIFY_DEFAULT;
  mkNotify NOTIFY_NOTOFF ($"NOTOFF") None ($"UPS %s: no longer administratively OFF or asleep") NOTIFY_DEFAULT;
  mkNotify NOTIFY_BYPASS ($"BYPASS") None ($"UPS %s: on bypass (powered, not protecting)") NOTIFY_DEFAULT;
  mkNotify NOTIFY_NOTBYPASS ($"NOTBYPASS") None ($"UPS %s: no longer on bypass") NOTIFY_DEFAULT;
  mkNotify NOTIFY_ECO ($"ECO") None ($"UPS %s: in ECO mode (as defined by vendor)") NOTIFY_DEFAULT;
  mkNotify NOTIFY_NOTECO ($"NOTECO") None ($"UPS %s: no longer in ECO mode") NOTIFY_DEFAULT;
  mkNotify NOTIFY_ALARM ($"ALARM") None ($"UPS %s: one or more active alarms: [%s]") NOTIFY_DEFAULT;
  mkNotify NOTIFY_NOTALARM ($"NOTALARM") None ($"UPS %s is no longer in an alarm state (no active alarms)") NOTIFY_DEFAULT;
  mkNotify NOTIFY_OVER ($"OVER") None ($"UPS %s: overloaded") NOTIFY_DEFAULT;
  mkNotify NOTIFY_NOTOVER ($"NOTOVER") None ($"UPS %s: no longer overloaded") NOTIFY_DEFAULT;
  mkNotify NOTIFY_TRIM ($"TRIM") None ($"UPS %s: trimming incoming voltage") NOTIFY_DEFAULT;
  mkNotify NOTIFY_NOTTRIM ($"NOTTRIM") None ($"UPS %s: no longer trimming incoming voltage") NOTIFY_DEFAULT;
  mkNotify NOTIFY_BOOST ($"BOOST") None ($"UPS %s: boosting incoming voltage") NOTIFY_DEFAULT;
  mkNotify NOTIFY_NOTBOOST ($"NOTBOOST") None ($"UPS %s: no longer boosting incoming voltage") NOTIFY_DEFAULT;
  mkNotify NOTIFY_OTHER ($"OTHER") None ($"UPS %s: has at least one unclassified status token: [%s]") NOTIFY_DEFAULT;
  mkNotify NOTIFY_NOTOTHER ($"NOTOTHER") None ($"UPS %s has no unclassified status tokens anymore") NOTIFY_DEFAULT;
  mkNotify NOTIFY_SUSPEND_TIMEJUMP_UNEXPECTED ($"SUSPEND_TIMEJUMP_UNEXPECTED") None ($"Unexpected clock change by %s, treating as wake up from sleep") NOTIFY_DEFAULT;
  mkNotify NOTIFY_SUSPEND_STARTING ($"SUSPEND_STARTING") None ($"OS is entering sleep/suspend/hibernate mode") NOTIFY_DEFAULT;
  mkNotify NOTIFY_SUSPEND_FINISHED ($"SUSPEND_FINISHED") None ($"OS just finished sleep/suspend/hibernate mode, de-activating obsolete UPS readings to avoid an unfortunate shutdown") NOTIFY_DEFAULT
].

(** ** What upsmon does to the outside

    A notice with what it is and how it goes out; a shutdown through the parent process or by the
    command; the flag file; the end of the process. *)

Inductive mout :=
| ONotice (ntype : bytes) (upsname : option bytes) (msg : fmt_result) (syslog wall : bool) (exec : option (list bytes))
| OWall (text : bytes)
| OCallParent
| OSystem (cmd : option bytes)
| OSetPdflag (fn : bytes)
| OUnlink (fn : bytes)
| OExit (code : Z).

(** ** The data *)

Inductive addr_family := AF_UNSPEC | AF_INET | AF_INET6.

(** An entry of nutauth.conf as far as [try_connect] looks at it. *)
Record authconf_item := mkAuthconf { ac_forcessl : Z; ac_certverify : Z; ac_certpath : option bytes }.

(** The nodes of a [st_tree_t] by their addresses, with their two pointers; freed nodes are gone.
    [tk_next] is the next address that [calloc] gives. *)
Record tnode := mkTnode { tn_node : st_node; tn_left : option nat; tn_right : option nat }.
Record token_tree := mkTokens { tk_root : option nat; tk_heap : gmap nat tnode; tk_next : nat }.
Definition no_tokens : token_tree := mkTokens None ∅ 0.

(** upsmon.h *)
Record utype := mkUtype {
  m_conn : UPSCONN;
  m_sys : bytes;
  m_upsname : option bytes;
  m_hostname : option bytes;
  m_port : Z;
  m_pv : Z;
  m_un : option bytes;
  m_pw : option bytes;
  m_status : Z;
  m_tokens : token_tree;
  m_retain : Z;
  m_commstate : Z;
  m_linestate : Z;
  m_offstate : Z;
  m_bypassstate : Z;
  m_ecostate : Z;
  m_alarmstate : Z;
  m_overstate : Z;
  m_throttle_state : Z;
  m_throttle_count : Z;
  m_lastpoll : Z;
  m_lastnoncrit : Z;
  m_lastrbwarn : Z;
  m_lastncwarn : Z;
  m_lastfsdnotify : Z;
  m_offsince : Z;
  m_oblbsince : Z;
  m_oversince : Z
}.

Definition set_m_conn (u : utype) x := mkUtype x (m_sys u) (m_upsname u) (m_hostname u) (m_port
  u) (m_pv u) (m_un u) (m_pw u) (m_status u) (m_tokens u) (m_retain u) (m_commstate u)
  (m_linestate u) (m_offstate u) (m_bypassstate u) (m_ecostate u) (m_alarmstate u) (m_overstate
  u) (m_throttle_state u) (m_throttle_count u) (m_lastpoll u) (m_lastnoncrit u) (m_lastrbwarn u)
  (m_lastncwarn u) (m_lastfsdnotify u) (m_offsince u) (m_oblbsince u) (m_oversince u).
Definition set_m_upsname (u : utype) x := mkUtype (m_conn u) (m_sys u) x (m_hostname u) (m_port
  u) (m_pv u) (m_un u) (m_pw u) (m_status u) (m_tokens u) (m_retain u) (m_commstate u)
  (m_linestate u) (m_offstate u) (m_bypassstate u) (m_ecostate u) (m_alarmstate u) (m_overstate
  u) (m_throttle_state u) (m_throttle_count u) (m_lastpoll u) (m_lastnoncrit u) (m_lastrbwarn u)
  (m_lastncwarn u) (m_lastfsdnotify u) (m_offsince u) (m_oblbsince u) (m_oversince u).
Definition set_m_hostname (u : utype) x := mkUtype (m_conn u) (m_sys u) (m_upsname u) x (m_port
  u) (m_pv u) (m_un u) (m_pw u) (m_status u) (m_tokens u) (m_retain u) (m_commstate u)
  (m_linestate u) (m_offstate u) (m_bypassstate u) (m_ecostate u) (m_alarmstate u) (m_overstate
  u) (m_throttle_state u) (m_throttle_count u) (m_lastpoll u) (m_lastnoncrit u) (m_lastrbwarn u)
  (m_lastncwarn u) (m_lastfsdnotify u) (m_offsince u) (m_oblbsince u) (m_oversince u).
Definition set_m_port (u : utype) x := mkUtype (m_conn u) (m_sys u) (m_upsname u) (m_hostname u)
  x (m_pv u) (m_un u) (m_pw u) (m_status u) (m_tokens u) (m_retain u) (m_commstate u)
  (m_linestate u) (m_offstate u) (m_bypassstate u) (m_ecostate u) (m_alarmstate u) (m_overstate
  u) (m_throttle_state u) (m_throttle_count u) (m_lastpoll u) (m_lastnoncrit u) (m_lastrbwarn u)
  (m_lastncwarn u) (m_lastfsdnotify u) (m_offsince u) (m_oblbsince u) (m_oversince u).
Definition set_m_pv (u : utype) x := mkUtype (m_conn u) (m_sys u) (m_upsname u) (m_hostname u)
  (m_port u) x (m_un u) (m_pw u) (m_status u) (m_tokens u) (m_retain u) (m_commstate u)
  (m_linestate u) (m_offstate u) (m_bypassstate u) (m_ecostate u) (m_alarmstate u) (m_overstate
  u) (m_throttle_state u) (m_throttle_count u) (m_lastpoll u) (m_lastnoncrit u) (m_lastrbwarn u)
  (m_lastncwarn u) (m_lastfsdnotify u) (m_offsince u) (m_oblbsince u) (m_oversince u).
Definition set_m_un (u : utype) x := mkUtype (m_conn u) (m_sys u) (m_upsname u) (m_hostname u)
  (m_port u) (m_pv u) x (m_pw u) (m_status u) (m_tokens u) (m_retain u) (m_commstate u)
  (m_linestate u) (m_offstate u) (m_bypassstate u) (m_ecostate u) (m_alarmstate u) (m_overstate
  u) (m_throttle_state u) (m_throttle_count u) (m_lastpoll u) (m_lastnoncrit u) (m_lastrbwarn u)
  (m_lastncwarn u) (m_lastfsdnotify u) (m_offsince u) (m_oblbsince u) (m_oversince u).
Definition set_m_pw (u : utype) x := mkUtype (m_conn u) (m_sys u) (m_upsname u) (m_hostname u)
  (m_port u) (m_pv u) (m_un u) x (m_status u) (m_tokens u) (m_retain u) (m_commstate u)
  (m_linestate u) (m_offstate u) (m_bypassstate u) (m_ecostate u) (m_alarmstate u) (m_overstate
  u) (m_throttle_state u) (m_throttle_count u) (m_lastpoll u) (m_lastnoncrit u) (m_lastrbwarn u)
  (m_lastncwarn u) (m_lastfsdnotify u) (m_offsince u) (m_oblbsince u) (m_oversince u).
Definition set_m_status (u : utype) x := mkUtype (m_conn u) (m_sys u) (m_upsname u) (m_hostname
  u) (m_port u) (m_pv u) (m_un u) (m_pw u) x (m_tokens u) (m_retain u) (m_commstate u)
  (m_linestate u) (m_offstate u) (m_bypassstate u) (m_ecostate u) (m_alarmstate u) (m_overstate
  u) (m_throttle_state u) (m_throttle_count u) (m_lastpoll u) (m_lastnoncrit u) (m_lastrbwarn u)
  (m_lastncwarn u) (m_lastfsdnotify u) (m_offsince u) (m_oblbsince u) (m_oversince u).
Definition set_m_tokens (u : utype) x := mkUtype (m_conn u) (m_sys u) (m_upsname u) (m_hostname
  u) (m_port u) (m_pv u) (m_un u) (m_pw u) (m_status u) x (m_retain u) (m_commstate u)
  (m_linestate u) (m_offstate u) (m_bypassstate u) (m_ecostate u) (m_alarmstate u) (m_overstate
  u) (m_throttle_state u) (m_throttle_count u) (m_lastpoll u) (m_lastnoncrit u) (m_lastrbwarn u)
  (m_lastncwarn u) (m_lastfsdnotify u) (m_offsince u) (m_oblbsince u) (m_oversince u).
Definition set_m_retain (u : utype) x := mkUtype (m_conn u) (m_sys u) (m_upsname u) (m_hostname
  u) (m_port u) (m_pv u) (m_un u) (m_pw u) (m_status u) (m_tokens u) x (m_commstate u)
  (m_linestate u) (m_offstate u) (m_bypassstate u) (m_ecostate u) (m_alarmstate u) (m_overstate
  u) (m_throttle_state u) (m_throttle_count u) (m_lastpoll u) (m_lastnoncrit u) (m_lastrbwarn u)
  (m_lastncwarn u) (m_lastfsdnotify u) (m_offsince u) (m_oblbsince u) (m_oversince u).
Definition set_m_commstate (u : utype) x := mkUtype (m_conn u) (m_sys u) (m_upsname u)
  (m_hostname u) (m_port u) (m_pv u) (m_un u) (m_pw u) (m_status u) (m_tokens u) (m_retain u) x
  (m_linestate u) (m_offstate u) (m_bypassstate u) (m_ecostate u) (m_alarmstate u) (m_overstate
  u) (m_throttle_state u) (m_throttle_count u) (m_lastpoll u) (m_lastnoncrit u) (m_lastrbwarn u)
  (m_lastncwarn u) (m_lastfsdnotify u) (m_offsince u) (m_oblbsince u) (m_oversince u).
Definition set_m_linestate (u : utype) x := mkUtype (m_conn u) (m_sys u) (m_upsname u)
  (m_hostname u) (m_port u) (m_pv u) (m_un u) (m_pw u) (m_status u) (m_tokens u) (m_retain u)
  (m_commstate u) x (m_offstate u) (m_bypassstate u) (m_ecostate u) (m_alarmstate u)
  (m_overstate u) (m_throttle_state u) (m_throttle_count u) (m_lastpoll u) (m_lastnoncrit u)
  (m_lastrbwarn u) (m_lastncwarn u) (m_lastfsdnotify u) (m_offsince u) (m_oblbsince u)
  (m_oversince u).
Definition set_m_offstate (u : utype) x := mkUtype (m_conn u) (m_sys u) (m_upsname u)
  (m_hostname u) (m_port u) (m_pv u) (m_un u) (m_pw u) (m_status u) (m_tokens u) (m_retain u)
  (m_commstate u) (m_linestate u) x (m_bypassstate u) (m_ecostate u) (m_alarmstate u)
  (m_overstate u) (m_throttle_state u) (m_throttle_count u) (m_lastpoll u) (m_lastnoncrit u)
  (m_lastrbwarn u) (m_lastncwarn u) (m_lastfsdnotify u) (m_offsince u) (m_oblbsince u)
  (m_oversince u).
Definition set_m_bypassstate (u : utype) x := mkUtype (m_conn u) (m_sys u) (m_upsname u)
  (m_hostname u) (m_port u) (m_pv u) (m_un u) (m_pw u) (m_status u) (m_tokens u) (m_retain u)
  (m_commstate u) (m_linestate u) (m_offstate u) x (m_ecostate u) (m_alarmstate u) (m_overstate
  u) (m_throttle_state u) (m_throttle_count u) (m_lastpoll u) (m_lastnoncrit u) (m_lastrbwarn u)
  (m_lastncwarn u) (m_lastfsdnotify u) (m_offsince u) (m_oblbsince u) (m_oversince u).
Definition set_m_ecostate (u : utype) x := mkUtype (m_conn u) (m_sys u) (m_upsname u)
  (m_hostname u) (m_port u) (m_pv u) (m_un u) (m_pw u) (m_status u) (m_tokens u) (m_retain u)
  (m_commstate u) (m_linestate u) (m_offstate u) (m_bypassstate u) x (m_alarmstate u)
  (m_overstate u) (m_throttle_state u) (m_throttle_count u) (m_lastpoll u) (m_lastnoncrit u)
  (m_lastrbwarn u) (m_lastncwarn u) (m_lastfsdnotify u) (m_offsince u) (m_oblbsince u)
  (m_oversince u).
Definition set_m_alarmstate (u : utype) x := mkUtype (m_conn u) (m_sys u) (m_upsname u)
  (m_hostname u) (m_port u) (m_pv u) (m_un u) (m_pw u) (m_status u) (m_tokens u) (m_retain u)
  (m_commstate u) (m_linestate u) (m_offstate u) (m_bypassstate u) (m_ecostate u) x (m_overstate
  u) (m_throttle_state u) (m_throttle_count u) (m_lastpoll u) (m_lastnoncrit u) (m_lastrbwarn u)
  (m_lastncwarn u) (m_lastfsdnotify u) (m_offsince u) (m_oblbsince u) (m_oversince u).
Definition set_m_overstate (u : utype) x := mkUtype (m_conn u) (m_sys u) (m_upsname u)
  (m_hostname u) (m_port u) (m_pv u) (m_un u) (m_pw u) (m_status u) (m_tokens u) (m_retain u)
  (m_commstate u) (m_linestate u) (m_offstate u) (m_bypassstate u) (m_ecostate u) (m_alarmstate
  u) x (m_throttle_state u) (m_throttle_count u) (m_lastpoll u) (m_lastnoncrit u) (m_lastrbwarn
  u) (m_lastncwarn u) (m_lastfsdnotify u) (m_offsince u) (m_oblbsince u) (m_oversince u).
Definition set_m_throttle_state (u : utype) x := mkUtype (m_conn u) (m_sys u) (m_upsname u)
  (m_hostname u) (m_port u) (m_pv u) (m_un u) (m_pw u) (m_status u) (m_tokens u) (m_retain u)
  (m_commstate u) (m_linestate u) (m_offstate u) (m_bypassstate u) (m_ecostate u) (m_alarmstate
  u) (m_overstate u) x (m_throttle_count u) (m_lastpoll u) (m_lastnoncrit u) (m_lastrbwarn u)
  (m_lastncwarn u) (m_lastfsdnotify u) (m_offsince u) (m_oblbsince u) (m_oversince u).
Definition set_m_throttle_count (u : utype) x := mkUtype (m_conn u) (m_sys u) (m_upsname u)
  (m_hostname u) (m_port u) (m_pv u) (m_un u) (m_pw u) (m_status u) (m_tokens u) (m_retain u)
  (m_commstate u) (m_linestate u) (m_offstate u) (m_bypassstate u) (m_ecostate u) (m_alarmstate
  u) (m_overstate u) (m_throttle_state u) x (m_lastpoll u) (m_lastnoncrit u) (m_lastrbwarn u)
  (m_lastncwarn u) (m_lastfsdnotify u) (m_offsince u) (m_oblbsince u) (m_oversince u).
Definition set_m_lastpoll (u : utype) x := mkUtype (m_conn u) (m_sys u) (m_upsname u)
  (m_hostname u) (m_port u) (m_pv u) (m_un u) (m_pw u) (m_status u) (m_tokens u) (m_retain u)
  (m_commstate u) (m_linestate u) (m_offstate u) (m_bypassstate u) (m_ecostate u) (m_alarmstate
  u) (m_overstate u) (m_throttle_state u) (m_throttle_count u) x (m_lastnoncrit u) (m_lastrbwarn
  u) (m_lastncwarn u) (m_lastfsdnotify u) (m_offsince u) (m_oblbsince u) (m_oversince u).
Definition set_m_lastnoncrit (u : utype) x := mkUtype (m_conn u) (m_sys u) (m_upsname u)
  (m_hostname u) (m_port u) (m_pv u) (m_un u) (m_pw u) (m_status u) (m_tokens u) (m_retain u)
  (m_commstate u) (m_linestate u) (m_offstate u) (m_bypassstate u) (m_ecostate u) (m_alarmstate
  u) (m_overstate u) (m_throttle_state u) (m_throttle_count u) (m_lastpoll u) x (m_lastrbwarn u)
  (m_lastncwarn u) (m_lastfsdnotify u) (m_offsince u) (m_oblbsince u) (m_oversince u).
Definition set_m_lastrbwarn (u : utype) x := mkUtype (m_conn u) (m_sys u) (m_upsname u)
  (m_hostname u) (m_port u) (m_pv u) (m_un u) (m_pw u) (m_status u) (m_tokens u) (m_retain u)
  (m_commstate u) (m_linestate u) (m_offstate u) (m_bypassstate u) (m_ecostate u) (m_alarmstate
  u) (m_overstate u) (m_throttle_state u) (m_throttle_count u) (m_lastpoll u) (m_lastnoncrit u)
  x (m_lastncwarn u) (m_lastfsdnotify u) (m_offsince u) (m_oblbsince u) (m_oversince u).
Definition set_m_lastncwarn (u : utype) x := mkUtype (m_conn u) (m_sys u) (m_upsname u)
  (m_hostname u) (m_port u) (m_pv u) (m_un u) (m_pw u) (m_status u) (m_tokens u) (m_retain u)
  (m_commstate u) (m_linestate u) (m_offstate u) (m_bypassstate u) (m_ecostate u) (m_alarmstate
  u) (m_overstate u) (m_throttle_state u) (m_throttle_count u) (m_lastpoll u) (m_lastnoncrit u)
  (m_lastrbwarn u) x (m_lastfsdnotify u) (m_offsince u) (m_oblbsince u) (m_oversince u).
Definition set_m_lastfsdnotify (u : utype) x := mkUtype (m_conn u) (m_sys u) (m_upsname u)
  (m_hostname u) (m_port u) (m_pv u) (m_un u) (m_pw u) (m_status u) (m_tokens u) (m_retain u)
  (m_commstate u) (m_linestate u) (m_offstate u) (m_bypassstate u) (m_ecostate u) (m_alarmstate
  u) (m_overstate u) (m_throttle_state u) (m_throttle_count u) (m_lastpoll u) (m_lastnoncrit u)
  (m_lastrbwarn u) (m_lastncwarn u) x (m_offsince u) (m_oblbsince u) (m_oversince u).
Definition set_m_offsince (u : utype) x := mkUtype (m_conn u) (m_sys u) (m_upsname u)
  (m_hostname u) (m_port u) (m_pv u) (m_un u) (m_pw u) (m_status u) (m_tokens u) (m_retain u)
  (m_commstate u) (m_linestate u) (m_offstate u) (m_bypassstate u) (m_ecostate u) (m_alarmstate
  u) (m_overstate u) (m_throttle_state u) (m_throttle_count u) (m_lastpoll u) (m_lastnoncrit u)
  (m_lastrbwarn u) (m_lastncwarn u) (m_lastfsdnotify u) x (m_oblbsince u) (m_oversince u).
Definition set_m_oblbsince (u : utype) x := mkUtype (m_conn u) (m_sys u) (m_upsname u)
  (m_hostname u) (m_port u) (m_pv u) (m_un u) (m_pw u) (m_status u) (m_tokens u) (m_retain u)
  (m_commstate u) (m_linestate u) (m_offstate u) (m_bypassstate u) (m_ecostate u) (m_alarmstate
  u) (m_overstate u) (m_throttle_state u) (m_throttle_count u) (m_lastpoll u) (m_lastnoncrit u)
  (m_lastrbwarn u) (m_lastncwarn u) (m_lastfsdnotify u) (m_offsince u) x (m_oversince u).
Definition set_m_oversince (u : utype) x := mkUtype (m_conn u) (m_sys u) (m_upsname u)
  (m_hostname u) (m_port u) (m_pv u) (m_un u) (m_pw u) (m_status u) (m_tokens u) (m_retain u)
  (m_commstate u) (m_linestate u) (m_offstate u) (m_bypassstate u) (m_ecostate u) (m_alarmstate
  u) (m_overstate u) (m_throttle_state u) (m_throttle_count u) (m_lastpoll u) (m_lastnoncrit u)
  (m_lastrbwarn u) (m_lastncwarn u) (m_lastfsdnotify u) (m_offsince u) (m_oblbsince u) x.

(** The settings: the static variables of upsmon.c that upsmon.conf and the command line set, and the
    two tables of connection settings. *)
Record mconf := mkMconf {
  minsupplies : Z;
  deadtime : Z;
  pollfreq : Z;
  pollfreqalert : Z;
  pollfail_log_throttle_max : Z;
  offdurationtime : Z;
  oblbdurationtime : Z;
  hostsync : Z;
  rbwarntime : Z;
  nocommwarntime : Z;
  finaldelay : Z;
  alarmcritical : Z;
  overdurationtime : Z;
  shutdownexitdelay : Z;
  use_pipe : Z;
  opt_af : addr_family;
  powerdownflag : option bytes;
  notifycmd : list bytes;
  shutdowncmd : option bytes;
  debug_global : Z;
  notifylist : list notify_entry;
  authconf : bytes -> Z -> option authconf_item;
  hostcert : bytes -> Z -> option (Z * Z)
}.

Definition set_minsupplies (c : mconf) x := mkMconf x (deadtime c) (pollfreq c) (pollfreqalert
  c) (pollfail_log_throttle_max c) (offdurationtime c) (oblbdurationtime c) (hostsync c)
  (rbwarntime c) (nocommwarntime c) (finaldelay c) (alarmcritical c) (overdurationtime c)
  (shutdownexitdelay c) (use_pipe c) (opt_af c) (powerdownflag c) (notifycmd c) (shutdowncmd c)
  (debug_global c) (notifylist c) (authconf c) (hostcert c).
Definition set_deadtime (c : mconf) x := mkMconf (minsupplies c) x (pollfreq c) (pollfreqalert
  c) (pollfail_log_throttle_max c) (offdurationtime c) (oblbdurationtime c) (hostsync c)
  (rbwarntime c) (nocommwarntime c) (finaldelay c) (alarmcritical c) (overdurationtime c)
  (shutdownexitdelay c) (use_pipe c) (opt_af c) (powerdownflag c) (notifycmd c) (shutdowncmd c)
  (debug_global c) (notifylist c) (authconf c) (hostcert c).
Definition set_pollfreq (c : mconf) x := mkMconf (minsupplies c) (deadtime c) x (pollfreqalert
  c) (pollfail_log_throttle_max c) (offdurationtime c) (oblbdurationtime c) (hostsync c)
  (rbwarntime c) (nocommwarntime c) (finaldelay c) (alarmcritical c) (overdurationtime c)
  (shutdownexitdelay c) (use_pipe c) (opt_af c) (powerdownflag c) (notifycmd c) (shutdowncmd c)
  (debug_global c) (notifylist c) (authconf c) (hostcert c).
Definition set_pollfreqalert (c : mconf) x := mkMconf (minsupplies c) (deadtime c) (pollfreq c)
  x (pollfail_log_throttle_max c) (offdurationtime c) (oblbdurationtime c) (hostsync c)
  (rbwarntime c) (nocommwarntime c) (finaldelay c) (alarmcritical c) (overdurationtime c)
  (shutdownexitdelay c) (use_pipe c) (opt_af c) (powerdownflag c) (notifycmd c) (shutdowncmd c)
  (debug_global c) (notifylist c) (authconf c) (hostcert c).
Definition set_pollfail_log_throttle_max (c : mconf) x := mkMconf (minsupplies c) (deadtime c)
  (pollfreq c) (pollfreqalert c) x (offdurationtime c) (oblbdurationtime c) (hostsync c)
  (rbwarntime c) (nocommwarntime c) (finaldelay c) (alarmcritical c) (overdurationtime c)
  (shutdownexitdelay c) (use_pipe c) (opt_af c) (powerdownflag c) (notifycmd c) (shutdowncmd c)
  (debug_global c) (notifylist c) (authconf c) (hostcert c).
Definition set_offdurationtime (c : mconf) x := mkMconf (minsupplies c) (deadtime c) (pollfreq
  c) (pollfreqalert c) (pollfail_log_throttle_max c) x (oblbdurationtime c) (hostsync c)
  (rbwarntime c) (nocommwarntime c) (finaldelay c) (alarmcritical c) (overdurationtime c)
  (shutdownexitdelay c) (use_pipe c) (opt_af c) (powerdownflag c) (notifycmd c) (shutdowncmd c)
  (debug_global c) (notifylist c) (authconf c) (hostcert c).
Definition set_oblbdurationtime (c : mconf) x := mkMconf (minsupplies c) (deadtime c) (pollfreq
  c) (pollfreqalert c) (pollfail_log_throttle_max c) (offdurationtime c) x (hostsync c)
  (rbwarntime c) (nocommwarntime c) (finaldelay c) (alarmcritical c) (overdurationtime c)
  (shutdownexitdelay c) (use_pipe c) (opt_af c) (powerdownflag c) (notifycmd c) (shutdowncmd c)
  (debug_global c) (notifylist c) (authconf c) (hostcert c).
Definition set_hostsync (c : mconf) x := mkMconf (minsupplies c) (deadtime c) (pollfreq c)
  (pollfreqalert c) (pollfail_log_throttle_max c) (offdurationtime c) (oblbdurationtime c) x
  (rbwarntime c) (nocommwarntime c) (finaldelay c) (alarmcritical c) (overdurationtime c)
  (shutdownexitdelay c) (use_pipe c) (opt_af c) (powerdownflag c) (notifycmd c) (shutdowncmd c)
  (debug_global c) (notifylist c) (authconf c) (hostcert c).
Definition set_rbwarntime (c : mconf) x := mkMconf (minsupplies c) (deadtime c) (pollfreq c)
  (pollfreqalert c) (pollfail_log_throttle_max c) (offdurationtime c) (oblbdurationtime c)
  (hostsync c) x (nocommwarntime c) (finaldelay c) (alarmcritical c) (overdurationtime c)
  (shutdownexitdelay c) (use_pipe c) (opt_af c) (powerdownflag c) (notifycmd c) (shutdowncmd c)
  (debug_global c) (notifylist c) (authconf c) (hostcert c).
Definition set_nocommwarntime (c : mconf) x := mkMconf (minsupplies c) (deadtime c) (pollfreq c)
  (pollfreqalert c) (pollfail_log_throttle_max c) (offdurationtime c) (oblbdurationtime c)
  (hostsync c) (rbwarntime c) x (finaldelay c) (alarmcritical c) (overdurationtime c)
  (shutdownexitdelay c) (use_pipe c) (opt_af c) (powerdownflag c) (notifycmd c) (shutdowncmd c)
  (debug_global c) (notifylist c) (authconf c) (hostcert c).
Definition set_finaldelay (c : mconf) x := mkMconf (minsupplies c) (deadtime c) (pollfreq c)
  (pollfreqalert c) (pollfail_log_throttle_max c) (offdurationtime c) (oblbdurationtime c)
  (hostsync c) (rbwarntime c) (nocommwarntime c) x (alarmcritical c) (overdurationtime c)
  (shutdownexitdelay c) (use_pipe c) (opt_af c) (powerdownflag c) (notifycmd c) (shutdowncmd c)
  (debug_global c) (notifylist c) (authconf c) (hostcert c).
Definition set_alarmcritical (c : mconf) x := mkMconf (minsupplies c) (deadtime c) (pollfreq c)
  (pollfreqalert c) (pollfail_log_throttle_max c) (offdurationtime c) (oblbdurationtime c)
  (hostsync c) (rbwarntime c) (nocommwarntime c) (finaldelay c) x (overdurationtime c)
  (shutdownexitdelay c) (use_pipe c) (opt_af c) (powerdownflag c) (notifycmd c) (shutdowncmd c)
  (debug_global c) (notifylist c) (authconf c) (hostcert c).
Definition set_overdurationtime (c : mconf) x := mkMconf (minsupplies c) (deadtime c) (pollfreq
  c) (pollfreqalert c) (pollfail_log_throttle_max c) (offdurationtime c) (oblbdurationtime c)
  (hostsync c) (rbwarntime c) (nocommwarntime c) (finaldelay c) (alarmcritical c) x
  (shutdownexitdelay c) (use_pipe c) (opt_af c) (powerdownflag c) (notifycmd c) (shutdowncmd c)
  (debug_global c) (notifylist c) (authconf c) (hostcert c).
Definition set_shutdownexitdelay (c : mconf) x := mkMconf (minsupplies c) (deadtime c) (pollfreq
  c) (pollfreqalert c) (pollfail_log_throttle_max c) (offdurationtime c) (oblbdurationtime c)
  (hostsync c) (rbwarntime c) (nocommwarntime c) (finaldelay c) (alarmcritical c)
  (overdurationtime c) x (use_pipe c) (opt_af c) (powerdownflag c) (notifycmd c) (shutdowncmd c)
  (debug_global c) (notifylist c) (authconf c) (hostcert c).
Definition set_powerdownflag (c : mconf) x := mkMconf (minsupplies c) (deadtime c) (pollfreq c)
  (pollfreqalert c) (pollfail_log_throttle_max c) (offdurationtime c) (oblbdurationtime c)
  (hostsync c) (rbwarntime c) (nocommwarntime c) (finaldelay c) (alarmcritical c)
  (overdurationtime c) (shutdownexitdelay c) (use_pipe c) (opt_af c) x (notifycmd c)
  (shutdowncmd c) (debug_global c) (notifylist c) (authconf c) (hostcert c).
Definition set_notifycmd (c : mconf) x := mkMconf (minsupplies c) (deadtime c) (pollfreq c)
  (pollfreqalert c) (pollfail_log_throttle_max c) (offdurationtime c) (oblbdurationtime c)
  (hostsync c) (rbwarntime c) (nocommwarntime c) (finaldelay c) (alarmcritical c)
  (overdurationtime c) (shutdownexitdelay c) (use_pipe c) (opt_af c) (powerdownflag c) x
  (shutdowncmd c) (debug_global c) (notifylist c) (authconf c) (hostcert c).
Definition set_shutdowncmd (c : mconf) x := mkMconf (minsupplies c) (deadtime c) (pollfreq c)
  (pollfreqalert c) (pollfail_log_throttle_max c) (offdurationtime c) (oblbdurationtime c)
  (hostsync c) (rbwarntime c) (nocommwarntime c) (finaldelay c) (alarmcritical c)
  (overdurationtime c) (shutdownexitdelay c) (use_pipe c) (opt_af c) (powerdownflag c)
  (notifycmd c) x (debug_global c) (notifylist c) (authconf c) (hostcert c).
Definition set_debug_global (c : mconf) x := mkMconf (minsupplies c) (deadtime c) (pollfreq c)
  (pollfreqalert c) (pollfail_log_throttle_max c) (offdurationtime c) (oblbdurationtime c)
  (hostsync c) (rbwarntime c) (nocommwarntime c) (finaldelay c) (alarmcritical c)
  (overdurationtime c) (shutdownexitdelay c) (use_pipe c) (opt_af c) (powerdownflag c)
  (notifycmd c) (shutdowncmd c) x (notifylist c) (authconf c) (hostcert c).
Definition set_notifylist (c : mconf) x := mkMconf (minsupplies c) (deadtime c) (pollfreq c)
  (pollfreqalert c) (pollfail_log_throttle_max c) (offdurationtime c) (oblbdurationtime c)
  (hostsync c) (rbwarntime c) (nocommwarntime c) (finaldelay c) (alarmcritical c)
  (overdurationtime c) (shutdownexitdelay c) (use_pipe c) (opt_af c) (powerdownflag c)
  (notifycmd c) (shutdowncmd c) (debug_global c) x (authconf c) (hostcert c).

(** The other globals.  [g_dials] are the outcomes of the next connection attempts, [g_pdfile] the
    contents of the POWERDOWNFLAG file, [g_sigterm] the number of rounds of the last loop of [doshutdown] before
    a signal ends it, if one comes, [g_out] what was done, oldest first. *)
Record glob := mkGlob {
  g_conf : mconf;
  g_sleepval : Z;
  g_totalpv : Z;
  g_alarms_prev : bytes;
  g_clock : Z;
  g_dials : list dial_result;
  g_pdfile : option bytes;
  g_exit_flag : Z;
  g_sigterm : option nat;
  g_out : list mout
}.

Definition set_g_conf (g : glob) x := mkGlob x (g_sleepval g) (g_totalpv g) (g_alarms_prev g)
  (g_clock g) (g_dials g) (g_pdfile g) (g_exit_flag g) (g_sigterm g) (g_out g).
Definition set_g_sleepval (g : glob) x := mkGlob (g_conf g) x (g_totalpv g) (g_alarms_prev g)
  (g_clock g) (g_dials g) (g_pdfile g) (g_exit_flag g) (g_sigterm g) (g_out g).
Definition set_g_totalpv (g : glob) x := mkGlob (g_conf g) (g_sleepval g) x (g_alarms_prev g)
  (g_clock g) (g_dials g) (g_pdfile g) (g_exit_flag g) (g_sigterm g) (g_out g).
Definition set_g_alarms_prev (g : glob) x := mkGlob (g_conf g) (g_sleepval g) (g_totalpv g) x
  (g_clock g) (g_dials g) (g_pdfile g) (g_exit_flag g) (g_sigterm g) (g_out g).
Definition set_g_clock (g : glob) x := mkGlob (g_conf g) (g_sleepval g) (g_totalpv g)
  (g_alarms_prev g) x (g_dials g) (g_pdfile g) (g_exit_flag g) (g_sigterm g) (g_out g).
Definition set_g_dials (g : glob) x := mkGlob (g_conf g) (g_sleepval g) (g_totalpv g)
  (g_alarms_prev g) (g_clock g) x (g_pdfile g) (g_exit_flag g) (g_sigterm g) (g_out g).
Definition set_g_pdfile (g : glob) x := mkGlob (g_conf g) (g_sleepval g) (g_totalpv g)
  (g_alarms_prev g) (g_clock g) (g_dials g) x (g_exit_flag g) (g_sigterm g) (g_out g).
Definition set_g_exit_flag (g : glob) x := mkGlob (g_conf g) (g_sleepval g) (g_totalpv g)
  (g_alarms_prev g) (g_clock g) (g_dials g) (g_pdfile g) x (g_sigterm g) (g_out g).
Definition set_g_out (g : glob) x := mkGlob (g_conf g) (g_sleepval g) (g_totalpv g)
  (g_alarms_prev g) (g_clock g) (g_dials g) (g_pdfile g) (g_exit_flag g) (g_sigterm g) x.

(** The static initializers of upsmon.c; the clock is an argument. *)
Definition mconf_stock (ac : bytes -> Z -> option authconf_item) (hc : bytes -> Z -> option (Z * Z)) : mconf :=
  mkMconf 1 15 5 5 (-1) 30 0 15 43200 300 5 1 (-1) 0 1 AF_UNSPEC None [] None (-1) notifylist_stock ac hc.

Definition glob_stock (c : mconf) (clock : Z) : glob := mkGlob c 5 0 [] clock [] None 0 None [].

(** ** One UPS and the globals *)

Record mst := mkMst { s_ups : utype; s_g : glob }.
Definition upd (f : utype -> utype) (s : mst) : mst := mkMst (f (s_ups s)) (s_g s).
Definition updg (f : glob -> glob) (s : mst) : mst := mkMst (s_ups s) (f (s_g s)).
Definition cfg (s : mst) : mconf := g_conf (s_g s).

(** [time(&now)] *)
Definition time_of (g : glob) : Z := g_clock g / 1000000.
Definition now_of (s : mst) : Z := time_of (s_g s).

Definition has (s : mst) (flag : Z) : bool := flag_isset (m_status (s_ups s)) flag.
Definition set_flag (flag : Z) : mst -> mst := upd (fun u => set_m_status u (setflag (m_status u) flag)).
Definition clear_flag (flag : Z) : mst -> mst := upd (fun u => set_m_status u (clearflag (m_status u) flag)).
(** [sleepval = pollfreqalert] *)
Definition poll_alert (s : mst) : mst := updg (fun g => set_g_sleepval g (pollfreqalert (g_conf g))) s.

Definition emit (o : mout) (g : glob) : glob := set_g_out g (g_out g ++ [o]).

Definition try_restore_pollfreq (s : mst) : mst :=
  if negb (flag_isset (m_status (s_ups s))
       (Z.lor ST_ONBATT (Z.lor ST_OFF (Z.lor ST_BYPASS (Z.lor ST_ALARM (Z.lor ST_CAL (Z.lor ST_OVER (Z.lor ST_TRIM ST_BOOST))))))))
  then updg (fun g => set_g_sleepval g (pollfreq (g_conf g))) s
  else s.

Definition notify (notice : fmt_result) (flags : Z) (ntype : bytes) (upsname : option bytes) (g : glob) : glob :=
  if flag_isset flags NOTIFY_IGNORE then g
  else
    emit (ONotice ntype upsname notice (flag_isset flags NOTIFY_SYSLOG) (flag_isset flags NOTIFY_WALL)
            (if flag_isset flags NOTIFY_EXEC
             then match notifycmd (g_conf g) with [] => None | cmd => Some cmd end
             else None)) g.

(** The text of a notice. *)
Definition notify_msg (msgfmt : bytes) (upsname extra : option bytes) : fmt_result :=
  match strstr_pos msgfmt ($"%s") with
  | Some k =>
      match strstr_pos (drop (k + 1) msgfmt) ($"%s") with
      | Some _ => snprintf_dynamic SMALLBUF msgfmt ($"%s%s") [default [] upsname; default ($"(null)") extra]
      | None => snprintf_dynamic SMALLBUF msgfmt ($"%s") [default [] upsname]
      end
  | None => FStored (snprintf_s SMALLBUF msgfmt)
  end.

Definition do_notify (upsname : option bytes) (ntype : Z) (extra : option bytes) (g : glob) : glob :=
  match find (fun n => ne_type n =? ntype) (notifylist (g_conf g)) with
  | None => g
  | Some n =>
      notify (notify_msg (default (ne_stockmsg n) (ne_msg n)) upsname extra) (ne_flags n) (ne_name n) upsname g
  end.

(** [do_notify(ups, ...)] *)
Definition tell (ntype : Z) (extra : option bytes) (s : mst) : mst :=
  updg (do_notify (Some (m_sys (s_ups s))) ntype extra) s.
