(* ===== verification/MonStatus.v ===== *)
(** * clients/upsmon.c: what a status means

    The handlers of the status words, the query [get_var], the tree of unclassified words, and
    [parse_status], which turns the text of ups.status into flags and notices. *)

From S2P Require Import Prelude CStr Fmt ParseConf UpsClient StateTree MonState.
From stdpp Require Import options.

(** ** Reachability *)

Definition ups_is_alive (s : mst) : mst :=
  let s := upd (fun u => set_m_lastpoll u (now_of s)) s in
  if m_commstate (s_ups s) =? 1 then s
  else
    let s := if m_commstate (s_ups s) =? 0 then tell NOTIFY_COMMOK None s else s in
    upd (fun u => set_m_commstate u 1) s.

Definition ups_is_gone (s : mst) : mst :=
  if negb (m_commstate (s_ups s) =? 0) then
    tell NOTIFY_COMMBAD None (upd (fun u => set_m_commstate u 0) s)
  else
    let now := now_of s in
    if now - m_lastpoll (s_ups s) <? nocommwarntime (cfg s) then s
    else if nocommwarntime (cfg s) <? now - m_lastncwarn (s_ups s) then
      upd (fun u => set_m_lastncwarn u now) (tell NOTIFY_NOCOMM None s)
    else s.

(** ** Status words *)

Definition ups_is_off (s : mst) : mst :=
  let now := now_of s in
  if has s ST_OFF then
    if m_offsince (s_ups s) <? 1 then upd (fun u => set_m_offsince u now) s
    else if (0 <? offdurationtime (cfg s)) && (offdurationtime (cfg s) <? now - m_offsince (s_ups s))
    then upd (fun u => set_m_offstate u 1) s
    else s
  else
    let s := poll_alert s in
    let s := upd (fun u => set_m_offsince u now) s in
    let s := if offdurationtime (cfg s) =? 0 then upd (fun u => set_m_offstate u 1) s else s in
    set_flag ST_OFF (tell NOTIFY_OFF None s).

(** The end of a state: a notice, the flag cleared, and the polling frequency relaxed if possible. *)
Definition state_over (flag ntype : Z) (s : mst) : mst :=
  if has s flag then try_restore_pollfreq (clear_flag flag (tell ntype None s)) else s.

Definition ups_is_notoff (s : mst) : mst :=
  state_over ST_OFF NOTIFY_NOTOFF (upd (fun u => set_m_offstate (set_m_offsince u 0) 0) s).

Definition ups_is_bypass (s : mst) : mst :=
  if has s ST_BYPASS then s
  else
    let s := upd (fun u => set_m_bypassstate u 1) (poll_alert s) in
    set_flag ST_BYPASS (tell NOTIFY_BYPASS None s).

Definition ups_is_notbypass (s : mst) : mst :=
  state_over ST_BYPASS NOTIFY_NOTBYPASS (upd (fun u => set_m_bypassstate u 0) s).

Definition ups_is_eco (s : mst) : mst :=
  if has s ST_ECO then s
  else set_flag ST_ECO (tell NOTIFY_ECO None (upd (fun u => set_m_ecostate u 1) s)).

Definition ups_is_noteco (s : mst) : mst :=
  state_over ST_ECO NOTIFY_NOTECO (upd (fun u => set_m_ecostate u 0) s).

(** [get_var]: the text put into the caller's buffer of [bufsize] bytes, when the result is 0.  [None]
    is a read outside the parser's array. *)
Definition get_var_query (upsname var : bytes) : list bytes :=
  if streq var ($"numlogins") then [$"NUMLOGINS"; upsname]
  else if streq var ($"status") then [$"VAR"; upsname; $"ups.status"]
  else if streq var ($"buzzword") then [$"VAR"; upsname; $"ups.mode.buzzwords"]
  else if streq var ($"X-buzzword") then [$"VAR"; upsname; $"experimental.ups.mode.buzzwords"]
  else if streq var ($"alarm") then [$"VAR"; upsname; $"ups.alarm"]
  else [].

Definition get_var (u : utype) (var : bytes) (bufsize : nat) : option (Z * bytes * utype) :=
  match m_upsname u with
  | None => Some (-1, [], u)
  | Some upsname =>
      match get_var_query upsname var with
      | [] => Some (-1, [], u)
      | query =>
          '(ret, c) ← upscli_get (m_conn u) query;
          let u := set_m_conn u c in
          if ret <? 0 then Some (-1, [], u)
          else if (p_numargs (cn_ctx c) <? length query)%nat then Some (-1, [], u)
          else
            a ← p_arglist (cn_ctx c) !! length query;
            Some (0, snprintf_s bufsize a, u)
      end
  end.

(** [strncpy(dst, src, sizeof(dst))] into a buffer that is later read as a string *)
Definition set_alarms_prev (alarms : bytes) : mst -> mst := updg (fun g => set_g_alarms_prev g alarms).

Definition ups_is_alarm (s : mst) : option mst :=
  if has s ST_ALARM then
    '(ret, alarms, u) ← get_var (s_ups s) ($"alarm") SMALLBUF;
    let s := upd (fun _ => u) s in
    Some (if ret =? 0 then
            if streq (g_alarms_prev (s_g s)) alarms then s
            else tell NOTIFY_ALARM (Some alarms) (set_alarms_prev alarms s)
          else s)
  else
    let s := upd (fun u => set_m_alarmstate u 1) (poll_alert s) in
    '(ret, alarms, u) ← get_var (s_ups s) ($"alarm") SMALLBUF;
    let s := upd (fun _ => u) s in
    let '(s, alarms) :=
      if ret =? 0 then (tell NOTIFY_ALARM (Some alarms) s, alarms)
      else (tell NOTIFY_ALARM (Some ($"n/a")) s, []) in
    Some (set_flag ST_ALARM (set_alarms_prev alarms s)).

Definition ups_is_notalarm (s : mst) : mst :=
  state_over ST_ALARM NOTIFY_NOTALARM (upd (fun u => set_m_alarmstate u 0) s).

Definition ups_on_batt (s : mst) : mst :=
  if has s ST_ONBATT then s
  else
    let s := upd (fun u => set_m_linestate u 0) (poll_alert s) in
    clear_flag ST_ONLINE (set_flag ST_ONBATT (tell NOTIFY_ONBATT None s)).

Definition ups_on_line (s : mst) : mst :=
  let s := try_restore_pollfreq s in
  if has s ST_ONLINE then s
  else
    let s := if negb (m_linestate (s_ups s) =? -1) then tell NOTIFY_ONLINE None s else s in
    clear_flag ST_ONBATT (set_flag ST_ONLINE (upd (fun u => set_m_linestate u 1) s)).

Definition ups_low_batt (s : mst) : mst :=
  if has s ST_LOWBATT then s else set_flag ST_LOWBATT (tell NOTIFY_LOWBATT None s).

Definition upsreplbatt (s : mst) : mst :=
  let now := now_of s in
  if rbwarntime (cfg s) <? now - m_lastrbwarn (s_ups s)
  then upd (fun u => set_m_lastrbwarn u now) (tell NOTIFY_REPLBATT None s)
  else s.

Definition ups_is_cal (s : mst) : mst :=
  if has s ST_CAL then s else set_flag ST_CAL (tell NOTIFY_CAL None s).
Definition ups_is_notcal (s : mst) : mst := state_over ST_CAL NOTIFY_NOTCAL s.

Definition ups_is_over (s : mst) : mst :=
  let now := now_of s in
  if has s ST_OVER then
    if m_oversince (s_ups s) <? 1 then upd (fun u => set_m_oversince u now) s else s
  else
    let s := if 0 <=? overdurationtime (cfg s) then poll_alert s else s in
    let s := upd (fun u => set_m_overstate (set_m_oversince u now) 1) s in
    set_flag ST_OVER (tell NOTIFY_OVER None s).

Definition ups_is_notover (s : mst) : mst :=
  state_over ST_OVER NOTIFY_NOTOVER (upd (fun u => set_m_overstate (set_m_oversince u 0) 0) s).

Definition ups_is_trim (s : mst) : mst :=
  if has s ST_TRIM then s else set_flag ST_TRIM (tell NOTIFY_TRIM None s).
Definition ups_is_nottrim (s : mst) : mst := state_over ST_TRIM NOTIFY_NOTTRIM s.

Definition ups_is_boost (s : mst) : mst :=
  if has s ST_BOOST then s else set_flag ST_BOOST (tell NOTIFY_BOOST None s).
Definition ups_is_notboost (s : mst) : mst := state_over ST_BOOST NOTIFY_NOTBOOST s.

Definition ups_fsd (s : mst) : mst :=
  if has s ST_FSD then s
  else
    let s := if m_lastfsdnotify (s_ups s) =? 0
             then tell NOTIFY_FSD None (upd (fun u => set_m_lastfsdnotify u (now_of s)) s)
             else s in
    set_flag ST_FSD s.

Definition update_crittimer (s : mst) : mst :=
  if negb (has s ST_ONBATT) || negb (has s ST_LOWBATT) || has s ST_CAL
  then upd (fun u => set_m_lastnoncrit u (now_of s)) s
  else s.
