(* ===== verification/MonParse.v ===== *)
(** * clients/upsmon.c: [parse_status] and the tree of unclassified words

    The tree is walked and rebuilt by pointers as in the code.  A walk has fuel for every node and one
    more step: a longer one meets a node again, and never ends. *)

From S2P Require Import Prelude CStr Fmt ParseConf UpsClient StateTree MonState MonStatus.
From stdpp Require Import options.

(** ** Walking and changing the tree *)

Definition walk_fuel (t : token_tree) : nat := S (size (tk_heap t)).

(** The pointer variable at which a walk ends. *)
Inductive slot := SRoot | SLeft (a : nat) | SRight (a : nat).

(** [state_tree_find] and the search of [state_setinfo]: the node, or the pointer that is NULL. *)
Fixpoint tree_walk (fuel : nat) (h : gmap nat tnode) (p : option nat) (at_ : slot) (var : bytes) : option (nat + slot) :=
  match fuel with
  | O => None
  | S fuel =>
      match p with
      | None => Some (inr at_)
      | Some a =>
          n ← h !! a;
          if strcasecmp (n_var (tn_node n)) var >? 0 then tree_walk fuel h (tn_left n) (SLeft a) var
          else if strcasecmp (n_var (tn_node n)) var <? 0 then tree_walk fuel h (tn_right n) (SRight a) var
          else Some (inl a)
      end
  end.

Definition set_tn_node (n : tnode) x := mkTnode x (tn_left n) (tn_right n).
Definition set_tn_left (n : tnode) x := mkTnode (tn_node n) x (tn_right n).
Definition set_tn_right (n : tnode) x := mkTnode (tn_node n) (tn_left n) x.

(** An assignment through a pointer: the node must be there. *)
Definition tnode_upd (a : nat) (f : tnode -> tnode) (t : token_tree) : option token_tree :=
  n ← tk_heap t !! a;
  Some (mkTokens (tk_root t) (<[a := f n]> (tk_heap t)) (tk_next t)).

Definition set_tk_root (t : token_tree) x := mkTokens x (tk_heap t) (tk_next t).

Definition slot_set (sl : slot) (p : option nat) (t : token_tree) : option token_tree :=
  match sl with
  | SRoot => Some (set_tk_root t p)
  | SLeft a => tnode_upd a (fun n => set_tn_left n p) t
  | SRight a => tnode_upd a (fun n => set_tn_right n p) t
  end.

(** One word that is not classified: the entry is refreshed, or added; was it new? *)
Definition track_token (now : Z) (word : bytes) (t : token_tree) : option (bool * token_tree) :=
  r ← tree_walk (walk_fuel t) (tk_heap t) (tk_root t) SRoot word;
  match r with
  | inl a =>
      t ← tnode_upd a (fun n => set_tn_node n (setinfo_node now (tn_node n) ($"1")).1) t;
      Some (false, t)
  | inr sl =>
      let a := tk_next t in
      let t := mkTokens (tk_root t) (<[a := mkTnode (setinfo_new now word ($"1")) None None]> (tk_heap t)) (S a) in
      t ← slot_set sl (Some a) t;
      Some (true, t)
  end.

(** "Scroll to the leftmost entry" *)
Fixpoint leftmost (fuel : nat) (h : gmap nat tnode) (a : nat) : option nat :=
  match fuel with
  | O => None
  | S fuel =>
      n ← h !! a;
      match tn_left n with None => Some a | Some l => leftmost fuel h l end
  end.

(** The branch for an entry that was not refreshed: its neighbours are linked to each other, the root
    is moved when it is the entry, and the entry is freed. *)
Definition evict_node (a : nat) (t : token_tree) : option token_tree :=
  n ← tk_heap t !! a;
  t ← match tn_right n with Some r => tnode_upd r (fun m => set_tn_left m (tn_left n)) t | None => Some t end;
  n ← tk_heap t !! a;
  t ← match tn_left n with Some l => tnode_upd l (fun m => set_tn_right m (tn_right n)) t | None => Some t end;
  let t := if bool_decide (tk_root t = Some a)
           then set_tk_root t (match tn_left n with Some l => Some l | None => tn_right n end) else t in
  Some (mkTokens (tk_root t) (delete a (tk_heap t)) (tk_next t)).

(** "Go from left to right, on a freeing spree": how many entries disappeared. *)
Fixpoint evict_loop (fuel : nat) (st_start : Z) (node : option nat) (t : token_tree) : option (nat * token_tree) :=
  match fuel with
  | O => None
  | S fuel =>
      match node with
      | None => Some (0%nat, t)
      | Some a =>
          n ← tk_heap t !! a;
          let sttmp := tn_right n in
          if st_tree_node_compare_timestamp (tn_node n) (Some st_start) <? 0 then
            t ← evict_node a t;
            '(k, t) ← evict_loop fuel st_start sttmp t;
            Some (S k, t)
          else evict_loop fuel st_start sttmp t
      end
  end.

Definition evict_tokens (st_start : Z) (t : token_tree) : option (nat * token_tree) :=
  match tk_root t with
  | None => Some (0%nat, t)
  | Some root =>
      a ← leftmost (walk_fuel t) (tk_heap t) root;
      evict_loop (walk_fuel t) st_start (Some a) t
  end.

(** [state_infofree] *)
Fixpoint state_infofree (fuel : nat) (p : option nat) (h : gmap nat tnode) : option (gmap nat tnode) :=
  match fuel with
  | O => None
  | S fuel =>
      match p with
      | None => Some h
      | Some a =>
          n ← h !! a;
          h ← state_infofree fuel (tn_left n) h;
          n ← h !! a;
          h ← state_infofree fuel (tn_right n) h;
          _ ← h !! a;
          Some (delete a h)
      end
  end.

(** ** parse_status *)

(** The words between single spaces, empty ones included. *)
Fixpoint split_words (s : bytes) : list bytes :=
  match s with
  | [] => [[]]
  | c :: s' =>
      if Ascii.eqb c (chr 32) then [] :: split_words s'
      else match split_words s' with w :: ws => (c :: w) :: ws | [] => [[c]] end
  end.

(** [strstr(s, p) != NULL] *)
Definition contains (s p : bytes) : bool := match strstr_pos s p with Some _ => true | None => false end.

(** The reaction to a word: [None] when it is not a known one. *)
Definition handle_word (w : bytes) : option (mst -> option mst) :=
  let isw k := strcaseeq w k in
  let ok (f : mst -> mst) := Some (fun s => Some (f s)) in
  if isw ($"OL") then ok ups_on_line
  else if isw ($"OB") then ok ups_on_batt
  else if isw ($"LB") then ok ups_low_batt
  else if isw ($"RB") then ok upsreplbatt
  else if isw ($"CAL") then ok ups_is_cal
  else if isw ($"OFF") then ok ups_is_off
  else if isw ($"BYPASS") then ok ups_is_bypass
  else if isw ($"ECO") then ok ups_is_eco
  else if isw ($"ALARM") then Some ups_is_alarm
  else if isw ($"OVER") then ok ups_is_over
  else if isw ($"TRIM") then ok ups_is_trim
  else if isw ($"BOOST") then ok ups_is_boost
  else if isw ($"FSD") then ok ups_fsd
  else if isw ($"HB") || isw ($"CHRG") || isw ($"DISCHRG") || isw ($"OVER") || isw ($"TRIM") || isw ($"BOOST")
  then ok (fun s => s)
  else None.

(** [snprintfcat] of a word to [other_stat_words] *)
Definition add_other (other w : bytes) : bytes :=
  snprintfcat other SMALLBUF ((match other with [] => [] | _ => $" " end) ++ w).

(** The loop over the words: the other words, and how many of them are new. *)
Fixpoint words_loop (ws : list bytes) (other : bytes) (changed : nat) (s : mst) : option (bytes * nat * mst) :=
  match ws with
  | [] => Some (other, changed, s)
  | w :: ws =>
      '(other, changed, s) ←
        match handle_word w with
        | Some f => s ← f s; Some (other, changed, s)
        | None =>
            '(new, t) ← track_token (g_clock (s_g s)) w (m_tokens (s_ups s));
            Some (add_other other w, if new : bool then S changed else changed, upd (fun u => set_m_tokens u t) s)
        end;
      words_loop ws other changed (update_crittimer s)
  end.

Definition clear_missing (status : bytes) (s : mst) : mst :=
  let absent w := negb (contains status w) in
  let s := if absent ($"LB") then clear_flag ST_LOWBATT s else s in
  let s := if absent ($"FSD") then upd (fun u => set_m_lastfsdnotify u 0) (clear_flag ST_FSD s) else s in
  let s := if absent ($"CAL") then ups_is_notcal s else s in
  let s := if absent ($"OFF") then ups_is_notoff s else s in
  let s := if absent ($"BYPASS") then ups_is_notbypass s else s in
  let s := if absent ($"ALARM") then ups_is_notalarm s else s in
  let s := if absent ($"OVER") then ups_is_notover s else s in
  let s := if absent ($"TRIM") then ups_is_nottrim s else s in
  if absent ($"BOOST") then ups_is_notboost s else s.

(** the test of a text of buzzwords *)
Definition eco_buzzword (b : bytes) : bool :=
  match b with
  | [] => false
  | _ => negb (contains b ($":ECO")) || negb (contains b ($":ESS")) || negb (contains b ($":HE"))
         || negb (contains b ($":SMART"))
  end.

Definition eco_from_buzzwords (status buzzword buzzwordX : bytes) (s : mst) : mst :=
  let is_eco_buzzword := eco_buzzword buzzword || eco_buzzword buzzwordX in
  if negb (contains status ($"ECO")) && negb is_eco_buzzword then ups_is_noteco s
  else if is_eco_buzzword then ups_is_eco s
  else s.

(** The notice about unclassified words; with none left the tree is dropped. *)
Definition tell_others (other : bytes) (s : mst) : option mst :=
  match other with
  | _ :: _ => Some (tell NOTIFY_OTHER (Some other) s)
  | [] =>
      let s := tell NOTIFY_NOTOTHER None s in
      let t := m_tokens (s_ups s) in
      match tk_root t with
      | None => Some s
      | Some a =>
          h ← state_infofree (walk_fuel t) (Some a) (tk_heap t);
          Some (upd (fun u => set_m_tokens u (mkTokens None h (tk_next t))) s)
      end
  end.

Definition parse_status (status buzzword buzzwordX : bytes) (s : mst) : option mst :=
  match status with
  | [] => Some (ups_is_gone s)
  | _ =>
      let s := eco_from_buzzwords status buzzword buzzwordX (clear_missing status (ups_is_alive s)) in
      let st_start := g_clock (s_g s) in
      '(other, changed, s) ← words_loop (split_words status) [] 0 s;
      '(gone, t) ← evict_tokens st_start (m_tokens (s_ups s));
      let s := upd (fun u => set_m_tokens u t) s in
      if ((changed + gone) =? 0)%nat then Some s else tell_others other s
  end.

Example split_words_ex : split_words ($"OL  CHRG ") = [$"OL"; []; $"CHRG"; []].
Proof. reflexivity. Qed.
