(* ===== verification/MonCrit.v ===== *)
(** * clients/upsmon.c: deciding on a shutdown and carrying it out

    [is_ups_critical] judges one UPS, [recalc] adds up the power values of the others and compares
    with MINSUPPLIES; [forceshutdown] sets FSD where this host is the primary, waits for the
    secondaries and shuts down.

    A function that may end the process, or fault, or go on for ever, has an [outcome]. *)

From S2P Require Import Prelude CStr Fmt ParseConf UpsClient StateTree MonState MonStatus.
From stdpp Require Import options.

Record mon := mkMon { mo_ups : list utype; mo_g : glob }.

Inductive outcome :=
| Running (m : mon)
| Exited (code : Z) (m : mon)
| Faulted
| Endless
| RunsOn (m : mon).

Definition outcome_bind (o : outcome) (f : mon -> outcome) : outcome :=
  match o with Running m => f m | _ => o end.

Definition cfgm (m : mon) : mconf := g_conf (mo_g m).
Definition updm (f : glob -> glob) (m : mon) : mon := mkMon (mo_ups m) (f (mo_g m)).
Definition sleep_usec (us : Z) (m : mon) : mon := updm (fun g => set_g_clock g (g_clock g + us)) m.

(** ** is_ups_critical *)

(** [while (n1 != n2)], by subtraction *)
Fixpoint gcd_loop (fuel : nat) (n1 n2 : Z) : option Z :=
  match fuel with
  | O => None
  | S fuel =>
      if n1 =? n2 then Some n1
      else if n2 <? n1 then gcd_loop fuel (n1 - n2) n2 else gcd_loop fuel n1 (n2 - n1)
  end.

(** The new [sleepval]; [None] when the loop does not end. *)
Definition oblb_sleepval (pollfreqalert oblbdurationtime : Z) : option Z :=
  let n1 := if 0 <? pollfreqalert then wrapS 32 pollfreqalert else 1 in
  let n2 := if 0 <? oblbdurationtime then oblbdurationtime else 1 in
  n ← gcd_loop (Z.to_nat (n1 + n2)) n1 n2;
  Some (if 0 <? n then n else 1).

(** The part for a UPS that does not communicate: is it critical? *)
Definition nocomms_critical (s : mst) : bool :=
  let u := s_ups s in
  let c := cfg s in
  let now := now_of s in
  let over := ((m_overstate u =? 1) || has s ST_OVER) && (0 <=? overdurationtime c)
              && negb ((0 <? now) && (now - m_oversince u <? overdurationtime c)) in
  over
  || ((m_alarmstate u =? 1) || has s ST_ALARM) && (alarmcritical c =? 1)
  || has s ST_CAL
  || ((m_bypassstate u =? 1) || has s ST_BYPASS)
  || ((m_offstate u =? 1) || (0 <=? offdurationtime c) && has s ST_OFF).

(** From "if we're a primary, declare it critical": OB and LB, and no delay left *)
Definition primary_or_hostsync (s : mst) : bool :=
  if has s ST_PRIMARY then true
  else hostsync (cfg s) <? now_of s - m_lastnoncrit (s_ups s).

Definition is_ups_critical (s : mst) : option (bool * mst) :=
  let u := s_ups s in
  let c := cfg s in
  if has s ST_FSD then Some (true, s)
  else
    let now := now_of s in
    if (m_commstate u =? 0) && nocomms_critical s then Some (true, s)
    else if has s ST_OFF && (0 <=? offdurationtime c) && (m_offstate u =? 1) then Some (true, s)
    else if negb (has s ST_ONBATT) || negb (has s ST_LOWBATT) then
      if 0 <? m_oblbsince u then
        let s := upd (fun u => set_m_oblbsince u 0) s in
        let s := if has s ST_ONBATT then poll_alert s
                 else updg (fun g => set_g_sleepval g (pollfreq c)) s in
        Some (false, s)
      else Some (false, s)
    else if has s ST_CAL then Some (false, s)
    else if 0 <? oblbdurationtime c then
      if (m_oblbsince u <? 1) && (0 <? now) then
        n ← oblb_sleepval (pollfreqalert c) (oblbdurationtime c);
        Some (false, upd (fun u => set_m_oblbsince u now) (updg (fun g => set_g_sleepval g n) s))
      else if (0 <? now) && (now - m_oblbsince u <? oblbdurationtime c) then Some (false, s)
      else Some (primary_or_hostsync s, s)
    else Some (primary_or_hostsync s, s).

(** ** Shutting down *)

Definition SDMAGIC : bytes := $"upsmon-shutdown-file".

(** the file can be opened *)
Definition set_pdflag (g : glob) : glob :=
  match powerdownflag (g_conf g) with
  | None => g
  | Some fn => emit (OSetPdflag fn) (set_g_pdfile g (Some SDMAGIC))
  end.

(** [while (difftime(now, start) < finaldelay) sleep(1)] *)
Fixpoint wait_loop (fuel : nat) (start delay : Z) (m : mon) : outcome :=
  if time_of (mo_g m) - start <? delay then
    match fuel with
    | O => Endless
    | S fuel => wait_loop fuel start delay (sleep_usec 1000000 m)
    end
  else Running m.

(** [get_var] on one UPS of the list; the number of logins, when there is one *)
Definition numlogins_of (u : utype) : option (option Z * utype) :=
  '(ret, temp, u) ← get_var u ($"numlogins") SMALLBUF;
  Some (if 0 <=? ret then Some (strtol temp 10).1.1 else None, u).

(** The pings of one round, to every UPS unless exit_flag is set. *)
Fixpoint ping_all (us : list utype) : option (list utype) :=
  match us with
  | [] => Some []
  | u :: us => '(_, u) ← numlogins_of u; us ← ping_all us; Some (u :: us)
  end.

(** The loop that keeps the client known to the servers.  [sig] is how many more rounds pass before a signal comes, if
    one does; [RunsOn] is the state after [fuel] rounds. *)
Fixpoint ping_loop (fuel : nat) (sig : option nat) (start : Z) (m : mon) : outcome :=
  match fuel with
  | O => RunsOn m
  | S fuel =>
      match (if g_exit_flag (mo_g m) =? 0 then ping_all (mo_ups m) else Some (mo_ups m)) with
      | None => Faulted
      | Some us =>
          let m := mkMon us (mo_g m) in
          let delay := shutdownexitdelay (cfgm m) in
          if (0 <? delay) && (delay <? time_of (mo_g m) - start) then Running m
          else
            let m := sleep_usec 1000000 m in
            match sig with
            | Some O => Running (updm (fun g => set_g_exit_flag g 1) m)
            | _ => if negb (g_exit_flag (mo_g m) =? 0) then Running m else ping_loop fuel (pred <$> sig) start m
            end
      end
  end.

(** The rounds until the signal, or until SHUTDOWNEXIT is over.  With neither the loop has no end. *)
Definition ping_fuel (sig : option nat) (delay : Z) : nat :=
  match sig with Some k => S k | None => S (S (Z.to_nat delay)) end.

Definition exit_mon (code : Z) (m : mon) : outcome := Exited code (updm (emit (OExit code)) m).

Definition doshutdown (m : mon) : outcome :=
  let m := updm (emit (OWall ($"Executing automatic power-fail shutdown" ++ [LF]))) m in
  let m := updm (do_notify None NOTIFY_SHUTDOWN None) m in
  let delay := finaldelay (cfgm m) in
  outcome_bind (if 0 <? delay then wait_loop (Z.to_nat delay) (time_of (mo_g m)) delay m else Running m) (fun m =>
  let start := time_of (mo_g m) in
  let m := if negb (use_pipe (cfgm m) =? 0) then updm (emit OCallParent) m
           else updm (emit (OSystem (shutdowncmd (cfgm m)))) (updm set_pdflag m) in
  if shutdownexitdelay (cfgm m) =? 0 then exit_mon 0 m
  else 
    let sig := g_sigterm (mo_g m) in
    outcome_bind (ping_loop (ping_fuel sig (shutdownexitdelay (cfgm m))) sig start m) (exit_mon 0)).

Definition setfsd (s : mst) : mst :=
  let u := s_ups s in
  match m_upsname u with
  | None => s
  | Some upsname =>
      let '(ret, c) := upscli_sendline (m_conn u) (snprintf_s SMALLBUF ($"FSD " ++ upsname ++ [LF])) in
      let s := upd (fun u => set_m_conn u c) s in
      if ret <? 0 then s
      else
        let '(ret, buf, c) := upscli_readline c SMALLBUF in
        let s := upd (fun u => set_m_conn u c) s in
        if ret <? 0 then s
        else if strncmp buf ($"OK") 2 =? 0 then
          if negb (m_lastfsdnotify (s_ups s) =? 0) then s
          else tell NOTIFY_FSD None (upd (fun u => set_m_lastfsdnotify u (now_of s)) s)
        else s
  end.

(** [setfsd] on every UPS that this host is the primary of *)
Fixpoint setfsd_all (us : list utype) (g : glob) : bool * list utype * glob :=
  match us with
  | [] => (false, [], g)
  | u :: us =>
      if flag_isset (m_status u) ST_PRIMARY then
        let s := setfsd (mkMst u g) in
        let '(_, us, g) := setfsd_all us (s_g s) in (true, s_ups s :: us, g)
      else let '(isaprimary, us, g) := setfsd_all us g in (isaprimary, u :: us, g)
  end.

(** One look at the numbers of logins: the largest *)
Fixpoint logins_scan (us : list utype) (maxlogins : Z) : option (Z * list utype) :=
  match us with
  | [] => Some (maxlogins, [])
  | u :: us =>
      if flag_isset (m_status u) ST_PRIMARY then
        '(logins, u) ← numlogins_of u;
        '(maxlogins, us) ← logins_scan us (match logins with Some l => Z.max maxlogins l | None => maxlogins end);
        Some (maxlogins, u :: us)
      else '(maxlogins, us) ← logins_scan us maxlogins; Some (maxlogins, u :: us)
  end.

Fixpoint sync_loop (fuel : nat) (start : Z) (first : bool) (m : mon) : outcome :=
  match fuel with
  | O => Endless
  | S fuel =>
      match logins_scan (mo_ups m) 0 with
      | None => Faulted
      | Some (maxlogins, us) =>
          let m := mkMon us (mo_g m) in
          if maxlogins <=? 1 then Running m
          else if hostsync (cfgm m) <? time_of (mo_g m) - start then Running m
          else
            let m := if (1 <? maxlogins) && first then updm (do_notify None NOTIFY_SHUTDOWN_HOSTSYNC None) m else m in
            sync_loop fuel start false (sleep_usec 250000 m)
      end
  end.

(** Four rounds in a second, and HOSTSYNC is over after that many seconds and one more. *)
Definition sync_fuel (hostsync : Z) : nat := S (Z.to_nat (4 * (hostsync + 1))).

Definition sync_secondaries (m : mon) : outcome :=
  sync_loop (sync_fuel (hostsync (cfgm m))) (time_of (mo_g m)) true m.

Definition forceshutdown (m : mon) : outcome :=
  let '(isaprimary, us, g) := setfsd_all (mo_ups m) (mo_g m) in
  let m := mkMon us g in
  if negb isaprimary then doshutdown m
  else outcome_bind (sync_secondaries m) doshutdown.

(** ** recalc *)

(** The loop: the power value of the UPSes that are not critical, as an [unsigned int] *)
Fixpoint recalc_loop (now : Z) (us : list utype) (val_ol : Z) (g : glob) : option (Z * list utype * glob) :=
  match us with
  | [] => Some (val_ol, [], g)
  | u :: us =>
      let s := mkMst u g in
      let s := if (deadtime (cfg s) <? now - m_lastpoll u) && has s ST_ONBATT then set_flag ST_LOWBATT s else s in
      '(crit, s) ← is_ups_critical s;
      let val_ol := if crit : bool then val_ol else wrap32 (val_ol + m_pv (s_ups s)) in
      '(val_ol, us, g) ← recalc_loop now us val_ol (s_g s);
      Some (val_ol, s_ups s :: us, g)
  end.

Definition recalc (m : mon) : outcome :=
  match recalc_loop (time_of (mo_g m)) (mo_ups m) 0 (mo_g m) with
  | None => Endless
  | Some (val_ol, us, g) =>
      let m := mkMon us g in
      if val_ol <? minsupplies (cfgm m) then forceshutdown m else Running m
  end.
