(* ===== verification/MonPoll.v ===== *)
(** * clients/upsmon.c: talking to upsd

    Connecting and logging in, one poll of a UPS, the POWERDOWNFLAG file, and a cycle of the main
    loop on a system that does not tell about its sleep. *)

From S2P Require Import Prelude CStr Fmt ParseConf UpsClient StateTree MonState MonStatus MonParse MonCrit.
From stdpp Require Import options.

(** ** Connecting *)

Definition UPSCLI_CONN_INET : Z := 0x0004.
Definition UPSCLI_CONN_INET6 : Z := 0x0008.

Definition drop_connection (s : mst) : mst :=
  let s := upd (fun u => set_m_commstate u 0) s in
  let s := upd (fun u => set_m_throttle_state (set_m_throttle_count u (-1)) UPSCLI_ERR_NONE) s in
  let s := clear_flag ST_CLICONNECTED (clear_flag ST_LOGIN s) in
  upd (fun u => set_m_conn u (upscli_disconnect (m_conn u)).2) s.

(** A request to the server and its answer: [None] when either fails. *)
Definition ask_line (s : mst) (line : bytes) : option bytes * mst :=
  let '(ret, c) := upscli_sendline (m_conn (s_ups s)) (snprintf_s SMALLBUF line) in
  let s := upd (fun u => set_m_conn u c) s in
  if ret <? 0 then (None, s)
  else
    let '(ret, buf, c) := upscli_readline (m_conn (s_ups s)) SMALLBUF in
    let s := upd (fun u => set_m_conn u c) s in
    if ret =? 0 then (Some buf, s) else (None, s).

Definition says_ok (buf : bytes) : bool := strncmp buf ($"OK") 2 =? 0.

Definition apply_for_primary (s : mst) : Z * mst :=
  if negb (has s ST_PRIMARY) then (1, s)
  else
    match m_upsname (s_ups s) with
    | None | Some [] => (0, s)
    | Some upsname =>
        let '(answer, s) := ask_line s ($"PRIMARY " ++ upsname ++ [LF]) in
        match answer with
        | None => (0, s)
        | Some buf =>
            if says_ok buf then (1, s)
            else
              let '(answer, s) := ask_line s ($"MASTER " ++ upsname ++ [LF]) in
              match answer with
              | None => (0, s)
              | Some buf => (if says_ok buf then 1 else 0, s)
              end
        end
    end.

Definition do_upsd_auth (s : mst) : Z * mst :=
  let '(ret, c) := upscli_authenticate (m_conn (s_ups s)) (m_un (s_ups s)) (m_pw (s_ups s)) in
  let s := upd (fun u => set_m_conn u c) s in
  if ret <? 0 then (0, s)
  else
    match m_upsname (s_ups s) with
    | None | Some [] => (0, s)
    | Some upsname =>
        let '(answer, s) := ask_line s ($"LOGIN " ++ upsname ++ [LF]) in
        match answer with
        | None => (0, s)
        | Some buf =>
            if negb (says_ok buf) then (0, s)
            else apply_for_primary (set_flag ST_LOGIN s)
        end
    end.

(** The next outcome of [getaddrinfo], [socket] and [connect]; by default a failure. *)
Definition next_dial (g : glob) : dial_result * glob :=
  match g_dials g with
  | [] => (DialFailed UPSCLI_ERR_CONNFAILURE, g)
  | d :: ds => (d, set_g_dials g ds)
  end.

Definition try_connect (s : mst) : Z * mst :=
  let u := s_ups s in
  let host := default [] (m_hostname u) in
  let ac := authconf (cfg s) host (m_port u) in
  let s := clear_flag ST_CLICONNECTED s in
  let forcessl := match ac with Some a => ac_forcessl a | None => 0 end in
  let certverify := match ac with Some a => ac_certverify a | None => 0 end in
  let certpath := match ac with Some a => ac_certpath a | None => None end in
  let flags := if forcessl =? 1 then UPSCLI_CONN_REQSSL else UPSCLI_CONN_TRYSSL in
  let flags := match opt_af (cfg s) with
               | AF_INET => Z.lor flags UPSCLI_CONN_INET
               | AF_INET6 => Z.lor flags UPSCLI_CONN_INET6
               | AF_UNSPEC => flags
               end in
  if bool_decide (certpath = None) && (certverify =? 1) then (0, drop_connection (ups_is_gone s))
  else
    let flags := if certverify =? 1 then Z.lor flags UPSCLI_CONN_CERTVERIF else flags in
    let '(dial, g) := next_dial (s_g s) in
    let s := mkMst (s_ups s) g in
    let '(ret, c) := upscli_tryconnect dial (hostcert (cfg s) host (m_port u)) (m_hostname u) (m_port u) flags in
    let s := upd (fun u => set_m_conn u c) s in
    if ret <? 0 then (0, ups_is_gone s)
    else
      let '(ret, s) := do_upsd_auth (set_flag ST_CLICONNECTED s) in
      (if ret =? 1 then 1 else 0, s).

(** ** Polling *)

(** The bookkeeping about failures that are logged less often; the log itself is left out. *)
Definition throttle_failure (upserror : Z) (s : mst) : mst :=
  let max := pollfail_log_throttle_max (cfg s) in
  if max <? 0 then s
  else if m_throttle_state (s_ups s) =? upserror then
    if max =? 0 then s
    else
      let count := m_throttle_count (s_ups s) in
      if max - 1 <=? count then upd (fun u => set_m_throttle_count u 0) s
      else upd (fun u => set_m_throttle_count u (count + 1)) s
  else upd (fun u => set_m_throttle_count (set_m_throttle_state u upserror) 0) s.

(** The text of a query, empty when it failed *)
Definition poll_var (s : mst) (var : bytes) : option (bool * bytes * mst) :=
  '(ret, buf, u) ← get_var (s_ups s) var SMALLBUF;
  Some (ret =? 0, if ret =? 0 then buf else [], upd (fun _ => u) s).

Definition pollups (s : mst) : option mst :=
  let '(connected, s) :=
    if negb (has s ST_CLICONNECTED) then let '(ret, s) := try_connect s in (ret =? 1, s) else (true, s) in
  if negb connected then Some s
  else
    '(got_status, status, s) ← poll_var s ($"status");
    '(got_buzzmode, buzzmode, s) ← poll_var s ($"buzzword");
    '(got_buzzmodeX, buzzmodeX, s) ← poll_var s ($"X-buzzword");
    if got_status || got_buzzmode || got_buzzmodeX then
      let s := upd (fun u => set_m_throttle_count (set_m_throttle_state u UPSCLI_ERR_NONE) (-1)) s in
      parse_status status buzzmode buzzmodeX s
    else
      let s := ups_is_gone (throttle_failure (upscli_upserror (m_conn (s_ups s))) s) in
      Some (if upscli_fd (m_conn (s_ups s)) =? -1 then drop_connection s else s).

(** ** The POWERDOWNFLAG file *)

(** the line [fgets] stores in a buffer of [n] bytes *)
Fixpoint fgets (n : nat) (s : bytes) : bytes :=
  match n, s with
  | S ((S _) as n'), c :: s' => c :: (if Ascii.eqb c LF then [] else fgets n' s')
  | _, _ => []
  end.

(** [junk] is what the uninitialized buffer holds; it is looked at when the file is empty. *)
Definition pdflag_status (junk : bytes) (g : glob) : Z :=
  match powerdownflag (g_conf g) with
  | None => 0
  | Some _ =>
      match g_pdfile g with
      | None => 0
      | Some contents =>
          let buf := match contents with [] => junk | _ => c_string (fgets SMALLBUF contents) end in
          if strncmp buf SDMAGIC (length SDMAGIC) =? 0 then 1 else -1
      end
  end.

Definition clear_pdflag (junk : bytes) (g : glob) : glob :=
  let ret := pdflag_status junk g in
  if ret =? -1 then set_g_conf g (set_powerdownflag (g_conf g) None)
  else if ret =? 1 then
    match powerdownflag (g_conf g) with
    | Some fn => emit (OUnlink fn) (set_g_pdfile g None)
    | None => g
    end
  else g.

Definition EXIT_SUCCESS : Z := 0.
Definition EXIT_FAILURE : Z := 1.

Definition check_pdflag (junk : bytes) (g : glob) : Z :=
  let ret := pdflag_status junk g in
  if ret =? -1 then EXIT_FAILURE
  else if ret =? 0 then EXIT_FAILURE
  else if negb (ret =? 1) then EXIT_FAILURE
  else EXIT_SUCCESS.

(** ** The main loop *)

Fixpoint poll_all (us : list utype) (g : glob) : option (list utype * glob) :=
  match us with
  | [] => Some ([], g)
  | u :: us =>
      s ← pollups (mkMst u g);
      '(us, g) ← poll_all us (s_g s);
      Some (s_ups s :: us, g)
  end.

(** One cycle with what the signal handler for FSD left in [userfsd]: poll, judge, sleep. *)
Definition main_cycle (userfsd : bool) (m : mon) : outcome :=
  if userfsd then forceshutdown m
  else
    match poll_all (mo_ups m) (mo_g m) with
    | None => Faulted
    | Some (us, g) =>
        outcome_bind (recalc (mkMon us g)) (fun m => Running (sleep_usec (1000000 * g_sleepval (mo_g m)) m))
    end.
