(* ===== verification/MonConf.v ===== *)
(** * clients/upsmon.c: upsmon.conf

    Adding and redefining UPSes, the directives, loading and reloading.  The directives about SSL and
    authentication files belong to authconf.c: they are accepted and change nothing here. *)

From S2P Require Import Prelude CStr StrUtil Fmt ParseConf ConfFile UpsClient StateTree.
From S2P Require Import MonState MonStatus MonParse MonCrit MonPoll.
From stdpp Require Import options.

Definition updc (f : mconf -> mconf) : mon -> mon := updm (fun g => set_g_conf g (f (g_conf g))).

Definition is_primary_word (w : bytes) : bool := strcaseeq w ($"primary") || strcaseeq w ($"master").
Definition is_secondary_word (w : bytes) : bool := strcaseeq w ($"secondary") || strcaseeq w ($"slave").

(** [drop_connection] when this UPS is not logged in: the new data may make a login work *)
Definition retry_login (s : mst) : mst := if negb (has s ST_LOGIN) then drop_connection s else s.

Definition redefine_ups (pv : Z) (un pw managerialOption : bytes) (s : mst) : mst :=
  let s := upd (fun u => set_m_pv (set_m_retain u 1) pv) s in
  let s := updg (fun g => set_g_totalpv g (wrap32 (g_totalpv g + m_pv (s_ups s)))) s in
  let s := match m_un (s_ups s) with
           | Some old => if negb (streq old un) then retry_login (upd (fun u => set_m_un u (Some un)) s) else s
           | None => retry_login (upd (fun u => set_m_un u (Some un)) s)
           end in
  let s := upd (fun u => set_m_pw u (Some (default [] (m_pw u)))) s in
  let s := if negb (bool_decide (m_pw (s_ups s) = Some pw))
           then retry_login (upd (fun u => set_m_pw u (Some pw)) s) else s in
  if is_primary_word managerialOption && negb (has s ST_PRIMARY) then drop_connection (set_flag ST_PRIMARY s)
  else if is_secondary_word managerialOption && has s ST_PRIMARY then clear_flag ST_PRIMARY s
  else s.

(** the members as [calloc] and the assignments leave them *)
Definition new_ups (sys : bytes) (pv : Z) (un pw managerialOption : bytes) : utype :=
  let r := upscli_splitname sys in
  let status := if is_primary_word managerialOption then setflag 0 ST_PRIMARY else 0 in
  mkUtype zero_conn sys (sr_upsname r) (sr_hostname r) (default 0 (sr_port r)) pv (Some un) (Some pw) status
    no_tokens 1 (-1) (-1) (-1) (-1) (-1) (-1) (-1) UPSCLI_ERR_NONE (-1) 0 0 0 0 0 0 0 0.

(** The loop that looks for the UPS: the list with it redefined, or nothing. *)
Fixpoint redefine_in (sys : bytes) (redefine : mst -> mst) (us : list utype) (g : glob) : option (list utype * glob) :=
  match us with
  | [] => None
  | u :: us =>
      if streq (m_sys u) sys then let s := redefine (mkMst u g) in Some (s_ups s :: us, s_g s)
      else '(us, g) ← redefine_in sys redefine us g; Some (u :: us, g)
  end.

(** The arguments are strings, as [parse_conf_arg] gives them. *)
Definition addups (reloading : bool) (sys pvs un pw managerialOption : bytes) (m : mon) : mon :=
  let lpv := (strtol pvs 10).1.1 in
  if (lpv <? 0) || (UINT_MAX <? lpv) then m
  else
    let pv := lpv in
    let redefine := if reloading then redefine_ups pv un pw managerialOption else fun s => s in
    match redefine_in sys redefine (mo_ups m) (mo_g m) with
    | Some (us, g) => mkMon us g
    | None =>
        mkMon (mo_ups m ++ [new_ups sys pv un pw managerialOption])
          (set_g_totalpv (mo_g m) (wrap32 (g_totalpv (mo_g m) + pv)))
    end.

(** ** Notifications *)

Fixpoint notify_alter (f : notify_entry -> notify_entry) (name : bytes) (l : list notify_entry) : list notify_entry :=
  match l with
  | [] => []
  | n :: l => if strcaseeq (ne_name n) name then f n :: l else n :: notify_alter f name l
  end.

Definition set_notifymsg (name msg : bytes) (c : mconf) : mconf :=
  set_notifylist c (notify_alter (fun n => set_ne_msg n (Some msg)) name (notifylist c)).

(** The words between plus signs *)
Fixpoint split_plus (s : bytes) : list bytes :=
  match s with
  | [] => [[]]
  | c :: s' =>
      if Ascii.eqb c (chr 43) then [] :: split_plus s'
      else match split_plus s' with w :: ws => (c :: w) :: ws | [] => [[c]] end
  end.

Definition notify_flag (w : bytes) : Z :=
  if streq w ($"IGNORE") then NOTIFY_IGNORE
  else if streq w ($"EXEC") then NOTIFY_EXEC
  else if streq w ($"WALL") then NOTIFY_WALL
  else if streq w ($"SYSLOG") then NOTIFY_SYSLOG
  else 0.

Definition set_notifyflag (ntype flags : bytes) (c : mconf) : mconf :=
  set_notifylist c (notify_alter
    (fun n => set_ne_flags n (fold_left (fun fl w => Z.lor fl (notify_flag w)) (split_plus flags) 0)) ntype (notifylist c)).

(** ** Directives *)

(** the command line for [system]: only the first word goes unquoted *)
Definition concat_shutdowncmd (cmds : list bytes) : bytes :=
  let sq : bytes := [chr 39] in
  let l := (foldr (fun a n => length a + 3 + n) 0 cmds)%nat in
  let fix go (buf : bytes) (cmds : list bytes) : bytes :=
    match cmds with
    | [] => buf
    | a :: cmds => go (snprintfcat buf (l + 1) (sq ++ a ++ sq ++ match cmds with [] => [] | _ => $" " end)) cmds
    end in
  match cmds with
  | [] => []
  | a :: cmds => go (snprintf_s (l + 1) (a ++ match cmds with [] => [] | _ => $" " end)) cmds
  end.

(** [POLLFREQ] and the like: a negative number is ignored *)
Definition set_nonneg (set : mconf -> Z -> mconf) (a : bytes) (m : mon) : mon :=
  if atoi a <? 0 then m else updc (fun c => set c (atoi a)) m.

Definition shutdownexit_of (a : bytes) (old : Z) : Z :=
  if strcaseeq a ($"on") || strcaseeq a ($"yes") || strcaseeq a ($"true") then 0
  else if strcaseeq a ($"off") || strcaseeq a ($"no") || strcaseeq a ($"false") then -1
  else let '(ok, v, _) := str_to_int (Some a) 10 in if ok =? 0 then 0 else v.

(** The directives with one argument *)
Definition conf_arg1 (a0 a1 : bytes) (rest : list bytes) (m : mon) : option mon :=
  let isd k := streq a0 k in
  if isd ($"NOTIFYCMD") then Some (updc (fun c => set_notifycmd c (a1 :: rest)) m)
  else if isd ($"SHUTDOWNCMD") then Some (updc (fun c => set_shutdowncmd c (Some (concat_shutdowncmd (a1 :: rest)))) m)
  else if isd ($"SHUTDOWNEXIT") then
    Some (updc (fun c => set_shutdownexitdelay c (shutdownexit_of a1 (shutdownexitdelay c))) m)
  else if isd ($"POWERDOWNFLAG") then Some (updc (fun c => set_powerdownflag c (Some a1)) m)
  else if isd ($"POLLFREQ") then Some (set_nonneg set_pollfreq a1 m)
  else if isd ($"POLLFREQALERT") then Some (set_nonneg set_pollfreqalert a1 m)
  else if isd ($"POLLFAIL_LOG_THROTTLE_MAX") then
    Some (if (atoi a1 <? 0) || (atoi a1 =? INT_MAX) then m
          else updc (fun c => set_pollfail_log_throttle_max c (atoi a1)) m)
  else if isd ($"OFFDURATION") then Some (updc (fun c => set_offdurationtime c (atoi a1)) m)
  else if isd ($"OVERDURATION") then Some (updc (fun c => set_overdurationtime c (atoi a1)) m)
  else if isd ($"OBLBDURATION") then
    Some (updc (fun c => set_oblbdurationtime c (if atoi a1 <? 1 then 0 else atoi a1)) m)
  else if isd ($"HOSTSYNC") then Some (updc (fun c => set_hostsync c (atoi a1)) m)
  else if isd ($"DEADTIME") then Some (updc (fun c => set_deadtime c (atoi a1)) m)
  else if isd ($"MINSUPPLIES") then Some (set_nonneg set_minsupplies a1 m)
  else if isd ($"RBWARNTIME") then Some (updc (fun c => set_rbwarntime c (atoi a1)) m)
  else if isd ($"NOCOMMWARNTIME") then Some (updc (fun c => set_nocommwarntime c (atoi a1)) m)
  else if isd ($"FINALDELAY") then Some (set_nonneg set_finaldelay a1 m)
  else if isd ($"RUN_AS_USER") || isd ($"AUTHCONF") || isd ($"CERTPATH") || isd ($"CERTFILE")
          || isd ($"CERTVERIFY") || isd ($"FORCESSL") then Some m
  else if isd ($"ALARMCRITICAL") then Some (updc (fun c => set_alarmcritical c (atoi a1)) m)
  else if strcaseeq a0 ($"DEBUG_MIN") then
    let '(ok, lvl, _) := str_to_int (Some a1) 10 in
    Some (if negb (ok =? 0) && (0 <=? lvl) then updc (fun c => set_debug_global c lvl) m else m)
  else None.

(** [Some (1, m)] when the line was used, [Some (0, m)] when not; [None] ends the program. *)
Definition parse_conf_arg (reload_flag : Z) (arg : list bytes) (m : mon) : option (Z * mon) :=
  match arg with
  | a0 :: a1 :: rest =>
      match conf_arg1 a0 a1 rest m with
      | Some m => Some (1, m)
      | None =>
          match rest with
          | [] => Some (0, m)
          | a2 :: rest =>
              if streq a0 ($"NOTIFYMSG") then Some (1, updc (set_notifymsg a1 a2) m)
              else if streq a0 ($"NOTIFYFLAG") then Some (1, updc (set_notifyflag a1 a2) m)
              else if streq a0 ($"CERTIDENT") then Some (1, m)
              else
                match rest with
                | a3 :: a4 :: rest =>
                    if streq a0 ($"CERTHOST") then Some (1, m)
                    else if streq a0 ($"MONITOR") then
                      match rest with
                      | [] => None
                      | a5 :: _ => Some (1, addups (negb (reload_flag =? 0)) a1 a2 a3 a4 a5 m)
                      end
                    else Some (0, m)
                | _ => Some (0, m)
                end
          end
      end
  | _ => Some (0, m)
  end.

(** ** Loading and reloading *)

(** before the lines are read again *)
Definition forget_throttling (m : mon) : mon :=
  let m := updc (fun c => set_debug_global c (-1)) m in
  if 0 <=? pollfail_log_throttle_max (cfgm m) then
    let m := updc (fun c => set_pollfail_log_throttle_max c (-1)) m in
    mkMon (map (fun u => set_m_throttle_state (set_m_throttle_count u (-1)) UPSCLI_ERR_NONE) (mo_ups m)) (mo_g m)
  else m.

(** One line; a fatal one leaves nothing. *)
Definition conf_line (reload_flag : Z) (m : option mon) (arg : list bytes) : option mon :=
  match arg with
  | [] => m
  | _ => m ← m; snd <$> parse_conf_arg reload_flag arg m
  end.

(** [None] is a fatal error. *)
Definition loadconfig (fopen : bytes -> bytes + bytes) (configfile : bytes) (reload_flag : Z) (m : mon) : option mon :=
  match fopen configfile with
  | inr _ => if (reload_flag =? 1) || (reload_flag =? -1) then Some m else None
  | inl _ =>
      let m := if reload_flag =? 1 then forget_throttling m else m in
      default None (conf_load fopen configfile (conf_line reload_flag) (Some m))
  end.

(** [delete_ups] on each UPS that was not seen again; its tree of words is freed with it. *)
Fixpoint delete_unretained (us : list utype) : option (list utype) :=
  match us with
  | [] => Some []
  | u :: us =>
      if m_retain u =? 0 then
        let t := m_tokens u in
        _ ← state_infofree (walk_fuel t) (tk_root t) (tk_heap t);
        delete_unretained us
      else us ← delete_unretained us; Some (u :: us)
  end.

Definition reload_conf (fopen : bytes -> bytes + bytes) (configfile : bytes) (m : mon) : outcome :=
  match fopen configfile with
  | inr _ => Running m
  | inl _ =>
      let m := mkMon (map (fun u => set_m_retain u 0) (mo_ups m)) (set_g_totalpv (mo_g m) 0) in
      match loadconfig fopen configfile 1 m with
      | None => exit_mon 1 m
      | Some m =>
          match delete_unretained (mo_ups m) with
          | None => Faulted
          | Some us =>
              let m := mkMon us (mo_g m) in
              if g_totalpv (mo_g m) <? minsupplies (cfgm m) then exit_mon 1 m else Running m
          end
      end
  end.

Example shutdowncmd_ex : concat_shutdowncmd [$"/sbin/shutdown -h"; $"+0"; $"power"] = $"/sbin/shutdown -h '+0' 'power'".
Proof. reflexivity. Qed.
