(* ===== verification/MonFacts.v ===== *)
(** * Theorems about what upsmon makes of a status

    Flags as bits, the frame of the handlers, the flags after [parse_status], and, in the last section, where
    upsmon does not do what it means to. *)

From S2P Require Import Prelude CStr Fmt StrUtil ListenFacts ParseConf ParseConfFacts UpsClient StateTree.
From S2P Require Import UpsClientFacts MonState MonStatus MonParse MonCrit MonPoll.
From stdpp Require Import options.

(** ** Flags *)

Definition is_flag (f : Z) : Prop := exists i, 0 <= i /\ f = 2 ^ i.

Lemma isset_testbit v i : 0 <= i -> flag_isset v (2 ^ i) = Z.testbit v i.
Proof.
  intros Hi. unfold flag_isset. destruct (Z.testbit v i) eqn:Hb.
  - apply Z.eqb_eq. apply Z.bits_inj'. intros j Hj. rewrite Z.land_spec, Z.pow2_bits_eqb by done.
    destruct (Z.eqb_spec i j) as [<-|]; [by rewrite Hb|]. by rewrite andb_false_r.
  - apply Z.eqb_neq. intros H. apply (f_equal (fun z => Z.testbit z i)) in H.
    rewrite Z.land_spec, Hb, Z.pow2_bits_true in H by done. done.
Qed.

Lemma isset_set v f g : is_flag f -> is_flag g -> flag_isset (setflag v f) g = (f =? g) || flag_isset v g.
Proof.
  intros (i & Hi & ->) (j & Hj & ->). rewrite !isset_testbit by done. unfold setflag.
  rewrite Z.lor_spec, Z.pow2_bits_eqb by done. rewrite orb_comm. f_equal.
  destruct (Z.eqb_spec i j) as [->|Hne]; [by rewrite Z.eqb_refl|].
  symmetry. apply Z.eqb_neq. intros H. apply Hne. by apply (Z.pow_inj_r 2).
Qed.

Lemma isset_clear v f g : is_flag f -> is_flag g -> flag_isset (clearflag v f) g = negb (f =? g) && flag_isset v g.
Proof.
  intros (i & Hi & ->) (j & Hj & ->). rewrite !isset_testbit by done. unfold clearflag.
  rewrite Z.lxor_spec, Z.land_spec, Z.pow2_bits_eqb by done.
  destruct (Z.eqb_spec i j) as [->|Hne].
  - rewrite Z.eqb_refl. by destruct (Z.testbit v j).
  - assert (2 ^ i <> 2 ^ j) as H by (intros H; apply Hne; by apply (Z.pow_inj_r 2)).
    rewrite (proj2 (Z.eqb_neq _ _) H). by destruct (Z.testbit v j).
Qed.

Definition flags_all : list Z :=
  [ST_ONLINE; ST_ONBATT; ST_LOWBATT; ST_FSD; ST_PRIMARY; ST_LOGIN; ST_CLICONNECTED; ST_CAL; ST_OFF; ST_BYPASS;
   ST_ECO; ST_ALARM; ST_OTHER; ST_OVER; ST_TRIM; ST_BOOST].

Lemma flags_all_flag f : f ∈ flags_all -> is_flag f.
Proof.
  assert (Forall (fun f => bool_decide (f = 2 ^ Z.log2 f) = true) flags_all) as H by (by repeat constructor).
  rewrite Forall_forall in H. intros Hf. apply H, bool_decide_eq_true in Hf. exists (Z.log2 f).
  split; [apply Z.log2_nonneg|done].
Qed.

Ltac is_flag := apply flags_all_flag; apply (bool_decide_unpack _); vm_compute; exact I.
#[export] Hint Extern 1 (is_flag _) => is_flag : nut.

(** ** What is said on the way *)

Definition is_message (o : mout) : Prop :=
  match o with ONotice _ _ _ _ _ _ | OWall _ => True | _ => False end.

(** The globals after some messages: the settings, the file and the signals are as they were. *)
Definition said (g g' : glob) : Prop :=
  (exists notes, Forall is_message notes /\ g_out g' = g_out g ++ notes)
  /\ g_conf g' = g_conf g /\ g_pdfile g' = g_pdfile g /\ g_sigterm g' = g_sigterm g.

#[export] Instance said_preorder : PreOrder said.
Proof.
  split.
  - intros g. split_and!; try done. exists []. by rewrite app_nil_r.
  - intros g1 g2 g3 ((n1 & Hn1 & E1) & ?&?&?) ((n2 & Hn2 & E2) & ?&?&?). split_and!; try congruence.
    exists (n1 ++ n2). split; [by apply Forall_app|]. by rewrite E2, E1, app_assoc.
Qed.

Lemma said_quiet g g' : g_out g' = g_out g -> g_conf g' = g_conf g -> g_pdfile g' = g_pdfile g ->
  g_sigterm g' = g_sigterm g -> said g g'.
Proof. intros Ho ???. split_and!; try done. exists []. by rewrite app_nil_r. Qed.

Lemma emit_said o g : is_message o -> said g (emit o g).
Proof. intros Ho. split; [exists [o]; split; [by constructor|done]|done]. Qed.

Lemma do_notify_said sys t extra g : said g (do_notify sys t extra g).
Proof.
  unfold do_notify, notify. case_match; [|reflexivity]. case_match; [reflexivity|]. by apply emit_said.
Qed.

(** ** What the handlers change *)

Lemma do_notify_frame sys t extra g :
  g_conf (do_notify sys t extra g) = g_conf g /\ g_clock (do_notify sys t extra g) = g_clock g
  /\ g_sleepval (do_notify sys t extra g) = g_sleepval g.
Proof. unfold do_notify, notify. repeat case_match; done. Qed.

Definition status_of (s : mst) : Z := m_status (s_ups s).

(** The settings, the clock, the identity of the UPS and what the system keeps about the link are as
    they were. *)
Definition same_env (s s' : mst) : Prop :=
  g_conf (s_g s') = g_conf (s_g s) /\ g_clock (s_g s') = g_clock (s_g s)
  /\ m_sys (s_ups s') = m_sys (s_ups s) /\ m_upsname (s_ups s') = m_upsname (s_ups s)
  /\ m_pv (s_ups s') = m_pv (s_ups s) /\ m_lastpoll (s_ups s') = m_lastpoll (s_ups s)
  /\ m_commstate (s_ups s') = m_commstate (s_ups s)
  /\ said (s_g s) (s_g s').

#[export] Instance same_env_preorder : PreOrder same_env.
Proof.
  split; [intros s; by split_and!|]. intros s1 s2 s3 (?&?&?&?&?&?&?&?) (?&?&?&?&?&?&?&?).
  split_and!; try congruence. by etrans.
Qed.

Lemma tell_env t extra s : same_env s (tell t extra s).
Proof.
  destruct (do_notify_frame (Some (m_sys (s_ups s))) t extra (s_g s)) as (?&?&?). split_and!; try done. apply do_notify_said.
Qed.

Lemma tell_status t extra s : status_of (tell t extra s) = status_of s.
Proof. done. Qed.

Lemma restore_env s : same_env s (try_restore_pollfreq s).
Proof. unfold try_restore_pollfreq. case_match; [|reflexivity]. split_and!; try done. by apply said_quiet. Qed.
Lemma restore_ups s : s_ups (try_restore_pollfreq s) = s_ups s.
Proof. unfold try_restore_pollfreq. by case_match. Qed.

(** The end of a state clears its flag and no other. *)
Lemma over_bits f t s g : is_flag f -> is_flag g ->
  flag_isset (status_of (state_over f t s)) g = negb (f =? g) && flag_isset (status_of s) g.
Proof.
  intros Hf Hg. unfold state_over, has. fold (status_of s).
  destruct (flag_isset (status_of s) f) eqn:Hs.
  - unfold status_of at 1. rewrite restore_ups. simpl. fold (status_of s). by apply isset_clear.
  - destruct (Z.eqb_spec f g) as [->|]; [by rewrite Hs|done].
Qed.

Lemma over_env f t s : same_env s (state_over f t s).
Proof.
  unfold state_over. case_match; [|done]. etrans; [apply (tell_env t None)|].
  etrans; [|apply restore_env]. done.
Qed.

(** Neither the connection nor the tree of words is looked at by most handlers. *)
Definition same_link (s s' : mst) : Prop :=
  m_conn (s_ups s') = m_conn (s_ups s) /\ m_tokens (s_ups s') = m_tokens (s_ups s).
#[export] Instance same_link_equiv : Equivalence same_link.
Proof. split; unfold same_link; repeat intro; naive_solver congruence. Qed.

Lemma over_link f t s : same_link s (state_over f t s).
Proof. unfold state_over. case_match; [|done]. unfold same_link. by rewrite restore_ups. Qed.

(** ** The words of a status *)

Definition std_words : list bytes :=
  [$"OL"; $"OB"; $"LB"; $"RB"; $"CAL"; $"OFF"; $"BYPASS"; $"ALARM"; $"OVER"; $"TRIM"; $"BOOST"; $"FSD"; $"HB"; $"CHRG";
   $"DISCHRG"].

(** The flags that follow a word exactly *)
Definition word_flags : list (bytes * Z) :=
  [($"LB", ST_LOWBATT); ($"FSD", ST_FSD); ($"CAL", ST_CAL); ($"OFF", ST_OFF); ($"BYPASS", ST_BYPASS); ($"ALARM", ST_ALARM);
   ($"OVER", ST_OVER); ($"TRIM", ST_TRIM); ($"BOOST", ST_BOOST)].

Definition flag_of_word (w : bytes) : option Z :=
  snd <$> find (fun p : bytes * Z => streq p.1 w) word_flags.

(** What a word does to [ups->status]. *)
Definition word_status (w : bytes) (v : Z) : Z :=
  if streq w ($"OL") then if flag_isset v ST_ONLINE then v else clearflag (setflag v ST_ONLINE) ST_ONBATT
  else if streq w ($"OB") then if flag_isset v ST_ONBATT then v else clearflag (setflag v ST_ONBATT) ST_ONLINE
  else match flag_of_word w with
       | Some f => if flag_isset v f then v else setflag v f
       | None => v
       end.

Lemma get_var_conn u var n r buf u' : get_var u var n = Some (r, buf, u') -> exists c, u' = set_m_conn u c.
Proof.
  intros H. assert (u = set_m_conn u (m_conn u)) as Hu by (by destruct u).
  unfold get_var in H. destruct (m_upsname u) as [name|]; [|injection H as _ _ <-; by eexists].
  destruct (get_var_query name var) as [|q0 q]; [injection H as _ _ <-; by eexists|].
  apply bind_Some in H as ([ret c] & _ & H). repeat case_match; simplify_eq; try by eexists.
  apply bind_Some in H as (a & _ & H). simplify_eq. by eexists.
Qed.

Definition alarm_safe (u : utype) : Prop := is_Some (get_var u ($"alarm") SMALLBUF).

(** Frames of composed handlers, from the outermost step inwards *)
Lemma env_tell a t x s : same_env a s -> same_env a (tell t x s).
Proof. intros H. etrans; [exact H|apply tell_env]. Qed.
Lemma env_upd a f s : same_env a s ->
  (forall u, m_sys (f u) = m_sys u /\ m_upsname (f u) = m_upsname u /\ m_pv (f u) = m_pv u
             /\ m_lastpoll (f u) = m_lastpoll u /\ m_commstate (f u) = m_commstate u) ->
  same_env a (upd f s).
Proof. intros (?&?&?&?&?&?&?&?) Hf. destruct (Hf (s_ups s)) as (?&?&?&?&?). split_and!; simpl; congruence || done. Qed.
Lemma env_updg a f s : same_env a s ->
  (forall g, g_conf (f g) = g_conf g /\ g_clock (f g) = g_clock g /\ g_out (f g) = g_out g
             /\ g_pdfile (f g) = g_pdfile g /\ g_sigterm (f g) = g_sigterm g) -> same_env a (updg f s).
Proof.
  intros (?&?&?&?&?&?&?&?) Hf. destruct (Hf (s_g s)) as (?&?&?&?&?). split_and!; simpl; try congruence.
  etrans; [eassumption|]. by apply said_quiet.
Qed.

Ltac solve_env :=
  repeat first
    [ reflexivity | assumption
    | apply env_tell
    | apply env_upd; [|by intros; split_and!]
    | apply env_updg; [|by intros; split_and!]
    | progress unfold set_flag, clear_flag, poll_alert, set_alarms_prev ].

(** A change that says nothing *)
Ltac env_now := split_and!; try done; by apply said_quiet.

Lemma alarm_effect s s' :
  ups_is_alarm s = Some s' ->
  status_of s' = word_status ($"ALARM") (status_of s) /\ same_env s s' /\ m_tokens (s_ups s') = m_tokens (s_ups s).
Proof.
  unfold ups_is_alarm, has. fold (status_of s).
  change (word_status ($"ALARM") (status_of s))
    with (if flag_isset (status_of s) ST_ALARM then status_of s else setflag (status_of s) ST_ALARM).
  assert (forall r c, same_env r s -> same_env r (upd (fun _ => set_m_conn (s_ups s) c) s)) as Hc by (by intros).
  destruct (flag_isset (status_of s) ST_ALARM) eqn:Hs.
  - destruct (get_var (s_ups s) ($"alarm") SMALLBUF) as [[[ret al] u]|] eqn:Hg; [|done].
    apply get_var_conn in Hg as [c ->]. cbn [mbind option_bind]. intros [= <-].
    split_and!; repeat case_match; try done; solve_env; by apply Hc.
  - destruct (get_var (s_ups (upd _ _)) _ _) as [[[ret al] u]|] eqn:Hg; [|done].
    apply get_var_conn in Hg as [c ->]. cbn [mbind option_bind].
    assert (same_env s (upd (fun _ => set_m_conn (set_m_alarmstate (s_ups s) 1) c)
              (upd (fun u => set_m_alarmstate u 1) (poll_alert s)))) as He by env_now.
    destruct (ret =? 0); intros [= <-]; (split_and!; [done| |done]); solve_env; exact He.
Qed.

(** A handler that says once that a state began. *)
Lemma begin_effect (f t : Z) (g : mst -> mst) s :
  status_of (g s) = status_of s -> same_env s (g s) -> same_link s (g s) ->
  let s' := if has s f then s else set_flag f (tell t None (g s)) in
  status_of s' = (if flag_isset (status_of s) f then status_of s else setflag (status_of s) f)
  /\ same_env s s' /\ same_link s s'.
Proof.
  intros Hs He Hl. cbv zeta. unfold has. fold (status_of s). case_match; [done|]. split_and!.
  - unfold status_of in *. simpl. by rewrite Hs.
  - etrans; [exact He|]. apply (tell_env t None).
  - etrans; [exact Hl|]. done.
Qed.

Lemma handle_OL : handle_word ($"OL") = Some (fun s => Some (ups_on_line s)).
Proof. reflexivity. Qed.
Lemma handle_OB : handle_word ($"OB") = Some (fun s => Some (ups_on_batt s)).
Proof. reflexivity. Qed.
Lemma handle_LB : handle_word ($"LB") = Some (fun s => Some (ups_low_batt s)).
Proof. reflexivity. Qed.
Lemma handle_RB : handle_word ($"RB") = Some (fun s => Some (upsreplbatt s)).
Proof. reflexivity. Qed.
Lemma handle_CAL : handle_word ($"CAL") = Some (fun s => Some (ups_is_cal s)).
Proof. reflexivity. Qed.
Lemma handle_OFF : handle_word ($"OFF") = Some (fun s => Some (ups_is_off s)).
Proof. reflexivity. Qed.
Lemma handle_BYPASS : handle_word ($"BYPASS") = Some (fun s => Some (ups_is_bypass s)).
Proof. reflexivity. Qed.
Lemma handle_OVER : handle_word ($"OVER") = Some (fun s => Some (ups_is_over s)).
Proof. reflexivity. Qed.
Lemma handle_TRIM : handle_word ($"TRIM") = Some (fun s => Some (ups_is_trim s)).
Proof. reflexivity. Qed.
Lemma handle_BOOST : handle_word ($"BOOST") = Some (fun s => Some (ups_is_boost s)).
Proof. reflexivity. Qed.
Lemma handle_FSD : handle_word ($"FSD") = Some (fun s => Some (ups_fsd s)).
Proof. reflexivity. Qed.
Lemma handle_HB : handle_word ($"HB") = Some (fun s => Some (s)).
Proof. reflexivity. Qed.
Lemma handle_CHRG : handle_word ($"CHRG") = Some (fun s => Some (s)).
Proof. reflexivity. Qed.
Lemma handle_DISCHRG : handle_word ($"DISCHRG") = Some (fun s => Some (s)).
Proof. reflexivity. Qed.
Lemma handle_ALARM : handle_word ($"ALARM") = Some ups_is_alarm.
Proof. reflexivity. Qed.

(** A handler that is a function has its effect. *)
Lemma fun_effect w (h : mst -> mst) s s' f :
  handle_word w = Some (fun s => Some (h s)) -> handle_word w = Some f -> f s = Some s' ->
  status_of (h s) = word_status w (status_of s) /\ same_env s (h s) /\ same_link s (h s) ->
  status_of s' = word_status w (status_of s) /\ same_env s s' /\ m_tokens (s_ups s') = m_tokens (s_ups s)
  /\ (w <> $"ALARM" -> same_link s s').
Proof. intros H1 H2. rewrite H1 in H2. injection H2 as <-. intros [= <-] (? & ? & Hl). split_and!; [done..|apply Hl|done]. Qed.

Lemma on_line_effect s :
  status_of (ups_on_line s) = word_status ($"OL") (status_of s) /\ same_env s (ups_on_line s) /\ same_link s (ups_on_line s).
Proof.
  unfold ups_on_line, has. rewrite restore_ups. fold (status_of s).
  change (word_status ($"OL") (status_of s))
    with (if flag_isset (status_of s) ST_ONLINE then status_of s
          else clearflag (setflag (status_of s) ST_ONLINE) ST_ONBATT).
  assert (same_env s (try_restore_pollfreq s)) as He by apply restore_env.
  assert (same_link s (try_restore_pollfreq s)) as Hl by (unfold same_link; by rewrite restore_ups).
  assert (status_of (try_restore_pollfreq s) = status_of s) as Hs by (unfold status_of; by rewrite restore_ups).
  revert He Hl Hs. generalize (try_restore_pollfreq s). intros r He Hl Hs.
  case_match; [done|]. unfold status_of in *. split_and!.
  - repeat case_match; simpl; by rewrite Hs.
  - case_match; solve_env; exact He.
  - destruct Hl. case_match; done.
Qed.

Lemma on_batt_effect s :
  status_of (ups_on_batt s) = word_status ($"OB") (status_of s) /\ same_env s (ups_on_batt s) /\ same_link s (ups_on_batt s).
Proof.
  unfold ups_on_batt, has. fold (status_of s).
  change (word_status ($"OB") (status_of s))
    with (if flag_isset (status_of s) ST_ONBATT then status_of s
          else clearflag (setflag (status_of s) ST_ONBATT) ST_ONLINE).
  case_match; [done|]. split_and!; [done| |done]. solve_env.
Qed.

Lemma off_effect s :
  status_of (ups_is_off s) = word_status ($"OFF") (status_of s) /\ same_env s (ups_is_off s) /\ same_link s (ups_is_off s).
Proof.
  unfold ups_is_off, has. fold (status_of s).
  change (word_status ($"OFF") (status_of s))
    with (if flag_isset (status_of s) ST_OFF then status_of s else setflag (status_of s) ST_OFF).
  destruct (flag_isset (status_of s) ST_OFF).
  - repeat case_match; split_and!; try done; solve_env.
  - case_match; split_and!; try done; solve_env.
Qed.

Lemma over_effect s :
  status_of (ups_is_over s) = word_status ($"OVER") (status_of s) /\ same_env s (ups_is_over s) /\ same_link s (ups_is_over s).
Proof.
  unfold ups_is_over, has. fold (status_of s).
  change (word_status ($"OVER") (status_of s))
    with (if flag_isset (status_of s) ST_OVER then status_of s else setflag (status_of s) ST_OVER).
  destruct (flag_isset (status_of s) ST_OVER).
  - repeat case_match; split_and!; try done; solve_env.
  - case_match; split_and!; try done; solve_env.
Qed.

Lemma fsd_effect s :
  status_of (ups_fsd s) = word_status ($"FSD") (status_of s) /\ same_env s (ups_fsd s) /\ same_link s (ups_fsd s).
Proof.
  unfold ups_fsd, has. fold (status_of s).
  change (word_status ($"FSD") (status_of s))
    with (if flag_isset (status_of s) ST_FSD then status_of s else setflag (status_of s) ST_FSD).
  destruct (flag_isset (status_of s) ST_FSD); [done|]. case_match; split_and!; try done; solve_env.
Qed.

Lemma replbatt_effect s :
  status_of (upsreplbatt s) = word_status ($"RB") (status_of s) /\ same_env s (upsreplbatt s) /\ same_link s (upsreplbatt s).
Proof. unfold upsreplbatt. case_match; split_and!; try done; solve_env. Qed.

(** The handlers of the standard words *)
Lemma word_effect w s s' f :
  w ∈ std_words -> handle_word w = Some f -> f s = Some s' ->
  status_of s' = word_status w (status_of s) /\ same_env s s' /\ m_tokens (s_ups s') = m_tokens (s_ups s)
  /\ (w <> $"ALARM" -> same_link s s').
Proof.
  intros Hw Hf Hs. unfold std_words in Hw. rewrite !elem_of_cons in Hw.
  destruct Hw as [->|[->|[->|[->|[->|[->|[->|[->|[->|[->|[->|[->|[->|[->|[->|Hw]]]]]]]]]]]]]]]; [..|by apply elem_of_nil in Hw].
  - exact (fun_effect _ _ _ _ _ handle_OL Hf Hs (on_line_effect s)).
  - exact (fun_effect _ _ _ _ _ handle_OB Hf Hs (on_batt_effect s)).
  - exact (fun_effect _ _ _ _ _ handle_LB Hf Hs (begin_effect ST_LOWBATT NOTIFY_LOWBATT id s eq_refl (reflexivity s) (reflexivity s))).
  - exact (fun_effect _ _ _ _ _ handle_RB Hf Hs (replbatt_effect s)).
  - exact (fun_effect _ _ _ _ _ handle_CAL Hf Hs (begin_effect ST_CAL NOTIFY_CAL id s eq_refl (reflexivity s) (reflexivity s))).
  - exact (fun_effect _ _ _ _ _ handle_OFF Hf Hs (off_effect s)).
  - refine (fun_effect _ _ _ _ _ handle_BYPASS Hf Hs (begin_effect ST_BYPASS NOTIFY_BYPASS
      (fun s => upd (fun u => set_m_bypassstate u 1) (poll_alert s)) s eq_refl _ (conj eq_refl eq_refl))). solve_env.
  - rewrite handle_ALARM in Hf. injection Hf as <-. by destruct (alarm_effect _ _ Hs) as (? & ? & ?).
  - exact (fun_effect _ _ _ _ _ handle_OVER Hf Hs (over_effect s)).
  - exact (fun_effect _ _ _ _ _ handle_TRIM Hf Hs (begin_effect ST_TRIM NOTIFY_TRIM id s eq_refl (reflexivity s) (reflexivity s))).
  - exact (fun_effect _ _ _ _ _ handle_BOOST Hf Hs (begin_effect ST_BOOST NOTIFY_BOOST id s eq_refl (reflexivity s) (reflexivity s))).
  - exact (fun_effect _ _ _ _ _ handle_FSD Hf Hs (fsd_effect s)).
  - exact (fun_effect _ (fun s => s) _ _ _ handle_HB Hf Hs (conj eq_refl (conj (reflexivity s) (reflexivity s)))).
  - exact (fun_effect _ (fun s => s) _ _ _ handle_CHRG Hf Hs (conj eq_refl (conj (reflexivity s) (reflexivity s)))).
  - exact (fun_effect _ (fun s => s) _ _ _ handle_DISCHRG Hf Hs (conj eq_refl (conj (reflexivity s) (reflexivity s)))).
Qed.

Lemma alarm_total s : alarm_safe (s_ups s) -> is_Some (ups_is_alarm s).
Proof.
  intros [[[r b] u'] Hs]. unfold ups_is_alarm. destruct (has s ST_ALARM).
  - rewrite Hs. cbn [mbind option_bind]. by eexists.
  - assert (exists x, get_var (s_ups (upd (fun u => set_m_alarmstate u 1) (poll_alert s))) ($"alarm") SMALLBUF = Some x) as [[[r2 b2] u2] ->].
    { unfold get_var in *. cbn [s_ups upd poll_alert updg m_upsname m_conn set_m_alarmstate].
      destruct (m_upsname (s_ups s)) as [name|]; [|by eexists].
      destruct (get_var_query name ($"alarm")) as [|q0 q]; [by eexists|].
      apply bind_Some in Hs as ([ret c] & -> & Hs). cbn [mbind option_bind].
      repeat case_match; simplify_eq; try by eexists.
      apply bind_Some in Hs as (a & -> & Hs). by eexists. }
    cbn [mbind option_bind]. destruct (r2 =? 0); by eexists.
Qed.

Lemma alarm_safe_link s s' : same_env s s' -> same_link s s' -> alarm_safe (s_ups s) -> alarm_safe (s_ups s').
Proof.
  intros (_ & _ & _ & Hn & _) [Hc _] [[[r b] u'] Hs]. unfold alarm_safe, get_var in *. rewrite Hn, Hc.
  destruct (m_upsname (s_ups s)) as [name|]; [|by eexists].
  destruct (get_var_query name ($"alarm")) as [|q0 q]; [by eexists|].
  apply bind_Some in Hs as ([ret c] & -> & Hs). cbn [mbind option_bind].
  repeat case_match; simplify_eq; try by eexists.
  apply bind_Some in Hs as (a & -> & Hs). by eexists.
Qed.

Lemma word_total w s : w ∈ std_words -> (w = $"ALARM" -> alarm_safe (s_ups s)) ->
  exists f s', handle_word w = Some f /\ f s = Some s'.
Proof.
  intros Hw Ha. unfold std_words in Hw. rewrite !elem_of_cons in Hw.
  destruct Hw as [->|[->|[->|[->|[->|[->|[->|[->|[->|[->|[->|[->|[->|[->|[->|Hw]]]]]]]]]]]]]]]; [..|by apply elem_of_nil in Hw].
  8: { destruct (alarm_total s (Ha eq_refl)) as [s' Hs]. exists ups_is_alarm, s'. split; [apply handle_ALARM|done]. }
  all: eexists _, _; split; [first [apply handle_OL|apply handle_OB|apply handle_LB|apply handle_RB|apply handle_CAL
    |apply handle_OFF|apply handle_BYPASS|apply handle_OVER|apply handle_TRIM|apply handle_BOOST|apply handle_FSD
    |apply handle_HB|apply handle_CHRG|apply handle_DISCHRG]|reflexivity].
Qed.

Lemma crittimer_frame s :
  status_of (update_crittimer s) = status_of s /\ same_env s (update_crittimer s) /\ same_link s (update_crittimer s).
Proof. unfold update_crittimer. case_match; split_and!; try done; solve_env. Qed.

(** Does the UPS count as not critical for the secondaries' timer? *)
Definition noncrit (v : Z) : bool :=
  negb (flag_isset v ST_ONBATT) || negb (flag_isset v ST_LOWBATT) || flag_isset v ST_CAL.

Lemma crittimer_time s :
  noncrit (status_of s) = true -> m_lastnoncrit (s_ups (update_crittimer s)) = now_of s.
Proof. unfold update_crittimer, has, noncrit. fold (status_of s). by intros ->. Qed.

(** The loop over standard words: nothing is left over, and the flags are those of the words. *)
Lemma words_loop_std ws : forall other ch s,
  Forall (fun w => w ∈ std_words) ws -> NoDup ws -> ($"ALARM" ∈ ws -> alarm_safe (s_ups s)) ->
  exists s', words_loop ws other ch s = Some (other, ch, s')
    /\ status_of s' = fold_left (fun v w => word_status w v) ws (status_of s)
    /\ same_env s s' /\ m_tokens (s_ups s') = m_tokens (s_ups s)
    /\ (ws <> [] -> noncrit (status_of s') = true -> m_lastnoncrit (s_ups s') = now_of s)
    /\ ($"ALARM" ∉ ws -> same_link s s').
Proof.
  induction ws as [|w ws IH]; intros other ch s Hstd Hnd Ha; [by exists s|].
  apply Forall_cons in Hstd as [Hw Hstd]. apply NoDup_cons in Hnd as [Hnin Hnd].
  destruct (word_total w s Hw) as (f & s1 & Hf & Hs1); [intros ->; apply Ha; by left|].
  destruct (word_effect w s s1 f Hw Hf Hs1) as (Hv & He & Ht & Hl).
  destruct (crittimer_frame s1) as (Hv1 & He1 & Hl1).
  destruct (IH other ch (update_crittimer s1) Hstd Hnd) as (s2 & Hr & Hv2 & He2 & Ht2 & Htime & Hlink).
  { intros Hin. apply (alarm_safe_link s1); [done..|].
    assert (w <> $"ALARM") as Hne by (by intros ->). apply (alarm_safe_link s); [done|by apply Hl|].
    apply Ha. by right. }
  exists s2. cbn [words_loop fold_left]. rewrite Hf, Hs1. cbn [mbind option_bind]. split_and!; try done.
  - rewrite Hv2, Hv1, Hv. done.
  - etrans; [exact He|]. etrans; [exact He1|]. done.
  - destruct Hl1 as [_ Hl1]. congruence.
  - intros _ Hn. destruct ws as [|w' ws].
    + cbn [fold_left words_loop] in *. injection Hr as <-. rewrite crittimer_time by (by rewrite <- Hv1).
      unfold now_of, time_of. destruct He as (_ & -> & _). done.
    + rewrite Htime by done. unfold now_of, time_of. destruct He1 as (_ & -> & _), He as (_ & -> & _). done.
  - rewrite not_elem_of_cons. intros [Hwa Hin]. etrans; [by apply Hl, not_eq_sym|]. etrans; [exact Hl1|by apply Hlink].
Qed.

(** ** Bits of the result *)

Lemma word_status_bits w v g : is_flag g ->
  g <> ST_ONLINE -> g <> ST_ONBATT ->
  flag_isset (word_status w v) g = bool_decide (flag_of_word w = Some g) || flag_isset v g.
Proof.
  intros Hg H1 H2. unfold word_status.
  assert (forall a b, is_flag a -> is_flag b -> a <> g -> b <> g ->
    flag_isset (if flag_isset v a then v else clearflag (setflag v a) b) g = flag_isset v g) as Hline.
  { intros a b Ha Hb Hag Hbg. case_match; [done|]. rewrite isset_clear, isset_set by done.
    by rewrite (proj2 (Z.eqb_neq _ _) Hag), (proj2 (Z.eqb_neq _ _) Hbg). }
  destruct (streq w ($"OL")) eqn:E1.
  { apply streq_true in E1 as ->. rewrite Hline; [done|is_flag..|by apply not_eq_sym|by apply not_eq_sym]. }
  destruct (streq w ($"OB")) eqn:E2.
  { apply streq_true in E2 as ->. rewrite Hline; [done|is_flag..|by apply not_eq_sym|by apply not_eq_sym]. }
  destruct (flag_of_word w) as [f|] eqn:Ef; [|done].
  assert (is_flag f) as Hf.
  { unfold flag_of_word in Ef. destruct (find _ word_flags) as [[k f']|] eqn:E; [|done].
    apply find_some in E as [Hin _]. injection Ef as ->. apply flags_all_flag.
    assert (Forall (fun p : bytes * Z => p.2 ∈ flags_all) word_flags) as Hall
      by (apply (bool_decide_unpack _); vm_compute; exact I).
    rewrite Forall_forall in Hall. apply (Hall (k, f)). by apply list_elem_of_In. }
  destruct (flag_isset v f) eqn:Hv.
  - destruct (bool_decide_reflect (Some f = Some g)) as [[= ->]|]; [by rewrite Hv|done].
  - rewrite isset_set by done. f_equal. destruct (Z.eqb_spec f g) as [->|]; [by rewrite bool_decide_eq_true_2|].
    rewrite bool_decide_eq_false_2; congruence.
Qed.

Lemma words_status_bits ws : forall v g, is_flag g -> g <> ST_ONLINE -> g <> ST_ONBATT ->
  flag_isset (fold_left (fun v w => word_status w v) ws v) g
  = existsb (fun w => bool_decide (flag_of_word w = Some g)) ws || flag_isset v g.
Proof.
  induction ws as [|w ws IH]; intros v g Hg H1 H2; [done|]. cbn [fold_left existsb].
  rewrite IH, word_status_bits by done. rewrite orb_assoc. f_equal. apply orb_comm.
Qed.

(** ** The text of a status *)

Fixpoint join_words (ws : list bytes) : bytes :=
  match ws with
  | [] => []
  | [w] => w
  | w :: ws => w ++ chr 32 :: join_words ws
  end.

Lemma contains_spec s p : contains s p = true <-> exists l r, s = l ++ p ++ r.
Proof.
  unfold contains. destruct (strstr_pos s p) as [i|] eqn:E.
  - split; [|done]. intros _. apply strstr_some in E as (l & [r Hr] & _). by exists l, r.
  - split; [done|]. intros (l & r & ->). exfalso. rewrite strstr_none in E. apply (E l). by exists r.
Qed.

Lemma contains_app w rest k : k <> [] -> chr 32 ∉ k ->
  contains (w ++ chr 32 :: rest) k = contains w k || contains rest k.
Proof.
  intros Hk Hsp. apply eq_true_iff_eq. rewrite orb_true_iff, !contains_spec. split.
  - intros (l & r & Heq). apply app_eq_app in Heq as [l' [[-> Heq]|[-> Heq]]].
    + destruct (app_eq_app _ _ _ _ Heq) as [m [[Hm Hr]|[Hm Hr]]].
      * (* the occurrence reaches into the rest *)
        destruct m as [|x m]; [left; exists l, []; by rewrite app_nil_r in *; subst|].
        injection Hr as <- Hr. exfalso. apply Hsp. rewrite Hm. apply elem_of_app. right. by left.
      * left. exists l, m. by rewrite Hm.
    + destruct l' as [|x l']; [|injection Heq as <- ->; right; by exists l', r].
      exfalso. destruct k as [|y k]; [done|]. injection Heq as <- _. apply Hsp. by left.
  - intros [(l & r & ->)|(l & r & ->)].
    + exists l, (r ++ chr 32 :: rest). by rewrite <- !app_assoc.
    + exists (w ++ chr 32 :: l), r. by rewrite <- !app_assoc.
Qed.

Lemma contains_join ws k : k <> [] -> chr 32 ∉ k -> ws <> [] ->
  contains (join_words ws) k = existsb (fun w => contains w k) ws.
Proof.
  intros Hk Hsp. induction ws as [|w ws IH]; [done|]. intros _. destruct ws as [|w' ws].
  - simpl. by rewrite orb_false_r.
  - change (join_words (w :: w' :: ws)) with (w ++ chr 32 :: join_words (w' :: ws)).
    rewrite contains_app by done. rewrite IH by done. done.
Qed.

Lemma split_join ws : ws <> [] -> Forall (fun w => chr 32 ∉ w) ws -> split_words (join_words ws) = ws.
Proof.
  intros Hne Hall. assert (forall w, chr 32 ∉ w -> split_words w = [w]) as H1.
  { clear. induction w as [|c w IH]; [done|]. rewrite not_elem_of_cons. intros [Hc Hw]. cbn [split_words].
    destruct (Ascii.eqb_spec c (chr 32)) as [->|_]; [done|]. by rewrite IH. }
  assert (forall w s, chr 32 ∉ w -> split_words (w ++ chr 32 :: s) = w :: split_words s) as H2.
  { clear. induction w as [|c w IH]; intros s; [done|]. rewrite not_elem_of_cons. intros [Hc Hw]. cbn [split_words app].
    destruct (Ascii.eqb_spec c (chr 32)) as [->|_]; [done|]. by rewrite IH. }
  induction Hall as [|w ws Hw Hall IH]; [done|]. destruct ws as [|w' ws]; [by apply H1|].
  change (join_words (w :: w' :: ws)) with (w ++ chr 32 :: join_words (w' :: ws)). by rewrite H2, IH.
Qed.

(** Among the standard words only the word itself contains a word that has a flag. *)
Lemma std_contains w k f : w ∈ std_words -> (k, f) ∈ word_flags -> contains w k = bool_decide (flag_of_word w = Some f).
Proof.
  intros Hw Hk.
  assert (Forall (fun w => Forall (fun p : bytes * Z =>
    contains w p.1 = bool_decide (flag_of_word w = Some p.2)) word_flags) std_words) as H
    by (apply (bool_decide_unpack _); vm_compute; exact I).
  rewrite Forall_forall in H. specialize (H _ Hw). rewrite Forall_forall in H. by apply (H (k, f)).
Qed.

Lemma std_no_space w : w ∈ std_words -> chr 32 ∉ w.
Proof.
  intros Hw. assert (Forall (fun w => chr 32 ∉ w) std_words) as H by (apply (bool_decide_unpack _); vm_compute; exact I).
  rewrite Forall_forall in H. by apply H.
Qed.

Lemma flag_word_facts k f : (k, f) ∈ word_flags -> k <> [] /\ chr 32 ∉ k /\ is_flag f /\ f <> ST_ONLINE /\ f <> ST_ONBATT
  /\ k ∈ std_words /\ flag_of_word k = Some f.
Proof.
  intros Hk. assert (Forall (fun p : bytes * Z => p.1 <> [] /\ chr 32 ∉ p.1 /\ p.2 ∈ flags_all /\ p.2 <> ST_ONLINE
    /\ p.2 <> ST_ONBATT /\ p.1 ∈ std_words /\ flag_of_word p.1 = Some p.2) word_flags) as H
    by (apply (bool_decide_unpack _); vm_compute; exact I).
  rewrite Forall_forall in H. destruct (H _ Hk) as (?&?&?&?&?&?&?). split_and!; try done. by apply flags_all_flag.
Qed.

Lemma flag_of_word_inv w k f : (k, f) ∈ word_flags -> w ∈ std_words -> flag_of_word w = Some f -> w = k.
Proof.
  intros Hk Hw Hf.
  assert (Forall (fun w => Forall (fun p : bytes * Z => bool_decide (flag_of_word w = Some p.2) = bool_decide (w = p.1))
    word_flags) std_words) as H by (apply (bool_decide_unpack _); vm_compute; exact I).
  rewrite Forall_forall in H. specialize (H _ Hw). rewrite Forall_forall in H. specialize (H _ Hk). simpl in H.
  rewrite bool_decide_eq_true_2 in H by done. symmetry in H. by apply bool_decide_eq_true in H.
Qed.

(** ** The flags that a status leaves *)

(** clearing what is no longer mentioned *)
Lemma clear_missing_bits st s g : is_flag g ->
  flag_isset (status_of (clear_missing st s)) g
  = flag_isset (status_of s) g
    && forallb (fun p : bytes * Z => contains st p.1 || negb (p.2 =? g)) word_flags.
Proof.
  intros Hg.
  assert (forall (b : bool) f t s, is_flag f ->
    flag_isset (status_of (if negb b then state_over f t s else s)) g
    = flag_isset (status_of s) g && (b || negb (f =? g))) as Hover.
  { intros [] f t s' Hf; cbn [negb orb]; [by rewrite andb_true_r|]. rewrite over_bits by done. apply andb_comm. }
  unfold clear_missing. cbv zeta.
  change ups_is_notboost with (state_over ST_BOOST NOTIFY_NOTBOOST). rewrite Hover by is_flag.
  change ups_is_nottrim with (state_over ST_TRIM NOTIFY_NOTTRIM). rewrite Hover by is_flag.
  assert (forall (b : bool) f t h s, is_flag f -> (forall s, status_of (h s) = status_of s) ->
    flag_isset (status_of (if negb b then state_over f t (h s) else s)) g
    = flag_isset (status_of s) g && (b || negb (f =? g))) as Hover2.
  { intros [] f t h s' Hf Hh; cbn [negb orb]; [by rewrite andb_true_r|]. rewrite over_bits, Hh by done. apply andb_comm. }
  unfold ups_is_notover, ups_is_notalarm, ups_is_notbypass, ups_is_notoff.
  rewrite (Hover2 _ ST_OVER _ (upd (fun u => set_m_overstate (set_m_oversince u 0) 0))) by (done || is_flag).
  rewrite (Hover2 _ ST_ALARM _ (upd (fun u => set_m_alarmstate u 0))) by (done || is_flag).
  rewrite (Hover2 _ ST_BYPASS _ (upd (fun u => set_m_bypassstate u 0))) by (done || is_flag).
  rewrite (Hover2 _ ST_OFF _ (upd (fun u => set_m_offstate (set_m_offsince u 0) 0))) by (done || is_flag).
  change ups_is_notcal with (state_over ST_CAL NOTIFY_NOTCAL). rewrite Hover by is_flag.
  assert (forall (b : bool) f s, is_flag f -> forall h, (forall s, status_of (h s) = status_of s) ->
    flag_isset (status_of (if negb b then h (clear_flag f s) else s)) g
    = flag_isset (status_of s) g && (b || negb (f =? g))) as Hclear.
  { intros [] f s' Hf h Hh; cbn [negb orb]; [by rewrite andb_true_r|]. rewrite Hh.
    unfold status_of at 1. simpl. rewrite isset_clear by done. apply andb_comm. }
  rewrite (Hclear _ ST_FSD _ ltac:(is_flag) (upd (fun u => set_m_lastfsdnotify u 0))) by done.
  pose proof (fun b s => Hclear b ST_LOWBATT s ltac:(is_flag) (fun s => s) (fun _ => eq_refl)) as Hlow. cbn beta in Hlow.
  rewrite Hlow.
  cbn [word_flags forallb fst snd]. rewrite andb_true_r, !andb_assoc. reflexivity.
Qed.

Lemma clear_missing_frame st s : same_env s (clear_missing st s) /\ same_link s (clear_missing st s).
Proof.
  assert (forall (b : bool) (h : mst -> mst) a s, (forall s, same_env s (h s) /\ same_link s (h s)) ->
    same_env a s /\ same_link a s -> same_env a (if b then h s else s) /\ same_link a (if b then h s else s)) as Hif.
  { intros [] h a s' Hh [He Hl]; [|done]. destruct (Hh s'). split; etrans; eassumption. }
  assert (forall f t (h : utype -> utype) s, same_env s (upd h s) /\ same_link s (upd h s) ->
    same_env s (state_over f t (upd h s)) /\ same_link s (state_over f t (upd h s))) as Hupd.
  { intros f t h s' [He Hl]. split; [etrans; [exact He|apply over_env]|etrans; [exact Hl|apply over_link]]. }
  assert (forall f t s, same_env s (state_over f t s) /\ same_link s (state_over f t s)) as Hover
    by (intros; split; [apply over_env|apply over_link]).
  unfold clear_missing. cbv zeta.
  repeat (apply Hif; [intros s'; first [apply Hover | apply Hupd; by split_and! | by split_and!]|]).
  apply (Hif _ (fun s => upd (fun u => set_m_lastfsdnotify u 0) (clear_flag ST_FSD s))); [intros; by split_and!|].
  apply Hif; [intros; by split_and!|]. split; reflexivity.
Qed.

Lemma alive_frame s :
  m_commstate (s_ups (ups_is_alive s)) = 1 /\ m_lastpoll (s_ups (ups_is_alive s)) = now_of s
  /\ status_of (ups_is_alive s) = status_of s /\ same_link s (ups_is_alive s)
  /\ m_upsname (s_ups (ups_is_alive s)) = m_upsname (s_ups s) /\ m_pv (s_ups (ups_is_alive s)) = m_pv (s_ups s)
  /\ said (s_g s) (s_g (ups_is_alive s)) /\ g_clock (s_g (ups_is_alive s)) = g_clock (s_g s).
Proof.
  unfold ups_is_alive. destruct (Z.eqb_spec (m_commstate (s_ups (upd (fun u => set_m_lastpoll u (now_of s)) s))) 1);
    [by split_and!|].
  pose proof (do_notify_frame (Some (m_sys (s_ups s))) NOTIFY_COMMOK None (s_g s)) as (?&?&?).
  case_match; split_and!; done || apply do_notify_said.
Qed.

Lemma eco_frame status bz bzX s :
  same_env s (eco_from_buzzwords status bz bzX s) /\ same_link s (eco_from_buzzwords status bz bzX s)
  /\ (forall g, is_flag g -> g <> ST_ECO ->
      flag_isset (status_of (eco_from_buzzwords status bz bzX s)) g = flag_isset (status_of s) g).
Proof.
  unfold eco_from_buzzwords. cbv zeta. destruct (negb (contains status ($"ECO")) && _).
  - unfold ups_is_noteco. split_and!.
    + etrans; [|apply over_env]. done.
    + etrans; [|apply over_link]. done.
    + intros g Hg Hne. rewrite over_bits by (done || is_flag).
      by rewrite (proj2 (Z.eqb_neq _ _) (not_eq_sym Hne)).
  - case_match; [|by split_and!]. unfold ups_is_eco, has. fold (status_of s). case_match; [by split_and!|]. split_and!.
    + solve_env.
    + done.
    + intros g Hg Hne. unfold status_of at 1. simpl. rewrite isset_set by (done || is_flag).
      by rewrite (proj2 (Z.eqb_neq _ _) (not_eq_sym Hne)).
Qed.

(** Is the UPS on line, is it on battery: the last of OL and OB says. *)
Definition line_bits (v : Z) : bool * bool := (flag_isset v ST_ONLINE, flag_isset v ST_ONBATT).

Definition line_word (l : bool * bool) (w : bytes) : bool * bool :=
  if streq w ($"OL") then (true, false) else if streq w ($"OB") then (false, true) else l.

Lemma word_status_line w v :
  line_bits v <> (true, true) -> line_bits (word_status w v) = line_word (line_bits v) w.
Proof.
  intros Hex. unfold line_word, word_status, line_bits in *.
  destruct (streq w ($"OL")) eqn:E1.
  - destruct (flag_isset v ST_ONLINE) eqn:Hon; [rewrite Hon; by destruct (flag_isset v ST_ONBATT)|].
    rewrite !isset_clear, !isset_set by is_flag. done.
  - destruct (streq w ($"OB")) eqn:E2.
    + destruct (flag_isset v ST_ONBATT) eqn:Hob; [rewrite Hob; by destruct (flag_isset v ST_ONLINE)|].
      rewrite !isset_clear, !isset_set by is_flag. done.
    + destruct (flag_of_word w) as [f|] eqn:Ef; [|done]. case_match; [done|].
      assert (is_flag f /\ f <> ST_ONLINE /\ f <> ST_ONBATT) as (Hf & H1 & H2).
      { unfold flag_of_word in Ef. destruct (find _ word_flags) as [[k f']|] eqn:E; [|done].
        apply find_some in E as [Hin _]. injection Ef as ->. apply list_elem_of_In, flag_word_facts in Hin. naive_solver. }
      rewrite !isset_set by (done || is_flag).
      by rewrite (proj2 (Z.eqb_neq _ _) H1), (proj2 (Z.eqb_neq _ _) H2).
Qed.

Lemma words_status_line ws : forall v, line_bits v <> (true, true) ->
  line_bits (fold_left (fun v w => word_status w v) ws v) = fold_left line_word ws (line_bits v).
Proof.
  induction ws as [|w ws IH]; intros v Hv; [done|]. cbn [fold_left].
  rewrite <- word_status_line by done. apply IH. rewrite word_status_line by done. unfold line_word. by repeat case_match.
Qed.

Lemma parse_status_words st bz bzX s : st <> [] ->
  parse_status st bz bzX s =
  ('(other, changed, s3) ← words_loop (split_words st) [] 0 (eco_from_buzzwords st bz bzX (clear_missing st (ups_is_alive s)));
   '(gone, t) ← evict_tokens
     (g_clock (s_g (eco_from_buzzwords st bz bzX (clear_missing st (ups_is_alive s))))) (m_tokens (s_ups s3));
   if ((changed + gone) =? 0)%nat then Some (upd (fun u => set_m_tokens u t) s3)
   else tell_others other (upd (fun u => set_m_tokens u t) s3)).
Proof. by destruct st. Qed.

Lemma eco_no_word k f : (k, f) ∈ word_flags -> f <> ST_ECO.
Proof.
  intros Hk. assert (Forall (fun p : bytes * Z => p.2 <> ST_ECO) word_flags) as H by (by repeat constructor).
  rewrite Forall_forall in H. by apply (H (k, f)).
Qed.

Lemma existsb_false_iff {A} (p : A -> bool) l : existsb p l = false <-> (forall x, In x l -> p x = false).
Proof.
  rewrite <- not_true_iff_false, existsb_exists. split.
  - intros H x Hx. apply not_true_iff_false. intros Hp. apply H. by exists x.
  - intros H (x & Hx & Hp). by rewrite (H x Hx) in Hp.
Qed.

Lemma parse_status_effect ws bz bzX s :
  ws <> [] -> Forall (fun w => w ∈ std_words) ws -> NoDup ws ->
  tk_root (m_tokens (s_ups s)) = None -> ($"ALARM" ∈ ws -> alarm_safe (s_ups s)) ->
  line_bits (status_of s) <> (true, true) ->
  exists s', parse_status (join_words ws) bz bzX s = Some s'
    /\ (forall k f, (k, f) ∈ word_flags -> has s' f = bool_decide (k ∈ ws))
    /\ (forall f, f ∈ [ST_PRIMARY; ST_LOGIN; ST_CLICONNECTED] -> has s' f = has s f)
    /\ line_bits (status_of s') = fold_left line_word ws (line_bits (status_of s))
    /\ m_commstate (s_ups s') = 1 /\ m_lastpoll (s_ups s') = now_of s
    /\ (noncrit (status_of s') = true -> m_lastnoncrit (s_ups s') = now_of s)
    /\ said (s_g s) (s_g s') /\ g_clock (s_g s') = g_clock (s_g s)
    /\ m_upsname (s_ups s') = m_upsname (s_ups s)
    /\ ($"ALARM" ∉ ws -> m_conn (s_ups s') = m_conn (s_ups s)).
Proof.
  intros Hne Hstd Hnd Htok Ha Hline.
  set (st := join_words ws).
  destruct (alive_frame s) as (Hc0 & Hp0 & Hv0 & [Hl0 Ht0] & Hn0 & _ & Hs0 & Hck0).
  remember (ups_is_alive s) as s0 eqn:Eqs0.
  destruct (clear_missing_frame st s0) as (He1 & Hl1).
  pose proof (clear_missing_bits st s0) as Hb1. set (s1 := clear_missing st s0) in *.
  destruct (eco_frame st bz bzX s1) as (He2 & Hl2 & Hb2).
  assert (same_env s0 (eco_from_buzzwords st bz bzX s1)) as He02 by (by etrans).
  assert (same_link s0 (eco_from_buzzwords st bz bzX s1)) as Hl02 by (by etrans).
  destruct (words_loop_std ws [] 0 (eco_from_buzzwords st bz bzX s1) Hstd Hnd) as (s3 & Hr & Hv3 & He3 & Ht3 & Htime & Hl3).
  { intros Hin. apply (alarm_safe_link s0); [done..|].
    destruct (Ha Hin) as [[[r b] u'] Hs]. unfold alarm_safe, get_var in *. rewrite Hn0, Hl0.
    destruct (m_upsname (s_ups s)) as [name|]; [|by eexists].
    destruct (get_var_query name ($"alarm")) as [|q0 q]; [by eexists|].
    apply bind_Some in Hs as ([ret c] & -> & Hs). cbn [mbind option_bind].
    repeat case_match; simplify_eq; try by eexists. apply bind_Some in Hs as (a & -> & Hs). by eexists. }
  (* the bits of the result *)
  assert (forall g, is_flag g -> g <> ST_ONLINE -> g <> ST_ONBATT -> g <> ST_ECO ->
    has s3 g = existsb (fun w => bool_decide (flag_of_word w = Some g)) ws
      || flag_isset (status_of s) g && forallb (fun p : bytes * Z => contains st p.1 || negb (p.2 =? g)) word_flags) as Hbits.
  { intros g Hg H1 H2 H3. unfold has. fold (status_of s3). rewrite Hv3, words_status_bits by done.
    rewrite Hb2, Hb1, Hv0 by done. done. }
  exists (upd (fun u => set_m_tokens u (m_tokens (s_ups s3))) s3).
  assert (st <> []) as Hst.
  { unfold st. destruct ws as [|w ws']; [done|]. apply Forall_cons in Hstd as [Hw _].
    assert (w <> []) as Hw0 by (intros ->; revert Hw; apply (bool_decide_unpack _); vm_compute; exact I).
    destruct ws' as [|w' ws']; [done|]. cbn [join_words]. by intros [? _]%app_eq_nil. }
  assert (tk_root (m_tokens (s_ups s3)) = None) as Ht3r by (by rewrite Ht3, (proj2 Hl02), Ht0).
  assert (forall k f, (k, f) ∈ word_flags -> contains st k = bool_decide (k ∈ ws)) as Hin.
  { intros k f Hk. destruct (flag_word_facts _ _ Hk) as (Hk0 & Hksp & _ & _ & _ & Hkstd & Hkf).
    unfold st. rewrite contains_join by done. apply eq_true_iff_eq. rewrite bool_decide_eq_true, existsb_exists. split.
    - intros (w & Hw & Hc). apply list_elem_of_In in Hw. rewrite Forall_forall in Hstd. specialize (Hstd _ Hw).
      rewrite (std_contains _ _ _ Hstd Hk), bool_decide_eq_true in Hc. by rewrite <- (flag_of_word_inv _ _ _ Hk Hstd Hc).
    - intros Hw. exists k. split; [by apply list_elem_of_In|]. rewrite (std_contains _ _ _ Hkstd Hk).
      by apply bool_decide_eq_true. }
  split_and!.
  - rewrite parse_status_words by done. rewrite <- Eqs0. fold s1.
    replace (split_words st) with ws
      by (symmetry; apply split_join; [done|]; eapply Forall_impl; [exact Hstd|]; apply std_no_space).
    rewrite Hr. cbn [mbind option_bind]. unfold evict_tokens. by rewrite Ht3r.
  - intros k f Hk. change (has s3 f = bool_decide (k ∈ ws)).
    destruct (flag_word_facts _ _ Hk) as (_ & _ & Hf & H1 & H2 & Hkstd & Hkf).
    rewrite Hbits; [|done..|exact (eco_no_word k f Hk)].
    apply eq_true_iff_eq. rewrite orb_true_iff, andb_true_iff, bool_decide_eq_true, existsb_exists. split.
    + intros [(w & Hw & Hc)|[_ Hall]].
      * apply list_elem_of_In in Hw. rewrite Forall_forall in Hstd. apply bool_decide_eq_true in Hc.
        by rewrite <- (flag_of_word_inv _ _ _ Hk (Hstd _ Hw) Hc).
      * rewrite forallb_forall in Hall. specialize (Hall (k, f) (proj1 (list_elem_of_In _ _) Hk)). cbn [fst snd] in Hall.
        rewrite Z.eqb_refl, orb_false_r, (Hin k f Hk) in Hall. by apply bool_decide_eq_true in Hall.
    + intros Hw. left. exists k. split; [by apply list_elem_of_In|]. by apply bool_decide_eq_true.
  - intros f Hf. change (has s3 f = has s f).
    assert (is_flag f /\ f <> ST_ONLINE /\ f <> ST_ONBATT /\ f <> ST_ECO /\ Forall (fun p : bytes * Z => p.2 <> f) word_flags)
      as (Hff & H1 & H2 & H3 & Hno).
    { rewrite !elem_of_cons in Hf. destruct Hf as [->|[->|[->|Hf]]]; [..|by apply elem_of_nil in Hf].
      all: split_and!; [is_flag|done..|repeat constructor; done]. }
    rewrite Hbits by done. rewrite Forall_forall in Hno.
    replace (existsb _ ws) with false; cycle 1.
    { symmetry. apply existsb_false_iff. intros w Hw. apply bool_decide_eq_false. intros Hc. unfold flag_of_word in Hc.
      destruct (find _ word_flags) as [[k f']|] eqn:E; [|done]. apply find_some in E as [E _]. injection Hc as ->.
      by apply (Hno (k, f)); [apply list_elem_of_In|]. }
    replace (forallb _ word_flags) with true; [by rewrite andb_true_r|].
    symmetry. apply forallb_forall. intros [k f'] Hk. apply list_elem_of_In in Hk. apply orb_true_iff. right.
    by apply negb_true_iff, Z.eqb_neq, (Hno (k, f')).
  - change (line_bits (status_of s3) = fold_left line_word ws (line_bits (status_of s))).
    assert (line_bits (status_of (eco_from_buzzwords st bz bzX s1)) = line_bits (status_of s)) as Hlb.
    { unfold line_bits. rewrite !Hb2, !Hb1, Hv0 by (done || is_flag).
      replace (forallb _ word_flags) with true by (symmetry; apply forallb_forall; intros [k f'] Hk;
        apply list_elem_of_In, flag_word_facts in Hk as (_ & _ & _ & H1 & H2 & _);
        apply orb_true_iff; right; apply negb_true_iff, Z.eqb_neq; done).
      replace (forallb _ word_flags) with true by (symmetry; apply forallb_forall; intros [k f'] Hk;
        apply list_elem_of_In, flag_word_facts in Hk as (_ & _ & _ & H1 & H2 & _);
        apply orb_true_iff; right; apply negb_true_iff, Z.eqb_neq; done).
      by rewrite !andb_true_r. }
    rewrite Hv3, words_status_line, Hlb by (by rewrite Hlb). done.
  - destruct He3 as (_&_&_&_&_&_&Hc&_). destruct He02 as (_&_&_&_&_&_&Hc'&_). cbn. by rewrite Hc, Hc'.
  - destruct He3 as (_&_&_&_&_&Hc&_). destruct He02 as (_&_&_&_&_&Hc'&_). cbn. by rewrite Hc, Hc'.
  - intros Hn. cbn. rewrite Htime; [|done|exact Hn]. unfold now_of, time_of. destruct He02 as (_ & -> & _). by rewrite Hck0.
  - etrans; [exact Hs0|]. etrans; [apply He02|apply He3].
  - destruct He3 as (_&Hc&_), He02 as (_&Hc'&_). cbn. by rewrite Hc, Hc'.
  - destruct He3 as (_&_&_&Hc&_), He02 as (_&_&_&Hc'&_). cbn. by rewrite Hc, Hc'.
  - intros Hna. destruct (Hl3 Hna) as [Hc _], Hl02 as [Hc' _]. cbn. by rewrite Hc, Hc'.
Qed.

(** C19. What a status says is what upsmon believes: for a status made of distinct standard
    words, and a UPS of which no other words are known from before and which is not known to be both on line and on
    battery, [parse_status] succeeds and afterwards each of the flags
    for low battery, forced shutdown, calibration, off, bypass, alarm, overload, trim and boost is set
    exactly when its word is in the status; the UPS is on line or on battery as the last of OL and OB
    says, as before without them; what is known about the connection stays; and the UPS counts as
    reached at this moment, and as not critical at this moment unless it is OB and LB without CAL.
    (The alarm's text is asked for only with ALARM, by a query that must not fault.) *)
Theorem parse_status_flags ws bz bzX s :
  ws <> [] -> Forall (fun w => w ∈ std_words) ws -> NoDup ws ->
  tk_root (m_tokens (s_ups s)) = None -> ($"ALARM" ∈ ws -> alarm_safe (s_ups s)) ->
  line_bits (status_of s) <> (true, true) ->
  exists s', parse_status (join_words ws) bz bzX s = Some s'
    /\ (forall k f, (k, f) ∈ word_flags -> has s' f = bool_decide (k ∈ ws))
    /\ (forall f, f ∈ [ST_PRIMARY; ST_LOGIN; ST_CLICONNECTED] -> has s' f = has s f)
    /\ line_bits (status_of s') = fold_left line_word ws (line_bits (status_of s))
    /\ m_commstate (s_ups s') = 1 /\ m_lastpoll (s_ups s') = now_of s
    /\ (noncrit (status_of s') = true -> m_lastnoncrit (s_ups s') = now_of s).
Proof.
  intros Hne Hstd Hnd Htok Ha Hline.
  destruct (parse_status_effect ws bz bzX s Hne Hstd Hnd Htok Ha Hline) as (s' & ? & ? & ? & ? & ? & ? & ? & _).
  by exists s'.
Qed.

(** A new UPS with the settings that upsmon starts with *)
Definition demo_mon_conf : mconf := mconf_stock (fun _ _ => None) (fun _ _ => None).

Definition demo_mst : mst :=
  mkMst (mkUtype zero_conn ($"su700@localhost") (Some ($"su700")) (Some ($"localhost")) NUT_PORT 1 (Some ($"mon")) (Some ($"pw"))
           (setflag 0 ST_PRIMARY) no_tokens 1 (-1) (-1) (-1) (-1) (-1) (-1) (-1) UPSCLI_ERR_NONE (-1) 0 0 0 0 0 0 0 0)
    (glob_stock demo_mon_conf 1700000000000000).

Lemma parse_status_flags_witness :
  exists s', parse_status (join_words [$"OB"; $"DISCHRG"; $"LB"]) [] [] demo_mst = Some s'
    /\ has s' ST_LOWBATT = true /\ has s' ST_CAL = false /\ has s' ST_PRIMARY = true
    /\ line_bits (status_of s') = (false, true).
Proof.
  destruct (parse_status_flags [$"OB"; $"DISCHRG"; $"LB"] [] [] demo_mst) as (s' & Hr & Hf & Hk & Hl & _).
  - discriminate.
  - apply (bool_decide_unpack _). vm_compute. exact I.
  - apply (bool_decide_unpack _). vm_compute. exact I.
  - reflexivity.
  - intros H. exfalso. revert H. apply (bool_decide_unpack _). vm_compute. exact I.
  - discriminate.
  - exists s'. split; [exact Hr|]. split; [|split; [|split]].
    + refine (Hf ($"LB") ST_LOWBATT _). apply (bool_decide_unpack _). vm_compute. exact I.
    + refine (Hf ($"CAL") ST_CAL _). apply (bool_decide_unpack _). vm_compute. exact I.
    + refine (Hk ST_PRIMARY _). left.
    + exact Hl.
Defined.

(** ** Where upsmon does not do what it means to

    Each theorem shows a fault of the code on the model of its lines. *)

(** ** The tree of unclassified words *)

(** the same UPS, [us] microseconds later *)
Definition later (us : Z) (s : mst) : mst := updg (fun g => set_g_clock g (g_clock g + us)) s.

(** The tree of unclassified words is followed into freed memory: after a status
    with two words that upsmon does not know, in falling order, a status without them frees the second,
    which hangs below the first, without clearing the pointer to it; then it drops the tree from the
    first and reaches the freed node.  The status of a UPS that a driver extends by two words thus
    brings [parse_status] to a use after free, in the code of a client that runs as root or guards the
    shutdown. *)
Theorem other_words_use_after_free :
  exists s1, parse_status ($"OL ZZZ AAA") [] [] demo_mst = Some s1
    /\ parse_status ($"OL") [] [] (later 5000000 s1) = None.
Proof.
  assert (match parse_status ($"OL ZZZ AAA") [] [] demo_mst with
          | Some s1 => bool_decide (is_Some (parse_status ($"OL") [] [] (later 5000000 s1)))
          | None => true
          end = false) as H by (vm_compute; reflexivity).
  destruct (parse_status ($"OL ZZZ AAA") [] [] demo_mst) as [s1|]; [|done]. exists s1. split; [done|].
  apply eq_None_not_Some. by apply bool_decide_eq_false in H.
Qed.

(** ** The answer to a query *)

(** An answer without a value is read past its end: on a new connection, when the
    server answers the question for the status by repeating it alone, [get_var] accepts as many words
    as it asked with and takes the next slot of the array, which was never allocated; so does the poll,
    and the main loop with it. *)
Theorem get_var_reads_past_answer u g rest more :
  m_upsname u = Some ($"su700") -> usable (m_conn u) -> cn_ctx (m_conn u) = pconf_init ->
  flag_isset (m_status u) ST_CLICONNECTED = true ->
  delivers (m_conn u) ($"VAR su700 ups.status" ++ LF :: rest) more ->
  get_var u ($"status") SMALLBUF = None /\ pollups (mkMst u g) = None /\ main_cycle false (mkMon [u] g) = Faulted.
Proof.
  intros Hn Hu Hctx Hcon Hd. assert (get_var u ($"status") SMALLBUF = None) as Hg.
  { destruct (query_answer (m_conn u) ($"GET") [$"VAR"; $"su700"; $"ups.status"]
      [Bare ($"VAR"); Bare ($"su700"); Bare ($"ups.status")] rest more Hu)
      as (c' & Hqr & _ & _ & Hc' & _); try done.
    1,3: by apply (bool_decide_unpack _); vm_compute.
    - apply Nat.ltb_lt. by vm_compute.
    - apply Nat.leb_le. by vm_compute.
    - apply Nat.ltb_lt. by vm_compute.
    - rewrite Hctx in Hc'. set (q := [$"VAR"; $"su700"; $"ups.status"]) in *.
      assert (p_numargs (cn_ctx c') = 3%nat /\ p_arglist (cn_ctx c') = q) as [Hnum Harg]
        by (rewrite Hc'; split; by vm_compute).
      assert (upscli_get (m_conn u) q = Some (0, c')) as Hget.
      { unfold upscli_get. rewrite Hqr. cbn [length Nat.ltb Nat.leb negb]. rewrite Hnum, Harg. by vm_compute. }
      unfold get_var. rewrite Hn. change (get_var_query ($"su700") ($"status")) with q.
      change (upscli_get (m_conn u) q ≫= (fun '(ret, c) => let u := set_m_conn u c in
        if ret <? 0 then Some (-1, [], u) else if (p_numargs (cn_ctx c) <? 3)%nat then Some (-1, [], u)
        else a ← p_arglist (cn_ctx c) !! 3%nat; Some (0, snprintf_s SMALLBUF a, u)) = None).
      rewrite Hget. cbn [mbind option_bind Z.ltb Z.compare]. rewrite Hnum, Harg. reflexivity. }
  assert (pollups (mkMst u g) = None) as Hp.
  { unfold pollups, has. cbn [s_ups]. rewrite Hcon. cbn [negb]. unfold poll_var. cbn [s_ups]. by rewrite Hg. }
  split_and!; [done..|]. unfold main_cycle. cbn [poll_all mo_ups mo_g]. by rewrite Hp.
Qed.

Lemma get_var_reads_past_answer_witness :
  let u := set_m_status (set_m_conn (s_ups demo_mst) (demo_conn [RData ($"VAR su700 ups.status" ++ [LF])])) ST_CLICONNECTED in
  main_cycle false (mkMon [u] (s_g demo_mst)) = Faulted.
Proof.
  intros u. refine (proj2 (proj2 (get_var_reads_past_answer u (s_g demo_mst) [] [] eq_refl (demo_usable _) eq_refl eq_refl _))).
  exists [$"VAR su700 ups.status" ++ [LF]].
  split; [apply (bool_decide_unpack _); vm_compute; exact I|split; [reflexivity|by vm_compute]].
Defined.

(** ** The frequency of polling *)

(** The states that want frequent polling *)
Definition alert_flags : list Z := [ST_ONBATT; ST_OFF; ST_BYPASS; ST_ALARM; ST_CAL; ST_OVER; ST_TRIM; ST_BOOST].

Lemma alert_mask_bits f v : f ∈ alert_flags -> flag_isset v f = false ->
  flag_isset v (Z.lor ST_ONBATT (Z.lor ST_OFF (Z.lor ST_BYPASS (Z.lor ST_ALARM (Z.lor ST_CAL
    (Z.lor ST_OVER (Z.lor ST_TRIM ST_BOOST))))))) = false.
Proof.
  intros Hf Hv. set (mask := Z.lor ST_ONBATT _). unfold flag_isset in *. apply Z.eqb_neq. intros Hm.
  apply Z.eqb_neq in Hv. apply Hv.
  assert (Forall (fun f => Z.land mask f = f) alert_flags) as Hall by (by repeat constructor).
  rewrite Forall_forall in Hall. specialize (Hall _ Hf).
  rewrite <- Hall at 2. rewrite <- Hm, <- Z.land_assoc, Hall. done.
Qed.

(** Polling goes back to the relaxed frequency while the UPS still needs watching:
    [try_restore_pollfreq] asks whether all the alert states hold at once, not whether any does; so the
    end of any one of them (a calibration, an overload, a bypass, ...) sets the sleep to POLLFREQ, also
    on battery, and so does each look at a UPS that is on line, trimming, or in an alarm.  The frequency
    is kept only when all eight states hold. *)
Theorem alert_polling_is_lost s :
  (forall f t, f ∈ alert_flags -> has s f = true ->
    g_sleepval (s_g (state_over f t s)) = pollfreq (cfg s)
    /\ (f <> ST_ONBATT -> has s ST_ONBATT = true -> has (state_over f t s) ST_ONBATT = true))
  /\ (forall f, f ∈ alert_flags -> has s f = false -> g_sleepval (s_g (try_restore_pollfreq s)) = pollfreq (cfg s)).
Proof.
  assert (forall s f, f ∈ alert_flags -> has s f = false -> g_sleepval (s_g (try_restore_pollfreq s)) = pollfreq (cfg s)) as Hr.
  { intros s' f Hf Hs. unfold try_restore_pollfreq. by rewrite (alert_mask_bits f) by done. }
  assert (forall f, f ∈ alert_flags -> is_flag f) as Hall.
  { intros f Hf. apply flags_all_flag. revert f Hf.
    assert (Forall (fun f => f ∈ flags_all) alert_flags) as H by (apply (bool_decide_unpack _); vm_compute; exact I).
    intros f Hf. rewrite Forall_forall in H. by apply H. }
  split; [|intros f; apply Hr]. intros f t Hf Hs. split.
  - unfold state_over. rewrite Hs. rewrite (Hr _ f Hf); cycle 1.
    { unfold has. cbn. rewrite isset_clear by auto. by rewrite Z.eqb_refl. }
    unfold cfg. cbn. destruct (do_notify_frame (Some (m_sys (s_ups s))) t None (s_g s)) as (-> & _). done.
  - intros Hne Hb. unfold has. fold (status_of (state_over f t s)). rewrite over_bits by (auto || is_flag).
    rewrite (proj2 (Z.eqb_neq _ _) Hne). exact Hb.
Qed.
