(* ===== verification/MonCritFacts.v ===== *)
(** * Theorems about upsmon's decision to shut down

    What makes one UPS critical, the delay OBLBDURATION, and when [recalc] forces a shutdown. *)

From S2P Require Import Prelude CStr StrUtil Fmt ParseConf UpsClient StateTree MonState MonStatus MonParse MonCrit MonFacts.
From stdpp Require Import options.

(** The settings that the loop of [is_ups_critical] needs: the parts of a poll interval are an [int]. *)
Definition conf_sane (c : mconf) : Prop :=
  0 <= pollfreqalert c <= INT_MAX /\ oblbdurationtime c <= INT_MAX.

(** ** The loop for the greatest common divisor *)

Lemma gcd_loop_gcd fuel : forall n1 n2,
  0 < n1 -> 0 < n2 -> n1 + n2 <= Z.of_nat fuel -> gcd_loop fuel n1 n2 = Some (Z.gcd n1 n2).
Proof.
  induction fuel as [|fuel IH]; intros n1 n2 H1 H2 Hf; [lia|]. cbn [gcd_loop].
  destruct (Z.eqb_spec n1 n2) as [->|Hne]; [by rewrite Z.gcd_diag, Z.abs_eq by lia|].
  destruct (Z.ltb_spec n2 n1).
  - rewrite IH by lia. f_equal. rewrite Z.gcd_comm, <- (Z.gcd_comm n2). by rewrite Z.gcd_sub_diag_r.
  - rewrite IH by lia. f_equal. by rewrite Z.gcd_sub_diag_r.
Qed.

Lemma oblb_sleepval_gcd p o : 0 <= p <= INT_MAX -> oblb_sleepval p o = Some (Z.gcd (Z.max p 1) (Z.max o 1)).
Proof.
  intros Hp. unfold oblb_sleepval.
  replace (if 0 <? p then wrapS 32 p else 1) with (Z.max p 1); cycle 1.
  { destruct (Z.ltb_spec 0 p); [|lia]. unfold INT_MAX in Hp. rewrite wrapS_small; lia. }
  replace (if 0 <? o then o else 1) with (Z.max o 1) by (destruct (Z.ltb_spec 0 o); lia).
  rewrite gcd_loop_gcd by lia. cbn [mbind option_bind]. f_equal.
  assert (Z.gcd (Z.max p 1) (Z.max o 1) <> 0) by (rewrite Z.gcd_eq_0; lia).
  pose proof (Z.gcd_nonneg (Z.max p 1) (Z.max o 1)). destruct (Z.ltb_spec 0 (Z.gcd (Z.max p 1) (Z.max o 1))); lia.
Qed.

(** ** One UPS *)

Definition oblb (s : mst) : bool := has s ST_ONBATT && has s ST_LOWBATT && negb (has s ST_CAL).

(** Has the state lasted for OBLBDURATION? *)
Definition oblb_elapsed (s : mst) : bool :=
  negb (0 <? oblbdurationtime (cfg s))
  || negb ((m_oblbsince (s_ups s) <? 1) && (0 <? now_of s))
     && negb ((0 <? now_of s) && (now_of s - m_oblbsince (s_ups s) <? oblbdurationtime (cfg s))).

Definition critical_now (s : mst) : bool :=
  has s ST_FSD
  || (m_commstate (s_ups s) =? 0) && nocomms_critical s
  || has s ST_OFF && (0 <=? offdurationtime (cfg s)) && (m_offstate (s_ups s) =? 1)
  || oblb s && oblb_elapsed s && primary_or_hostsync s.

(** A judgement changes nothing but the start of OB+LB and the length of the sleep. *)
Definition judged (s s' : mst) : Prop :=
  (exists t, s_ups s' = set_m_oblbsince (s_ups s) t) /\ (exists n, s_g s' = set_g_sleepval (s_g s) n).

Lemma judged_refl s : judged s s.
Proof. destruct s as [[] []]. split; by eexists. Qed.

Lemma is_ups_critical_total s : conf_sane (cfg s) ->
  exists s', is_ups_critical s = Some (critical_now s, s') /\ judged s s'.
Proof.
  intros [Hp _]. unfold is_ups_critical, critical_now, oblb, oblb_elapsed.
  destruct (has s ST_FSD); [exists s; split; [done|apply judged_refl]|].
  destruct ((m_commstate (s_ups s) =? 0) && nocomms_critical s); [exists s; split; [done|apply judged_refl]|].
  destruct (has s ST_OFF && (0 <=? offdurationtime (cfg s)) && (m_offstate (s_ups s) =? 1));
    [exists s; split; [done|apply judged_refl]|]. cbn [orb].
  destruct (has s ST_ONBATT && has s ST_LOWBATT) eqn:Hobl; cycle 1.
  { replace (negb (has s ST_ONBATT) || negb (has s ST_LOWBATT)) with true by (by rewrite <- negb_andb, Hobl).
    cbn [andb].
    destruct (0 <? m_oblbsince (s_ups s)); eexists; (split; [done|]); [|apply judged_refl].
    case_match; split; by eexists. }
  apply andb_true_iff in Hobl as [Hob Hlb]. rewrite Hob, Hlb. cbn [negb orb andb].
  destruct (has s ST_CAL); [exists s; split; [done|apply judged_refl]|]. cbn [negb andb].
  destruct (0 <? oblbdurationtime (cfg s)) eqn:Hd; cbn [negb orb]; [|exists s; split; [done|apply judged_refl]].
  destruct ((m_oblbsince (s_ups s) <? 1) && (0 <? now_of s)) eqn:Hf; cbn [negb andb].
  - rewrite oblb_sleepval_gcd by done. cbn [mbind option_bind]. eexists. split; [done|]. split; by eexists.
  - destruct ((0 <? now_of s) && _); (eexists; split; [done|apply judged_refl]).
Qed.

(** ** OBLBDURATION *)

(** Judging the same UPS at a sequence of times (in seconds) *)
Fixpoint judge_at (ts : list Z) (s : mst) : option (list bool * mst) :=
  match ts with
  | [] => Some ([], s)
  | t :: ts =>
      '(c, s) ← is_ups_critical (updg (fun g => set_g_clock g (t * 1000000)) s);
      '(cs, s) ← judge_at ts s;
      Some (c :: cs, s)
  end.

(** A UPS that this host is the primary of, on battery with a low battery, and nothing else *)
Definition plain_oblb (s : mst) : Prop :=
  oblb s = true /\ has s ST_FSD = false /\ has s ST_OFF = false /\ has s ST_PRIMARY = true
  /\ m_commstate (s_ups s) <> 0.

Lemma plain_oblb_judge s t : plain_oblb s -> conf_sane (cfg s) -> 0 < t -> 0 < oblbdurationtime (cfg s) ->
  exists s', is_ups_critical (updg (fun g => set_g_clock g (t * 1000000)) s)
      = Some (if m_oblbsince (s_ups s) <? 1 then false else oblbdurationtime (cfg s) <=? t - m_oblbsince (s_ups s), s')
    /\ plain_oblb s' /\ cfg s' = cfg s
    /\ m_oblbsince (s_ups s') = (if m_oblbsince (s_ups s) <? 1 then t else m_oblbsince (s_ups s))
    /\ g_sleepval (s_g s') = (if m_oblbsince (s_ups s) <? 1
                             then Z.gcd (Z.max (pollfreqalert (cfg s)) 1) (oblbdurationtime (cfg s))
                             else g_sleepval (s_g s)).
Proof.
  intros (Ho & Hf & Hoff & Hp & Hc) [Hsane _] Ht Hd. set (st := updg _ s).
  assert (now_of st = t) as Hnow by (unfold now_of, time_of; simpl; by rewrite Z.div_mul).
  assert (forall f, has st f = has s f) as Hhas by done.
  assert (cfg st = cfg s) as Hcfg by done.
  assert (s_ups st = s_ups s) as Hups by done.
  unfold oblb in Ho. rewrite !andb_true_iff, negb_true_iff in Ho. destruct Ho as [[Hob Hlb] Hcal].
  unfold is_ups_critical. rewrite !Hhas, Hf, Hoff, Hob, Hlb, Hcal, Hups, Hcfg, Hnow.
  rewrite (proj2 (Z.eqb_neq _ 0) Hc). cbn [negb orb andb].
  rewrite (proj2 (Z.ltb_lt _ _) Hd), (proj2 (Z.ltb_lt _ _) Ht). cbn [andb]. rewrite andb_true_r.
  assert (forall u g, plain_oblb (mkMst (set_m_oblbsince (s_ups s) u) g)) as Hplain.
  { intros u g. unfold plain_oblb, oblb, has in *. simpl. by rewrite Hob, Hlb, Hcal. }
  assert (forall g, plain_oblb (mkMst (s_ups s) g)) as Hplain2.
  { intros g. unfold plain_oblb, oblb, has in *. simpl. by rewrite Hob, Hlb, Hcal. }
  destruct (Z.ltb_spec (m_oblbsince (s_ups s)) 1) as [Hsince|Hsince].
  - rewrite oblb_sleepval_gcd, (Z.max_l (oblbdurationtime (cfg s))) by lia. cbn [mbind option_bind]. eexists. split_and!; try done.
    apply Hplain.
  - exists st. unfold primary_or_hostsync. rewrite Hhas, Hp.
    split_and!; try done; [|apply Hplain2].
    destruct (Z.ltb_spec (t - m_oblbsince (s_ups s)) (oblbdurationtime (cfg s))),
      (Z.leb_spec (oblbdurationtime (cfg s)) (t - m_oblbsince (s_ups s))); done || lia.
Qed.

Lemma judge_since ts : forall s t0, plain_oblb s -> conf_sane (cfg s) -> 0 < oblbdurationtime (cfg s) ->
  m_oblbsince (s_ups s) = t0 -> 0 < t0 -> Forall (fun t => t0 <= t) ts ->
  exists s', judge_at ts s = Some (map (fun t => oblbdurationtime (cfg s) <=? t - t0) ts, s')
    /\ g_sleepval (s_g s') = g_sleepval (s_g s).
Proof.
  induction ts as [|t ts IH]; intros s t0 Hp Hs Hd Ht0 Hpos Hts; [by exists s|].
  apply Forall_cons in Hts as [Ht Hts].
  destruct (plain_oblb_judge s t Hp Hs) as (s1 & Hr & Hp1 & Hc1 & Ho1 & Hg1); [lia|done|].
  rewrite (proj2 (Z.ltb_ge _ _)) in Hr, Ho1, Hg1 by lia.
  destruct (IH s1 t0) as (s2 & Hr2 & Hg2); try done; try (by rewrite Hc1); try congruence.
  exists s2. cbn [judge_at map]. rewrite Hr. cbn [mbind option_bind]. rewrite Hr2, Hc1, Ht0. cbn [mbind option_bind].
  split; [done|congruence].
Qed.

(** OBLBDURATION delays the alarm and never loses it: a UPS that this host is the
    primary of and that stays on battery with a low battery, seen first at [t0] and then at any later
    times, is not critical at [t0], and at each later time it is critical exactly when OBLBDURATION
    seconds have passed since [t0]; and until then upsmon sleeps for the greatest common divisor of
    POLLFREQALERT and OBLBDURATION, which the loop finds.  (For settings that fit an [int].) *)
Theorem oblb_delay s t0 ts :
  plain_oblb s -> conf_sane (cfg s) -> 0 < oblbdurationtime (cfg s) -> m_oblbsince (s_ups s) = 0 -> 0 < t0 ->
  Forall (fun t => t0 <= t) ts ->
  exists s', judge_at (t0 :: ts) s = Some (false :: map (fun t => oblbdurationtime (cfg s) <=? t - t0) ts, s')
    /\ g_sleepval (s_g s') = Z.gcd (Z.max (pollfreqalert (cfg s)) 1) (oblbdurationtime (cfg s)).
Proof.
  intros Hp Hs Hd Ho Hpos Hts.
  destruct (plain_oblb_judge s t0 Hp Hs Hpos Hd) as (s1 & Hr & Hp1 & Hc1 & Ho1 & Hg1).
  rewrite Ho in Hr, Ho1, Hg1. cbn in Hr, Ho1, Hg1.
  destruct (judge_since ts s1 t0) as (s2 & Hr2 & Hg2); try done; try (by rewrite Hc1).
  exists s2. cbn [judge_at]. rewrite Hr. cbn [mbind option_bind]. rewrite Hr2, Hc1. cbn [mbind option_bind].
  split; [done|congruence].
Qed.

Lemma oblb_delay_witness :
  let s := upd (fun u => set_m_commstate (set_m_status u (Z.lor ST_PRIMARY (Z.lor ST_ONBATT ST_LOWBATT))) 1)
             (updg (fun g => set_g_conf g (set_oblbdurationtime (g_conf g) 12)) demo_mst) in
  exists s', judge_at [1700000000; 1700000005; 1700000011; 1700000012] s = Some ([false; false; false; true], s')
    /\ g_sleepval (s_g s') = 1.
Proof.
  intros s. apply (oblb_delay s 1700000000 [1700000005; 1700000011; 1700000012]).
  - repeat split; discriminate.
  - split; [split|]; vm_compute; discriminate.
  - reflexivity.
  - reflexivity.
  - reflexivity.
  - repeat constructor; discriminate.
Defined.

(** ** recalc *)

(** A UPS that was last seen on battery and has not been reached for DEADTIME counts as OB+LB. *)
Definition promoted (now : Z) (g : glob) (u : utype) : mst :=
  let s := mkMst u g in
  if (deadtime (cfg s) <? now - m_lastpoll u) && has s ST_ONBATT then set_flag ST_LOWBATT s else s.

(** What a UPS adds to the power value *)
Definition supplies (now : Z) (g : glob) (u : utype) : Z :=
  if critical_now (promoted now g u) then 0 else m_pv u.

Definition sum_supplies (now : Z) (g : glob) (us : list utype) : Z := foldr (fun u n => supplies now g u + n) 0 us.

Lemma promoted_g now g u : s_g (promoted now g u) = g.
Proof. unfold promoted. by case_match. Qed.
Lemma promoted_pv now g u : m_pv (s_ups (promoted now g u)) = m_pv u.
Proof. unfold promoted. by case_match. Qed.

(** the length of the sleep plays no role *)
Lemma supplies_sleepval now g n u : supplies now (set_g_sleepval g n) u = supplies now g u.
Proof.
  unfold supplies, promoted. change (has (mkMst u (set_g_sleepval g n)) ST_ONBATT) with (has (mkMst u g) ST_ONBATT).
  cbn [cfg s_g set_g_sleepval g_conf]. by destruct (_ && has (mkMst u g) ST_ONBATT).
Qed.

Lemma sum_supplies_sleepval now g n us : sum_supplies now (set_g_sleepval g n) us = sum_supplies now g us.
Proof. unfold sum_supplies. induction us as [|u us IH]; [done|]. cbn [foldr]. by rewrite supplies_sleepval, IH. Qed.

Lemma promoted_sleepval now g n u : s_ups (promoted now (set_g_sleepval g n) u) = s_ups (promoted now g u).
Proof.
  unfold promoted. change (has (mkMst u (set_g_sleepval g n)) ST_ONBATT) with (has (mkMst u g) ST_ONBATT).
  cbn [cfg s_g set_g_sleepval g_conf]. by destruct (_ && has (mkMst u g) ST_ONBATT).
Qed.

(** a judged UPS *)
Definition judged_ups (now : Z) (g : glob) (u u' : utype) : Prop :=
  exists t, u' = set_m_oblbsince (s_ups (promoted now g u)) t.

Lemma wrap32_add_l a b : wrap32 (wrap32 a + b) = wrap32 (a + b).
Proof. unfold wrap32, wrapU. by rewrite Zplus_mod_idemp_l. Qed.

Lemma recalc_loop_total now us : forall v g, conf_sane (g_conf g) -> wrap32 v = v ->
  exists us' n, recalc_loop now us v g = Some (wrap32 (v + sum_supplies now g us), us', set_g_sleepval g n)
    /\ Forall2 (judged_ups now g) us us'.
Proof.
  induction us as [|u us IH]; intros v g Hg Hv.
  { exists [], (g_sleepval g). cbn. rewrite Z.add_0_r, Hv. split; [by destruct g|constructor]. }
  cbn [recalc_loop]. fold (promoted now g u).
  destruct (is_ups_critical_total (promoted now g u)) as (s' & Hr & [(t & Hu') (n & Hg')]).
  { unfold cfg. by rewrite promoted_g. }
  change (if (deadtime (cfg (mkMst u g)) <? now - m_lastpoll u) && has (mkMst u g) ST_ONBATT
          then set_flag ST_LOWBATT (mkMst u g) else mkMst u g) with (promoted now g u).
  rewrite Hr. cbn [mbind option_bind]. rewrite promoted_g in Hg'. rewrite Hg'.
  set (v1 := if critical_now (promoted now g u) then v else wrap32 (v + m_pv (s_ups s'))).
  assert (v1 = wrap32 (v + supplies now g u)) as Hv1.
  { unfold v1, supplies. case_match; [by rewrite Z.add_0_r|]. by rewrite Hu', <- (promoted_pv now g u). }
  destruct (IH v1 (set_g_sleepval g n)) as (us' & n' & Hr' & Hj).
  { done. }
  { rewrite Hv1. unfold wrap32, wrapU. apply Z.mod_mod. lia. }
  rewrite Hr'. cbn [mbind option_bind]. exists (s_ups s' :: us'), n'. split.
  - f_equal. f_equal. f_equal. rewrite sum_supplies_sleepval, Hv1, wrap32_add_l. cbn [sum_supplies foldr].
    unfold sum_supplies. f_equal. lia.
  - constructor; [by exists t|]. eapply Forall2_impl; [exact Hj|]. intros x y [t' ->]. exists t'.
    by rewrite promoted_sleepval.
Qed.

(** When upsmon forces a shutdown: with settings that fit an [int], [recalc] always
    ends, and it compares with MINSUPPLIES the sum (as a 32-bit unsigned number) of the power values of
    the UPSes that are not critical, where a UPS last seen on battery that was not reached for DEADTIME
    counts as on battery with a low battery.  Below MINSUPPLIES it forces the shutdown; else upsmon goes
    on, with nothing done or said, and only that promotion, the start of OB+LB and the length of the
    sleep changed. *)
Theorem recalc_decision m :
  conf_sane (cfgm m) ->
  let now := time_of (mo_g m) in
  exists us' n, Forall2 (judged_ups now (mo_g m)) (mo_ups m) us' /\
    let m' := mkMon us' (set_g_sleepval (mo_g m) n) in
    recalc m = if wrap32 (sum_supplies now (mo_g m) (mo_ups m)) <? minsupplies (cfgm m)
               then forceshutdown m' else Running m'.
Proof.
  intros Hs now. destruct (recalc_loop_total now (mo_ups m) 0 (mo_g m) Hs eq_refl) as (us' & n & Hr & Hj).
  exists us', n. split; [exact Hj|]. intros m'. unfold recalc. fold now. rewrite Hr. done.
Qed.

Lemma recalc_decision_witness :
  let on_batt := Z.lor ST_PRIMARY (Z.lor ST_ONBATT ST_LOWBATT) in
  let u := set_m_commstate (s_ups demo_mst) 1 in
  let m := mkMon [set_m_status u on_batt; set_m_lastpoll (set_m_status u ST_ONLINE) 1700000000] (s_g demo_mst) in
  exists us' n, recalc m = Running (mkMon us' (set_g_sleepval (mo_g m) n)).
Proof.
  intros on_batt u m. destruct (recalc_decision m) as (us' & n & _ & Hr).
  - split; [split|]; vm_compute; discriminate.
  - exists us', n. exact Hr.
Defined.
