(* ===== verification/MonShutFacts.v ===== *)
(** * Theorems about upsmon's shutdown

    [forceshutdown] always ends, in time and with the shutdown carried out; the POWERDOWNFLAG file. *)

From S2P Require Import Prelude CStr StrUtil Fmt ParseConf UpsClient StateTree MonState MonStatus MonParse MonCrit MonPoll.
From S2P Require Import MonFacts.
From stdpp Require Import options.

Lemma do_notify_clock sys t extra g : g_clock (do_notify sys t extra g) = g_clock g.
Proof. apply (do_notify_frame sys t extra g). Qed.

Lemma sleep_said us m : said (mo_g m) (mo_g (sleep_usec us m)).
Proof. by apply said_quiet. Qed.

(** ** The loops *)

Lemma time_second g n : time_of (set_g_clock g (g_clock g + 1000000 * n)) = time_of g + n.
Proof. unfold time_of. simpl. by rewrite (Z.mul_comm 1000000), Z.div_add. Qed.

Lemma sleep_0 m : sleep_usec (1000000 * Z.of_nat 0) m = m.
Proof. destruct m as [us []]. unfold sleep_usec, updm, set_g_clock. simpl. by rewrite Z.add_0_r. Qed.

Lemma sleep_sleep a b m : sleep_usec a (sleep_usec b m) = sleep_usec (b + a) m.
Proof. unfold sleep_usec, updm, set_g_clock. simpl. by rewrite Z.add_assoc. Qed.

Lemma wait_loop_waits k : forall start delay m,
  delay - (time_of (mo_g m) - start) = Z.of_nat k -> wait_loop k start delay m = Running (sleep_usec (1000000 * Z.of_nat k) m).
Proof.
  induction k as [|k IH]; intros start delay m Hk; cbn [wait_loop].
  - destruct (Z.ltb_spec (time_of (mo_g m) - start) delay); [lia|].
    rewrite sleep_0. done.
  - destruct (Z.ltb_spec (time_of (mo_g m) - start) delay); [|lia].
    rewrite IH; cycle 1.
    { pose proof (time_second (mo_g m) 1) as Ht. change (1000000 * 1) with 1000000 in Ht. cbn [mo_g sleep_usec updm]. lia. }
    rewrite sleep_sleep. do 2 f_equal. lia.
Qed.

(** What the last loop does, [i] seconds after [start]: nothing but messages; and SHUTDOWNEXIT bounds its time. *)
Lemma ping_loop_keeps fuel : forall sig start i m,
  time_of (mo_g m) = start + i ->
  match ping_loop fuel sig start m with
  | Faulted => True
  | Running m' | RunsOn m' =>
      said (mo_g m) (mo_g m')
      /\ (0 < shutdownexitdelay (cfgm m) ->
          g_clock (mo_g m') <= g_clock (mo_g m) + 1000000 * Z.max 0 (shutdownexitdelay (cfgm m) + 1 - i))
  | _ => False
  end.
Proof.
  induction fuel as [|fuel IH]; intros sig start i m Hi; cbn [ping_loop]; [split; [reflexivity|lia]|].
  destruct (if g_exit_flag (mo_g m) =? 0 then _ else _) as [us|]; [|done].
  set (m1 := mkMon us (mo_g m)). change (cfgm m1) with (cfgm m). change (mo_g m1) with (mo_g m).
  set (delay := shutdownexitdelay (cfgm m)).
  destruct ((0 <? delay) && (delay <? time_of (mo_g m) - start)) eqn:E; [split; [reflexivity|cbn [mo_g m1]; lia]|].
  assert (0 < delay -> i <= delay) as Hle.
  { intros Hd. rewrite (proj2 (Z.ltb_lt _ _) Hd) in E. cbn [andb] in E. apply Z.ltb_ge in E. lia. }
  set (m2 := sleep_usec 1000000 m1).
  assert (said (mo_g m) (mo_g m2)) as Hs by (by apply said_quiet).
  assert (g_clock (mo_g m2) = g_clock (mo_g m) + 1000000) as Hc by done.
  specialize (IH (pred <$> sig) start (i + 1) m2). change (cfgm m2) with (cfgm m) in IH. fold delay in IH.
  assert (time_of (mo_g m2) = start + (i + 1)) as Hi2.
  { pose proof (time_second (mo_g m) 1) as Ht. change (1000000 * 1) with 1000000 in Ht. cbn [mo_g m2 m1 sleep_usec updm]. lia. }
  specialize (IH Hi2).
  assert (forall r, match r with
      | Faulted => True
      | Running m' | RunsOn m' =>
          said (mo_g m2) (mo_g m') /\ (0 < delay -> g_clock (mo_g m') <= g_clock (mo_g m2) + 1000000 * Z.max 0 (delay + 1 - (i + 1)))
      | _ => False end ->
    match r with
    | Faulted => True
    | Running m' | RunsOn m' =>
        said (mo_g m) (mo_g m') /\ (0 < delay -> g_clock (mo_g m') <= g_clock (mo_g m) + 1000000 * Z.max 0 (delay + 1 - i))
    | _ => False end) as Hnext.
  { intros r. destruct r; try done; intros [H1 H2]; (split; [by etrans|]; intros Hd; specialize (H2 Hd); specialize (Hle Hd); lia). }
  destruct sig as [[|k]|].
  - split; [by apply said_quiet|]. intros Hd. specialize (Hle Hd). cbn [mo_g updm g_clock set_g_exit_flag]. lia.
  - destruct (negb (g_exit_flag (mo_g m2) =? 0)); [|by apply Hnext].
    split; [done|]. intros Hd. specialize (Hle Hd). lia.
  - destruct (negb (g_exit_flag (mo_g m2) =? 0)); [|by apply Hnext].
    split; [done|]. intros Hd. specialize (Hle Hd). lia.
Qed.

(** A signal, or the time of SHUTDOWNEXIT, ends it. *)
Lemma ping_loop_ends fuel : forall sig start i m m',
  time_of (mo_g m) = start + i ->
  (exists k, sig = Some k /\ (k < fuel)%nat)
  \/ 0 < shutdownexitdelay (cfgm m) /\ (0 < fuel)%nat /\ shutdownexitdelay (cfgm m) + 2 - i <= Z.of_nat fuel ->
  ping_loop fuel sig start m <> RunsOn m'.
Proof.
  induction fuel as [|fuel IH]; intros sig start i m m' Hi Hend; cbn [ping_loop].
  { destruct Hend as [(k & _ & Hk)|(_ & Hk & _)]; lia. }
  destruct (if g_exit_flag (mo_g m) =? 0 then _ else _) as [us|]; [|done].
  set (m1 := mkMon us (mo_g m)). change (cfgm m1) with (cfgm m). change (mo_g m1) with (mo_g m).
  set (delay := shutdownexitdelay (cfgm m)) in *.
  destruct ((0 <? delay) && (delay <? time_of (mo_g m) - start)) eqn:E; [done|].
  set (m2 := sleep_usec 1000000 m1).
  assert (time_of (mo_g m2) = start + (i + 1)) as Hi2.
  { pose proof (time_second (mo_g m) 1) as Ht. change (1000000 * 1) with 1000000 in Ht. cbn [mo_g m2 m1 sleep_usec updm]. lia. }
  assert ((exists k, pred <$> sig = Some k /\ (k < fuel)%nat) \/ sig = Some O
    \/ 0 < delay /\ (0 < fuel)%nat /\ delay + 2 - (i + 1) <= Z.of_nat fuel) as Hnext.
  { destruct Hend as [([|k] & -> & Hk)|(Hd & _ & Hf)]; [right; by left|left; exists k; split; [done|lia]|].
    right. right. rewrite (proj2 (Z.ltb_lt _ _) Hd) in E. cbn [andb] in E. apply Z.ltb_ge in E. lia. }
  destruct sig as [[|k]|]; [done|..].
  - case_match; [done|]. apply (IH _ start (i + 1)); [done|]. destruct Hnext as [?|[?|?]]; [by left|done|by right].
  - case_match; [done|]. apply (IH _ start (i + 1)); [done|]. destruct Hnext as [?|[?|?]]; [by left|done|by right].
Qed.

(** With neither, it has no end, however many rounds it has: SHUTDOWNEXIT "off" means to block. *)
Lemma ping_loop_blocks fuel : forall start m,
  shutdownexitdelay (cfgm m) < 0 -> g_exit_flag (mo_g m) = 0 ->
  ping_loop fuel None start m = Faulted \/ exists m', ping_loop fuel None start m = RunsOn m'.
Proof.
  induction fuel as [|fuel IH]; intros start m Hd He; cbn [ping_loop]; [right; by eexists|].
  rewrite He. cbn [Z.eqb]. destruct (ping_all (mo_ups m)) as [us|]; [|by left].
  change (cfgm (mkMon us (mo_g m))) with (cfgm m). rewrite (proj2 (Z.ltb_ge _ _)) by lia. cbn [andb].
  change (g_exit_flag (mo_g (sleep_usec 1000000 (mkMon us (mo_g m))))) with (g_exit_flag (mo_g m)). rewrite He. cbn [Z.eqb negb].
  by apply IH.
Qed.

(** [i] rounds of a quarter of a second after [start] *)
Lemma sync_loop_ends fuel : forall i start first m,
  start = (g_clock (mo_g m) - 250000 * Z.of_nat i) / 1000000 ->
  (0 < fuel)%nat -> 4 * (hostsync (cfgm m) + 1) < Z.of_nat fuel + Z.of_nat i ->
  sync_loop fuel start first m = Faulted \/
  exists m', sync_loop fuel start first m = Running m' /\ said (mo_g m) (mo_g m')
    /\ g_clock (mo_g m) <= g_clock (mo_g m')
    /\ g_clock (mo_g m') <= Z.max (g_clock (mo_g m))
                              (g_clock (mo_g m) - 250000 * Z.of_nat i + 1000000 * (hostsync (cfgm m) + 1)).
Proof.
  induction fuel as [|fuel IH]; intros i start first m Hstart Hpos Hfuel; [lia|]. cbn [sync_loop].
  destruct (logins_scan (mo_ups m) 0) as [[maxlogins us]|]; [|by left].
  change (cfgm (mkMon us (mo_g m))) with (cfgm m). cbn [mo_g].
  destruct (maxlogins <=? 1); [right; eexists; split; [reflexivity|]; cbn [mo_g]; split_and!; [reflexivity|lia..]|].
  destruct (Z.ltb_spec (hostsync (cfgm m)) (time_of (mo_g m) - start)) as [|Hle];
    [right; eexists; split; [reflexivity|]; cbn [mo_g]; split_and!; [reflexivity|lia..]|].
  set (m1 := if (1 <? maxlogins) && first then _ else _).
  assert (said (mo_g m) (mo_g m1) /\ g_clock (mo_g m1) = g_clock (mo_g m)) as [Hm1 Hc1].
  { unfold m1. case_match; cbn [mo_g updm]; [split; [apply do_notify_said|apply do_notify_clock]|by split]. }
  assert (cfgm m1 = cfgm m) as Hcf by apply Hm1.
  assert (Z.of_nat i + 1 <= 4 * (hostsync (cfgm m) + 1)) as Hi.
  { unfold time_of in Hle. subst start. Z.to_euclidean_division_equations. lia. }
  destruct (IH (S i) start false (sleep_usec 250000 m1)) as [->|(m' & -> & Hs & Hl & Hu)].
  { cbn [mo_g sleep_usec updm g_clock set_g_clock]. rewrite Hc1. subst start. f_equal. lia. }
  { lia. }
  { change (cfgm (sleep_usec 250000 m1)) with (cfgm m1). rewrite Hcf. lia. }
  - by left.
  - right. exists m'. change (cfgm (sleep_usec 250000 m1)) with (cfgm m1) in Hu.
    rewrite Hcf in Hu. cbn [mo_g sleep_usec updm g_clock set_g_clock] in Hl, Hu. rewrite Hc1 in Hl, Hu.
    split_and!; [done| |lia..]. etrans; [exact Hm1|]. etrans; [apply (sleep_said 250000)|exact Hs].
Qed.

Lemma sync_secondaries_ends m :
  sync_secondaries m = Faulted \/
  exists m', sync_secondaries m = Running m' /\ said (mo_g m) (mo_g m')
    /\ g_clock (mo_g m) <= g_clock (mo_g m')
    /\ g_clock (mo_g m') <= g_clock (mo_g m) + 1000000 * Z.max 0 (hostsync (cfgm m) + 1).
Proof.
  destruct (sync_loop_ends (sync_fuel (hostsync (cfgm m))) 0 (time_of (mo_g m)) true m) as [?|(m' & ? & ? & ? & ?)].
  - unfold time_of. f_equal. lia.
  - unfold sync_fuel. lia.
  - unfold sync_fuel. lia.
  - by left.
  - right. exists m'. split_and!; [done..|lia].
Qed.

(** ** setfsd *)

Lemma setfsd_said s : said (s_g s) (s_g (setfsd s)) /\ g_clock (s_g (setfsd s)) = g_clock (s_g s).
Proof.
  assert (forall f g, said g (s_g (tell NOTIFY_FSD None (mkMst f g)))
    /\ g_clock (s_g (tell NOTIFY_FSD None (mkMst f g))) = g_clock g) as Ht.
  { intros f g. split; [apply do_notify_said|apply do_notify_clock]. }
  unfold setfsd. destruct (m_upsname (s_ups s)) as [upsname|]; [|by split].
  destruct (upscli_sendline _ _) as [ret c]. destruct (ret <? 0); [by split|].
  destruct (upscli_readline c SMALLBUF) as [[ret' buf] c']. destruct (ret' <? 0); [by split|].
  destruct (strncmp buf ($"OK") 2 =? 0); [|by split]. case_match; [by split|]. apply Ht.
Qed.

Lemma setfsd_all_said us : forall g,
  let '(p, us', g') := setfsd_all us g in
  said g g' /\ g_clock g' = g_clock g /\ p = existsb (fun u => flag_isset (m_status u) ST_PRIMARY) us.
Proof.
  induction us as [|u us IH]; intros g; [by split_and!|]. cbn [setfsd_all existsb].
  destruct (flag_isset (m_status u) ST_PRIMARY); cbn [orb].
  - specialize (IH (s_g (setfsd (mkMst u g)))). destruct (setfsd_all us _) as [[p us'] g']. destruct IH as (Hs & Hc & _).
    destruct (setfsd_said (mkMst u g)) as [Hs1 Hc1]. cbn [s_g] in *. split_and!; [by etrans|congruence|done].
  - specialize (IH g). by destruct (setfsd_all us g) as [[p us'] g'].
Qed.

(** ** The shutdown itself *)

Definition shut_action (c : mconf) : list mout :=
  if negb (use_pipe c =? 0) then [OCallParent]
  else match powerdownflag c with Some fn => [OSetPdflag fn] | None => [] end ++ [OSystem (shutdowncmd c)].

Definition pdfile_after (c : mconf) (old : option bytes) : option bytes :=
  if negb (use_pipe c =? 0) then old
  else match powerdownflag c with Some _ => Some SDMAGIC | None => old end.

(** The process is over with success: after messages the shutdown was carried out, once; more messages
    may have followed. *)
Definition shut_down (g g' : glob) : Prop :=
  (exists before after, Forall is_message before /\ Forall is_message after
    /\ g_out g' = g_out g ++ before ++ shut_action (g_conf g) ++ after ++ [OExit 0])
  /\ g_pdfile g' = pdfile_after (g_conf g) (g_pdfile g).

Lemma said_shut_down g1 g2 g3 : said g1 g2 -> shut_down g2 g3 -> shut_down g1 g3.
Proof.
  intros ((n & Hn & En) & Hc & Hp & _) ((b & a & Hb & Ha & E) & Hf). split; [|congruence].
  exists (n ++ b), a. split_and!; [by apply Forall_app|done|]. by rewrite E, En, Hc, <- !app_assoc.
Qed.

(** The same, but the process is still there. *)
Definition shut_stays (g g' : glob) : Prop :=
  (exists before after, Forall is_message before /\ Forall is_message after
    /\ g_out g' = g_out g ++ before ++ shut_action (g_conf g) ++ after)
  /\ g_pdfile g' = pdfile_after (g_conf g) (g_pdfile g).

Lemma said_shut_stays g1 g2 g3 : said g1 g2 -> shut_stays g2 g3 -> shut_stays g1 g3.
Proof.
  intros ((n & Hn & En) & Hc & Hp & _) ((b & a & Hb & Ha & E) & Hf). split; [|congruence].
  exists (n ++ b), a. split_and!; [by apply Forall_app|done|]. by rewrite E, En, Hc, <- !app_assoc.
Qed.

(** How many seconds SHUTDOWNEXIT can add *)
Definition exit_delay (c : mconf) : Z := if shutdownexitdelay c =? 0 then 0 else shutdownexitdelay c + 1.

Lemma doshutdown_ends m :
  doshutdown m = Faulted /\ shutdownexitdelay (cfgm m) <> 0
  \/ (exists m', doshutdown m = RunsOn m' /\ shut_stays (mo_g m) (mo_g m')
      /\ shutdownexitdelay (cfgm m) < 0 /\ g_sigterm (mo_g m) = None)
  \/ exists m', doshutdown m = Exited 0 m' /\ shut_down (mo_g m) (mo_g m')
    /\ (0 <= shutdownexitdelay (cfgm m) ->
        g_clock (mo_g m') <= g_clock (mo_g m) + 1000000 * (Z.max 0 (finaldelay (cfgm m)) + exit_delay (cfgm m)))
    /\ (shutdownexitdelay (cfgm m) = 0 -> mo_ups m' = mo_ups m).
Proof.
  unfold doshutdown. set (w := emit (OWall _)).
  set (m1 := updm (do_notify None NOTIFY_SHUTDOWN None) (updm w m)).
  assert (said (mo_g m) (mo_g m1) /\ g_clock (mo_g m1) = g_clock (mo_g m)) as [Hs1 Hk1].
  { unfold m1. cbn [mo_g updm]. split; [|by rewrite do_notify_clock]. etrans; [|apply do_notify_said].
    by apply emit_said. }
  assert (mo_ups m1 = mo_ups m) as Hu1 by done. clearbody m1. assert (cfgm m1 = cfgm m) as Hc1 by apply Hs1. rewrite Hc1.
  (* FINALDELAY *)
  assert (exists m2, (if 0 <? finaldelay (cfgm m)
      then wait_loop (Z.to_nat (finaldelay (cfgm m))) (time_of (mo_g m1)) (finaldelay (cfgm m)) m1 else Running m1) = Running m2
    /\ said (mo_g m) (mo_g m2) /\ g_clock (mo_g m2) = g_clock (mo_g m) + 1000000 * Z.max 0 (finaldelay (cfgm m))
    /\ mo_ups m2 = mo_ups m) as (m2 & -> & Hs2 & Hk2 & Hu2).
  { destruct (Z.ltb_spec 0 (finaldelay (cfgm m))).
    - rewrite wait_loop_waits by lia. eexists. split; [done|]. split; [etrans; [exact Hs1|apply sleep_said]|].
      cbn. split; [lia|done].
    - exists m1. split_and!; [done..|lia|done]. }
  cbn [outcome_bind]. assert (cfgm m2 = cfgm m) as Hc2 by apply Hs2. rewrite Hc2.
  set (m3 := if negb (use_pipe (cfgm m) =? 0) then _ else _).
  assert (shut_stays (mo_g m) (mo_g m3) /\ g_conf (mo_g m3) = cfgm m /\ g_sigterm (mo_g m3) = g_sigterm (mo_g m)
    /\ g_clock (mo_g m3) = g_clock (mo_g m2) /\ mo_ups m3 = mo_ups m2) as (Hsd & Hc3 & Hg3 & Hk3 & Hu3).
  { destruct Hs2 as ((b & Hb & Eb) & Hcc & Hp & Hg).
    assert (g_out (mo_g m3) = g_out (mo_g m2) ++ shut_action (cfgm m) /\ g_pdfile (mo_g m3) = pdfile_after (cfgm m) (g_pdfile (mo_g m2))
      /\ g_conf (mo_g m3) = g_conf (mo_g m2) /\ g_sigterm (mo_g m3) = g_sigterm (mo_g m2)
      /\ g_clock (mo_g m3) = g_clock (mo_g m2) /\ mo_ups m3 = mo_ups m2) as (Ho3 & Hp3 & Hc3 & Hg3 & Hk3 & Hu3).
    { unfold m3, shut_action, pdfile_after. destruct (negb (use_pipe (cfgm m) =? 0)); [done|].
      cbn [mo_g updm]. unfold set_pdflag. change (g_conf (mo_g m2)) with (cfgm m2). rewrite Hc2.
      destruct (powerdownflag (cfgm m)); cbn; by rewrite <- ?app_assoc. }
    change (g_conf (mo_g m2)) with (cfgm m2) in Hc3.
    split; [|split; [congruence|split; [congruence|by split]]]. split; [|by rewrite Hp3, Hp].
    exists b, []. split_and!; [done|constructor|]. by rewrite Ho3, Eb, app_nil_r, <- app_assoc. }
  assert (cfgm m3 = cfgm m) as Hcf by exact Hc3. clearbody m3. cbv zeta. rewrite Hcf.
  assert (forall m4 a, Forall is_message a -> g_out (mo_g m4) = g_out (mo_g m3) ++ a -> g_pdfile (mo_g m4) = g_pdfile (mo_g m3) ->
    shut_stays (mo_g m) (mo_g m4) /\ shut_down (mo_g m) (mo_g (updm (emit (OExit 0)) m4))) as Hend.
  { intros m4 a Ha Eo Ep. destruct Hsd as ((b & a0 & Hb & Ha0 & E) & Hp).
    split; (split; [exists b, (a0 ++ a); split_and!; [done|by apply Forall_app|]|cbn; congruence]);
      cbn; by rewrite Eo, E, <- !app_assoc. }
  destruct (Z.eqb_spec (shutdownexitdelay (cfgm m)) 0) as [He|He].
  - right. right. eexists. split; [reflexivity|]. split_and!.
    + by apply (Hend m3 []); [constructor|rewrite app_nil_r|].
    + intros _. cbn. unfold exit_delay. rewrite He. simpl. lia.
    + intros _. cbn. congruence.
  - set (start := time_of (mo_g m2)). set (sig := g_sigterm (mo_g m3)).
    set (delay := shutdownexitdelay (cfgm m)) in *.
    assert (time_of (mo_g m3) = start + 0) as Ht by (unfold start, time_of; by rewrite Hk3, Z.add_0_r).
    pose proof (ping_loop_keeps (ping_fuel sig delay) sig start 0 m3 Ht) as Hkeep. rewrite Hcf in Hkeep. fold delay in Hkeep.
    pose proof (fun m' => ping_loop_ends (ping_fuel sig delay) sig start 0 m3 m' Ht) as Hruns. rewrite Hcf in Hruns. fold delay in Hruns.
    destruct (ping_loop _ _ _ _) as [m4| | | |m4]; try done; cbn [outcome_bind]; [|by left|].
    + destruct Hkeep as [((a & Ha & Ea) & _ & Hp4 & _) Hb]. destruct (Hend m4 a Ha Ea Hp4) as [_ Hd]. right. right.
      eexists. split; [reflexivity|]. split_and!; [done| |done]. intros Hpos. cbn. unfold exit_delay. fold delay.
      rewrite (proj2 (Z.eqb_neq _ _) He). specialize (Hb ltac:(lia)). lia.
    + destruct Hkeep as [((a & Ha & Ea) & _ & Hp4 & _) _]. destruct (Hend m4 a Ha Ea Hp4) as [Hd _]. right. left.
      exists m4. split; [done|]. split; [done|].
      destruct (Z.le_gt_cases 0 delay) as [Hpos|Hneg].
      * exfalso. apply (Hruns m4); [|done]. destruct sig as [k|] eqn:Es; [left; exists k; split; [done|simpl; lia]|].
        right. simpl. lia.
      * split; [done|]. rewrite <- Hg3. fold sig. destruct sig as [k|] eqn:Es; [|done].
        exfalso. apply (Hruns m4); [|done]. left. exists k. split; [done|simpl; lia].
Qed.

(** C20. A forced shutdown happens, and in time: [forceshutdown] never returns to the main loop.  If SHUTDOWNEXIT is not
    negative or a signal comes, it exits with success after carrying out the shutdown exactly once (the
    parent process told, or the POWERDOWNFLAG file written, when one is configured, and then
    SHUTDOWNCMD run), with only messages before and after; and unless SHUTDOWNEXIT is negative, this takes upsmon no more
    waiting than HOSTSYNC and one second, FINALDELAY, and SHUTDOWNEXIT and one second if it is not 0 (the time that the
    network and the commands take not counted).  The only other outcome is the fault of a read outside the
    array of a server's answer to NUMLOGINS, which needs a UPS that this host is the primary of, or
    SHUTDOWNEXIT.  With SHUTDOWNEXIT negative and no signal, the process may stay in its last loop, after the shutdown was
    carried out all the same. *)
Theorem forceshutdown_ends m :
  let delay := shutdownexitdelay (cfgm m) in
  (forall m', forceshutdown m <> Running m')
  /\ (0 <= delay \/ g_sigterm (mo_g m) <> None ->
      forceshutdown m = Faulted /\ (existsb (fun u => flag_isset (m_status u) ST_PRIMARY) (mo_ups m) = true \/ delay <> 0)
      \/ exists m', forceshutdown m = Exited 0 m' /\ shut_down (mo_g m) (mo_g m')
        /\ (0 <= delay ->
            g_clock (mo_g m') <= g_clock (mo_g m)
              + 1000000 * (Z.max 0 (hostsync (cfgm m) + 1) + Z.max 0 (finaldelay (cfgm m)) + exit_delay (cfgm m))))
  /\ (forall m', forceshutdown m = RunsOn m' -> shut_stays (mo_g m) (mo_g m')).
Proof.
  intros delay. unfold forceshutdown. pose proof (setfsd_all_said (mo_ups m) (mo_g m)) as H.
  destruct (setfsd_all (mo_ups m) (mo_g m)) as [[p us] g]. destruct H as (Hs & Hk & <-).
  assert (cfgm (mkMon us g) = cfgm m) as Hc by apply Hs. assert (g_sigterm g = g_sigterm (mo_g m)) as Hg by apply Hs.
  (* from a state in which the secondaries are gone *)
  assert (forall m1, said g (mo_g m1) -> g_clock (mo_g m1) <= g_clock g + 1000000 * Z.max 0 (hostsync (cfgm m) + 1) ->
    (forall m', doshutdown m1 <> Running m')
    /\ (0 <= delay \/ g_sigterm (mo_g m) <> None ->
        doshutdown m1 = Faulted /\ delay <> 0
        \/ exists m', doshutdown m1 = Exited 0 m' /\ shut_down (mo_g m) (mo_g m')
          /\ (0 <= delay -> g_clock (mo_g m') <= g_clock (mo_g m)
              + 1000000 * (Z.max 0 (hostsync (cfgm m) + 1) + Z.max 0 (finaldelay (cfgm m)) + exit_delay (cfgm m))))
    /\ (forall m', doshutdown m1 = RunsOn m' -> shut_stays (mo_g m) (mo_g m'))) as Hdo.
  { intros m1 Hs1 Hk1. assert (said (mo_g m) (mo_g m1)) as Hsm by (by etrans).
    assert (cfgm m1 = cfgm m) as Hc1 by apply Hsm. assert (g_sigterm (mo_g m1) = g_sigterm (mo_g m)) as Hg1 by apply Hsm.
    destruct (doshutdown_ends m1) as [[-> Hd]|[(m2 & -> & Hs2 & Hd & Hsig)|(m2 & -> & Hs2 & Hk2 & _)]]; rewrite Hc1 in *.
    - split_and!; [done| |done]. intros _. by left.
    - split_and!; [done| |]; [|intros m' [= <-]; by eapply said_shut_stays]. intros [?|Hx]; [unfold delay in *; lia|]. exfalso. apply Hx. congruence.
    - split_and!; [done| |done]. intros _. right. exists m2. split; [done|]. split; [by eapply said_shut_down|].
      intros Hpos. specialize (Hk2 Hpos). lia. }
  destruct p; cbn [negb].
  - destruct (sync_secondaries_ends (mkMon us g)) as [->|(m1 & -> & Hs1 & Hl1 & Hu1)].
    + split_and!; [done| |done]. intros _. left. split; [done|by left].
    + cbn [outcome_bind mo_g] in *. rewrite Hc in Hu1. destruct (Hdo m1 Hs1 Hu1) as (D1 & D2 & D3). split_and!; [done| |done].
      intros Hx. destruct (D2 Hx) as [[-> ?]|?]; [left; split; [done|by left]|by right].
  - destruct (Hdo (mkMon us g)) as (D1 & D2 & D3); [reflexivity|cbn [mo_g]; lia|]. split_and!; [done| |done].
    intros Hx. destruct (D2 Hx) as [[-> ?]|?]; [left; split; [done|by right]|by right].
Qed.

(** SHUTDOWNEXIT 3: the process ends four seconds after the shutdown, nine after the decision. *)
Definition shut_mon : mon :=
  mkMon [s_ups demo_mst] (set_g_conf (s_g demo_mst) (set_shutdownexitdelay demo_mon_conf 3)).

Lemma forceshutdown_ends_witness :
  exists m', forceshutdown shut_mon = Exited 0 m' /\ shut_down (mo_g shut_mon) (mo_g m')
    /\ g_clock (mo_g m') <= g_clock (mo_g shut_mon) + 1000000 * 25.
Proof.
  destruct (forceshutdown_ends shut_mon) as (_ & H & _). destruct H as [[H _]|(m' & E & Hs & Hc)].
  - left. vm_compute. discriminate.
  - vm_compute in H. discriminate H.
  - exists m'. split; [exact E|]. split; [exact Hs|]. apply Hc. vm_compute. discriminate.
Defined.

(** ** The POWERDOWNFLAG file *)

Lemma fgets_prefix n : forall s, LF ∉ take (n - 1) s -> fgets n s = take (n - 1) s.
Proof.
  induction n as [|[|n] IH]; intros s Hs; [by destruct s..|].
  destruct s as [|c s]; [done|]. cbn [Nat.sub take] in *. rewrite not_elem_of_cons in Hs. destruct Hs as [Hc Hs].
  change (fgets (S (S n)) (c :: s)) with (c :: (if Ascii.eqb c LF then [] else fgets (S n) s)).
  f_equal. destruct (Ascii.eqb_spec c LF) as [->|_]; [done|].
  rewrite IH by (cbn [Nat.sub]; by rewrite Nat.sub_0_r). cbn [Nat.sub]. by rewrite Nat.sub_0_r.
Qed.

(** The POWERDOWNFLAG file tells the shutdown scripts, and only the shutdown makes it:
    after [set_pdflag] with a file configured, the check for it succeeds, and clearing removes it, after
    which the check fails; and in any state, clearing unlinks a file only when its contents begin with
    upsmon's own mark, and when they do not, the feature is disabled and the file stays. *)
Theorem pdflag_life junk g fn :
  powerdownflag (g_conf g) = Some fn ->
  let g1 := set_pdflag g in
  let g2 := clear_pdflag junk g1 in
  check_pdflag junk g1 = EXIT_SUCCESS /\ g_pdfile g2 = None /\ check_pdflag junk g2 = EXIT_FAILURE
  /\ (forall contents, g_pdfile g = Some contents -> contents <> [] -> LF ∉ contents ->
      let g' := clear_pdflag junk g in
      if strncmp (c_string (take (SMALLBUF - 1) contents)) SDMAGIC (length SDMAGIC) =? 0
      then g_pdfile g' = None /\ g_out g' = g_out g ++ [OUnlink fn]
      else g_pdfile g' = Some contents /\ g_out g' = g_out g /\ powerdownflag (g_conf g') = None).
Proof.
  intros Hf. assert (pdflag_status junk (set_pdflag g) = 1) as H1.
  { unfold pdflag_status, set_pdflag. rewrite Hf. cbn [g_conf emit set_g_out set_g_pdfile]. rewrite Hf. reflexivity. }
  assert (clear_pdflag junk (set_pdflag g) = emit (OUnlink fn) (set_g_pdfile (set_pdflag g) None)) as H2.
  { unfold clear_pdflag. rewrite H1. unfold set_pdflag. rewrite Hf. cbn [g_conf emit set_g_out set_g_pdfile].
    by rewrite Hf. }
  cbv zeta. split_and!.
  - unfold check_pdflag. by rewrite H1.
  - by rewrite H2.
  - rewrite H2. unfold check_pdflag, pdflag_status, set_pdflag. rewrite Hf. cbn. by rewrite Hf.
  - intros contents Hc Hne Hlf. assert (LF ∉ take (SMALLBUF - 1) contents) as Hlf2.
    { intros Hin. apply Hlf. rewrite <- (take_drop (SMALLBUF - 1) contents). apply elem_of_app. by left. }
    assert (pdflag_status junk g =
      if strncmp (c_string (take (SMALLBUF - 1) contents)) SDMAGIC (length SDMAGIC) =? 0 then 1 else -1) as Hst.
    { unfold pdflag_status. rewrite Hf, Hc. destruct contents; [done|]. by rewrite fgets_prefix. }
    unfold clear_pdflag. rewrite Hst. case_match; cbn; rewrite ?Hf; done.
Qed.

Lemma pdflag_life_witness :
  let g := set_g_pdfile (set_g_conf (s_g demo_mst) (set_powerdownflag demo_mon_conf (Some ($"/etc/killpower"))))
             (Some ($"precious")) in
  check_pdflag [] (set_pdflag g) = EXIT_SUCCESS
  /\ g_pdfile (clear_pdflag [] g) = Some ($"precious").
Proof.
  intros g. destruct (pdflag_life [] g ($"/etc/killpower") eq_refl) as (H1 & _ & _ & H4). split; [exact H1|].
  refine (proj1 (H4 ($"precious") eq_refl _ _)); [discriminate|].
  apply (bool_decide_unpack _). vm_compute. exact I.
Defined.
