(* ===== verification/MonPower.v ===== *)
(** * A power failure, from the server's answers to the shutdown

    One cycle of upsmon's main loop against a server that reports a UPS on battery with a low battery:
    the answers go through the client library, the status through [parse_status], the decision through
    [recalc], and the shutdown is carried out. *)

From S2P Require Import Prelude CStr StrUtil ListenFacts Fmt ParseConf ParseConfFacts UpsClient UpsClientFacts StateTree.
From S2P Require Import MonState MonStatus MonParse MonCrit MonPoll MonFacts MonCritFacts MonShutFacts.
From stdpp Require Import options.

(** ** One query *)

(** The request line that a query sends *)
Definition get_line (q : list bytes) : bytes := render (Bare <$> ($"GET" :: q)) ++ [LF].

(** A query that can be sent as it is *)
Definition plain_query (q : list bytes) : Prop :=
  q <> [] /\ bare_words ($"GET" :: q) /\ (length (render (Bare <$> ($"GET" :: q))) < UPSCLI_NETBUF_LEN - 1)%nat.

Definition plain_value (q : list bytes) (v : token) : Prop :=
  token_ok PCONF_DEFAULT_WORDLEN_LIMIT v /\ (length q + 1 <= PCONF_DEFAULT_ARG_LIMIT)%nat
  /\ (length (render ((Bare <$> q) ++ [v])) < UPSCLI_NETBUF_LEN - 1)%nat
  /\ strncmp (render ((Bare <$> q) ++ [v])) ($"ERR") 3 <> 0 /\ (length (token_word v) < SMALLBUF)%nat.

Lemma get_value c q v rest more :
  usable c -> plain_query q -> plain_value q v ->
  delivers c (render ((Bare <$> q) ++ [v]) ++ LF :: rest) more ->
  exists c', upscli_get c q = Some (0, c') /\ args (cn_ctx c') = q ++ [token_word v]
    /\ p_numargs (cn_ctx c') = (length q + 1)%nat
    /\ usable c' /\ delivers c' rest more /\ nt_sent (cn_net c') = nt_sent (cn_net c) ++ [get_line q].
Proof.
  intros Hu (Hne & Hq & Hql) (Hv & Hn & Hl & Herr & _) Hd.
  destruct (upscli_get_answers c q [v] rest more) as (c' & ?); try done; [by constructor|]. by exists c'.
Qed.

(** [get_var] with an answer that holds a value *)
Lemma get_var_value u upsname var v rest more :
  m_upsname u = Some upsname -> usable (m_conn u) ->
  let q := get_var_query upsname var in
  plain_query q -> plain_value q v ->
  delivers (m_conn u) (render ((Bare <$> q) ++ [v]) ++ LF :: rest) more ->
  exists c', get_var u var SMALLBUF = Some (0, token_word v, set_m_conn u c')
    /\ usable c' /\ delivers c' rest more /\ nt_sent (cn_net c') = nt_sent (cn_net (m_conn u)) ++ [get_line q].
Proof.
  intros Hn Hu q Hq Hv Hd. destruct (get_value _ q v rest more Hu Hq Hv Hd) as (c' & Hg & Ha & Hna & Hu' & Hd' & Hs).
  exists c'. split; [|done]. unfold get_var. rewrite Hn. fold q. destruct q as [|q0 q'] eqn:Eq; [by destruct Hq|].
  rewrite <- Eq in *. rewrite Hg. cbn [mbind option_bind]. cbn [Z.ltb Z.compare].
  change (m_conn (set_m_conn u c')) with c'. rewrite Hna.
  destruct (Nat.ltb_spec (length q + 1) (length q)); [lia|].
  destruct (args_arglist _ _ Ha) as [tl ->].
  replace (((q ++ [token_word v]) ++ tl) !! length q) with (Some (token_word v)); cycle 1.
  { rewrite <- app_assoc, lookup_app_r, Nat.sub_diag by lia. done. }
  cbn [mbind option_bind]. by rewrite snprintf_s_id by (by destruct Hv as (_ & _ & _ & _ & ?)).
Qed.

(** [get_var] with an answer that is an error *)
Lemma get_var_error u upsname var line rest more :
  m_upsname u = Some upsname -> usable (m_conn u) ->
  let q := get_var_query upsname var in
  plain_query q -> LF ∉ line -> no_nul line -> (length line < UPSCLI_NETBUF_LEN - 1)%nat -> strncmp line ($"ERR") 3 = 0 ->
  delivers (m_conn u) (line ++ LF :: rest) more ->
  exists c', get_var u var SMALLBUF = Some (-1, [], set_m_conn u c')
    /\ usable c' /\ delivers c' rest more /\ nt_sent (cn_net c') = nt_sent (cn_net (m_conn u)) ++ [get_line q].
Proof.
  intros Hn Hu q (Hne & Hq & Hql) Hlf Hnul Hl Herr Hd.
  destruct (query_error (m_conn u) ($"GET") q line rest more Hu Hq Hql Hd Hlf Hnul Hl Herr) as (c' & Hg & Hu' & Hd' & Hs).
  exists c'. split; [|done]. unfold get_var. rewrite Hn. fold q. destruct q as [|q0 q'] eqn:Eq; [done|].
  rewrite <- Eq in *. unfold upscli_get. destruct (Nat.ltb_spec (length q) 1) as [Hlt|]; [by rewrite Eq in Hlt; simpl in Hlt; lia|].
  rewrite Hg. done.
Qed.

(** ** One poll *)

(** What a server says about a UPS whose status is [ws] and that has no buzzwords *)
Definition not_supported : bytes := $"ERR VAR-NOT-SUPPORTED".

Definition poll_answers (upsname : bytes) (ws : list bytes) : bytes :=
  render ((Bare <$> get_var_query upsname ($"status")) ++ [Quoted (join_words ws)]) ++ LF ::
  not_supported ++ LF :: not_supported ++ [LF].

(** A name whose requests fit, and a status whose answer does *)
Definition plain_name (upsname : bytes) (ws : list bytes) : Prop :=
  Forall (fun var => plain_query (get_var_query upsname var)) [$"status"; $"buzzword"; $"X-buzzword"; $"numlogins"]
  /\ plain_value (get_var_query upsname ($"status")) (Quoted (join_words ws))
  /\ plain_value (get_var_query upsname ($"numlogins")) (Bare ($"1"))
  /\ (length upsname + 5 < SMALLBUF - 1)%nat.

Lemma poll_answered s upsname ws rest more :
  has s ST_CLICONNECTED = true -> m_upsname (s_ups s) = Some upsname -> usable (m_conn (s_ups s)) -> plain_name upsname ws ->
  delivers (m_conn (s_ups s)) (poll_answers upsname ws ++ rest) more ->
  exists c, pollups s = parse_status (join_words ws) [] [] (upd (fun u =>
        set_m_throttle_count (set_m_throttle_state (set_m_conn u c) UPSCLI_ERR_NONE) (-1)) s)
    /\ usable c /\ delivers c rest more
    /\ nt_sent (cn_net c) = nt_sent (cn_net (m_conn (s_ups s)))
         ++ map (fun var => get_line (get_var_query upsname var)) [$"status"; $"buzzword"; $"X-buzzword"].
Proof.
  intros Hcon Hn Hu (Hq & Hv & _) Hd. rewrite !Forall_cons in Hq. destruct Hq as (Hq1 & Hq2 & Hq3 & _).
  unfold poll_answers in Hd. rewrite <- !app_assoc in Hd. cbn [app] in Hd. rewrite <- !app_assoc in Hd. cbn [app] in Hd.
  rewrite <- !app_assoc in Hd. cbn [app] in Hd.
  assert (LF ∉ not_supported /\ no_nul not_supported /\ (length not_supported < UPSCLI_NETBUF_LEN - 1)%nat
    /\ strncmp not_supported ($"ERR") 3 = 0) as (Hlf & Hnul & Hl & Herr).
  { split_and!; [apply (bool_decide_unpack _); vm_compute; exact I..|by apply Nat.ltb_lt; vm_compute|by vm_compute]. }
  destruct (get_var_value (s_ups s) upsname _ _ _ _ Hn Hu Hq1 Hv Hd) as (c1 & Hg1 & Hu1 & Hd1 & Hs1).
  destruct (get_var_error (set_m_conn (s_ups s) c1) upsname _ _ _ _ Hn Hu1 Hq2 Hlf Hnul Hl Herr Hd1) as (c2 & Hg2 & Hu2 & Hd2 & Hs2).
  destruct (get_var_error (set_m_conn (set_m_conn (s_ups s) c1) c2) upsname _ _ _ _ Hn Hu2 Hq3 Hlf Hnul Hl Herr Hd2)
    as (c3 & Hg3 & Hu3 & Hd3 & Hs3).
  exists c3. split_and!; [|done|done|].
  - unfold pollups. rewrite Hcon. cbn [negb]. unfold poll_var. rewrite Hg1. cbn [mbind option_bind upd s_ups s_g].
    rewrite Hg2. cbn [mbind option_bind upd s_ups s_g]. rewrite Hg3. reflexivity.
  - rewrite Hs3. cbn [m_conn set_m_conn] in *. rewrite Hs2, Hs1, <- !app_assoc. reflexivity.
Qed.

(** ** The decision about a UPS that failed *)

Lemma flag_kept v f g : is_flag f -> is_flag g -> flag_isset v f = true -> flag_isset (setflag v g) f = true.
Proof. intros Hf Hg H. rewrite isset_set by done. by rewrite H, orb_true_r. Qed.

Lemma failed_is_critical now u g :
  flag_isset (m_status u) ST_PRIMARY = true -> flag_isset (m_status u) ST_ONBATT = true ->
  flag_isset (m_status u) ST_LOWBATT = true -> flag_isset (m_status u) ST_CAL = false ->
  oblbdurationtime (g_conf g) <= 0 ->
  critical_now (promoted now g u) = true /\ flag_isset (m_status (s_ups (promoted now g u))) ST_PRIMARY = true
  /\ m_conn (s_ups (promoted now g u)) = m_conn u /\ m_upsname (s_ups (promoted now g u)) = m_upsname u.
Proof.
  intros Hp Hb Hl Hc Hd.
  assert (forall v, (v = m_status u \/ v = setflag (m_status u) ST_LOWBATT) ->
    flag_isset v ST_PRIMARY = true /\ flag_isset v ST_ONBATT = true /\ flag_isset v ST_LOWBATT = true
    /\ flag_isset v ST_CAL = false) as Hv.
  { intros v [->|[= ->]]; [done|]. rewrite !isset_set, Hp, Hb, Hl, Hc by is_flag. done. }
  unfold promoted. case_match; (split_and!; try done).
  - destruct (Hv _ (or_intror eq_refl)) as (H1 & H2 & H3 & H4).
    unfold critical_now, oblb, oblb_elapsed, primary_or_hostsync, has, cfg. simpl.
    rewrite H1, H2, H3, H4. rewrite (proj2 (Z.ltb_ge _ _) Hd). cbn [negb orb andb]. by rewrite orb_true_r.
  - apply (Hv _ (or_intror eq_refl)).
  - unfold critical_now, oblb, oblb_elapsed, primary_or_hostsync, has, cfg. simpl.
    rewrite Hp, Hb, Hl, Hc. rewrite (proj2 (Z.ltb_ge _ _) Hd). cbn [negb orb andb]. by rewrite orb_true_r.
Qed.

(** ** FSD and the secondaries *)

Definition fsd_set : bytes := $"OK FSD-SET".
Definition fsd_line (upsname : bytes) : bytes := $"FSD " ++ upsname ++ [LF].

Lemma setfsd_sent u g upsname rest more :
  m_upsname u = Some upsname -> usable (m_conn u) -> (length upsname + 5 < SMALLBUF - 1)%nat ->
  delivers (m_conn u) (fsd_set ++ LF :: rest) more ->
  exists u' g', setfsd (mkMst u g) = mkMst u' g' /\ m_upsname u' = Some upsname /\ m_status u' = m_status u
    /\ usable (m_conn u') /\ delivers (m_conn u') rest more
    /\ nt_sent (cn_net (m_conn u')) = nt_sent (cn_net (m_conn u)) ++ [fsd_line upsname].
Proof.
  intros Hn Hu Hl Hd. unfold setfsd. cbn [s_ups]. rewrite Hn.
  rewrite snprintf_s_id by (rewrite !length_app; change (length ($"FSD ")) with 4%nat; cbn [length]; lia).
  destruct (sendline_usable (m_conn u) (fsd_line upsname) Hu) as (c1 & Hs & Hu1 & Hsc & Hsent & Hd1);
    [by unfold fsd_line|]. unfold fsd_line in Hs. cbn [app] in Hs |- *. rewrite Hs. cbn [Z.ltb Z.compare].
  destruct Hu1 as (Hc1 & Hfd1 & Hm1 & Hp1 & Hw1).
  destruct (readline_line c1 fsd_set rest more SMALLBUF) as (c2 & -> & Hc2 & (_ & _ & Hfd2 & Hm2 & Hctx2) & Hd2 & Hsent2 & Hw2);
    [done..|by apply Hd1| | | |].
  { apply (bool_decide_unpack _); vm_compute; exact I. } { apply (bool_decide_unpack _); vm_compute; exact I. }
  { by apply Nat.ltb_lt; vm_compute. }
  cbn [Z.ltb Z.compare]. replace (strncmp fsd_set ($"OK") 2 =? 0) with true by (by vm_compute).
  assert (usable c2) as Hu2 by (split_and!; congruence || done).
  case_match; (eexists _, _; split; [reflexivity|]; cbn; split; [exact Hn|split; [done|split; [exact Hu2|split; [exact Hd2|rewrite Hsent2; exact Hsent]]]]).
Qed.

Lemma sync_alone u g upsname rest more :
  m_upsname u = Some upsname -> usable (m_conn u) -> flag_isset (m_status u) ST_PRIMARY = true ->
  plain_query (get_var_query upsname ($"numlogins")) ->
  plain_value (get_var_query upsname ($"numlogins")) (Bare ($"1")) ->
  delivers (m_conn u) (render ((Bare <$> get_var_query upsname ($"numlogins")) ++ [Bare ($"1")]) ++ LF :: rest) more ->
  exists u', sync_secondaries (mkMon [u] g) = Running (mkMon [u'] g)
    /\ nt_sent (cn_net (m_conn u')) = nt_sent (cn_net (m_conn u)) ++ [get_line (get_var_query upsname ($"numlogins"))].
Proof.
  intros Hn Hu Hp Hq Hv Hd.
  destruct (get_var_value u upsname _ _ _ _ Hn Hu Hq Hv Hd) as (c1 & Hg1 & _ & _ & Hs1).
  exists (set_m_conn u c1). split; [|exact Hs1]. unfold sync_secondaries, sync_fuel. cbn [sync_loop mo_ups logins_scan].
  rewrite Hp. unfold numlogins_of. rewrite Hg1. reflexivity.
Qed.

(** C1. A power failure shuts the system down: a primary whose only UPS was reached
    before, and whose server answers the next poll with a status that holds OB (as the last of OL and
    OB) and LB but not CAL, and then accepts FSD and reports no login but this one, ends that very
    cycle of its main loop: it exits with success, the shutdown carried out exactly once with nothing
    but messages before it, after waiting no longer than FINALDELAY (the time of the network not counted), and it has sent
    the three queries of the poll, FSD for the UPS, and one question for the number of logins, in this
    order.  This is for a status of distinct standard words without ALARM, a UPS with no other words known from before and not
    known to be both OL and OB, and a server that answers VAR-NOT-SUPPORTED for the two variables of buzzwords;
    OBLBDURATION is not set, MINSUPPLIES is not 0, SHUTDOWNEXIT is the default, the name and the answers fit the buffers; the
    answers may come in any packets. *)
Theorem power_failure_shuts_down u g upsname ws rest more :
  m_upsname u = Some upsname -> usable (m_conn u) -> plain_name upsname ws ->
  flag_isset (m_status u) ST_CLICONNECTED = true -> flag_isset (m_status u) ST_PRIMARY = true ->
  tk_root (m_tokens u) = None -> line_bits (m_status u) <> (true, true) ->
  ws <> [] -> Forall (fun w => w ∈ std_words) ws -> NoDup ws -> $"ALARM" ∉ ws ->
  (fold_left line_word ws (line_bits (m_status u))).2 = true -> $"LB" ∈ ws -> $"CAL" ∉ ws ->
  conf_sane (g_conf g) -> oblbdurationtime (g_conf g) <= 0 -> 1 <= minsupplies (g_conf g) ->
  shutdownexitdelay (g_conf g) = 0 ->
  delivers (m_conn u) (poll_answers upsname ws ++ fsd_set ++ LF ::
    render ((Bare <$> get_var_query upsname ($"numlogins")) ++ [Bare ($"1")]) ++ LF :: rest) more ->
  exists m' u', main_cycle false (mkMon [u] g) = Exited 0 m' /\ shut_down g (mo_g m')
    /\ g_clock (mo_g m') <= g_clock g + 1000000 * Z.max 0 (finaldelay (g_conf g)) /\ mo_ups m' = [u']
    /\ nt_sent (cn_net (m_conn u')) = nt_sent (cn_net (m_conn u))
         ++ map (fun var => get_line (get_var_query upsname var)) [$"status"; $"buzzword"; $"X-buzzword"]
         ++ [fsd_line upsname; get_line (get_var_query upsname ($"numlogins"))].
Proof.
  intros Hn Hu Hpn Hcon Hpri Htok Hlb Hne Hstd Hnd Hal Hob Hlow Hcal Hsane Hdur Hmin Hexit Hd.
  (* the poll *)
  destruct (poll_answered (mkMst u g) upsname ws _ _ Hcon Hn Hu Hpn Hd) as (c1 & Hpoll & Hu1 & Hd1 & Hs1).
  set (s1 := upd _ (mkMst u g)) in Hpoll.
  destruct (parse_status_effect ws [] [] s1 Hne Hstd Hnd Htok) as
    (s2 & Hparse & Hflags & Hkeep & Hline & _ & _ & _ & Hsaid & Hclock & Hname & Hconn); [done|done|].
  specialize (Hconn Hal). change (m_conn (s_ups s1)) with c1 in Hconn.
  change (s_g s1) with g in Hsaid, Hclock. change (m_upsname (s_ups s1)) with (m_upsname u) in Hname.
  rewrite Hn in Hname.
  assert (g_conf (s_g s2) = g_conf g) as Hcf by apply Hsaid.
  (* the decision *)
  destruct (failed_is_critical (time_of (s_g s2)) (s_ups s2) (s_g s2)) as (Hcrit & Hpri' & Hconn' & Hname').
  { change (has s2 ST_PRIMARY = true). rewrite Hkeep by left. exact Hpri. }
  { change ((line_bits (status_of s2)).2 = true). rewrite Hline. exact Hob. }
  { change (has s2 ST_LOWBATT = true). rewrite (Hflags ($"LB") ST_LOWBATT); [by apply bool_decide_eq_true|left]. }
  { change (has s2 ST_CAL = false). rewrite (Hflags ($"CAL") ST_CAL); [by apply bool_decide_eq_false|].
    apply (bool_decide_unpack _). vm_compute. exact I. }
  { by rewrite Hcf. }
  destruct (recalc_loop_total (time_of (s_g s2)) [s_ups s2] 0 (s_g s2)) as (us' & n & Hrec & Hj); [by rewrite Hcf|done|].
  apply list.Forall2_cons_inv_l in Hj as (u3 & us3 & (t & Hu3) & Hj & ->). apply list.Forall2_nil_inv_l in Hj as ->.
  assert (m_upsname u3 = Some upsname /\ m_conn u3 = c1 /\ flag_isset (m_status u3) ST_PRIMARY = true) as (Hn3 & Hc3 & Hp3).
  { subst u3. cbn. split_and!; [by rewrite Hname'|by rewrite Hconn'|exact Hpri']. }
  assert (sum_supplies (time_of (s_g s2)) (s_g s2) [s_ups s2] = 0) as Hsum.
  { cbn [sum_supplies foldr]. unfold sum_supplies, supplies. cbn [foldr]. by rewrite Hcrit. }
  (* FSD and the secondaries *)
  destruct Hpn as (Hq & _ & Hv & Hl). rewrite !Forall_cons in Hq. destruct Hq as (_ & _ & _ & Hq & _).
  set (g3 := set_g_sleepval (s_g s2) n) in *.
  destruct (setfsd_sent u3 g3 upsname _ more Hn3 ltac:(by rewrite Hc3) Hl ltac:(rewrite Hc3; exact Hd1))
    as (u4 & g4 & Hfsd & Hn4 & Hst4 & Hu4 & Hd4 & Hsent4).
  destruct (setfsd_said (mkMst u3 g3)) as [Hsaid4 Hclock4]. rewrite Hfsd in Hsaid4, Hclock4. cbn [s_g] in Hsaid4, Hclock4.
  destruct (sync_alone u4 g4 upsname rest more Hn4 Hu4 ltac:(by rewrite Hst4) Hq Hv Hd4) as (u5 & Hsync & Hsent5).
  assert (said g g4) as Hgg.
  { etrans; [exact Hsaid|]. etrans; [|exact Hsaid4]. by apply said_quiet. }
  assert (cfgm (mkMon [u5] g4) = g_conf g) as Hcg by exact (proj1 (proj2 Hgg)).
  destruct (doshutdown_ends (mkMon [u5] g4)) as [[_ Hx]|[(m' & _ & _ & Hx & _)|(m' & Hdown & Hsd & Htime & Hups)]];
    rewrite Hcg in *; [congruence|lia|].
  specialize (Htime ltac:(lia)). specialize (Hups Hexit). unfold exit_delay in Htime. rewrite Hexit in Htime.
  exists m', u5. split_and!.
  - unfold main_cycle. cbn [poll_all mo_ups mo_g]. rewrite Hpoll, Hparse. cbn [mbind option_bind].
    unfold recalc. cbn [mo_ups mo_g]. rewrite Hrec, Hsum. cbn [mbind option_bind].
    change (cfgm (mkMon [u3] g3)) with (g_conf (s_g s2)). rewrite Hcf.
    change (wrap32 (0 + 0)) with 0. destruct (Z.ltb_spec 0 (minsupplies (g_conf g))); [|lia].
    unfold forceshutdown. cbn [mo_ups mo_g setfsd_all]. rewrite Hp3, Hfsd. cbn [s_ups s_g negb].
    rewrite Hsync. cbn [outcome_bind]. rewrite Hdown. done.
  - by eapply said_shut_down.
  - change (g_clock g3) with (g_clock (s_g s2)) in Hclock4. cbn [mo_g] in Htime. cbn [Z.eqb] in Htime. lia.
  - exact Hups.
  - rewrite Hsent5, Hsent4, Hc3, Hs1. cbn [m_conn s_ups]. by rewrite <- !app_assoc.
Qed.

Lemma power_failure_shuts_down_witness :
  let stream := poll_answers ($"su700") [$"OB"; $"DISCHRG"; $"LB"] ++ fsd_set ++ LF :: ($"NUMLOGINS su700 1" ++ [LF]) in
  let u := set_m_status (set_m_conn (s_ups demo_mst) (demo_conn [RData stream]))
             (Z.lor ST_CLICONNECTED (Z.lor ST_PRIMARY ST_ONLINE)) in
  let g := set_g_conf (s_g demo_mst) (set_powerdownflag demo_mon_conf (Some ($"/etc/killpower"))) in
  exists m' u', main_cycle false (mkMon [u] g) = Exited 0 m' /\ shut_down g (mo_g m')
    /\ g_clock (mo_g m') <= g_clock g + 1000000 * Z.max 0 (finaldelay (g_conf g)) /\ mo_ups m' = [u']
    /\ nt_sent (cn_net (m_conn u')) =
         [$"GET VAR su700 ups.status" ++ [LF]; $"GET VAR su700 ups.mode.buzzwords" ++ [LF];
          $"GET VAR su700 experimental.ups.mode.buzzwords" ++ [LF]; $"FSD su700" ++ [LF]; $"GET NUMLOGINS su700" ++ [LF]].
Proof.
  intros stream u g.
  refine (power_failure_shuts_down u g ($"su700") [$"OB"; $"DISCHRG"; $"LB"] [] []
    eq_refl (demo_usable _) _ eq_refl eq_refl eq_refl _ _ _ _ _ eq_refl _ _ _ _ _ eq_refl _).
  - split_and!.
    + assert (forall q, bool_decide (bare_words ($"GET" :: q)) && bool_decide (q <> [])
        && (length (render (Bare <$> ($"GET" :: q))) <? UPSCLI_NETBUF_LEN - 1)%nat = true -> plain_query q) as Hq.
      { intros q Hq. rewrite !andb_true_iff in Hq. destruct Hq as [[H1 H2] H3].
        split; [exact (bool_decide_eq_true_1 _ H2)|split; [exact (bool_decide_eq_true_1 _ H1)|by apply Nat.ltb_lt]]. }
      repeat (apply Forall_cons; split; [apply Hq; vm_compute; reflexivity|]). by apply Forall_nil.
    + apply (bool_decide_unpack _). vm_compute. exact I.
    + apply (bool_decide_unpack _). vm_compute. exact I.
    + apply Nat.ltb_lt. vm_compute. reflexivity.
  - discriminate.
  - discriminate.
  - apply (bool_decide_unpack _). vm_compute. exact I.
  - apply (bool_decide_unpack _). vm_compute. exact I.
  - apply (bool_decide_unpack _). vm_compute. exact I.
  - apply (bool_decide_unpack _). vm_compute. exact I.
  - apply (bool_decide_unpack _). vm_compute. exact I.
  - split; [split|]; vm_compute; discriminate.
  - vm_compute. discriminate.
  - vm_compute. discriminate.
  - exists [stream]. split; [apply (bool_decide_unpack _); vm_compute; exact I|split; [reflexivity|by vm_compute]].
Defined.
