(* ===== verification/MonConfFacts.v ===== *)
(** * Theorems about upsmon.conf *)

From S2P Require Import Prelude CStr StrUtil Fmt ParseConf ConfFile UpsClient StateTree.
From S2P Require Import MonState MonStatus MonParse MonCrit MonPoll MonConf MonFacts MonCritFacts.
From stdpp Require Import options.

Lemma atoi_range s : -(INT_MAX + 1) <= atoi s <= INT_MAX.
Proof. unfold atoi. pose proof (wrapS_range 32 (strtol s 10).1.1 ltac:(lia)). unfold INT_MAX. lia. Qed.

Definition sum_pv (us : list utype) : Z := foldr (fun u n => m_pv u + n) 0 us.

Lemma sum_pv_app us vs : sum_pv (us ++ vs) = sum_pv us + sum_pv vs.
Proof. unfold sum_pv. induction us as [|u us IH]; [done|]. cbn [app foldr]. rewrite IH. lia. Qed.

(** What holds of the settings and the list of UPSes while upsmon.conf is read for the first time *)
Record conf_ok (m : mon) : Prop := mkConfOk {
  ok_sane : conf_sane (cfgm m);
  ok_pollfreq : 0 <= pollfreq (cfgm m) <= INT_MAX;
  ok_finaldelay : 0 <= finaldelay (cfgm m) <= INT_MAX;
  ok_minsupplies : 0 <= minsupplies (cfgm m) <= INT_MAX;
  ok_oblb : 0 <= oblbdurationtime (cfgm m);
  ok_totalpv : g_totalpv (mo_g m) = wrap32 (sum_pv (mo_ups m));
  ok_names : NoDup (map m_sys (mo_ups m));
  ok_pv : Forall (fun u => 0 <= m_pv u <= UINT_MAX) (mo_ups m)
}.

Lemma conf_ok_updc f m : conf_ok m ->
  (forall c, conf_sane c -> 0 <= pollfreq c <= INT_MAX -> 0 <= finaldelay c <= INT_MAX -> 0 <= minsupplies c <= INT_MAX ->
    0 <= oblbdurationtime c ->
    conf_sane (f c) /\ 0 <= pollfreq (f c) <= INT_MAX /\ 0 <= finaldelay (f c) <= INT_MAX
    /\ 0 <= minsupplies (f c) <= INT_MAX /\ 0 <= oblbdurationtime (f c)) ->
  conf_ok (updc f m).
Proof. intros [] Hf. destruct (Hf (cfgm m)) as (?&?&?&?&?); [done..|]. by split. Qed.

Ltac conf_tac := apply conf_ok_updc; [assumption|]; intros c [] ????; unfold conf_sane; simpl; lia.

Lemma set_nonneg_ok set a m : conf_ok m ->
  (forall c v, 0 <= v <= INT_MAX -> conf_sane c -> 0 <= pollfreq c <= INT_MAX -> 0 <= finaldelay c <= INT_MAX ->
    0 <= minsupplies c <= INT_MAX -> 0 <= oblbdurationtime c ->
    conf_sane (set c v) /\ 0 <= pollfreq (set c v) <= INT_MAX /\ 0 <= finaldelay (set c v) <= INT_MAX
    /\ 0 <= minsupplies (set c v) <= INT_MAX /\ 0 <= oblbdurationtime (set c v)) ->
  conf_ok (set_nonneg set a m).
Proof.
  intros Hm Hset. unfold set_nonneg. destruct (Z.ltb_spec (atoi a) 0); [done|].
  apply conf_ok_updc; [done|]. intros c ?????. pose proof (atoi_range a). apply Hset; done || lia.
Qed.

Ltac nonneg_tac := apply set_nonneg_ok; [assumption|]; intros c v ? [] ????; unfold conf_sane; simpl; lia.

Lemma conf_arg1_ok a0 a1 rest m m' : conf_ok m -> conf_arg1 a0 a1 rest m = Some m' -> conf_ok m'.
Proof.
  intros Hm. unfold conf_arg1. pose proof (atoi_range a1) as Ha.
  repeat (case_match; [intros [= <-]; first [assumption | nonneg_tac | conf_tac | idtac]|]); try done.
  - case_match; [assumption|]. conf_tac.
  - apply conf_ok_updc; [assumption|]. intros c [] ????. unfold conf_sane. simpl.
    destruct (Z.ltb_spec (atoi a1) 1); lia.
  - destruct (strcaseeq a0 ($"DEBUG_MIN")); [|done]. destruct (str_to_int (Some a1) 10) as [[okk lvl] e]. intros [= <-]. case_match; [conf_tac|assumption].
Qed.

Lemma redefine_in_none sys us : forall g,
  redefine_in sys (fun s => s) us g = if existsb (fun u => streq (m_sys u) sys) us then Some (us, g) else None.
Proof.
  induction us as [|u us IH]; intros g; [done|]. cbn [redefine_in existsb]. destruct (streq (m_sys u) sys); [done|].
  rewrite IH. by destruct (existsb _ us).
Qed.

Lemma addups_ok sys pvs un pw opt m : conf_ok m -> conf_ok (addups false sys pvs un pw opt m).
Proof.
  intros Hm. unfold addups. destruct (Z.ltb_spec (strtol pvs 10).1.1 0); [done|].
  destruct (Z.ltb_spec UINT_MAX (strtol pvs 10).1.1); [done|]. cbn [orb].
  rewrite redefine_in_none. destruct (existsb _ (mo_ups m)) eqn:E; [by destruct m|].
  destruct Hm. split; try done.
  - cbn [mo_g mo_ups g_totalpv set_g_totalpv]. rewrite sum_pv_app, ok_totalpv0, wrap32_add_l.
    f_equal. unfold sum_pv at 3. cbn. lia.
  - cbn [mo_ups]. rewrite map_app. apply NoDup_app. split_and!; [done| |by apply NoDup_singleton].
    intros x Hx. apply list_elem_of_In, in_map_iff in Hx as (u & <- & Hu). cbn. intros Heq. apply list_elem_of_singleton in Heq.
    apply not_true_iff_false in E. apply E, existsb_exists. exists u. split; [done|]. by apply streq_true.
  - apply Forall_app. split; [done|]. constructor; [cbn; lia|constructor].
Qed.

Lemma notify_list_ok f m : conf_ok m -> (forall c, exists l, f c = set_notifylist c l) -> conf_ok (updc f m).
Proof.
  intros Hm Hf. apply conf_ok_updc; [done|]. intros c [] ????. destruct (Hf c) as [l ->]. unfold conf_sane. simpl. lia.
Qed.

Lemma parse_conf_arg_ok arg m r m' : conf_ok m -> parse_conf_arg 0 arg m = Some (r, m') -> conf_ok m'.
Proof.
  intros Hm. unfold parse_conf_arg. destruct arg as [|a0 [|a1 rest]]; [by intros [= _ <-]..|].
  destruct (conf_arg1 a0 a1 rest m) as [m1|] eqn:E1; [intros [= _ <-]; by eapply conf_arg1_ok|].
  destruct rest as [|a2 rest]; [by intros [= _ <-]|].
  case_match; [intros [= _ <-]; apply notify_list_ok; [done|by eexists]|].
  case_match; [intros [= _ <-]; apply notify_list_ok; [done|by eexists]|].
  case_match; [by intros [= _ <-]|].
  destruct rest as [|a3 [|a4 rest]]; [by intros [= _ <-]..|]. case_match; [by intros [= _ <-]|].
  case_match; [|by intros [= _ <-]]. destruct rest as [|a5 rest]; [done|]. intros [= _ <-]. by apply addups_ok.
Qed.

(** C22. Whatever upsmon.conf says, upsmon starts with settings it can work with: from the
    built-in values, reading any file either ends the program or leaves POLLFREQ, POLLFREQALERT,
    FINALDELAY, MINSUPPLIES and OBLBDURATION within [0, INT_MAX] (so that the loop of
    [is_ups_critical] ends, and the deadlines are reached), no UPS listed twice, each power value
    an unsigned int, and the total power value the sum over the listed UPSes modulo 2^32. *)
Theorem startup_config fopen configfile ac hc clock m' :
  loadconfig fopen configfile 0 (mkMon [] (glob_stock (mconf_stock ac hc) clock)) = Some m' -> conf_ok m'.
Proof.
  set (m := mkMon [] _). assert (conf_ok m) as Hm.
  { split; try done; constructor. }
  unfold loadconfig. destruct (fopen configfile); [|done]. cbn [Z.eqb].
  destruct (conf_load fopen configfile (conf_line 0) (Some m)) as [o|] eqn:E; [|done].
  enough (forall m, o = Some m -> conf_ok m) as Ho by (intros Hm2; exact (Ho _ Hm2)).
  refine (conf_load_inv (fun o => forall m, o = Some m -> conf_ok m) _ _ _ _ _ _ _ E).
  - intros o1 arg Ho m1. unfold conf_line. destruct arg as [|a arg]; [apply Ho|].
    intros (m2 & -> & Hr)%bind_Some. apply fmap_Some in Hr as ([r m3] & Hr & ->).
    eapply parse_conf_arg_ok; [by apply Ho|exact Hr].
  - by intros m1 [= <-].
Qed.

Definition demo_upsmon_conf : bytes :=
  $"MONITOR su700@localhost 1 mon secret primary" ++ [LF] ++ $"POLLFREQALERT -7" ++ [LF] ++ $"OBLBDURATION 30" ++ [LF].

Lemma startup_config_witness :
  match loadconfig (fun _ => inl demo_upsmon_conf) ($"upsmon.conf") 0
    (mkMon [] (glob_stock demo_mon_conf 1700000000000000)) with
  | Some m' => conf_ok m' /\ map m_sys (mo_ups m') = [$"su700@localhost"] /\ pollfreqalert (cfgm m') = 5
  | None => False
  end.
Proof.
  pose proof (startup_config (fun _ => inl demo_upsmon_conf) ($"upsmon.conf") (fun _ _ => None) (fun _ _ => None)
    1700000000000000) as H. fold demo_mon_conf in H.
  assert (match loadconfig (fun _ => inl demo_upsmon_conf) ($"upsmon.conf") 0
      (mkMon [] (glob_stock demo_mon_conf 1700000000000000)) with
    | Some m' => bool_decide (map m_sys (mo_ups m') = [$"su700@localhost"]) && (pollfreqalert (cfgm m') =? 5)
    | None => false
    end = true) as Hc by (vm_compute; reflexivity).
  destruct (loadconfig _ _ 0 _) as [m'|]; [|discriminate].
  apply andb_true_iff in Hc as [Hc1 Hc2]. apply bool_decide_eq_true in Hc1. apply Z.eqb_eq in Hc2.
  exact (conj (H m' eq_refl) (conj Hc1 Hc2)).
Defined.
