(* ===== verification/DState.v ===== *)
(** * drivers/dstate.c: the state of a driver and its broadcasts

    The globals of a driver process that the socket protocol touches: the
    variable tree and command list, the connections (a linked list, newest
    first), [errno], which the code uses for control flow, and what the system
    gives: the clock and the outcome of every [write()].

    A function has type [D A]: it maps a state to a result and a new state, or to
    a fault: [UseAfterFree] when the code would follow a pointer to a connection
    that has been freed, [NullDereference] when it would read a C string that is
    [NULL], [OutOfFuel] when the fuel of a recursion is spent; [Exited] when it ends
    the process.  Logging leaves [errno] alone. *)

From S2P Require Import Prelude CStr ParseConf StateTree.
From stdpp Require Import options.

Definition ST_SOCK_BUF_LEN : nat := 512.

(** ** The data *)

(** The values of [errno] that matter here. *)
Inductive io_errno := EZERO | ENOTCONN | EAGAIN | EINTR | EOTHER.

#[export] Instance io_errno_eq_dec : EqDecision io_errno.
Proof. solve_decision. Defined.

(** What [write()] does with the buffer: takes all of it, takes some bytes of it, or fails. *)
Inductive write_result := WFull | WShort (n : nat) | WError (e : io_errno).

(** dstate.h.  [k_id] stands for the address of the structure; [k_nonblock] is the
    [O_NDELAY] flag of the descriptor. *)
Record conn_t := mkConn {
  k_id : nat;
  k_fd : Z;
  k_nonblock : bool;
  k_ctx : PCONF_CTX;
  k_nobroadcast : bool;
  k_readzero : Z;
  k_closing : bool
}.

Definition set_k_ctx (k : conn_t) x := mkConn (k_id k) (k_fd k) (k_nonblock k) x (k_nobroadcast
  k) (k_readzero k) (k_closing k).
Definition set_k_nobroadcast (k : conn_t) x := mkConn (k_id k) (k_fd k) (k_nonblock k) (k_ctx k)
  x (k_readzero k) (k_closing k).
Definition set_k_readzero (k : conn_t) x := mkConn (k_id k) (k_fd k) (k_nonblock k) (k_ctx k)
  (k_nobroadcast k) x (k_closing k).
Definition set_k_closing (k : conn_t) x := mkConn (k_id k) (k_fd k) (k_nonblock k) (k_ctx k)
  (k_nobroadcast k) (k_readzero k) x.
(** The bytes accepted by [write()] on a connection, and [close()]. *)
Inductive dout := Sent (conn : nat) (data : bytes) | Closed (conn : nat).

(** The static variables behind ups.status, ups.alarm and the buzzwords. *)
Record status_t := mkStatus {
  b_status_buf : bytes;
  b_alarm_buf : bytes;
  b_buzzmode_buf : bytes;
  b_alarm_active : Z;
  b_alarm_status : Z;
  b_ignorelb : Z;
  b_alarm_legacy_status : Z
}.

Definition set_b_status_buf (b : status_t) x := mkStatus x (b_alarm_buf b) (b_buzzmode_buf b)
  (b_alarm_active b) (b_alarm_status b) (b_ignorelb b) (b_alarm_legacy_status b).
Definition set_b_alarm_buf (b : status_t) x := mkStatus (b_status_buf b) x (b_buzzmode_buf b)
  (b_alarm_active b) (b_alarm_status b) (b_ignorelb b) (b_alarm_legacy_status b).
Definition set_b_buzzmode_buf (b : status_t) x := mkStatus (b_status_buf b) (b_alarm_buf b) x
  (b_alarm_active b) (b_alarm_status b) (b_ignorelb b) (b_alarm_legacy_status b).
Definition set_b_alarm_active (b : status_t) x := mkStatus (b_status_buf b) (b_alarm_buf b)
  (b_buzzmode_buf b) x (b_alarm_status b) (b_ignorelb b) (b_alarm_legacy_status b).
Definition set_b_alarm_status (b : status_t) x := mkStatus (b_status_buf b) (b_alarm_buf b)
  (b_buzzmode_buf b) (b_alarm_active b) x (b_ignorelb b) (b_alarm_legacy_status b).
Definition set_b_ignorelb (b : status_t) x := mkStatus (b_status_buf b) (b_alarm_buf b)
  (b_buzzmode_buf b) (b_alarm_active b) (b_alarm_status b) x (b_alarm_legacy_status b).
Definition set_b_alarm_legacy_status (b : status_t) x := mkStatus (b_status_buf b) (b_alarm_buf
  b) (b_buzzmode_buf b) (b_alarm_active b) (b_alarm_status b) (b_ignorelb b) x.
(** Globals of drivers/main.c. *)
Record main_t := mkMain {
  m_exit_flag : Z;
  m_reload_flag : Z;
  m_reload_requires_restart : Z;
  m_debug_level : Z;
  m_debug_level_args : Z;
  m_debug_level_global : Z;
  m_debug_level_driver : Z;
  m_debug_level_protocol : Z;
  m_handling_upsdrv_shutdown : Z;
  m_call_depth : Z;
  m_device_sdcommands : option bytes
}.

Definition set_m_exit_flag (m : main_t) x := mkMain x (m_reload_flag m)
  (m_reload_requires_restart m) (m_debug_level m) (m_debug_level_args m) (m_debug_level_global
  m) (m_debug_level_driver m) (m_debug_level_protocol m) (m_handling_upsdrv_shutdown m)
  (m_call_depth m) (m_device_sdcommands m).
Definition set_m_reload_flag (m : main_t) x := mkMain (m_exit_flag m) x
  (m_reload_requires_restart m) (m_debug_level m) (m_debug_level_args m) (m_debug_level_global
  m) (m_debug_level_driver m) (m_debug_level_protocol m) (m_handling_upsdrv_shutdown m)
  (m_call_depth m) (m_device_sdcommands m).
Definition set_m_reload_requires_restart (m : main_t) x := mkMain (m_exit_flag m) (m_reload_flag
  m) x (m_debug_level m) (m_debug_level_args m) (m_debug_level_global m) (m_debug_level_driver
  m) (m_debug_level_protocol m) (m_handling_upsdrv_shutdown m) (m_call_depth m)
  (m_device_sdcommands m).
Definition set_m_debug_level (m : main_t) x := mkMain (m_exit_flag m) (m_reload_flag m)
  (m_reload_requires_restart m) x (m_debug_level_args m) (m_debug_level_global m)
  (m_debug_level_driver m) (m_debug_level_protocol m) (m_handling_upsdrv_shutdown m)
  (m_call_depth m) (m_device_sdcommands m).
Definition set_m_debug_level_global (m : main_t) x := mkMain (m_exit_flag m) (m_reload_flag m)
  (m_reload_requires_restart m) (m_debug_level m) (m_debug_level_args m) x (m_debug_level_driver
  m) (m_debug_level_protocol m) (m_handling_upsdrv_shutdown m) (m_call_depth m)
  (m_device_sdcommands m).
Definition set_m_debug_level_driver (m : main_t) x := mkMain (m_exit_flag m) (m_reload_flag m)
  (m_reload_requires_restart m) (m_debug_level m) (m_debug_level_args m) (m_debug_level_global
  m) x (m_debug_level_protocol m) (m_handling_upsdrv_shutdown m) (m_call_depth m)
  (m_device_sdcommands m).
Definition set_m_debug_level_protocol (m : main_t) x := mkMain (m_exit_flag m) (m_reload_flag m)
  (m_reload_requires_restart m) (m_debug_level m) (m_debug_level_args m) (m_debug_level_global
  m) (m_debug_level_driver m) x (m_handling_upsdrv_shutdown m) (m_call_depth m)
  (m_device_sdcommands m).
Definition set_m_handling_upsdrv_shutdown (m : main_t) x := mkMain (m_exit_flag m)
  (m_reload_flag m) (m_reload_requires_restart m) (m_debug_level m) (m_debug_level_args m)
  (m_debug_level_global m) (m_debug_level_driver m) (m_debug_level_protocol m) x (m_call_depth
  m) (m_device_sdcommands m).
Definition set_m_call_depth (m : main_t) x := mkMain (m_exit_flag m) (m_reload_flag m)
  (m_reload_requires_restart m) (m_debug_level m) (m_debug_level_args m) (m_debug_level_global
  m) (m_debug_level_driver m) (m_debug_level_protocol m) (m_handling_upsdrv_shutdown m) x
  (m_device_sdcommands m).
(** [d_next] numbers the next connection; [d_sync] is [do_synchronous]; [d_writes]
    holds the outcomes of the next calls of [write()] (then [WFull]); [d_out] what
    was written and closed, oldest first. *)
Record dstate := mkD {
  d_root : st_tree;
  d_cmds : list bytes;
  d_stale : Z;
  d_conns : list conn_t;
  d_next : nat;
  d_sockfd : bool;
  d_sync : Z;
  d_errno : io_errno;
  d_now : Z;
  d_writes : list write_result;
  d_out : list dout;
  d_status : status_t;
  d_main : main_t
}.

Definition set_d_root (s : dstate) x := mkD x (d_cmds s) (d_stale s) (d_conns s) (d_next s)
  (d_sockfd s) (d_sync s) (d_errno s) (d_now s) (d_writes s) (d_out s) (d_status s) (d_main s).
Definition set_d_cmds (s : dstate) x := mkD (d_root s) x (d_stale s) (d_conns s) (d_next s)
  (d_sockfd s) (d_sync s) (d_errno s) (d_now s) (d_writes s) (d_out s) (d_status s) (d_main s).
Definition set_d_stale (s : dstate) x := mkD (d_root s) (d_cmds s) x (d_conns s) (d_next s)
  (d_sockfd s) (d_sync s) (d_errno s) (d_now s) (d_writes s) (d_out s) (d_status s) (d_main s).
Definition set_d_conns (s : dstate) x := mkD (d_root s) (d_cmds s) (d_stale s) x (d_next s)
  (d_sockfd s) (d_sync s) (d_errno s) (d_now s) (d_writes s) (d_out s) (d_status s) (d_main s).
Definition set_d_next (s : dstate) x := mkD (d_root s) (d_cmds s) (d_stale s) (d_conns s) x
  (d_sockfd s) (d_sync s) (d_errno s) (d_now s) (d_writes s) (d_out s) (d_status s) (d_main s).
Definition set_d_sockfd (s : dstate) x := mkD (d_root s) (d_cmds s) (d_stale s) (d_conns s)
  (d_next s) x (d_sync s) (d_errno s) (d_now s) (d_writes s) (d_out s) (d_status s) (d_main s).
Definition set_d_sync (s : dstate) x := mkD (d_root s) (d_cmds s) (d_stale s) (d_conns s)
  (d_next s) (d_sockfd s) x (d_errno s) (d_now s) (d_writes s) (d_out s) (d_status s) (d_main
  s).
Definition set_d_errno (s : dstate) x := mkD (d_root s) (d_cmds s) (d_stale s) (d_conns s)
  (d_next s) (d_sockfd s) (d_sync s) x (d_now s) (d_writes s) (d_out s) (d_status s) (d_main s).
Definition set_d_writes (s : dstate) x := mkD (d_root s) (d_cmds s) (d_stale s) (d_conns s)
  (d_next s) (d_sockfd s) (d_sync s) (d_errno s) (d_now s) x (d_out s) (d_status s) (d_main s).
Definition set_d_out (s : dstate) x := mkD (d_root s) (d_cmds s) (d_stale s) (d_conns s) (d_next
  s) (d_sockfd s) (d_sync s) (d_errno s) (d_now s) (d_writes s) x (d_status s) (d_main s).
Definition set_d_status (s : dstate) x := mkD (d_root s) (d_cmds s) (d_stale s) (d_conns s)
  (d_next s) (d_sockfd s) (d_sync s) (d_errno s) (d_now s) (d_writes s) (d_out s) x (d_main s).
Definition set_d_main (s : dstate) x := mkD (d_root s) (d_cmds s) (d_stale s) (d_conns s)
  (d_next s) (d_sockfd s) (d_sync s) (d_errno s) (d_now s) (d_writes s) (d_out s) (d_status s)
  x.
(** ** The monad *)

Inductive fault := UseAfterFree | NullDereference | OutOfFuel | Exited (status : Z).

Definition D (A : Type) : Type := dstate -> fault + A * dstate.

#[export] Instance D_ret : MRet D := fun A a s => inr (a, s).
#[export] Instance D_bind : MBind D := fun A B f m s =>
  match m s with inr (a, s') => f a s' | inl e => inl e end.

Definition throw {A} (e : fault) : D A := fun _ => inl e.
Definition dget {A} (f : dstate -> A) : D A := fun s => inr (f s, s).
Definition dmodify (f : dstate -> dstate) : D unit := fun s => inr (tt, f s).
Definition dwhen (b : bool) (m : D unit) : D unit := if b then m else mret tt.

Definition set_errno (e : io_errno) : D unit := dmodify (fun s => set_d_errno s e).

(** *** Connections *)

Definition conn_find (c : nat) (l : list conn_t) : option conn_t :=
  find (fun k => (k_id k =? c)%nat) l.

(** Reading through a [conn_t *]. *)
Definition conn_get (c : nat) : D conn_t := fun s =>
  match conn_find c (d_conns s) with Some k => inr (k, s) | None => inl UseAfterFree end.

Definition conn_alter (c : nat) (f : conn_t -> conn_t) (l : list conn_t) : list conn_t :=
  map (fun k => if (k_id k =? c)%nat then f k else k) l.

(** An assignment to members of [*conn]. *)
Definition conn_upd (c : nat) (f : conn_t -> conn_t) : D unit :=
  _ ← conn_get c;
  dmodify (fun s => set_d_conns s (conn_alter c f (d_conns s))).

(** [conn->next] *)
Fixpoint conn_next (c : nat) (l : list conn_t) : option nat :=
  match l with
  | [] => None
  | k :: l' => if (k_id k =? c)%nat then k_id <$> head l' else conn_next c l'
  end.

(** [for (conn = start; conn; conn = cnext) { cnext = conn->next; body }] *)
Fixpoint conn_loop (n : nat) (start : option nat) (body : nat -> D unit) : D unit :=
  match start with
  | None => mret tt
  | Some conn =>
      _ ← conn_get conn;
      cnext ← dget (fun s => conn_next conn (d_conns s));
      match n with
      | O => throw OutOfFuel
      | S n' => body conn ;; conn_loop n' cnext body
      end
  end.

(** The loop over all connections: no more rounds than there are connections. *)
Definition each_conn (body : nat -> D unit) : D unit :=
  l ← dget d_conns;
  conn_loop (length l) (k_id <$> head l) body.

(** *** The system *)

(** [write(conn->fd, buf, strlen(buf))] *)
Definition write (conn : nat) (buf : bytes) : D Z :=
  _ ← conn_get conn;
  r ← dget (fun s => default WFull (head (d_writes s)));
  dmodify (fun s => set_d_writes s (tail (d_writes s))) ;;
  let sent (data : bytes) : D Z :=
    dmodify (fun s => set_d_out s (d_out s ++ [Sent conn data])) ;;
    mret (Z.of_nat (length data)) in
  match r with
  | WFull => sent buf
  | WShort n => sent (take n buf)
  | WError e => set_errno e ;; mret (-1)
  end.

(** ** Sending *)

Definition sock_disconnect (conn : nat) : D unit :=
  conn_upd conn (fun k => set_k_closing k true) ;;
  conn_upd conn (fun k => set_k_ctx k (pconf_finish (k_ctx k))) ;;
  dmodify (fun s => set_d_conns (set_d_out s (d_out s ++ [Closed conn]))
                      (filter (fun k => k_id k <> conn) (d_conns s))).

(** The second loop of [send_to_all], and the last one of [dstate_poll_fds]. *)
Definition reap_closing : D unit :=
  each_conn (fun conn => k ← conn_get conn; dwhen (k_closing k) (sock_disconnect conn)).

Definition synchronous_name (do_synchronous : Z) : bytes :=
  if do_synchronous =? 1 then $"yes" else if do_synchronous =? 0 then $"no" else $"auto".

Definition SYNC_VAR : bytes := $"driver.parameter.synchronous".

(** After a failed write: fall back to synchronous mode for the next connections, and publish the
    mode. *)
Definition note_write_failure (setinfo : bytes -> bytes -> D Z) (ret : Z) : D unit :=
  err ← dget d_errno;
  sync ← dget d_sync;
  dwhen ((ret <? 0) && bool_decide (err = EAGAIN) && (sync =? -1)) (dmodify (fun s => set_d_sync s 1)) ;;
  sync ← dget d_sync;
  _ ← setinfo SYNC_VAR (synchronous_name sync);
  mret tt.

Definition write_failed (ret : Z) (buf : bytes) : bool :=
  (ret <? 1) || negb (ret =? Z.of_nat (length buf)).

(** [vdstate_setinfo], given the function that broadcasts; [formatted] is what the format and its
    arguments print. *)
Definition setinfo_with (send : bytes -> D unit) (var formatted : bytes) : D Z :=
  let value := snprintf_s ST_MAX_VALUE_LEN formatted in
  now ← dget d_now;
  t ← dget d_root;
  let '(t', ret) := state_setinfo now t var value in
  dmodify (fun s => set_d_root s t') ;;
  dwhen (ret =? 1) (send ($"SETINFO " ++ var ++ $" " ++ quoted value ++ [LF])) ;;
  mret ret.

(** The body of the first loop of [send_to_all]. *)
Definition send_all_body (setinfo : bytes -> bytes -> D Z) (buf : bytes) (conn : nat) : D unit :=
  k ← conn_get conn;
  if k_nobroadcast k then mret tt
  else
    ret ← write conn buf;
    if write_failed ret buf then
      conn_upd conn (fun k => set_k_closing k true) ;;
      note_write_failure setinfo ret
    else mret tt.

(** [send_to_all] and [dstate_setinfo] call each other when a write fails; [fuel] bounds the depth
    of that nesting.  [msg] is the formatted text. *)
Fixpoint send_to_all_fuel (fuel : nat) (msg : bytes) : D unit :=
  match fuel with
  | O => throw OutOfFuel
  | S fuel' =>
      if Z.of_nat (length msg) <? 1 then mret tt
      else
        let buf := snprintf_s ST_SOCK_BUF_LEN msg in
        each_conn (send_all_body (setinfo_with (send_to_all_fuel fuel')) buf) ;;
        reap_closing ;;
        set_errno EZERO
  end.

(** Three levels are enough, whatever the state: [DStateFacts.broadcasts_terminate]. *)
Definition SEND_DEPTH : nat := 3.

Definition send_to_all (msg : bytes) : D unit := send_to_all_fuel SEND_DEPTH msg.

Definition vdstate_setinfo (var formatted : bytes) : D Z := setinfo_with send_to_all var formatted.
Definition dstate_setinfo (var formatted : bytes) : D Z := vdstate_setinfo var formatted.

Definition send_to_one (conn : nat) (msg : bytes) : D Z :=
  k ← conn_get conn;
  if k_closing k then set_errno ENOTCONN ;; mret (-2)
  else if Z.of_nat (length msg) <? 1 then mret 1
  else
    let buf := snprintf_s ST_SOCK_BUF_LEN msg in
    ret ← write conn buf;
    ret ← (if ret <? 0 then write conn buf else mret ret);
    if write_failed ret buf then
      sock_disconnect conn ;;
      note_write_failure dstate_setinfo ret ;;
      set_errno ENOTCONN ;;
      mret (-2)
    else mret 1.

(** ** The interface for drivers *)

(** [vdstate_addenum] *)
Definition vdstate_addenum (var formatted : bytes) : D Z :=
  let value := snprintf_s ST_MAX_VALUE_LEN formatted in
  now ← dget d_now;
  t ← dget d_root;
  let '(t', ret) := state_addenum now t var value in
  dmodify (fun s => set_d_root s t') ;;
  dwhen (ret =? 1) (send_to_all ($"ADDENUM " ++ var ++ $" " ++ quoted value ++ [LF])) ;;
  mret ret.

Definition dstate_addenum (var formatted : bytes) : D Z := vdstate_addenum var formatted.

(** The list of flag words after the name, in a buffer of [SMALLBUF] bytes. *)
Definition flag_list (var : bytes) (flags : Z) : bytes :=
  let flist := snprintf_s SMALLBUF var in
  let flist := if has_flag flags ST_FLAG_RW then snprintfcat flist SMALLBUF ($" RW") else flist in
  let flist := if has_flag flags ST_FLAG_STRING then snprintfcat flist SMALLBUF ($" STRING") else flist in
  if has_flag flags ST_FLAG_NUMBER then snprintfcat flist SMALLBUF ($" NUMBER") else flist.

Definition dstate_setflags (var : bytes) (flags : Z) : D unit :=
  t ← dget d_root;
  match state_tree_find t var with
  | None => mret tt
  | Some sttmp =>
      if has_flag (n_flags sttmp) ST_FLAG_IMMUTABLE then mret tt
      else if n_flags sttmp =? flags then mret tt
      else
        dmodify (fun s => set_d_root s (tree_update t var (fun n => set_flags n flags))) ;;
        send_to_all ($"SETFLAGS " ++ flag_list var flags ++ [LF])
  end.

Definition dstate_addflags (var : bytes) (addflags : Z) : D unit :=
  t ← dget d_root;
  let flags := state_getflags t var in
  if flags =? -1 then mret tt
  else if Z.land flags addflags =? addflags then mret tt
  else dstate_setflags var (Z.lor flags addflags).

Definition dstate_delflags (var : bytes) (delflags : Z) : D unit :=
  t ← dget d_root;
  let flags := state_getflags t var in
  if flags =? -1 then mret tt
  else if negb (has_flag flags delflags) then mret tt
  else dstate_setflags var (Z.land flags (Z.lnot delflags)).

Definition dstate_addrange (var : bytes) (min max : Z) : D Z :=
  now ← dget d_now;
  t ← dget d_root;
  let '(t', ret) := state_addrange now t var min max in
  dmodify (fun s => set_d_root s t') ;;
  dwhen (ret =? 1)
    (send_to_all ($"ADDRANGE " ++ var ++ $" " ++ show_Z min ++ $" " ++ show_Z max ++ [LF]) ;;
     dstate_addflags var ST_FLAG_NUMBER) ;;
  mret ret.

Definition dstate_setaux (var : bytes) (aux : Z) : D unit :=
  t ← dget d_root;
  match state_tree_find t var with
  | None => mret tt
  | Some sttmp =>
      if n_aux sttmp =? aux then mret tt
      else
        dmodify (fun s => set_d_root s (tree_update t var (fun n => set_aux n aux))) ;;
        send_to_all ($"SETAUX " ++ var ++ $" " ++ show_Z aux ++ [LF])
  end.

Definition dstate_getinfo (var : bytes) : D (option bytes) := dget (fun s => state_getinfo (d_root s) var).

(** [NULL] is looked up as [None]. *)
Definition dstate_tree_find (var : option bytes) : D (option st_node) :=
  dget (fun s => v ← var; state_tree_find (d_root s) v).

(** An operation of state.c on the tree, broadcast as [line] when it returns 1. *)
Definition tree_op (op : st_tree -> st_tree * Z) (line : bytes) : D Z :=
  t ← dget d_root;
  let '(t', ret) := op t in
  dmodify (fun s => set_d_root s t') ;;
  dwhen (ret =? 1) (send_to_all line) ;;
  mret ret.

Definition cmdlist_op (op : list bytes -> list bytes * Z) (line : bytes) : D Z :=
  l ← dget d_cmds;
  let '(l', ret) := op l in
  dmodify (fun s => set_d_cmds s l') ;;
  dwhen (ret =? 1) (send_to_all line) ;;
  mret ret.

Definition dstate_addcmd (cmdname : bytes) : D unit :=
  _ ← cmdlist_op (fun l => state_addcmd l cmdname) ($"ADDCMD " ++ cmdname ++ [LF]); mret tt.

Definition dstate_delinfo (var : bytes) : D Z :=
  tree_op (fun t => state_delinfo t var) ($"DELINFO " ++ var ++ [LF]).

Definition dstate_delinfo_olderthan (var : bytes) (cutoff : option Z) : D Z :=
  tree_op (fun t => state_delinfo_olderthan t var cutoff) ($"DELINFO " ++ var ++ [LF]).

Definition dstate_delenum (var val : bytes) : D Z :=
  now ← dget d_now;
  tree_op (fun t => state_delenum now t var val) ($"DELENUM " ++ var ++ $" " ++ quoted val ++ [LF]).

Definition dstate_delrange (var : bytes) (min max : Z) : D Z :=
  now ← dget d_now;
  tree_op (fun t => state_delrange now t var min max)
    ($"DELRANGE " ++ var ++ $" " ++ show_Z min ++ $" " ++ show_Z max ++ [LF]).

Definition dstate_delcmd (cmd : bytes) : D Z :=
  cmdlist_op (fun l => state_delcmd l cmd) ($"DELCMD " ++ cmd ++ [LF]).

Definition dstate_getroot : D st_tree := dget d_root.
Definition dstate_getcmdlist : D (list bytes) := dget d_cmds.

Definition dstate_dataok : D unit :=
  stale ← dget d_stale;
  dwhen (stale =? 1) (dmodify (fun s => set_d_stale s 0) ;; send_to_all ($"DATAOK" ++ [LF])).

Definition dstate_datastale : D unit :=
  stale ← dget d_stale;
  dwhen (stale =? 0) (dmodify (fun s => set_d_stale s 1) ;; send_to_all ($"DATASTALE" ++ [LF])).

Definition dstate_is_stale : D Z := dget d_stale.

(** *** Shutting down *)

(** [connhead = NULL] comes last; the descriptor of the listening socket becomes invalid. *)
Definition sock_close : D unit :=
  dmodify (fun s => set_d_sockfd s false) ;;
  each_conn sock_disconnect ;;
  dmodify (fun s => set_d_conns s []).

Definition dstate_free : D unit :=
  dmodify (fun s => set_d_cmds (set_d_root s Leaf) []) ;;
  sock_close.

(** The program starts with an empty tree, stale data and no connection. *)
Definition dstate_start (sockfd : bool) (do_synchronous now : Z) : dstate :=
  mkD Leaf [] 1 [] 0 sockfd do_synchronous EZERO now [] []
    (mkStatus [] [] [] 0 0 0 0) (mkMain 0 0 (-1) 0 0 (-1) (-1) (-1) 0 0 None).

Example broadcast_ex :
  let two := [mkConn 1 8 true pconf_init false 0 false; mkConn 0 7 true pconf_init true 0 false] in
  match dstate_setinfo ($"ups.status") ($"OL") (set_d_conns (dstate_start true (-1) 5) two) with
  | inr (ret, s) => (ret, d_out s) = (1, [Sent 1 ($"SETINFO ups.status " ++ quoted ($"OL") ++ [LF])])
  | inl _ => False
  end.
Proof. reflexivity. Qed.
