(* ===== verification/DStateFacts.v ===== *)
(** * Broadcasts of a driver: termination and memory safety

    [dwp E m Q s]: from [s], [m] ends in a result and a state that satisfy [Q], or in
    a fault that [E] allows.  With [E] nowhere true it says that no freed connection
    is used; with [E] true of [UseAfterFree] only, that the fuel suffices. *)

From S2P Require Import Prelude CStr ParseConf StateTree StateFacts DState.
From stdpp Require Import options.

Definition dwp {A} (E : fault -> Prop) (m : D A) (Q : A -> dstate -> Prop) (s : dstate) : Prop :=
  match m s with inl e => E e | inr (a, s') => Q a s' end.

Section Rules.
Context (E : fault -> Prop).

Lemma dwp_ret {A} (a : A) Q s : Q a s -> dwp E (mret a) Q s.
Proof. done. Qed.

Lemma dwp_bind {A B} (m : D A) (f : A -> D B) Q s :
  dwp E m (fun a => dwp E (f a) Q) s -> dwp E (m ≫= f) Q s.
Proof. unfold dwp, mbind, D_bind. by destruct (m s) as [e|[a s']]. Qed.

Lemma dwp_mono {A} (m : D A) (P Q : A -> dstate -> Prop) s :
  dwp E m P s -> (forall a s', P a s' -> Q a s') -> dwp E m Q s.
Proof. unfold dwp. destruct (m s) as [e|[a s']]; auto. Qed.

Lemma dwp_get {A} (f : dstate -> A) Q s : Q (f s) s -> dwp E (dget f) Q s.
Proof. done. Qed.

Lemma dwp_modify f Q s : Q tt (f s) -> dwp E (dmodify f) Q s.
Proof. done. Qed.

Lemma dwp_when (b : bool) m Q s : (if b then dwp E m Q s else Q tt s) -> dwp E (dwhen b m) Q s.
Proof. by destruct b. Qed.

Lemma dwp_conn_get c Q s :
  E UseAfterFree \/ is_Some (conn_find c (d_conns s)) ->
  (forall k, conn_find c (d_conns s) = Some k -> Q k s) -> dwp E (conn_get c) Q s.
Proof.
  unfold dwp, conn_get. intros Hor HQ. destruct (conn_find c (d_conns s)); [by apply HQ|].
  by destruct Hor as [|[? [=]]].
Qed.
End Rules.

(** ** The list of connections *)

Definition ids (s : dstate) : list nat := k_id <$> d_conns s.

(** Addresses of allocated structures differ. *)
Definition conns_ok (s : dstate) : Prop := NoDup (ids s).

Lemma conn_find_elem c l k : conn_find c l = Some k -> k ∈ l /\ k_id k = c.
Proof.
  unfold conn_find. intros [Hin Heq]%find_some. split; [by apply list_elem_of_In|]. by apply Nat.eqb_eq.
Qed.

Lemma conn_find_ids c l : is_Some (conn_find c l) <-> c ∈ k_id <$> l.
Proof.
  rewrite list_elem_of_fmap. split.
  - intros [k [Hk <-]%conn_find_elem]. by eexists.
  - intros (k & -> & Hk). unfold conn_find. destruct (find _ _) eqn:Ef; [done|].
    apply list_elem_of_In in Hk. apply (find_none _ _ Ef) in Hk. by rewrite Nat.eqb_refl in Hk.
Qed.

Lemma conn_alter_ids c f l : (forall k, k_id (f k) = k_id k) -> k_id <$> conn_alter c f l = k_id <$> l.
Proof.
  intros Hf. unfold conn_alter. induction l as [|k l IH]; csimpl; [done|].
  rewrite IH. destruct (_ =? _)%nat; by rewrite ?Hf.
Qed.

(** The connections from [c] on. *)
Fixpoint from (c : nat) (l : list nat) : list nat :=
  match l with [] => [] | x :: l' => if (x =? c)%nat then l else from c l' end.

Lemma from_notin c l : c ∉ l -> from c l = [].
Proof.
  induction l as [|x l IH]; [done|]. intros [Hne Hl]%not_elem_of_cons. simpl.
  by rewrite (proj2 (Nat.eqb_neq x c)), IH by done.
Qed.

Lemma from_sublist c l l' : NoDup l -> sublist l' l -> (length (from c l') <= length (from c l))%nat.
Proof.
  intros Hnd Hs. induction Hs as [|x l1 l2 Hs IH|x l1 l2 Hs IH]; [done| |];
    apply NoDup_cons in Hnd as [Hx Hnd]; simpl; destruct (Nat.eqb_spec x c) as [->|]; auto.
  - simpl. apply le_n_S. by apply sublist_length.
  - rewrite from_notin; [simpl; lia|]. intros Hin. apply Hx. by eapply sublist_subseteq.
Qed.

Lemma conn_next_from c l c' :
  NoDup (k_id <$> l) -> conn_next c l = Some c' ->
  c' ∈ k_id <$> l /\ c' <> c /\ S (length (from c' (k_id <$> l))) = length (from c (k_id <$> l)).
Proof.
  induction l as [|k l IH]; csimpl; [done|]. intros [Hk Hnd]%NoDup_cons.
  destruct (Nat.eqb_spec (k_id k) c) as [<-|Hne]; [|intros Hn].
  - destruct l as [|k2 l]; csimpl; [done|]. intros [= <-].
    apply not_elem_of_cons in Hk as [Hne Hk].
    rewrite !Nat.eqb_refl, (proj2 (Nat.eqb_neq _ _) Hne). split_and!; [right; left|done|done].
  - destruct (IH Hnd Hn) as (Hin & Hc & Hlen).
    assert (k_id k <> c') as Hkc by (intros Heq; apply Hk; by rewrite Heq).
    rewrite (proj2 (Nat.eqb_neq _ _) Hkc). split_and!; [by constructor|done|done].
Qed.

(** A loop over connections, for any invariant: the body may drop connections; unless a use after
    free is allowed, no other one than its own. *)
Lemma conn_loop_dwp (E : fault -> Prop) (I : dstate -> Prop) body :
  (forall s, I s -> conns_ok s) ->
  (forall c s, I s -> c ∈ ids s ->
    dwp E (body c) (fun _ s' => I s' /\ sublist (ids s') (ids s)
      /\ (E UseAfterFree \/ forall x, x <> c -> x ∈ ids s -> x ∈ ids s')) s) ->
  forall n start s, I s ->
  (forall c, start = Some c -> (length (from c (ids s)) <= n)%nat /\ (E UseAfterFree \/ c ∈ ids s)) ->
  dwp E (conn_loop n start body) (fun _ s' => I s' /\ sublist (ids s') (ids s)) s.
Proof.
  intros Hok Hbody n. induction n as [|n IH]; intros [c|] s HI Hst; try by apply dwp_ret.
  all: destruct (Hst c eq_refl) as [Hlen Hl]; simpl; apply dwp_bind, dwp_conn_get;
    [unfold ids in Hl; by rewrite conn_find_ids|intros k [Hk <-]%conn_find_elem];
    assert (k_id k ∈ ids s) as Hin by (unfold ids; apply list_elem_of_fmap; by eexists);
    apply dwp_bind, dwp_get.
  { exfalso. revert Hin Hlen. clear. induction (ids s) as [|x l IH]; simpl; [by intros ?%elem_of_nil|].
    intros [->|Hin]%elem_of_cons; [rewrite Nat.eqb_refl; simpl; lia|].
    destruct (x =? k_id k)%nat; simpl; [lia|auto]. }
  apply dwp_bind. eapply dwp_mono; [by apply Hbody|]. intros _ s' (HI' & Hsub & Hkeep).
  eapply dwp_mono; [apply IH; [done|]|].
  - intros c' Hn. apply conn_next_from in Hn as (Hin' & Hne & Hl'); [|by apply Hok].
    pose proof (from_sublist c' _ _ (Hok _ HI) Hsub). unfold ids in *. split; [lia|naive_solver].
  - intros _ s'' [? ?]. split; [done|]. by etrans.
Qed.

Lemma each_conn_dwp (E : fault -> Prop) (I : dstate -> Prop) body s :
  (forall s, I s -> conns_ok s) ->
  (forall c s, I s -> c ∈ ids s ->
    dwp E (body c) (fun _ s' => I s' /\ sublist (ids s') (ids s)
      /\ (E UseAfterFree \/ forall x, x <> c -> x ∈ ids s -> x ∈ ids s')) s) ->
  I s -> dwp E (each_conn body) (fun _ s' => I s' /\ sublist (ids s') (ids s)) s.
Proof.
  intros Hok Hbody HI. unfold each_conn. apply dwp_bind, dwp_get.
  apply conn_loop_dwp; [done..|]. unfold ids. intros c Hc.
  destruct (d_conns s) as [|k l]; [done|]. injection Hc as <-. csimpl.
  rewrite Nat.eqb_refl. split; [simpl; by rewrite length_fmap|]. right. left.
Qed.

(** ** The published mode *)

(** What driver.parameter.synchronous holds. *)
Definition sync_raw (s : dstate) : option bytes := n_raw <$> state_tree_find (d_root s) SYNC_VAR.

(** How many nested broadcasts of driver.parameter.synchronous can still happen: one if the
    published mode is not the current one, one if the mode can still change. *)
Definition potential (s : dstate) : nat :=
  ((if decide (sync_raw s = Some (synchronous_name (d_sync s))) then 0 else 1)
   + (if (d_sync s =? -1)%Z then 1 else 0))%nat.

Lemma potential_bound s : (potential s <= 2)%nat.
Proof. unfold potential. case_decide; case_match; lia. Qed.

Lemma potential_ext s s' : d_root s' = d_root s -> d_sync s' = d_sync s -> potential s' = potential s.
Proof. unfold potential, sync_raw. by intros -> ->. Qed.

(** Giving up the automatic mode does not add a broadcast. *)
Lemma potential_sync s : d_sync s = -1 -> (potential (set_d_sync s 1) <= potential s)%nat.
Proof.
  intros Hs. unfold potential. rewrite Hs. simpl. case_decide; [lia|]. case_decide; lia.
Qed.

(** Setting a name then finding it: the same descent, whether or not the tree is ordered. *)
Lemma setinfo_find_same now t v val :
  state_tree_find (state_setinfo now t v val).1 v = Some (setinfo_entry now (state_tree_find t v) v val).1
  /\ (state_setinfo now t v val).2 = (setinfo_entry now (state_tree_find t v) v val).2.
Proof.
  induction t as [|n l IHl r IHr].
  { simpl. by rewrite setinfo_new_var, Z.gtb_ltb, strcasecmp_refl. }
  cbn [state_setinfo state_tree_find]. cmp_case (n_var n) v.
  - destruct (state_setinfo now l v val) as [l' ret]. cbn [fst snd state_tree_find] in *. by rewrite E.
  - destruct (state_setinfo now r v val) as [r' ret]. cbn [fst snd state_tree_find] in *. by rewrite E, E0.
  - pose proof (setinfo_node_var now n val) as Hv. simpl setinfo_entry.
    destruct (setinfo_node now n val) as [n' ret]. cbn [fst snd state_tree_find] in *.
    by rewrite Hv, E, E0.
Qed.

(** A value already stored is not stored again; otherwise, when the operation returns 1, the new
    text is stored. *)
Lemma setinfo_entry_ret now o v val :
  let r := setinfo_entry now o v val in
  (r.2 = 1 /\ n_raw r.1 = val /\ n_raw <$> o <> Some val) \/ (r.2 <> 1 /\ n_raw <$> o = Some (n_raw r.1)).
Proof.
  destruct o as [n|]; simpl.
  - unfold setinfo_node. cbn [n_raw st_tree_node_refresh_timestamp]. rewrite streq_spec. case_bool_decide as Heq.
    { right. simpl. by split. }
    destruct (has_flag _ _); [right; simpl; by split|]. left. cbn [fst snd].
    rewrite val_escape_raw. simpl. rewrite grow_fits. split_and!; [done|done|congruence].
  - left. unfold setinfo_new. rewrite val_escape_raw. by split_and!.
Qed.

(** Publishing the current mode: either nothing was to publish, or a broadcast fewer is left. *)
Lemma potential_publish s :
  let r := state_setinfo (d_now s) (d_root s) SYNC_VAR (synchronous_name (d_sync s)) in
  if r.2 =? 1 then (potential (set_d_root s r.1) < potential s)%nat
  else potential (set_d_root s r.1) = potential s.
Proof.
  cbv zeta. destruct (setinfo_find_same (d_now s) (d_root s) SYNC_VAR (synchronous_name (d_sync s))) as [Hf Hr].
  rewrite Hr. unfold potential, sync_raw. cbn [d_root set_d_root d_sync]. rewrite Hf.
  pose proof (setinfo_entry_ret (d_now s) (state_tree_find (d_root s) SYNC_VAR) SYNC_VAR
    (synchronous_name (d_sync s))) as [(-> & Hraw & Hne)|(Hne & ->)]; simpl.
  - rewrite Hraw, decide_True by done. rewrite decide_False by done. lia.
  - by rewrite (proj2 (Z.eqb_neq _ _) Hne).
Qed.

(** ** A computation that only drops connections and nested broadcasts *)

Definition shrinks (s s' : dstate) : Prop :=
  conns_ok s' /\ sublist (ids s') (ids s) /\ (potential s' <= potential s)%nat.

Lemma shrinks_refl s : conns_ok s -> shrinks s s.
Proof. intros. split_and!; [done|done|lia]. Qed.

Lemma shrinks_trans s1 s2 s3 : shrinks s1 s2 -> shrinks s2 s3 -> shrinks s1 s3.
Proof. intros (? & ? & ?) (? & ? & ?). split_and!; [done|by etrans|lia]. Qed.

(** [m] ends, or uses a freed connection; it does not run out of fuel. *)
Definition ends {A} (m : D A) (s : dstate) : Prop :=
  dwp (eq UseAfterFree) m (fun _ s' => shrinks s s') s.

Lemma ends_ret {A} (a : A) s : conns_ok s -> ends (mret a) s.
Proof. apply shrinks_refl. Qed.

Lemma ends_bind {A B} (m : D A) (f : A -> D B) s :
  ends m s -> (forall a s', shrinks s s' -> ends (f a) s') -> ends (m ≫= f) s.
Proof.
  intros Hm Hf. apply dwp_bind. eapply dwp_mono; [exact Hm|]. intros a s' Hs.
  eapply dwp_mono; [by apply Hf|]. intros b s''. by apply shrinks_trans.
Qed.

Lemma ends_get {A} (f : dstate -> A) s : conns_ok s -> ends (dget f) s.
Proof. apply shrinks_refl. Qed.

Lemma ends_conn_get c s : conns_ok s -> ends (conn_get c) s.
Proof. intros. apply dwp_conn_get; [by left|]. intros. by apply shrinks_refl. Qed.

Lemma ends_modify f s :
  conns_ok s -> d_conns (f s) = d_conns s -> (potential (f s) <= potential s)%nat -> ends (dmodify f) s.
Proof.
  intros Hok Hc Hp. unfold ends. apply dwp_modify. unfold shrinks, conns_ok, ids in *. rewrite Hc. by split_and!.
Qed.

Lemma ends_conn_upd c f s : (forall k, k_id (f k) = k_id k) -> conns_ok s -> ends (conn_upd c f) s.
Proof.
  intros Hf Hok. apply ends_bind; [by apply ends_conn_get|]. intros _ s' Hs.
  unfold ends. apply dwp_modify. unfold shrinks, conns_ok, ids in *. simpl. rewrite conn_alter_ids by done.
  split_and!; [apply Hs|done|by apply Nat.eq_le_incl, potential_ext].
Qed.

Lemma ends_when (b : bool) m s : conns_ok s -> ends m s -> ends (dwhen b m) s.
Proof. intros. destruct b; [done|]. by apply ends_ret. Qed.

Ltac same_conns := apply ends_modify; [done|done|by apply Nat.eq_le_incl, potential_ext].

Lemma ends_set_errno e s : conns_ok s -> ends (set_errno e) s.
Proof. intros. same_conns. Qed.

Lemma shrinks_ok s s' : shrinks s s' -> conns_ok s'.
Proof. by intros []. Qed.
#[local] Hint Resolve shrinks_ok : nut.

Lemma ends_write c buf s : conns_ok s -> ends (write c buf) s.
Proof.
  intros Hok. apply ends_bind; [by apply ends_conn_get|]. intros _ s1 H1%shrinks_ok.
  apply ends_bind; [by apply ends_get|]. intros r s2 H2%shrinks_ok.
  apply ends_bind; [same_conns|]. intros _ s3 H3%shrinks_ok.
  destruct r as [|n|e].
  1, 2: apply ends_bind; [same_conns|]; intros; eauto using ends_ret with nut.
  apply ends_bind; [by apply ends_set_errno|]. intros. eauto using ends_ret with nut.
Qed.

Lemma ends_disconnect c s : conns_ok s -> ends (sock_disconnect c) s.
Proof.
  intros Hok. apply ends_bind; [by apply ends_conn_upd|]. intros _ s1 H1%shrinks_ok.
  apply ends_bind; [by apply ends_conn_upd|]. intros _ s2 H2%shrinks_ok.
  unfold ends. apply dwp_modify. unfold shrinks, conns_ok, ids in *. simpl.
  assert (sublist (k_id <$> filter (fun k => k_id k <> c) (d_conns s2)) (k_id <$> d_conns s2)) as Hsub
    by apply fmap_sublist, sublist_filter.
  split_and!; [by eapply sublist_NoDup|done|by apply Nat.eq_le_incl, potential_ext].
Qed.

Lemma ends_each_conn body s :
  (forall c s, conns_ok s -> ends (body c) s) -> conns_ok s -> ends (each_conn body) s.
Proof.
  intros Hbody Hok. unfold ends. eapply dwp_mono.
  - apply (each_conn_dwp _ (fun s' => shrinks s s')); [by intros ? []| |by apply shrinks_refl].
    intros c s' Hs Hc. eapply dwp_mono; [apply Hbody; by destruct Hs|]. intros a s'' Hs''.
    split_and!; [by eapply shrinks_trans|apply Hs''|by left].
  - by intros _ s' [? _].
Qed.

Lemma ends_reap s : conns_ok s -> ends reap_closing s.
Proof.
  apply ends_each_conn. intros c s' Hok. apply ends_bind; [by apply ends_conn_get|].
  intros k s1 H1%shrinks_ok. apply ends_when; [done|]. by apply ends_disconnect.
Qed.

(** ** Depth of the nesting *)

Lemma sync_name_fits z : snprintf_s ST_MAX_VALUE_LEN (synchronous_name z) = synchronous_name z.
Proof. unfold synchronous_name. by repeat case_match. Qed.

(** Reporting a failed write, when the broadcasting function ends from any state with fewer
    broadcasts left. *)
Lemma ends_note_failure send ret s :
  (forall msg s', conns_ok s' -> (potential s' < potential s)%nat -> ends (send msg) s') ->
  conns_ok s -> ends (note_write_failure (setinfo_with send) ret) s.
Proof.
  intros Hsend Hok. apply dwp_bind, dwp_get, dwp_bind, dwp_get, dwp_bind.
  assert (forall s1, shrinks s s1 ->
    dwp (eq UseAfterFree) (sync ← dget d_sync; _ ← setinfo_with send SYNC_VAR (synchronous_name sync); mret tt)
      (fun _ s' => shrinks s s') s1) as Hpub.
  { intros s1 Hs1. apply dwp_bind, dwp_get, dwp_bind. unfold setinfo_with. rewrite sync_name_fits.
    apply dwp_bind, dwp_get, dwp_bind, dwp_get. pose proof (potential_publish s1) as Hp. cbv zeta in Hp.
    destruct (state_setinfo _ _ _ _) as [t' r]. cbn [fst snd] in Hp.
    apply dwp_bind, dwp_modify, dwp_bind, dwp_when.
    assert (shrinks s1 (set_d_root s1 t')) as Hs2.
    { split_and!; [apply Hs1|done|]. destruct (r =? 1); lia. }
    destruct (r =? 1).
    - eapply dwp_mono; [apply Hsend; [apply Hs1|destruct Hs1 as (_ & _ & ?); lia]|].
      intros a s3 Hs3. do 2 apply dwp_ret. eapply shrinks_trans; [exact Hs1|]. by eapply shrinks_trans.
    - do 2 apply dwp_ret. by eapply shrinks_trans. }
  apply dwp_when. destruct (_ && _ && _) eqn:Ec.
  - breflect. apply dwp_modify, Hpub. split_and!; [done|done|by apply potential_sync].
  - apply Hpub. by apply shrinks_refl.
Qed.

Lemma send_to_all_fuel_ends n msg s :
  conns_ok s -> (potential s < n)%nat -> ends (send_to_all_fuel n msg) s.
Proof.
  revert msg s. induction n as [|n IH]; intros msg s Hok Hn; [lia|]. simpl.
  destruct (_ <? 1); [by apply ends_ret|]. apply ends_bind.
  - unfold ends. eapply dwp_mono; [apply (each_conn_dwp _ (shrinks s));
      [by intros ? []| |by apply shrinks_refl]|by intros a s' [? _]].
    intros c s1 Hs1 _. eapply dwp_mono; [instantiate (1 := fun _ s2 => shrinks s1 s2)|
      intros a s2 Hs2; split_and!; [by eapply shrinks_trans|apply Hs2|by left]].
    apply ends_bind; [apply ends_conn_get; by destruct Hs1|]. intros k s2 Hs2.
    destruct (k_nobroadcast k); [apply ends_ret; by destruct Hs2|].
    apply ends_bind; [apply ends_write; by destruct Hs2|]. intros ret s3 Hs3.
    destruct (write_failed ret _); [|apply ends_ret; by destruct Hs3].
    apply ends_bind; [apply ends_conn_upd; [done|by destruct Hs3]|]. intros _ s4 Hs4.
    apply ends_note_failure; [|by destruct Hs4]. intros msg' s5 Hok5 Hp5. apply IH; [done|].
    destruct Hs1 as (_ & _ & ?), Hs2 as (_ & _ & ?), Hs3 as (_ & _ & ?), Hs4 as (_ & _ & ?). lia.
  - intros _ s1 Hs1%shrinks_ok. apply ends_bind; [by apply ends_reap|].
    intros _ s2 Hs2%shrinks_ok. by apply ends_set_errno.
Qed.

Lemma send_to_all_ends msg s : conns_ok s -> ends (send_to_all msg) s.
Proof.
  intros. apply send_to_all_fuel_ends; [done|]. pose proof (potential_bound s). unfold SEND_DEPTH. lia.
Qed.

Lemma send_to_one_ends c msg s : conns_ok s -> ends (send_to_one c msg) s.
Proof.
  intros Hok. apply ends_bind; [by apply ends_conn_get|]. intros k s1 H1%shrinks_ok.
  destruct (k_closing k).
  { apply ends_bind; [by apply ends_set_errno|]. intros _ s2 H2%shrinks_ok. by apply ends_ret. }
  destruct (_ <? 1); [by apply ends_ret|]. cbv zeta.
  apply ends_bind; [by apply ends_write|]. intros ret s2 H2%shrinks_ok.
  apply ends_bind.
  { destruct (ret <? 0); [by apply ends_write|by apply ends_ret]. }
  intros ret' s3 H3%shrinks_ok. destruct (write_failed _ _); [|by apply ends_ret].
  apply ends_bind; [by apply ends_disconnect|]. intros _ s4 H4%shrinks_ok.
  apply ends_bind.
  { apply ends_note_failure; [|done]. intros. by apply send_to_all_ends. }
  intros _ s5 H5%shrinks_ok. apply ends_bind; [by apply ends_set_errno|].
  intros _ s6 H6%shrinks_ok. by apply ends_ret.
Qed.

(** The fuel of broadcasts suffices.  When a write fails, [send_to_all] publishes the I/O mode, which is
    itself a broadcast to the same connections, whose writes may fail in turn, and so on.
    Whatever the state of the driver and whatever every write returns, at most three such
    broadcasts are nested, and every loop over the list of connections, from which the nested
    calls remove members, visits each at most once: neither [send_to_all] nor [send_to_one] runs
    out of the fuel of the model.  Other faults remain: see [nested_broadcast_uses_freed_connection]; and
    [broadcast_exact] says when there are none. *)
Theorem broadcasts_terminate s msg c :
  conns_ok s -> send_to_all msg s <> inl OutOfFuel /\ send_to_one c msg s <> inl OutOfFuel.
Proof.
  intros Hok. pose proof (send_to_all_ends msg s Hok) as H1. pose proof (send_to_one_ends c msg s Hok) as H2.
  unfold ends, dwp in *. split; intros Heq; rewrite Heq in *; done.
Qed.

(** Two clients of a driver in automatic mode, whose next writes would block. *)
Definition two_clients (writes : list write_result) : dstate :=
  set_d_writes (set_d_conns (dstate_start true (-1) 5)
    [mkConn 1 8 true pconf_init false 0 false; mkConn 0 7 true pconf_init false 0 false]) writes.

Lemma broadcasts_terminate_witness :
  send_to_all ($"DATAOK" ++ [LF]) (two_clients [WError EAGAIN; WError EAGAIN; WError EOTHER]) <> inl OutOfFuel.
Proof.
  refine (proj1 (broadcasts_terminate (two_clients [WError EAGAIN; WError EAGAIN; WError EOTHER])
    ($"DATAOK" ++ [LF]) 0 _)).
  apply (bool_decide_unpack _). vm_compute. exact I.
Defined.

(** In automatic mode a broadcast can use a freed connection: when the writes to two clients
    would block, publishing the fall-back to synchronous mode is a nested broadcast, which frees
    both connections while the outer loop still holds a pointer to the second. *)
Theorem nested_broadcast_uses_freed_connection msg :
  msg <> [] ->
  send_to_all msg (two_clients [WError EAGAIN; WFull; WError EAGAIN]) = inl UseAfterFree.
Proof.
  intros Hmsg. unfold send_to_all, SEND_DEPTH.
  change (send_to_all_fuel 3 msg) with
    (if Z.of_nat (length msg) <? 1 then mret tt
     else each_conn (send_all_body (setinfo_with (send_to_all_fuel 2)) (snprintf_s ST_SOCK_BUF_LEN msg)) ;;
       reap_closing ;; set_errno EZERO).
  rewrite (proj2 (Z.ltb_ge _ _)) by (destruct msg; simpl; [done|lia]).
  generalize (snprintf_s ST_SOCK_BUF_LEN msg). intros buf. unfold mbind at 1, D_bind at 1.
  assert (each_conn (send_all_body (setinfo_with (send_to_all_fuel 2)) buf)
    (two_clients [WError EAGAIN; WFull; WError EAGAIN]) = inl UseAfterFree) as -> by (vm_compute; reflexivity).
  done.
Qed.

Lemma nested_broadcast_uses_freed_connection_witness :
  send_to_all ($"DATAOK" ++ [LF]) (two_clients [WError EAGAIN; WFull; WError EAGAIN]) = inl UseAfterFree.
Proof. by apply nested_broadcast_uses_freed_connection. Defined.

(** ** What a broadcast does when nothing is left to publish *)

(** An entry without its timestamp and the sizes of its buffers. *)
Definition view (n : st_node) : bytes * bytes * Z * Z * list bytes * list (Z * Z) :=
  (n_raw n, n_val n, n_flags n, n_aux n, n_enum_list n, n_range_list n).

Definition same_view (t t' : st_tree) : Prop :=
  forall v, view <$> state_tree_find t' v = view <$> state_tree_find t v.

#[export] Instance same_view_equiv : Equivalence same_view.
Proof.
  split; [by intros ? ?|intros ? ? H v; symmetry; apply H|].
  intros t1 t2 t3 H1 H2 v. rewrite H2. apply H1.
Qed.

(** A [state_setinfo] that changes no text changes nothing a reader of the tree can see. *)
Lemma setinfo_same_view now t v val :
  (state_setinfo now t v val).2 <> 1 -> same_view t (state_setinfo now t v val).1.
Proof.
  intros Hr w. revert Hr. induction t as [|n l IHl r IHr]; [done|]. cbn [state_setinfo].
  cmp_case (n_var n) v.
  - destruct (state_setinfo now l v val) as [l' ret]. cbn [fst snd state_tree_find] in *. intros Hr.
    destruct (strcasecmp (n_var n) w >? 0); [by apply IHl|done].
  - destruct (state_setinfo now r v val) as [r' ret]. cbn [fst snd state_tree_find] in *. intros Hr.
    destruct (strcasecmp (n_var n) w >? 0); [done|]. destruct (strcasecmp (n_var n) w <? 0); [by apply IHr|done].
  - unfold setinfo_node. cbn [n_raw n_flags st_tree_node_refresh_timestamp].
    destruct (streq _ _); [|destruct (has_flag _ _)]; simpl; try done; intros _; repeat case_match; done.
Qed.

(** The outcome of the writes: the connections, with [closing] raised where the write failed, the
    bytes sent and the outcomes left. *)
Fixpoint deliver (buf : bytes) (l : list conn_t) (ws : list write_result)
    : list conn_t * list dout * list write_result :=
  match l with
  | [] => ([], [], ws)
  | k :: l' =>
      if k_nobroadcast k then
        let '(ks, outs, ws') := deliver buf l' ws in (k :: ks, outs, ws')
      else
        let r := default WFull (head ws) in
        let '(ks, outs, ws') := deliver buf l' (tail ws) in
        let sent := match r with WFull => [buf] | WShort n => [take n buf] | WError _ => [] end in
        let whole := match r with
                     | WFull => true | WShort n => (length buf <=? n)%nat | WError _ => false
                     end in
        ((if whole then k else set_k_closing k true) :: ks, (Sent (k_id k) <$> sent) ++ outs, ws')
  end.

Definition open_conns (l : list conn_t) : list conn_t := filter (fun k => k_closing k = false) l.
Definition closing_ids (l : list conn_t) : list nat := k_id <$> filter (fun k => k_closing k = true) l.

(** Two states alike but for the connections, the outputs, the outcomes of writes and [errno]. *)
Record same_data (s s' : dstate) : Prop := mkSame {
  sd_root : same_view (d_root s) (d_root s');
  sd_potential : (potential s' = 0)%nat;
  sd_cmds : d_cmds s' = d_cmds s;
  sd_stale : d_stale s' = d_stale s;
  sd_next : d_next s' = d_next s;
  sd_now : d_now s' = d_now s;
  sd_sync : d_sync s' = d_sync s;
  sd_status : d_status s' = d_status s;
  sd_main : d_main s' = d_main s
}.

Lemma same_data_refl s : potential s = 0%nat -> same_data s s.
Proof. by split. Qed.

Lemma same_data_trans s1 s2 s3 : same_data s1 s2 -> same_data s2 s3 -> same_data s1 s3.
Proof. intros [] []. split; congruence. Qed.

Lemma potential_0_sync s : potential s = 0%nat -> (d_sync s =? -1) = false.
Proof. unfold potential. destruct (_ =? _); [case_decide; lia|done]. Qed.

Lemma note_failure_settled send ret s :
  potential s = 0%nat ->
  exists s', note_write_failure (setinfo_with send) ret s = inr (tt, s')
    /\ same_data s s' /\ d_conns s' = d_conns s /\ d_out s' = d_out s /\ d_writes s' = d_writes s.
Proof.
  intros Hp. pose proof (potential_0_sync s Hp) as Hs. pose proof (potential_publish s) as Hpub. cbv zeta in Hpub.
  pose proof (setinfo_same_view (d_now s) (d_root s) SYNC_VAR (synchronous_name (d_sync s))) as Hv.
  unfold note_write_failure, setinfo_with, mbind, D_bind, dget, dwhen.
  rewrite Hs, andb_false_r. unfold mret, D_ret. cbv beta iota. rewrite sync_name_fits.
  destruct (state_setinfo _ _ _ _) as [t' r]. cbn [fst snd] in *.
  destruct (r =? 1) eqn:Hr; [lia|]. apply Z.eqb_neq in Hr. eexists. split; [done|].
  split; [|done]. split; try done; [by apply Hv|lia].
Qed.

Lemma conn_find_at pre k l :
  NoDup (k_id <$> pre ++ k :: l) -> conn_find (k_id k) (pre ++ k :: l) = Some k.
Proof.
  intros Hok. induction pre as [|k' pre IH]; csimpl in *; [by rewrite Nat.eqb_refl|].
  apply NoDup_cons in Hok as [Hk Hok].
  destruct (Nat.eqb_spec (k_id k') (k_id k)) as [Heq|]; [|by apply IH].
  exfalso. apply Hk. rewrite Heq, fmap_app. apply elem_of_app. right. left.
Qed.

Lemma conn_get_at s pre k l :
  conns_ok s -> d_conns s = pre ++ k :: l -> conn_get (k_id k) s = inr (k, s).
Proof. intros Hok Hc. unfold conn_get, conns_ok, ids in *. rewrite Hc in *. by rewrite conn_find_at. Qed.

Lemma conn_alter_at pre k l f :
  NoDup (k_id <$> pre ++ k :: l) -> conn_alter (k_id k) f (pre ++ k :: l) = pre ++ f k :: l.
Proof.
  intros Hok. unfold conn_alter. rewrite map_app. csimpl. rewrite Nat.eqb_refl.
  rewrite fmap_app in Hok. csimpl in Hok. apply NoDup_app in Hok as (_ & Hpre & [Hl _]%NoDup_cons).
  assert (forall l', k_id k ∉ k_id <$> l' -> map (fun k' => if (k_id k' =? k_id k)%nat then f k' else k') l' = l') as Hid.
  { clear. induction l' as [|k' l' IH]; csimpl; [done|]. intros [Hne Hl]%not_elem_of_cons.
    rewrite (proj2 (Nat.eqb_neq _ _)) by done. by rewrite IH. }
  rewrite !Hid; [done|done|]. intros Hin. apply (Hpre _ Hin). left.
Qed.

Lemma conn_next_at pre k l :
  NoDup (k_id <$> pre ++ k :: l) -> conn_next (k_id k) (pre ++ k :: l) = k_id <$> head l.
Proof.
  induction pre as [|k' pre IH]; csimpl; [by rewrite Nat.eqb_refl|]. intros [Hk Hok]%NoDup_cons.
  destruct (Nat.eqb_spec (k_id k') (k_id k)) as [Heq|]; [|by apply IH].
  exfalso. apply Hk. rewrite Heq, fmap_app. apply elem_of_app. right. left.
Qed.

Lemma conn_upd_at s pre k l f :
  conns_ok s -> d_conns s = pre ++ k :: l ->
  conn_upd (k_id k) f s = inr (tt, set_d_conns s (pre ++ f k :: l)).
Proof.
  intros Hok Hc. unfold conn_upd, mbind, D_bind. rewrite (conn_get_at _ _ _ _ Hok Hc). unfold dmodify.
  unfold conns_ok, ids in Hok. rewrite Hc in *. by rewrite conn_alter_at.
Qed.

(** One round of a loop over the connections. *)
Lemma conn_loop_at s pre k l n body :
  conns_ok s -> d_conns s = pre ++ k :: l ->
  conn_loop (S n) (Some (k_id k)) body s = (body (k_id k) ;; conn_loop n (k_id <$> head l) body) s.
Proof.
  intros Hok Hc. simpl. unfold mbind at 1, D_bind at 1. rewrite (conn_get_at _ _ _ _ Hok Hc).
  unfold mbind at 1, D_bind at 1, dget. unfold conns_ok, ids in Hok. rewrite Hc in *. by rewrite conn_next_at.
Qed.

(** The connections and outputs of a state, replaced. *)
Definition after_writes (s : dstate) (cs : list conn_t) (outs : list dout) (ws : list write_result)
    (s' : dstate) : Prop :=
  same_data s s' /\ d_conns s' = cs /\ d_out s' = d_out s ++ outs /\ d_writes s' = ws.

(** What [write] does to the state. *)
Lemma write_at s pre k l buf :
  conns_ok s -> d_conns s = pre ++ k :: l ->
  write (k_id k) buf s =
    let s1 := set_d_writes s (tail (d_writes s)) in
    let sent (data : bytes) := inr (Z.of_nat (length data), set_d_out s1 (d_out s ++ [Sent (k_id k) data])) in
    match default WFull (head (d_writes s)) with
    | WFull => sent buf
    | WShort n => sent (take n buf)
    | WError e => inr (-1, set_d_errno s1 e)
    end.
Proof.
  intros Hok Hc. unfold write, mbind at 1, D_bind at 1. rewrite (conn_get_at _ _ _ _ Hok Hc).
  unfold mbind, D_bind, dget, dmodify. by destruct (default WFull _).
Qed.

Lemma write_failed_full (buf : bytes) : buf <> [] -> write_failed (Z.of_nat (length buf)) buf = false.
Proof.
  intros Hb. unfold write_failed. rewrite Z.eqb_refl. destruct buf; [done|]. simpl length.
  by rewrite (proj2 (Z.ltb_ge _ _)) by lia.
Qed.

Lemma write_failed_short (buf : bytes) n :
  buf <> [] -> write_failed (Z.of_nat (length (take n buf))) buf = negb (length buf <=? n)%nat.
Proof.
  intros Hb. destruct (Nat.leb_spec (length buf) n).
  - rewrite take_ge by done. by apply write_failed_full.
  - unfold write_failed. rewrite length_take. apply orb_true_iff. right. apply negb_true_iff, Z.eqb_neq. lia.
Qed.

(** A connection after a failed write. *)
Lemma fail_write_at send ret s pre k l :
  potential s = 0%nat -> conns_ok s -> d_conns s = pre ++ k :: l ->
  exists s', (conn_upd (k_id k) (fun k => set_k_closing k true) ;;
      note_write_failure (setinfo_with send) ret) s = inr (tt, s')
    /\ after_writes s (pre ++ set_k_closing k true :: l) [] (d_writes s) s'.
Proof.
  intros Hp Hok Hc. unfold mbind, D_bind. rewrite (conn_upd_at _ _ _ _ _ Hok Hc).
  destruct (note_failure_settled send ret (set_d_conns s (pre ++ set_k_closing k true :: l)))
    as (s' & -> & Hs' & Hcs & Ho & Hw); [by rewrite (potential_ext s)|].
  eexists. split; [done|]. split; [|by rewrite app_nil_r].
  eapply same_data_trans; [|exact Hs']. by split.
Qed.

Lemma after_writes_trans s s1 s2 cs1 outs1 ws1 cs2 outs2 ws2 :
  after_writes s cs1 outs1 ws1 s1 -> after_writes s1 cs2 outs2 ws2 s2 ->
  after_writes s cs2 (outs1 ++ outs2) ws2 s2.
Proof.
  intros (H1 & _ & Ho1 & _) (H2 & Hc & Ho2 & Hw). split; [by eapply same_data_trans|].
  by rewrite Ho2, Ho1, app_assoc.
Qed.

Lemma send_all_body_at send buf s pre k l :
  potential s = 0%nat -> conns_ok s -> d_conns s = pre ++ k :: l -> buf <> [] ->
  exists s', send_all_body (setinfo_with send) buf (k_id k) s = inr (tt, s')
    /\ (let '(ks, outs, ws) := deliver buf [k] (d_writes s) in after_writes s (pre ++ ks ++ l) outs ws s').
Proof.
  intros Hp Hok Hc Hbuf. unfold send_all_body, mbind at 1, D_bind at 1. rewrite (conn_get_at _ _ _ _ Hok Hc).
  cbn [deliver]. destruct (k_nobroadcast k).
  { eexists. split; [done|]. split; [by apply same_data_refl|]. by rewrite app_nil_r. }
  unfold mbind at 1, D_bind at 1. rewrite (write_at _ _ _ _ _ Hok Hc). cbv zeta.
  assert (forall s1, d_conns s1 = d_conns s -> d_root s1 = d_root s -> d_sync s1 = d_sync s ->
    d_cmds s1 = d_cmds s -> d_stale s1 = d_stale s -> d_next s1 = d_next s -> d_now s1 = d_now s ->
    d_status s1 = d_status s -> d_main s1 = d_main s ->
    forall outs, d_out s1 = d_out s ++ outs -> d_writes s1 = tail (d_writes s) ->
    after_writes s (pre ++ k :: l) outs (tail (d_writes s)) s1) as Hafter.
  { intros s1 Hc1 Hr Hs ? ? ? ? ? ? outs Ho Hw. split; [|by rewrite Hc1, Hc]. split; try done; [by rewrite Hr|].
    by rewrite (potential_ext s). }
  assert (forall ret s1, d_conns s1 = d_conns s -> potential s1 = 0%nat -> exists s',
    (conn_upd (k_id k) (fun k => set_k_closing k true) ;; note_write_failure (setinfo_with send) ret) s1
      = inr (tt, s') /\ after_writes s1 (pre ++ set_k_closing k true :: l) [] (d_writes s1) s') as Hfail.
  { intros ret s1 Hc1 Hp1. apply fail_write_at; [done| |by rewrite Hc1].
    unfold conns_ok, ids in *. by rewrite Hc1. }
  destruct (default WFull (head (d_writes s))) as [|n|e]; cbv iota beta; csimpl.
  - rewrite write_failed_full by done. eexists. split; [done|]. by apply Hafter.
  - rewrite write_failed_short by done. destruct (length buf <=? n)%nat; simpl.
    + eexists. split; [done|]. by apply Hafter.
    + match goal with |- context [(conn_upd _ _ ;; note_write_failure _ ?ret) ?s1] =>
        destruct (Hfail ret s1) as (s' & -> & Hs'); [done|by rewrite (potential_ext s)|];
        eexists; split; [done|]; rewrite <- (app_nil_r [Sent _ _]);
        eapply after_writes_trans; [|exact Hs']; by apply Hafter
      end.
  - match goal with |- context [(conn_upd _ _ ;; note_write_failure _ ?ret) ?s1] =>
      destruct (Hfail ret s1) as (s' & -> & Hs'); [done|by rewrite (potential_ext s)|];
      eexists; split; [done|]; eapply (after_writes_trans _ s1 _ _ []); [|exact Hs'];
      apply Hafter; by rewrite ?app_nil_r
    end.
Qed.

Lemma deliver_cons buf k l ws :
  deliver buf (k :: l) ws =
    let '(k1, o1, w1) := deliver buf [k] ws in
    let '(ks, o2, w2) := deliver buf l w1 in (k1 ++ ks, o1 ++ o2, w2).
Proof.
  simpl. destruct (k_nobroadcast k); [by destruct (deliver buf l ws) as [[? ?] ?]|].
  destruct (deliver buf l (tail ws)) as [[? ?] ?]. by rewrite app_nil_r.
Qed.

Lemma deliver_ids buf l ws : k_id <$> (deliver buf l ws).1.1 = k_id <$> l.
Proof.
  revert ws. induction l as [|k l IH]; intros ws; [done|]. simpl. destruct (k_nobroadcast k).
  - specialize (IH ws). destruct (deliver buf l ws) as [[? ?] ?]. csimpl in *. by rewrite IH.
  - specialize (IH (tail ws)). destruct (deliver buf l (tail ws)) as [[? ?] ?]. csimpl in *. rewrite IH.
    by case_match.
Qed.

Lemma send_all_loop send buf l : forall pre s,
  potential s = 0%nat -> conns_ok s -> d_conns s = pre ++ l -> buf <> [] ->
  exists s', conn_loop (length l) (k_id <$> head l) (send_all_body (setinfo_with send) buf) s = inr (tt, s')
    /\ (let '(ks, outs, ws) := deliver buf l (d_writes s) in after_writes s (pre ++ ks) outs ws s').
Proof.
  induction l as [|k l IH]; intros pre s Hp Hok Hc Hbuf.
  { eexists. split; [done|]. split; [by apply same_data_refl|]. by rewrite Hc, !app_nil_r. }
  simpl length. simpl head. change (k_id <$> Some k) with (Some (k_id k)).
  rewrite (conn_loop_at _ _ _ _ _ _ Hok Hc). unfold mbind, D_bind.
  destruct (send_all_body_at send buf s pre k l Hp Hok Hc Hbuf) as (s1 & -> & Hs1).
  rewrite deliver_cons. pose proof (deliver_ids buf [k] (d_writes s)) as Hids.
  destruct (deliver buf [k] (d_writes s)) as [[k1 o1] w1]. csimpl in Hids.
  destruct Hs1 as (Hd1 & Hc1 & Ho1 & Hw1).
  assert (conns_ok s1) as Hok1.
  { unfold conns_ok, ids in *. rewrite Hc1. rewrite Hc in Hok. rewrite !fmap_app, Hids in *. done. }
  destruct (IH (pre ++ k1) s1) as (s' & -> & Hs'); [by destruct Hd1|done|by rewrite Hc1, app_assoc|done|].
  eexists. split; [done|]. rewrite Hw1 in Hs'. destruct (deliver buf l w1) as [[ks outs] ws].
  rewrite app_assoc. by eapply after_writes_trans.
Qed.

Lemma sock_disconnect_at s pre k l :
  conns_ok s -> d_conns s = pre ++ k :: l ->
  sock_disconnect (k_id k) s
  = inr (tt, set_d_conns (set_d_out s (d_out s ++ [Closed (k_id k)])) (pre ++ l)).
Proof.
  intros Hok Hc. unfold sock_disconnect, mbind, D_bind. rewrite (conn_upd_at _ _ _ _ _ Hok Hc).
  assert (forall k', k_id k' = k_id k -> conns_ok (set_d_conns s (pre ++ k' :: l))) as Hok1.
  { intros k' Hk'. unfold conns_ok, ids in *. rewrite Hc in Hok. simpl. rewrite fmap_app in *. csimpl in *. by rewrite Hk'. }
  change (k_id k) with (k_id (set_k_closing k true)).
  rewrite (conn_upd_at (set_d_conns s _) pre (set_k_closing k true) l) by (try done; by apply Hok1).
  unfold dmodify. do 2 f_equal. simpl. unfold conns_ok, ids in Hok. rewrite Hc, fmap_app in Hok. csimpl in Hok.
  apply NoDup_app in Hok as (_ & Hpre & [Hl _]%NoDup_cons). f_equal.
  assert (forall l' : list conn_t, k_id k ∉ k_id <$> l' -> filter (fun k' => k_id k' <> k_id k) l' = l') as Hid.
  { clear. induction l' as [|k' l' IH]; csimpl; [done|]. intros [Hne Hl]%not_elem_of_cons.
    rewrite filter_cons_True by done. by rewrite IH. }
  rewrite filter_app, filter_cons_False by (simpl; tauto). rewrite !Hid; [done|done|].
  intros Hin. apply (Hpre _ Hin). left.
Qed.

Lemma reap_loop l : forall pre s,
  conns_ok s -> d_conns s = pre ++ l ->
  conn_loop (length l) (k_id <$> head l)
    (fun conn => k ← conn_get conn; dwhen (k_closing k) (sock_disconnect conn)) s
  = inr (tt, set_d_conns (set_d_out s (d_out s ++ (Closed <$> closing_ids l))) (pre ++ open_conns l)).
Proof.
  induction l as [|k l IH]; intros pre s Hok Hc.
  { simpl. rewrite !app_nil_r in *. rewrite <- Hc. by destruct s. }
  simpl length. simpl head. change (k_id <$> Some k) with (Some (k_id k)).
  rewrite (conn_loop_at _ _ _ _ _ _ Hok Hc). unfold mbind at 1, D_bind at 1. unfold mbind at 1, D_bind at 1.
  rewrite (conn_get_at _ _ _ _ Hok Hc). unfold closing_ids, open_conns in *.
  destruct (k_closing k) eqn:Ek; cbn [dwhen].
  - rewrite (sock_disconnect_at _ _ _ _ Hok Hc). rewrite (IH pre); [| |done].
    + rewrite filter_cons_True, filter_cons_False by (rewrite Ek; done). csimpl.
      by rewrite <- app_assoc.
    + unfold conns_ok, ids in *. rewrite Hc, fmap_app in Hok. simpl. rewrite fmap_app. csimpl in Hok.
      eapply sublist_NoDup; [exact Hok|]. apply sublist_app; [done|]. by constructor.
  - unfold mret, D_ret. rewrite (IH (pre ++ [k])); [|done|by rewrite <- app_assoc].
    rewrite filter_cons_False, filter_cons_True by (rewrite Ek; done).
    by rewrite <- app_assoc.
Qed.

Lemma reap_closing_eq s :
  conns_ok s ->
  reap_closing s = inr (tt, set_d_conns (set_d_out s (d_out s ++ (Closed <$> closing_ids (d_conns s))))
                              (open_conns (d_conns s))).
Proof.
  intros Hok. unfold reap_closing, each_conn, mbind at 1, D_bind at 1, dget. by apply (reap_loop _ []).
Qed.

(** A broadcast when the published I/O mode is current and not automatic: no freed connection
    is used, every broadcast connection is offered the whole line (cut at 511 bytes) in list order,
    exactly the connections whose write was not complete, and those already marked, are closed, the
    others stay as they were, and no variable, command or flag of the driver changes. *)
Theorem broadcast_exact s msg :
  conns_ok s -> potential s = 0%nat -> msg <> [] ->
  let '(ks, outs, ws) := deliver (snprintf_s ST_SOCK_BUF_LEN msg) (d_conns s) (d_writes s) in
  exists s', send_to_all msg s = inr (tt, s') /\ same_data s s' /\ d_errno s' = EZERO
    /\ d_conns s' = open_conns ks /\ d_writes s' = ws
    /\ d_out s' = d_out s ++ outs ++ (Closed <$> closing_ids ks).
Proof.
  intros Hok Hp Hmsg. set (buf := snprintf_s ST_SOCK_BUF_LEN msg).
  assert (buf <> []) as Hbuf by (unfold buf; destruct msg; done).
  destruct (send_all_loop (send_to_all_fuel 2) buf (d_conns s) [] s Hp Hok eq_refl Hbuf) as (s1 & Hrun & Hs1).
  pose proof (deliver_ids buf (d_conns s) (d_writes s)) as Hids.
  destruct (deliver buf (d_conns s) (d_writes s)) as [[ks outs] ws]. simpl in Hids, Hs1.
  destruct Hs1 as (Hd & Hc & Ho & Hw).
  assert (conns_ok s1) as Hok1 by (unfold conns_ok, ids in *; by rewrite Hc, Hids).
  eexists. split.
  { unfold send_to_all, SEND_DEPTH.
    change (send_to_all_fuel 3 msg) with
      (if Z.of_nat (length msg) <? 1 then mret tt
       else each_conn (send_all_body (setinfo_with (send_to_all_fuel 2)) buf) ;; reap_closing ;; set_errno EZERO).
    rewrite (proj2 (Z.ltb_ge _ _)) by (destruct msg; simpl; [done|lia]).
    unfold mbind at 1, D_bind at 1. unfold each_conn at 1, mbind at 1, D_bind at 1, dget at 1. rewrite Hrun.
    unfold mbind at 1, D_bind at 1. rewrite (reap_closing_eq _ Hok1). reflexivity. }
  split_and!; simpl; try done.
  - destruct Hd. by split.
  - by rewrite Hc.
  - by rewrite Ho, Hc, app_assoc.
Qed.

(** Two clients of a driver whose I/O mode is fixed and published; the second has asked for no
    broadcasts, the third one's write is short. *)
Definition settled_driver (writes : list write_result) : dstate :=
  set_d_writes (set_d_conns (set_d_root (dstate_start true 0 5)
      (state_setinfo 1 Leaf SYNC_VAR ($"no")).1)
    [mkConn 2 9 true pconf_init false 0 false; mkConn 1 8 true pconf_init true 0 false;
     mkConn 0 7 true pconf_init false 0 false]) writes.

Lemma broadcast_exact_witness :
  exists s', send_to_all ($"DATAOK" ++ [LF]) (settled_driver [WFull; WShort 3]) = inr (tt, s')
    /\ ids s' = [2%nat; 1%nat]
    /\ d_out s' = [Sent 2 ($"DATAOK" ++ [LF]); Sent 0 ($"DAT"); Closed 0].
Proof.
  destruct (broadcast_exact (settled_driver [WFull; WShort 3]) ($"DATAOK" ++ [LF])) as (s' & Hrun & _ & _ & Hc & _ & Ho).
  - apply (bool_decide_unpack _). vm_compute. exact I.
  - reflexivity.
  - done.
  - exists s'. split; [exact Hrun|]. unfold ids. rewrite Hc, Ho. split; vm_compute; reflexivity.
Defined.
