(* ===== verification/Float64.v ===== *)
(** * The type double of C, and doubles as text

    IEEE binary64 arithmetic with rounding to nearest even, as the Standard Library's executable
    specification of floating point gives it, and the conversions between [double] and the integer types; the conversions of
    common/str.c from text (base 10, the only one in use) with the part of [strtod] they reach, and [d_equal] of
    include/nut_float.h; [printf] with one argument of this type. *)

From S2P Require Import Prelude CStr Fmt StrUtil NumFacts.
From Stdlib Require Import Floats.SpecFloat.
From stdpp Require Import options.

Definition double : Type := spec_float.

Definition f64_prec : Z := 53.
Definition f64_emax : Z := 1024.

Definition f64_add : double -> double -> double := SFadd f64_prec f64_emax.
Definition f64_sub : double -> double -> double := SFsub f64_prec f64_emax.
Definition f64_mul : double -> double -> double := SFmul f64_prec f64_emax.
Definition f64_div : double -> double -> double := SFdiv f64_prec f64_emax.
Definition f64_lt : double -> double -> bool := SFltb.

(** An integer as a [double]. *)
Definition of_long (z : Z) : double := binary_normalize f64_prec f64_emax z 0 false.

(** The integer part; there is none for infinities and NaN. *)
Definition trunc (x : double) : option Z :=
  match x with
  | S754_zero _ => Some 0
  | S754_finite s m e =>
      let mag := if 0 <=? e then Z.pos m * 2 ^ e else Z.pos m / 2 ^ (- e) in
      Some (if s then - mag else mag)
  | _ => None
  end.

(** Conversion to an integer type of [w] bits, which is undefined when the integer part does not fit. *)
Definition to_int (w : Z) (x : double) : option Z :=
  z ← trunc x; if (- 2 ^ (w - 1) <=? z) && (z <? 2 ^ (w - 1)) then Some z else None.

Definition to_long : double -> option Z := to_int 64.

Example to_long_ex : to_long (f64_div (of_long 7) (of_long (-2))) = Some (-3).
Proof. reflexivity. Qed.

(** ** Text as a double: [strtod] and the conversions of common/str.c that use it, for base 10 *)

Definition f64_le : double -> double -> bool := SFleb.
Definition f64_abs : double -> double := SFabs.

(** include/nut_float.h: [d_equal], with [DBL_EPSILON] = 2^-52 *)
Definition DBL_EPSILON : double := S754_finite false 4503599627370496 (-104).
Definition d_equal (x y : double) : bool := f64_le (f64_abs (f64_sub x y)) DBL_EPSILON.

(** [m * 10 ^ e], rounded to the nearest double *)
Definition decimal (neg : bool) (m e : Z) : double :=
  match m with
  | Z.pos p =>
      if 0 <=? e then binary_normalize f64_prec f64_emax (if neg then - (m * 10 ^ e) else m * 10 ^ e) 0 neg
      else match 10 ^ (- e) with
           | Z.pos q => f64_div (S754_finite neg p 0) (S754_finite false q 0)
           | _ => S754_nan
           end
  | _ => S754_zero neg
  end.

(** The smallest positive double with 53 digits *)
Definition DBL_MIN : double := S754_finite false 4503599627370496 (-1074).

(** The decimal numerals of [strtod(s, &end)]: the value, what [end] points to, and [errno].  A number of [n] digits that
    is out of reach of the exponents is not computed; a result that is not zero and below [DBL_MIN] is an underflow. *)
Definition strtod (s : bytes) : double * bytes * errno :=
  let '(neg, s1) := strip_sign (skip_space s) in
  let '(ip, n1, r1) := scan_digits 10 0 s1 in
  let '(m, n2, r2) :=
    match r1 with
    | c :: r => if Ascii.eqb c (chr 46) then scan_digits 10 ip r else (ip, 0%nat, r1)
    | [] => (ip, 0%nat, r1)
    end in
  if (n1 + n2 =? 0)%nat then (S754_zero false, s, E_OK)
  else
    let '(e, r3) :=
      match r2 with
      | c :: r =>
          if Ascii.eqb c (chr 101) || Ascii.eqb c (chr 69) then
            let '(eneg, r) := strip_sign r in
            let '(ev, en, r) := scan_digits 10 0 r in
            if (en =? 0)%nat then (0, r2) else (if eneg then - ev else ev, r)
          else (0, r2)
      | [] => (0, r2)
      end in
    let e10 := e - Z.of_nat n2 in
    if m =? 0 then (S754_zero neg, r3, E_OK)
    else if 400 <? e10 then (S754_infinity neg, r3, E_RANGE)
    else if e10 + Z.of_nat (n1 + n2) <? -400 then (S754_zero neg, r3, E_RANGE)
    else
      let x := decimal neg m e10 in
      match x with
      | S754_infinity _ => (x, r3, E_RANGE)
      | _ => if f64_lt (f64_abs x) DBL_MIN then (x, r3, E_RANGE) else (x, r3, E_OK)
      end.

(** [str_to_double] and [str_to_double_strict] with the base 10: the int result and the number stored. *)
Definition str_to_double_strict (string : bytes) : Z * double :=
  match string with
  | [] => (0, S754_zero false)
  | c :: _ =>
      if space c || negb (forallb (fun c => ascii_in c ($"-+.0123456789Ee")) string) then (0, S754_zero false)
      else
        let '(number, ptr, e) := strtod string in
        if negb (bool_decide (e = E_OK)) || negb (bool_decide (ptr = [])) then (0, S754_zero false) else (1, number)
  end.

Definition str_to_double (string : bytes) : Z * double :=
  match string with [] => (0, S754_zero false) | _ => str_to_double_strict (str_trim_space string) end.

Example strtod_ex1 : str_to_double ($" 12.5 ") = (1, f64_div (of_long 25) (of_long 2)).
Proof. vm_compute. reflexivity. Qed.
Example strtod_ex2 : str_to_double ($"-1e2") = (1, of_long (-100)).
Proof. vm_compute. reflexivity. Qed.
Example strtod_ex3 : (str_to_double ($"0.1")).2 = f64_div (of_long 1) (of_long 10).
Proof. vm_compute. reflexivity. Qed.
Example strtod_ex4 : (str_to_double ($"1e400"), str_to_double ($"0x10"), str_to_double ($"7e"), str_to_double ($".")) =
  ((0, S754_zero false), (0, S754_zero false), (0, S754_zero false), (0, S754_zero false)).
Proof. vm_compute. reflexivity. Qed.
Example strtod_ex5 : (str_to_double ($"9007199254740993")).2 = of_long 9007199254740992.
Proof. vm_compute. reflexivity. Qed.

(** ** Integers of 53 bits are exact. *)

Lemma digits2_bounds p : 2 ^ (Z.pos (digits2_pos p) - 1) <= Z.pos p < 2 ^ Z.pos (digits2_pos p).
Proof.
  induction p as [p IH|p IH|]; simpl; [| |done].
  all: rewrite Pos2Z.inj_succ; replace (Z.succ (Z.pos (digits2_pos p)) - 1) with (Z.succ (Z.pos (digits2_pos p) - 1)) by lia.
  all: rewrite !Z.pow_succ_r by lia; lia.
Qed.

Lemma iter_xO p d : Z.pos (Pos.iter xO p d) = Z.pos p * 2 ^ Z.pos d.
Proof.
  induction d as [|d IH] using Pos.peano_ind; [simpl; lia|].
  rewrite Pos.iter_succ, Pos2Z.inj_succ, Z.pow_succ_r by lia. lia.
Qed.

Lemma digits2_iter p d : digits2_pos (Pos.iter xO p d) = (digits2_pos p + d)%positive.
Proof.
  induction d as [|d IH] using Pos.peano_ind; [by rewrite Pos.add_1_r|].
  rewrite Pos.iter_succ. cbn [digits2_pos]. rewrite IH. lia.
Qed.

(** Rounding has nothing to do for a mantissa of 53 digits. *)
Lemma binary_round_aux_exact s m e :
  Z.pos (digits2_pos m) = 53 -> - 1074 <= e <= 971 ->
  binary_round_aux f64_prec f64_emax s (Z.pos m) e loc_Exact = S754_finite s m e.
Proof.
  intros Hd He. unfold binary_round_aux, shr_fexp, fexp, emin, f64_prec, f64_emax. cbn [Zdigits2 shr_record_of_loc].
  rewrite Hd. replace (Z.max (53 + e - 53) (3 - 1024 - 53) - e) with 0 by lia.
  cbn [shr shr_m shr_r shr_s loc_of_shr_record round_nearest_even Zdigits2 shr_record_of_loc].
  rewrite Hd. replace (Z.max (53 + e - 53) (3 - 1024 - 53) - e) with 0 by lia. cbn [shr shr_m].
  assert (e <=? 1024 - 53 = true) as H by (apply Z.leb_le; lia). by rewrite H.
Qed.

(** A positive number of at most 53 bits, written with 53. *)
Lemma binary_round_exact s p :
  Z.pos p < 2 ^ 53 ->
  exists m k, binary_round f64_prec f64_emax s p 0 = S754_finite s m (- k)
    /\ 0 <= k < 53 /\ Z.pos m = Z.pos p * 2 ^ k /\ Z.pos (digits2_pos m) = 53.
Proof.
  intros Hp. set (k := 53 - Z.pos (digits2_pos p)). pose proof (digits2_bounds p) as [Hlo Hhi].
  assert (0 <= k < 53) as Hk.
  { unfold k. split; [|lia]. destruct (Z.le_gt_cases (Z.pos (digits2_pos p)) 53) as [?|Hgt]; [lia|]. exfalso.
    assert (2 ^ 53 <= 2 ^ (Z.pos (digits2_pos p) - 1)) by (apply Z.pow_le_mono_r; lia). lia. }
  unfold binary_round, fexp, emin.
  replace (Z.max (Z.pos (digits2_pos p) + 0 - f64_prec) (3 - f64_emax - f64_prec)) with (- k)
    by (unfold k, f64_prec, f64_emax; lia).
  unfold shl_align. rewrite Z.sub_0_r. destruct k as [|d|d] eqn:Ek; [| |lia].
  - change (- 0) with 0. cbv beta iota. exists p, 0. rewrite binary_round_aux_exact by (unfold k in Ek; lia). split_and!; [done|lia|lia|lia|unfold k in Ek; lia].
  - change (- Z.pos d) with (Z.neg d). cbv beta iota. exists (Pos.iter xO p d), (Z.pos d).
    rewrite binary_round_aux_exact; [|rewrite digits2_iter; unfold k in Ek; lia|lia].
    split_and!; [done|lia|lia|apply iter_xO|rewrite digits2_iter; unfold k in Ek; lia].
Qed.

Lemma trunc_of_long z : Z.abs z < 2 ^ 53 -> trunc (of_long z) = Some z.
Proof.
  intros Hz. destruct z as [|p|p]; [done| |].
  - destruct (binary_round_exact false p ltac:(lia)) as (m' & k' & E & Hk & Hm & _). unfold of_long. cbn [binary_normalize].
    rewrite E. unfold trunc. destruct (Z.leb_spec 0 (- k')) as [?|?].
    + assert (k' = 0) as -> by lia. simpl. f_equal. lia.
    + rewrite Hm, Z.opp_involutive, Z.div_mul by (apply Z.pow_nonzero; lia). done.
  - destruct (binary_round_exact true p ltac:(lia)) as (m' & k' & E & Hk & Hm & _). unfold of_long. cbn [binary_normalize].
    rewrite E. unfold trunc. destruct (Z.leb_spec 0 (- k')) as [?|?].
    + assert (k' = 0) as -> by lia. simpl. f_equal. lia.
    + rewrite Hm, Z.opp_involutive, Z.div_mul by (apply Z.pow_nonzero; lia). done.
Qed.

(** Converting there and back gives the number again. *)
Lemma to_long_of_long z : Z.abs z < 2 ^ 53 -> to_long (of_long z) = Some z.
Proof.
  intros Hz. unfold to_long, to_int. rewrite trunc_of_long by done. cbn [mbind option_bind].
  assert ((- 2 ^ (64 - 1) <=? z) && (z <? 2 ^ (64 - 1)) = true) as H; [|by rewrite H].
  apply andb_true_iff. rewrite Z.leb_le, Z.ltb_lt. lia.
Qed.

(** ** One *)

(** The numbers that have 53 digits, and zero *)
Definition normal (x : double) : Prop :=
  match x with
  | S754_zero _ => True
  | S754_finite _ m e => Z.pos (digits2_pos m) = 53 /\ - 900 <= e <= 900
  | _ => False
  end.

Lemma digits2_unique p n : 0 <= n -> 2 ^ (n - 1) <= Z.pos p < 2 ^ n -> Z.pos (digits2_pos p) = n.
Proof.
  intros Hn [H1 H2]. pose proof (digits2_bounds p) as [H3 H4].
  destruct (Z.lt_trichotomy (Z.pos (digits2_pos p)) n) as [H|[H|H]]; [|done|].
  - assert (2 ^ Z.pos (digits2_pos p) <= 2 ^ (n - 1)) by (apply Z.pow_le_mono_r; lia). lia.
  - assert (2 ^ n <= 2 ^ (Z.pos (digits2_pos p) - 1)) by (apply Z.pow_le_mono_r; lia). lia.
Qed.

(** Shifting out zeros loses nothing. *)
Lemma shr_zeros n m :
  iter_pos shr_1 n (Build_shr_record (Z.pos m * 2 ^ Z.pos n) false false) = Build_shr_record (Z.pos m) false false.
Proof.
  assert (forall p : positive, shr_1 (Build_shr_record (Z.pos p * 2) false false) = Build_shr_record (Z.pos p) false false) as H1
    by (intros p; by rewrite Z.mul_comm).
  revert m. induction n as [n IH|n IH|]; intros m; cbn [iter_pos].
  - assert (Z.pos m * 2 ^ Z.pos n~1 = Z.pos (Pos.iter xO (Pos.iter xO m n) n) * 2) as ->.
    { rewrite !iter_xO. replace (Z.pos n~1) with (Z.pos n + Z.pos n + 1) by lia. rewrite !Z.pow_add_r by lia. lia. }
    rewrite H1, iter_xO, IH, iter_xO. apply IH.
  - assert (Z.pos m * 2 ^ Z.pos n~0 = Z.pos (Pos.iter xO m n) * 2 ^ Z.pos n) as ->.
    { rewrite !iter_xO. replace (Z.pos n~0) with (Z.pos n + Z.pos n) by lia. rewrite !Z.pow_add_r by lia. lia. }
    rewrite IH, iter_xO. apply IH.
  - apply H1.
Qed.

Lemma binary_round_aux_shift s m n e :
  Z.pos (digits2_pos m) = 53 -> - 1000 <= e + Z.pos n <= 971 ->
  binary_round_aux f64_prec f64_emax s (Z.pos m * 2 ^ Z.pos n) e loc_Exact = S754_finite s m (e + Z.pos n).
Proof.
  intros Hd He. assert (Zdigits2 (Z.pos m * 2 ^ Z.pos n) = 53 + Z.pos n) as Hdn.
  { rewrite <- iter_xO. cbn [Zdigits2]. rewrite digits2_iter. lia. }
  unfold binary_round_aux, shr_fexp, fexp, emin. cbn [shr_record_of_loc]. rewrite Hdn.
  replace (Z.max (53 + Z.pos n + e - f64_prec) (3 - f64_emax - f64_prec) - e) with (Z.pos n) by (unfold f64_prec, f64_emax; lia).
  cbn [shr]. rewrite shr_zeros. cbn [shr_m loc_of_shr_record round_nearest_even Zdigits2]. rewrite Hd.
  replace (Z.max (53 + (e + Z.pos n) - f64_prec) (3 - f64_emax - f64_prec) - (e + Z.pos n)) with 0
    by (unfold f64_prec, f64_emax; lia).
  cbn [shr shr_m]. assert (e + Z.pos n <=? f64_emax - f64_prec = true) as H by (apply Z.leb_le; unfold f64_prec, f64_emax; lia).
  by rewrite H.
Qed.

Lemma f64_mul_one x : normal x -> f64_mul (of_long 1) x = x.
Proof.
  intros Hx. assert (of_long 1 = S754_finite false (2 ^ 52)%positive (- 52)) as -> by reflexivity.
  destruct x as [s| | |s m e]; [done..|]. destruct Hx as [Hd He]. unfold f64_mul, SFmul. rewrite xorb_false_l.
  replace (Z.pos (2 ^ 52 * m)) with (Z.pos m * 2 ^ Z.pos 52) by lia. rewrite binary_round_aux_shift by lia. f_equal. lia.
Qed.

Lemma f64_mul_1_r x : normal x -> f64_mul x (of_long 1) = x.
Proof.
  intros Hx. assert (of_long 1 = S754_finite false (2 ^ 52)%positive (- 52)) as -> by reflexivity.
  destruct x as [s| | |s m e]; [by destruct s|done..|]. destruct Hx as [Hd He]. unfold f64_mul, SFmul. rewrite xorb_false_r.
  replace (Z.pos (m * 2 ^ 52)) with (Z.pos m * 2 ^ Z.pos 52) by lia. rewrite binary_round_aux_shift by lia. f_equal. lia.
Qed.

Lemma f64_div_1_r x : normal x -> f64_div x (of_long 1) = x.
Proof.
  intros Hx. assert (of_long 1 = S754_finite false (2 ^ 52)%positive (- 52)) as -> by reflexivity.
  destruct x as [s| | |s m e]; [by destruct s|done..|]. destruct Hx as [Hd He]. unfold f64_div, SFdiv. rewrite xorb_false_r.
  unfold SFdiv_core_binary. cbn [Zdigits2]. rewrite Hd. change (Z.pos (digits2_pos (2 ^ 52))) with 53.
  unfold fexp, emin.
  replace (Z.min (Z.max (53 + e - (53 + -52) - f64_prec) (3 - f64_emax - f64_prec)) (e - -52)) with (e - 1)
    by (unfold f64_prec, f64_emax; lia).
  replace (e - -52 - (e - 1)) with 53 by lia. rewrite Z.shiftl_mul_pow2 by lia.
  assert (Z.div_eucl (Z.pos m * 2 ^ 53) (Z.pos (2 ^ 52)) = (Z.pos m * 2 ^ Z.pos 1, 0)) as ->.
  { pose proof (Z.div_mod (Z.pos m * 2 ^ 53) (Z.pos (2 ^ 52)) ltac:(lia)) as H.
    pose proof (Z.mod_pos_bound (Z.pos m * 2 ^ 53) (Z.pos (2 ^ 52)) ltac:(lia)) as Hr.
    unfold Z.div, Z.modulo in H, Hr. destruct (Z.div_eucl (Z.pos m * 2 ^ 53) (Z.pos (2 ^ 52))) as [q r].
    f_equal; lia. }
  change (new_location (Z.pos (2 ^ 52)) 0) with loc_Exact. rewrite binary_round_aux_shift by lia. f_equal. lia.
Qed.

Lemma of_long_normal z : Z.abs z < 2 ^ 53 -> normal (of_long z).
Proof.
  intros Hz. destruct z as [|p|p]; [done| |]; unfold of_long; cbn [binary_normalize];
    match goal with |- normal (binary_round _ _ ?s _ _) =>
      destruct (binary_round_exact s p ltac:(lia)) as (m & k & E & Hk & Hm & Hd); rewrite E end; split; lia.
Qed.

(** ** Doubles as text

    [printf] with one argument of type [double]: text, percent signs and one [f] conversion with flags, a width and a
    precision, in the C locale. *)

(** [m * 2 ^ e * 10 ^ prec], to the nearest integer, ties to even *)
Definition scaled (m : positive) (e : Z) (prec : nat) : Z :=
  let a := Z.pos m * 10 ^ Z.of_nat prec in
  if 0 <=? e then a * 2 ^ e
  else
    let b := 2 ^ (- e) in
    let q := a / b in
    match 2 * (a mod b) ?= b with
    | Lt => q
    | Gt => q + 1
    | Eq => if Z.even q then q else q + 1
    end.

(** A number of exactly [n] digits *)
Fixpoint show_digits_n (n : nat) (z : Z) : bytes :=
  match n with O => [] | S n => show_digits_n n (z / 10) ++ [chr (48 + z mod 10)] end.

(** The digits of [%.<prec>f], without a sign *)
Definition fixed_text (q : Z) (prec : nat) : bytes :=
  let p := 10 ^ Z.of_nat prec in
  show_Z (q / p) ++ (if (prec =? 0)%nat then [] else chr 46 :: show_digits_n prec (q mod p)).

(** The sign and the digits *)
Definition fixed (prec : nat) (x : double) : bool * bytes :=
  match x with
  | S754_zero s => (s, fixed_text 0 prec)
  | S754_infinity s => (s, $"inf")
  | S754_nan => (false, $"nan")
  | S754_finite s m e => (s, fixed_text (scaled m e prec) prec)
  end.

Definition is_finite (x : double) : bool := match x with S754_zero _ | S754_finite _ _ _ => true | _ => false end.

(** Flags in front of a conversion *)
Fixpoint read_flags (s : bytes) : bytes * bytes :=
  match s with
  | c :: s' => if fmt_flag c then let '(f, r) := read_flags s' in (c :: f, r) else ([], s)
  | [] => ([], [])
  end.

(** An [f] conversion from after the percent sign; [None] for others. *)
Definition printf_f (fmt : bytes) (x : double) : option (bytes * bytes) :=
  let '(flags, f1) := read_flags fmt in
  let '(width, _, f2) := scan_digits 10 0 f1 in
  let '(prec, f3) :=
    match f2 with
    | c :: f' => if Ascii.eqb c (chr 46) then let '(prec, _, f3) := scan_digits 10 0 f' in (Z.to_nat prec, f3) else (6%nat, f2)
    | [] => (6%nat, f2)
    end in
  match f3 with
  | c :: f4 =>
      if Ascii.eqb c (chr 102) then
        let '(neg, digits) := fixed prec x in
        let digits := if ascii_in (chr 35) flags && (prec =? 0)%nat && is_finite x then digits ++ [chr 46] else digits in
        let sign := if neg then [chr 45] else if ascii_in (chr 43) flags then [chr 43]
                    else if ascii_in (chr 32) flags then [chr 32] else [] in
        let fill := (Z.to_nat width - length (sign ++ digits))%nat in
        let txt :=
          if ascii_in (chr 45) flags then sign ++ digits ++ replicate fill (chr 32)
          else if ascii_in (chr 48) flags && is_finite x then sign ++ replicate fill (chr 48) ++ digits
          else replicate fill (chr 32) ++ sign ++ digits in
        Some (txt, f4)
      else None
  | [] => None
  end.

(** The text of a format; [None] where a conversion has no argument or one of another type, and for
    the other conversions of doubles. *)
Fixpoint printf_double (fuel : nat) (fmt : bytes) (arg : option double) : option bytes :=
  match fuel with
  | O => Some []
  | S fuel =>
      match fmt with
      | [] => Some []
      | c :: rest =>
          if Ascii.eqb c (chr 37) then
            match rest with
            | c' :: rest' =>
                if Ascii.eqb c' (chr 37) then cons (chr 37) <$> printf_double fuel rest' arg
                else
                  x ← arg;
                  '(txt, rest'') ← printf_f rest x;
                  app txt <$> printf_double fuel rest'' None
            | [] => None
            end
          else cons c <$> printf_double fuel rest arg
      end
  end.

Definition sprintf_double (fmt : bytes) (x : double) : option bytes := printf_double (length fmt) fmt (Some x).

Example print_ex1 : sprintf_double ($"%.0f") (f64_div (of_long 5) (of_long 2)) = Some ($"2").
Proof. vm_compute. reflexivity. Qed.
Example print_ex2 : sprintf_double ($"%.1f") (f64_mul (of_long 43) (f64_div (of_long 1) (of_long 10))) = Some ($"4.3").
Proof. vm_compute. reflexivity. Qed.
Example print_ex3 : sprintf_double ($"%f") (f64_div (of_long (-1)) (of_long 3)) = Some ($"-0.333333").
Proof. vm_compute. reflexivity. Qed.
Example print_ex4 : sprintf_double ($"[%+06.2f] 100%%") (of_long 1) = Some ($"[+01.00] 100%").
Proof. vm_compute. reflexivity. Qed.
Example print_ex5 : sprintf_double ($"%d") (of_long 1) = None.
Proof. vm_compute. reflexivity. Qed.
Example print_ex6 : sprintf_double ($"20") (of_long 1) = Some ($"20").
Proof. vm_compute. reflexivity. Qed.

(** ** Integers *)

Lemma scaled_exact m k p : 0 <= k -> Z.pos m = p * 2 ^ k -> scaled m (- k) 0 = p.
Proof.
  intros Hk Hm. unfold scaled. rewrite Z.pow_0_r, Z.mul_1_r, Hm. assert (0 < 2 ^ k) by (apply Z.pow_pos_nonneg; lia).
  destruct (Z.leb_spec 0 (- k)).
  - assert (k = 0) as -> by lia. simpl. lia.
  - rewrite Z.opp_involutive, Z.mod_mul, Z.div_mul by lia. by rewrite Z.mul_0_r, (proj2 (Z.compare_lt_iff 0 _)) by lia.
Qed.

Lemma fixed_of_long z : Z.abs z < 2 ^ 53 -> fixed 0 (of_long z) = (z <? 0, show_Z (Z.abs z)).
Proof.
  intros Hz. assert (forall q, fixed_text q 0 = show_Z q) as Hf.
  { intros q. unfold fixed_text. change (10 ^ Z.of_nat 0) with 1. by rewrite Z.div_1_r, app_nil_r. }
  destruct z as [|p|p]; [done| |].
  - destruct (binary_round_exact false p ltac:(lia)) as (m & k & E & Hk & Hm & _). unfold of_long. cbn [binary_normalize].
    rewrite E. cbn [fixed]. rewrite Hf, (scaled_exact m k (Z.pos p)) by (done || lia). done.
  - destruct (binary_round_exact true p ltac:(lia)) as (m & k & E & Hk & Hm & _). unfold of_long. cbn [binary_normalize].
    rewrite E. cbn [fixed]. rewrite Hf, (scaled_exact m k (Z.pos p)) by (done || lia). done.
Qed.


(** [%.0f] prints an integer as [%ld] does. *)
Lemma print_whole x neg digits :
  fixed 0 x = (neg, digits) -> sprintf_double ($"%.0f") x = Some ((if neg then [chr 45] else []) ++ digits).
Proof.
  intros E. unfold sprintf_double. change (length ($"%.0f")) with 4%nat.
  cbv -[fixed app is_finite replicate length Nat.sub]. rewrite E. destruct neg; cbn; by rewrite app_nil_r.
Qed.

Lemma print_integer z : Z.abs z < 2 ^ 53 -> sprintf_double ($"%.0f") (of_long z) = Some (show_Z z).
Proof.
  intros Hz. rewrite (print_whole _ _ _ (fixed_of_long z Hz)). destruct z as [|p|p]; [done..|]. by rewrite show_neg.
Qed.
