(* ===== verification/DStatus.v ===== *)
(** * drivers/dstate.c: ups.status, ups.alarm and the buzzwords

    A driver builds the status in a buffer, token by token, and then publishes it.
    [status_commit] compares battery.charge with its value at the beginning of the loop of main.c, which is an
    argument, [previous_battery_charge_value]; [remember_charge] is what main.c does with it. *)

From S2P Require Import Prelude CStr ParseConf StateTree Tokens Float64 DState.
From stdpp Require Import options.

Definition status_get_field {A} (f : status_t -> A) : D A := dget (fun s => f (d_status s)).
Definition status_upd (f : status_t -> status_t) : D unit := dmodify (fun s => set_d_status s (f (d_status s))).

Definition status_init : D unit :=
  flag ← dstate_getinfo ($"driver.flag.ignorelb");
  status_upd (fun b => set_b_ignorelb b (match flag with Some _ => 1 | None => 0 end)) ;;
  status_upd (fun b => set_b_status_buf b []) ;;
  status_upd (fun b => set_b_alarm_status b 0) ;;
  status_upd (fun b => set_b_alarm_legacy_status b 0).

Definition status_get (buf : bytes) : D bool :=
  b ← status_get_field b_status_buf; mret (str_contains_token (Some b) (Some buf)).

(** [legacy] is [alarm_legacy_status]. *)
Definition status_set_callback (ignorelb : Z) : @callback Z := fun tgt token legacy =>
  if negb (ignorelb =? 0) && strcaseeq token ($"LB") then (legacy, 0)
  else if strcaseeq token ($"ALARM") then (1, 0)
  else (legacy, 1).

Definition status_set (buf : bytes) : D unit :=
  b ← status_get_field id;
  let '(tgt, legacy, _) :=
    str_add_unique_token ST_MAX_VALUE_LEN (Some (status_set_callback (b_ignorelb b))) None
      (b_status_buf b) buf (b_alarm_legacy_status b) in
  status_upd (fun b => set_b_alarm_legacy_status (set_b_status_buf b tgt) legacy).

(** Is the value below its threshold? Both must be known. *)
Definition below (val low : option bytes) : bool :=
  match val, low with
  | Some val, Some low => (strtol val 10).1.1 <? (strtol low 10).1.1
  | _, _ => false
  end.

(** main.c: the new value of [previous_battery_charge_value], which is -1 at first *)
Definition remember_charge (previous : double) (s : dstate) : double :=
  match state_tree_find (d_root s) ($"battery.charge") with
  | None => previous
  | Some e =>
      let '(ok, d) := str_to_double (n_val e) in
      if negb (ok =? 0) && f64_le (of_long 0) d && negb (d_equal previous d) then d else previous
  end.

Section Commit.
Context (previous_battery_charge_value : double).

(** The comparison of the new text of battery.charge with the old value: [None] when there is nothing to report *)
Definition charge_change (val : bytes) : option comparison :=
  if negb (f64_le (of_long 0) previous_battery_charge_value) then None
  else
    let '(ok, current) := str_to_double val in
    if negb (ok =? 0) && f64_le (of_long 0) current && f64_lt current (of_long 100)
       && negb (d_equal previous_battery_charge_value current)
    then Some (if f64_lt previous_battery_charge_value current then Gt
               else if f64_lt current previous_battery_charge_value then Lt else Eq)
    else None.

Definition status_commit : D unit :=
  entry ← dstate_tree_find (Some ($"battery.charge"));
  b ← status_get_field id;
  charge_low ← dstate_getinfo ($"battery.charge.low");
  runtime ← dstate_getinfo ($"battery.runtime");
  runtime_low ← dstate_getinfo ($"battery.runtime.low");
  dwhen (negb (b_ignorelb b =? 0) && (below (n_val <$> entry) charge_low || below runtime runtime_low))
    (status_upd (fun b => set_b_status_buf b (snprintfcat (b_status_buf b) ST_MAX_VALUE_LEN ($" LB")))) ;;
  match e ← entry; charge_change (n_val e) with
  | None => mret tt
  | Some c =>
      dischrg ← status_get ($"DISCHRG");
      chrg ← status_get ($"CHRG");
      if negb dischrg && negb chrg then
        status_set (match c with Gt => $"CHRG" | _ => $"DISCHRG" end)
      else
        let misleading_dischrg := match c with Gt => dischrg | _ => false end in
        let misleading_chrg := match c with Lt => chrg | _ => false end in
        dwhen (misleading_dischrg || misleading_chrg)
          (status_set (if misleading_dischrg then $"CHRG" else $"DISCHRG"))
  end ;;
  b ← status_get_field id;
  if negb (b_alarm_active b =? 0) || negb (b_alarm_legacy_status b =? 0) then
    _ ← dstate_setinfo ($"ups.status")
          (match b_status_buf b with [] => $"ALARM" | buf => $"ALARM " ++ buf end);
    mret tt
  else
    _ ← dstate_setinfo ($"ups.status") (b_status_buf b);
    status_upd (fun b => set_b_alarm_legacy_status b 0).
End Commit.

(** ** Buzzwords *)

Definition BUZZWORDS : bytes := $"experimental.ups.mode.buzzwords".

Definition buzzmode_init : D unit := status_upd (fun b => set_b_buzzmode_buf b []).

Definition buzzmode_get (buf : bytes) : D bool :=
  b ← status_get_field b_buzzmode_buf; mret (str_contains_token (Some b) (Some buf)).

Definition buzzmode_set (buf : bytes) : D unit :=
  b ← status_get_field b_buzzmode_buf;
  status_upd (fun st => set_b_buzzmode_buf st (str_add_unique_token ST_MAX_VALUE_LEN None None b buf tt).1.1).

Definition buzzmode_commit : D unit :=
  b ← status_get_field b_buzzmode_buf;
  match b with
  | [] => _ ← dstate_delinfo BUZZWORDS; mret tt
  | _ => _ ← dstate_setinfo BUZZWORDS b; mret tt
  end.

(** ** Alarms *)

Definition device_alarm_init : D unit := status_upd (fun b => set_b_alarm_buf b []).

Definition alarm_init : D unit := status_upd (fun b => set_b_alarm_active b 0) ;; device_alarm_init.

Definition alarm_set (buf : bytes) : D unit :=
  b ← status_get_field id;
  let alarm_buf :=
    if (length (b_alarm_buf b) <? 1)%nat || (negb (b_alarm_status b =? 0) && streq (b_alarm_buf b) ($"[N/A]"))
    then snprintf_s ST_MAX_VALUE_LEN buf
    else snprintfcat (b_alarm_buf b) ST_MAX_VALUE_LEN ($" " ++ buf) in
  status_upd (fun b => set_b_alarm_buf b alarm_buf).

Definition alarm_commit : D unit :=
  b ← status_get_field b_alarm_buf;
  if (0 <? length b)%nat then
    _ ← dstate_setinfo ($"ups.alarm") b; status_upd (fun b => set_b_alarm_active b 1)
  else
    _ ← dstate_delinfo ($"ups.alarm"); status_upd (fun b => set_b_alarm_active b 0).

Definition alarm_name (device_number : Z) : bytes :=
  if device_number =? 0 then snprintf_s 20 ($"ups.alarm")
  else snprintf_s 20 ($"device." ++ show_Z device_number ++ $".ups.alarm").

Definition device_alarm_commit (device_number : Z) : D unit :=
  let info_name := alarm_name device_number in
  b ← status_get_field b_alarm_buf;
  if (0 <? length b)%nat then
    _ ← dstate_setinfo info_name b;
    status_upd (fun b => set_b_alarm_active b (wrapS 32 (b_alarm_active b + 1)))
  else _ ← dstate_delinfo info_name; mret tt.

(** Devices from 100 on share a name with others. *)
Example alarm_name_ex : (alarm_name 7, alarm_name 100, alarm_name 1000) =
  ($"device.7.ups.alarm", $"device.100.ups.alar", $"device.1000.ups.ala").
Proof. reflexivity. Qed.
