(* ===== verification/DriverMain.v ===== *)
(** * drivers/main.c: commands and variables that every driver handles

    The handlers of INSTCMD and SET that come before the driver's own, with the
    list of commands that shut a UPS down, the debug level and the flags that the
    main loop looks at.  What a driver provides is a record of functions. *)

From S2P Require Import Prelude CStr StrUtil ParseConf StateTree DState.
From stdpp Require Import options.

(** upshandler.h *)
Definition STAT_INSTCMD_HANDLED : Z := 0.
Definition STAT_INSTCMD_UNKNOWN : Z := 1.
Definition STAT_INSTCMD_INVALID : Z := 2.
Definition STAT_SET_HANDLED : Z := 0.
Definition STAT_SET_UNKNOWN : Z := 1.
Definition STAT_SET_INVALID : Z := 2.

(** common.h and main.h *)
Definition EXIT_FAILURE : Z := 1.
Definition EF_EXIT_FAILURE : Z := -1.
Definition EF_EXIT_SUCCESS : Z := -2.
Definition MAX_SDCOMMANDS_DEPTH : Z := 15.

(** The callbacks of the driver: [upsdrv_shutdown], the members of [upsh], each of which may be
    [NULL], and the reading of ups.conf with the driver's variable table, which returns a negative
    number when it fails. *)
Record driver := mkDriver {
  upsdrv_shutdown : D unit;
  upsh_instcmd : option (bytes -> option bytes -> D Z);
  upsh_setvar : option (bytes -> bytes -> D Z);
  read_upsconf : D Z
}.

(** Signals and the two requests that are not signals. *)
Inductive reload_request := SIGCMD_RELOAD | SIGCMD_EXIT | SIGCMD_RELOAD_OR_ERROR | SIGCMD_RELOAD_OR_EXIT.

Definition main_get {A} (f : main_t -> A) : D A := dget (fun s => f (d_main s)).
Definition main_upd (f : main_t -> main_t) : D unit := dmodify (fun s => set_d_main s (f (d_main s))).

Definition set_exit_flag (sig : Z) : D unit := main_upd (fun m => set_m_exit_flag m sig).

Definition set_reload_flag (sig : reload_request) : D unit :=
  match sig with
  | SIGCMD_RELOAD_OR_EXIT => main_upd (fun m => set_m_reload_flag m 2)
  | SIGCMD_EXIT => set_exit_flag EF_EXIT_SUCCESS
  | SIGCMD_RELOAD | SIGCMD_RELOAD_OR_ERROR => main_upd (fun m => set_m_reload_flag m 1)
  end.

Definition DEBUG_VAR : bytes := $"driver.debug".

Definition assign_debug_level : D unit :=
  m ← main_get id;
  let upsconf :=
    if (m_debug_level_global m >=? 0) && (m_debug_level_driver m >=? 0) then m_debug_level_driver m
    else if m_debug_level_driver m >=? 0 then m_debug_level_driver m
    else if m_debug_level_global m >=? 0 then m_debug_level_global m
    else -1 in
  let level :=
    if m_debug_level_protocol m >=? 0 then m_debug_level_protocol m
    else if upsconf >? m_debug_level_args m then upsconf else m_debug_level_args m in
  main_upd (fun m => set_m_debug_level m level) ;;
  _ ← dstate_setinfo DEBUG_VAR (show_Z level);
  dstate_setflags DEBUG_VAR (Z.lor ST_FLAG_RW ST_FLAG_NUMBER).

Section Main.
Context (drv : driver).

(** The loop over the commands of [sdcmds]: the result of the last one tried, and the one that was
    handled. *)
Fixpoint sdcommands_loop (cmdret : Z) (cmds : list bytes) : D (Z * option bytes) :=
  match cmds with
  | [] => mret (cmdret, None)
  | s :: cmds' =>
      cmdret ←
        (if streq s ($"shutdown.default") then upsdrv_shutdown drv ;; mret STAT_INSTCMD_HANDLED
         else match upsh_instcmd drv with
              | Some instcmd => instcmd s None
              | None => mret cmdret
              end);
      if cmdret =? STAT_INSTCMD_HANDLED then mret (cmdret, Some s) else sdcommands_loop cmdret cmds'
  end.

(** Does the first [p] in [s] begin at the start or after a comma, and end at the end or before
    one? *)
Definition lists_word (s p : bytes) : bool :=
  match strstr_pos s p with
  | None => false
  | Some i =>
      ((i =? 0)%nat || bool_decide (s !! (i - 1)%nat = Some (chr 44)))
      && match s !! (i + length p)%nat with None => true | Some c => Ascii.eqb c (chr 44) end
  end.

(** The result and [*cmdused]; [NULL] and an empty list of commands are treated alike. *)
Definition do_loop_shutdown_commands (sdcmds : option bytes) : D (Z * option bytes) :=
  main_upd (fun m => set_m_call_depth m (m_call_depth m + 1)) ;;
  depth ← main_get m_call_depth;
  if depth >? MAX_SDCOMMANDS_DEPTH then throw (Exited EXIT_FAILURE)
  else
    r ← match default [] sdcmds with
        | [] => mret (STAT_INSTCMD_UNKNOWN, None)
        | cmds =>
            match upsh_instcmd drv with
            | None =>
                if lists_word cmds ($"shutdown.default")
                then upsdrv_shutdown drv ;; mret (STAT_INSTCMD_HANDLED, Some ($"shutdown.default"))
                else mret (STAT_INSTCMD_UNKNOWN, None)
            | Some _ => sdcommands_loop STAT_INSTCMD_UNKNOWN (strtok_words (chr 44) [] cmds)
            end
        end;
    let cmdret := if r.1 =? STAT_INSTCMD_HANDLED then r.1 else STAT_INSTCMD_INVALID in
    main_upd (fun m => set_m_call_depth m (m_call_depth m - 1)) ;;
    mret (cmdret, r.2).

Definition loop_shutdown_commands (sdcmds_default : bytes) : D (Z * option bytes) :=
  custom ← main_get m_device_sdcommands;
  param ← dstate_getinfo ($"driver.parameter.sdcommands");
  match custom, param with
  | Some c, _ | None, Some c => do_loop_shutdown_commands (Some c)
  | None, None => do_loop_shutdown_commands (Some sdcmds_default)
  end.

Definition upsdrv_shutdown_sdcommands_or_default (sdcmds_default : option bytes) : D (Z * option bytes) :=
  r ← loop_shutdown_commands (default ($"shutdown.default") sdcmds_default);
  handling ← main_get m_handling_upsdrv_shutdown;
  dwhen (handling >? 0)
    (set_exit_flag (if r.1 =? STAT_INSTCMD_HANDLED then EF_EXIT_SUCCESS else EF_EXIT_FAILURE)) ;;
  mret (r.1, if r.1 =? STAT_INSTCMD_HANDLED then r.2 else None).

Definition handle_reload_flag : D Z :=
  m ← main_get id;
  if (m_reload_flag m =? 0) || negb (m_exit_flag m =? 0) then mret STAT_INSTCMD_INVALID
  else
    _ ← dstate_setinfo ($"driver.state") ($"reloading");
    main_upd (fun m => set_m_debug_level_driver (set_m_debug_level_global m (-1)) (-1)) ;;
    main_upd (fun m => set_m_reload_requires_restart m (-1)) ;;
    _ ← read_upsconf drv;
    restart ← main_get m_reload_requires_restart;
    let ret := if restart <? 1 then STAT_INSTCMD_HANDLED else STAT_INSTCMD_INVALID in
    assign_debug_level ;;
    main_upd (fun m => set_m_reload_flag m 0) ;;
    _ ← dstate_setinfo ($"driver.state") ($"quiet");
    mret ret.

Definition KILLPOWER_VAR : bytes := $"driver.flag.allow_killpower".

Definition main_instcmd (cmdname : bytes) (extra : option bytes) (conn : option nat) : D Z :=
  match conn with Some c => _ ← conn_get c; mret tt | None => mret tt end ;;
  if streq cmdname ($"shutdown.default") then upsdrv_shutdown drv ;; mret STAT_INSTCMD_HANDLED
  else if streq cmdname ($"driver.killpower") then
    allow ← dstate_getinfo KILLPOWER_VAR;
    match allow with
    | None => throw NullDereference
    | Some allow =>
        if streq ($"1") allow then
          handling ← main_get m_handling_upsdrv_shutdown;
          dwhen (handling =? 0) (main_upd (fun m => set_m_handling_upsdrv_shutdown m 1)) ;;
          _ ← dstate_setinfo ($"driver.state") ($"fsd.killpower");
          _ ← upsdrv_shutdown_sdcommands_or_default None;
          _ ← dstate_setinfo ($"driver.state") ($"quiet");
          mret STAT_INSTCMD_HANDLED
        else mret STAT_INSTCMD_INVALID
    end
  else if streq cmdname ($"driver.exit") then set_reload_flag SIGCMD_EXIT ;; mret STAT_INSTCMD_HANDLED
  else if streq cmdname ($"driver.reload") then set_reload_flag SIGCMD_RELOAD ;; mret STAT_INSTCMD_HANDLED
  else if streq cmdname ($"driver.reload-or-exit") then
    set_reload_flag SIGCMD_RELOAD_OR_EXIT ;; mret STAT_INSTCMD_HANDLED
  else if streq cmdname ($"driver.reload-or-error") then
    set_reload_flag SIGCMD_RELOAD_OR_ERROR ;; handle_reload_flag
  else mret STAT_INSTCMD_UNKNOWN.

(** [str_to_int], which sets [errno]. *)
Definition str_to_int_errno (s : bytes) : D (Z * Z) :=
  let '(ok, n, err) := str_to_int (Some s) 10 in
  set_errno (if decide (err = E_OK) then EZERO else EOTHER) ;;
  mret (ok, n).

Definition main_setvar (varname val : bytes) (conn : option nat) : D Z :=
  match conn with Some c => _ ← conn_get c; mret tt | None => mret tt end ;;
  if streq varname DEBUG_VAR then
    r ← str_to_int_errno val;
    if r.1 =? 0 then mret STAT_SET_INVALID
    else
      let num := if r.2 <? 0 then -1 else r.2 in
      main_upd (fun m => set_m_debug_level_protocol m num) ;;
      assign_debug_level ;;
      mret STAT_SET_HANDLED
  else if streq varname KILLPOWER_VAR then
    r ← str_to_int_errno val;
    let num :=
      if negb (r.1 =? 0) then if r.2 <=? 0 then 0 else 1
      else if (strncmp val ($"enable") 6 =? 0) || streq val ($"true") || streq val ($"yes")
              || streq val ($"on") then 1 else 0 in
    _ ← dstate_setinfo KILLPOWER_VAR (show_Z num);
    mret STAT_SET_HANDLED
  else mret STAT_SET_UNKNOWN.
End Main.
