(* ===== verification/DSock.v ===== *)
(** * drivers/dstate.c: the socket protocol of a driver

    What a driver answers to upsd and to other local programs: the dump of the
    variable tree and the command list, INSTCMD and SET with their tracking reports,
    the reading of the connections and one round of the poll loop. *)

From S2P Require Import Prelude CStr StrUtil ParseConf StateTree DState DriverMain.
From stdpp Require Import options.

Definition DSTATE_CONN_READZERO_THROTTLE_MAX : Z := 5.

(** ** Dumping *)

(** [if (errno == ENOTCONN) return -2; if (!send_ret) return 0;] then the rest *)
Definition dump_next (send_ret : Z) (k : D Z) : D Z :=
  err ← dget d_errno;
  if decide (err = ENOTCONN) then mret (-2) else if send_ret =? 0 then mret 0 else k.

(** Send one line per element, then go on. *)
Fixpoint dump_each {A} (conn : nat) (line : A -> bytes) (l : list A) (k : D Z) : D Z :=
  match l with
  | [] => k
  | x :: l' => r ← send_to_one conn (line x); dump_next r (dump_each conn line l' k)
  end.

(** [if (conn->closing) { errno = ENOTCONN; return -2; }] *)
Definition unless_closing (conn : nat) (k : D Z) : D Z :=
  c ← conn_get conn;
  if k_closing c then set_errno ENOTCONN ;; mret (-2) else k.

Definition setinfo_line (n : st_node) : bytes := $"SETINFO " ++ n_var n ++ $" " ++ quoted (n_val n) ++ [LF].
Definition addenum_line (var e : bytes) : bytes := $"ADDENUM " ++ var ++ $" " ++ quoted e ++ [LF].
Definition addrange_line (var : bytes) (r : Z * Z) : bytes :=
  $"ADDRANGE " ++ var ++ $" " ++ show_Z r.1 ++ $" " ++ show_Z r.2 ++ [LF].
Definition setaux_line (n : st_node) : bytes := $"SETAUX " ++ n_var n ++ $" " ++ show_Z (n_aux n) ++ [LF].
Definition setflags_line (n : st_node) : bytes := $"SETFLAGS " ++ flag_list (n_var n) (n_flags n) ++ [LF].

Definition addcmd_line (cmd : bytes) : bytes := $"ADDCMD " ++ cmd ++ [LF].

Definition st_tree_dump_conn_one_node (n : st_node) (conn : nat) : D Z :=
  unless_closing conn (
    dump_each conn setinfo_line [n] (
    dump_each conn (addenum_line (n_var n)) (n_enum_list n) (
    dump_each conn (addrange_line (n_var n)) (n_range_list n) (
    dump_each conn setaux_line (if negb (n_aux n =? 0) then [n] else []) (
    dump_each conn setflags_line (if negb (n_flags n =? 0) then [n] else []) (mret 1)))))).

Definition is_node (t : st_tree) : bool := match t with Leaf => false | Node _ _ _ => true end.

Fixpoint st_tree_dump_conn (node : st_tree) (conn : nat) : D Z :=
  unless_closing conn
    match node with
    | Leaf => mret 1
    | Node n l r =>
        let here :=
          send_ret ← st_tree_dump_conn_one_node n conn;
          dump_next send_ret
            (if is_node r then
               send_ret ← st_tree_dump_conn r conn;
               err ← dget d_errno;
               if decide (err = ENOTCONN) then mret (-2) else mret send_ret
             else mret 1) in
        if is_node l then
          send_ret ← st_tree_dump_conn l conn;
          dump_next send_ret here
        else here
    end.

Definition cmd_dump_conn (conn : nat) : D Z :=
  unless_closing conn (
    cmds ← dget d_cmds;
    dump_each conn addcmd_line cmds (mret 1)).

Definition send_tracking (conn : nat) (id : bytes) (value : Z) : D Z :=
  unless_closing conn (send_to_one conn ($"TRACKING " ++ id ++ $" " ++ show_Z value ++ [LF])).

(** ** Commands *)

(** [if (send_errno == ENOTCONN) return -2; if (!send_ret) return -3;] then the rest *)
Definition handled (m : D Z) (k : Z -> D Z) : D Z :=
  send_ret ← m;
  send_errno ← dget d_errno;
  if decide (send_errno = ENOTCONN) then mret (-2) else if send_ret =? 0 then mret (-3) else k send_ret.

(** The parameter and the tracking ID of INSTCMD, from the words after the command's name;
    [None] for a malformed request. *)
Definition instcmd_params (arg2 : list bytes) : option (option bytes * option bytes) :=
  match arg2 with
  | [] => Some (None, None)
  | [p] => Some (Some p, None)
  | [t; id] => if strcaseeq t ($"TRACKING") then Some (None, Some id) else None
  | [p; t; id] => if strcaseeq t ($"TRACKING") then Some (Some p, Some id) else None
  | _ => None
  end.

Section Protocol.
Context (drv : driver) (pid : Z).

(** Report [ret] if an ID was given; [send_ret] stays 1 otherwise. *)
Definition report (conn : nat) (id : option bytes) (ret : Z) : D Z :=
  match id with
  | Some id => handled (send_tracking conn id ret) (fun send_ret => mret send_ret)
  | None => mret 1
  end.

Definition sock_instcmd (conn : nat) (cmdname : bytes) (arg2 : list bytes) : D Z :=
  match instcmd_params arg2 with
  | None => mret 0
  | Some (cmdparam, cmdid) =>
      ret ← main_instcmd drv cmdname cmdparam (Some conn);
      if negb (ret =? STAT_INSTCMD_UNKNOWN) then report conn cmdid ret
      else match upsh_instcmd drv with
           | Some instcmd => ret ← instcmd cmdname cmdparam; report conn cmdid ret
           | None => report conn cmdid ret
           end
  end.

(** The tracking ID of SET, from the words after the value. *)
Definition set_params (arg3 : list bytes) : option (option bytes) :=
  match arg3 with
  | [t; id] => if strcaseeq t ($"TRACKING") then Some (Some id) else None
  | _ => Some None
  end.

Definition sock_set (conn : nat) (var val : bytes) (arg3 : list bytes) : D Z :=
  match set_params arg3 with
  | None => mret 0
  | Some setid =>
      ret ← main_setvar var val (Some conn);
      if negb (ret =? STAT_SET_UNKNOWN) then report conn setid ret
      else match upsh_setvar drv with
           | Some setvar => ret ← setvar var val; report conn setid ret
           | None => mret 1
           end
  end.

(** DUMPALL, or a single variable for DUMPSTATUS and DUMPVALUE. *)
Definition sock_dump (conn : nat) (all : bool) (varname : bytes) : D Z :=
  let rest2 :=
    handled (send_to_one conn ($"DUMPDONE" ++ [LF])) (fun send_ret => mret send_ret) in
  let rest1 :=
    stale ← dget d_stale;
    if stale =? 0 then handled (send_to_one conn ($"DATAOK" ++ [LF])) (fun _ => rest2) else rest2 in
  let dump :=
    root ← dget d_root;
    if all then
      handled (st_tree_dump_conn root conn) (fun _ => handled (cmd_dump_conn conn) (fun _ => rest1))
    else match state_tree_find root varname with
         | None => rest1
         | Some sttmp => handled (st_tree_dump_conn_one_node sttmp conn) (fun _ => rest1)
         end in
  stale ← dget d_stale;
  if stale =? 1 then handled (send_to_one conn ($"DATASTALE" ++ [LF])) (fun _ => dump) else dump.

Definition sock_arg (conn : nat) (arg : list bytes) : D Z :=
  unless_closing conn
  match arg with
  | [] => mret 0
  | a0 :: arg1 =>
      if strcaseeq a0 ($"LOGOUT") then
        _ ← send_to_one conn ($"OK Goodbye" ++ [LF]);
        send_errno ← dget d_errno;
        dwhen (negb (bool_decide (send_errno = ENOTCONN))) (conn_upd conn (fun k => set_k_closing k true)) ;;
        mret 2
      else if strcaseeq a0 ($"GETPID") then
        handled (send_to_one conn ($"PID " ++ show_Z pid ++ [LF])) (fun send_ret => mret send_ret)
      else if strcaseeq a0 ($"DUMPALL") then sock_dump conn true []
      else if strcaseeq a0 ($"DUMPSTATUS") then sock_dump conn false ($"ups.status")
      else if strcaseeq a0 ($"DUMPVALUE") && (1 <=? length arg1)%nat then
        sock_dump conn false (default [] (head arg1))
      else if strcaseeq a0 ($"PING") then
        handled (send_to_one conn ($"PONG" ++ [LF])) (fun send_ret => mret send_ret)
      else if strcaseeq a0 ($"NOBROADCAST") then
        conn_upd conn (fun k => set_k_nobroadcast k true) ;; mret 1
      else if strcaseeq a0 ($"BROADCAST") then
        conn_upd conn (fun k => set_k_nobroadcast k false) ;;
        match arg1 with
        | [] => mret 1
        | a1 :: _ =>
            r ← str_to_int_errno a1;
            dwhen (negb (r.1 =? 0) && (r.2 <? 1)) (conn_upd conn (fun k => set_k_nobroadcast k true)) ;;
            mret 1
        end
      else match arg1 with
      | [] => mret 0
      | a1 :: arg2 =>
          if strcaseeq a0 ($"INSTCMD") then sock_instcmd conn a1 arg2
          else match arg2 with
          | [] => mret 0
          | a2 :: arg3 => if strcaseeq a0 ($"SET") then sock_set conn a1 a2 arg3 else mret 0
          end
      end
  end.

(** ** Reading *)

(** What [read()] gives: an error, or some bytes (none at the end of the file). *)
Inductive socket_read := RdError (e : io_errno) | RdData (buf : bytes).

(** The loop over the bytes read. *)
Fixpoint sock_feed (conn : nat) (buf : bytes) : D Z :=
  match buf with
  | [] => mret 1
  | ch :: buf' =>
      k ← conn_get conn;
      let '(r, ctx) := pconf_char (k_ctx k) ch in
      conn_upd conn (fun k => set_k_ctx k ctx) ;;
      if r =? 0 then sock_feed conn buf'
      else if r =? 1 then
        ret_arg ← sock_arg conn (args ctx);
        err ← dget d_errno;
        if decide (err = ENOTCONN) then mret (-2)
        else if ret_arg =? 0 then _ ← conn_get conn; sock_feed conn buf'
        else if ret_arg =? 2 then set_errno ENOTCONN ;; mret (-2)
        else sock_feed conn buf'
      else mret (-1)
  end.

Definition drop_conn (conn : nat) : D Z := sock_disconnect conn ;; set_errno ENOTCONN ;; mret (-2).

Definition sock_read (conn : nat) (res : socket_read) : D Z :=
  unless_closing conn
  match res with
  | RdError e =>
      set_errno e ;;
      match e with
      | EINTR | EAGAIN => mret (-1)
      | _ => drop_conn conn
      end
  | RdData [] =>
      k ← conn_get conn;
      if k_nonblock k then drop_conn conn
      else
        conn_upd conn (fun k => set_k_readzero k (k_readzero k + 1)) ;;
        if k_readzero k + 1 >? DSTATE_CONN_READZERO_THROTTLE_MAX then drop_conn conn else mret 1
  | RdData buf => conn_upd conn (fun k => set_k_readzero k 0) ;; sock_feed conn buf
  end.

(** ** Polling *)

(** What [accept()] and the two calls of [fcntl()] give. *)
Inductive accept_result := AcceptFail | Accepted (fd : Z) (getfl setfl : bool).

Definition sock_connect (res : accept_result) : D unit :=
  match res with
  | AcceptFail => set_errno EOTHER
  | Accepted fd getfl setfl =>
      sync ← dget d_sync;
      if (sync <? 1) && negb (getfl && setfl) then set_errno EOTHER
      else
        dmodify (fun s =>
          set_d_next (set_d_conns s (mkConn (d_next s) fd (sync <? 1) pconf_init false 0 false :: d_conns s))
            (S (d_next s)))
  end.

(** What [select()] gives: nothing in time, an error, or the descriptors that are ready: the
    listening socket, the connections with what can be read from each, the driver's own one. *)
Inductive select_result :=
| SelectTimeout
| SelectError (e : io_errno)
| SelectReady (accept : option accept_result) (ready : Z -> option socket_read) (extra : bool).

(** Is the deadline over? Both times are in seconds and microseconds. *)
Definition poll_overrun (timeout now : Z * Z) : bool :=
  let sec := if timeout.2 <? now.2 then timeout.1 - 1 else timeout.1 in sec <? now.1.

Definition dstate_poll_fds (timeout now : Z * Z) (res : select_result) : D Z :=
  let overrun := Zbool (poll_overrun timeout now) in
  match res with
  | SelectTimeout => mret 1
  | SelectError e => set_errno e ;; mret overrun
  | SelectReady accept ready extra =>
      match accept with Some r => sock_connect r | None => mret tt end ;;
      each_conn (fun conn =>
        k ← conn_get conn;
        match ready (k_fd k) with Some r => _ ← sock_read conn r; mret tt | None => mret tt end) ;;
      reap_closing ;;
      mret (if extra then 1 else overrun)
  end.
End Protocol.
