(* ===== verification/Wire.v ===== *)
(** * The socket protocol between a driver and upsd, as messages

    The lines a driver writes, as a data type: their words, and what upsd makes of
    them ([SState.parse_args]).  At this level an entry of the variable tree is what
    the protocol carries of it: the text, the flags RW, STRING and NUMBER, the
    auxiliary number, the enumerated values and the ranges. *)

From S2P Require Import Prelude CStr StrUtil StrFacts ParseConf ParseConfFacts NumFacts StateTree StateFacts.
From S2P Require Import Users Desc Tracking World SState Upsd NetGet Server ServerLib ServerFacts ProtoLines.
From stdpp Require Import options.

Inductive wire :=
| WSetInfo (var val : bytes)
| WDelInfo (var : bytes)
| WAddEnum (var val : bytes)
| WDelEnum (var val : bytes)
| WAddRange (var : bytes) (min max : Z)
| WDelRange (var : bytes) (min max : Z)
| WSetAux (var : bytes) (aux : Z)
| WSetFlags (var : bytes) (flags : list bytes)
| WAddCmd (cmd : bytes)
| WDelCmd (cmd : bytes)
| WDataOk
| WDataStale
| WDumpDone.

Definition wire_tokens (m : wire) : list token :=
  match m with
  | WSetInfo var val => [Bare ($"SETINFO"); Bare var; Quoted val]
  | WDelInfo var => [Bare ($"DELINFO"); Bare var]
  | WAddEnum var val => [Bare ($"ADDENUM"); Bare var; Quoted val]
  | WDelEnum var val => [Bare ($"DELENUM"); Bare var; Quoted val]
  | WAddRange var min max => [Bare ($"ADDRANGE"); Bare var; Bare (show_Z min); Bare (show_Z max)]
  | WDelRange var min max => [Bare ($"DELRANGE"); Bare var; Bare (show_Z min); Bare (show_Z max)]
  | WSetAux var aux => [Bare ($"SETAUX"); Bare var; Bare (show_Z aux)]
  | WSetFlags var flags => Bare ($"SETFLAGS") :: Bare var :: (Bare <$> flags)
  | WAddCmd cmd => [Bare ($"ADDCMD"); Bare cmd]
  | WDelCmd cmd => [Bare ($"DELCMD"); Bare cmd]
  | WDataOk => [Bare ($"DATAOK")]
  | WDataStale => [Bare ($"DATASTALE")]
  | WDumpDone => [Bare ($"DUMPDONE")]
  end.

Definition wire_line (m : wire) : bytes := render (wire_tokens m) ++ [LF].

(** ** Which messages fit *)

Definition NAME_LIMIT : nat := 200.

(** The names of variables and commands: words that need no quotes. *)
Definition name_ok (v : bytes) : Prop := v <> [] /\ Forall bare_char v /\ (length v <= NAME_LIMIT)%nat.

(** A value whose encoded form fits the tree's limit. *)
Definition value_ok (v : bytes) : Prop := Forall printable v /\ (length (escape v) < ST_MAX_VALUE_LEN)%nat.

Definition int_ok (z : Z) : Prop := INT_MIN <= z <= INT_MAX.
Definition long_ok (z : Z) : Prop := LONG_MIN <= z <= LONG_MAX.

#[export] Instance name_ok_dec v : Decision (name_ok v).
Proof. unfold name_ok. apply _. Defined.
#[export] Instance value_ok_dec v : Decision (value_ok v).
Proof. unfold value_ok. apply _. Defined.
#[export] Instance int_ok_dec z : Decision (int_ok z).
Proof. unfold int_ok. apply _. Defined.
#[export] Instance long_ok_dec z : Decision (long_ok z).
Proof. unfold long_ok. apply _. Defined.

Definition flag_words : list bytes := [$"RW"; $"STRING"; $"NUMBER"].

Definition wire_ok (m : wire) : Prop :=
  match m with
  | WSetInfo var val | WAddEnum var val | WDelEnum var val => name_ok var /\ value_ok val
  | WDelInfo var => name_ok var
  | WAddRange var min max | WDelRange var min max => name_ok var /\ int_ok min /\ int_ok max
  | WSetAux var aux => name_ok var /\ long_ok aux
  | WSetFlags var flags => name_ok var /\ sublist flags flag_words
  | WAddCmd cmd | WDelCmd cmd => name_ok cmd
  | WDataOk | WDataStale | WDumpDone => True
  end.

Lemma escape_length v : (length v <= length (escape v))%nat.
Proof.
  induction v as [|x v IH]; [done|]. cbn [escape flat_map]. change (flat_map escape_char v) with (escape v).
  rewrite length_app. assert (1 <= length (escape_char x))%nat by (unfold escape_char; case_match; simpl; lia).
  simpl. lia.
Qed.

Lemma bare_ok w : w <> [] -> Forall bare_char w -> (length w <= NAME_LIMIT)%nat ->
  token_ok PCONF_DEFAULT_WORDLEN_LIMIT (Bare w).
Proof. intros. split; [|by split]. right. unfold NAME_LIMIT, PCONF_DEFAULT_WORDLEN_LIMIT in *. simpl. lia. Qed.

Lemma name_token v : name_ok v -> token_ok PCONF_DEFAULT_WORDLEN_LIMIT (Bare v).
Proof. intros (? & ? & ?). by apply bare_ok. Qed.

Lemma value_token v : value_ok v -> token_ok PCONF_DEFAULT_WORDLEN_LIMIT (Quoted v).
Proof.
  intros [Hp Hl]. split; [|done]. right. pose proof (escape_length v).
  unfold ST_MAX_VALUE_LEN, PCONF_DEFAULT_WORDLEN_LIMIT in *. simpl. lia.
Qed.

Lemma number_token z : long_ok z -> token_ok PCONF_DEFAULT_WORDLEN_LIMIT (Bare (show_Z z)).
Proof.
  intros Hz. destruct (show_bare z). pose proof (show_length z Hz).
  apply bare_ok; [done|done|unfold NAME_LIMIT; lia].
Qed.

Lemma int_long z : int_ok z -> long_ok z.
Proof. unfold int_ok, long_ok, INT_MIN, INT_MAX, LONG_MIN, LONG_MAX. lia. Qed.

#[export] Hint Resolve name_token value_token number_token int_long : nut.

Ltac keyword := apply (bool_decide_unpack _); vm_compute; exact I.

Lemma flag_tokens flags : sublist flags flag_words ->
  Forall (token_ok PCONF_DEFAULT_WORDLEN_LIMIT) (Bare <$> flags) /\ (length flags <= 3)%nat.
Proof.
  intros Hs. split; [|by apply sublist_length in Hs]. apply Forall_fmap.
  assert (Forall (token_ok PCONF_DEFAULT_WORDLEN_LIMIT ∘ Bare) flag_words) as Hall.
  { repeat constructor; try (by right; apply Nat.leb_le); vm_compute; intuition congruence. }
  rewrite Forall_forall in *. intros x Hx. apply Hall. by eapply sublist_subseteq.
Qed.

Lemma wire_line_ok m : wire_ok m -> line_ok (wire_tokens m).
Proof.
  assert (forall ts, Forall (token_ok PCONF_DEFAULT_WORDLEN_LIMIT) ts -> ts <> [] -> (length ts <= 5)%nat -> line_ok ts) as Hline.
  { intros ts ? ? ?. split_and!; [done|done|unfold PCONF_DEFAULT_ARG_LIMIT; lia]. }
  intros Hm. destruct m; cbn [wire_tokens wire_ok] in *;
    repeat match goal with H : _ /\ _ |- _ => destruct H end;
    try (apply Hline; [|done|simpl; lia]; repeat (apply Forall_cons; split); try apply Forall_nil_2;
      first [apply name_token; assumption | apply value_token; assumption
            | apply number_token; by auto using int_long | keyword]).
  rename H into Hn, H0 into Hs. destruct (flag_tokens _ Hs) as [Ht Hl].
  apply Hline; [|done|simpl; rewrite length_fmap; lia].
  constructor; [keyword|]. constructor; [auto with nut|done].
Qed.

(** The line fits the buffers of the senders. *)
Lemma wire_line_fits m : wire_ok m -> (length (wire_line m) < SMALLBUF)%nat.
Proof.
  assert (forall v, name_ok v -> (length v <= 200)%nat) as Hname by (by intros v (_ & _ & ?)).
  assert (forall v, value_ok v -> (length (qt ++ escape v ++ qt) <= 257)%nat) as Hval.
  { intros v [_ Hl]. unfold ST_MAX_VALUE_LEN in Hl. rewrite !length_app. simpl. lia. }
  unfold wire_line, SMALLBUF.
  destruct m; cbn [wire_ok wire_tokens render render_token]; intros Hm; rewrite !length_app;
    repeat match goal with H : _ /\ _ |- _ => destruct H end;
    repeat match goal with
    | H : name_ok _ |- _ => apply Hname in H
    | H : value_ok _ |- _ => apply Hval in H; rewrite !length_app in H
    | H : int_ok _ |- _ => apply int_long, show_length in H
    | H : long_ok _ |- _ => apply show_length in H
    end; try (cbn [length String.list_ascii_of_string] in *; lia).
  assert (length (render (Bare <$> flags)) <= 20)%nat as Hf.
  { assert (forallb (fun l => (length (render (Bare <$> l)) <=? 20)%nat)
      [[]; [$"NUMBER"]; [$"STRING"]; [$"STRING"; $"NUMBER"]; [$"RW"]; [$"RW"; $"NUMBER"]; [$"RW"; $"STRING"];
       [$"RW"; $"STRING"; $"NUMBER"]] = true) as Hall by reflexivity.
    rewrite forallb_forall in Hall. apply Nat.leb_le, Hall. clear -H0. unfold flag_words in H0.
    repeat match goal with
    | H : sublist _ [] |- _ => apply sublist_nil_r in H; subst
    | H : sublist _ (_ :: _) |- _ => apply sublist_cons_r in H as [H|(? & -> & H)]
    end; simpl; tauto. }
  destruct flags as [|f flags]; cbn [render fmap list_fmap] in *; rewrite ?length_app in *;
    cbn [length String.list_ascii_of_string] in *; lia.
Qed.

(** ** What the protocol carries of an entry *)

Record pub_entry := mkPub {
  e_raw : bytes;
  e_flags : Z;
  e_aux : Z;
  e_enums : list bytes;
  e_ranges : list (Z * Z)
}.

Definition PUBLIC_FLAGS : Z := Z.lor ST_FLAG_RW (Z.lor ST_FLAG_STRING ST_FLAG_NUMBER).

Definition pub (n : st_node) : pub_entry :=
  mkPub (n_raw n) (Z.land (n_flags n) PUBLIC_FLAGS) (n_aux n) (n_enum_list n) (n_range_list n).

Definition pub_map (t : st_tree) : gmap bytes pub_entry := pub <$> to_map t.

(** The variable a message is about, and its new entry.  SETFLAGS without any flag is too short
    for [parse_args], which ignores it. *)
Definition wire_var (m : wire) : option bytes :=
  match m with
  | WSetInfo v _ | WDelInfo v | WAddEnum v _ | WDelEnum v _ | WAddRange v _ _ | WDelRange v _ _
  | WSetAux v _ | WSetFlags v _ => Some v
  | _ => None
  end.

Definition wire_entry (m : wire) (o : option pub_entry) : option pub_entry :=
  match m, o with
  | WSetInfo _ val, None => Some (mkPub val 0 0 [] [])
  | WSetInfo _ val, Some e => Some (mkPub val (e_flags e) (e_aux e) (e_enums e) (e_ranges e))
  | WDelInfo _, _ => None
  | WAddEnum _ val, Some e =>
      Some (mkPub (e_raw e) (e_flags e) (e_aux e)
              (st_tree_enum_add (e_enums e) (pconf_encode val ST_MAX_VALUE_LEN)).1 (e_ranges e))
  | WDelEnum _ val, Some e =>
      Some (mkPub (e_raw e) (e_flags e) (e_aux e) (st_tree_del_enum (e_enums e) val).1 (e_ranges e))
  | WAddRange _ mn mx, Some e =>
      Some (if mn >? mx then e
            else mkPub (e_raw e) (e_flags e) (e_aux e) (e_enums e) (st_tree_range_add (e_ranges e) mn mx).1)
  | WDelRange _ mn mx, Some e =>
      Some (mkPub (e_raw e) (e_flags e) (e_aux e) (e_enums e) (st_tree_del_range (e_ranges e) mn mx).1)
  | WSetAux _ aux, Some e => Some (mkPub (e_raw e) (e_flags e) aux (e_enums e) (e_ranges e))
  | WSetFlags _ ((_ :: _) as fl), Some e =>
      Some (mkPub (e_raw e) (fold_left setflags_word fl 0) (e_aux e) (e_enums e) (e_ranges e))
  | _, o => o
  end.

(** The abstract state of a copy of a driver's data. *)
Record mirror := mkMirror {
  mi_vars : gmap bytes pub_entry;
  mi_cmds : list bytes;
  mi_data_ok : Z;
  mi_dumpdone : Z
}.

Definition apply_wire (x : mirror) (m : wire) : mirror :=
  let vars := match wire_var m with
              | Some v => partial_alter (wire_entry m) (lower v) (mi_vars x)
              | None => mi_vars x
              end in
  let cmds := match m with
              | WAddCmd c => (state_addcmd (mi_cmds x) c).1
              | WDelCmd c => (state_delcmd (mi_cmds x) c).1
              | _ => mi_cmds x
              end in
  let data_ok := match m with WDataOk => 1 | WDataStale => 0 | _ => mi_data_ok x end in
  let dumpdone := match m with WDumpDone => 1 | _ => mi_dumpdone x end in
  mkMirror vars cmds data_ok dumpdone.

Definition mirror_of (u : upstype) : mirror :=
  mkMirror (pub_map (u_inforoot u)) (u_cmdlist u) (u_data_ok u) (u_dumpdone u).

(** ** upsd applies the messages *)

(** The entries of upsd's copies are never immutable: the protocol has no word for it. *)
Definition mutable (n : st_node) : Prop := has_flag (n_flags n) ST_FLAG_IMMUTABLE = false.

#[export] Instance mutable_dec n : Decision (mutable n).
Proof. unfold mutable. apply _. Defined.

Definition no_immutable (t : st_tree) : Prop := map_Forall (fun _ n => mutable n) (to_map t).

Definition recv_ok (u : upstype) : Prop :=
  u_conn u = true /\ ready (u_sock_ctx u) /\ tree_wf (u_inforoot u) /\ no_immutable (u_inforoot u).

(** The tree operation of a message. *)
Definition wire_op (now : Z) (m : wire) : option st_op :=
  match m with
  | WSetInfo v val => Some (OpSetInfo now v val)
  | WDelInfo v => Some (OpDelInfo v)
  | WAddEnum v val => Some (OpAddEnum now v val)
  | WDelEnum v val => Some (OpDelEnum now v val)
  | WAddRange v mn mx => Some (OpAddRange now v mn mx)
  | WDelRange v mn mx => Some (OpDelRange now v mn mx)
  | WSetAux v aux => Some (OpSetAux now v (show_Z aux))
  | WSetFlags v ((_ :: _) as fl) => Some (OpSetFlags now v fl)
  | _ => None
  end.

Definition recv (now : Z) (m : wire) (u : upstype) : upstype :=
  match wire_op now m with
  | Some op => set_u_inforoot u (run_op (u_inforoot u) op).1
  | None =>
      match m with
      | WAddCmd c => set_u_cmdlist u (state_addcmd (u_cmdlist u) c).1
      | WDelCmd c => set_u_cmdlist u (state_delcmd (u_cmdlist u) c).1
      | WDataOk => set_u_data_ok u 1
      | WDataStale => set_u_data_ok u 0
      | WDumpDone => set_u_dumpdone u 1
      | _ => u
      end
  end.

Lemma ups_upd_eq i f u w : w_ups w !! i = Some u -> ups_upd i f w = Some (tt, upd_ups i f w).
Proof. intros Hu. unfold ups_upd, mbind, M_bind, ups_get. by rewrite Hu. Qed.

Ltac eval_keywords :=
  repeat match goal with
  | |- context [strcaseeq (String.list_ascii_of_string ?a) (String.list_ascii_of_string ?b)] =>
      let v := eval vm_compute in (strcaseeq (String.list_ascii_of_string a) (String.list_ascii_of_string b)) in
      change (strcaseeq (String.list_ascii_of_string a) (String.list_ascii_of_string b)) with v
  end; cbv iota.

Definition wire_ignored (m : wire) : bool := match m with WSetFlags _ [] => true | _ => false end.

(** [parse_args] on the words of a message. *)
Lemma parse_wire i u m w :
  wire_ok m -> w_ups w !! i = Some u ->
  parse_args i (map token_word (wire_tokens m)) w = Some (Zbool (negb (wire_ignored m)), upd_ups i (recv (w_now w) m) w).
Proof.
  intros Hm Hu. destruct m; cbn [wire_tokens map token_word]; unfold parse_args, mbind at 1, M_bind at 1, time, get.
  8: { destruct flags as [|f flags]; cbn [fmap list_fmap map token_word]; eval_keywords.
       { assert (upd_ups i (recv (w_now w) (WSetFlags var [])) w = w) as ->; [|done].
         unfold upd_ups. rewrite list_alter_id by done. by destruct w. }
       unfold upd_tree, mbind, M_bind. rewrite (ups_upd_eq _ _ _ _ Hu).
       assert (forall l, map token_word (Bare <$> l) = l) as Hw by (induction l; csimpl; congruence).
       change (map token_word (list_fmap _ _ Bare flags)) with (map token_word (Bare <$> flags)).
       rewrite Hw. unfold recv, mret, M_ret. reflexivity. }
  all: eval_keywords; unfold upd_tree, upd_cmds, mbind, M_bind; rewrite (ups_upd_eq _ _ _ _ Hu); try done.
  all: destruct Hm as (_ & Hmin & Hmax); by rewrite !atoi_show.
Qed.

(** *** The effect on what the protocol carries *)

Lemma pub_flags_land n : Z.land (n_flags n) PUBLIC_FLAGS = e_flags (pub n).
Proof. done. Qed.

Lemma entry_op_pub now m op o :
  wire_op now m = Some op -> (forall n, o = Some n -> mutable n) ->
  (forall v aux, m = WSetAux v aux -> long_ok aux) ->
  pub <$> (entry_op op o).1 = wire_entry m (pub <$> o).
Proof.
  intros Hop Hmut Haux.
  assert (forall fl, Z.land (fold_left setflags_word fl 0) PUBLIC_FLAGS = fold_left setflags_word fl 0) as Hfl.
  { intros fl. assert (Z.land 0 PUBLIC_FLAGS = 0) as H0 by done. revert H0. generalize 0 as z.
    induction fl as [|w fl IH]; intros z Hz; [done|]. cbn [fold_left]. apply IH.
    unfold setflags_word. repeat case_match; try done; by rewrite Z.land_lor_distr_l, Hz. }
  destruct m as [| | | | | | |var [|f fl]| | | | |]; simpl in Hop; simplify_eq; destruct o as [n|]; simpl; try done;
    try specialize (Hmut n eq_refl).
  - unfold setinfo_node. cbn [n_raw n_flags st_tree_node_refresh_timestamp].
    unfold mutable in Hmut. rewrite Hmut. destruct (streq _ _) eqn:Eq.
    + apply streq_true in Eq. subst. done.
    + simpl. unfold pub, val_escape. cbn [n_raw set_raw]. rewrite grow_fits. by case_match.
  - unfold setinfo_new, pub, val_escape. cbn [n_raw st_tree_node_refresh_timestamp]. by case_match.
  - unfold deletable. unfold mutable in Hmut. by rewrite Hmut.
  - by destruct (st_tree_enum_add _ _).
  - by destruct (st_tree_del_enum _ _).
  - destruct (min >? max); [done|]. by destruct (st_tree_range_add _ _ _).
  - by destruct (st_tree_del_range _ _ _).
  - rewrite strtol_show by (by apply (Haux var)). simpl.
    destruct (Z.eqb_spec (n_aux n) aux) as [<-|]; done.
  - unfold pub. cbn [n_flags set_flags]. do 2 f_equal. exact (Hfl (f :: fl)).
Qed.

Lemma fmap_partial_alter_pub (f : option st_node -> option st_node) (g : option pub_entry -> option pub_entry)
    (k : bytes) (m : gmap bytes st_node) :
  pub <$> f (m !! k) = g (pub <$> (m !! k)) ->
  pub <$> partial_alter f k m = partial_alter g k (pub <$> m).
Proof.
  intros Hfg. apply map_eq. intros j. destruct (decide (j = k)) as [->|Hj].
  - by rewrite lookup_fmap, !lookup_partial_alter_eq, Hfg, lookup_fmap.
  - by rewrite lookup_fmap, !lookup_partial_alter_ne, lookup_fmap.
Qed.

Lemma wire_op_var now m op : wire_op now m = Some op -> wire_var m = Some (op_var op).
Proof. destruct m as [| | | | | | |? []| | | | |]; simpl; intros; by simplify_eq. Qed.

Lemma entry_op_mutable now m op o n :
  wire_op now m = Some op -> (forall n, o = Some n -> mutable n) ->
  (entry_op op o).1 = Some n -> mutable n.
Proof.
  intros Hop Hmut Hn.
  assert (forall fl, has_flag (fold_left setflags_word fl 0) ST_FLAG_IMMUTABLE = false) as Hfl.
  { intros fl. assert (has_flag 0 ST_FLAG_IMMUTABLE = false) as H0 by done. revert H0. generalize 0 as z.
    induction fl as [|w fl IH]; intros z Hz; [done|]. cbn [fold_left]. apply IH.
    unfold setflags_word, has_flag in *. repeat case_match; try done; rewrite Z.land_lor_distr_l;
      apply negb_false_iff, Z.eqb_eq in Hz; by rewrite Hz. }
  unfold mutable in *.
  destruct m as [| | | | | | |var [|f fl]| | | | |]; simpl in Hop; simplify_eq; destruct o as [n'|]; simpl in *; try done;
    try specialize (Hmut n' eq_refl).
  - unfold setinfo_node in Hn. cbn [n_raw n_flags st_tree_node_refresh_timestamp] in Hn. rewrite Hmut in Hn.
    destruct (streq _ _); simpl in Hn; simplify_eq; [done|]. unfold val_escape. by case_match.
  - simplify_eq. unfold setinfo_new, val_escape. by case_match.
  - unfold deletable in Hn. rewrite Hmut in Hn. done.
  - destruct (st_tree_enum_add _ _). by simplify_eq/=.
  - destruct (st_tree_del_enum _ _). by simplify_eq/=.
  - destruct (min >? max); [by simplify_eq/=|]. destruct (st_tree_range_add _ _ _). by simplify_eq/=.
  - destruct (st_tree_del_range _ _ _). by simplify_eq/=.
  - destruct (n_aux n' =? _); by simplify_eq/=.
  - simplify_eq. apply (Hfl (f :: fl)).
Qed.

Lemma recv_mirror now m u :
  wire_ok m -> recv_ok u ->
  recv_ok (recv now m u) /\ mirror_of (recv now m u) = apply_wire (mirror_of u) m.
Proof.
  intros Hm (Hconn & Hr & Hwf & Him). unfold recv. destruct (wire_op now m) as [op|] eqn:Hop.
  - destruct (run_op_refines (u_inforoot u) op (proj1 Hwf)) as (_ & Hmap & _).
    split; [split_and!; simpl; [done|done|by apply run_op_wf|]|].
    + unfold no_immutable. rewrite Hmap. intros k n. simpl.
      destruct (decide (k = lower (op_var op))) as [->|?].
      * rewrite lookup_partial_alter_eq. apply (entry_op_mutable now m); [done|]. intros n' Hn'. by apply (Him _ _ Hn').
      * rewrite lookup_partial_alter_ne by done. apply Him.
    + unfold mirror_of, apply_wire. simpl. rewrite (wire_op_var _ _ _ Hop). unfold pub_map at 1. rewrite Hmap. simpl.
      rewrite (fmap_partial_alter_pub _ (wire_entry m)).
      * by destruct m.
      * apply (entry_op_pub now); [done| |].
        -- intros n Hn. by apply (Him _ _ Hn).
        -- intros v aux ->. by destruct Hm.
  - split; [by destruct m; split_and!|].
    destruct m as [| | | | | | |var [|f fl]| | | | |]; try done. unfold mirror_of, apply_wire. simpl.
    rewrite partial_alter_id by done. done.
Qed.

(** Receiving one line. *)
Lemma recv_line i u m rest w (Q : unit -> world -> Prop) :
  w_ups w !! i = Some u -> recv_ok u -> wire_ok m ->
  (forall u' w', w_ups w' !! i = Some u' -> recv_ok u' -> mirror_of u' = apply_wire (mirror_of u) m ->
    wp (sstate_feed i rest) Q w') ->
  wp (sstate_feed i (wire_line m ++ rest)) Q w.
Proof.
  intros Hu Hrok Hm HQ. destruct (recv_mirror (w_now w) m u Hm Hrok) as [Hrok' Hmi].
  destruct Hrok as (Hconn & Hready & _).
  destruct (feed_line _ _ Hready (wire_line_ok m Hm)) as (Hr & Hargs & Hready').
  unfold wire_line. rewrite <- app_assoc. simpl app.
  eapply sstate_feed_line_app; [exact Hu|exact Hr|reflexivity|]. rewrite Hargs.
  set (ctx := (feed_chars _ _).2) in *. clearbody ctx.
  assert (w_ups (upd_ups i (with_sock_ctx ctx) w) !! i = Some (with_sock_ctx ctx u)) as Hu1 by (by apply upd_ups_lookup).
  apply wp_bind. unfold wp at 1. rewrite (parse_wire i _ m _ Hm Hu1). apply wp_bind, wp_when.
  destruct (wire_ignored m); cbn [negb Zbool Z.eqb].
  { eapply HQ; [by do 2 apply upd_ups_lookup| |]; [destruct Hrok' as (_ & _ & Hwf & Him)|rewrite <- Hmi];
      destruct m as [| | | | | | |var [|f fl]| | | | |]; try split_and!; done. }
  apply wp_bind, wp_get. eapply wp_ups_upd; [by apply upd_ups_lookup|].
  eapply HQ; [by do 2 apply upd_ups_lookup| |].
  - destruct Hrok' as (_ & _ & Hwf & Him).
    destruct m as [| | | | | | |var [|f fl]| | | | |]; split_and!; done.
  - rewrite <- Hmi. by destruct m as [| | | | | | |var [|f fl]| | | | |].
Qed.

(** The server implements the protocol: reading the lines of any sequence of well-formed
    messages from a driver, it follows the abstract copy, message by message. *)
Lemma upsd_follows i u ms w :
  w_ups w !! i = Some u -> recv_ok u -> Forall wire_ok ms ->
  wp (sstate_readline i (ReadData (concat (wire_line <$> ms))))
    (fun _ w' => exists u', w_ups w' !! i = Some u' /\ recv_ok u'
      /\ mirror_of u' = fold_left apply_wire ms (mirror_of u)) w.
Proof.
  intros Hu Hrok Hms. unfold sstate_readline. apply wp_bind. eapply wp_ups_get; [done|].
  destruct Hrok as (Hconn & Hrest). rewrite Hconn. cbn [negb].
  assert (recv_ok u) as Hrok by done. clear Hconn Hrest.
  revert u w Hu Hrok. induction Hms as [|m ms Hm Hms IH]; intros u w Hu Hrok; csimpl.
  { apply wp_ret. by exists u. }
  eapply recv_line; [done..|]. intros u' w' Hu' Hrok' Hmi. rewrite <- Hmi. by apply IH.
Qed.

(** *** Reading in pieces *)

(** The reads of one connection, one after the other. *)
Definition read_chunks (i : nat) (chunks : list bytes) : M unit :=
  foldr (fun c k => sstate_readline i (ReadData c) ;; k) (mret tt) chunks.

Lemma parse_args_keeps i u arg w :
  w_ups w !! i = Some u ->
  wp (parse_args i arg) (fun _ w' => exists u', w_ups w' !! i = Some u'
    /\ u_sock_ctx u' = u_sock_ctx u /\ u_conn u' = u_conn u) w.
Proof.
  intros Hu. unfold parse_args. apply wp_bind, wp_get.
  assert (forall A (a : A) (w' : world), w_ups w' = w_ups w -> wp (mret a) (fun _ w' => exists u', w_ups w' !! i = Some u'
    /\ u_sock_ctx u' = u_sock_ctx u /\ u_conn u' = u_conn u) w') as Hret.
  { intros A a w' Hw. apply wp_ret. exists u. by rewrite Hw. }
  assert (forall A (a : A) f, u_sock_ctx (f u) = u_sock_ctx u -> u_conn (f u) = u_conn u ->
    wp (ups_upd i f ;; mret a) (fun _ w' => exists u', w_ups w' !! i = Some u'
      /\ u_sock_ctx u' = u_sock_ctx u /\ u_conn u' = u_conn u) w) as Hupd.
  { intros A a f H1 H2. apply wp_bind. eapply wp_ups_upd; [done|]. apply wp_ret. exists (f u).
    split_and!; [by apply upd_ups_lookup|done|done]. }
  unfold upd_tree, upd_cmds.
  repeat match goal with
  | |- wp (mret _) _ _ => by apply Hret
  | |- wp (ups_upd _ _ ;; mret _) _ _ => by apply Hupd
  | |- wp (modify _ ;; mret _) _ _ => apply wp_bind; by apply Hret
  | |- wp (match ?l with [] => _ | _ :: _ => _ end) _ _ => destruct l
  | |- wp (if ?b then _ else _) _ _ => destruct b
  end.
Qed.

Definition fed (r : Z) : Prop := r = 0 \/ r = 1.

Lemma ups_get_bind {B} i u w (k : upstype -> M B) : w_ups w !! i = Some u -> (ups_get i ≫= k) w = k u w.
Proof. intros Hu. unfold ups_get, mbind, M_bind. by rewrite Hu. Qed.

Lemma ups_upd_bind {B} i f u w (k : unit -> M B) :
  w_ups w !! i = Some u -> (ups_upd i f ≫= k) w = k tt (upd_ups i f w).
Proof. intros Hu. unfold mbind, M_bind. by rewrite (ups_upd_eq _ _ _ _ Hu). Qed.

Lemma feed_split i a : forall u b (Q : unit -> world -> Prop) w,
  w_ups w !! i = Some u -> Forall fed (feed_chars (u_sock_ctx u) a).1 ->
  wp (sstate_feed i (a ++ b)) Q w ->
  wp (sstate_feed i a) (fun _ w' => (exists u', w_ups w' !! i = Some u'
      /\ u_sock_ctx u' = (feed_chars (u_sock_ctx u) a).2 /\ u_conn u' = u_conn u)
    /\ wp (sstate_feed i b) Q w') w.
Proof.
  induction a as [|x a IH]; intros u b Q w Hu Hfed HQ; cbn [app sstate_feed feed_chars] in *.
  { apply wp_ret. split; [by exists u|done]. }
  unfold wp in HQ |- *. rewrite (ups_get_bind _ _ _ _ Hu) in HQ. rewrite (ups_get_bind _ _ _ _ Hu).
  destruct (pconf_char (u_sock_ctx u) x) as [r c1] eqn:E.
  destruct (feed_chars c1 a) as [rs c2] eqn:Ef. cbn [fst snd] in *. apply Forall_cons in Hfed as [Hr Hfed].
  rewrite (ups_upd_bind _ _ _ _ _ Hu) in HQ. rewrite (ups_upd_bind _ _ _ _ _ Hu).
  assert (w_ups (upd_ups i (fun u => set_u_sock_ctx u c1) w) !! i = Some (set_u_sock_ctx u c1)) as Hu1
    by (by apply (upd_ups_lookup i (fun u => set_u_sock_ctx u c1))).
  assert (forall u' (w' : world), w_ups w' !! i = Some u' -> u_sock_ctx u' = c1 -> u_conn u' = u_conn u ->
    wp (sstate_feed i (a ++ b)) Q w' ->
    wp (sstate_feed i a) (fun _ w' => (exists u', w_ups w' !! i = Some u'
      /\ u_sock_ctx u' = c2 /\ u_conn u' = u_conn u) /\ wp (sstate_feed i b) Q w') w') as Hgo.
  { intros u' w' Hu' Hctx Hcn HQ'. pose proof (IH u' b Q w' Hu') as IH'. rewrite Hctx, Ef, Hcn in IH'. by apply IH'. }
  destruct Hr as [-> | ->]; cbn [Z.eqb Pos.eqb] in *; [by eapply Hgo|].
  set (w0 := upd_ups _ _ w) in *. clearbody w0.
  apply wp_bind. apply wp_bind_inv in HQ. pose proof (parse_args_keeps i _ (args c1) _ Hu1) as Hk.
  unfold wp at 1 in HQ. unfold wp at 1 in Hk. unfold wp at 1.
  destruct (parse_args i (args c1) w0) as [[ok w1]|]; [|done]. destruct Hk as (u1 & Hu2 & Hctx & Hcn).
  apply wp_bind. apply wp_bind_inv in HQ. unfold when in *. destruct (negb _).
  - unfold wp at 1 in HQ. unfold wp at 1. unfold time, get, mbind, M_bind in HQ |- *.
    rewrite (ups_upd_eq _ _ _ _ Hu2) in HQ |- *.
    eapply (Hgo (set_u_last_heard u1 (w_now w1)));
      [by apply (upd_ups_lookup i (fun u => set_u_last_heard u (w_now w1)))|done|done|done].
  - by eapply Hgo.
Qed.

Lemma wires_feed ms c : ready c -> Forall wire_ok ms ->
  Forall fed (feed_chars c (concat (wire_line <$> ms))).1.
Proof.
  intros Hr Hms. revert c Hr. induction Hms as [|m ms Hm Hms IH]; intros c Hr; csimpl; [done|].
  destruct (feed_line _ _ Hr (wire_line_ok m Hm)) as (H1 & _ & H2). rewrite feed_chars_app. cbv zeta. cbn [fst].
  apply Forall_app. split; [|by apply IH]. unfold wire_line. rewrite H1. apply Forall_app. split.
  - apply Forall_replicate. by left.
  - apply Forall_singleton. by right.
Qed.

Lemma read_split i chunks : forall u (Q : unit -> world -> Prop) w,
  w_ups w !! i = Some u -> u_conn u = true -> Forall fed (feed_chars (u_sock_ctx u) (concat chunks)).1 ->
  wp (sstate_feed i (concat chunks)) Q w -> wp (read_chunks i chunks) Q w.
Proof.
  induction chunks as [|a chunks IH]; intros u Q w Hu Hconn Hfed HQ; [done|]. cbn [read_chunks foldr concat] in *.
  rewrite feed_chars_app in Hfed. cbv zeta in Hfed. cbn [fst] in Hfed. apply Forall_app in Hfed as [Hf1 Hf2].
  apply wp_bind. unfold sstate_readline. apply wp_bind. eapply wp_ups_get; [done|]. rewrite Hconn. cbn [negb].
  eapply wp_mono; [by eapply feed_split|]. cbv beta. intros _ w' [(u' & Hu' & Hctx & Hcn) HQ'].
  eapply (IH u'); [done|by rewrite Hcn|by rewrite Hctx|done].
Qed.

(** The same, whatever pieces the reads return. *)
Lemma upsd_follows_chunks i u ms chunks w :
  w_ups w !! i = Some u -> recv_ok u -> Forall wire_ok ms -> concat chunks = concat (wire_line <$> ms) ->
  wp (read_chunks i chunks)
    (fun _ w' => exists u', w_ups w' !! i = Some u' /\ recv_ok u'
      /\ mirror_of u' = fold_left apply_wire ms (mirror_of u)) w.
Proof.
  intros Hu Hrok Hms Hch. pose proof (upsd_follows i u ms w Hu Hrok Hms) as Hw.
  unfold sstate_readline, wp in Hw. rewrite (ups_get_bind _ _ _ _ Hu) in Hw.
  destruct Hrok as (Hconn & Hr & _). rewrite Hconn in Hw. cbn [negb] in Hw.
  eapply read_split; [done|done| |by rewrite Hch]. rewrite Hch. by apply wires_feed.
Qed.
