(* ===== verification/DMirror.v ===== *)
(** * upsd's copy reproduces the driver's state

    The dump that a driver sends to a client that asks for it, and the broadcasts
    that follow, as messages of [Wire]; with the theorem that upsd, reading them, holds
    what the driver holds. *)

From S2P Require Import Prelude CStr StrUtil StrFacts ParseConf ParseConfFacts NumFacts StateTree StateFacts.
From S2P Require Import Users Desc Tracking World SState Upsd NetGet Server ServerLib ServerFacts ProtoLines.
From S2P Require Import DState DStateFacts DriverMain DSock Wire.
From stdpp Require Import options.

(** ** Sending without failures *)

(** Nothing is about to fail, and no earlier failure is still in [errno]. *)
Definition calm (s : dstate) : Prop := d_writes s = [] /\ d_errno s <> ENOTCONN.

(** A connection that is not being closed. *)
Definition live (c : nat) (s : dstate) : Prop :=
  exists k, conn_find c (d_conns s) = Some k /\ k_closing k = false.

Definition sent_lines (c : nat) (ls : list bytes) (s : dstate) : dstate :=
  set_d_out s (d_out s ++ (Sent c <$> ls)).

Lemma sent_lines_nil c s : sent_lines c [] s = s.
Proof. unfold sent_lines. csimpl. rewrite app_nil_r. by destruct s. Qed.

Lemma sent_lines_app c l1 l2 s : sent_lines c l2 (sent_lines c l1 s) = sent_lines c (l1 ++ l2) s.
Proof. unfold sent_lines. simpl. by rewrite fmap_app, app_assoc. Qed.

Definition fits (msg : bytes) : Prop := msg <> [] /\ (length msg < ST_SOCK_BUF_LEN)%nat.

Lemma conn_get_find c k s : conn_find c (d_conns s) = Some k -> conn_get c s = inr (k, s).
Proof. unfold conn_get. by intros ->. Qed.

Lemma write_calm c k buf s :
  conn_find c (d_conns s) = Some k -> d_writes s = [] ->
  write c buf s = inr (Z.of_nat (length buf), sent_lines c [buf] s).
Proof.
  intros Hk Hw. unfold write, mbind, D_bind. rewrite (conn_get_find _ _ _ Hk).
  unfold dget, dmodify. rewrite Hw. simpl. unfold sent_lines. simpl.
  do 3 f_equal. destruct s; simpl in *. by rewrite Hw.
Qed.

(** [send_to_one] reports success by its result and leaves [errno] as it was. *)
Lemma send_to_one_writes c msg s :
  live c s -> d_writes s = [] -> fits msg -> send_to_one c msg s = inr (1, sent_lines c [msg] s).
Proof.
  intros (k & Hk & Hcl) Hw [Hne Hlen]. unfold send_to_one, mbind at 1, D_bind at 1.
  rewrite (conn_get_find _ _ _ Hk), Hcl.
  assert (1 <= Z.of_nat (length msg)) by (destruct msg; simpl; [done|lia]).
  rewrite (proj2 (Z.ltb_ge _ _)) by lia.
  rewrite snprintf_s_fits by done. unfold mbind, D_bind. rewrite (write_calm _ _ _ _ Hk Hw).
  rewrite (proj2 (Z.ltb_ge _ _)) by lia. unfold mret at 1, D_ret at 1.
  by rewrite write_failed_full.
Qed.

Lemma send_to_one_calm c msg s :
  live c s -> calm s -> fits msg -> send_to_one c msg s = inr (1, sent_lines c [msg] s).
Proof. intros Hl [Hw _]. by apply send_to_one_writes. Qed.

Lemma live_sent c c' ls s : live c s -> live c (sent_lines c' ls s).
Proof. done. Qed.
Lemma calm_sent c ls s : calm s -> calm (sent_lines c ls s).
Proof. done. Qed.
#[local] Hint Resolve live_sent calm_sent : nut.

Lemma dump_next_calm r k s : calm s -> r <> 0 -> dump_next r k s = k s.
Proof.
  intros [_ He] Hr. unfold dump_next, mbind, D_bind, dget. rewrite decide_False by done.
  by rewrite (proj2 (Z.eqb_neq _ _) Hr).
Qed.

Lemma dump_each_calm {A} c (line : A -> bytes) l k s :
  live c s -> calm s -> Forall fits (line <$> l) ->
  dump_each c line l k s = k (sent_lines c (line <$> l) s).
Proof.
  intros Hl Hc. revert s Hl Hc. induction l as [|x l IH]; intros s Hl Hc; csimpl.
  { by rewrite sent_lines_nil. }
  intros [Hx Hall]%Forall_cons. unfold mbind, D_bind. rewrite send_to_one_calm by done.
  rewrite dump_next_calm by auto with nut. rewrite IH by auto with nut. by rewrite sent_lines_app.
Qed.

Lemma unless_closing_live c k s : live c s -> unless_closing c k s = k s.
Proof.
  intros (c' & Hc & Hcl). unfold unless_closing, mbind, D_bind. by rewrite (conn_get_find _ _ _ Hc), Hcl.
Qed.

Lemma handled_calm m k s r ls c :
  m s = inr (r, sent_lines c ls s) -> calm s -> r <> 0 -> handled m k s = k r (sent_lines c ls s).
Proof.
  intros Hm [_ He] Hr. unfold handled, mbind, D_bind, dget. rewrite Hm.
  rewrite decide_False by done. by rewrite (proj2 (Z.eqb_neq _ _) Hr).
Qed.

(** ** The dump *)

Definition node_lines (n : st_node) : list bytes :=
  setinfo_line n :: (addenum_line (n_var n) <$> n_enum_list n)
  ++ (addrange_line (n_var n) <$> n_range_list n)
  ++ (if negb (n_aux n =? 0) then [setaux_line n] else [])
  ++ (if negb (n_flags n =? 0) then [setflags_line n] else []).

Lemma dump_node_calm c n s :
  live c s -> calm s -> Forall fits (node_lines n) ->
  st_tree_dump_conn_one_node n c s = inr (1, sent_lines c (node_lines n) s).
Proof.
  intros Hl Hc Hall. unfold st_tree_dump_conn_one_node. rewrite unless_closing_live by done.
  assert (node_lines n = (setinfo_line <$> [n]) ++ (addenum_line (n_var n) <$> n_enum_list n)
    ++ (addrange_line (n_var n) <$> n_range_list n)
    ++ (setaux_line <$> (if negb (n_aux n =? 0) then [n] else []))
    ++ (setflags_line <$> (if negb (n_flags n =? 0) then [n] else []))) as Heq
    by (unfold node_lines; by repeat case_match).
  rewrite Heq in *. rewrite !Forall_app in Hall. destruct Hall as (H1 & H2 & H3 & H4 & H5).
  do 5 rewrite dump_each_calm by auto with nut. by rewrite !sent_lines_app, <- ?app_assoc.
Qed.

Fixpoint tree_lines (t : st_tree) : list bytes :=
  match t with Leaf => [] | Node n l r => tree_lines l ++ node_lines n ++ tree_lines r end.

Lemma dump_tree_calm c t s :
  live c s -> calm s -> Forall fits (tree_lines t) ->
  st_tree_dump_conn t c s = inr (1, sent_lines c (tree_lines t) s).
Proof.
  revert s. induction t as [|n l IHl r IHr]; intros s Hl Hc Hall.
  { simpl. rewrite unless_closing_live by done. by rewrite sent_lines_nil. }
  cbn [tree_lines] in Hall. rewrite !Forall_app in Hall. destruct Hall as (H1 & H2 & H3).
  cbn [st_tree_dump_conn tree_lines]. rewrite unless_closing_live by done.
  assert (forall s, live c s -> calm s ->
    (send_ret ← st_tree_dump_conn_one_node n c;
     dump_next send_ret
       (if is_node r then
          send_ret ← st_tree_dump_conn r c;
          err ← dget d_errno;
          if decide (err = ENOTCONN) then mret (-2) else mret send_ret
        else mret 1)) s = inr (1, sent_lines c (node_lines n ++ tree_lines r) s)) as Hhere.
  { clear s Hl Hc. intros s Hl Hc. unfold mbind at 1, D_bind at 1. rewrite dump_node_calm by done.
    rewrite dump_next_calm by auto with nut. rewrite <- sent_lines_app. destruct r as [|n' l' r'].
    - simpl. by rewrite sent_lines_nil.
    - cbn [is_node]. unfold mbind at 1, D_bind at 1. rewrite IHr by auto with nut.
      unfold mbind, D_bind, dget. rewrite decide_False; [done|]. by destruct Hc. }
  destruct l as [|n' l' r']; cbn [is_node].
  - by apply Hhere.
  - unfold mbind at 1, D_bind at 1. rewrite IHl by done. rewrite dump_next_calm by auto with nut.
    rewrite Hhere by auto with nut. by rewrite sent_lines_app.
Qed.

Definition dump_lines (s : dstate) : list bytes :=
  (if d_stale s =? 1 then [$"DATASTALE" ++ [LF]] else [])
  ++ tree_lines (d_root s) ++ (addcmd_line <$> d_cmds s)
  ++ (if d_stale s =? 0 then [$"DATAOK" ++ [LF]] else []) ++ [$"DUMPDONE" ++ [LF]].

Lemma sock_dump_calm c v s :
  live c s -> calm s -> Forall fits (dump_lines s) ->
  sock_dump c true v s = inr (1, sent_lines c (dump_lines s) s).
Proof.
  intros Hl Hc. unfold dump_lines. rewrite !Forall_app. intros (_ & Ht & Hcmds & _).
  assert (forall msg k s, live c s -> calm s -> fits msg ->
    handled (send_to_one c msg) k s = k 1 (sent_lines c [msg] s)) as Hsend.
  { intros msg k s1 Hl1 Hc1 Hf. erewrite handled_calm; [done|by apply send_to_one_calm|done|done]. }
  assert (fits ($"DATASTALE" ++ [LF]) /\ fits ($"DATAOK" ++ [LF]) /\ fits ($"DUMPDONE" ++ [LF])) as (F1 & F2 & F3)
    by (split_and!; (split; [done|apply Nat.ltb_lt; reflexivity])).
  assert (forall s1, live c s1 -> calm s1 -> d_stale s1 = d_stale s -> d_root s1 = d_root s -> d_cmds s1 = d_cmds s ->
    (root ← dget d_root;
     handled (st_tree_dump_conn root c) (fun _ => handled (cmd_dump_conn c) (fun _ =>
       stale ← dget d_stale;
       if stale =? 0 then handled (send_to_one c ($"DATAOK" ++ [LF]))
            (fun _ => handled (send_to_one c ($"DUMPDONE" ++ [LF])) (fun r => mret r))
       else handled (send_to_one c ($"DUMPDONE" ++ [LF])) (fun r => mret r)))) s1
    = inr (1, sent_lines c (tree_lines (d_root s) ++ (addcmd_line <$> d_cmds s)
        ++ (if d_stale s =? 0 then [$"DATAOK" ++ [LF]] else []) ++ [$"DUMPDONE" ++ [LF]]) s1)) as Hrest.
  { intros s1 Hl1 Hc1 Hs1 Hr1 Hcm1. unfold mbind at 1, D_bind at 1, dget at 1. rewrite Hr1.
    erewrite handled_calm by (try apply dump_tree_calm; done).
    rewrite (handled_calm (cmd_dump_conn c) _ _ 1 (addcmd_line <$> d_cmds s) c); [| |by auto with nut|done].
    2: { unfold cmd_dump_conn. rewrite unless_closing_live by auto with nut.
         unfold mbind, D_bind, dget. cbn [d_cmds sent_lines set_d_out]. rewrite Hcm1.
         rewrite (dump_each_calm c addcmd_line) by auto with nut. done. }
    unfold mbind, D_bind, dget. cbn [d_stale sent_lines set_d_out]. rewrite Hs1.
    destruct (d_stale s =? 0).
    - do 2 rewrite Hsend by auto with nut. unfold mret, D_ret.
      by rewrite !sent_lines_app, <- ?app_assoc.
    - rewrite Hsend by auto with nut. unfold mret, D_ret.
      by rewrite !sent_lines_app, <- ?app_assoc. }
  unfold sock_dump. cbv zeta. unfold mbind at 1, D_bind at 1, dget at 1.
  destruct (d_stale s =? 1) eqn:Es.
  - rewrite Hsend by done. rewrite Hrest by auto with nut. by rewrite sent_lines_app.
  - by rewrite Hrest.
Qed.

(** ** The dump as messages *)

(** Escaped text, without the backslashes. *)
Fixpoint unescape (s : bytes) : bytes :=
  match s with
  | [] => []
  | c :: s' =>
      if decide (c = chr 92) then match s' with [] => [] | d :: s'' => d :: unescape s'' end
      else c :: unescape s'
  end.

Lemma unescape_escape s : unescape (escape s) = s.
Proof.
  induction s as [|x s IH]; [done|]. cbn [escape flat_map]. change (flat_map escape_char s) with (escape s).
  unfold escape_char. destruct (strchr PCONF_ESCAPE x) eqn:E; csimpl.
  - by rewrite IH.
  - rewrite decide_False; [by rewrite IH|]. intros ->. by vm_compute in E.
Qed.

(** The words of the flags that the protocol knows. *)
Definition public_words (flags : Z) : list bytes :=
  (if has_flag flags ST_FLAG_RW then [$"RW"] else [])
  ++ (if has_flag flags ST_FLAG_STRING then [$"STRING"] else [])
  ++ (if has_flag flags ST_FLAG_NUMBER then [$"NUMBER"] else []).

Definition node_msgs (n : st_node) : list wire :=
  WSetInfo (n_var n) (n_raw n)
  :: ((fun e => WAddEnum (n_var n) (unescape e)) <$> n_enum_list n)
  ++ ((fun r => WAddRange (n_var n) r.1 r.2) <$> n_range_list n)
  ++ (if negb (n_aux n =? 0) then [WSetAux (n_var n) (n_aux n)] else [])
  ++ (if negb (n_flags n =? 0) then [WSetFlags (n_var n) (public_words (n_flags n))] else []).

Definition dump_msgs (s : dstate) : list wire :=
  (if d_stale s =? 1 then [WDataStale] else [])
  ++ concat (node_msgs <$> nodes (d_root s)) ++ (WAddCmd <$> d_cmds s)
  ++ (if d_stale s =? 0 then [WDataOk] else []) ++ [WDumpDone].

(** *** The driver's data that the protocol can carry *)

Definition enum_ok (e : bytes) : Prop := value_ok (unescape e) /\ e = escape (unescape e).
Definition range_ok (r : Z * Z) : Prop := int_ok r.1 /\ int_ok r.2 /\ r.1 <= r.2.

#[export] Instance enum_ok_dec e : Decision (enum_ok e).
Proof. unfold enum_ok. apply _. Defined.
#[export] Instance range_ok_dec r : Decision (range_ok r).
Proof. unfold range_ok. apply _. Defined.

Record node_ok (n : st_node) : Prop := mkNodeOk {
  no_name : name_ok (n_var n);
  no_value : value_ok (n_raw n);
  no_val : val_ok n;
  no_enums : NoDup (n_enum_list n) /\ Forall enum_ok (n_enum_list n);
  no_ranges : NoDup (n_range_list n).*1 /\ NoDup (n_range_list n).*2 /\ Forall range_ok (n_range_list n);
  no_aux : long_ok (n_aux n)
}.

Record driver_ok (s : dstate) : Prop := mkDriverOk {
  do_bst : bst (d_root s);
  do_nodes : Forall node_ok (nodes (d_root s));
  do_cmds : cmds_ok (d_cmds s) /\ Forall name_ok (d_cmds s);
  do_stale : d_stale s = 0 \/ d_stale s = 1
}.

Lemma value_encode v : value_ok v -> pconf_encode v ST_MAX_VALUE_LEN = escape v.
Proof.
  intros [Hp Hl]. apply pconf_encode_fits; [|done|unfold ST_MAX_VALUE_LEN; lia..].
  eapply Forall_impl; [exact Hp|]. intros c Hc ->. destruct Hc as [Hc _]. vm_compute in Hc. done.
Qed.

Lemma public_words_sublist flags : sublist (public_words flags) flag_words.
Proof.
  unfold public_words, flag_words. destruct (has_flag _ _), (has_flag _ _), (has_flag _ _); simpl;
    repeat first [apply sublist_skip | apply sublist_cons | apply sublist_nil].
Qed.

Lemma flag_list_render var flags :
  name_ok var -> flag_list var flags = render (Bare var :: (Bare <$> public_words flags)).
Proof.
  intros (_ & _ & Hl). unfold flag_list, NAME_LIMIT in *.
  assert (forall dst s, (S (length dst + length s) < SMALLBUF)%nat -> snprintfcat dst SMALLBUF s = dst ++ s) as Hcat
    by (intros dst s Hs; apply snprintfcat_id; by rewrite length_app).
  rewrite snprintf_s_fits by (unfold SMALLBUF; lia). unfold public_words, SMALLBUF in *.
  destruct (has_flag flags ST_FLAG_RW), (has_flag flags ST_FLAG_STRING), (has_flag flags ST_FLAG_NUMBER);
    cbn [app fmap list_fmap render render_token];
    rewrite ?(Hcat var), ?(Hcat (var ++ _)), ?(Hcat ((var ++ _) ++ _))
      by (rewrite ?length_app; cbn [length String.list_ascii_of_string]; lia);
    rewrite <- ?app_assoc; reflexivity.
Qed.

Lemma setflags_text_wire var flags :
  name_ok var -> $"SETFLAGS " ++ flag_list var flags ++ [LF] = wire_line (WSetFlags var (public_words flags)).
Proof.
  intros Hn. rewrite flag_list_render by done. unfold wire_line. cbn [wire_tokens].
  change (render (Bare ($"SETFLAGS") :: Bare var :: (Bare <$> public_words flags)))
    with ($"SETFLAGS" ++ [chr 32] ++ render (Bare var :: (Bare <$> public_words flags))).
  by rewrite <- !app_assoc.
Qed.

Lemma node_lines_wire n : node_ok n -> node_lines n = wire_line <$> node_msgs n.
Proof.
  intros [Hname Hv Hval [_ He] _ _]. unfold node_lines, node_msgs. csimpl. rewrite !fmap_app. f_equal; [|f_equal; [|f_equal; [|f_equal]]].
  - unfold setinfo_line. rewrite Hval, value_encode by done. unfold wire_line, quoted.
    cbn [wire_tokens render render_token]. by rewrite <- !app_assoc.
  - rewrite <- list_fmap_compose. apply list_fmap_ext. intros i e Hi.
    rewrite Forall_lookup in He. destruct (He _ _ Hi) as [_ Heq]. unfold addenum_line, wire_line, quoted.
    cbn [compose wire_tokens render render_token]. rewrite <- Heq. by rewrite <- !app_assoc.
  - rewrite <- list_fmap_compose. apply list_fmap_ext. intros i r _. unfold addrange_line, wire_line.
    cbn [compose wire_tokens render render_token]. by rewrite <- !app_assoc.
  - case_match; [|done]. csimpl. unfold setaux_line, wire_line. cbn [wire_tokens render render_token].
    by rewrite <- !app_assoc.
  - case_match; [|done]. csimpl. f_equal. by apply setflags_text_wire.
Qed.

Lemma node_msgs_ok n : node_ok n -> Forall wire_ok (node_msgs n).
Proof.
  intros [Hname Hv _ [_ He] (_ & _ & Hr) Ha]. unfold node_msgs. constructor; [done|].
  rewrite !Forall_app. split_and!.
  - apply Forall_fmap. eapply Forall_impl; [exact He|]. intros e [? _]. done.
  - apply Forall_fmap. eapply Forall_impl; [exact Hr|]. intros r (? & ? & _). done.
  - case_match; [|done]. by constructor.
  - case_match; [|done]. constructor; [|done]. split; [done|]. apply public_words_sublist.
Qed.

Lemma tree_lines_nodes t : tree_lines t = concat (node_lines <$> nodes t).
Proof.
  induction t as [|n l IHl r IHr]; [done|]. cbn [tree_lines nodes]. rewrite IHl, IHr.
  by rewrite fmap_app, concat_app, fmap_cons.
Qed.

Lemma addcmd_line_wire c : addcmd_line c = wire_line (WAddCmd c).
Proof. unfold addcmd_line, wire_line. cbn [wire_tokens render render_token]. by rewrite <- !app_assoc. Qed.

Lemma dump_lines_wire s : driver_ok s -> dump_lines s = wire_line <$> dump_msgs s.
Proof.
  intros [_ Hn _ _]. unfold dump_lines, dump_msgs. rewrite !fmap_app. f_equal; [by case_match|].
  rewrite tree_lines_nodes. f_equal; [|f_equal; [|by case_match]].
  - induction Hn as [|n ns Hn Hns IH]; [done|]. rewrite !fmap_cons. cbn [concat].
    rewrite fmap_app, node_lines_wire by done. by f_equal.
  - rewrite <- list_fmap_compose. apply list_fmap_ext. intros. apply addcmd_line_wire.
Qed.

Lemma dump_msgs_ok s : driver_ok s -> Forall wire_ok (dump_msgs s).
Proof.
  intros [_ Hn [_ Hc] _]. unfold dump_msgs. rewrite !Forall_app. split_and!; try (by case_match; repeat constructor); try (by repeat constructor).
  - induction Hn as [|n ns Hn Hns IH]; [constructor|]. rewrite fmap_cons. cbn [concat]. apply Forall_app. split; [by apply node_msgs_ok|done].
  - by apply Forall_fmap.
Qed.

Lemma wire_fits m : wire_ok m -> fits (wire_line m).
Proof.
  intros Hm. split; [|by apply wire_line_fits]. unfold wire_line. intros [_ ?]%app_nil. done.
Qed.
