(* ===== verification/DReplay.v ===== *)
(** * Replaying a dump

    The messages of a dump ([DMirror.dump_msgs]) applied to the empty copy that upsd
    starts with: the copy then holds what the protocol carries of the driver's state. *)

From S2P Require Import Prelude CStr StrUtil StrFacts ParseConf ParseConfFacts NumFacts StateTree StateFacts.
From S2P Require Import Users Desc Tracking World SState Upsd NetGet Server ServerLib ServerFacts ProtoLines.
From S2P Require Import DState DStateFacts DriverMain DSock Wire DMirror.
From stdpp Require Import options.

(** ** One entry *)

(** Messages about a single variable change its entry only. *)
Lemma apply_same_var v ms x :
  Forall (fun m => wire_var m = Some v) ms ->
  fold_left apply_wire ms x
  = mkMirror (partial_alter (fun o => fold_left (fun o m => wire_entry m o) ms o) (lower v) (mi_vars x))
      (mi_cmds x) (mi_data_ok x) (mi_dumpdone x).
Proof.
  intros Hms. revert x. induction Hms as [|m ms Hm Hms IH]; intros x.
  { simpl. rewrite partial_alter_id by done. by destruct x. }
  cbn [fold_left]. rewrite IH. unfold apply_wire. rewrite Hm. cbn [mi_vars mi_cmds mi_data_ok mi_dumpdone].
  f_equal; [|by destruct m..]. apply map_eq. intros k. destruct (decide (k = lower v)) as [->|].
  - by rewrite !lookup_partial_alter_eq by done.
  - by rewrite !lookup_partial_alter_ne by done.
Qed.

(** An entry that holds at most a text. *)
Definition fresh (o : option pub_entry) : Prop := forall e, o = Some e -> exists raw, e = mkPub raw 0 0 [] [].

Lemma enum_add_new l e : e ∉ l -> st_tree_enum_add l e = (l ++ [e], 1).
Proof.
  induction l as [|v l IH]; [done|]. intros [Hne Hl]%not_elem_of_cons. cbn [st_tree_enum_add].
  destruct (streq v e) eqn:E; [apply streq_true in E; congruence|]. simpl. by rewrite IH.
Qed.

Lemma enums_replay v raw fl aux rs l : forall pre,
  NoDup (pre ++ l) -> Forall enum_ok l ->
  fold_left (fun o m => wire_entry m o) ((fun e => WAddEnum v (unescape e)) <$> l) (Some (mkPub raw fl aux pre rs))
  = Some (mkPub raw fl aux (pre ++ l) rs).
Proof.
  induction l as [|e l IH]; intros pre Hnd; [by rewrite app_nil_r|]. intros [[Hv He] Hall]%Forall_cons.
  rewrite fmap_cons. cbn [fold_left wire_entry]. cbn [e_raw e_flags e_aux e_enums e_ranges].
  rewrite value_encode, <- He by done. rewrite enum_add_new.
  - cbn [fst]. rewrite IH; [by rewrite <- app_assoc|by rewrite <- app_assoc|done].
  - apply NoDup_app in Hnd as (_ & Hpre & _). intros Hin. apply (Hpre _ Hin). left.
Qed.

Lemma range_add_new l mn mx : mn ∉ l.*1 -> mx ∉ l.*2 -> st_tree_range_add l mn mx = (l ++ [(mn, mx)], 1).
Proof.
  induction l as [|[a b] l IH]; [done|]. csimpl.
  intros [Hn1 Hl1]%not_elem_of_cons [Hn2 Hl2]%not_elem_of_cons.
  rewrite (proj2 (Z.eqb_neq a mn)), (proj2 (Z.eqb_neq b mx)) by congruence. simpl. by rewrite IH.
Qed.

Lemma ranges_replay v raw fl aux es l : forall pre,
  NoDup (pre ++ l).*1 -> NoDup (pre ++ l).*2 -> Forall range_ok l ->
  fold_left (fun o m => wire_entry m o) ((fun r => WAddRange v r.1 r.2) <$> l) (Some (mkPub raw fl aux es pre))
  = Some (mkPub raw fl aux es (pre ++ l)).
Proof.
  induction l as [|[mn mx] l IH]; intros pre Hnd1 Hnd2; [by rewrite app_nil_r|].
  intros [(_ & _ & Hle) Hall]%Forall_cons. simpl in Hle.
  rewrite fmap_cons. cbn [fold_left wire_entry fst snd]. cbn [e_raw e_flags e_aux e_enums e_ranges].
  rewrite Z.gtb_ltb, (proj2 (Z.ltb_ge _ _)) by done. rewrite range_add_new.
  - cbn [fst]. rewrite IH; rewrite <- ?app_assoc; done.
  - rewrite fmap_app in Hnd1. apply NoDup_app in Hnd1 as (_ & Hpre & _). intros Hin. apply (Hpre _ Hin). left.
  - rewrite fmap_app in Hnd2. apply NoDup_app in Hnd2 as (_ & Hpre & _). intros Hin. apply (Hpre _ Hin). left.
Qed.

(** The flag words carry the flags that the protocol knows. *)
Lemma public_words_flags f : fold_left setflags_word (public_words f) 0 = Z.land f PUBLIC_FLAGS.
Proof.
  assert (forall m, Z.land PUBLIC_FLAGS m = m -> has_flag f m = has_flag (Z.land f PUBLIC_FLAGS) m) as Hf.
  { intros m Hm. unfold has_flag. by rewrite <- Z.land_assoc, Hm. }
  unfold public_words. rewrite !Hf by done.
  change PUBLIC_FLAGS with (Z.ones 3). rewrite Z.land_ones by done.
  pose proof (Z.mod_pos_bound f (2 ^ 3) ltac:(lia)) as Hb. revert Hb. generalize (f mod 2 ^ 3) as z. clear.
  intros z Hz. change (2 ^ 3) with 8 in Hz.
  assert (z = 0 \/ z = 1 \/ z = 2 \/ z = 3 \/ z = 4 \/ z = 5 \/ z = 6 \/ z = 7) as Hc by lia.
  repeat destruct Hc as [->|Hc]; [reflexivity..|]. by subst z.
Qed.

Lemma setflags_replay v f raw aux es rs :
  fold_left (fun o m => wire_entry m o) (if negb (f =? 0) then [WSetFlags v (public_words f)] else [])
    (Some (mkPub raw 0 aux es rs)) = Some (mkPub raw (Z.land f PUBLIC_FLAGS) aux es rs).
Proof.
  pose proof (public_words_flags f) as Hw. destruct (Z.eqb_spec f 0) as [->|Hne]; [done|].
  cbn [negb fold_left wire_entry]. destruct (public_words f) as [|w ws]; rewrite <- Hw; done.
Qed.

Lemma node_replay n o :
  node_ok n -> fresh o -> fold_left (fun o m => wire_entry m o) (node_msgs n) o = Some (pub n).
Proof.
  intros [_ _ _ [Hnd He] (Hr1 & Hr2 & Hr) _] Ho. unfold node_msgs. cbn [fold_left].
  assert (wire_entry (WSetInfo (n_var n) (n_raw n)) o = Some (mkPub (n_raw n) 0 0 [] [])) as ->.
  { destruct o as [e|]; [|done]. by destruct (Ho e eq_refl) as [raw ->]. }
  rewrite !fold_left_app, enums_replay, ranges_replay by done. cbn [app].
  destruct (Z.eqb_spec (n_aux n) 0) as [Ha|Ha]; cbn [negb fold_left wire_entry e_raw e_flags e_aux e_enums e_ranges];
    rewrite setflags_replay; unfold pub; [by rewrite Ha|done].
Qed.

(** ** The whole tree *)

Definition pub_pair (n : st_node) : bytes * pub_entry := (lower (n_var n), pub n).

Lemma nodes_replay ns : forall x,
  NoDup (pub_pair <$> ns).*1 -> Forall node_ok ns ->
  Forall (fun n => fresh (mi_vars x !! lower (n_var n))) ns ->
  fold_left apply_wire (concat (node_msgs <$> ns)) x
  = mkMirror (list_to_map (pub_pair <$> ns) ∪ mi_vars x) (mi_cmds x) (mi_data_ok x) (mi_dumpdone x).
Proof.
  induction ns as [|n ns IH]; intros x.
  { intros _ _ _. csimpl. rewrite (left_id_L ∅ (∪)). by destruct x. }
  rewrite !fmap_cons. cbn [concat list_to_map foldr]. intros [Hn Hnd]%NoDup_cons [Hok Hoks]%Forall_cons [Hf Hfs]%Forall_cons.
  rewrite fold_left_app, (apply_same_var (n_var n) (node_msgs n)).
  2: { unfold node_msgs. constructor; [done|]. rewrite !Forall_app. split_and!;
         [by apply Forall_fmap, Forall_true|by apply Forall_fmap, Forall_true|by case_match; constructor|by case_match; constructor]. }
  assert (partial_alter (fun o => fold_left (fun o m => wire_entry m o) (node_msgs n) o) (lower (n_var n)) (mi_vars x)
    = <[lower (n_var n) := pub n]> (mi_vars x)) as ->.
  { apply map_eq. intros k. destruct (decide (k = lower (n_var n))) as [->|].
    - by rewrite lookup_partial_alter_eq, lookup_insert_eq, node_replay.
    - by rewrite lookup_partial_alter_ne, lookup_insert_ne. }
  rewrite IH; [|done|done|].
  - cbn [mi_vars mi_cmds mi_data_ok mi_dumpdone]. f_equal.
    rewrite <- insert_union_r, insert_union_l; [done|]. by apply not_elem_of_list_to_map_1.
  - cbn [mi_vars]. rewrite Forall_forall in *. intros n' Hn'. rewrite lookup_insert_ne; [by apply Hfs|].
    intros Heq. apply Hn. rewrite <- list_fmap_compose. apply list_elem_of_fmap. by exists n'.
Qed.

Lemma sorted_names_nodup l : StronglySorted before l -> NoDup (pub_pair <$> l).*1.
Proof.
  rewrite <- list_fmap_compose. induction 1 as [|n l Hs IH Hn]; csimpl; constructor; [|done].
  intros (m & Heq & Hm)%list_elem_of_fmap. rewrite Forall_forall in Hn.
  by apply (before_ne n m); [apply Hn|].
Qed.

Lemma pub_map_nodes t : bst t -> pub_map t = list_to_map (pub_pair <$> nodes t).
Proof.
  intros Hb. pose proof (sorted_names_nodup _ (bst_sorted t Hb)) as Hnd. apply map_eq. intros k.
  apply option_eq. intros e. rewrite <- elem_of_list_to_map by done. unfold pub_map.
  rewrite lookup_fmap, fmap_Some, list_elem_of_fmap. split.
  - intros (n & [Hin <-]%to_map_elem & ->). by exists n.
  - intros (n & [= -> ->] & Hin). exists n. split; [by apply nodes_to_map|done].
Qed.

(** ** The commands *)

Lemma addcmd_last l c : Forall (fun x => cmd_before x c) l -> state_addcmd l c = (l ++ [c], 1).
Proof.
  induction 1 as [|x l Hx Hl IH]; [done|]. unfold cmd_before in Hx. cbn [state_addcmd].
  rewrite Z.gtb_ltb, (proj2 (Z.ltb_ge 0 _)), (proj2 (Z.ltb_lt _ 0)) by lia. by rewrite IH.
Qed.

Lemma cmds_replay l : forall pre x,
  cmds_ok (pre ++ l) -> mi_cmds x = pre ->
  fold_left apply_wire (WAddCmd <$> l) x = mkMirror (mi_vars x) (pre ++ l) (mi_data_ok x) (mi_dumpdone x).
Proof.
  induction l as [|c l IH]; intros pre x Hok Hx; csimpl.
  { rewrite app_nil_r, <- Hx. by destruct x. }
  rewrite (IH (pre ++ [c])); [by rewrite <- app_assoc|by rewrite <- app_assoc|].
  simpl. rewrite Hx, addcmd_last; [done|].
  clear -Hok. induction pre as [|p pre IH]; [done|]. apply StronglySorted_inv in Hok as [Hs Hp].
  constructor; [|by apply IH]. rewrite Forall_forall in Hp. apply Hp. apply elem_of_app. right. left.
Qed.

(** ** The dump *)

(** What the protocol carries of a driver's state. *)
Definition driver_mirror (s : dstate) : mirror :=
  mkMirror (pub_map (d_root s)) (d_cmds s) (if d_stale s =? 0 then 1 else 0) 1.

Lemma dump_replay s x :
  driver_ok s -> mi_cmds x = [] -> (forall k, fresh (mi_vars x !! k)) ->
  fold_left apply_wire (dump_msgs s) x
  = mkMirror (pub_map (d_root s) ∪ mi_vars x) (d_cmds s) (if d_stale s =? 0 then 1 else 0) 1.
Proof.
  intros [Hb Hn [Hc _] Hst] Hx Hf. unfold dump_msgs. rewrite !fold_left_app.
  set (y := fold_left apply_wire (if d_stale s =? 1 then [WDataStale] else []) x).
  assert (mi_vars y = mi_vars x /\ mi_cmds y = [] /\ (d_stale s = 1 -> mi_data_ok y = 0)) as (Hy1 & Hy2 & Hy3).
  { unfold y. destruct Hst as [-> | ->]; simpl; done. }
  clearbody y. rewrite nodes_replay; [|by apply sorted_names_nodup, bst_sorted|done|by rewrite Hy1; apply Forall_true].
  rewrite (cmds_replay _ []) by done. rewrite <- pub_map_nodes, Hy1 by done. cbn [mi_vars mi_cmds mi_data_ok mi_dumpdone app].
  destruct Hst as [Hs|Hs]; rewrite Hs; simpl; [done|]. by rewrite Hy3.
Qed.

(** upsd's record of a driver it has just connected to ([sstate_connect]). *)
Record just_connected (u : upstype) : Prop := mkConnected {
  jc_conn : u_conn u = true;
  jc_ctx : u_sock_ctx u = pconf_init;
  jc_vars : exists now, u_inforoot u = (state_setinfo now Leaf ($"ups.status") ($"WAIT")).1;
  jc_cmds : u_cmdlist u = []
}.

Definition WAITING : gmap bytes pub_entry := {[ $"ups.status" := mkPub ($"WAIT") 0 0 [] [] ]}.

Lemma just_connected_ok u :
  just_connected u -> recv_ok u /\ mi_vars (mirror_of u) = WAITING /\ mi_cmds (mirror_of u) = [].
Proof.
  intros [Hc Hctx [now Hr] Hcmds].
  pose proof (run_op_wf Leaf (OpSetInfo now ($"ups.status") ($"WAIT")) tree_wf_leaf) as Hwf.
  cbn [run_op] in Hwf. rewrite <- Hr in Hwf.
  assert (to_map (u_inforoot u) = {[ $"ups.status" := setinfo_new now ($"ups.status") ($"WAIT") ]}) as Hmap
    by (rewrite Hr; reflexivity).
  split; [split_and!; [done| |done|]|].
  - rewrite Hctx. apply ready_init.
  - unfold no_immutable. rewrite Hmap. by apply map_Forall_singleton.
  - simpl. unfold pub_map. rewrite Hmap, map_fmap_singleton. done.
Qed.

(** The lines that a connection has been sent, one after the other. *)
Definition stream (c : nat) (outs : list dout) : bytes :=
  concat (omap (fun o => match o with Sent c' data => if (c' =? c)%nat then Some data else None | Closed _ => None end) outs).

Lemma stream_app c o1 o2 : stream c (o1 ++ o2) = stream c o1 ++ stream c o2.
Proof. unfold stream. by rewrite omap_app, concat_app. Qed.

Lemma stream_sent c ls : stream c (Sent c <$> ls) = concat ls.
Proof.
  unfold stream. f_equal. induction ls as [|l ls IH]; csimpl; [done|]. by rewrite Nat.eqb_refl, IH.
Qed.

(** DUMPALL, as messages. *)
Lemma dumpall_run drv pid c s :
  live c s -> calm s -> driver_ok s ->
  sock_arg drv pid c [$"DUMPALL"] s = inr (1, sent_lines c (wire_line <$> dump_msgs s) s).
Proof.
  intros Hl Hc Hok. unfold sock_arg. rewrite unless_closing_live by done. eval_keywords.
  rewrite <- dump_lines_wire by done. apply sock_dump_calm; [done..|].
  rewrite dump_lines_wire by done. apply Forall_fmap. eapply Forall_impl; [by apply dump_msgs_ok|]. apply wire_fits.
Qed.

Lemma stream_dump c s ls : stream c (d_out (sent_lines c ls s)) = stream c (d_out s) ++ concat ls.
Proof. unfold sent_lines. simpl. by rewrite stream_app, stream_sent. Qed.

(** A copy that agrees with the driver answers the same. *)
Lemma mirror_getinfo u s var :
  tree_wf (u_inforoot u) -> driver_ok s -> mi_vars (mirror_of u) = pub_map (d_root s) ->
  state_getinfo (u_inforoot u) var = state_getinfo (d_root s) var.
Proof.
  intros [Hb Hv] [Hb' Hn _ _] Heq. unfold state_getinfo. rewrite !find_lookup by done.
  assert (forall n, to_map (d_root s) !! lower var = Some n -> val_ok n) as Hv'.
  { intros n [Hin _]%to_map_elem. rewrite Forall_forall in Hn. by apply Hn. }
  assert ((pub <$> to_map (u_inforoot u)) !! lower var = (pub <$> to_map (d_root s)) !! lower var) as He
    by exact (f_equal (lookup (lower var)) Heq). rewrite !lookup_fmap in He.
  destruct (to_map (u_inforoot u) !! lower var) as [n|] eqn:E1, (to_map (d_root s) !! lower var) as [n'|] eqn:E2;
    simpl in He; try done. injection He as He. simpl. f_equal. rewrite (Hv _ _ E1), (Hv' _ eq_refl). by rewrite He.
Qed.

(** The dump is faithful.  A driver whose writes succeed answers DUMPALL with lines from which
    upsd, just connected, rebuilds exactly what the protocol carries of the driver's state: every
    variable with its text, its public flags, its auxiliary number, its enumerated values and
    ranges in order; the list of commands; whether the data is stale; and that the dump is done -
    however the lines are cut into reads.  The placeholder WAIT of ups.status remains if the
    driver has no such variable. *)
Theorem dump_mirrors drv pid c s i u w :
  live c s -> calm s -> driver_ok s -> w_ups w !! i = Some u -> just_connected u ->
  exists s', sock_arg drv pid c [$"DUMPALL"] s = inr (1, s') /\ driver_mirror s' = driver_mirror s
    /\ exists lines, stream c (d_out s') = stream c (d_out s) ++ lines
    /\ forall chunks, concat chunks = lines ->
       wp (read_chunks i chunks) (fun _ w' => exists u', w_ups w' !! i = Some u' /\ recv_ok u'
         /\ mirror_of u' = mkMirror (pub_map (d_root s) ∪ WAITING) (d_cmds s) (if d_stale s =? 0 then 1 else 0) 1) w.
Proof.
  intros Hl Hc Hok Hu Hj. eexists. split; [by apply dumpall_run|]. split; [done|].
  eexists. split; [apply stream_dump|]. intros chunks Hch. destruct (just_connected_ok u Hj) as (Hr & Hv & Hcm).
  eapply wp_mono; [by apply (upsd_follows_chunks i u (dump_msgs s)); [| |apply dump_msgs_ok|]|].
  intros _ w' (u' & Hu' & Hr' & Hm). exists u'. split_and!; [done|done|]. rewrite Hm, dump_replay; [by rewrite Hv|done..|].
  rewrite Hv. intros k e. unfold WAITING. rewrite lookup_singleton_Some. intros [_ <-]. by eexists.
Qed.

(** A driver with two variables, one with ranges and flags, one with a text that is escaped, and
    one client. *)
Definition demo_tree : st_tree :=
  (run_ops Leaf [OpSetInfo 1 ($"ups.status") ($"OL"); OpSetInfo 1 ($"input.transfer.low") ($"180");
    OpAddRange 2 ($"input.transfer.low") 160 184; OpSetFlags 2 ($"input.transfer.low") [$"RW"; $"NUMBER"];
    OpSetInfo 3 ($"ups.id") (qt ++ $"#1")]).1.

(** A driver without handlers of its own. *)
Definition bare_driver : driver := mkDriver (mret tt) None None (mret 0).

Definition demo_driver : dstate :=
  set_d_cmds (set_d_root (set_d_conns (dstate_start true 0 5) [mkConn 0 7 true pconf_init false 0 false]) demo_tree)
    [$"beeper.mute"].

Lemma demo_driver_ok : driver_ok demo_driver.
Proof.
  split.
  - apply (run_ops_refines _ Leaf tree_wf_leaf).
  - assert (exists a b c, nodes demo_tree = [a; b; c] /\ node_ok a /\ node_ok b /\ node_ok c) as (a & b & c & Hn & Ha & Hb & Hc).
    { eexists _, _, _. split; [vm_compute; reflexivity|].
      split_and!; (split; try (apply (bool_decide_unpack _); vm_compute; exact I);
        split_and!; apply (bool_decide_unpack _); vm_compute; exact I). }
    change (Forall node_ok (nodes demo_tree)). rewrite Hn. constructor; [done|]. constructor; [done|]. by constructor.
  - split; [constructor; constructor|]. apply (bool_decide_unpack _). vm_compute. exact I.
  - by right.
Qed.

Definition fresh_ups : upstype :=
  set_u_inforoot (set_u_cmdlist (set_u_conn (set_u_sock_ctx demo_ups pconf_init) true) [])
    (state_setinfo 100 Leaf ($"ups.status") ($"WAIT")).1.

Definition fresh_world : world := set_w_ups (demo_world ($"PING") None None) [fresh_ups].

Lemma fresh_connected : just_connected fresh_ups.
Proof. split; try done. by exists 100. Qed.

Lemma dump_mirrors_witness :
  exists s', sock_arg bare_driver 1 0 [$"DUMPALL"] demo_driver = inr (1, s')
    /\ wp (read_chunks 0 [stream 0 (d_out s')]) (fun _ w' => exists u', w_ups w' !! 0%nat = Some u'
         /\ mi_cmds (mirror_of u') = [$"beeper.mute"] /\ mi_data_ok (mirror_of u') = 0) fresh_world.
Proof.
  destruct (dump_mirrors bare_driver 1 0 demo_driver 0 fresh_ups fresh_world) as (s' & Hrun & _ & lines & Hs & Hr).
  - eexists. split; reflexivity.
  - split; [reflexivity|discriminate].
  - exact demo_driver_ok.
  - reflexivity.
  - exact fresh_connected.
  - exists s'. split; [exact Hrun|]. eapply wp_mono; [apply Hr; rewrite Hs; simpl; by rewrite app_nil_r|].
    intros _ w' (u' & Hu' & _ & Hm). exists u'. split; [exact Hu'|]. rewrite Hm. split; reflexivity.
Defined.
