(* ===== verification/DFollow.v ===== *)
(** * Following a driver's updates

    After the dump a driver broadcasts every change.  An operation of the interface for
    drivers (the functions [dstate_...]) whose writes succeed sends messages that tell
    exactly what changed: applied to a copy of the state before, they give a copy of the state
    after.  The last section shows where the driver side does not do what it means to. *)

From S2P Require Import Prelude CStr StrUtil StrFacts ParseConf ParseConfFacts NumFacts Users Desc Tracking.
From S2P Require Import StateTree StateFacts World SState Upsd NetGet Server ServerLib ServerFacts ProtoLines DState.
From S2P Require Import DStateFacts DriverMain DSock Wire DMirror DReplay.
From stdpp Require Import options.

(** ** Broadcasts without failures *)

Record healthy (s : dstate) : Prop := mkHealthy {
  he_conns : conns_ok s;
  he_calm : calm s;
  he_open : Forall (fun k => k_closing k = false) (d_conns s)
}.

Definition casts (msg : bytes) (l : list conn_t) : list dout :=
  (fun k => Sent (k_id k) msg) <$> filter (fun k => k_nobroadcast k = false) l.

Lemma send_all_loop_calm send buf l : forall pre s,
  conns_ok s -> d_conns s = pre ++ l -> d_writes s = [] -> buf <> [] ->
  conn_loop (length l) (k_id <$> head l) (send_all_body (setinfo_with send) buf) s
  = inr (tt, set_d_out s (d_out s ++ casts buf l)).
Proof.
  induction l as [|k l IH]; intros pre s Hok Hc Hw Hbuf.
  { unfold casts. simpl. rewrite app_nil_r. by destruct s. }
  simpl length. simpl head. change (k_id <$> Some k) with (Some (k_id k)).
  rewrite (conn_loop_at _ _ _ _ _ _ Hok Hc). unfold mbind at 1, D_bind at 1.
  assert (send_all_body (setinfo_with send) buf (k_id k) s = inr (tt, set_d_out s (d_out s ++ casts buf [k]))) as ->.
  { unfold send_all_body, mbind at 1, D_bind at 1. rewrite (conn_get_at _ _ _ _ Hok Hc). unfold casts.
    destruct (k_nobroadcast k) eqn:En.
    - rewrite filter_cons_False by congruence. simpl. rewrite app_nil_r. by destruct s.
    - rewrite filter_cons_True by done. unfold mbind, D_bind. rewrite (write_at _ _ _ _ _ Hok Hc), Hw. simpl.
      rewrite write_failed_full by done. unfold mret, D_ret. destruct s; simpl in *. by rewrite Hw. }
  rewrite (IH (pre ++ [k])); [|done|by rewrite <- app_assoc|done|done].
  do 2 f_equal. unfold set_d_out. simpl. rewrite <- app_assoc. f_equal. f_equal. unfold casts.
  by rewrite <- fmap_app, <- filter_app.
Qed.

Lemma send_to_all_calm msg s :
  healthy s -> fits msg ->
  send_to_all msg s = inr (tt, set_d_errno (set_d_out s (d_out s ++ casts msg (d_conns s))) EZERO).
Proof.
  intros [Hok [Hw _] Hopen] [Hne Hlen]. unfold send_to_all, SEND_DEPTH.
  change (send_to_all_fuel 3 msg) with
    (if Z.of_nat (length msg) <? 1 then mret tt
     else each_conn (send_all_body (setinfo_with (send_to_all_fuel 2)) (snprintf_s ST_SOCK_BUF_LEN msg)) ;;
       reap_closing ;; set_errno EZERO).
  rewrite (proj2 (Z.ltb_ge _ _)) by (destruct msg; simpl; [done|lia]). rewrite snprintf_s_fits by done.
  unfold mbind at 1, D_bind at 1. unfold each_conn, mbind at 1, D_bind at 1, dget.
  rewrite (send_all_loop_calm _ _ _ []) by done. unfold mbind, D_bind. rewrite reap_closing_eq by done.
  assert (closing_ids (d_conns s) = [] /\ open_conns (d_conns s) = d_conns s) as [Hci Hop].
  { unfold closing_ids, open_conns. revert Hopen. clear. induction 1 as [|k l Hk Hl [IH1 IH2]]; [done|].
    rewrite filter_cons_False, filter_cons_True by (rewrite Hk; done). by rewrite IH2. }
  simpl d_conns. rewrite Hci, Hop. unfold set_errno, dmodify. do 2 f_equal. simpl. rewrite app_nil_r. by destruct s.
Qed.

(** ** Steps *)

(** From [s] to [s'], the messages [ms] were broadcast, and they tell the difference. *)
Record step (s : dstate) (ms : list wire) (s' : dstate) : Prop := mkStep {
  sp_healthy : healthy s';
  sp_ok : driver_ok s';
  sp_conns : d_conns s' = d_conns s;
  sp_msgs : Forall wire_ok ms;
  sp_out : d_out s' = d_out s ++ concat ((fun m => casts (wire_line m) (d_conns s)) <$> ms);
  sp_mirror : driver_mirror s' = fold_left apply_wire ms (driver_mirror s)
}.

Lemma step_nil s : healthy s -> driver_ok s -> step s [] s.
Proof. intros. split; try done. csimpl. by rewrite app_nil_r. Qed.

Lemma step_app s1 ms1 s2 ms2 s3 : step s1 ms1 s2 -> step s2 ms2 s3 -> step s1 (ms1 ++ ms2) s3.
Proof.
  intros [_ _ Hc1 Hm1 Ho1 Hmi1] [Hh Hok Hc2 Hm2 Ho2 Hmi2]. split; try done.
  - congruence.
  - by apply Forall_app.
  - by rewrite Ho2, Ho1, Hc1, fmap_app, concat_app, app_assoc.
  - by rewrite fold_left_app, Hmi2, Hmi1.
Qed.

(** The data of the state changed. *)
Record data_change (s s1 : dstate) : Prop := mkChange {
  dc_conns : d_conns s1 = d_conns s;
  dc_writes : d_writes s1 = d_writes s;
  dc_errno : d_errno s1 = d_errno s;
  dc_out : d_out s1 = d_out s
}.

Lemma healthy_change s s1 : data_change s s1 -> healthy s -> healthy s1.
Proof.
  intros [Hc Hw He _] [Hok [Hw' He'] Hop]. split; unfold conns_ok, calm, ids in *; by rewrite ?Hc, ?Hw, ?He.
Qed.

(** A change that is broadcast. *)
Lemma publish_step s s1 m :
  healthy s -> data_change s s1 -> driver_ok s1 -> wire_ok m ->
  driver_mirror s1 = apply_wire (driver_mirror s) m ->
  exists s2, send_to_all (wire_line m) s1 = inr (tt, s2) /\ step s [m] s2.
Proof.
  intros Hh Hch Hok Hm Hmi. pose proof (healthy_change _ _ Hch Hh) as Hh1.
  eexists. split; [apply send_to_all_calm; [done|by apply wire_fits]|].
  destruct Hch as [Hc Hw He Ho], Hh1 as [? [? ?] ?], Hok. split; try done.
  - by constructor.
  - csimpl. by rewrite app_nil_r, Ho, Hc.
Qed.

(** A change that the protocol does not carry. *)
Lemma silent_step s s1 :
  healthy s -> data_change s s1 -> driver_ok s1 -> driver_mirror s1 = driver_mirror s -> step s [] s1.
Proof.
  intros Hh Hch Hok Hmi. pose proof (healthy_change _ _ Hch Hh) as Hh1. destruct Hch.
  split; try done. csimpl. by rewrite app_nil_r.
Qed.

(** ** Operations on the tree *)

Lemma nodes_map_Forall (P : st_node -> Prop) t :
  bst t -> Forall P (nodes t) <-> map_Forall (fun _ n => P n) (to_map t).
Proof.
  intros Hb. rewrite Forall_forall. split.
  - intros Hall k n [Hin _]%to_map_elem. by apply Hall.
  - intros Hall n Hin. by apply (Hall (lower (n_var n))), nodes_to_map.
Qed.

Definition plain (v : bytes) : Prop := value_ok v /\ escape v = v.

(** The message that tells an operation of state.c. *)
Definition op_msg (op : st_op) : wire :=
  match op with
  | OpSetInfo _ v val => WSetInfo v val
  | OpDelInfo v | OpDelInfoOlder v _ => WDelInfo v
  | OpAddEnum _ v val => WAddEnum v val
  | OpDelEnum _ v val => WDelEnum v val
  | OpAddRange _ v mn mx => WAddRange v mn mx
  | OpDelRange _ v mn mx => WDelRange v mn mx
  | OpSetAux _ v a => WSetAux v (strtol a 10).1.1
  | OpSetFlags _ v fl => WSetFlags v fl
  end.

(** The operations that report a change by returning 1, on data that the protocol carries. *)
Definition op_ok (op : st_op) : Prop :=
  name_ok (op_var op) /\
  match op with
  | OpSetInfo _ _ val | OpAddEnum _ _ val | OpDelEnum _ _ val => plain val
  | OpAddRange _ _ mn mx | OpDelRange _ _ mn mx => int_ok mn /\ int_ok mx
  | OpDelInfo _ | OpDelInfoOlder _ _ => True
  | OpSetAux _ _ _ | OpSetFlags _ _ _ => False
  end.

Lemma op_msg_ok op : op_ok op -> wire_ok (op_msg op).
Proof. intros [Hn Hop]. destruct op; simpl in *; unfold plain in *; tauto. Qed.

Lemma op_msg_var op : op_ok op -> wire_var (op_msg op) = Some (op_var op).
Proof. intros [_ Hop]. by destruct op. Qed.

Lemma enum_add_same l e : (st_tree_enum_add l e).2 <> 1 -> (st_tree_enum_add l e).1 = l.
Proof.
  induction l as [|v l IH]; [done|]. cbn [st_tree_enum_add]. destruct (negb _); [|done].
  destruct (st_tree_enum_add l e). simpl in *. intros. by rewrite IH.
Qed.

Lemma enum_del_same l e : (st_tree_del_enum l e).2 <> 1 -> (st_tree_del_enum l e).1 = l.
Proof.
  induction l as [|v l IH]; [done|]. cbn [st_tree_del_enum]. destruct (negb _); [|done].
  destruct (st_tree_del_enum l e). simpl in *. intros. by rewrite IH.
Qed.

Lemma range_add_same l mn mx : (st_tree_range_add l mn mx).2 <> 1 -> (st_tree_range_add l mn mx).1 = l.
Proof.
  induction l as [|[a b] l IH]; [done|]. cbn [st_tree_range_add]. destruct (negb _ && negb _); [|done].
  destruct (st_tree_range_add l mn mx). simpl in *. intros. by rewrite IH.
Qed.

Lemma range_del_same l mn mx : (st_tree_del_range l mn mx).2 <> 1 -> (st_tree_del_range l mn mx).1 = l.
Proof.
  induction l as [|[a b] l IH]; [done|]. cbn [st_tree_del_range]. destruct (negb _ && negb _); [|done].
  destruct (st_tree_del_range l mn mx). simpl in *. intros. by rewrite IH.
Qed.

Lemma enum_del_sublist l e : sublist (st_tree_del_enum l e).1 l.
Proof.
  induction l as [|v l IH]; [done|]. cbn [st_tree_del_enum]. destruct (negb _); [|by apply sublist_cons].
  destruct (st_tree_del_enum l e). by apply sublist_skip.
Qed.

Lemma range_del_sublist l mn mx : sublist (st_tree_del_range l mn mx).1 l.
Proof.
  induction l as [|[a b] l IH]; [done|]. cbn [st_tree_del_range]. destruct (negb _ && negb _); [|by apply sublist_cons].
  destruct (st_tree_del_range l mn mx). by apply sublist_skip.
Qed.

Lemma enum_add_cases l e : (st_tree_enum_add l e).1 = l \/ (e ∉ l /\ (st_tree_enum_add l e).1 = l ++ [e]).
Proof.
  destruct (decide (e ∈ l)) as [Hin|Hni]; [left|right; by rewrite enum_add_new].
  apply enum_add_same. induction Hin as [v l|v w l Hin IH]; cbn [st_tree_enum_add].
  - by rewrite (proj2 (streq_true v v)).
  - destruct (negb _); [|done]. by destruct (st_tree_enum_add l v).
Qed.

Lemma range_add_cases l mn mx :
  (st_tree_range_add l mn mx).1 = l
  \/ (mn ∉ l.*1 /\ mx ∉ l.*2 /\ (st_tree_range_add l mn mx).1 = l ++ [(mn, mx)]).
Proof.
  induction l as [|[a b] l IH]; csimpl; [right; split_and!; [set_solver..|done]|].
  destruct (Z.eqb_spec a mn) as [->|Ha]; [by left|]. destruct (Z.eqb_spec b mx) as [->|Hb]; [by left|]. simpl.
  destruct (st_tree_range_add l mn mx) as [l' r]. simpl in *. destruct IH as [->|(H1 & H2 & ->)]; [by left|right].
  split_and!; [set_solver..|done].
Qed.

(** What a reader of the protocol sees of an operation: nothing, or its message. *)
Lemma entry_op_publish op o :
  op_ok op ->
  pub <$> (entry_op op o).1 = if (entry_op op o).2 =? 1 then wire_entry (op_msg op) (pub <$> o) else pub <$> o.
Proof.
  intros [_ Hop]. destruct op as [now v val|v|v c|now v val|now v val|now v mn mx|now v mn mx|now v a|now v fl];
    try done.
  - destruct o as [n|]; simpl.
    + unfold setinfo_node. cbn [n_raw n_flags st_tree_node_refresh_timestamp]. destruct (streq _ _) eqn:Eq; [done|].
      destruct (has_flag _ _); [done|]. unfold val_escape. cbn [n_raw set_raw fst snd]. rewrite grow_fits.
      by case_match.
    + unfold setinfo_new, val_escape. by case_match.
  - destruct o as [n|]; [|done]. simpl. by destruct (deletable n).
  - destruct o as [n|]; [|done]. simpl. by destruct (deletable_olderthan c n).
  - destruct o as [n|]; [|done]. simpl.
    pose proof (enum_add_same (n_enum_list n) (pconf_encode val ST_MAX_VALUE_LEN)) as Hs.
    destruct (st_tree_enum_add _ _) as [l r] eqn:El. simpl in *. rewrite ?El.
    destruct (Z.eqb_spec r 1) as [->|Hr]; [done|]. unfold pub. simpl. by rewrite Hs.
  - destruct o as [n|]; [|done]. simpl. pose proof (enum_del_same (n_enum_list n) val) as Hs.
    destruct (st_tree_del_enum _ _) as [l r] eqn:El. simpl in *. rewrite ?El.
    destruct (Z.eqb_spec r 1) as [->|Hr]; [done|]. unfold pub. simpl. by rewrite Hs.
  - destruct o as [n|]; [|done]. simpl. destruct (mn >? mx); [done|].
    pose proof (range_add_same (n_range_list n) mn mx) as Hs.
    destruct (st_tree_range_add _ _ _) as [l r] eqn:El. simpl in *. rewrite ?El.
    destruct (Z.eqb_spec r 1) as [->|Hr]; [done|]. unfold pub. simpl. by rewrite Hs.
  - destruct o as [n|]; [|done]. simpl. pose proof (range_del_same (n_range_list n) mn mx) as Hs.
    destruct (st_tree_del_range _ _ _) as [l r] eqn:El. simpl in *. rewrite ?El.
    destruct (Z.eqb_spec r 1) as [->|Hr]; [done|]. unfold pub. simpl. by rewrite Hs.
Qed.

Lemma plain_enum_ok v : value_ok v -> enum_ok (escape v).
Proof. intros Hv. unfold enum_ok. by rewrite unescape_escape. Qed.

Lemma node_ok_val_escape n :
  name_ok (n_var n) -> value_ok (n_raw n) -> (NoDup (n_enum_list n) /\ Forall enum_ok (n_enum_list n)) ->
  (NoDup (n_range_list n).*1 /\ NoDup (n_range_list n).*2 /\ Forall range_ok (n_range_list n)) ->
  long_ok (n_aux n) -> node_ok (val_escape n).
Proof.
  intros. pose proof (val_escape_ok n). pose proof (val_escape_raw n) as Hraw.
  split; rewrite ?Hraw; try done; unfold val_escape; destruct (streq _ _); done.
Qed.

Lemma node_ok_setinfo now n v val :
  node_ok n -> value_ok val -> node_ok (setinfo_entry now (Some n) v val).1.
Proof.
  intros [? ? ? ? ? ?] Hv. simpl. unfold setinfo_node. cbn [n_raw n_flags st_tree_node_refresh_timestamp].
  destruct (streq (n_raw n) val); [by split|]. destruct (has_flag _ _); [by split|].
  apply node_ok_val_escape; simpl; try done. by rewrite grow_fits.
Qed.

Lemma node_ok_new now v val : name_ok v -> value_ok val -> node_ok (setinfo_new now v val).
Proof.
  intros Hn Hv. apply node_ok_val_escape; simpl; try done; split_and!; try constructor; done.
Qed.

Lemma entry_op_node_ok op o n :
  op_ok op -> (forall m, o = Some m -> node_ok m) -> (entry_op op o).1 = Some n -> node_ok n.
Proof.
  intros [Hname Hop] Ho.
  destruct op as [now v val|v|v c|now v val|now v val|now v mn mx|now v mn mx|now v a|now v fl];
    try done; destruct o as [m|]; cbn [entry_op op_var] in *;
    try (by intros [=]); try specialize (Ho m eq_refl).
  - pose proof (node_ok_setinfo now m v val Ho (proj1 Hop)) as Hok.
    destruct (setinfo_entry _ _ _ _). by intros [= <-].
  - intros [= <-]. apply node_ok_new; [done|apply Hop].
  - simpl. destruct (deletable m); [done|]. by intros [= <-].
  - simpl. destruct (deletable_olderthan c m); [done|]. by intros [= <-].
  - destruct Hop as [Hval _]. destruct Ho as [? ? ? [Hnd He] ? ?]. rewrite value_encode by done.
    pose proof (enum_add_cases (n_enum_list m) (escape val)) as Hl.
    destruct (st_tree_enum_add _ _) as [l r]. intros [= <-]. split; try done. simpl in *.
    destruct Hl as [->|[Hni ->]]; [done|]. split.
    + apply NoDup_app. split_and!; [done|set_solver|by apply NoDup_singleton].
    + apply Forall_app. split; [done|]. apply Forall_singleton. by apply plain_enum_ok.
  - destruct Ho as [? ? ? [Hnd He] ? ?]. pose proof (enum_del_sublist (n_enum_list m) val) as Hl.
    destruct (st_tree_del_enum _ _) as [l r]. intros [= <-]. split; try done. simpl in *.
    split; [by eapply sublist_NoDup|]. rewrite Forall_forall in *. intros x Hx. apply He. by eapply sublist_subseteq.
  - destruct (mn >? mx) eqn:Egt; [by intros [= <-]|]. rewrite Z.gtb_ltb in Egt. apply Z.ltb_ge in Egt.
    destruct Ho as [? ? ? ? (H1 & H2 & Hr) ?].
    pose proof (range_add_cases (n_range_list m) mn mx) as Hl.
    destruct (st_tree_range_add _ _ _) as [l r]. intros [= <-]. split; try done. simpl in *.
    destruct Hl as [->|(Hn1 & Hn2 & ->)]; [done|]. rewrite !fmap_app. csimpl. split_and!.
    + apply NoDup_app. split_and!; [done|set_solver|by apply NoDup_singleton].
    + apply NoDup_app. split_and!; [done|set_solver|by apply NoDup_singleton].
    + apply Forall_app. split; [done|]. apply Forall_singleton. unfold range_ok. simpl. tauto.
  - destruct Ho as [? ? ? ? (H1 & H2 & Hr) ?]. pose proof (range_del_sublist (n_range_list m) mn mx) as Hl.
    destruct (st_tree_del_range _ _ _) as [l r]. intros [= <-]. split; try done. simpl in *. split_and!.
    + eapply sublist_NoDup; [exact H1|]. by apply fmap_sublist.
    + eapply sublist_NoDup; [exact H2|]. by apply fmap_sublist.
    + rewrite Forall_forall in *. intros x Hx. apply Hr. by eapply sublist_subseteq.
Qed.

Lemma driver_ok_root s t :
  driver_ok s -> bst t -> map_Forall (fun _ n => node_ok n) (to_map t) -> driver_ok (set_d_root s t).
Proof. intros [? ? ? ?] Hb Ht. split; try done. by apply nodes_map_Forall. Qed.

Lemma root_change s t : data_change s (set_d_root s t).
Proof. done. Qed.

(** An operation of state.c on the driver's tree, and its broadcast. *)
Lemma run_op_step s op line :
  healthy s -> driver_ok s -> op_ok op -> line = wire_line (op_msg op) ->
  let r := run_op (d_root s) op in
  exists s2 ms, (dmodify (fun s => set_d_root s r.1) ;; dwhen (r.2 =? 1) (send_to_all line)) s = inr (tt, s2)
    /\ step s ms s2.
Proof.
  intros Hh Hok Hop -> r.
  destruct (run_op_refines (d_root s) op (do_bst _ Hok)) as (Hb & Hmap & Hret). fold r in Hb, Hmap, Hret.
  unfold map_op in *. cbn [fst snd] in *.
  assert (driver_ok (set_d_root s r.1)) as Hok1.
  { apply driver_ok_root; [done|done|]. rewrite Hmap. intros k n.
    destruct Hok as [Hbst Hn _ _]. apply nodes_map_Forall in Hn; [|done].
    destruct (decide (k = lower (op_var op))) as [->|?].
    - rewrite lookup_partial_alter_eq. apply entry_op_node_ok; [done|]. intros m Hm. by apply (Hn _ _ Hm).
    - rewrite lookup_partial_alter_ne by done. apply Hn. }
  assert (pub_map r.1 = if r.2 =? 1 then partial_alter (wire_entry (op_msg op)) (lower (op_var op)) (pub_map (d_root s))
                        else pub_map (d_root s)) as Hpub.
  { unfold pub_map at 1. rewrite Hmap, Hret.
    pose proof (entry_op_publish op (to_map (d_root s) !! lower (op_var op)) Hop) as Hp.
    destruct (_ =? 1).
    - by rewrite (fmap_partial_alter_pub _ (wire_entry (op_msg op))).
    - rewrite (fmap_partial_alter_pub _ id) by done. by apply partial_alter_id. }
  unfold mbind, D_bind, dmodify, dwhen. destruct (r.2 =? 1).
  - destruct (publish_step s (set_d_root s r.1) (op_msg op)) as (s2 & Hrun & Hs2);
      [done|apply root_change|done|by apply op_msg_ok| |by exists s2, [op_msg op]].
    unfold driver_mirror, apply_wire. cbn [d_root set_d_root d_cmds d_stale mi_vars mi_cmds mi_data_ok mi_dumpdone].
    rewrite op_msg_var, Hpub by done. destruct Hop as [_ Hop]. by destruct op.
  - eexists _, []. split; [done|]. apply silent_step; [done|apply root_change|done|].
    unfold driver_mirror. cbn [d_root set_d_root d_cmds d_stale]. by rewrite Hpub.
Qed.

(** ** Updates through a pointer to the entry *)

Lemma alter_step s v n f m :
  healthy s -> driver_ok s -> state_tree_find (d_root s) v = Some n ->
  (forall n, n_var (f n) = n_var n) -> node_ok (f n) -> wire_ok m ->
  match m with WSetAux v' _ | WSetFlags v' _ => v' = v | _ => False end ->
  wire_entry m (Some (pub n)) = Some (pub (f n)) ->
  exists s2, (dmodify (fun s => set_d_root s (tree_update (d_root s) v f)) ;; send_to_all (wire_line m)) s = inr (tt, s2)
    /\ step s [m] s2.
Proof.
  intros Hh Hok Hfind Hf Hn Hm Hmv He. pose proof (do_bst _ Hok) as Hb. rewrite find_lookup in Hfind by done.
  destruct (tree_update_spec (d_root s) v f Hb Hf) as [Hb' Hmap].
  apply (publish_step s (set_d_root s (tree_update (d_root s) v f))); [done|done| |done|].
  - apply driver_ok_root; [done|done|]. rewrite Hmap. intros k n'. destruct Hok as [_ Hns _ _].
    apply nodes_map_Forall in Hns; [|done]. destruct (decide (k = lower v)) as [->|?].
    + rewrite lookup_alter_eq, Hfind. by intros [= <-].
    + rewrite lookup_alter_ne by done. apply Hns.
  - unfold driver_mirror, apply_wire. cbn [d_root set_d_root d_cmds d_stale mi_vars mi_cmds mi_data_ok mi_dumpdone].
    assert (pub_map (tree_update (d_root s) v f) = partial_alter (wire_entry m) (lower v) (pub_map (d_root s))) as Hp.
    { unfold pub_map. rewrite Hmap. unfold alter, map_alter. apply fmap_partial_alter_pub. by rewrite Hfind. }
    rewrite Hp. by destruct m; simplify_eq.
Qed.

Definition public (flags : Z) : Z := Z.land flags PUBLIC_FLAGS.

(** SETFLAGS cannot tell that no public flag is left. *)
Definition flags_told (s : dstate) (var : bytes) (flags : Z) : Prop :=
  public flags = 0 -> forall n, state_tree_find (d_root s) var = Some n -> public (n_flags n) = 0.

Lemma step_refl s : healthy s -> driver_ok s -> exists s2 ms, inr (tt, s) = (inr (tt, s2) : fault + unit * dstate) /\ step s ms s2.
Proof. intros. exists s, []. split; [done|]. by apply step_nil. Qed.

Lemma node_ok_find s v n : driver_ok s -> state_tree_find (d_root s) v = Some n -> node_ok n.
Proof.
  intros [Hb Hn _ _]. apply nodes_map_Forall in Hn; [|done]. rewrite find_lookup by done. apply Hn.
Qed.

Lemma setflags_step s v flags :
  healthy s -> driver_ok s -> name_ok v -> flags_told s v flags ->
  exists s2 ms, dstate_setflags v flags s = inr (tt, s2) /\ step s ms s2.
Proof.
  intros Hh Hok Hv Htold. unfold dstate_setflags, mbind at 1, D_bind at 1, dget.
  destruct (state_tree_find (d_root s) v) as [n|] eqn:Hn; [|by apply step_refl].
  destruct (has_flag _ _); [by apply step_refl|]. destruct (_ =? _); [by apply step_refl|].
  rewrite setflags_text_wire by done.
  destruct (alter_step s v n (fun n => set_flags n flags) (WSetFlags v (public_words flags)))
    as (s2 & Hrun & Hs2); [..|by exists s2, [WSetFlags v (public_words flags)]]; try done.
  - by destruct (node_ok_find _ _ _ Hok Hn).
  - split; [done|]. apply public_words_sublist.
  - simpl. pose proof (public_words_flags flags) as Hw. specialize (Htold). unfold flags_told, public in Htold.
    destruct (public_words flags) as [|w ws]; unfold pub; simpl; rewrite <- Hw in *; [|done].
    simpl in Htold. by rewrite (Htold eq_refl n Hn).
Qed.

Lemma addflags_step s v flags :
  healthy s -> driver_ok s -> name_ok v ->
  exists s2 ms, dstate_addflags v flags s = inr (tt, s2) /\ step s ms s2.
Proof.
  intros Hh Hok Hv. unfold dstate_addflags, mbind at 1, D_bind at 1, dget. unfold state_getflags.
  destruct (_ =? -1); [by apply step_refl|]. destruct (Z.land _ _ =? _); [by apply step_refl|].
  apply setflags_step; [done..|]. intros Hp n Hn. rewrite Hn in Hp. unfold public in *.
  rewrite Z.land_lor_distr_l in Hp. by apply Z.lor_eq_0_iff in Hp as [? _].
Qed.

Ltac as_wire m :=
  match goal with |- context [send_to_all ?l] =>
    replace l with (wire_line m)
      by (unfold wire_line, quoted; cbn [wire_tokens render render_token]; by rewrite <- !app_assoc)
  end.

Lemma setaux_step s v aux :
  healthy s -> driver_ok s -> name_ok v -> long_ok aux ->
  exists s2 ms, dstate_setaux v aux s = inr (tt, s2) /\ step s ms s2.
Proof.
  intros Hh Hok Hv Ha. unfold dstate_setaux, mbind at 1, D_bind at 1, dget.
  destruct (state_tree_find (d_root s) v) as [n|] eqn:Hn; [|by apply step_refl].
  destruct (_ =? _); [by apply step_refl|].
  as_wire (WSetAux v aux).
  destruct (alter_step s v n (fun n => set_aux n aux) (WSetAux v aux)) as (s2 & Hrun & Hs2);
    [..|by exists s2, [WSetAux v aux]]; try done.
  by destruct (node_ok_find _ _ _ Hok Hn).
Qed.

(** ** The interface for drivers *)

Inductive driver_op :=
| DSetInfo (var val : bytes)
| DAddEnum (var val : bytes)
| DSetFlags (var : bytes) (flags : Z)
| DAddFlags (var : bytes) (flags : Z)
| DDelFlags (var : bytes) (flags : Z)
| DAddRange (var : bytes) (min max : Z)
| DSetAux (var : bytes) (aux : Z)
| DAddCmd (cmd : bytes)
| DDelInfo (var : bytes)
| DDelInfoOlder (var : bytes) (cutoff : option Z)
| DDelEnum (var val : bytes)
| DDelRange (var : bytes) (min max : Z)
| DDelCmd (cmd : bytes)
| DDataOk
| DDataStale.

Definition ignore {A} (m : D A) : D unit := _ ← m; mret tt.

Definition run_dop (op : driver_op) : D unit :=
  match op with
  | DSetInfo var val => ignore (dstate_setinfo var val)
  | DAddEnum var val => ignore (dstate_addenum var val)
  | DSetFlags var flags => dstate_setflags var flags
  | DAddFlags var flags => dstate_addflags var flags
  | DDelFlags var flags => dstate_delflags var flags
  | DAddRange var mn mx => ignore (dstate_addrange var mn mx)
  | DSetAux var aux => dstate_setaux var aux
  | DAddCmd cmd => dstate_addcmd cmd
  | DDelInfo var => ignore (dstate_delinfo var)
  | DDelInfoOlder var cutoff => ignore (dstate_delinfo_olderthan var cutoff)
  | DDelEnum var val => ignore (dstate_delenum var val)
  | DDelRange var mn mx => ignore (dstate_delrange var mn mx)
  | DDelCmd cmd => ignore (dstate_delcmd cmd)
  | DDataOk => dstate_dataok
  | DDataStale => dstate_datastale
  end.

(** Arguments that the protocol can carry: names without special characters, values without quotes
    and backslashes (a broadcast does not escape them), numbers of the machine's width, and flags
    that are not all withdrawn. *)
Definition dop_ok (s : dstate) (op : driver_op) : Prop :=
  match op with
  | DSetInfo var val | DAddEnum var val | DDelEnum var val => name_ok var /\ plain val
  | DSetFlags var flags => name_ok var /\ flags_told s var flags
  | DAddFlags var _ => name_ok var
  | DDelFlags var flags => name_ok var
      /\ flags_told s var (Z.land (state_getflags (d_root s) var) (Z.lnot flags))
  | DAddRange var mn mx | DDelRange var mn mx => name_ok var /\ int_ok mn /\ int_ok mx
  | DSetAux var aux => name_ok var /\ long_ok aux
  | DAddCmd v | DDelInfo v | DDelInfoOlder v _ | DDelCmd v => name_ok v
  | DDataOk | DDataStale => True
  end.

Lemma delflags_step s v flags :
  healthy s -> driver_ok s -> name_ok v ->
  flags_told s v (Z.land (state_getflags (d_root s) v) (Z.lnot flags)) ->
  exists s2 ms, dstate_delflags v flags s = inr (tt, s2) /\ step s ms s2.
Proof.
  intros Hh Hok Hv Htold. unfold dstate_delflags, mbind at 1, D_bind at 1, dget.
  destruct (_ =? -1); [by apply step_refl|]. destruct (negb _); [by apply step_refl|]. by apply setflags_step.
Qed.

(** The shape of most functions: an operation of state.c, then the broadcast. *)
Lemma told_step {A} s op line (k : Z -> D A) (r : st_tree * Z) :
  healthy s -> driver_ok s -> op_ok op -> line = wire_line (op_msg op) -> r = run_op (d_root s) op ->
  exists s2 ms, (let '(t', ret) := r in
     dmodify (fun s => set_d_root s t') ;; dwhen (ret =? 1) (send_to_all line) ;; k ret) s = k r.2 s2
    /\ step s ms s2.
Proof.
  intros Hh Hok Hop Hl ->. destruct (run_op_step s op line Hh Hok Hop Hl) as (s2 & ms & Hrun & Hs2).
  exists s2, ms. split; [|done]. destruct (run_op (d_root s) op) as [t' ret]. cbn [fst snd] in *.
  unfold mbind, D_bind, dmodify in *. by rewrite Hrun.
Qed.

Lemma cmds_step s (op : list bytes -> list bytes * Z) m line :
  healthy s -> driver_ok s -> wire_ok m -> line = wire_line m ->
  (forall x, apply_wire x m = mkMirror (mi_vars x) (op (mi_cmds x)).1 (mi_data_ok x) (mi_dumpdone x)) ->
  cmds_ok (op (d_cmds s)).1 -> Forall name_ok (op (d_cmds s)).1 ->
  ((op (d_cmds s)).2 <> 1 -> (op (d_cmds s)).1 = d_cmds s) ->
  exists a s2 ms, cmdlist_op op line s = inr (a, s2) /\ step s ms s2.
Proof.
  intros Hh Hok Hm -> Hop Hc Hn Hsame. unfold cmdlist_op.
  assert (driver_ok (set_d_cmds s (op (d_cmds s)).1)) as Hok1 by (destruct Hok; by split).
  unfold mbind, D_bind, dget, dmodify, dwhen. destruct (op (d_cmds s)) as [l ret] eqn:El. cbn [fst snd] in *.
  destruct (Z.eqb_spec ret 1) as [->|Hne].
  - destruct (publish_step s (set_d_cmds s l) m) as (s2 & -> & Hs2); [done|done|done|done| |by exists 1, s2, [m]].
    rewrite Hop. unfold driver_mirror. simpl. by rewrite El.
  - eexists ret, _, []. split; [done|]. apply silent_step; [done|done|done|]. unfold driver_mirror. simpl. by rewrite Hsame.
Qed.

Lemma addcmd_facts l c :
  ((state_addcmd l c).2 <> 1 -> (state_addcmd l c).1 = l)
  /\ forall P : bytes -> Prop, Forall P l -> P c -> Forall P (state_addcmd l c).1.
Proof.
  induction l as [|x l [IH1 IH2]]; cbn [state_addcmd].
  { split; [done|]. intros P _ Hc. by apply Forall_singleton. }
  destruct (_ >? 0); [split; [done|intros; by constructor]|].
  destruct (_ <? 0); [|done]. destruct (state_addcmd l c) as [l' r]. cbn [fst snd] in *.
  split; [intros; by rewrite IH1|]. intros P [Hx Hl]%Forall_cons Hc. constructor; [done|]. by apply IH2.
Qed.

Lemma delcmd_facts l c :
  ((state_delcmd l c).2 <> 1 -> (state_delcmd l c).1 = l)
  /\ forall P : bytes -> Prop, Forall P l -> Forall P (state_delcmd l c).1.
Proof.
  induction l as [|x l [IH1 IH2]]; cbn [state_delcmd]; [done|].
  destruct (_ >? 0); [done|]. destruct (_ <? 0); [|split; [done|by intros P [_ ?]%Forall_cons]].
  destruct (state_delcmd l c) as [l' r]. cbn [fst snd] in *.
  split; [intros; by rewrite IH1|]. intros P [Hx Hl]%Forall_cons. constructor; [done|]. by apply IH2.
Qed.

Lemma stale_step s line m st :
  healthy s -> driver_ok s -> line = wire_line m -> (st = 0 /\ m = WDataOk \/ st = 1 /\ m = WDataStale) ->
  exists s2 ms, (dmodify (fun s => set_d_stale s st) ;; send_to_all line) s = inr (tt, s2) /\ step s ms s2.
Proof.
  intros Hh Hok -> Hm.
  destruct (publish_step s (set_d_stale s st) m) as (s2 & Hrun & Hs2);
    [done|done|destruct Hok; split; naive_solver|by destruct Hm as [[_ ->]|[_ ->]]| |by exists s2, [m]].
  by destruct Hm as [[-> ->]|[-> ->]].
Qed.

Lemma ignore_step {A} (m : D A) s : (exists a s2 ms, m s = inr (a, s2) /\ step s ms s2) ->
  exists s2 ms, ignore m s = inr (tt, s2) /\ step s ms s2.
Proof. intros (a & s2 & ms & Hm & Hs). exists s2, ms. unfold ignore, mbind, D_bind. by rewrite Hm. Qed.

Lemma told_ret s op line (r : st_tree * Z) :
  healthy s -> driver_ok s -> op_ok op -> line = wire_line (op_msg op) -> r = run_op (d_root s) op ->
  exists a s2 ms, (let '(t', ret) := r in
     dmodify (fun s => set_d_root s t') ;; dwhen (ret =? 1) (send_to_all line) ;; mret ret) s = inr (a : Z, s2)
    /\ step s ms s2.
Proof.
  intros Hh Hok Hop Hl Hr. destruct (told_step s op line (fun ret => mret ret) r Hh Hok Hop Hl Hr) as (s2 & ms & Hrun & Hs).
  exists r.2, s2, ms. split; [|done]. by rewrite Hrun.
Qed.

(** The text of a message, as the functions write it. *)
Ltac line_eq := unfold wire_line, quoted; cbn [op_msg wire_tokens render render_token]; rewrite <- ?app_assoc.

Lemma plain_formatted val : plain val -> snprintf_s ST_MAX_VALUE_LEN val = val.
Proof. intros [[_ Hl] He]. apply snprintf_s_fits. by rewrite <- He. Qed.

Lemma addrange_step s v mn mx :
  healthy s -> driver_ok s -> name_ok v -> int_ok mn -> int_ok mx ->
  exists a s2 ms, dstate_addrange v mn mx s = inr (a, s2) /\ step s ms s2.
Proof.
  intros Hh Hok Hv Hmn Hmx. unfold dstate_addrange. unfold mbind at 1, D_bind at 1, dget at 1.
  unfold mbind at 1, D_bind at 1, dget at 1.
  set (line := $"ADDRANGE " ++ v ++ $" " ++ show_Z mn ++ $" " ++ show_Z mx ++ [LF]).
  assert (line = wire_line (WAddRange v mn mx)) as Hl by (unfold line; by line_eq).
  destruct (run_op_step s (OpAddRange (d_now s) v mn mx) line Hh Hok) as (s1 & ms1 & Hrun & Hs1); [done|done|].
  cbn [run_op] in Hrun. destruct (state_addrange _ _ _ _ _) as [t' ret]. cbn [fst snd] in Hrun.
  unfold mbind, D_bind, dmodify, dwhen in *. destruct (ret =? 1).
  - rewrite Hrun. destruct (addflags_step s1 v ST_FLAG_NUMBER) as (s2 & ms2 & -> & Hs2); [apply Hs1|apply Hs1|done|].
    exists ret, s2, (ms1 ++ ms2). split; [done|]. by eapply step_app.
  - injection Hrun as <-. by exists ret, (set_d_root s t'), ms1.
Qed.

Lemma run_dop_step s op :
  healthy s -> driver_ok s -> dop_ok s op -> exists s2 ms, run_dop op s = inr (tt, s2) /\ step s ms s2.
Proof.
  intros Hh Hok Hop. destruct op; cbn [run_dop dop_ok] in *; try apply ignore_step.
  - destruct Hop as [Hv Hp]. unfold dstate_setinfo, vdstate_setinfo, setinfo_with. rewrite plain_formatted by done.
    apply (told_ret s (OpSetInfo (d_now s) var val)); [done..| |done]. line_eq. by rewrite (proj2 Hp).
  - destruct Hop as [Hv Hp]. unfold dstate_addenum, vdstate_addenum. rewrite plain_formatted by done.
    apply (told_ret s (OpAddEnum (d_now s) var val)); [done..| |done]. line_eq. by rewrite (proj2 Hp).
  - destruct Hop. by apply setflags_step.
  - by apply addflags_step.
  - destruct Hop. by apply delflags_step.
  - destruct Hop as (? & ? & ?). by apply addrange_step.
  - destruct Hop. by apply setaux_step.
  - destruct Hok as [? ? [Hc Hn] ?]. destruct (addcmd_facts (d_cmds s) cmd) as [Hsame Hall].
    by apply (cmds_step s _ (WAddCmd cmd)); [| | |line_eq| |apply addcmd_spec|apply Hall|].
  - apply (told_ret s (OpDelInfo var)); [done..| |done]. by line_eq.
  - apply (told_ret s (OpDelInfoOlder var cutoff)); [done..| |done]. by line_eq.
  - destruct Hop as [Hv Hp]. apply (told_ret s (OpDelEnum (d_now s) var val)); [done..| |done].
    line_eq. by rewrite (proj2 Hp).
  - apply (told_ret s (OpDelRange (d_now s) var min max)); [done..| |done]. by line_eq.
  - destruct Hok as [? ? [Hc Hn] ?]. destruct (delcmd_facts (d_cmds s) cmd) as [Hsame Hall].
    by apply (cmds_step s _ (WDelCmd cmd)); [| | |line_eq| |apply delcmd_spec|apply Hall|].
  - unfold dstate_dataok, mbind, D_bind, dget, dwhen. destruct (d_stale s =? 1); [|by apply step_refl].
    by apply (stale_step s _ WDataOk 0); auto.
  - unfold dstate_datastale, mbind, D_bind, dget, dwhen. destruct (d_stale s =? 0); [|by apply step_refl].
    by apply (stale_step s _ WDataStale 1); auto.
Qed.

(** ** A sequence of operations *)

Fixpoint run_dops (ops : list driver_op) : D unit :=
  match ops with [] => mret tt | op :: ops' => run_dop op ;; run_dops ops' end.

(** The arguments of every operation are fine when it is called. *)
Fixpoint dops_ok (ops : list driver_op) (s : dstate) : Prop :=
  match ops with
  | [] => True
  | op :: ops' => dop_ok s op /\ forall s', run_dop op s = inr (tt, s') -> dops_ok ops' s'
  end.

Lemma run_dops_step ops : forall s,
  healthy s -> driver_ok s -> dops_ok ops s -> exists s2 ms, run_dops ops s = inr (tt, s2) /\ step s ms s2.
Proof.
  induction ops as [|op ops IH]; intros s Hh Hok Hops; [by apply step_refl|]. destruct Hops as [Hop Hops].
  destruct (run_dop_step s op Hh Hok Hop) as (s1 & ms1 & Hrun & Hs1). specialize (Hops _ Hrun).
  destruct (IH s1) as (s2 & ms2 & Hrun2 & Hs2); [apply Hs1|apply Hs1|done|].
  exists s2, (ms1 ++ ms2). cbn [run_dops]. unfold mbind, D_bind. rewrite Hrun. split; [done|]. by eapply step_app.
Qed.

(** What a client that listens to broadcasts gets. *)
Lemma stream_casts c k msg l :
  NoDup (k_id <$> l) -> conn_find c l = Some k -> k_nobroadcast k = false -> stream c (casts msg l) = msg.
Proof.
  assert (forall l', c ∉ k_id <$> l' -> stream c (casts msg l') = []) as Hnone.
  { induction l' as [|k' l' IH]; csimpl; [done|]. intros [Hne Hl]%not_elem_of_cons. unfold casts in *.
    rewrite filter_cons. case_decide; csimpl; [|by apply IH]. unfold stream in *. csimpl.
    rewrite (proj2 (Nat.eqb_neq _ _)) by congruence. by apply IH. }
  intros Hnd Hf Hk. induction l as [|k' l IH]; [done|]. csimpl. apply NoDup_cons in Hnd as [Hn Hnd].
  unfold conn_find in Hf. cbn [find] in Hf. destruct (Nat.eqb_spec (k_id k') c) as [Heq|Hne].
  - injection Hf as ->. unfold casts. rewrite filter_cons_True by done. rewrite fmap_cons.
    change (?x :: ?l) with ([x] ++ l). rewrite stream_app.
    change ((fun k => Sent (k_id k) msg) <$> filter (fun k => k_nobroadcast k = false) l) with (casts msg l).
    rewrite Hnone by (by rewrite <- Heq). unfold stream. csimpl. rewrite Heq, Nat.eqb_refl. csimpl. by rewrite !app_nil_r.
  - unfold casts in *. rewrite filter_cons. case_decide; [|by apply IH]. csimpl. unfold stream in *. csimpl.
    rewrite (proj2 (Nat.eqb_neq _ _)) by done. by apply IH.
Qed.

Lemma stream_step c k s ms s' :
  healthy s -> step s ms s' -> conn_find c (d_conns s) = Some k -> k_nobroadcast k = false ->
  stream c (d_out s') = stream c (d_out s) ++ concat (wire_line <$> ms).
Proof.
  intros [Hok _ _] Hs Hf Hk. rewrite (sp_out _ _ _ Hs), stream_app. f_equal. clear Hs.
  induction ms as [|m ms IH]; csimpl; [done|]. rewrite stream_app, IH. f_equal. by eapply stream_casts.
Qed.

(** C11. upsd's copy follows the driver.  From any state whose data the protocol can carry, let a
    client that listens to broadcasts ask for the dump, and the driver perform any sequence of
    operations of its interface with arguments that the protocol can carry, all writes
    succeeding, and ups.status being set.  Everything runs to its end, and when upsd has read what was sent to it, in
    whatever pieces, its copy holds exactly what the protocol carries of the driver's state: texts,
    flags, auxiliary numbers, enumerated values, ranges, commands, staleness.  In particular both
    give the same value for every variable. *)
Theorem upsd_tracks_driver drv pid c k s ops i u w :
  healthy s -> driver_ok s -> conn_find c (d_conns s) = Some k -> k_nobroadcast k = false ->
  is_Some (state_tree_find (d_root s) ($"ups.status")) ->
  (forall s1, sock_arg drv pid c [$"DUMPALL"] s = inr (1, s1) -> dops_ok ops s1) ->
  w_ups w !! i = Some u -> just_connected u ->
  exists s1 s2, sock_arg drv pid c [$"DUMPALL"] s = inr (1, s1) /\ run_dops ops s1 = inr (tt, s2)
    /\ healthy s2 /\ driver_ok s2
    /\ exists lines, stream c (d_out s2) = stream c (d_out s) ++ lines
    /\ forall chunks, concat chunks = lines ->
       wp (read_chunks i chunks) (fun _ w' => exists u', w_ups w' !! i = Some u' /\ mirror_of u' = driver_mirror s2
         /\ forall var, state_getinfo (u_inforoot u') var = state_getinfo (d_root s2) var) w.
Proof.
  intros Hh Hok Hf Hk [n Hst] Hops Hu Hj. pose proof Hh as [_ Hc Hop].
  assert (live c s) as Hl.
  { exists k. split; [done|]. apply conn_find_elem in Hf as [Hin _]. rewrite Forall_forall in Hop. by apply Hop. }
  pose proof (dumpall_run drv pid c s Hl Hc Hok) as Hdump. specialize (Hops _ Hdump).
  set (s1 := sent_lines c (wire_line <$> dump_msgs s) s) in *.
  assert (healthy s1 /\ driver_ok s1) as [Hh1 Hok1] by (destruct Hh, Hok; done).
  destruct (run_dops_step ops s1 Hh1 Hok1 Hops) as (s2 & ms & Hrun & Hs2).
  exists s1, s2. split; [done|]. split; [done|]. split; [apply Hs2|]. split; [apply Hs2|].
  exists (concat (wire_line <$> dump_msgs s ++ ms)). split.
  { rewrite (stream_step c k s1 ms s2) by done. unfold s1. by rewrite stream_dump, fmap_app, concat_app, app_assoc. }
  intros chunks Hch. destruct (just_connected_ok u Hj) as (Hr & Hv & Hcm).
  eapply wp_mono; [apply (upsd_follows_chunks i u (dump_msgs s ++ ms)); [done|done| |done]|].
  { apply Forall_app. split; [by apply dump_msgs_ok|apply Hs2]. }
  intros _ w' (u' & Hu' & (_ & _ & Hwf & _) & Hm).
  assert (mirror_of u' = driver_mirror s2) as Hm2.
  { rewrite Hm, (sp_mirror _ _ _ Hs2), fold_left_app. f_equal. rewrite dump_replay; [|done..|].
    - rewrite Hv. unfold driver_mirror, s1. simpl. f_equal. unfold pub_map.
      apply map_eq. intros x. destruct (decide (x = $"ups.status")) as [->|Hx].
      + rewrite find_lookup in Hst by apply Hok. change (lower ($"ups.status")) with ($"ups.status") in Hst.
        assert ((pub <$> to_map (d_root s)) !! $"ups.status" = Some (pub n)) as Hl' by (by rewrite lookup_fmap, Hst).
        rewrite Hl'. by apply lookup_union_Some_l.
      + rewrite lookup_union_l; [done|]. unfold WAITING. by apply lookup_singleton_None.
    - rewrite Hv. intros x e. unfold WAITING. rewrite lookup_singleton_Some. intros [_ <-]. by eexists. }
  exists u'. split_and!; [done|done|]. intros var. apply mirror_getinfo; [done|apply Hs2|]. by rewrite Hm2.
Qed.

(** The driver of [demo_driver] publishes a new status, adds a command and reports fresh data. *)
Definition demo_ops : list driver_op := [DSetInfo ($"ups.status") ($"OB"); DAddCmd ($"load.off"); DDataOk].

Lemma upsd_tracks_driver_witness :
  exists s1 s2, run_dops demo_ops s1 = inr (tt, s2)
    /\ wp (read_chunks 0 [stream 0 (d_out s2)]) (fun _ w' => exists u', w_ups w' !! 0%nat = Some u'
         /\ mirror_of u' = driver_mirror s2) fresh_world.
Proof.
  assert (forall s, dops_ok demo_ops s) as Hops.
  { intros s. split; [split|].
    - apply (bool_decide_unpack _). vm_compute. exact I.
    - split; apply (bool_decide_unpack _); vm_compute; exact I.
    - intros s1 _. split; [apply (bool_decide_unpack _); vm_compute; exact I|]. by intros s2 _. }
  destruct (upsd_tracks_driver bare_driver 1 0 (mkConn 0 7 true pconf_init false 0 false) demo_driver demo_ops 0
    fresh_ups fresh_world) as (s1 & s2 & _ & Hrun & _ & _ & lines & Hs & Hr).
  - split; [apply (bool_decide_unpack _); vm_compute; exact I|split; [reflexivity|discriminate]|by repeat constructor].
  - exact demo_driver_ok.
  - reflexivity.
  - reflexivity.
  - eexists. vm_compute. reflexivity.
  - intros s1 _. apply Hops.
  - reflexivity.
  - exact fresh_connected.
  - exists s1, s2. split; [exact Hrun|]. eapply wp_mono; [apply Hr; rewrite Hs; simpl; by rewrite app_nil_r|].
    intros _ w' (u' & Hu' & Hm & _). by exists u'.
Defined.

(** ** What a driver's peers do not learn

    Two ways in which upsd's copy of a driver's state ends up incomplete although every
    write succeeds. *)

(** ** An old error number *)

(** A failure on one connection truncates the dump of the next.  [errno] still is [ENOTCONN] after a
    connection was lost, [send_to_one] does not reset it when it succeeds, and the dump tests it
    after every line: a client that asks for a dump then gets one line, no DUMPDONE, and the command is
    reported as failed for a lost connection, which stays open. *)
Theorem old_error_truncates_dump drv pid c s :
  live c s -> d_writes s = [] -> d_errno s = ENOTCONN -> Forall fits (dump_lines s) ->
  nodes (d_root s) <> [] \/ d_stale s = 1 ->
  exists line s', head (dump_lines s) = Some line
    /\ sock_arg drv pid c [$"DUMPALL"] s = inr (-2, s')
    /\ d_out s' = d_out s ++ [Sent c line] /\ live c s'.
Proof.
  intros Hl Hw He Hfits Hne. unfold sock_arg. rewrite unless_closing_live by done. eval_keywords.
  assert (forall m k l, m s = inr (1, sent_lines c [l] s) -> handled m k s = inr (-2, sent_lines c [l] s)) as Hsend.
  { intros m k l Hm. unfold handled, mbind, D_bind, dget. rewrite Hm. rewrite decide_True by done. done. }
  unfold sock_dump. cbv zeta. unfold mbind at 1, D_bind at 1, dget at 1. unfold dump_lines in *.
  destruct (d_stale s =? 1) eqn:Es.
  - exists ($"DATASTALE" ++ [LF]), (sent_lines c [$"DATASTALE" ++ [LF]] s). split; [done|].
    rewrite (Hsend _ _ _ (send_to_one_writes c _ s Hl Hw ltac:(apply Forall_app in Hfits as [[? _]%Forall_cons _]; done))).
    done.
  - assert (nodes (d_root s) <> []) as Hnodes by (destruct Hne as [|Hs]; [done|by rewrite Hs in Es]). clear Hne.
    cbn [app] in *. apply Forall_app in Hfits as [Hfits _]. unfold mbind at 1, D_bind at 1, dget at 1.
    assert (exists n ns, nodes (d_root s) = n :: ns) as (n & ns & Hn) by (destruct (nodes (d_root s)); [done|by eexists _, _]).
    assert (head (tree_lines (d_root s)) = Some (setinfo_line n)) as Hhead by (by rewrite tree_lines_nodes, Hn).
    exists (setinfo_line n), (sent_lines c [setinfo_line n] s). split.
    { destruct (tree_lines (d_root s)); [done|]. by injection Hhead as ->. }
    split; [|done].
    assert (fits (setinfo_line n)) as Hf.
    { destruct (tree_lines (d_root s)); [done|]. injection Hhead as ->. by apply Forall_cons in Hfits as [? _]. }
    assert (forall t, head (nodes t) = Some n -> st_tree_dump_conn t c s = inr (-2, sent_lines c [setinfo_line n] s)) as Hdump.
    { assert (st_tree_dump_conn_one_node n c s = inr (-2, sent_lines c [setinfo_line n] s)) as Hone.
      { unfold st_tree_dump_conn_one_node. rewrite unless_closing_live by done. cbn [dump_each].
        unfold mbind at 1, D_bind at 1. rewrite send_to_one_writes by done. unfold dump_next, mbind at 1, D_bind at 1, dget at 1.
        by rewrite decide_True. }
      induction t as [|m l IHl r _]; intros Hm; [done|]. cbn [st_tree_dump_conn]. rewrite unless_closing_live by done.
      destruct l as [|m' l' r']; cbn [is_node].
      - injection Hm as ->. unfold mbind at 1, D_bind at 1. rewrite Hone.
        unfold dump_next, mbind at 1, D_bind at 1, dget at 1. by rewrite decide_True.
      - assert (head (nodes (Node m' l' r')) = Some n) as Hm'.
        { change (nodes (Node m (Node m' l' r') r)) with (nodes (Node m' l' r') ++ m :: nodes r) in Hm.
          destruct (nodes (Node m' l' r')) eqn:En; [simpl in En; by apply app_nil in En as [_ ?]|]. done. }
        unfold mbind at 1, D_bind at 1. rewrite IHl by done.
        unfold dump_next, mbind at 1, D_bind at 1, dget at 1. by rewrite decide_True. }
    unfold handled at 1, mbind at 1, D_bind at 1. rewrite Hdump by (by rewrite Hn).
    unfold mbind at 1, D_bind at 1, dget at 1. by rewrite decide_True.
Qed.

Lemma old_error_truncates_dump_witness :
  exists s', sock_arg bare_driver 1 0 [$"DUMPALL"] (set_d_errno demo_driver ENOTCONN) = inr (-2, s')
    /\ d_out s' = [Sent 0 ($"DATASTALE" ++ [LF])].
Proof.
  destruct (old_error_truncates_dump bare_driver 1 0 (set_d_errno demo_driver ENOTCONN)) as (line & s' & Hl & Hrun & Ho & _).
  - eexists. split; reflexivity.
  - reflexivity.
  - reflexivity.
  - change (Forall fits (dump_lines demo_driver)). rewrite dump_lines_wire by exact demo_driver_ok.
    apply Forall_fmap. eapply Forall_impl; [apply dump_msgs_ok; exact demo_driver_ok|]. apply wire_fits.
  - by right.
  - exists s'. split; [exact Hrun|]. rewrite Ho. injection Hl as <-. reflexivity.
Defined.

(** ** The last flag *)

(** Flags that are all withdrawn stay in upsd's copy.  [dstate_setflags] (or [dstate_delflags]) with no
    public flag left broadcasts SETFLAGS and the name alone, two words, which upsd's parser
    ignores as too short: the driver's entry has no public flag any more, upsd's keeps the old ones,
    so a variable that became read-only is still offered as writable. *)
Theorem withdrawn_flags_stay s v n flags c k i u w :
  healthy s -> driver_ok s -> name_ok v -> state_tree_find (d_root s) v = Some n ->
  has_flag (n_flags n) ST_FLAG_IMMUTABLE = false -> public (n_flags n) <> 0 -> public flags = 0 ->
  conn_find c (d_conns s) = Some k -> k_nobroadcast k = false ->
  w_ups w !! i = Some u -> recv_ok u -> mirror_of u = driver_mirror s ->
  exists s' lines, dstate_setflags v flags s = inr (tt, s')
    /\ stream c (d_out s') = stream c (d_out s) ++ lines
    /\ e_flags <$> mi_vars (driver_mirror s') !! lower v = Some 0
    /\ wp (sstate_readline i (ReadData lines)) (fun _ w' => exists u', w_ups w' !! i = Some u'
         /\ e_flags <$> mi_vars (mirror_of u') !! lower v = Some (public (n_flags n))) w.
Proof.
  intros Hh Hok Hv Hn Him Hpub Hnone Hc Hk Hu Hr Hm. unfold dstate_setflags, mbind at 1, D_bind at 1, dget at 1.
  rewrite Hn, Him. destruct (Z.eqb_spec (n_flags n) flags) as [Heq|Hne]; [by rewrite Heq in Hpub|].
  assert (public_words flags = []) as Hw.
  { pose proof (public_words_flags flags) as Hf. fold (public flags) in Hf. rewrite Hnone in Hf.
    unfold public_words in *. destruct (has_flag flags ST_FLAG_RW), (has_flag flags ST_FLAG_STRING), (has_flag flags ST_FLAG_NUMBER); done. }
  rewrite setflags_text_wire, Hw by done. unfold mbind, D_bind, dmodify.
  set (s1 := set_d_root s _). assert (healthy s1) as Hh1 by (by apply (healthy_change s)).
  assert (wire_ok (WSetFlags v [])) as Hwok by (split; [done|apply sublist_nil_l]).
  rewrite send_to_all_calm by (done || by apply wire_fits). eexists _, (wire_line (WSetFlags v [])). split; [done|].
  pose proof Hn as Hn'. rewrite find_lookup in Hn' by apply Hok. split_and!.
  - simpl. rewrite stream_app. f_equal. eapply stream_casts; [apply Hh|done|done].
  - unfold driver_mirror. cbn [mi_vars d_root set_d_errno set_d_out set_d_root s1]. unfold pub_map.
    destruct (tree_update_spec (d_root s) v (fun n => set_flags n flags) (do_bst _ Hok) ltac:(done)) as [_ ->].
    rewrite lookup_fmap, lookup_alter_eq, Hn'. simpl. f_equal. exact Hnone.
  - pose proof (upsd_follows i u [WSetFlags v []] w Hu Hr ltac:(by apply Forall_singleton)) as Hf.
    cbn [fmap list_fmap concat] in Hf. rewrite app_nil_r in Hf. eapply wp_mono; [exact Hf|].
    intros _ w' (u' & Hu' & _ & Hm'). exists u'. split; [done|]. rewrite Hm', Hm. cbn [fold_left].
    unfold apply_wire, driver_mirror. cbn [wire_var mi_vars wire_entry]. rewrite lookup_partial_alter_eq.
    unfold pub_map. by rewrite lookup_fmap, Hn'.
Qed.

(** upsd's record of the demonstration driver, in step with it. *)
Definition synced_ups : upstype :=
  set_u_dumpdone (set_u_data_ok (set_u_inforoot (set_u_cmdlist fresh_ups [$"beeper.mute"]) demo_tree) 0) 1.

Lemma withdrawn_flags_stay_witness :
  exists s' lines, dstate_setflags ($"input.transfer.low") 0 demo_driver = inr (tt, s')
    /\ stream 0 (d_out s') = lines
    /\ wp (sstate_readline 0 (ReadData lines)) (fun _ w' => exists u', w_ups w' !! 0%nat = Some u'
         /\ e_flags <$> mi_vars (mirror_of u') !! $"input.transfer.low" = Some 5) (set_w_ups fresh_world [synced_ups]).
Proof.
  destruct (state_tree_find demo_tree ($"input.transfer.low")) as [n|] eqn:Hn; [|vm_compute in Hn; discriminate].
  assert (n_flags n = 5) as Hf by (vm_compute in Hn; injection Hn as <-; reflexivity).
  destruct (withdrawn_flags_stay demo_driver ($"input.transfer.low") n 0 0 (mkConn 0 7 true pconf_init false 0 false) 0
    synced_ups (set_w_ups fresh_world [synced_ups])) as (s' & lines & Hrun & Hs & _ & Hr).
  - split; [apply (bool_decide_unpack _); vm_compute; exact I|split; [reflexivity|discriminate]|by repeat constructor].
  - exact demo_driver_ok.
  - apply (bool_decide_unpack _); vm_compute; exact I.
  - exact Hn.
  - rewrite Hf. reflexivity.
  - rewrite Hf. discriminate.
  - reflexivity.
  - reflexivity.
  - reflexivity.
  - reflexivity.
  - split; [reflexivity|]. split; [apply ready_init|]. split; [apply (run_ops_refines _ Leaf tree_wf_leaf)|].
    apply nodes_map_Forall; [apply demo_driver_ok|]. apply (bool_decide_unpack _). vm_compute. exact I.
  - reflexivity.
  - exists s', lines. split; [exact Hrun|]. split; [exact Hs|]. rewrite Hf in Hr. exact Hr.
Defined.
