(* ===== verification/DStatusFacts.v ===== *)
(** * The status that a driver publishes *)

From S2P Require Import Prelude CStr StrUtil StrFacts ParseConf ParseConfFacts StateTree StateFacts Tokens ListenFacts.
From S2P Require Import Float64 DState DStateFacts DStatus DSock Wire DMirror DReplay DFollow.
From Stdlib Require Import Floats.SpecFloat.
From stdpp Require Import options.

(** ** Publishing a variable when nothing fails *)

Lemma setinfo_healthy s var formatted :
  healthy s -> (length var <= NAME_LIMIT)%nat ->
  exists r s', dstate_setinfo var formatted s = inr (r, s') /\ healthy s'
    /\ d_root s' = (state_setinfo (d_now s) (d_root s) var (snprintf_s ST_MAX_VALUE_LEN formatted)).1
    /\ d_status s' = d_status s.
Proof.
  intros Hh Hv. unfold dstate_setinfo, vdstate_setinfo, setinfo_with.
  set (value := snprintf_s _ _).
  assert (length value <= 255)%nat as Hval by (unfold value, snprintf_s, ST_MAX_VALUE_LEN; rewrite length_take; lia).
  unfold mbind, D_bind, dget, dmodify, dwhen. destruct (state_setinfo _ _ _ _) as [t ret].
  assert (healthy (set_d_root s t)) as Hh1 by (by apply (healthy_change s)).
  destruct (ret =? 1); [|by eexists ret, _].
  rewrite send_to_all_calm; [|done|].
  - eexists ret, _. split; [done|]. destruct Hh1 as [? [? ?] ?]. by split_and!.
  - split; [done|]. unfold NAME_LIMIT, ST_SOCK_BUF_LEN, quoted in *. rewrite !length_app.
    simpl. lia.
Qed.

(** The text that is stored, unless the variable is immutable. *)
Lemma setinfo_stored now t v val :
  (forall n, state_tree_find t v = Some n -> has_flag (n_flags n) ST_FLAG_IMMUTABLE = false) ->
  n_raw <$> state_tree_find (state_setinfo now t v val).1 v = Some val.
Proof.
  intros Him. destruct (setinfo_find_same now t v val) as [-> _]. simpl. f_equal.
  destruct (state_tree_find t v) as [n|]; simpl.
  - unfold setinfo_node. cbn [n_raw n_flags st_tree_node_refresh_timestamp]. destruct (streq _ _) eqn:E.
    + by apply streq_true in E.
    + rewrite Him by done. cbn [fst]. by rewrite val_escape_raw; simpl; rewrite grow_fits.
  - unfold setinfo_new. by rewrite val_escape_raw.
Qed.

(** ** The tokens *)

Definition is_alarm (w : bytes) : bool := strcaseeq w ($"ALARM").

(** The words that the status keeps. *)
Definition accepted (ignorelb : Z) (w : bytes) : bool :=
  negb (negb (ignorelb =? 0) && strcaseeq w ($"LB")) && negb (is_alarm w).

(** What the callback does, by kinds of words. *)
Lemma status_callback_kinds ig tgt w legacy :
  status_set_callback ig tgt w legacy
  = (if is_alarm w then 1 else legacy, if accepted ig w then 1 else 0)
  /\ (is_alarm w = true -> accepted ig w = false).
Proof.
  unfold status_set_callback, accepted. fold (is_alarm w).
  destruct (negb (ig =? 0) && strcaseeq w ($"LB")) eqn:Elb; simpl negb; cbn [andb]; [|by destruct (is_alarm w)].
  assert (is_alarm w = false) as ->; [|done].
  apply andb_true_iff in Elb as [_ Elb]. unfold is_alarm. by rewrite (strcaseeq_trans_l _ _ _ Elb).
Qed.

Lemma admit_status ig l ws legacy :
  admit_words ST_MAX_VALUE_LEN (Some (status_set_callback ig)) None ws l legacy
  = (fold_left (add_word ST_MAX_VALUE_LEN) (filter (fun w => accepted ig w = true) l) ws,
     if existsb is_alarm l then 1 else legacy).
Proof.
  revert ws legacy. induction l as [|w l IH]; intros ws legacy; [done|]. unfold admit_words in *. cbn [fold_left existsb].
  rewrite filter_cons. unfold admit_word at 2. cbn [run_callback].
  destruct (status_callback_kinds ig (join ws) w legacy) as [-> Hkind].
  destruct (is_alarm w); [rewrite Hkind by done|]; cbn [orb].
  - cbn [Z.eqb]. rewrite decide_False by done. rewrite IH. by destruct (existsb _ _).
  - destruct (accepted ig w); [|cbn [Z.eqb]; rewrite decide_False by done; by rewrite IH].
    cbn [Z.eqb]. rewrite (decide_True (P := true = true)) by done. cbn [fold_left].
    destruct (decide (w ∈ ws)) as [Hin|Hin]; rewrite IH; [|done].
    assert (add_word ST_MAX_VALUE_LEN ws w = ws) as -> by (unfold add_word; by rewrite decide_True). done.
Qed.

Lemma admits_status ig l ws legacy :
  admits_whole ST_MAX_VALUE_LEN (Some (status_set_callback ig)) None ws l legacy
  = whole ST_MAX_VALUE_LEN ws (filter (fun w => accepted ig w = true) l).
Proof.
  revert ws legacy. induction l as [|w l IH]; intros ws legacy; [done|]. cbn [admits_whole]. rewrite filter_cons.
  unfold let_through, admit_word. cbn [run_callback].
  destruct (status_callback_kinds ig (join ws) w legacy) as [-> Hkind].
  destruct (is_alarm w); [rewrite Hkind by done|].
  - cbn [Z.eqb whole fst snd andb]. by rewrite decide_False.
  - destruct (accepted ig w); [|cbn [Z.eqb whole fst snd andb]; by rewrite decide_False].
    cbn [Z.eqb]. rewrite (decide_True (P := true = true)) by done. cbn [whole].
    destruct (decide (w ∈ ws)) as [Hin|Hin]; cbn [whole fst snd]; rewrite IH.
    + rewrite bool_decide_true by done. assert (add_word ST_MAX_VALUE_LEN ws w = ws) as ->; [|done].
      unfold add_word. by rewrite decide_True.
    + by rewrite andb_true_r.
Qed.

(** Setting tokens one after the other. *)
Fixpoint status_sets (toks : list bytes) : D unit :=
  match toks with [] => mret tt | t :: toks' => status_set t ;; status_sets toks' end.

Definition with_status (s : dstate) (ws : list bytes) (legacy : Z) : dstate :=
  set_d_status s (set_b_alarm_legacy_status (set_b_status_buf (d_status s) (join ws)) legacy).

Lemma status_sets_run toks : forall s ws legacy,
  Forall word ws ->
  whole ST_MAX_VALUE_LEN ws (filter (fun w => accepted (b_ignorelb (d_status s)) w = true) (concat (words <$> toks))) = true ->
  status_sets toks (with_status s ws legacy)
  = inr (tt, with_status s
      (fold_left (add_word ST_MAX_VALUE_LEN)
        (filter (fun w => accepted (b_ignorelb (d_status s)) w = true) (concat (words <$> toks))) ws)
      (if existsb is_alarm (concat (words <$> toks)) then 1 else legacy)).
Proof.
  induction toks as [|t toks IH]; intros s ws legacy Hws Hwh; [done|]. revert Hwh. csimpl.
  rewrite filter_app, fold_left_app, existsb_app, whole_app. intros [Hwh1 Hwh2]%andb_true_iff.
  unfold mbind at 1, D_bind at 1. unfold status_set, mbind at 1, D_bind at 1, status_get_field, dget. cbn [id].
  set (ig := b_ignorelb (d_status s)).
  pose proof (str_add_unique_token_spec ST_MAX_VALUE_LEN (Some (status_set_callback ig)) None ws t legacy Hws) as Hadd.
  rewrite admits_status in Hadd. specialize (Hadd Hwh1).
  pose proof (admit_words_words ST_MAX_VALUE_LEN (Some (status_set_callback ig)) None (words t) ws legacy Hws (words_are_words t)) as Hok.
  rewrite admit_status in Hadd, Hok. cbn [fst snd] in Hadd, Hok.
  change (b_ignorelb (d_status (with_status s ws legacy))) with ig.
  change (b_status_buf (d_status (with_status s ws legacy))) with (join ws).
  change (b_alarm_legacy_status (d_status (with_status s ws legacy))) with legacy.
  destruct (str_add_unique_token _ _ _ (join ws) t legacy) as [[tgt l'] ret]. cbn [fst] in Hadd. simplify_eq.
  unfold status_upd, dmodify. specialize (IH s _ (if existsb is_alarm (words t) then 1 else legacy) Hok Hwh2).
  match goal with |- status_sets toks ?s' = _ =>
    change s' with (with_status s (fold_left (add_word ST_MAX_VALUE_LEN) (filter (fun w => accepted ig w = true) (words t)) ws)
      (if existsb is_alarm (words t) then 1 else legacy)) end.
  rewrite IH. do 3 f_equal. by destruct (existsb is_alarm (words t)), (existsb is_alarm (concat _)).
Qed.

(** ** Publishing *)

(** Is the charge or the runtime below its threshold? *)
Definition battery_low (t : st_tree) : bool :=
  below (state_getinfo t ($"battery.charge")) (state_getinfo t ($"battery.charge.low"))
  || below (state_getinfo t ($"battery.runtime")) (state_getinfo t ($"battery.runtime.low")).

Definition with_lb (text : bytes) (lb : bool) : bytes :=
  if lb then snprintfcat text ST_MAX_VALUE_LEN ($" LB") else text.

Definition with_alarm (text : bytes) (alarm : bool) : bytes :=
  if alarm then match text with [] => $"ALARM" | t => $"ALARM " ++ t end else text.

Lemma healthy_status s f : healthy s -> healthy (set_d_status s f).
Proof. by intros [? [? ?] ?]. Qed.

(** Numbers of which neither is below the other are equal for [d_equal]. *)
Lemma not_less_equal x y :
  f64_le (of_long 0) x = true -> f64_le (of_long 0) y = true -> f64_lt y (of_long 100) = true ->
  f64_lt x y = false -> f64_lt y x = false -> d_equal x y = true.
Proof.
  unfold f64_le, f64_lt, SFleb, SFltb. change (of_long 0) with (S754_zero false).
  destruct x as [sx|[]| |[] mx ex], y as [sy|[]| |[] my ey]; try done; intros _ _ _.
  - by destruct sx, sy.
  - cbn [SFcompare]. rewrite (Z.compare_antisym ex ey). destruct (Z.compare_spec ex ey) as [->| |]; try done. cbn [CompOpp].
    change (Pos.compare_cont Eq mx my) with (Pos.compare mx my). change (Pos.compare_cont Eq my mx) with (Pos.compare my mx).
    rewrite (Pos.compare_antisym mx my). destruct (Pos.compare_spec mx my) as [->| |]; try done. intros _ _.
    unfold d_equal, f64_sub, SFsub, SFadd. rewrite Z.min_id. cbn [SFopp]. unfold shl_align. rewrite Z.sub_diag. cbn.
    reflexivity.
Qed.

(** A change is one up or down. *)
Lemma charge_change_strict p v : charge_change p v <> Some Eq.
Proof.
  unfold charge_change. destruct (f64_le (of_long 0) p) eqn:E0; [|done]. cbn [negb]. destruct (str_to_double v) as [ok c].
  destruct (f64_le (of_long 0) c) eqn:E1; [|by rewrite andb_false_r].
  destruct (f64_lt c (of_long 100)) eqn:E2; [|by rewrite andb_false_r].
  destruct (f64_lt p c) eqn:E3; [by case_match|]. destruct (f64_lt c p) eqn:E4; [by case_match|].
  rewrite (not_less_equal p c) by done. cbn [negb]. by rewrite andb_false_r.
Qed.

(** The change of the charge that [status_commit] finds *)
Definition charge_trend (previous : double) (t : st_tree) : option comparison :=
  e ← state_tree_find t ($"battery.charge"); charge_change previous (n_val e).

(** What it adds to the text: a charge that went up means CHRG, unless that is reported already, and likewise down means
    DISCHRG. *)
Definition charge_words (trend : option comparison) (text : bytes) : list bytes :=
  let reports w := bool_decide (w ∈ words text) in
  match trend with
  | None | Some Eq => []
  | Some Gt => if reports ($"CHRG") then [] else [$"CHRG"]
  | Some Lt => if reports ($"DISCHRG") then [] else [$"DISCHRG"]
  end.

Definition with_charge (trend : option comparison) (text : bytes) : bytes :=
  fold_left (fun t w => match t with [] => w | _ => t ++ SPACE :: w end) (charge_words trend text) text.

Definition mutable_status (s : dstate) : Prop :=
  forall n, state_tree_find (d_root s) ($"ups.status") = Some n -> has_flag (n_flags n) ST_FLAG_IMMUTABLE = false.

(** Setting one word that is neither LB nor ALARM *)
Lemma status_set_one w s :
  word w -> accepted 1 w = true -> (length (b_status_buf (d_status s)) + S (S (length w)) < ST_MAX_VALUE_LEN)%nat ->
  let text := b_status_buf (d_status s) in
  status_set w s = inr (tt, set_d_status s (set_b_status_buf (d_status s)
    (if bool_decide (w ∈ words text) then text else match text with [] => w | _ => text ++ SPACE :: w end))).
Proof.
  intros Hw Hacc Hlen text. unfold accepted in Hacc. cbn [Z.eqb negb andb] in Hacc.
  apply andb_true_iff in Hacc as [Hlb%negb_true_iff Hal%negb_true_iff].
  unfold status_set, mbind, D_bind, status_get_field, dget. cbn [id]. fold text in Hlen |- * .
  assert (str_add_unique_token ST_MAX_VALUE_LEN (Some (status_set_callback (b_ignorelb (d_status s)))) None text w
      (b_alarm_legacy_status (d_status s))
    = (if bool_decide (w ∈ words text) then text else match text with [] => w | _ => text ++ SPACE :: w end,
       b_alarm_legacy_status (d_status s), if bool_decide (w ∈ words text) then 0 else 1)) as ->.
  2: { unfold status_upd, dmodify. by destruct (d_status s). }
  unfold str_add_unique_token. destruct Hw as [Hne Hsp]. pose proof (conj Hne Hsp : word w) as Hw. destruct w as [|c w]; [done|].
  assert (strstr_pos (c :: w) [SPACE] = None) as ->.
  { apply strstr_none. intros k [r Hr]. apply Hsp. rewrite Hr. apply elem_of_app. right. left. }
  unfold add_one_token. cbn [run_callback]. unfold status_set_callback. rewrite Hlb, andb_false_r. unfold is_alarm in Hal. rewrite Hal.
  cbn [Z.eqb]. rewrite str_contains_token_spec by done. case_bool_decide; [done|].
  rewrite (proj2 (Nat.ltb_ge _ _)) by (destruct text; simpl in *; lia). do 2 f_equal.
  rewrite snprintfcat_id by (destruct text; simpl in *; [lia|rewrite length_app; simpl; lia]). by destruct text.
Qed.

Lemma charge_words_accepted trend text : Forall (fun w => word w /\ accepted 1 w = true /\ (length w <= 7)%nat) (charge_words trend text).
Proof.
  assert (forall w, w ∈ [$"CHRG"; $"DISCHRG"] -> word w /\ accepted 1 w = true /\ (length w <= 7)%nat) as H.
  { intros w Hw. rewrite !elem_of_cons, elem_of_nil in Hw.
    destruct Hw as [->|[->|[]]]; (split; [apply (bool_decide_unpack _); vm_compute; exact I|split; [reflexivity|simpl; lia]]). }
  unfold charge_words. destruct trend as [[]|]; repeat case_match; try apply Forall_nil_2; apply Forall_singleton, H; set_solver.
Qed.

(** There is room for one more word of the charge. *)
Definition charge_fits (trend : option comparison) (text : bytes) : Prop :=
  trend = None \/ (length text + 9 < ST_MAX_VALUE_LEN)%nat.

(** The part of [status_commit] about the charge *)
Lemma charge_step trend s :
  let text := b_status_buf (d_status s) in
  charge_fits trend text -> trend <> Some Eq ->
  match trend with
  | None => mret tt
  | Some c =>
      dischrg ← status_get ($"DISCHRG");
      chrg ← status_get ($"CHRG");
      if negb dischrg && negb chrg then
        status_set (match c with Gt => $"CHRG" | _ => $"DISCHRG" end)
      else
        let misleading_dischrg := match c with Gt => dischrg | _ => false end in
        let misleading_chrg := match c with Lt => chrg | _ => false end in
        dwhen (misleading_dischrg || misleading_chrg)
          (status_set (if misleading_dischrg then $"CHRG" else $"DISCHRG"))
  end s = inr (tt, set_d_status s (set_b_status_buf (d_status s) (with_charge trend text))).
Proof.
  intros text Hfit Hne.
  assert (inr (tt, s) = inr (tt, set_d_status s (set_b_status_buf (d_status s) text)) :> fault + unit * dstate) as Hsame
    by (unfold text; by destruct s as [? ? ? ? ? ? ? ? ? ? ? [] ?]).
  assert (word ($"CHRG") /\ accepted 1 ($"CHRG") = true) as [Hc1 Hc2] by (split; [apply (bool_decide_unpack _); vm_compute; exact I|reflexivity]).
  assert (word ($"DISCHRG") /\ accepted 1 ($"DISCHRG") = true) as [Hd1 Hd2] by (split; [apply (bool_decide_unpack _); vm_compute; exact I|reflexivity]).
  destruct trend as [c|]; [|exact Hsame]. destruct Hfit as [?|Hfit]; [done|].
  unfold status_get, status_get_field, mbind, D_bind, dget, mret, D_ret. fold text. rewrite !str_contains_token_spec by done.
  pose proof (status_set_one ($"CHRG") s Hc1 Hc2) as Sc. pose proof (status_set_one ($"DISCHRG") s Hd1 Hd2) as Sd.
  fold text in Sc, Sd. specialize (Sc ltac:(simpl; lia)). specialize (Sd ltac:(simpl; lia)). cbv zeta in Sc, Sd.
  unfold with_charge, charge_words, dwhen.
  destruct (bool_decide ($"DISCHRG" ∈ words text)), (bool_decide ($"CHRG" ∈ words text)), c; try done; cbn [negb andb orb fold_left];
    rewrite ?Sc, ?Sd; done.
Qed.

Lemma status_commit_run previous s :
  let b := d_status s in
  let text := with_lb (b_status_buf b) (negb (b_ignorelb b =? 0) && battery_low (d_root s)) in
  let trend := charge_trend previous (d_root s) in
  let alarm := negb (b_alarm_active b =? 0) || negb (b_alarm_legacy_status b =? 0) in
  healthy s -> charge_fits trend text -> mutable_status s ->
  exists s', status_commit previous s = inr (tt, s') /\ healthy s'
    /\ n_raw <$> state_tree_find (d_root s') ($"ups.status")
       = Some (snprintf_s ST_MAX_VALUE_LEN (with_alarm (with_charge trend text) alarm)).
Proof.
  intros b text trend alarm Hh Hfit Hm.
  assert (forall f s1, healthy s1 -> d_root s1 = d_root s ->
    exists s', (_ ← dstate_setinfo ($"ups.status") f; mret tt) s1 = inr (tt, s') /\ healthy s'
      /\ n_raw <$> state_tree_find (d_root s') ($"ups.status") = Some (snprintf_s ST_MAX_VALUE_LEN f)) as Hset.
  { intros f s1 Hh1 Hr1. destruct (setinfo_healthy s1 ($"ups.status") f Hh1) as (r & s' & Hrun & Hh' & Hr & _);
      [by apply Nat.leb_le|]. exists s'. unfold mbind, D_bind. rewrite Hrun. split; [done|]. split; [done|].
    rewrite Hr, Hr1. by apply setinfo_stored. }
  unfold status_commit, dstate_tree_find, dstate_getinfo, status_get_field.
  unfold mbind at 1, D_bind at 1, dget at 1. cbn [mbind option_bind].
  do 4 (unfold mbind at 1, D_bind at 1, dget at 1). cbn [id].
  assert (negb (b_ignorelb (d_status s) =? 0)
    && (below (n_val <$> state_tree_find (d_root s) ($"battery.charge")) (state_getinfo (d_root s) ($"battery.charge.low"))
        || below (state_getinfo (d_root s) ($"battery.runtime")) (state_getinfo (d_root s) ($"battery.runtime.low")))
    = (negb (b_ignorelb b =? 0) && battery_low (d_root s))) as -> by done.
  set (lb := negb (b_ignorelb b =? 0) && battery_low (d_root s)) in *.
  unfold mbind at 1, D_bind at 1.
  assert (dwhen lb (status_upd (fun b => set_b_status_buf b (snprintfcat (b_status_buf b) ST_MAX_VALUE_LEN ($" LB")))) s
    = inr (tt, set_d_status s (set_b_status_buf b text))) as ->.
  { unfold text, with_lb, dwhen, status_upd, dmodify. destruct lb; [done|]. unfold b. by destruct s as [? ? ? ? ? ? ? ? ? ? ? [] ?]. }
  unfold mbind at 1, D_bind at 1.
  change (state_tree_find (d_root s) ($"battery.charge") ≫= (fun e => charge_change previous (n_val e))) with trend.
  pose proof (charge_step trend (set_d_status s (set_b_status_buf b text)) Hfit) as Hstep.
  assert (trend <> Some Eq) as Hne by (unfold trend, charge_trend; destruct (state_tree_find _ _); [apply charge_change_strict|done]). cbv zeta in Hstep. rewrite Hstep by done. clear Hstep.
  set (text' := with_charge trend text). change (set_d_status _ (set_b_status_buf _ (with_charge trend _)))
    with (set_d_status s (set_b_status_buf b text')).
  unfold mbind at 1, D_bind at 1, dget at 1. cbn [id].
  change (b_alarm_active (d_status (set_d_status s (set_b_status_buf b text')))) with (b_alarm_active b).
  change (b_alarm_legacy_status (d_status (set_d_status s (set_b_status_buf b text')))) with (b_alarm_legacy_status b).
  fold alarm. change (b_status_buf (d_status (set_d_status s (set_b_status_buf b text')))) with text'.
  assert (healthy (set_d_status s (set_b_status_buf b text'))) as Hh1 by by apply healthy_status.
  unfold with_alarm. clearbody text'. destruct alarm.
  - destruct text'; by apply Hset.
  - destruct (Hset text' _ Hh1 eq_refl) as (s' & Hrun & Hh' & Hr). unfold mbind, D_bind in Hrun |- * .
    destruct (dstate_setinfo _ _ _) as [|[r s1]]; [done|]. injection Hrun as ->.
    eexists. split; [done|]. split; [by apply healthy_status|done].
Qed.

(** C25. The status that clients see.  One pass of a driver - [status_init], any calls of
    [status_set], [status_commit] - publishes in ups.status the distinct words it set, whole, in
    the order of their first occurrence, as far as the buffer holds them: a word is left out when it would make the
    text longer than 254 characters ([whole]: no word makes it 255 characters long, which would cut the last of them); ALARM
    is never among them but comes first, when a driver set it or an alarm is active; with the flag
    ignorelb the device's LB is dropped and LB is appended exactly when the charge or the runtime
    is below its threshold, as far as it fits.  When the charge, below 100, has changed since the loop began, CHRG or
    DISCHRG follows, whichever the change shows, unless it is there already (there must be room for it, and ups.status
    must not be immutable). *)
Theorem status_published previous toks s :
  healthy s -> mutable_status s ->
  let ignorelb := match state_getinfo (d_root s) ($"driver.flag.ignorelb") with Some _ => 1 | None => 0 end in
  let all := concat (words <$> toks) in
  let kept := filter (fun w => accepted ignorelb w = true) all in
  let ws := fold_left (add_word ST_MAX_VALUE_LEN) kept [] in
  let lb := negb (ignorelb =? 0) && battery_low (d_root s) in
  let alarm := negb (b_alarm_active (d_status s) =? 0) || existsb is_alarm all in
  let trend := charge_trend previous (d_root s) in
  let text := with_lb (join ws) lb in
  whole ST_MAX_VALUE_LEN [] kept = true -> charge_fits trend text ->
  word_list ST_MAX_VALUE_LEN ws
  /\ exists s', (status_init ;; status_sets toks ;; status_commit previous) s = inr (tt, s') /\ healthy s'
    /\ n_raw <$> state_tree_find (d_root s') ($"ups.status")
       = Some (snprintf_s ST_MAX_VALUE_LEN (with_alarm (with_charge trend text) alarm)).
Proof.
  intros Hh Hm ignorelb all kept ws lb alarm trend text Hwh Hfit. split.
  { apply fold_add_word_list; [split_and!; [done|apply NoDup_nil_2|by left]|].
    apply Forall_forall. intros w [_ Hw]%list_elem_of_filter. unfold all in Hw.
    apply list_elem_of_In, in_concat in Hw as (l & Hl%list_elem_of_In & Hw%list_elem_of_In).
    apply list_elem_of_fmap in Hl as (t & -> & _). pose proof (words_are_words t) as Hwt.
    rewrite Forall_forall in Hwt. by apply Hwt. }
  set (s0 := set_d_status s (set_b_alarm_status (set_b_ignorelb (d_status s) ignorelb) 0)).
  assert (status_init s = inr (tt, with_status s0 [] 0)) as Hinit.
  { unfold status_init, dstate_getinfo, status_upd, mbind, D_bind, dget, dmodify, with_status, s0.
    reflexivity. }
  unfold mbind at 1, D_bind at 1. rewrite Hinit. unfold mbind at 1, D_bind at 1.
  rewrite status_sets_run by done. change (b_ignorelb (d_status s0)) with ignorelb. fold all. fold kept. fold ws.
  destruct (status_commit_run previous (with_status s0 ws (if existsb is_alarm all then 1 else 0))) as (s' & Hrun & Hh' & Hr);
    [by apply healthy_status, healthy_status|done|done|].
  exists s'. split; [exact Hrun|]. split; [done|]. rewrite Hr. unfold alarm. simpl.
  by destruct (existsb is_alarm all).
Qed.

(** A driver with the flag ignorelb and a low charge that was 18 when the loop began, and a device that reports LB and an alarm. *)
Definition low_driver : dstate :=
  set_d_root demo_driver (run_ops demo_tree [OpSetInfo 4 ($"driver.flag.ignorelb") ($"enabled");
    OpSetInfo 4 ($"battery.charge") ($"17"); OpSetInfo 4 ($"battery.charge.low") ($"20")]).1.

Lemma status_published_witness :
  exists s', (status_init ;; status_sets [$"OB"; $"LB"; $"ALARM OB"] ;; status_commit (of_long 18)) low_driver
    = inr (tt, s')
    /\ n_raw <$> state_tree_find (d_root s') ($"ups.status") = Some ($"ALARM OB LB DISCHRG").
Proof.
  destruct (status_published (of_long 18) [$"OB"; $"LB"; $"ALARM OB"] low_driver) as (_ & s' & Hrun & _ & Hr).
  - split; [apply (bool_decide_unpack _); vm_compute; exact I|split; [reflexivity|discriminate]|by repeat constructor].
  - intros n Hn. vm_compute in Hn. injection Hn as <-. reflexivity.
  - reflexivity.
  - right. apply Nat.ltb_lt. vm_compute. reflexivity.
  - exists s'. split; [exact Hrun|]. rewrite Hr. vm_compute. reflexivity.
Defined.
