(* ===== verification/HidParser.v ===== *)
(** * drivers/hidparser.c: USB HID report descriptors and report fields

    The parser of the report descriptor a UPS sends over USB, the lookup of its
    objects, and the reading and writing of the bit fields of a report.

    Bytes and the fixed-width members of the structures are [Z] kept in range by the wrapping
    of the C types; [long] has 64 bits.  Reading or writing outside an array, or
    through the [NULL] that [GetReportOffset] may return, is [UB]. *)

From S2P Require Import Prelude.
From stdpp Require Import options.

Definition PATH_SIZE : Z := 10.
Definition USAGE_TAB_SIZE : nat := 50.
Definition MAX_REPORT : nat := 500.
Definition SIZE_MASK : Z := 0x03.
Definition ITEM_COLLECTION : Z := 0xA0.
Definition ITEM_END_COLLECTION : Z := 0xC0.
Definition ITEM_FEATURE : Z := 0xB0.
Definition ITEM_INPUT : Z := 0x80.
Definition ITEM_OUTPUT : Z := 0x90.
Definition ITEM_UPAGE : Z := 0x04.
Definition ITEM_LOG_MIN : Z := 0x14.
Definition ITEM_LOG_MAX : Z := 0x24.
Definition ITEM_PHY_MIN : Z := 0x34.
Definition ITEM_PHY_MAX : Z := 0x44.
Definition ITEM_UNIT_EXP : Z := 0x54.
Definition ITEM_UNIT : Z := 0x64.
Definition ITEM_REP_SIZE : Z := 0x74.
Definition ITEM_REP_ID : Z := 0x84.
Definition ITEM_REP_COUNT : Z := 0x94.
Definition ITEM_USAGE : Z := 0x08.
Definition ITEM_LONG : Z := 0xFC.
Definition ITEM_MASK : Z := 0xFC.

Definition ItemSize : list Z := [0; 1; 2; 4].

(** [HIDData_t] with its [HIDPath_t] *)
Record HIDData := mkData {
  d_path_size : Z;
  d_path : list Z;
  d_ReportID : Z;
  d_Offset : Z;
  d_Size : Z;
  d_Type : Z;
  d_Attribute : Z;
  d_Unit : Z;
  d_UnitExp : Z;
  d_LogMin : Z;
  d_LogMax : Z;
  d_assumed_LogMax : bool;
  d_PhyMin : Z;
  d_PhyMax : Z;
  d_have_PhyMin : Z;
  d_have_PhyMax : Z
}.

Definition set_d_path_size (d : HIDData) x := mkData x (d_path d) (d_ReportID d) (d_Offset d)
  (d_Size d) (d_Type d) (d_Attribute d) (d_Unit d) (d_UnitExp d) (d_LogMin d) (d_LogMax d)
  (d_assumed_LogMax d) (d_PhyMin d) (d_PhyMax d) (d_have_PhyMin d) (d_have_PhyMax d).
Definition set_d_path (d : HIDData) x := mkData (d_path_size d) x (d_ReportID d) (d_Offset d)
  (d_Size d) (d_Type d) (d_Attribute d) (d_Unit d) (d_UnitExp d) (d_LogMin d) (d_LogMax d)
  (d_assumed_LogMax d) (d_PhyMin d) (d_PhyMax d) (d_have_PhyMin d) (d_have_PhyMax d).
Definition set_d_ReportID (d : HIDData) x := mkData (d_path_size d) (d_path d) x (d_Offset d)
  (d_Size d) (d_Type d) (d_Attribute d) (d_Unit d) (d_UnitExp d) (d_LogMin d) (d_LogMax d)
  (d_assumed_LogMax d) (d_PhyMin d) (d_PhyMax d) (d_have_PhyMin d) (d_have_PhyMax d).
Definition set_d_Offset (d : HIDData) x := mkData (d_path_size d) (d_path d) (d_ReportID d) x
  (d_Size d) (d_Type d) (d_Attribute d) (d_Unit d) (d_UnitExp d) (d_LogMin d) (d_LogMax d)
  (d_assumed_LogMax d) (d_PhyMin d) (d_PhyMax d) (d_have_PhyMin d) (d_have_PhyMax d).
Definition set_d_Size (d : HIDData) x := mkData (d_path_size d) (d_path d) (d_ReportID d)
  (d_Offset d) x (d_Type d) (d_Attribute d) (d_Unit d) (d_UnitExp d) (d_LogMin d) (d_LogMax d)
  (d_assumed_LogMax d) (d_PhyMin d) (d_PhyMax d) (d_have_PhyMin d) (d_have_PhyMax d).
Definition set_d_Type (d : HIDData) x := mkData (d_path_size d) (d_path d) (d_ReportID d)
  (d_Offset d) (d_Size d) x (d_Attribute d) (d_Unit d) (d_UnitExp d) (d_LogMin d) (d_LogMax d)
  (d_assumed_LogMax d) (d_PhyMin d) (d_PhyMax d) (d_have_PhyMin d) (d_have_PhyMax d).
Definition set_d_Attribute (d : HIDData) x := mkData (d_path_size d) (d_path d) (d_ReportID d)
  (d_Offset d) (d_Size d) (d_Type d) x (d_Unit d) (d_UnitExp d) (d_LogMin d) (d_LogMax d)
  (d_assumed_LogMax d) (d_PhyMin d) (d_PhyMax d) (d_have_PhyMin d) (d_have_PhyMax d).
Definition set_d_Unit (d : HIDData) x := mkData (d_path_size d) (d_path d) (d_ReportID d)
  (d_Offset d) (d_Size d) (d_Type d) (d_Attribute d) x (d_UnitExp d) (d_LogMin d) (d_LogMax d)
  (d_assumed_LogMax d) (d_PhyMin d) (d_PhyMax d) (d_have_PhyMin d) (d_have_PhyMax d).
Definition set_d_UnitExp (d : HIDData) x := mkData (d_path_size d) (d_path d) (d_ReportID d)
  (d_Offset d) (d_Size d) (d_Type d) (d_Attribute d) (d_Unit d) x (d_LogMin d) (d_LogMax d)
  (d_assumed_LogMax d) (d_PhyMin d) (d_PhyMax d) (d_have_PhyMin d) (d_have_PhyMax d).
Definition set_d_LogMin (d : HIDData) x := mkData (d_path_size d) (d_path d) (d_ReportID d)
  (d_Offset d) (d_Size d) (d_Type d) (d_Attribute d) (d_Unit d) (d_UnitExp d) x (d_LogMax d)
  (d_assumed_LogMax d) (d_PhyMin d) (d_PhyMax d) (d_have_PhyMin d) (d_have_PhyMax d).
Definition set_d_LogMax (d : HIDData) x := mkData (d_path_size d) (d_path d) (d_ReportID d)
  (d_Offset d) (d_Size d) (d_Type d) (d_Attribute d) (d_Unit d) (d_UnitExp d) (d_LogMin d) x
  (d_assumed_LogMax d) (d_PhyMin d) (d_PhyMax d) (d_have_PhyMin d) (d_have_PhyMax d).
Definition set_d_assumed_LogMax (d : HIDData) x := mkData (d_path_size d) (d_path d) (d_ReportID
  d) (d_Offset d) (d_Size d) (d_Type d) (d_Attribute d) (d_Unit d) (d_UnitExp d) (d_LogMin d)
  (d_LogMax d) x (d_PhyMin d) (d_PhyMax d) (d_have_PhyMin d) (d_have_PhyMax d).
Definition set_d_PhyMin (d : HIDData) x := mkData (d_path_size d) (d_path d) (d_ReportID d)
  (d_Offset d) (d_Size d) (d_Type d) (d_Attribute d) (d_Unit d) (d_UnitExp d) (d_LogMin d)
  (d_LogMax d) (d_assumed_LogMax d) x (d_PhyMax d) (d_have_PhyMin d) (d_have_PhyMax d).
Definition set_d_PhyMax (d : HIDData) x := mkData (d_path_size d) (d_path d) (d_ReportID d)
  (d_Offset d) (d_Size d) (d_Type d) (d_Attribute d) (d_Unit d) (d_UnitExp d) (d_LogMin d)
  (d_LogMax d) (d_assumed_LogMax d) (d_PhyMin d) x (d_have_PhyMin d) (d_have_PhyMax d).
Definition set_d_have_PhyMin (d : HIDData) x := mkData (d_path_size d) (d_path d) (d_ReportID d)
  (d_Offset d) (d_Size d) (d_Type d) (d_Attribute d) (d_Unit d) (d_UnitExp d) (d_LogMin d)
  (d_LogMax d) (d_assumed_LogMax d) (d_PhyMin d) (d_PhyMax d) x (d_have_PhyMax d).
Definition set_d_have_PhyMax (d : HIDData) x := mkData (d_path_size d) (d_path d) (d_ReportID d)
  (d_Offset d) (d_Size d) (d_Type d) (d_Attribute d) (d_Unit d) (d_UnitExp d) (d_LogMin d)
  (d_LogMax d) (d_assumed_LogMax d) (d_PhyMin d) (d_PhyMax d) (d_have_PhyMin d) x.

(** [HIDParser_t]; [ReportDescSize] and [UsageTabSize] are the lengths of their arrays. *)
Record HIDParser := mkParser {
  h_ReportDesc : list Z;
  h_Pos : Z;
  h_Item : Z;
  h_Value : Z;
  h_Data : HIDData;
  h_OffsetTab : list (Z * Z * Z);
  h_ReportCount : Z;
  h_Count : Z;
  h_UPage : Z;
  h_UsageTab : list Z;
  h_UsageSize : nat
}.

Definition set_h_Pos (p : HIDParser) x := mkParser (h_ReportDesc p) x (h_Item p) (h_Value p)
  (h_Data p) (h_OffsetTab p) (h_ReportCount p) (h_Count p) (h_UPage p) (h_UsageTab p)
  (h_UsageSize p).
Definition set_h_Item (p : HIDParser) x := mkParser (h_ReportDesc p) (h_Pos p) x (h_Value p)
  (h_Data p) (h_OffsetTab p) (h_ReportCount p) (h_Count p) (h_UPage p) (h_UsageTab p)
  (h_UsageSize p).
Definition set_h_Value (p : HIDParser) x := mkParser (h_ReportDesc p) (h_Pos p) (h_Item p) x
  (h_Data p) (h_OffsetTab p) (h_ReportCount p) (h_Count p) (h_UPage p) (h_UsageTab p)
  (h_UsageSize p).
Definition set_h_Data (p : HIDParser) x := mkParser (h_ReportDesc p) (h_Pos p) (h_Item p)
  (h_Value p) x (h_OffsetTab p) (h_ReportCount p) (h_Count p) (h_UPage p) (h_UsageTab p)
  (h_UsageSize p).
Definition set_h_OffsetTab (p : HIDParser) x := mkParser (h_ReportDesc p) (h_Pos p) (h_Item p)
  (h_Value p) (h_Data p) x (h_ReportCount p) (h_Count p) (h_UPage p) (h_UsageTab p) (h_UsageSize
  p).
Definition set_h_ReportCount (p : HIDParser) x := mkParser (h_ReportDesc p) (h_Pos p) (h_Item p)
  (h_Value p) (h_Data p) (h_OffsetTab p) x (h_Count p) (h_UPage p) (h_UsageTab p) (h_UsageSize
  p).
Definition set_h_Count (p : HIDParser) x := mkParser (h_ReportDesc p) (h_Pos p) (h_Item p)
  (h_Value p) (h_Data p) (h_OffsetTab p) (h_ReportCount p) x (h_UPage p) (h_UsageTab p)
  (h_UsageSize p).
Definition set_h_UPage (p : HIDParser) x := mkParser (h_ReportDesc p) (h_Pos p) (h_Item p)
  (h_Value p) (h_Data p) (h_OffsetTab p) (h_ReportCount p) (h_Count p) x (h_UsageTab p)
  (h_UsageSize p).
Definition set_h_UsageTab (p : HIDParser) x := mkParser (h_ReportDesc p) (h_Pos p) (h_Item p)
  (h_Value p) (h_Data p) (h_OffsetTab p) (h_ReportCount p) (h_Count p) (h_UPage p) x
  (h_UsageSize p).
Definition set_h_UsageSize (p : HIDParser) x := mkParser (h_ReportDesc p) (h_Pos p) (h_Item p)
  (h_Value p) (h_Data p) (h_OffsetTab p) (h_ReportCount p) (h_Count p) (h_UPage p) (h_UsageTab
  p) x.

(** ** Small functions *)

(** while (x > 0xff): a 64-bit [x] needs at most 7 rounds. *)
Fixpoint hibit_bytes (fuel : nat) (x res : Z) : Z * Z :=
  match fuel with
  | O => (x, res)
  | S fuel => if 0xff <? x then hibit_bytes fuel (Z.shiftr x 8) (res + 8) else (x, res)
  end.

(** while (x): at most 8 rounds for what is left. *)
Fixpoint hibit_bits (fuel : nat) (x res : Z) : Z :=
  match fuel with
  | O => res
  | S fuel => if x =? 0 then res else hibit_bits fuel (Z.shiftr x 1) (res + 1)
  end.

Definition hibit (x : Z) : Z := let '(x, res) := hibit_bytes 8 x 0 in hibit_bits 8 x res.

Definition ResetLocalState (p : HIDParser) : HIDParser :=
  set_h_UsageTab (set_h_UsageSize p 0%nat) (replicate (length (h_UsageTab p)) 0).

(** The index of the entry found, after the table was updated; [None] is [NULL]. *)
Fixpoint offset_search (tab : list (Z * Z * Z)) (id type : Z) : option nat * list (Z * Z * Z) :=
  match tab with
  | [] => (None, [])
  | (i, t, o) :: tab' =>
      let '(i, t, o) := if i =? 0 then (id, type, 0) else (i, t, o) in
      if negb (i =? id) || negb (t =? type)
      then let '(r, tab') := offset_search tab' id type in (S <$> r, (i, t, o) :: tab')
      else (Some 0%nat, (i, t, o) :: tab')
  end.

Definition GetReportOffset (p : HIDParser) (ReportID ReportType : Z) : option nat * HIDParser :=
  let '(r, tab) := offset_search (h_OffsetTab p) ReportID ReportType in (r, set_h_OffsetTab p tab).

Definition FormatValue (Value Size : Z) : Z :=
  if Size =? 1 then wrapS 8 Value
  else if Size =? 2 then wrapS 16 Value
  else if Size =? 4 then wrapS 32 Value
  else Value.

(** ** The parser *)

(** The value of [n] little-endian bytes at [pos]; [None] outside the descriptor. *)
Fixpoint item_value (desc : list Z) (pos : Z) (n : nat) (i v : Z) : option Z :=
  match n with
  | O => Some v
  | S n =>
      b ← desc !! Z.to_nat (pos + i);
      item_value desc pos n (i + 1) (wrap32 (v + wrap32 (Z.shiftl b (8 * i))))
  end.

(** One round of the loop: go on, return, or undefined behaviour. *)
Inductive step :=
| Continue (p : HIDParser)
| Return (ret : Z) (p : HIDParser) (pData : option HIDData)
| UB.

(** Get a new item if [Count] is 0; [inl] when the descriptor is truncated. *)
Definition hid_fetch (p : HIDParser) : option (HIDParser + HIDParser) :=
  if negb (h_Count p =? 0) then Some (inr p)
  else
    item ← h_ReportDesc p !! Z.to_nat (h_Pos p);
    let p := set_h_Value (set_h_Item (set_h_Pos p (wrap16 (h_Pos p + 1))) item) 0 in
    size ← ItemSize !! Z.to_nat (Z.land item SIZE_MASK);
    if size >? wrap64 (Z.of_nat (length (h_ReportDesc p)) - h_Pos p) then Some (inl p)
    else
      v ← item_value (h_ReportDesc p) (h_Pos p) (Z.to_nat size) 0 0;
      Some (inr (set_h_Pos (set_h_Value p v) (wrap16 (h_Pos p + size)))).

(** [Path.Node[Path.Size] = node; Path.Size++] *)
Definition push_node (p : HIDParser) (node : Z) : option HIDParser :=
  let d := h_Data p in
  if (Z.to_nat (d_path_size d) <? length (d_path d))%nat
  then Some (set_h_Data p (set_d_path_size (set_d_path d (<[Z.to_nat (d_path_size d) := node]> (d_path d)))
              (wrap8 (d_path_size d + 1))))
  else None.

(** Unstack UPage/Usage from UsageTab: the loop over [j < UsageSize]. *)
Definition unstack_usage (p : HIDParser) : option HIDParser :=
  if (0 <? h_UsageSize p)%nat then
    if (length (h_UsageTab p) <? h_UsageSize p)%nat then None
    else
      let shifted := imap (fun j u =>
        if (j <? h_UsageSize p)%nat
        then if (j + 1 <? length (h_UsageTab p))%nat then default 0 (h_UsageTab p !! S j) else 0
        else u) (h_UsageTab p) in
      Some (set_h_UsageSize (set_h_UsageTab p shifted) (h_UsageSize p - 1)%nat)
  else Some p.

Definition of_opt (o : option step) : step := match o with Some s => s | None => UB end.

(** case ITEM_USAGE *)
Definition item_usage (p : HIDParser) : step :=
  if (length (h_UsageTab p) <=? h_UsageSize p)%nat then Return (-1) p None
  else
    let u := if Z.land (h_Item p) SIZE_MASK >? 2 then h_Value p
             else Z.lor (wrap32 (Z.shiftl (h_UPage p) 16)) (Z.land (h_Value p) 0xFFFF) in
    Continue (set_h_UsageSize (set_h_UsageTab p (<[h_UsageSize p := u]> (h_UsageTab p)))
                (S (h_UsageSize p))).

(** case ITEM_COLLECTION *)
Definition item_collection (p : HIDParser) : step :=
  if d_path_size (h_Data p) >=? PATH_SIZE then Return (-1) p None
  else of_opt (
    u ← h_UsageTab p !! 0%nat;
    p ← push_node p u;
    p ← unstack_usage p;
    if h_Value p >=? 0x80 then
      if d_path_size (h_Data p) >=? PATH_SIZE then Some (Return (-1) p None)
      else
        p ← push_node p (Z.lor 0x00ff0000 (Z.land (h_Value p) 0x7F));
        Some (Continue (ResetLocalState p))
    else Some (Continue (ResetLocalState p))).

(** case ITEM_END_COLLECTION *)
Definition item_end_collection (p : HIDParser) : step :=
  let size := d_path_size (h_Data p) in
  if size =? 0 then Return (-1) p None
  else
    let size := wrap8 (size - 1) in
    let p := set_h_Data p (set_d_path_size (h_Data p) size) in
    of_opt (
      drop_index ← (if size >? 0 then
          node ← d_path (h_Data p) !! Z.to_nat size;
          Some (Z.land node 0xffff0000 =? 0x00ff0000)
        else Some false);
      let p := if (drop_index : bool)
               then set_h_Data p (set_d_path_size (h_Data p) (wrap8 (size - 1))) else p in
      Some (Continue (ResetLocalState p))).

(** [*GetReportOffset(...)] read *)
Definition read_offset (p : HIDParser) (type : Z) : option (Z * HIDParser) :=
  let '(r, p) := GetReportOffset p (d_ReportID (h_Data p)) type in
  i ← r;
  e ← h_OffsetTab p !! i;
  Some (e.2, p).

(** [*GetReportOffset(...) += Data.Size] *)
Definition advance_offset (p : HIDParser) (type : Z) : option HIDParser :=
  let '(r, p) := GetReportOffset p (d_ReportID (h_Data p)) type in
  i ← r;
  Some (set_h_OffsetTab p
    (alter (fun e : Z * Z * Z => (e.1.1, e.1.2, wrap8 (e.2 + d_Size (h_Data p)))) i (h_OffsetTab p))).

(** case ITEM_FEATURE, ITEM_INPUT, ITEM_OUTPUT *)
Definition item_main (p : HIDParser) : step :=
  of_opt (
    u ← h_UsageTab p !! 0%nat;
    let found := if negb (u =? 0) then 1 else 0 in
    let p := if h_Count p =? 0 then set_h_Count p (h_ReportCount p) else p in
    if d_path_size (h_Data p) >=? PATH_SIZE then Some (Return (-1) p None)
    else
      p ← push_node p u;
      p ← unstack_usage p;
      let type := Z.land (h_Item p) ITEM_MASK in
      let p := set_h_Data p (set_d_Attribute (set_d_Type (h_Data p) type) (wrap8 (h_Value p))) in
      '(off, p) ← read_offset p type;
      let p := set_h_Data p (set_d_Offset (h_Data p) off) in
      let pData := h_Data p in
      p ← advance_offset p type;
      let p := set_h_Data p (set_d_path_size (h_Data p) (wrap8 (d_path_size (h_Data p) - 1))) in
      let p := set_h_Count p (wrap8 (h_Count p - 1)) in
      let p := if h_Count p =? 0 then ResetLocalState p else p in
      Some (Return found p (Some pData))).

Definition upd_data (p : HIDParser) (f : HIDData -> HIDData) : HIDParser := set_h_Data p (f (h_Data p)).

(** The remaining cases of the switch only store the value. *)
Definition item_store (p : HIDParser) (item : Z) : HIDParser :=
  let v := h_Value p in
  let formatted := FormatValue v (default 0 (ItemSize !! Z.to_nat (Z.land (h_Item p) SIZE_MASK))) in
  if item =? ITEM_UPAGE then set_h_UPage p (wrap16 v)
  else if item =? ITEM_REP_ID then upd_data p (fun d => set_d_ReportID d (wrap8 v))
  else if item =? ITEM_REP_SIZE then upd_data p (fun d => set_d_Size d (wrap8 v))
  else if item =? ITEM_REP_COUNT then set_h_ReportCount p (wrap8 v)
  else if item =? ITEM_UNIT_EXP then
    upd_data p (fun d => set_d_UnitExp d
      (let e := wrapS 8 v in if e >? 7 then wrapS 8 (Z.lor e 0xF0) else e))
  else if item =? ITEM_UNIT then upd_data p (fun d => set_d_Unit d v)
  else if item =? ITEM_LOG_MIN then upd_data p (fun d => set_d_LogMin d formatted)
  else if item =? ITEM_LOG_MAX then
    upd_data p (fun d =>
      if formatted <? d_LogMin d then set_d_LogMax (set_d_assumed_LogMax d true) v
      else set_d_LogMax d formatted)
  else if item =? ITEM_PHY_MIN then upd_data p (fun d => set_d_have_PhyMin (set_d_PhyMin d formatted) 1)
  else if item =? ITEM_PHY_MAX then upd_data p (fun d => set_d_have_PhyMax (set_d_PhyMax d formatted) 1)
  else if item =? ITEM_LONG then set_h_Pos p (wrap16 (h_Pos p + Z.land v 0xff))
  else p.

(** The switch. *)
Definition hid_item (p : HIDParser) : step :=
  let item := Z.land (h_Item p) ITEM_MASK in
  if item =? ITEM_USAGE then item_usage p
  else if item =? ITEM_COLLECTION then item_collection p
  else if item =? ITEM_END_COLLECTION then item_end_collection p
  else if (item =? ITEM_FEATURE) || (item =? ITEM_INPUT) || (item =? ITEM_OUTPUT) then item_main p
  else Continue (item_store p item).

Definition hid_round (p : HIDParser) : step :=
  match hid_fetch p with
  | None => UB
  | Some (inl p) => Return (-1) p None
  | Some (inr p) => hid_item p
  end.

(** The result of a function: a value, undefined behaviour, or no fuel left. *)
Inductive result (A : Type) := Ok (a : A) | Crash | NoFuel.
Arguments Ok {A} _.
Arguments Crash {A}.
Arguments NoFuel {A}.

Fixpoint HIDParse_loop (fuel : nat) (p : HIDParser) : result (Z * HIDParser * option HIDData) :=
  match fuel with
  | O => NoFuel
  | S fuel =>
      if h_Pos p <? Z.of_nat (length (h_ReportDesc p)) then
        match hid_round p with
        | Continue p => HIDParse_loop fuel p
        | Return ret p d => Ok (ret, p, d)
        | UB => Crash
        end
      else Ok (-1, p, None)
  end.

(** Every round that goes on reads at least one byte of the descriptor. *)
Definition HIDParse (p : HIDParser) : result (Z * HIDParser * option HIDData) :=
  HIDParse_loop (length (h_ReportDesc p) + 1) p.

(** ** Lookup *)

Record HIDDesc := mkHIDDesc { nitems : nat; item : list HIDData; replen : list Z }.

(** [memcmp] of the first [size] nodes *)
Definition same_path (a b : list Z) (size : Z) : bool :=
  bool_decide (take (Z.to_nat size) a = take (Z.to_nat size) b).

Definition FindObject_with_Path (items : list HIDData) (path : list Z) (size type : Z) : option HIDData :=
  find (fun d => (d_Type d =? type) && same_path (d_path d) path size) items.

Definition FindObject (items : list HIDData) (d : HIDData) : option HIDData :=
  FindObject_with_Path items (d_path d) (d_path_size d) (d_Type d).

Definition FindObject_with_ID (items : list HIDData) (id offset type : Z) : option HIDData :=
  find (fun d => (d_ReportID d =? id) && (d_Type d =? type) && (d_Offset d =? offset)) items.

Definition FindObject_with_ID_Node (items : list HIDData) (id node : Z) : option HIDData :=
  find (fun d => (d_ReportID d =? id)
    && negb (d_path_size d =? 0)
    && bool_decide (d_path d !! Z.to_nat (d_path_size d - 1) = Some node)) items.

(** ** Fields of a report *)

(** The loop of [GetValue]: [None] outside the buffer. *)
Fixpoint get_bits (buf : list Z) (bit : Z) (n : nat) (weight value : Z) : option Z :=
  match n with
  | O => Some value
  | S n =>
      b ← buf !! Z.to_nat (Z.shiftr bit 3);
      let state := Z.land b (Z.shiftl 1 (Z.land bit 7)) in
      let value := if negb (state =? 0) then wrapS 64 (value + wrapS 64 (Z.shiftl 1 weight)) else value in
      get_bits buf (bit + 1) n (weight + 1) value
  end.

Definition GetValue (buf : list Z) (d : HIDData) : option Z :=
  value ← get_bits buf (d_Offset d + 8) (Z.to_nat (d_Size d)) 0 0;
  let mag z := if z >=? 0 then z else - (z + 1) in
  let magMax := mag (d_LogMax d) in
  let magMin := mag (d_LogMin d) in
  let signbit := wrap64 (Z.shiftl 1 (hibit (if magMax >? magMin then magMax else magMin))) in
  let mask := Z.lor (wrap64 (signbit - 1)) (if d_LogMin d <? 0 then signbit else 0) in
  let value := wrapS 64 (Z.land (wrap64 value) mask) in
  let value := if (d_LogMin d <? 0) && negb (Z.land (wrap64 value) signbit =? 0)
               then wrapS 64 (Z.lor (wrap64 value) (wrap64 (Z.lnot mask))) else value in
  Some (if value <? d_LogMin d then d_LogMin d
        else if value >? d_LogMax d then d_LogMax d else value).

Fixpoint set_bits (buf : list Z) (bit : Z) (n : nat) (weight value : Z) : option (list Z) :=
  match n with
  | O => Some buf
  | S n =>
      b ← buf !! Z.to_nat (Z.shiftr bit 3);
      let state := Z.land value (wrapS 64 (Z.shiftl 1 weight)) in
      let m := Z.shiftl 1 (Z.land bit 7) in
      let b := if negb (state =? 0) then wrap8 (Z.lor b m) else wrap8 (Z.land b (Z.lnot m)) in
      set_bits (<[Z.to_nat (Z.shiftr bit 3) := b]> buf) (bit + 1) n (weight + 1) value
  end.

Definition SetValue (d : HIDData) (buf : list Z) (value : Z) : option (list Z) :=
  set_bits buf (d_Offset d + 8) (Z.to_nat (d_Size d)) 0 value.

(** ** Whole descriptors *)

Definition data0 : HIDData := mkData 0 (replicate 10 0) 0 0 0 0 0 0 0 0 0 false 0 0 0 0.

Definition parser0 (desc : list Z) : HIDParser :=
  mkParser desc 0 0 0 data0 (replicate MAX_REPORT (0, 0, 0)) 0 0 0
    (replicate (Nat.max (length desc) USAGE_TAB_SIZE) 0) 0.

(** [item[nitems] = d]; the entries from [nitems] on are overwritten later or dropped. *)
Definition put_item (items : list HIDData) (nitems : nat) (d : HIDData) : list HIDData :=
  take nitems items ++ [d].

Definition put_replen (replen : list Z) (d : HIDData) : list Z :=
  let max := Z.shiftr (d_Offset d + d_Size d + 7) 3 in
  alter (fun l => if max >? l then max else l) (Z.to_nat (d_ReportID d)) replen.

Fixpoint parse_loop (fuel : nat) (p : HIDParser) (nitems : nat) (items : list HIDData) (replen : list Z)
    : result (nat * list HIDData * list Z) :=
  match fuel with
  | O => NoFuel
  | S fuel =>
      if (nitems <? MAX_REPORT)%nat then
        match HIDParse p with
        | Crash => Crash
        | NoFuel => NoFuel
        | Ok (ret, p, d) =>
            if ret <? 0 then Ok (nitems, items, replen)
            else match d with
            | None => Crash
            | Some d =>
                parse_loop fuel p (nitems + Z.to_nat ret) (put_item items nitems d) (put_replen replen d)
            end
        end
      else Ok (nitems, items, replen)
  end.

(** Every object uses up a byte or one of at most 256 repetitions of a main item.  [None] is [NULL]. *)
Definition Parse_ReportDesc (desc : list Z) : result (option HIDDesc) :=
  match parse_loop (256 * length desc + 257) (parser0 desc) 0 [] (replicate 256 0) with
  | Crash => Crash
  | NoFuel => NoFuel
  | Ok (n, items, replen) =>
      Ok (if (n =? 0)%nat then None else Some (mkHIDDesc n (take n items) replen))
  end.

(** UPS / PresentStatus / ACPresent and Discharging: two one-bit fields of report 7. *)
Example parse_ex :
  let desc := [0x05; 0x84; 0x09; 0x04; 0xA1; 0x01; 0x85; 0x07; 0x09; 0x02; 0xA1; 0x00; 0x05; 0x85;
               0x09; 0xD0; 0x09; 0x45; 0x15; 0x00; 0x25; 0x01; 0x75; 0x01; 0x95; 0x02; 0x81; 0x23;
               0xC0; 0xC0] in
  match Parse_ReportDesc desc with
  | Ok (Some h) => (nitems h, map (fun d => (d_ReportID d, d_Offset d, d_Size d, d_path_size d)) (item h),
                    replen h !! 7%nat)
  | _ => (0%nat, [], None)
  end = (2%nat, [(7, 0, 1, 3); (7, 1, 1, 3)], Some 1).
Proof. vm_compute. reflexivity. Qed.
