(* ===== verification/HidFacts.v ===== *)
(** * Report fields and the safety of the descriptor parser

    The bits of a report that [GetValue] and [SetValue] touch, their round trip, and the
    invariant under which the parser of report descriptors stays within its arrays and
    returns. *)

From S2P Require Import Prelude HidParser.
From stdpp Require Import options.

(** ** The bits of a buffer *)

Definition is_bytes (buf : list Z) : Prop := Forall (fun b => 0 <= b < 256) buf.

(** Bit [k] of the buffer, the low bits of each byte first. *)
Definition fbit (buf : list Z) (k : Z) : bool :=
  Z.testbit (default 0 (buf !! Z.to_nat (Z.shiftr k 3))) (Z.land k 7).

Lemma shiftr3 k : Z.shiftr k 3 = k / 8.
Proof. by rewrite Z.shiftr_div_pow2 by lia. Qed.

Lemma land7 k : Z.land k 7 = k mod 8.
Proof. change 7 with (Z.ones 3). by rewrite Z.land_ones by lia. Qed.

(** The test [x & (1 << m)] of the code is a bit test. *)
Lemma land_pow2_test x m : 0 <= m -> negb (Z.land x (Z.shiftl 1 m) =? 0) = Z.testbit x m.
Proof.
  intros Hm. destruct (Z.testbit x m) eqn:E.
  - apply negb_true_iff, Z.eqb_neq. intros H0.
    assert (Z.testbit (Z.land x (Z.shiftl 1 m)) m = true) as H1.
    { rewrite Z.land_spec, E, Z.shiftl_spec by lia. by rewrite Z.sub_diag. }
    rewrite H0 in H1. by rewrite Z.bits_0 in H1.
  - apply negb_false_iff, Z.eqb_eq. apply Z.bits_inj'. intros k Hk.
    rewrite Z.land_spec, Z.bits_0, Z.shiftl_1_l, Z.pow2_bits_eqb by lia.
    destruct (Z.eqb_spec m k) as [->|]; [by rewrite E|by rewrite andb_false_r].
Qed.

Lemma byte_testbit_high b m : 0 <= b < 256 -> 8 <= m -> Z.testbit b m = false.
Proof.
  intros Hb Hm. rewrite <- (Z.mod_small b (2 ^ 8)) by lia.
  apply Z.mod_pow2_bits_high. lia.
Qed.

Lemma wrap8_testbit b m : 0 <= m < 8 -> Z.testbit (wrap8 b) m = Z.testbit b m.
Proof. intros. apply Z.mod_pow2_bits_low. lia. Qed.

Lemma bit_address k j : 0 <= k -> 0 <= j -> k <> j ->
  Z.to_nat (Z.shiftr k 3) = Z.to_nat (Z.shiftr j 3) -> Z.land k 7 <> Z.land j 7.
Proof. rewrite !shiftr3, !land7. intros Hk Hj Hn He. Z.to_euclidean_division_equations. lia. Qed.

(** A number given by its low bits. *)
Lemma mod_pow2_bits x n : 0 <= n -> forall k, 0 <= k ->
  Z.testbit (x mod 2 ^ n) k = (k <? n) && Z.testbit x k.
Proof.
  intros Hn k Hk. destruct (Z.ltb_spec k n).
  - by rewrite Z.mod_pow2_bits_low.
  - by rewrite Z.mod_pow2_bits_high by lia.
Qed.

Lemma mod_pow2_succ x n : 0 <= n ->
  x mod 2 ^ (n + 1) = x mod 2 ^ n + (if Z.testbit x n then 2 ^ n else 0).
Proof.
  intros Hn.
  assert (0 < 2 ^ n) by (apply Z.pow_pos_nonneg; lia).
  rewrite Z.pow_add_r, Z.pow_1_r by lia.
  rewrite Z.rem_mul_r by lia.
  rewrite <- Z.shiftr_div_pow2 by lia.
  assert (Z.shiftr x n mod 2 = Z.b2z (Z.testbit x n)) as ->.
  { rewrite <- Z.bit0_mod. by rewrite Z.shiftr_spec, Z.add_0_l by lia. }
  destruct (Z.testbit x n); simpl; lia.
Qed.

(** ** [hibit] is the length in bits *)

Definition bit_length (x : Z) : Z := if x =? 0 then 0 else Z.log2 x + 1.

Lemma bit_length_shift x k : 0 <= k -> 2 ^ k <= x -> bit_length (Z.shiftr x k) + k = bit_length x.
Proof.
  intros Hk Hx. assert (0 < 2 ^ k) by (apply Z.pow_pos_nonneg; lia).
  assert (k <= Z.log2 x) as Hl by (apply Z.log2_le_pow2; lia).
  assert (0 < Z.shiftr x k) as Hs.
  { rewrite Z.shiftr_div_pow2 by lia. apply Z.div_str_pos. lia. }
  unfold bit_length. rewrite (proj2 (Z.eqb_neq x 0)) by lia.
  rewrite (proj2 (Z.eqb_neq (Z.shiftr x k) 0)) by lia.
  rewrite Z.log2_shiftr by lia. lia.
Qed.

Lemma hibit_bits_spec fuel : forall x res, 0 <= x < 2 ^ Z.of_nat fuel ->
  hibit_bits fuel x res = res + bit_length x.
Proof.
  induction fuel as [|fuel IH]; intros x res Hx.
  - assert (x = 0) as -> by (simpl in Hx; lia). unfold bit_length. simpl. lia.
  - simpl. destruct (Z.eqb_spec x 0) as [->|Hne]; [unfold bit_length; simpl; lia|].
    rewrite IH.
    + destruct (decide (x = 1)) as [->|]; [unfold bit_length; simpl; lia|].
      rewrite <- (bit_length_shift x 1) by lia. lia.
    + rewrite Z.shiftr_div_pow2 by lia. split; [apply Z.div_pos; lia|].
      apply Z.div_lt_upper_bound; [lia|].
      rewrite Nat2Z.inj_succ, Z.pow_succ_r in Hx by lia. lia.
Qed.

Lemma hibit_bytes_spec fuel : forall x res, 0 <= x < 2 ^ (8 * Z.of_nat fuel) -> (0 < fuel)%nat ->
  let '(y, r) := hibit_bytes fuel x res in
  0 <= y < 256 /\ r + bit_length y = res + bit_length x.
Proof.
  induction fuel as [|fuel IH]; intros x res Hx Hf; [lia|].
  simpl. destruct (Z.ltb_spec 0xff x); [|split; [lia|done]].
  destruct fuel as [|fuel]; [simpl in Hx; lia|].
  specialize (IH (Z.shiftr x 8) (res + 8)).
  destruct (hibit_bytes (S fuel) (Z.shiftr x 8) (res + 8)) as [y r].
  destruct IH as [IH1 IH2].
  - rewrite Z.shiftr_div_pow2 by lia. split; [apply Z.div_pos; lia|].
    apply Z.div_lt_upper_bound; [lia|]. rewrite <- Z.pow_add_r by lia.
    eapply Z.lt_le_trans; [apply Hx|]. apply Z.pow_le_mono_r; lia.
  - lia.
  - split; [done|]. rewrite IH2, <- (bit_length_shift x 8) by lia. lia.
Qed.

Lemma hibit_spec x : 0 <= x < 2 ^ 64 -> hibit x = bit_length x.
Proof.
  intros Hx. unfold hibit. pose proof (hibit_bytes_spec 8 x 0 Hx ltac:(lia)) as H.
  destruct (hibit_bytes 8 x 0) as [y r]. destruct H as [Hy He].
  rewrite hibit_bits_spec by (simpl; lia). lia.
Qed.

Lemma bit_length_bounds x n : 0 <= x < 2 ^ n -> 0 <= n -> 0 <= bit_length x <= n.
Proof.
  intros Hx Hn. unfold bit_length. destruct (Z.eqb_spec x 0); [lia|].
  pose proof (Z.log2_nonneg x). pose proof (Z.log2_lt_pow2 x n ltac:(lia)). lia.
Qed.

Lemma lt_bit_length x : 0 <= x -> x < 2 ^ bit_length x.
Proof.
  intros Hx. unfold bit_length. destruct (Z.eqb_spec x 0); [subst; simpl; lia|].
  apply Z.log2_spec. lia.
Qed.

(** ** Reading a field *)

(** The number in the [n] bits from [bit] on. *)
Fixpoint field (buf : list Z) (bit : Z) (n : nat) : Z :=
  match n with
  | O => 0
  | S n => Z.b2z (fbit buf bit) + 2 * field buf (bit + 1) n
  end.

Lemma field_bounds buf n : forall bit, 0 <= field buf bit n < 2 ^ Z.of_nat n.
Proof.
  induction n as [|n IH]; intros bit; simpl field; [simpl; lia|].
  specialize (IH (bit + 1)). rewrite Nat2Z.inj_succ, Z.pow_succ_r by lia.
  destruct (fbit buf bit); simpl Z.b2z; lia.
Qed.

Lemma field_ext buf buf' n : forall bit,
  (forall k, bit <= k < bit + Z.of_nat n -> fbit buf k = fbit buf' k) ->
  field buf bit n = field buf' bit n.
Proof.
  induction n as [|n IH]; intros bit H; simpl; [done|].
  rewrite (H bit) by lia. by rewrite (IH (bit + 1)) by (intros; apply H; lia).
Qed.

Lemma field_of_bits buf n : forall bit v,
  (forall i, 0 <= i < Z.of_nat n -> fbit buf (bit + i) = Z.testbit v i) ->
  field buf bit n = v mod 2 ^ Z.of_nat n.
Proof.
  induction n as [|n IH]; intros bit v H; simpl field.
  - by rewrite Z.mod_1_r.
  - rewrite Nat2Z.inj_succ, Z.pow_succ_r by lia.
    rewrite Z.rem_mul_r by (try apply Z.pow_pos_nonneg; lia).
    rewrite <- Z.bit0_mod. f_equal.
    + rewrite <- (H 0) by lia. by rewrite Z.add_0_r.
    + f_equal. apply IH. intros i Hi. replace (bit + 1 + i) with (bit + Z.succ i) by lia.
      rewrite H by lia. rewrite <- Z.div2_div. by rewrite Z.div2_spec, Z.shiftr_spec, Z.add_1_r by lia.
Qed.

Lemma byte_lookup (buf : list Z) bit : 0 <= bit < 8 * Z.of_nat (length buf) ->
  exists b, buf !! Z.to_nat (Z.shiftr bit 3) = Some b.
Proof.
  intros H. apply lookup_lt_is_Some_2. rewrite shiftr3.
  Z.to_euclidean_division_equations. lia.
Qed.

Lemma land7_range k : 0 <= Z.land k 7 < 8.
Proof. rewrite land7. apply Z.mod_pos_bound. lia. Qed.

Lemma shiftl1_small w : 0 <= w < 63 -> wrapS 64 (Z.shiftl 1 w) = 2 ^ w.
Proof.
  intros Hw. rewrite Z.shiftl_1_l. apply wrapS_small; [lia|].
  pose proof (Z.pow_pos_nonneg 2 w). pose proof (Z.pow_lt_mono_r 2 w 63). lia.
Qed.

Lemma get_bits_field n : forall buf bit w V,
  0 <= bit -> bit + Z.of_nat n <= 8 * Z.of_nat (length buf) -> 0 <= w -> w + Z.of_nat n <= 63 ->
  0 <= V < 2 ^ w ->
  get_bits buf bit n w V = Some (V + 2 ^ w * field buf bit n).
Proof.
  induction n as [|n IH]; intros buf bit w V Hb Hl Hw Hn HV; simpl.
  - f_equal. lia.
  - destruct (byte_lookup buf bit) as [b Eb]; [lia|]. rewrite Eb. simpl.
    rewrite land_pow2_test by apply land7_range.
    assert (fbit buf bit = Z.testbit b (Z.land bit 7)) as Ef by (unfold fbit; by rewrite Eb).
    rewrite <- Ef, shiftl1_small by lia.
    assert (2 ^ (w + 1) = 2 * 2 ^ w) as E2 by (rewrite Z.add_1_r, Z.pow_succ_r; lia).
    assert (2 ^ (w + 1) <= 2 ^ 63) by (apply Z.pow_le_mono_r; lia).
    destruct (fbit buf bit).
    + rewrite (wrapS_small 64 (V + 2 ^ w)) by lia.
      rewrite IH by lia. f_equal. rewrite E2. simpl. lia.
    + rewrite IH by lia. f_equal. rewrite E2. simpl. lia.
Qed.

(** ** Writing a field *)

Lemma fbit_insert buf k b j : is_bytes buf -> 0 <= k < 8 * Z.of_nat (length buf) -> 0 <= j ->
  fbit (<[Z.to_nat (Z.shiftr k 3) := b]> buf) j
  = if decide (Z.to_nat (Z.shiftr j 3) = Z.to_nat (Z.shiftr k 3))
    then Z.testbit b (Z.land j 7) else fbit buf j.
Proof.
  intros Hb Hk Hj. unfold fbit. destruct (decide _) as [->|Hne].
  - destruct (byte_lookup buf k Hk) as [b0 E0]. rewrite list_lookup_insert_eq; [done|].
    by apply lookup_lt_Some in E0.
  - by rewrite list_lookup_insert_ne.
Qed.

(** One bit of the byte is written, the other seven are kept. *)
Definition write_bit (st : bool) (b m : Z) : Z :=
  if st then wrap8 (Z.lor b (Z.shiftl 1 m)) else wrap8 (Z.land b (Z.lnot (Z.shiftl 1 m))).

Lemma write_bit_spec st b m j : 0 <= m < 8 -> 0 <= j < 8 ->
  Z.testbit (write_bit st b m) j = if decide (j = m) then st else Z.testbit b j.
Proof.
  intros Hm Hj. unfold write_bit.
  destruct st; rewrite wrap8_testbit by done;
    rewrite ?Z.lor_spec, ?Z.land_spec, ?Z.lnot_spec, Z.shiftl_1_l, Z.pow2_bits_eqb by lia;
    destruct (Z.eqb_spec m j) as [->|]; destruct (decide _); try lia;
    by rewrite ?orb_true_r, ?orb_false_r, ?andb_false_r, ?andb_true_r.
Qed.

Lemma write_bit_byte st b m : 0 <= write_bit st b m < 256.
Proof. unfold write_bit. destruct st; by apply (wrapU_range 8). Qed.

Lemma fbit_write buf k st b j : is_bytes buf -> 0 <= k < 8 * Z.of_nat (length buf) -> 0 <= j ->
  buf !! Z.to_nat (Z.shiftr k 3) = Some b ->
  fbit (<[Z.to_nat (Z.shiftr k 3) := write_bit st b (Z.land k 7)]> buf) j
  = if decide (j = k) then st else fbit buf j.
Proof.
  intros Hb Hk Hj Eb. rewrite fbit_insert by done.
  pose proof (land7_range k). pose proof (land7_range j).
  destruct (decide (Z.to_nat (Z.shiftr j 3) = _)) as [E|E].
  - rewrite write_bit_spec by done. destruct (decide (j = k)) as [->|Hne].
    + by rewrite decide_True.
    + rewrite decide_False by (apply bit_address; lia). unfold fbit. by rewrite E, Eb.
  - destruct (decide (j = k)) as [->|]; done.
Qed.

Lemma set_bits_spec n : forall buf bit w v,
  is_bytes buf -> 0 <= bit -> bit + Z.of_nat n <= 8 * Z.of_nat (length buf) ->
  0 <= w -> w + Z.of_nat n <= 63 ->
  exists buf', set_bits buf bit n w v = Some buf' /\ length buf' = length buf /\ is_bytes buf' /\
    forall k, 0 <= k -> fbit buf' k =
      if decide (bit <= k < bit + Z.of_nat n) then Z.testbit v (w + (k - bit)) else fbit buf k.
Proof.
  induction n as [|n IH]; intros buf bit w v Hby Hb Hl Hw Hn; simpl.
  - exists buf. split_and!; [done..|]. intros k Hk. by rewrite decide_False by lia.
  - destruct (byte_lookup buf bit) as [b Eb]; [lia|]. rewrite Eb. simpl.
    rewrite shiftl1_small, <- Z.shiftl_1_l, land_pow2_test by lia.
    fold (write_bit (Z.testbit v w) b (Z.land bit 7)).
    set (buf1 := <[_ := _]> buf).
    assert (length buf1 = length buf) as El by apply length_insert.
    destruct (IH buf1 (bit + 1) (w + 1) v) as (buf' & E & Hlen & Hby' & Hf); rewrite ?El; try lia.
    { apply Forall_insert; [done|]. apply write_bit_byte. }
    exists buf'. rewrite E, Hlen, El. split_and!; [done..|]. intros k Hk.
    rewrite Hf by done. unfold buf1. rewrite fbit_write by (done || lia).
    destruct (decide (k = bit)) as [->|].
    + rewrite decide_False, decide_True by lia. f_equal. lia.
    + repeat destruct (decide _); try lia; [f_equal; lia|done].
Qed.

(** ** The value of a field *)

(** What [GetValue] makes of the raw number it has read. *)
Definition decode (d : HIDData) (raw : Z) : Z :=
  let mag z := if z >=? 0 then z else - (z + 1) in
  let magMax := mag (d_LogMax d) in
  let magMin := mag (d_LogMin d) in
  let signbit := wrap64 (Z.shiftl 1 (hibit (if magMax >? magMin then magMax else magMin))) in
  let mask := Z.lor (wrap64 (signbit - 1)) (if d_LogMin d <? 0 then signbit else 0) in
  let value := wrapS 64 (Z.land (wrap64 raw) mask) in
  let value := if (d_LogMin d <? 0) && negb (Z.land (wrap64 value) signbit =? 0)
               then wrapS 64 (Z.lor (wrap64 value) (wrap64 (Z.lnot mask))) else value in
  if value <? d_LogMin d then d_LogMin d
  else if value >? d_LogMax d then d_LogMax d else value.

(** The field lies inside the report and is narrower than a [long]. *)
Definition field_inside (d : HIDData) (len : nat) : Prop :=
  0 <= d_Offset d /\ 0 <= d_Size d <= 63 /\ d_Offset d + 8 + d_Size d <= 8 * Z.of_nat len.

(** The logical range can be written in the bits of the field. *)
Definition range_fits (d : HIDData) : Prop :=
  if d_LogMin d <? 0
  then - 2 ^ (d_Size d - 1) <= d_LogMin d /\ d_LogMax d < 2 ^ (d_Size d - 1)
  else d_LogMax d < 2 ^ d_Size d.

Lemma GetValue_decode buf d : field_inside d (length buf) ->
  GetValue buf d = Some (decode d (field buf (d_Offset d + 8) (Z.to_nat (d_Size d)))).
Proof.
  intros (Ho & Hs & Hl). unfold GetValue.
  rewrite get_bits_field by (simpl; lia). by rewrite Z.pow_0_r, Z.mul_1_l.
Qed.

Lemma wrapS_wrapU w z : 0 < w -> wrapS w (wrapU w z) = wrapS w z.
Proof. intros. unfold wrapS, wrapU. by rewrite Zplus_mod_idemp_l. Qed.

Lemma ones_lor_bit k : 0 <= k -> Z.lor (2 ^ k - 1) (2 ^ k) = Z.ones (k + 1).
Proof.
  intros Hk. replace (2 ^ k - 1) with (Z.ones k) by (rewrite Z.ones_equiv; lia).
  apply Z.bits_inj'. intros j Hj.
  rewrite Z.lor_spec, Z.pow2_bits_eqb, !Z.testbit_ones_nonneg by lia.
  destruct (Z.ltb_spec j k), (Z.ltb_spec j (k + 1)), (Z.eqb_spec k j); simpl; lia || done.
Qed.

(** The bits of a number in the two's complement range of [k + 1] bits, from bit [k] on. *)
Lemma sign_bits v k j : 0 <= k <= j -> - 2 ^ k <= v < 2 ^ k -> Z.testbit v j = (v <? 0).
Proof.
  intros Hk Hv. destruct (Z.ltb_spec v 0).
  - replace v with (Z.lnot (- v - 1)) by (unfold Z.lnot; lia).
    rewrite Z.lnot_spec by lia. apply negb_true_iff.
    rewrite <- (Z.mod_small (- v - 1) (2 ^ k)) by lia. apply Z.mod_pow2_bits_high. lia.
  - rewrite <- (Z.mod_small v (2 ^ k)) by lia. apply Z.mod_pow2_bits_high. lia.
Qed.

Lemma sign_extend v k : 0 <= k <= 62 -> - 2 ^ k <= v < 0 ->
  wrapS 64 (Z.lor (wrap64 (v mod 2 ^ (k + 1))) (wrap64 (Z.lnot (Z.ones (k + 1))))) = v.
Proof.
  intros Hk Hv. rewrite <- (wrapS_small 64 v) at 2.
  2: lia.
  2: { pose proof (Z.pow_le_mono_r 2 k 62). simpl Z.sub. lia. }
  rewrite <- (wrapS_wrapU 64 v) by lia. f_equal.
  apply Z.bits_inj'. intros j Hj. unfold wrapU.
  rewrite Z.lor_spec, !mod_pow2_bits, Z.lnot_spec, Z.testbit_ones_nonneg by lia.
  destruct (Z.ltb_spec j 64); simpl; [|done].
  destruct (Z.ltb_spec j (k + 1)); simpl; [by rewrite orb_false_r|].
  rewrite (sign_bits v k j) by lia. symmetry. apply Z.ltb_lt. lia.
Qed.

Lemma decode_unsigned d v raw n : 0 <= d_LogMin d <= v -> v <= d_LogMax d ->
  d_LogMax d < 2 ^ n -> 0 <= n <= 63 -> raw = v mod 2 ^ n -> decode d raw = v.
Proof.
  intros Hv Hm Hn Hn63 ->. unfold decode.
  rewrite (proj2 (Z.ltb_ge (d_LogMin d) 0)) by lia. cbv zeta. simpl.
  rewrite !(proj2 (Z.geb_ge _ 0)) by lia.
  set (x := if d_LogMax d >? d_LogMin d then _ else _).
  assert (x = d_LogMax d) as -> by (subst x; csplit; lia).
  assert (2 ^ n <= 2 ^ 63) by (apply Z.pow_le_mono_r; lia).
  rewrite hibit_spec by lia.
  destruct (bit_length_bounds (d_LogMax d) n) as [Hk0 Hkn]; [lia..|].
  pose proof (lt_bit_length (d_LogMax d) ltac:(lia)) as Hlt.
  set (k := bit_length (d_LogMax d)) in *.
  assert (0 < 2 ^ k) by (apply Z.pow_pos_nonneg; lia).
  assert (2 ^ k <= 2 ^ 63) by (apply Z.pow_le_mono_r; lia).
  rewrite Z.shiftl_1_l, (wrapU_small 64 (2 ^ k)), (wrapU_small 64 (2 ^ k - 1)), Z.lor_0_r by lia.
  replace (2 ^ k - 1) with (Z.ones k) by (rewrite Z.ones_equiv; lia).
  rewrite (Z.mod_small v) by lia. rewrite (wrapU_small 64 v) by lia.
  rewrite Z.land_ones, Z.mod_small by lia. rewrite wrapS_small by lia.
  rewrite (proj2 (Z.ltb_ge _ _)) by lia. destruct (v >? d_LogMax d) eqn:E; [|done].
  apply Z.gtb_lt in E. lia.
Qed.

Lemma decode_signed d v raw n : d_LogMin d < 0 -> d_LogMin d <= v <= d_LogMax d ->
  - 2 ^ (n - 1) <= d_LogMin d -> d_LogMax d < 2 ^ (n - 1) -> 1 <= n <= 63 ->
  raw = v mod 2 ^ n -> decode d raw = v.
Proof.
  intros Hneg Hv Hm HM Hn63 ->. unfold decode.
  rewrite (proj2 (Z.ltb_lt (d_LogMin d) 0)) by lia. cbv zeta.
  set (x := if _ >? _ then _ else _).
  assert (0 <= x < 2 ^ (n - 1) /\ d_LogMax d <= x /\ - (x + 1) <= d_LogMin d) as (Hx & HxM & Hxm).
  { subst x. repeat case_match; rewrite ?Z.gtb_lt, ?Z.gtb_ltb, ?Z.ltb_ge, ?Z.geb_leb, ?Z.leb_le, ?Z.leb_gt in *; lia. }
  assert (2 ^ (n - 1) <= 2 ^ 62) by (apply Z.pow_le_mono_r; lia).
  rewrite hibit_spec by lia.
  destruct (bit_length_bounds x (n - 1)) as [Hk0 Hkn]; [lia..|].
  pose proof (lt_bit_length x ltac:(lia)) as Hlt.
  set (k := bit_length x) in *.
  assert (0 < 2 ^ k) by (apply Z.pow_pos_nonneg; lia).
  assert (2 ^ k <= 2 ^ 62) by (apply Z.pow_le_mono_r; lia).
  assert (2 ^ (k + 1) = 2 * 2 ^ k) as E2 by (rewrite Z.pow_add_r; lia).
  assert (0 < 2 ^ n) by (apply Z.pow_pos_nonneg; lia).
  assert (2 ^ n <= 2 ^ 63) by (apply Z.pow_le_mono_r; lia).
  pose proof (Z.mod_pos_bound v (2 ^ n) ltac:(lia)).
  rewrite Z.shiftl_1_l, (wrapU_small 64 (2 ^ k)), (wrapU_small 64 (2 ^ k - 1)) by lia.
  rewrite ones_lor_bit by lia. rewrite (wrapU_small 64 (v mod 2 ^ n)) by lia.
  rewrite Z.land_ones by lia.
  assert ((v mod 2 ^ n) mod 2 ^ (k + 1) = v mod 2 ^ (k + 1)) as ->.
  { apply Z.bits_inj'. intros j Hj. rewrite !mod_pow2_bits by lia.
    destruct (Z.ltb_spec j (k + 1)), (Z.ltb_spec j n); simpl; lia || done. }
  pose proof (Z.mod_pos_bound v (2 ^ (k + 1)) ltac:(lia)).
  rewrite (wrapS_small 64 (v mod 2 ^ (k + 1))) by lia.
  rewrite (wrapU_small 64 (v mod 2 ^ (k + 1))) by lia.
  rewrite <- (Z.shiftl_1_l k), land_pow2_test, Z.mod_pow2_bits_low by lia.
  rewrite (sign_bits v k) by lia.
  assert ((if true && (v <? 0)
           then wrapS 64 (Z.lor (v mod 2 ^ (k + 1)) (wrap64 (Z.lnot (Z.ones (k + 1)))))
           else v mod 2 ^ (k + 1)) = v) as ->.
  { destruct (Z.ltb_spec v 0); simpl.
    - pose proof (sign_extend v k ltac:(lia) ltac:(lia)) as Hs.
      by rewrite (wrapU_small 64 (v mod 2 ^ (k + 1))) in Hs by lia.
    - apply Z.mod_small. lia. }
  rewrite (proj2 (Z.ltb_ge _ _)) by lia. destruct (v >? d_LogMax d) eqn:E; [|done].
  apply Z.gtb_lt in E. lia.
Qed.

Lemma decode_in_range d raw : d_LogMin d <= d_LogMax d -> d_LogMin d <= decode d raw <= d_LogMax d.
Proof.
  intros H. unfold decode. cbv zeta. set (value := if _ && _ then _ else _). clearbody value.
  destruct (Z.ltb_spec value (d_LogMin d)); [lia|].
  destruct (value >? d_LogMax d) eqn:E; [lia|]. rewrite Z.gtb_ltb in E. breflect. lia.
Qed.

(** Writing a value of the logical range into a report and reading the field
    again gives the value, signed or not, whenever the logical range can be written in the bits of the
    field and the field lies inside the report; no other bit of the report changes. *)
Lemma SetValue_GetValue d buf v :
  is_bytes buf -> field_inside d (length buf) -> range_fits d -> d_LogMin d <= v <= d_LogMax d ->
  exists buf', SetValue d buf v = Some buf' /\ GetValue buf' d = Some v /\
    length buf' = length buf /\ is_bytes buf' /\
    forall k, 0 <= k -> ~ (d_Offset d + 8 <= k < d_Offset d + 8 + d_Size d) -> fbit buf' k = fbit buf k.
Proof.
  intros Hby (Ho & Hs & Hl) Hfit Hv. unfold SetValue.
  destruct (set_bits_spec (Z.to_nat (d_Size d)) buf (d_Offset d + 8) 0 v) as (buf' & E & Hlen & Hby' & Hf);
    [done|lia..|].
  exists buf'. rewrite E. split_and!; [done| |done|done|].
  - rewrite GetValue_decode by (unfold field_inside; rewrite Hlen; lia). f_equal.
    set (raw := field _ _ _).
    assert (raw = v mod 2 ^ d_Size d) as Hraw.
    { subst raw. rewrite <- (Z2Nat.id (d_Size d)) at 2 by lia. apply field_of_bits. intros i Hi.
      rewrite Hf, decide_True by lia. f_equal. lia. }
    unfold range_fits in Hfit. destruct (Z.ltb_spec (d_LogMin d) 0).
    + apply (decode_signed d v raw (d_Size d)); try lia.
      destruct (decide (d_Size d = 0)) as [E0|]; [rewrite E0 in Hfit; simpl in Hfit; lia|lia].
    + apply (decode_unsigned d v raw (d_Size d)); lia.
  - intros k Hk Hout. rewrite Hf by done. apply decide_False. lia.
Qed.

(** A signed 12-bit field at bit 3 of the report. *)
Definition field_ex : HIDData :=
  set_d_LogMax (set_d_LogMin (set_d_Size (set_d_Offset data0 3) 12) (-2000)) 2000.

Lemma SetValue_GetValue_ex :
  exists buf', SetValue field_ex [7; 255; 170; 85] (-1234) = Some buf' /\
    GetValue buf' field_ex = Some (-1234) /\
    length buf' = 4%nat /\ is_bytes buf' /\
    forall k, 0 <= k -> ~ (11 <= k < 23) -> fbit buf' k = fbit [7; 255; 170; 85] k.
Proof.
  apply (SetValue_GetValue field_ex [7; 255; 170; 85] (-1234)).
  - unfold is_bytes. repeat constructor; lia.
  - unfold field_inside, field_ex. simpl. lia.
  - unfold range_fits, field_ex. simpl. lia.
  - unfold field_ex. simpl. lia.
Defined.

(** Two fields of a report that share no bit. *)
Definition disjoint_fields (d e : HIDData) : Prop :=
  d_Offset d + d_Size d <= d_Offset e \/ d_Offset e + d_Size e <= d_Offset d.

(** Reading a field always gives a value of its logical range, and writing any
    value whatsoever into one field of a report leaves the value read from every disjoint field as it was. *)
Theorem report_fields_independent d e buf v :
  is_bytes buf -> field_inside d (length buf) -> field_inside e (length buf) ->
  disjoint_fields d e -> d_LogMin e <= d_LogMax e ->
  exists buf' x, SetValue d buf v = Some buf' /\ GetValue buf e = Some x /\
    GetValue buf' e = Some x /\ d_LogMin e <= x <= d_LogMax e.
Proof.
  intros Hby (Ho & Hs & Hl) He Hd Hr. unfold SetValue.
  destruct (set_bits_spec (Z.to_nat (d_Size d)) buf (d_Offset d + 8) 0 v) as (buf' & E & Hlen & Hby' & Hf);
    [done|lia..|].
  exists buf', (decode e (field buf (d_Offset e + 8) (Z.to_nat (d_Size e)))).
  rewrite E, !GetValue_decode by (rewrite ?Hlen; done). split; [done|]. split; [done|]. split.
  - do 2 f_equal. apply field_ext. intros k Hk. destruct He as (Hoe & Hse & _). unfold disjoint_fields in Hd.
    rewrite Hf by lia. apply decide_False. lia.
  - by apply decode_in_range.
Qed.

Lemma report_fields_independent_witness :
  exists buf' x, SetValue field_ex [7; 255; 170; 85; 1] 77 = Some buf' /\
    GetValue [7; 255; 170; 85; 1] (set_d_Offset field_ex 15) = Some x /\
    GetValue buf' (set_d_Offset field_ex 15) = Some x /\ -2000 <= x <= 2000.
Proof.
  apply (report_fields_independent field_ex (set_d_Offset field_ex 15) [7; 255; 170; 85; 1] 77).
  - unfold is_bytes. repeat constructor; lia.
  - unfold field_inside, field_ex. simpl. lia.
  - unfold field_inside, field_ex. simpl. lia.
  - unfold disjoint_fields, field_ex. simpl. lia.
  - unfold field_ex. simpl. lia.
Defined.
