(* ===== verification/HidSafe.v ===== *)
(** * The parser of report descriptors stays within its arrays and returns

    The invariant of the parser, its preservation by every item, and the descriptors
    that exhaust the table of report offsets. *)

From S2P Require Import Prelude HidParser.
From stdpp Require Import options.

Definition is_main (item : Z) : bool :=
  (item =? ITEM_FEATURE) || (item =? ITEM_INPUT) || (item =? ITEM_OUTPUT).

(** The arrays have the sizes they were allocated with, and the counters are within them. *)
Record data_ok (d : HIDData) : Prop := {
  do_path : length (d_path d) = 10%nat;
  do_psize : 0 <= d_path_size d <= 10;
  do_id : 0 <= d_ReportID d < 256;
  do_off : 0 <= d_Offset d < 256;
  do_size : 0 <= d_Size d < 256
}.

Record arrays_ok (n : nat) (p : HIDParser) : Prop := {
  ao_desc : length (h_ReportDesc p) = n;
  ao_data : data_ok (h_Data p);
  ao_tab : length (h_UsageTab p) = Nat.max n 50;
  ao_usage : (h_UsageSize p <= length (h_UsageTab p))%nat;
  ao_repcount : 0 <= h_ReportCount p < 256;
  ao_count : 0 <= h_Count p < 256
}.

(** ** The table of report offsets

    Its used entries, those with a report ID that is not 0, come first. *)

Definition used (e : Z * Z * Z) : Prop := e.1.1 <> 0.

Record tab_split (tab A B : list (Z * Z * Z)) : Prop := {
  ts_eq : tab = A ++ B;
  ts_used : Forall used A;
  ts_free : Forall (fun e => e.1.1 = 0) B;
  ts_len : length tab = MAX_REPORT;
  ts_off : Forall (fun e => 0 <= e.2 < 256) tab
}.

Definition has_key (A : list (Z * Z * Z)) (id type : Z) : Prop :=
  exists o, (id, type, o) ∈ A.

(** There is an entry for the report, or a free one. *)
Definition room (A : list (Z * Z * Z)) (id type pos : Z) : Prop :=
  (id <> 0 /\ has_key A id type) \/ Z.of_nat (length A) + 1 <= pos.

Lemma offset_search_skip A : forall B id type, Forall used A -> ~ has_key A id type ->
  offset_search (A ++ B) id type
  = let '(r, B') := offset_search B id type in ((fun i => length A + i)%nat <$> r, A ++ B').
Proof.
  induction A as [|[[i t] o] A IH]; intros B id type Hu Hk; simpl.
  - by destruct (offset_search B id type) as [[?|] ?].
  - apply Forall_cons_1 in Hu as [Hi Hu]. unfold used in Hi. simpl in Hi.
    rewrite (proj2 (Z.eqb_neq _ _) Hi). rewrite IH; [|done|].
    2: { intros [o' Ho']. apply Hk. exists o'. by right. }
    assert (negb (i =? id) || negb (t =? type) = true) as ->.
    { destruct (Z.eqb_spec i id), (Z.eqb_spec t type); simpl; try done. subst.
      exfalso. apply Hk. exists o. left. }
    by destruct (offset_search B id type) as [[?|] ?].
Qed.

Lemma offset_search_found A : forall B id type, Forall used A -> has_key A id type ->
  exists i o, offset_search (A ++ B) id type = (Some i, A ++ B) /\ A !! i = Some (id, type, o).
Proof.
  induction A as [|[[i t] o] A IH]; intros B id type Hu [o' Hin].
  - by apply elem_of_nil in Hin.
  - apply Forall_cons_1 in Hu as [Hi Hu]. unfold used in Hi. simpl in Hi. simpl.
    rewrite (proj2 (Z.eqb_neq _ _) Hi).
    destruct (negb (i =? id) || negb (t =? type)) eqn:E.
    + destruct (IH B id type Hu) as (j & oj & Ej & Hj).
      { exists o'. apply elem_of_cons in Hin as [[= -> -> ->]|?]; [|done].
        by rewrite !Z.eqb_refl in E. }
      exists (S j), oj. by rewrite Ej.
    + breflect. subst. by exists 0%nat, o.
Qed.

(** With room in the table an entry is found. *)
Lemma offset_search_ok tab A B id type pos :
  tab_split tab A B -> room A id type pos -> pos <= Z.of_nat MAX_REPORT ->
  Z.of_nat (length A) <= pos ->
  exists i o tab' A' B', offset_search tab id type = (Some i, tab') /\
    tab_split tab' A' B' /\ tab' !! i = Some (id, type, o) /\
    room A' id type pos /\ Z.of_nat (length A') <= pos.
Proof.
  intros [-> Hu Hf Hl Ho] Hr Hp HA.
  destruct (decide (id <> 0 /\ Exists (fun e => e.1 = (id, type)) A)) as [[Hid Hk]|Hn].
  - assert (has_key A id type) as Hk'.
    { apply Exists_exists in Hk as ([[? ?] o] & Hin & [= -> ->]). by exists o. }
    destruct (offset_search_found A B id type Hu Hk') as (i & o & E & Hi).
    exists i, o, (A ++ B), A, B. split_and!; [done|done| | |done].
    + by apply lookup_app_l_Some.
    + by left.
  - assert (~ has_key A id type) as Hk.
    { intros [o Hin]. pose proof (proj1 (Forall_forall _ _) Hu _ Hin) as Hid. unfold used in Hid. simpl in Hid.
      apply Hn. split; [done|]. apply Exists_exists. by exists (id, type, o). }
    assert (Z.of_nat (length A) + 1 <= pos) as Hroom by (destruct Hr as [[? ?]|?]; done).
    rewrite offset_search_skip by done.
    destruct B as [|[[i t] o] B].
    { rewrite app_nil_r in Hl. lia. }
    apply Forall_cons_1 in Hf as [Hi Hf]. simpl in Hi. subst i. simpl. rewrite !Z.eqb_refl. simpl.
    rewrite Nat.add_0_r.
    apply Forall_app in Ho as [HoA HoB]. apply Forall_cons_1 in HoB as [_ HoB].
    assert (length (A ++ (id, type, 0) :: B) = MAX_REPORT) as Hl'.
    { rewrite <- Hl. rewrite !length_app. done. }
    assert (Forall (fun e : Z * Z * Z => 0 <= e.2 < 256) (A ++ (id, type, 0) :: B)) as Ho'.
    { apply Forall_app. split; [done|]. constructor; [simpl; lia|done]. }
    exists (length A), 0, (A ++ (id, type, 0) :: B).
    destruct (decide (id = 0)) as [->|Hid].
    + exists A, ((0, type, 0) :: B). split_and!; [done| |by apply list_lookup_middle|by right|done].
      by constructor; try done; constructor.
    + exists (A ++ [(id, type, 0)]), B. split_and!; [done| |by apply list_lookup_middle| |].
      * constructor; [by rewrite <- app_assoc| |done|done|done].
        apply Forall_app. split; [done|]. by constructor.
      * left. split; [done|]. exists 0. apply elem_of_app. right. by left.
      * rewrite length_app. simpl. lia.
Qed.

(** ** The invariant *)

Record hid_inv (n : nat) (p : HIDParser) : Prop := {
  hi_arrays : arrays_ok n p;
  hi_pos : 0 <= h_Pos p <= Z.of_nat n + 255;
  hi_offsets : exists A B, tab_split (h_OffsetTab p) A B /\ Z.of_nat (length A) <= h_Pos p /\
    (h_Count p <> 0 -> room A (d_ReportID (h_Data p)) (Z.land (h_Item p) ITEM_MASK) (h_Pos p));
  hi_main : h_Count p <> 0 -> is_main (Z.land (h_Item p) ITEM_MASK) = true
}.

(** The state after [hid_fetch]: an item has been read, or the last main item is repeated. *)
Record fetched (n : nat) (p p1 : HIDParser) : Prop := {
  fe_arrays : arrays_ok n p1;
  fe_pos : 0 <= h_Pos p1 <= Z.of_nat n;
  fe_offsets : exists A B, tab_split (h_OffsetTab p1) A B /\ Z.of_nat (length A) <= h_Pos p1 /\
    room A (d_ReportID (h_Data p1)) (Z.land (h_Item p1) ITEM_MASK) (h_Pos p1);
  fe_step : (h_Count p1 = 0 /\ h_Count p = 0 /\ h_Pos p + 1 <= h_Pos p1) \/
    (p1 = p /\ h_Count p <> 0 /\ is_main (Z.land (h_Item p1) ITEM_MASK) = true)
}.

(** What is left to do; every object found makes it smaller. *)
Definition work (n : nat) (p : HIDParser) : Z := 256 * (Z.of_nat n - h_Pos p) + h_Count p.

Definition round_ok (n : nat) (p : HIDParser) (s : step) : Prop :=
  match s with
  | UB => False
  | Continue p' => hid_inv n p' /\ h_Pos p + 1 <= h_Pos p'
  | Return ret p' d => ret = -1 \/
      (0 <= ret <= 1 /\ hid_inv n p' /\ 0 <= work n p' < work n p /\
       exists x, d = Some x /\ data_ok x /\ is_main (d_Type x) = true)
  end.

#[local] Arguments round_ok : simpl never.

Lemma item_value_total desc pos : 0 <= pos -> forall k i v,
  0 <= i -> pos + i + Z.of_nat k <= Z.of_nat (length desc) ->
  exists v', item_value desc pos k i v = Some v'.
Proof.
  intros Hp. induction k as [|k IH]; intros i v Hi Hl; simpl; [by eexists|].
  destruct (lookup_lt_is_Some_2 desc (Z.to_nat (pos + i))) as [b Eb]; [lia|].
  rewrite Eb. simpl. apply IH; lia.
Qed.

Lemma ItemSize_lookup item : exists s, ItemSize !! Z.to_nat (Z.land item SIZE_MASK) = Some s /\ 0 <= s <= 4.
Proof.
  unfold SIZE_MASK. change 3 with (Z.ones 2). rewrite Z.land_ones by lia.
  pose proof (Z.mod_pos_bound item (2 ^ 2) ltac:(lia)) as H.
  assert (exists m, item mod 2 ^ 2 = m /\ (m = 0 \/ m = 1 \/ m = 2 \/ m = 3)) as (m & -> & Hm) by (eexists; split; [done|lia]).
  destruct Hm as [-> | [-> | [-> | ->]]]; eexists; (split; [reflexivity|lia]).
Qed.

Lemma hid_fetch_ok n p : hid_inv n p -> (n <= 500)%nat -> h_Pos p < Z.of_nat n ->
  exists r, hid_fetch p = Some r /\ match r with inl _ => True | inr p1 => fetched n p p1 end.
Proof.
  intros [Ha Hp (A & B & Ht & HA & Hr) Hm] Hn Hlt. unfold hid_fetch.
  destruct (Z.eqb_spec (h_Count p) 0) as [Ec|Ec]; simpl.
  2: { eexists; split; [done|]. constructor; [done|lia| |by right; auto].
       exists A, B. auto. }
  destruct (lookup_lt_is_Some_2 (h_ReportDesc p) (Z.to_nat (h_Pos p))) as [item Ei].
  { destruct Ha. lia. }
  rewrite Ei. simpl. destruct (ItemSize_lookup item) as (s & Es & Hs). rewrite Es. simpl.
  rewrite (wrapU_small 16 (h_Pos p + 1)) by lia. rewrite (ao_desc _ _ Ha).
  rewrite wrapU_small by lia. rewrite Z.gtb_ltb.
  destruct (Z.ltb_spec (Z.of_nat n - (h_Pos p + 1)) s); [by eexists|].
  destruct (item_value_total (h_ReportDesc p) (h_Pos p + 1) ltac:(lia) (Z.to_nat s) 0 0) as [v Ev];
    [lia|rewrite (ao_desc _ _ Ha); lia|].
  rewrite Ev. simpl. eexists; split; [done|].
  constructor; simpl.
  - by destruct Ha; constructor.
  - rewrite wrapU_small by lia. lia.
  - exists A, B. rewrite wrapU_small by lia. split_and!; [done|lia|]. right. lia.
  - left. rewrite wrapU_small by lia. split_and!; [done|done|lia].
Qed.

(** ** Every item preserves the invariant *)

Lemma continue_ok n p p1 p' : fetched n p p1 -> h_Count p1 = 0 ->
  arrays_ok n p' -> h_Pos p1 <= h_Pos p' <= Z.of_nat n + 255 ->
  h_OffsetTab p' = h_OffsetTab p1 -> h_Count p' = 0 -> round_ok n p (Continue p').
Proof.
  intros [Ha Hp (A & B & Ht & HA & Hr) Hs] Hc Ha' Hp' Hot Hc'. unfold round_ok.
  assert (h_Pos p + 1 <= h_Pos p1) as Hadv.
  { destruct Hs as [(_ & _ & ?)|(-> & ? & _)]; [done|congruence]. }
  split; [|lia]. constructor; [done|lia| |by rewrite Hc'].
  exists A, B. rewrite Hot. split_and!; [done|lia|by rewrite Hc'].
Qed.

Lemma fetched_count0 n p p1 : fetched n p p1 ->
  is_main (Z.land (h_Item p1) ITEM_MASK) = false -> h_Count p1 = 0.
Proof. intros [_ _ _ [(? & _)|(_ & _ & Hm)]] Hf; [done|]. by rewrite Hm in Hf. Qed.

Lemma reset_arrays n p : arrays_ok n p -> arrays_ok n (ResetLocalState p).
Proof. intros []. constructor; simpl; rewrite ?length_replicate; try done. lia. Qed.

Lemma push_node_ok p u : data_ok (h_Data p) -> d_path_size (h_Data p) < 10 ->
  exists d', push_node p u = Some (set_h_Data p d') /\ data_ok d' /\
    d_path_size d' = d_path_size (h_Data p) + 1 /\
    d_ReportID d' = d_ReportID (h_Data p) /\ d_Size d' = d_Size (h_Data p).
Proof.
  intros [] Hs. unfold push_node.
  rewrite (proj2 (Nat.ltb_lt _ _)) by lia. eexists; split; [done|].
  rewrite wrapU_small by lia. split; [|done].
  constructor; simpl; rewrite ?length_insert; lia.
Qed.

Lemma unstack_usage_ok p : (h_UsageSize p <= length (h_UsageTab p))%nat ->
  exists tab sz, unstack_usage p = Some (set_h_UsageSize (set_h_UsageTab p tab) sz) /\
    length tab = length (h_UsageTab p) /\ (sz <= length tab)%nat.
Proof.
  intros H. unfold unstack_usage. destruct (Nat.ltb_spec 0 (h_UsageSize p)).
  - rewrite (proj2 (Nat.ltb_ge _ _)) by lia. eexists _, _. split; [done|].
    rewrite length_imap. lia.
  - exists (h_UsageTab p), (h_UsageSize p). split; [|done]. by destruct p.
Qed.

Lemma usage_tab_head n p : arrays_ok n p -> exists u, h_UsageTab p !! 0%nat = Some u.
Proof. intros []. apply lookup_lt_is_Some_2. lia. Qed.

Lemma item_usage_ok n p p1 : fetched n p p1 -> h_Count p1 = 0 -> round_ok n p (item_usage p1).
Proof.
  intros Hf Hc. unfold item_usage. csplit; [by left|].
  apply (continue_ok n p p1); try done.
  - destruct (fe_arrays _ _ _ Hf). constructor; simpl; rewrite ?length_insert; try done; lia.
  - simpl. pose proof (fe_pos _ _ _ Hf). lia.
Qed.

Lemma item_collection_ok n p p1 : fetched n p p1 -> h_Count p1 = 0 -> round_ok n p (item_collection p1).
Proof.
  intros Hf Hc. pose proof (fe_arrays _ _ _ Hf) as Ha. pose proof (fe_pos _ _ _ Hf) as Hp.
  unfold item_collection, PATH_SIZE. rewrite Z.geb_leb. csplit; [by left|].
  destruct (usage_tab_head n p1 Ha) as [u ->]. simpl.
  destruct (push_node_ok p1 u) as (d1 & -> & Hd1 & Hs1 & _); [apply Ha|done|]. simpl.
  destruct (unstack_usage_ok (set_h_Data p1 d1)) as (tab & sz & -> & Htab & Hsz); [apply Ha|]. simpl in *.
  csplit.
  - rewrite Z.geb_leb. csplit; [by left|].
    match goal with |- context [push_node ?q ?v] => destruct (push_node_ok q v) as (d2 & -> & Hd2 & _) end;
      [done|simpl; lia|]. simpl.
    apply (continue_ok n p p1); simpl; try done; [|lia].
    apply reset_arrays. destruct Ha. constructor; simpl; try done; lia.
  - apply (continue_ok n p p1); simpl; try done; [|lia].
    apply reset_arrays. destruct Ha. constructor; simpl; try done; lia.
Qed.

Lemma set_path_size_ok d x : data_ok d -> 0 <= x <= 10 -> data_ok (set_d_path_size d x).
Proof. intros [] ?. constructor; simpl; lia. Qed.

Lemma item_end_collection_ok n p p1 :
  fetched n p p1 -> h_Count p1 = 0 -> round_ok n p (item_end_collection p1).
Proof.
  intros Hf Hc. pose proof (fe_arrays _ _ _ Hf) as Ha. pose proof (fe_pos _ _ _ Hf) as Hp.
  pose proof (ao_data _ _ Ha) as Hd. pose proof (do_psize _ Hd) as Hps.
  unfold item_end_collection. csplit; [by left|].
  rewrite wrapU_small, Z.gtb_ltb by lia.
  assert (forall x, 0 <= x <= 10 ->
    arrays_ok n (set_h_Data p1 (set_d_path_size (h_Data p1) x))) as Hset.
  { intros x Hx. destruct Ha. constructor; simpl; try done. by apply set_path_size_ok. }
  csplit.
  - destruct (lookup_lt_is_Some_2 (d_path (h_Data p1)) (Z.to_nat (d_path_size (h_Data p1) - 1))) as [v Ev].
    { rewrite (do_path _ Hd). lia. }
    simpl. rewrite Ev. simpl. apply (continue_ok n p p1); simpl; try done; [|by case_match; simpl; lia|by case_match..].
    apply reset_arrays. case_match; [|apply Hset; lia].
    rewrite wrapU_small by lia. apply (Hset (d_path_size (h_Data p1) - 1 - 1)). lia.
  - simpl. apply (continue_ok n p p1); simpl; try done; [|lia].
    apply reset_arrays, Hset. lia.
Qed.

Lemma item_store_ok n p p1 item :
  fetched n p p1 -> h_Count p1 = 0 -> (n <= 500)%nat -> round_ok n p (Continue (item_store p1 item)).
Proof.
  intros Hf Hc Hn. pose proof (fe_arrays _ _ _ Hf) as Ha. pose proof (fe_pos _ _ _ Hf) as Hp.
  assert (0 <= Z.land (h_Value p1) 0xff <= 255) as Hl.
  { assert (Z.land (h_Value p1) 0xff = h_Value p1 mod 2 ^ 8) as -> by (by rewrite <- Z.land_ones).
    pose proof (Z.mod_pos_bound (h_Value p1) (2 ^ 8)). lia. }
  assert (forall z, 0 <= wrap8 z < 256) as Hw8 by (intros z; by apply (wrapU_range 8)).
  assert (forall d, data_ok d -> arrays_ok n (set_h_Data p1 d)) as Hset by (destruct Ha; by constructor).
  destruct (ao_data _ _ Ha).
  apply (continue_ok n p p1); try done; unfold item_store, upd_data; repeat case_match; simpl; try done;
    try (apply Hset; constructor; simpl; done).
  all: try (destruct Ha; constructor; simpl; done).
  all: try (rewrite wrapU_small by lia); lia.
Qed.

(** ** Main items *)

(** The table has room for the current report. *)
Definition tab_room (tab : list (Z * Z * Z)) (id type pos : Z) : Prop :=
  exists A B, tab_split tab A B /\ Z.of_nat (length A) <= pos /\ room A id type pos.

Definition bump (size : Z) (e : Z * Z * Z) : Z * Z * Z := (e.1.1, e.1.2, wrap8 (e.2 + size)).

Lemma Forall_alter_all {A} (P : A -> Prop) f i l :
  (forall x, P x -> P (f x)) -> Forall P l -> Forall P (alter f i l).
Proof. intros Hf H. apply Forall_alter; [done|]. intros x _. apply Hf. Qed.

Lemma has_key_bump A id type size i : has_key A id type -> has_key (alter (bump size) i A) id type.
Proof.
  intros [o Hin]. apply list_elem_of_lookup in Hin as [j Hj].
  destruct (decide (j = i)) as [->|Hne].
  - exists (wrap8 (o + size)). apply list_elem_of_lookup. exists i.
    by rewrite list_lookup_alter_eq, Hj.
  - exists o. apply list_elem_of_lookup. exists j. by rewrite list_lookup_alter_ne.
Qed.

Lemma tab_room_bump tab id type pos size i : tab_room tab id type pos ->
  tab_room (alter (bump size) i tab) id type pos.
Proof.
  intros (A & B & [-> Hu Hf Hl Ho] & HA & Hr).
  assert (forall e, 0 <= e.2 < 256 -> 0 <= (bump size e).2 < 256) as Hb.
  { intros e _. by apply (wrapU_range 8). }
  destruct (decide (i < length A)%nat) as [Hi|Hi].
  - exists (alter (bump size) i A), B. rewrite length_alter. split_and!; [|done|].
    + constructor; [by rewrite alter_app_l|by apply Forall_alter_all|done|by rewrite length_alter|].
      by apply Forall_alter_all.
    + destruct Hr as [[? ?]|?]; [left; split; [done|by apply has_key_bump]|by right; rewrite length_alter].
  - exists A, (alter (bump size) (i - length A)%nat B). split_and!; [|done|done].
    constructor; [|done|by apply Forall_alter_all|by rewrite length_alter|by apply Forall_alter_all].
    rewrite <- alter_app_r. f_equal. lia.
Qed.

Lemma read_offset_ok p type pos :
  tab_room (h_OffsetTab p) (d_ReportID (h_Data p)) type pos -> pos <= Z.of_nat MAX_REPORT ->
  exists off tab, read_offset p type = Some (off, set_h_OffsetTab p tab) /\ 0 <= off < 256 /\
    tab_room tab (d_ReportID (h_Data p)) type pos.
Proof.
  intros (A & B & Ht & HA & Hr) Hp.
  destruct (offset_search_ok _ A B _ _ pos Ht Hr Hp HA) as (i & o & tab & A' & B' & E & Ht' & Hi & Hr' & HA').
  exists o, tab. unfold read_offset, GetReportOffset. rewrite E. simpl. rewrite Hi. simpl.
  pose proof (Forall_lookup_1 _ _ _ _ (ts_off _ _ _ Ht') Hi).
  split; [done|]. split; [done|]. by exists A', B'.
Qed.

Lemma advance_offset_ok p type pos :
  tab_room (h_OffsetTab p) (d_ReportID (h_Data p)) type pos -> pos <= Z.of_nat MAX_REPORT ->
  exists tab, advance_offset p type = Some (set_h_OffsetTab p tab) /\
    tab_room tab (d_ReportID (h_Data p)) type pos.
Proof.
  intros (A & B & Ht & HA & Hr) Hp.
  destruct (offset_search_ok _ A B _ _ pos Ht Hr Hp HA) as (i & o & tab & A' & B' & E & Ht' & Hi & Hr' & HA').
  unfold advance_offset, GetReportOffset. rewrite E. simpl. eexists. split; [done|].
  apply (tab_room_bump _ _ _ _ (d_Size (h_Data p)) i). by exists A', B'.
Qed.

(** The repetition counter while a main item is handled. *)
Lemma main_count n p p1 : fetched n p p1 ->
  let c := if h_Count p1 =? 0 then h_ReportCount p1 else h_Count p1 in
  0 <= c < 256 /\ 0 <= wrap8 (c - 1) < 256 /\
  256 * (Z.of_nat n - h_Pos p1) + wrap8 (c - 1) < work n p.
Proof.
  intros [[] Hp _ Hs]. cbv zeta. unfold work.
  assert (0 <= wrap8 ((if h_Count p1 =? 0 then h_ReportCount p1 else h_Count p1) - 1) < 256)
    by (by apply (wrapU_range 8)).
  destruct Hs as [(E1 & E0 & Hlt)|(-> & Hne & _)].
  - rewrite E1, E0 in *. simpl in *. lia.
  - rewrite (proj2 (Z.eqb_neq _ _) Hne) in *. rewrite wrapU_small in * by lia. lia.
Qed.

Lemma item_main_ok n p p1 : fetched n p p1 -> (n <= 500)%nat ->
  is_main (Z.land (h_Item p1) ITEM_MASK) = true -> round_ok n p (item_main p1).
Proof.
  intros Hf Hn Hm. destruct (main_count n p p1 Hf) as (Hc & Hc' & Hwork).
  destruct Hf as [Ha Hp Hoff _]. destruct Ha as [Hdesc Hd Htab Husage Hrep Hcnt].
  pose proof Hd as [Hpath Hps Hid Ho Hsz].
  assert (h_Pos p1 <= Z.of_nat MAX_REPORT) as Hmax by (unfold MAX_REPORT; lia).
  set (c := if h_Count p1 =? 0 then h_ReportCount p1 else h_Count p1) in *.
  destruct p1 as [desc pos itm val d ot rc cnt upage tab us]; simpl h_Item in *; simpl h_Pos in *;
    simpl h_Data in *; simpl h_OffsetTab in *; simpl h_UsageTab in *; simpl h_UsageSize in *;
    simpl h_ReportDesc in *; simpl h_ReportCount in *; simpl h_Count in *.
  unfold item_main. destruct (lookup_lt_is_Some_2 tab 0) as [u Eu]; [lia|].
  simpl h_UsageTab. rewrite Eu. cbn [mbind option_bind of_opt].
  simpl h_Count. simpl h_ReportCount. fold c.
  assert ((if cnt =? 0 then set_h_Count (mkParser desc pos itm val d ot rc cnt upage tab us) rc
           else mkParser desc pos itm val d ot rc cnt upage tab us)
          = mkParser desc pos itm val d ot rc c upage tab us) as ->.
  { subst c. simpl. by destruct (cnt =? 0). }
  clearbody c. simpl h_Data. unfold PATH_SIZE. rewrite Z.geb_leb. csplit; [by left|].
  destruct (push_node_ok (mkParser desc pos itm val d ot rc c upage tab us) u)
    as (d1 & -> & Hd1 & Hs1 & Hid1 & Hsz1); [done|done|].
  destruct d1 as [psz path id off size ty att un ue lmin lmax alm pmin pmax hpmin hpmax]. simpl in *.
  destruct (unstack_usage_ok (mkParser desc pos itm val
     (mkData psz path id off size ty att un ue lmin lmax alm pmin pmax hpmin hpmax) ot rc c upage tab us))
    as (tab1 & us1 & E & Htab1 & Hus1); [done|].
  unfold set_h_Data. simpl. rewrite E. clear E. simpl in *.
  match goal with |- context [read_offset ?q ?ty] =>
    destruct (read_offset_ok q ty pos) as (off1 & ot1 & E & Hoffr & Hroom) end;
    [simpl; by rewrite Hid1|done|].
  rewrite E. clear E. simpl in *.
  match goal with |- context [advance_offset ?q ?ty] =>
    destruct (advance_offset_ok q ty pos) as (ot2 & E & Hroom') end; [done|done|].
  rewrite E. clear E. simpl in *.
  destruct Hd1. simpl in *. rewrite (wrapU_small 8 (psz - 1)) by lia.
  right. split; [by destruct (u =? 0)|].
  unfold work in *. destruct Hroom' as (A & B & Hsplit & HA & Hroom').
  split; [|split].
  - csplit; constructor; simpl; try done; try lia.
    all: try (constructor; simpl; rewrite ?length_replicate; try done; try lia; constructor; simpl; lia).
    all: exists A, B; split_and!; try done; by intros [].
  - csplit; simpl; lia.
  - eexists. split; [done|]. split; [|done]. constructor; simpl; lia.
Qed.

(** ** The loops *)

Lemma hid_round_ok n p : hid_inv n p -> (n <= 500)%nat -> h_Pos p < Z.of_nat n ->
  round_ok n p (hid_round p).
Proof.
  intros Hi Hn Hlt. unfold hid_round.
  destruct (hid_fetch_ok n p Hi Hn Hlt) as ([p1|p1] & -> & Hf); [by left|].
  unfold hid_item. set (item := Z.land (h_Item p1) ITEM_MASK).
  destruct (is_main item) eqn:Em.
  - assert (item =? ITEM_USAGE = false /\ item =? ITEM_COLLECTION = false /\
      item =? ITEM_END_COLLECTION = false) as (-> & -> & ->).
    { unfold is_main in Em. rewrite !orb_true_iff in Em.
      destruct Em as [[Em|Em]|Em]; apply Z.eqb_eq in Em; by rewrite Em. }
    pose proof Em as Em'. unfold is_main in Em'. rewrite Em'. by apply item_main_ok.
  - pose proof (fetched_count0 n p p1 Hf Em) as Hc.
    unfold is_main in Em. rewrite Em.
    csplit; [by apply item_usage_ok|]. csplit; [by apply item_collection_ok|].
    csplit; [by apply item_end_collection_ok|]. by apply item_store_ok.
Qed.

(** What [HIDParse] returns: -1, or an object and a parser that has less work left. *)
Definition found_ok (n : nat) (p : HIDParser) (r : result (Z * HIDParser * option HIDData)) : Prop :=
  match r with
  | Ok (ret, p', d) => round_ok n p (Return ret p' d)
  | _ => False
  end.

Lemma round_ok_weaken n p q ret p' d : work n q <= work n p ->
  round_ok n q (Return ret p' d) -> round_ok n p (Return ret p' d).
Proof.
  intros Hw [->|(? & ? & ? & ?)]; [by left|]. right. split_and!; try done; lia.
Qed.

Lemma HIDParse_loop_ok fuel : forall n p, hid_inv n p -> (n <= 500)%nat ->
  Z.of_nat n - h_Pos p < Z.of_nat fuel -> found_ok n p (HIDParse_loop fuel p) \/ Z.of_nat n < h_Pos p /\ fuel = O.
Proof.
  induction fuel as [|fuel IH]; intros n p Hi Hn Hf; [right; lia|]. left.
  simpl. rewrite (ao_desc _ _ (hi_arrays _ _ Hi)).
  destruct (Z.ltb_spec (h_Pos p) (Z.of_nat n)) as [Hlt|]; [|by left].
  pose proof (hid_round_ok n p Hi Hn Hlt) as Hr.
  destruct (hid_round p) as [p'|ret p' d|]; [|done|done].
  destruct Hr as [Hi' Hadv].
  destruct (IH n p' Hi' Hn) as [Hok|[Hgt ->]]; [lia| |lia].
  unfold found_ok in *. destruct (HIDParse_loop fuel p') as [[[ret q] d]| |]; [|done|done].
  revert Hok. apply round_ok_weaken. unfold work.
  pose proof (ao_count _ _ (hi_arrays _ _ Hi)). pose proof (ao_count _ _ (hi_arrays _ _ Hi')). lia.
Qed.

Lemma HIDParse_ok n p : hid_inv n p -> (n <= 500)%nat -> found_ok n p (HIDParse p).
Proof.
  intros Hi Hn. unfold HIDParse. pose proof (hi_pos _ _ Hi).
  destruct (HIDParse_loop_ok (length (h_ReportDesc p) + 1) n p Hi Hn) as [?|[? ?]]; [|done|lia].
  rewrite (ao_desc _ _ (hi_arrays _ _ Hi)). lia.
Qed.

(** *** The objects and the report lengths *)

(** The report of the object is long enough for it. *)
Definition covered (replen : list Z) (d : HIDData) : Prop :=
  exists l, replen !! Z.to_nat (d_ReportID d) = Some l /\ d_Offset d + d_Size d <= 8 * l.

Definition object_ok (replen : list Z) (d : HIDData) : Prop :=
  data_ok d /\ is_main (d_Type d) = true /\ covered replen d.

Lemma put_replen_mono replen d e : covered replen e -> covered (put_replen replen d) e.
Proof.
  intros (l & Hl & Hc). unfold put_replen, covered. cbv zeta.
  destruct (decide (Z.to_nat (d_ReportID d) = Z.to_nat (d_ReportID e))) as [->|Hne].
  - rewrite list_lookup_alter_eq, Hl. simpl. eexists. split; [done|].
    rewrite Z.gtb_ltb. case_match; breflect; lia.
  - rewrite list_lookup_alter_ne by done. by exists l.
Qed.

Lemma put_replen_covers replen d : length replen = 256%nat -> data_ok d -> covered (put_replen replen d) d.
Proof.
  intros Hl []. unfold put_replen, covered. cbv zeta.
  destruct (lookup_lt_is_Some_2 replen (Z.to_nat (d_ReportID d))) as [x Ex]; [lia|].
  rewrite list_lookup_alter_eq, Ex. simpl. eexists. split; [done|].
  rewrite Z.shiftr_div_pow2, Z.gtb_ltb by lia. change (2 ^ 3) with 8.
  case_match; breflect; Z.to_euclidean_division_equations; lia.
Qed.

Definition parsed_ok (r : result (nat * list HIDData * list Z)) : Prop :=
  match r with
  | Ok (k, items, replen) => (k <= 500)%nat /\ (k <= length items)%nat /\ length replen = 256%nat /\
      Forall (object_ok replen) (take k items) /\ Forall (fun l => 0 <= l <= 64) replen
  | _ => False
  end.

Lemma parse_loop_ok fuel : forall n p k items replen,
  hid_inv n p -> (n <= 500)%nat -> Z.max 0 (work n p) < Z.of_nat fuel ->
  parsed_ok (Ok (k, items, replen)) -> parsed_ok (parse_loop fuel p k items replen).
Proof.
  induction fuel as [|fuel IH]; intros n p k items replen Hi Hn Hf Hk; [lia|].
  simpl. csplit; [|done]. pose proof (HIDParse_ok n p Hi Hn) as Hp. unfold found_ok in Hp.
  destruct (HIDParse p) as [[[ret p'] d]| |]; [|done|done].
  destruct (Z.ltb_spec ret 0); [done|].
  destruct Hp as [->|(Hret & Hi' & Hw & x & -> & Hx & Hm)]; [lia|].
  destruct Hk as (Hk1 & Hk2 & Hk3 & Hk4 & Hk5).
  apply (IH n p'); [done|done|lia|].
  assert (Forall (object_ok (put_replen replen x)) (take k items ++ [x])) as Hall.
  { apply Forall_app. split; [|constructor; [|done]].
    - eapply Forall_impl; [apply Hk4|]. intros e (? & ? & ?). split_and!; [done|done|].
      by apply put_replen_mono.
    - split_and!; [done|done|]. by apply put_replen_covers. }
  assert (length (put_item items k x) = S k) as Hlen.
  { unfold put_item. rewrite length_app, length_take. simpl. lia. }
  unfold parsed_ok, MAX_REPORT in *. rewrite Hlen. split_and!; [lia|lia| | |].
  - unfold put_replen. by rewrite length_alter.
  - by apply Forall_take.
  - unfold put_replen. cbv zeta. apply Forall_alter; [done|]. intros l _ Hl. destruct Hx.
    rewrite Z.shiftr_div_pow2, Z.gtb_ltb by lia. change (2 ^ 3) with 8.
    case_match; breflect; Z.to_euclidean_division_equations; lia.
Qed.

Lemma parser0_inv desc : (length desc <= 500)%nat -> hid_inv (length desc) (parser0 desc).
Proof.
  intros Hn. constructor.
  - constructor; simpl; try done; rewrite ?length_replicate; try lia.
    constructor; simpl; done.
  - simpl. lia.
  - exists [], (replicate MAX_REPORT (0, 0, 0)). split_and!; [|simpl; lia|simpl; lia].
    unfold parser0. cbn [h_OffsetTab].
    constructor; [done|by apply Forall_nil| |by rewrite length_replicate|]; by apply Forall_replicate.
  - simpl. lia.
Qed.

(** A descriptor whose objects can be used. *)
Record desc_ok (h : HIDDesc) : Prop := {
  de_nitems : (0 < nitems h <= 500)%nat;
  de_item : length (item h) = nitems h;
  de_replen : length (replen h) = 256%nat;
  de_short : Forall (fun l => 0 <= l <= 64) (replen h);
  de_objects : Forall (object_ok (replen h)) (item h)
}.

Lemma Parse_ReportDesc_ok desc : (length desc <= 500)%nat ->
  exists r, Parse_ReportDesc desc = Ok r /\ forall h, r = Some h -> desc_ok h.
Proof.
  intros Hn. unfold Parse_ReportDesc.
  assert (Z.max 0 (work (length desc) (parser0 desc)) < Z.of_nat (256 * length desc + 257)) as Hw
    by (unfold work, parser0; cbn [h_Pos h_Count]; lia).
  assert (parsed_ok (Ok (0%nat, [], replicate 256 0))) as H0.
  { split_and!; [lia|simpl; lia|by rewrite length_replicate|constructor|by apply Forall_replicate]. }
  pose proof (parse_loop_ok _ _ _ 0 [] (replicate 256 0) (parser0_inv desc Hn) Hn Hw H0) as H.
  destruct (parse_loop _ _ _ _ _) as [[[k items] replen]| |]; [|done|done].
  destruct H as (Hk1 & Hk2 & Hk3 & Hk4 & Hk5). eexists. split; [done|]. intros h.
  destruct (Nat.eqb_spec k 0); [done|]. intros [= <-]. split; simpl; rewrite ?length_take; try done; lia.
Qed.

(** C30. A report descriptor of at most 500 bytes, well formed or not, never makes the
    parser read or write outside an array or through the [NULL] of [GetReportOffset], and the parser
    returns.  Every object of its result has a path of at most 10 nodes and one of the three main
    types, and the computed length of its report is enough for the field. *)
Theorem report_descriptor_safe desc : (length desc <= 500)%nat ->
  exists r, Parse_ReportDesc desc = Ok r /\
    match r with
    | None => True
    | Some h => (0 < nitems h <= 500)%nat /\ length (item h) = nitems h /\
        Forall (object_ok (replen h)) (item h)
    end.
Proof.
  intros Hn. destruct (Parse_ReportDesc_ok desc Hn) as (r & Hr & Hok). exists r. split; [done|].
  destruct r as [h|]; [|done]. by destruct (Hok h eq_refl).
Qed.

(** A descriptor with two fields, and one that ends inside an item. *)
Definition desc_ex : list Z :=
  [0x05; 0x84; 0x09; 0x04; 0xA1; 0x01; 0x85; 0x07; 0x09; 0x02; 0xA1; 0x00; 0x05; 0x85;
   0x09; 0xD0; 0x09; 0x45; 0x15; 0x00; 0x25; 0x01; 0x75; 0x01; 0x95; 0x02; 0x81; 0x23; 0xC0; 0x27; 0xFF].

Lemma report_descriptor_safe_witness :
  exists r, Parse_ReportDesc desc_ex = Ok r /\
    match r with
    | None => True
    | Some h => (0 < nitems h <= 500)%nat /\ length (item h) = nitems h /\
        Forall (object_ok (replen h)) (item h)
    end.
Proof. apply (report_descriptor_safe desc_ex). apply Nat.leb_le. reflexivity. Defined.

(** ** More reports than the table holds *)

(** Per report ID: REPORT ID [i], then an input, an output and a feature item. *)
Definition reports_of (i : nat) : list Z := [0x85; Z.of_nat i; 0x80; 0x90; 0xB0].

Definition many_reports (k : nat) : list Z := [0x95; 1] ++ flat_map reports_of (seq 1 k).

(** The table of report offsets has 500 entries and [HIDParse] does not test
    the pointer [GetReportOffset] returns: a descriptor of 837 bytes, less than the 6144 bytes the drivers
    accept, with 167 report IDs used by items of all three types makes the parser
    dereference [NULL]; with 166 IDs it returns. *)
Theorem too_many_reports_crash :
  length (many_reports 167) = 837%nat /\
  Parse_ReportDesc (many_reports 167) = Crash /\
  Parse_ReportDesc (many_reports 166) = Ok None.
Proof. split_and!; vm_compute; reflexivity. Qed.
