(* ===== verification/LibHid.v ===== *)
(** * drivers/libhid.c: reports, physical values and paths

    Between a USB HID driver and the device: reports are fetched into a buffer per report ID and kept for a
    while, items are read from it and written through it, values are converted between the device's
    integers and physical units, and items are named by paths.

    [HM] is a state monad over the globals of the file, the report buffer and the device, where [None] is an
    access outside an array, a NULL pointer, or a conversion that C leaves undefined.  The calls of
    [comm_driver] get their results from the lists [hd_get], [hd_set], [hd_int] and [hd_str]: an error, or what the
    device sent, of which at most the size of the buffer is stored.  The types are those of libusb 1.0.
    Allocation does not fail; debugging output is not modelled. *)

From S2P Require Import Prelude CStr StrUtil HidParser Float64.
From stdpp Require Import options.

Definition MAX_REPORT_ALLOC : Z := 256.
Definition USB_CTRL_CHARBUFSIZE_MAX : Z := 65535.
Definition USB_CTRL_STRINDEX_MAX : Z := 255.
Definition MAX_TS : Z := 2.
Definition ATTR_DATA_CST : Z := 0x01.

(** ** State *)

(** What a call of the communication driver gives: an error code, or data. *)
Inductive dev_result (A : Type) := DevError (e : Z) | DevData (a : A).
Arguments DevError {A} e.
Arguments DevData {A} a.

Inductive hid_io :=
| GetReport (id size : Z)
| SetReport (id : Z) (report : list Z)
| GetInterrupt (size : Z)
| GetString (index : Z).

Record hidst := mkHid {
  hd_desc : HIDDesc;                 (* pDesc *)
  hd_ts : list Z;                    (* the members of *reportbuf *)
  hd_len : list Z;
  hd_cap : list Z;
  hd_data : list (option (list Z));
  hd_max_report_size : Z;
  hd_interrupt_only : Z;
  hd_interrupt_size : Z;
  hd_now : Z;
  hd_errno : Z;
  hd_get : list (dev_result (list Z));
  hd_set : list Z;                   (* what [set_report] returns *)
  hd_int : list (dev_result (list Z));
  hd_str : list (dev_result bytes);
  hd_out : list hid_io
}.

Definition set_hd_buf (s : hidst) ts len cap data := mkHid (hd_desc s) ts len cap data (hd_max_report_size s)
  (hd_interrupt_only s) (hd_interrupt_size s) (hd_now s) (hd_errno s) (hd_get s) (hd_set s) (hd_int s) (hd_str s) (hd_out s).
Definition set_hd_ts (s : hidst) x := set_hd_buf s x (hd_len s) (hd_cap s) (hd_data s).
Definition set_hd_data (s : hidst) x := set_hd_buf s (hd_ts s) (hd_len s) (hd_cap s) x.
Definition set_hd_errno (s : hidst) x := mkHid (hd_desc s) (hd_ts s) (hd_len s) (hd_cap s) (hd_data s)
  (hd_max_report_size s) (hd_interrupt_only s) (hd_interrupt_size s) (hd_now s) x (hd_get s) (hd_set s) (hd_int s)
  (hd_str s) (hd_out s).
Definition set_hd_dev (s : hidst) g t i r o := mkHid (hd_desc s) (hd_ts s) (hd_len s) (hd_cap s) (hd_data s)
  (hd_max_report_size s) (hd_interrupt_only s) (hd_interrupt_size s) (hd_now s) (hd_errno s) g t i r o.

Definition HM (A : Type) : Type := hidst -> option (A * hidst).

#[export] Instance HM_ret : MRet HM := fun A a s => Some (a, s).
#[export] Instance HM_bind : MBind HM := fun A B f m s => '(a, s) ← m s; f a s.

Definition hget {A} (f : hidst -> A) : HM A := fun s => Some (f s, s).
Definition hmodify (f : hidst -> hidst) : HM unit := fun s => Some (tt, f s).
Definition hopt {A} (o : option A) : HM A := fun s => (fun a => (a, s)) <$> o.

(** ** The device *)

Definition EIO : Z := 5.

Definition dev_next {A} (l : list (dev_result A)) : dev_result A := default (DevError EIO) (head l).

(** [memcpy] of [bs] to the start of a buffer *)
Definition copy_to (buf bs : list Z) : option (list Z) :=
  if (length bs <=? length buf)%nat then Some (bs ++ drop (length bs) buf) else None.

Definition put_data (id : nat) (bs : list Z) : HM unit :=
  data ← hget hd_data;
  buf ← hopt (data !! id);
  new ← hopt (copy_to (default [] buf) bs);
  hmodify (fun s => set_hd_data s (<[id := (fun _ => new) <$> buf]> data)).

(** [comm_driver->get_report] into [data[id]], at most [r] bytes *)
Definition get_report (id r : Z) : HM Z :=
  res ← hget (fun s => dev_next (hd_get s));
  hmodify (fun s => set_hd_dev s (tail (hd_get s)) (hd_set s) (hd_int s) (hd_str s) (hd_out s ++ [GetReport id r]));;
  match res with
  | DevError e => mret (- Z.abs e)
  | DevData bs =>
      let bs := take (Z.to_nat r) bs in
      put_data (Z.to_nat id) bs;;
      mret (Z.of_nat (length bs))
  end.

Definition set_report (id : Z) (report : list Z) : HM Z :=
  res ← hget (fun s => default (- EIO) (head (hd_set s)));
  hmodify (fun s => set_hd_dev s (hd_get s) (tail (hd_set s)) (hd_int s) (hd_str s) (hd_out s ++ [SetReport id report]));;
  mret res.

Definition get_interrupt (r : Z) : HM (Z * list Z) :=
  res ← hget (fun s => dev_next (hd_int s));
  hmodify (fun s => set_hd_dev s (hd_get s) (hd_set s) (tail (hd_int s)) (hd_str s) (hd_out s ++ [GetInterrupt r]));;
  mret match res with
       | DevError e => (- Z.abs e, [])
       | DevData bs => let bs := take (Z.to_nat r) bs in (Z.of_nat (length bs), bs)
       end.

(** The string is stored with its NUL. *)
Definition get_string (index buflen : Z) : HM (Z * bytes) :=
  res ← hget (fun s => dev_next (hd_str s));
  hmodify (fun s => set_hd_dev s (hd_get s) (hd_set s) (hd_int s) (tail (hd_str s)) (hd_out s ++ [GetString index]));;
  mret match res with
       | DevError e => (- Z.abs e, [])
       | DevData str => let str := snprintf_s (Z.to_nat buflen) str in (Z.of_nat (length str), str)
       end.

(** ** The report buffer *)

(** The loop of [new_report_buffer] *)
Fixpoint alloc_reports (max_report_size : Z) (replen : list Z) (items : list HIDData)
    (b : list Z * list Z * list (option (list Z))) : option (list Z * list Z * list (option (list Z))) :=
  match items with
  | [] => Some b
  | pData :: items =>
      let '(len, cap, data) := b in
      let id := Z.to_nat (d_ReportID pData) in
      d ← data !! id;
      match d with
      | Some _ => alloc_reports max_report_size replen items b
      | None =>
          l ← replen !! id;
          let len := <[id := l + 1]> len in
          if l + 1 <? 1 then alloc_reports max_report_size replen items (len, cap, data)
          else
            let c := if max_report_size =? 0 then l + 1 else MAX_REPORT_ALLOC in
            alloc_reports max_report_size replen items (len, <[id := c]> cap, <[id := Some (replicate (Z.to_nat c) 0)]> data)
      end
  end.

Definition new_report_buffer : HM unit :=
  s ← hget id;
  '(len, cap, data) ← hopt (alloc_reports (hd_max_report_size s) (replen (hd_desc s))
     (take (nitems (hd_desc s)) (item (hd_desc s))) (replicate 256 0, replicate 256 0, replicate 256 None));
  hmodify (fun s => set_hd_buf s (replicate 256 0) len cap data).

(** The size that a transfer can have *)
Definition charbufsize (r limit : Z) : Z :=
  if r >? USB_CTRL_CHARBUFSIZE_MAX then Z.min (USB_CTRL_CHARBUFSIZE_MAX - 1) limit else r.

Definition set_errno (e : Z) : HM unit := hmodify (fun s => set_hd_errno s e).
Definition stamp (id : nat) (t : Z) : HM unit := hmodify (fun s => set_hd_ts s (<[id := t]> (hd_ts s))).

Definition refresh_report_buffer (pData : HIDData) (age : Z) : HM Z :=
  let id := Z.to_nat (d_ReportID pData) in
  only ← hget hd_interrupt_only;
  all ← hget hd_ts;
  ts ← hopt (all !! id);
  now ← hget hd_now;
  if negb ((only : Z) =? 0) || (ts + age >? now) then mret 0
  else
    caps ← hget hd_cap;
    cap ← hopt (caps !! id);
    ret ← get_report (d_ReportID pData) (charbufsize cap cap);
    if ret <=? 0 then set_errno (- ret);; mret (-1)
    else stamp id now;; mret 0.

(** [*Value] is there when 0 is returned. *)
Definition get_item_buffered (pData : HIDData) (age : Z) : HM (Z * option Z) :=
  r ← refresh_report_buffer pData age;
  if r <? 0 then mret (-1, None)
  else
    data ← hget hd_data;
    buf ← hopt (data !! Z.to_nat (d_ReportID pData));
    Value ← hopt (GetValue (default [] buf) pData);
    mret (0, Some Value).

Definition set_item_buffered (pData : HIDData) (Value : Z) : HM Z :=
  let id := Z.to_nat (d_ReportID pData) in
  lens ← hget hd_len;
  r ← hopt (lens !! id);
  data ← hget hd_data;
  buf ← hopt (data !! id);
  new ← hopt (SetValue pData (default [] buf) Value);
  hmodify (fun s => set_hd_data s (<[id := (fun _ => new) <$> buf]> data));;
  ret ← set_report (d_ReportID pData) (take (Z.to_nat (charbufsize r r)) new);
  if ret <=? 0 then mret (-1) else stamp id 0;; mret 0.

Definition file_report_buffer (buf : list Z) : HM Z :=
  first ← hopt (head buf);
  let id := Z.to_nat first in
  lens ← hget hd_len;
  len ← hopt (lens !! id);
  put_data id (take (Z.to_nat len) buf);;
  now ← hget hd_now;
  stamp id now;;
  mret 0.

(** ** Physical values *)

Definition HIDUnits : list (Z * Z) :=
  [(0x00000000, 0); (0x00F0D121, 7); (0x00100001, 0); (0x0000D121, 7); (0x0000D121, 7); (0x00001001, 0);
   (0x00010001, 0); (0x00000000, 0); (0x0000F001, 0); (0x00101001, 0)].

Definition get_unit_expo (d : HIDData) : Z :=
  match find (fun u => u.1 =? d_Unit d) HIDUnits with
  | Some u => wrapS 8 (d_UnitExp d - u.2)
  | None => d_UnitExp d
  end.

Fixpoint exponent_loop (a : double) (n : nat) : double :=
  match n with O => of_long 1 | S n => f64_mul a (exponent_loop a n) end.

Definition exponent (a : double) (b : Z) : double :=
  if 0 <? b then exponent_loop a (Z.to_nat b)
  else if b <? 0 then exponent_loop (f64_div (of_long 1) a) (Z.to_nat (- b))
  else of_long 1.

(** Both physical bounds are missing or zero, or a range is not one. *)
Definition no_physical (d : HIDData) : bool :=
  (d_have_PhyMax d =? 0) || (d_have_PhyMin d =? 0) || ((d_PhyMax d =? 0) && (d_PhyMin d =? 0)).
Definition bad_range (d : HIDData) : bool := (d_PhyMax d <=? d_PhyMin d) || (d_LogMax d <=? d_LogMin d).

Definition logical_to_physical (d : HIDData) (logical : Z) : double :=
  if no_physical d then of_long logical
  else if bad_range d then of_long logical
  else
    let Factor := f64_div (of_long (d_PhyMax d - d_PhyMin d)) (of_long (d_LogMax d - d_LogMin d)) in
    let physical := f64_add (f64_mul (of_long (logical - d_LogMin d)) Factor) (of_long (d_PhyMin d)) in
    if f64_lt (of_long (d_PhyMax d)) physical then of_long (d_PhyMax d)
    else if f64_lt physical (of_long (d_PhyMin d)) then of_long (d_PhyMin d)
    else physical.

(** [None] where a conversion to [long] is undefined *)
Definition physical_to_logical (d : HIDData) (physical : double) : option Z :=
  if no_physical d then to_long physical
  else if bad_range d then to_long physical
  else
    let Factor := f64_div (of_long (d_LogMax d - d_LogMin d)) (of_long (d_PhyMax d - d_PhyMin d)) in
    l ← to_long (f64_mul (f64_sub physical (of_long (d_PhyMin d))) Factor);
    let logical := l + d_LogMin d in
    Some (if logical >? d_LogMax d then d_LogMax d else if logical <? d_LogMin d then d_LogMin d else logical).

(** ** Paths *)

(** A usage table, and the NULL-terminated array of them *)
Definition usage_table : Type := list (bytes * Z).

Definition hid_lookup_usage (name : bytes) (utab : list usage_table) : option Z :=
  snd <$> find (fun e => strcaseeq e.1 name) (concat utab).

Definition hid_lookup_path (usage : Z) (utab : list usage_table) : option bytes :=
  fst <$> find (fun e => e.2 =? usage) (concat utab).

Definition PATH_NODES : nat := Z.to_nat PATH_SIZE.

(** The node that a component stands for, [None] for a typo *)
Definition path_node (token : bytes) (utab : list usage_table) : option Z :=
  match hid_lookup_usage token utab with
  | Some usage => Some (wrap32 usage)
  | None =>
      if strspn_all token ($"1234567890abcdefABCDEF") then
        let l := (strtol token 16).1.1 in
        if (l <? 0) || (l >? UINT_MAX) then None else Some l
      else if strspn_all token ($"[1234567890]") then
        let l := atoi (tail token) in
        if (l <? 0) || (l >? UINT_MAX) then None else Some (wrap32 (0x00ff0000 + l))
      else None
  end.

(** The loop over the components; [None] when a node is stored after the end of [Node]. *)
Fixpoint path_loop (tokens : list bytes) (utab : list usage_table) (path : list Z) : option (list Z) :=
  match tokens with
  | [] => Some path
  | token :: tokens =>
      match path_node token utab with
      | Some n => if (length path <? PATH_NODES)%nat then path_loop tokens utab (path ++ [n]) else None
      | None => path_loop tokens utab path
      end
  end.

Definition string_to_path (string : bytes) (utab : list usage_table) : option (list Z) :=
  path_loop (strtok_words (chr 46) [] (snprintf_s SMALLBUF string)) utab [].

(** [%0nx] *)
Definition hex_lower (z : Z) : ascii := if z <? 10 then chr (48 + z) else chr (87 + z).
Fixpoint show_hex (n : nat) (z : Z) : bytes :=
  match n with O => [] | S n => show_hex n (z / 16) ++ [hex_lower (z mod 16)] end.

(** The text of a node *)
Definition node_text (node : Z) (utab : option (list usage_table)) : bytes :=
  match utab ≫= hid_lookup_path node with
  | Some p => p
  | None =>
      if Z.land node 0xffff0000 =? 0x00ff0000 then $"[" ++ show_Z (Z.land node 0x0000ffff) ++ $"]"
      else show_hex 8 node
  end.

Fixpoint print_loop (string : bytes) (size : nat) (i : nat) (path : list Z) (utab : option (list usage_table)) : bytes :=
  match path with
  | [] => string
  | node :: path =>
      let string := if (0 <? i)%nat then snprintfcat string size ($".") else string in
      print_loop (snprintfcat string size (node_text node utab)) size (S i) path utab
  end.

Definition path_to_string (size : nat) (path : list Z) (utab : option (list usage_table)) : bytes :=
  print_loop [] size 0 path utab.

(** ** The interface of the drivers *)

Definition HIDDataType (d : HIDData) : bytes :=
  if d_Type d =? ITEM_FEATURE then $"Feature"
  else if d_Type d =? ITEM_INPUT then $"Input"
  else if d_Type d =? ITEM_OUTPUT then $"Output"
  else $"Unknown".

Definition HIDGetItemData (hidpath : bytes) (utab : list usage_table) : HM (option HIDData) :=
  path ← hopt (string_to_path hidpath utab);
  desc ← hget hd_desc;
  only ← hget hd_interrupt_only;
  if (length path =? 0)%nat then mret None
  else mret (FindObject_with_Path (item desc) path (Z.of_nat (length path))
               (if (only : Z) =? 0 then ITEM_FEATURE else ITEM_INPUT)).

Definition HIDGetDataItem (d : HIDData) (utab : option (list usage_table)) : bytes :=
  path_to_string 128 (take (Z.to_nat (d_path_size d)) (d_path d)) utab.

(** [*Value] is there when 1 is returned. *)
Definition HIDGetDataValue (hiddata : option HIDData) (age : Z) : HM (Z * option double) :=
  match hiddata with
  | None => mret (0, None)
  | Some d =>
      '(r, hValue) ← get_item_buffered d age;
      match hValue with
      | None => e ← hget hd_errno; mret (- e, None)
      | Some hValue =>
          mret (1, Some (f64_mul (logical_to_physical d hValue) (exponent (of_long 10) (get_unit_expo d))))
      end
  end.

Definition HIDGetItemValue (hidpath : bytes) (utab : list usage_table) : HM (Z * option double) :=
  d ← HIDGetItemData hidpath utab;
  HIDGetDataValue d MAX_TS.

Definition HIDGetIndexString (Index : Z) (buflen : Z) : HM (option bytes) :=
  if (Index >? USB_CTRL_STRINDEX_MAX) || (Index <? 0) then mret None
  else
    let buflen := if buflen >? USB_CTRL_CHARBUFSIZE_MAX then USB_CTRL_CHARBUFSIZE_MAX - 1 else buflen in
    '(ret, buf) ← get_string Index buflen;
    mret (Some (str_rtrim (if (ret : Z) <? 1 then [] else buf) LF)).

Definition HIDGetItemString (hidpath : bytes) (buflen : Z) (utab : list usage_table) : HM (option bytes) :=
  d ← HIDGetItemData hidpath utab;
  '(ret, Index) ← HIDGetDataValue d MAX_TS;
  match Index with
  | Some Index => i ← hopt (to_int 32 Index); HIDGetIndexString i buflen
  | None => mret (Some [])
  end.

Definition HIDSetDataValue (hiddata : option HIDData) (Value : double) : HM Z :=
  match hiddata with
  | None => mret 0
  | Some d =>
      if d_Attribute d =? ATTR_DATA_CST then mret 0
      else
        hValue ← hopt (physical_to_logical d (f64_div Value (exponent (of_long 10) (get_unit_expo d))));
        r ← set_item_buffered d hValue;
        if r <? 0 then e ← hget hd_errno; mret (- e)
        else hmodify (fun s => set_hd_ts s (replicate 256 0));; mret 1
  end.

Definition HIDSetItemValue (hidpath : bytes) (Value : double) (utab : list usage_table) : HM bool :=
  d ← HIDGetItemData hidpath utab;
  r ← HIDSetDataValue d Value;
  mret (r =? 1).

(** The loop over the items of the report [id] *)
Fixpoint collect_events (items : list HIDData) (id : Z) (eventsize : nat) (event : list HIDData) : list HIDData :=
  match items with
  | [] => event
  | pData :: items =>
      if negb (d_ReportID pData =? id) then collect_events items id eventsize event
      else if negb (d_Type pData =? ITEM_INPUT) then collect_events items id eventsize event
      else if (eventsize <=? length event)%nat then event
      else collect_events items id eventsize (event ++ [pData])
  end.

Definition HIDGetEvents (eventsize : nat) : HM (Z * list HIDData) :=
  size ← hget hd_interrupt_size;
  let r := if (0 <? size) && (size <? Z.of_nat SMALLBUF) then size else Z.of_nat SMALLBUF in
  '(buflen, buf) ← get_interrupt (charbufsize r (Z.of_nat SMALLBUF));
  if (buflen : Z) <=? 0 then mret (buflen, [])
  else
    ret ← file_report_buffer buf;
    if ret <? 0 then e ← hget hd_errno; mret (- e, [])
    else
      desc ← hget hd_desc;
      let event := collect_events (item desc) (default 0 (head buf)) eventsize [] in
      mret (Z.of_nat (length event), event).

(** Which reports a dump leaves out *)
Definition dump_skips (vendorID productID : Z) (d : HIDData) : bool :=
  (((vendorID =? 0x0463) || (vendorID =? 0x047c)) && ((d_ReportID d =? 254) || (d_ReportID d =? 255)))
  || ((vendorID =? 0x09ae) && (productID =? 0x1330) && (d_ReportID d =? 0x54)).

Fixpoint dump_items (vendorID productID : Z) (items : list HIDData) : HM unit :=
  match items with
  | [] => mret tt
  | d :: items =>
      (if dump_skips vendorID productID d then mret tt else HIDGetDataValue (Some d) MAX_TS;; mret tt);;
      dump_items vendorID productID items
  end.

Definition HIDDumpTree (nut_debug_level vendorID productID : Z) : HM unit :=
  desc ← hget hd_desc;
  if nut_debug_level <? 1 then mret tt else dump_items vendorID productID (item desc).

(** ** The usage table of the HID class definition *)

Definition hid_usage_lkp : usage_table := [
    ($"Undefined", 0x00840000); ($"iName", 0x00840001);
    ($"PresentStatus", 0x00840002); ($"ChangedStatus", 0x00840003);
    ($"UPS", 0x00840004); ($"PowerSupply", 0x00840005);
    ($"BatterySystem", 0x00840010); ($"BatterySystemID", 0x00840011);
    ($"Battery", 0x00840012); ($"BatteryID", 0x00840013);
    ($"Charger", 0x00840014); ($"ChargerID", 0x00840015);
    ($"PowerConverter", 0x00840016); ($"PowerConverterID", 0x00840017);
    ($"OutletSystem", 0x00840018); ($"OutletSystemID", 0x00840019);
    ($"Input", 0x0084001a); ($"InputID", 0x0084001b);
    ($"Output", 0x0084001c); ($"OutputID", 0x0084001d);
    ($"Flow", 0x0084001e); ($"FlowID", 0x0084001f);
    ($"Outlet", 0x00840020); ($"OutletID", 0x00840021);
    ($"Gang", 0x00840022); ($"GangID", 0x00840023);
    ($"PowerSummary", 0x00840024); ($"PowerSummaryID", 0x00840025);
    ($"Voltage", 0x00840030); ($"Current", 0x00840031);
    ($"Frequency", 0x00840032); ($"ApparentPower", 0x00840033);
    ($"ActivePower", 0x00840034); ($"PercentLoad", 0x00840035);
    ($"Temperature", 0x00840036); ($"Humidity", 0x00840037);
    ($"BadCount", 0x00840038); ($"ConfigVoltage", 0x00840040);
    ($"ConfigCurrent", 0x00840041); ($"ConfigFrequency", 0x00840042);
    ($"ConfigApparentPower", 0x00840043); ($"ConfigActivePower", 0x00840044);
    ($"ConfigPercentLoad", 0x00840045); ($"ConfigTemperature", 0x00840046);
    ($"ConfigHumidity", 0x00840047); ($"SwitchOnControl", 0x00840050);
    ($"SwitchOffControl", 0x00840051); ($"ToggleControl", 0x00840052);
    ($"LowVoltageTransfer", 0x00840053); ($"HighVoltageTransfer", 0x00840054);
    ($"DelayBeforeReboot", 0x00840055); ($"DelayBeforeStartup", 0x00840056);
    ($"DelayBeforeShutdown", 0x00840057); ($"Test", 0x00840058);
    ($"ModuleReset", 0x00840059); ($"AudibleAlarmControl", 0x0084005a);
    ($"Present", 0x00840060); ($"Good", 0x00840061);
    ($"InternalFailure", 0x00840062); ($"VoltageOutOfRange", 0x00840063);
    ($"FrequencyOutOfRange", 0x00840064); ($"Overload", 0x00840065);
    ($"OverCharged", 0x00840066); ($"OverTemperature", 0x00840067);
    ($"ShutdownRequested", 0x00840068); ($"ShutdownImminent", 0x00840069);
    ($"SwitchOn/Off", 0x0084006b); ($"Switchable", 0x0084006c);
    ($"Used", 0x0084006d); ($"Boost", 0x0084006e);
    ($"Buck", 0x0084006f); ($"Initialized", 0x00840070);
    ($"Tested", 0x00840071); ($"AwaitingPower", 0x00840072);
    ($"CommunicationLost", 0x00840073); ($"iManufacturer", 0x008400fd);
    ($"iProduct", 0x008400fe); ($"iSerialNumber", 0x008400ff);
    ($"Undefined", 0x00850000); ($"SMBBatteryMode", 0x00850001);
    ($"SMBBatteryStatus", 0x00850002); ($"SMBAlarmWarning", 0x00850003);
    ($"SMBChargerMode", 0x00850004); ($"SMBChargerStatus", 0x00850005);
    ($"SMBChargerSpecInfo", 0x00850006); ($"SMBSelectorState", 0x00850007);
    ($"SMBSelectorPresets", 0x00850008); ($"SMBSelectorInfo", 0x00850009);
    ($"OptionalMfgFunction1", 0x00850010); ($"OptionalMfgFunction2", 0x00850011);
    ($"OptionalMfgFunction3", 0x00850012); ($"OptionalMfgFunction4", 0x00850013);
    ($"OptionalMfgFunction5", 0x00850014); ($"ConnectionToSMBus", 0x00850015);
    ($"OutputConnection", 0x00850016); ($"ChargerConnection", 0x00850017);
    ($"BatteryInsertion", 0x00850018); ($"Usenext", 0x00850019);
    ($"OKToUse", 0x0085001a); ($"BatterySupported", 0x0085001b);
    ($"SelectorRevision", 0x0085001c); ($"ChargingIndicator", 0x0085001d);
    ($"ManufacturerAccess", 0x00850028); ($"RemainingCapacityLimit", 0x00850029);
    ($"RemainingTimeLimit", 0x0085002a); ($"AtRate", 0x0085002b);
    ($"CapacityMode", 0x0085002c); ($"BroadcastToCharger", 0x0085002d);
    ($"PrimaryBattery", 0x0085002e); ($"ChargeController", 0x0085002f);
    ($"TerminateCharge", 0x00850040); ($"TerminateDischarge", 0x00850041);
    ($"BelowRemainingCapacityLimit", 0x00850042); ($"RemainingTimeLimitExpired", 0x00850043);
    ($"Charging", 0x00850044); ($"Discharging", 0x00850045);
    ($"FullyCharged", 0x00850046); ($"FullyDischarged", 0x00850047);
    ($"ConditioningFlag", 0x00850048); ($"AtRateOK", 0x00850049);
    ($"SMBErrorCode", 0x0085004a); ($"NeedReplacement", 0x0085004b);
    ($"AtRateTimeToFull", 0x00850060); ($"AtRateTimeToEmpty", 0x00850061);
    ($"AverageCurrent", 0x00850062); ($"Maxerror", 0x00850063);
    ($"RelativeStateOfCharge", 0x00850064); ($"AbsoluteStateOfCharge", 0x00850065);
    ($"RemainingCapacity", 0x00850066); ($"FullChargeCapacity", 0x00850067);
    ($"RunTimeToEmpty", 0x00850068); ($"AverageTimeToEmpty", 0x00850069);
    ($"AverageTimeToFull", 0x0085006a); ($"CycleCount", 0x0085006b);
    ($"BattPackModelLevel", 0x00850080); ($"InternalChargeController", 0x00850081);
    ($"PrimaryBatterySupport", 0x00850082); ($"DesignCapacity", 0x00850083);
    ($"SpecificationInfo", 0x00850084); ($"ManufacturerDate", 0x00850085);
    ($"SerialNumber", 0x00850086); ($"iManufacturerName", 0x00850087);
    ($"iDevicename", 0x00850088); ($"iDeviceChemistry", 0x00850089);
    ($"ManufacturerData", 0x0085008a); ($"Rechargeable", 0x0085008b);
    ($"WarningCapacityLimit", 0x0085008c); ($"CapacityGranularity1", 0x0085008d);
    ($"CapacityGranularity2", 0x0085008e); ($"iOEMInformation", 0x0085008f);
    ($"InhibitCharge", 0x008500c0); ($"EnablePolling", 0x008500c1);
    ($"ResetToZero", 0x008500c2); ($"ACPresent", 0x008500d0);
    ($"BatteryPresent", 0x008500d1); ($"PowerFail", 0x008500d2);
    ($"AlarmInhibited", 0x008500d3); ($"ThermistorUnderRange", 0x008500d4);
    ($"ThermistorHot", 0x008500d5); ($"ThermistorCold", 0x008500d6);
    ($"ThermistorOverRange", 0x008500d7); ($"VoltageOutOfRange", 0x008500d8);
    ($"CurrentOutOfRange", 0x008500d9); ($"CurrentNotRegulated", 0x008500da);
    ($"VoltageNotRegulated", 0x008500db); ($"MasterMode", 0x008500dc);
    ($"ChargerSelectorSupport", 0x008500f0); ($"ChargerSpec", 0x008500f1);
    ($"Level2", 0x008500f2); ($"Level3", 0x008500f3)].
