(* ===== verification/LibHidFacts.v ===== *)
(** * Reports: safety, caching and round trips

    With the descriptor that the parser made, whatever the device answers, every access of libhid is inside its buffers; a
    value that was set is read back; and paths that were printed are parsed back. *)

From S2P Require Import Prelude CStr StrUtil NumFacts HidParser HidFacts HidSafe Float64 LibHid.
From stdpp Require Import options.

(** ** Rules *)

Definition hwp {A} (m : HM A) (Q : A -> hidst -> Prop) (s : hidst) : Prop :=
  match m s with Some (a, s') => Q a s' | None => False end.

Lemma hwp_ret {A} (a : A) (Q : A -> hidst -> Prop) s : Q a s -> hwp (mret a) Q s.
Proof. done. Qed.

Lemma hwp_bind {A B} (m : HM A) (f : A -> HM B) Q s : hwp m (fun a => hwp (f a) Q) s -> hwp (m ≫= f) Q s.
Proof. unfold hwp, mbind, HM_bind. cbn. by destruct (m s) as [[a s']|]. Qed.

Lemma hwp_mono {A} (m : HM A) (P Q : A -> hidst -> Prop) s :
  hwp m P s -> (forall a s', P a s' -> Q a s') -> hwp m Q s.
Proof. unfold hwp. destruct (m s) as [[a s']|]; auto. Qed.

Lemma hwp_get {A} (f : hidst -> A) (Q : A -> hidst -> Prop) s : Q (f s) s -> hwp (hget f) Q s.
Proof. done. Qed.

Lemma hwp_modify f (Q : unit -> hidst -> Prop) s : Q tt (f s) -> hwp (hmodify f) Q s.
Proof. done. Qed.

Lemma hwp_opt {A} (o : option A) a (Q : A -> hidst -> Prop) s : o = Some a -> Q a s -> hwp (hopt o) Q s.
Proof. by intros ->. Qed.

(** ** Fields inside a buffer *)

Lemma get_bits_total n buf bit w v :
  0 <= bit -> bit + Z.of_nat n <= 8 * Z.of_nat (length buf) -> is_Some (get_bits buf bit n w v).
Proof.
  revert bit w v. induction n as [|n IH]; intros bit w v Hb Hl; cbn [get_bits]; [by eexists|].
  destruct (lookup_lt_is_Some_2 buf (Z.to_nat (Z.shiftr bit 3))) as [b Eb].
  { rewrite Z.shiftr_div_pow2 by lia. change (2 ^ 3) with 8. Z.to_euclidean_division_equations. lia. }
  rewrite Eb. cbn [mbind option_bind]. apply IH; lia.
Qed.

Lemma set_bits_total n buf bit w v :
  0 <= bit -> bit + Z.of_nat n <= 8 * Z.of_nat (length buf) -> is_bytes buf ->
  exists buf', set_bits buf bit n w v = Some buf' /\ length buf' = length buf /\ is_bytes buf'.
Proof.
  revert buf bit w. induction n as [|n IH]; intros buf bit w Hb Hl Hby; cbn [set_bits]; [by eexists|].
  destruct (byte_lookup buf bit) as [b Eb]; [lia|]. rewrite Eb. cbn [mbind option_bind].
  match goal with |- context [set_bits (<[?i := ?x]> buf) _ _ _ _] => set (b1 := x); set (buf1 := <[i := b1]> buf) end.
  assert (length buf1 = length buf) as Hlen by apply length_insert.
  destruct (IH buf1 (bit + 1) (w + 1)) as (buf' & E & Hl' & Hby'); [lia|rewrite Hlen; lia| |].
  - apply Forall_insert; [done|]. unfold b1. case_match; by apply (wrapU_range 8).
  - exists buf'. split_and!; [done|congruence|done].
Qed.

(** The bits of the item are in a report of [len] bytes, the first of which is the ID. *)
Definition inside (d : HIDData) (len : Z) : Prop := 0 <= d_Offset d /\ 0 <= d_Size d /\ d_Offset d + 8 + d_Size d <= 8 * len.

Lemma GetValue_total d buf len : inside d len -> len <= Z.of_nat (length buf) -> is_Some (GetValue buf d).
Proof.
  intros (Ho & Hs & Hl) Hlen. unfold GetValue.
  destruct (get_bits_total (Z.to_nat (d_Size d)) buf (d_Offset d + 8) 0 0) as [v ->]; [lia|lia|]. cbn. by eexists.
Qed.

Lemma inside_field d (buf : list Z) len :
  inside d len -> len <= Z.of_nat (length buf) -> d_Size d <= 63 -> field_inside d (length buf).
Proof. unfold inside, field_inside. lia. Qed.

Lemma SetValue_total d buf len v :
  inside d len -> len <= Z.of_nat (length buf) -> is_bytes buf ->
  exists buf', SetValue d buf v = Some buf' /\ length buf' = length buf /\ is_bytes buf'.
Proof. intros (Ho & Hs & Hl) Hlen Hby. unfold SetValue. apply set_bits_total; [lia|lia|done]. Qed.

(** ** The invariant of the report buffer *)

(** A slot of the buffer: nothing is allocated for IDs that the descriptor does not have. *)
Definition slot_ok (len cap : Z) (data : option (list Z)) : Prop :=
  match data with
  | Some buf => 1 <= len <= cap /\ cap <= 256 /\ Z.of_nat (length buf) = cap /\ is_bytes buf
  | None => len = 0 /\ cap = 0
  end.

(** The item has its slot. *)
Definition has_slot (lens : list Z) (datas : list (option (list Z))) (d : HIDData) : Prop :=
  exists len buf, lens !! Z.to_nat (d_ReportID d) = Some len /\ datas !! Z.to_nat (d_ReportID d) = Some (Some buf)
    /\ inside d len.

Record slots_ok (lens caps : list Z) (datas : list (option (list Z))) : Prop := {
  so_len : length lens = 256%nat;
  so_cap : length caps = 256%nat;
  so_data : length datas = 256%nat;
  so_slots : forall i l c x, lens !! i = Some l -> caps !! i = Some c -> datas !! i = Some x -> slot_ok l c x
}.

Definition dev_bytes (r : dev_result (list Z)) : Prop := match r with DevData bs => is_bytes bs | DevError _ => True end.

Record buf_ok (s : hidst) : Prop := {
  bo_desc : desc_ok (hd_desc s);
  bo_ts : length (hd_ts s) = 256%nat;
  bo_slots : slots_ok (hd_len s) (hd_cap s) (hd_data s);
  bo_items : Forall (has_slot (hd_len s) (hd_data s)) (item (hd_desc s));
  bo_get : Forall dev_bytes (hd_get s);
  bo_int : Forall dev_bytes (hd_int s)
}.

(** ** Allocation *)

Lemma lookup_256 {A} (l : list A) i : length l = 256%nat -> 0 <= i < 256 -> exists x, l !! Z.to_nat i = Some x.
Proof. intros Hl Hi. destruct (lookup_lt_is_Some_2 l (Z.to_nat i)) as [x Hx]; [lia|by exists x]. Qed.

Lemma slots_insert lens caps datas i l c x :
  slots_ok lens caps datas -> slot_ok l c x -> slots_ok (<[i := l]> lens) (<[i := c]> caps) (<[i := x]> datas).
Proof.
  intros [H1 H2 H3 H4] Hx. split; rewrite ?length_insert; try done. intros j l' c' x' Hl Hc Hd.
  destruct (decide (i = j)) as [<-|Hne].
  - apply list_lookup_insert_Some in Hl as [(_ & <- & Hlt)|(? & ?)]; [|done].
    apply list_lookup_insert_Some in Hc as [(_ & <- & _)|(? & ?)]; [|done].
    by apply list_lookup_insert_Some in Hd as [(_ & <- & _)|(? & ?)].
  - rewrite list_lookup_insert_ne in Hl by done. rewrite list_lookup_insert_ne in Hc by done.
    rewrite list_lookup_insert_ne in Hd by done. by apply (H4 j).
Qed.

Lemma alloc_reports_ok max replen items : forall lens caps datas,
  length replen = 256%nat -> Forall (fun l => 0 <= l <= 64) replen -> Forall (object_ok replen) items ->
  slots_ok lens caps datas ->
  (forall i l x, lens !! i = Some l -> datas !! i = Some (Some x) -> exists r, replen !! i = Some r /\ l = r + 1) ->
  exists lens' caps' datas', alloc_reports max replen items (lens, caps, datas) = Some (lens', caps', datas')
    /\ slots_ok lens' caps' datas'
    /\ (forall i x, datas !! i = Some (Some x) -> lens' !! i = lens !! i /\ datas' !! i = datas !! i)
    /\ Forall (has_slot lens' datas') items.
Proof.
  induction items as [|d items IH]; intros lens caps datas Hr H64 Ho Hs Hl; cbn [alloc_reports].
  { exists lens, caps, datas. by split_and!. }
  apply Forall_cons in Ho as [Hd Ho]. pose proof Hd as ([_ _ Hid Hoff Hsize] & _ & (r & Er & Hcov)).
  set (i := Z.to_nat (d_ReportID d)) in *.
  destruct (lookup_256 datas (d_ReportID d) (so_data _ _ _ Hs) Hid) as [x Ex]. fold i in Ex. rewrite Ex. cbn [mbind option_bind].
  destruct (lookup_256 lens (d_ReportID d) (so_len _ _ _ Hs) Hid) as [l El]. fold i in El.
  assert (forall lens' datas' buf, lens' !! i = Some (r + 1) -> datas' !! i = Some (Some buf) -> has_slot lens' datas' d) as Hslot.
  { intros lens' datas' buf E1 E2. exists (r + 1), buf. split_and!; [done|done|]. unfold inside. lia. }
  destruct x as [buf|].
  - destruct (Hl i l buf El Ex) as (r' & Er' & ->). assert (r' = r) as -> by congruence.
    destruct (IH lens caps datas Hr H64 Ho Hs Hl) as (lens' & caps' & datas' & E & Hs' & Hk & Hitems).
    exists lens', caps', datas'. split_and!; [done..|]. apply Forall_cons. split; [|done].
    destruct (Hk i buf Ex) as [Ek1 Ek2]. apply (Hslot _ _ buf); congruence.
  - rewrite Er. cbn [mbind option_bind]. rewrite Forall_lookup in H64. pose proof (H64 i r Er) as Hr64.
    assert (r + 1 <? 1 = false) as -> by (apply Z.ltb_ge; lia).
    set (c := if max =? 0 then r + 1 else MAX_REPORT_ALLOC).
    assert (r + 1 <= c <= 256) as Hc by (unfold c, MAX_REPORT_ALLOC; case_match; lia).
    destruct (IH (<[i := r + 1]> lens) (<[i := c]> caps) (<[i := Some (replicate (Z.to_nat c) 0)]> datas))
      as (lens' & caps' & datas' & E & Hs' & Hk & Hitems); [done|by apply Forall_lookup|done| | |].
    + apply slots_insert; [done|]. simpl. rewrite length_replicate. split_and!; [lia..|]. apply Forall_replicate. lia.
    + intros j l' x' Hl' Hx'. destruct (decide (i = j)) as [<-|Hne].
      * rewrite list_lookup_insert_eq in Hl' by (rewrite (so_len _ _ _ Hs); lia). injection Hl' as <-. by exists r.
      * rewrite list_lookup_insert_ne in Hl' by done. rewrite list_lookup_insert_ne in Hx' by done. by eapply Hl.
    + exists lens', caps', datas'. split_and!; [done|done| |].
      * intros j x' Hx'. assert (i <> j) as Hne by congruence.
        destruct (Hk j x') as [E1 E2]; [by rewrite list_lookup_insert_ne|]. rewrite E1, E2.
        by rewrite !list_lookup_insert_ne.
      * apply Forall_cons. split; [|done].
        destruct (Hk i (replicate (Z.to_nat c) 0)) as [E1 E2]; [rewrite list_lookup_insert_eq; [done|rewrite (so_data _ _ _ Hs); lia]|].
        rewrite list_lookup_insert_eq in E1 by (rewrite (so_len _ _ _ Hs); lia).
        rewrite list_lookup_insert_eq in E2 by (rewrite (so_data _ _ _ Hs); lia). by eapply Hslot.
Qed.

(** ** Every operation keeps the invariant *)

Definition hkeep (s s' : hidst) : Prop := buf_ok s' /\ hd_desc s' = hd_desc s.

Lemma hkeep_refl s : buf_ok s -> hkeep s s.
Proof. by split. Qed.

Lemma hkeep_trans s1 s2 s3 : hkeep s1 s2 -> hkeep s2 s3 -> hkeep s1 s3.
Proof. intros [? ?] [? ?]. split; [done|congruence]. Qed.

Lemma dev_tail l : Forall dev_bytes l -> Forall dev_bytes (tail l).
Proof. by destruct 1. Qed.

Lemma dev_head l : Forall dev_bytes l -> dev_bytes (dev_next l).
Proof. unfold dev_next. by destruct 1. Qed.

(** Another content of a slot, of the same length *)
Lemma buf_ok_data s i x x' :
  buf_ok s -> hd_data s !! i = Some x ->
  match x, x' with Some buf, Some buf' => length buf' = length buf /\ (is_bytes buf -> is_bytes buf') | None, None => True | _, _ => False end ->
  hkeep s (set_hd_data s (<[i := x']> (hd_data s))).
Proof.
  intros [H1 H2 H3 H4 H5 H6] Hx Hm. split; [|done]. split; cbn; try done.
  - destruct H3 as [S1 S2 S3 S4]. split; rewrite ?length_insert; try done. intros j l c y Hl Hc Hy.
    apply list_lookup_insert_Some in Hy as [(<- & <- & _)|(? & Hy)]; [|by apply (S4 j)].
    pose proof (S4 _ l c x Hl Hc Hx) as Hs. unfold slot_ok in *. destruct x, x'; try done. destruct Hm as [-> Hby]. destruct Hs as (? & ? & ? & Hb). split_and!; auto; lia.
  - eapply Forall_impl; [exact H4|]. intros d (len & buf & E1 & E2 & Hin).
    destruct (decide (i = Z.to_nat (d_ReportID d))) as [->|Hne].
    + assert (x = Some buf) as -> by congruence. destruct x' as [buf'|]; [|done]. exists len, buf'. split_and!; [done| |done].
      apply list_lookup_insert_eq. by eapply lookup_lt_Some.
    + exists len, buf. by rewrite list_lookup_insert_ne.
Qed.

Lemma put_data_keep s i x bs :
  buf_ok s -> hd_data s !! i = Some x -> (length bs <= length (default [] x))%nat -> is_bytes bs ->
  hwp (put_data i bs) (fun _ s' => hkeep s s') s.
Proof.
  intros Hs Hx Hl Hby. unfold put_data. apply hwp_bind, hwp_get, hwp_bind. eapply hwp_opt; [exact Hx|]. apply hwp_bind.
  eapply hwp_opt; [unfold copy_to; by rewrite (proj2 (Nat.leb_le _ _) Hl)|]. apply hwp_modify.
  eapply buf_ok_data; [done|exact Hx|]. destruct x as [buf|]; [|done]. simpl in *. split; [rewrite length_app, length_drop; lia|]. intros Hb. apply Forall_app. split; [done|by apply Forall_drop].
Qed.

(** The slot of an item *)
Lemma item_slot s d :
  buf_ok s -> d ∈ item (hd_desc s) ->
  exists len cap buf, hd_len s !! Z.to_nat (d_ReportID d) = Some len /\ hd_cap s !! Z.to_nat (d_ReportID d) = Some cap
    /\ hd_data s !! Z.to_nat (d_ReportID d) = Some (Some buf) /\ slot_ok len cap (Some buf) /\ inside d len
    /\ 0 <= d_ReportID d < 256.
Proof.
  intros [H1 H2 H3 H4 _ _] Hd. rewrite Forall_forall in H4. destruct (H4 d Hd) as (len & buf & E1 & E2 & Hin).
  pose proof (de_objects _ H1) as Ho. rewrite Forall_forall in Ho. destruct (Ho d Hd) as ([_ _ Hid _ _] & _).
  destruct (lookup_256 (hd_cap s) (d_ReportID d) (so_cap _ _ _ H3) Hid) as [c Ec].
  exists len, c, buf. split_and!; try done; try apply Hid. by apply (so_slots _ _ _ H3 (Z.to_nat (d_ReportID d))).
Qed.

Lemma charbufsize_le r l : charbufsize r l <= Z.max r l /\ (r <= l -> charbufsize r l <= l).
Proof. unfold charbufsize, USB_CTRL_CHARBUFSIZE_MAX. case_match; lia. Qed.

Lemma buf_ok_same s s' :
  buf_ok s -> hd_desc s' = hd_desc s -> length (hd_ts s') = length (hd_ts s) -> hd_len s' = hd_len s -> hd_cap s' = hd_cap s ->
  hd_data s' = hd_data s -> Forall dev_bytes (hd_get s') -> Forall dev_bytes (hd_int s') -> hkeep s s'.
Proof.
  intros [H1 H2 H3 H4 _ _] E1 E2 E3 E4 E5 E6 E7. split; [|done].
  split; rewrite ?E1, ?E2, ?E3, ?E4, ?E5; done.
Qed.

Lemma stamp_keep s i t : buf_ok s -> hwp (stamp i t) (fun _ s' => hkeep s s') s.
Proof.
  intros Hs. apply hwp_modify. apply buf_ok_same; try done; [cbn; by rewrite length_insert|apply Hs..].
Qed.

(** The device writes at most [r] bytes. *)
Lemma get_report_keep s id r len cap buf :
  buf_ok s -> hd_data s !! Z.to_nat id = Some (Some buf) -> slot_ok len cap (Some buf) -> r <= cap ->
  hwp (get_report id r) (fun _ s' => hkeep s s') s.
Proof.
  intros Hs Hb (_ & _ & Hcap & _) Hr. unfold get_report. apply hwp_bind, hwp_get, hwp_bind, hwp_modify.
  set (s1 := set_hd_dev _ _ _ _ _ _). assert (hkeep s s1) as H1
    by (apply buf_ok_same; try done; [apply dev_tail|]; apply Hs).
  pose proof (dev_head _ (bo_get _ Hs)) as Hdev. destruct (dev_next (hd_get s)) as [e|bs]; [by apply hwp_ret|].
  apply hwp_bind. eapply hwp_mono.
  - apply (put_data_keep s1 (Z.to_nat id) (Some buf)); [apply H1|done| |by apply Forall_take].
    simpl. rewrite length_take. lia.
  - intros [] s2 H2. apply hwp_ret. exact (hkeep_trans _ _ _ H1 H2).
Qed.

Lemma refresh_keep s d age :
  buf_ok s -> d ∈ item (hd_desc s) -> hwp (refresh_report_buffer d age) (fun _ s' => hkeep s s') s.
Proof.
  intros Hs Hd. destruct (item_slot s d Hs Hd) as (len & cap & buf & El & Ec & Eb & Hslot & Hin & Hid).
  unfold refresh_report_buffer. apply hwp_bind, hwp_get, hwp_bind, hwp_get, hwp_bind.
  destruct (lookup_256 (hd_ts s) (d_ReportID d) (bo_ts _ Hs) Hid) as [t Et]. eapply hwp_opt; [exact Et|].
  apply hwp_bind, hwp_get. case_match; [by apply hwp_ret, hkeep_refl|].
  apply hwp_bind, hwp_get, hwp_bind. eapply hwp_opt; [exact Ec|]. apply hwp_bind. eapply hwp_mono.
  - eapply get_report_keep; [done|exact Eb|exact Hslot|]. by apply charbufsize_le.
  - intros r s1 H1. cbv beta in H1. case_match.
    + apply hwp_bind, hwp_modify, hwp_ret. eapply hkeep_trans; [exact H1|]. apply buf_ok_same; try done; apply H1.
    + apply hwp_bind. eapply hwp_mono; [apply stamp_keep, H1|]. intros [] s2 H2. apply hwp_ret. exact (hkeep_trans _ _ _ H1 H2).
Qed.

Lemma get_item_keep s d age :
  buf_ok s -> d ∈ item (hd_desc s) -> hwp (get_item_buffered d age) (fun _ s' => hkeep s s') s.
Proof.
  intros Hs Hd. unfold get_item_buffered. apply hwp_bind. eapply hwp_mono; [by apply refresh_keep|].
  intros r s1 H1. cbv beta in H1. case_match; [by apply hwp_ret|]. pose proof H1 as [Hs1 Ed].
  destruct (item_slot s1 d Hs1) as (len & cap & buf & El & Ec & Eb & (Hlen & _ & Hcap & Hby) & Hin & Hid); [by rewrite Ed|].
  apply hwp_bind, hwp_get, hwp_bind. eapply hwp_opt; [exact Eb|]. apply hwp_bind.
  destruct (GetValue_total d buf len Hin) as [v Ev]; [lia|]. eapply hwp_opt; [exact Ev|]. by apply hwp_ret.
Qed.

Lemma get_value_keep s d age :
  buf_ok s -> d ∈ item (hd_desc s) -> hwp (HIDGetDataValue (Some d) age) (fun _ s' => hkeep s s') s.
Proof.
  intros Hs Hd. cbn [HIDGetDataValue]. apply hwp_bind. eapply hwp_mono; [by apply get_item_keep|].
  intros [r [v|]] s1 H1; cbv beta in H1; [by apply hwp_ret|]. by apply hwp_bind, hwp_get, hwp_ret.
Qed.

Lemma set_item_keep s d v :
  buf_ok s -> d ∈ item (hd_desc s) -> hwp (set_item_buffered d v) (fun _ s' => hkeep s s') s.
Proof.
  intros Hs Hd. destruct (item_slot s d Hs Hd) as (len & cap & buf & El & Ec & Eb & (Hlen & _ & Hcap & Hby) & Hin & Hid).
  unfold set_item_buffered. apply hwp_bind, hwp_get, hwp_bind. eapply hwp_opt; [exact El|].
  apply hwp_bind, hwp_get, hwp_bind. eapply hwp_opt; [exact Eb|]. apply hwp_bind.
  destruct (SetValue_total d buf len v Hin) as (buf' & Ev & Hl' & Hby'); [lia|done|]. eapply hwp_opt; [exact Ev|].
  apply hwp_bind, hwp_modify. assert (hkeep s (set_hd_data s (<[Z.to_nat (d_ReportID d) := Some buf']> (hd_data s)))) as H1
    by (by apply (buf_ok_data s _ (Some buf))).
  cbn [fmap option_fmap option_map]. set (s1 := set_hd_data _ _) in *. apply hwp_bind. unfold set_report.
  apply hwp_bind, hwp_get, hwp_bind, hwp_modify, hwp_ret. set (s2 := set_hd_dev _ _ _ _ _ _).
  assert (hkeep s1 s2) as H2 by (apply buf_ok_same; try done; apply H1). pose proof (hkeep_trans _ _ _ H1 H2) as H12.
  case_match; [by apply hwp_ret|]. apply hwp_bind. eapply hwp_mono; [apply stamp_keep, H2|].
  intros [] s3 H3. apply hwp_ret. exact (hkeep_trans _ _ _ H12 H3).
Qed.

Lemma set_value_keep s d x v :
  buf_ok s -> d ∈ item (hd_desc s) ->
  physical_to_logical d (f64_div x (exponent (of_long 10) (get_unit_expo d))) = Some v ->
  hwp (HIDSetDataValue (Some d) x) (fun _ s' => hkeep s s') s.
Proof.
  intros Hs Hd Hv. cbn [HIDSetDataValue]. case_match; [by apply hwp_ret, hkeep_refl|].
  apply hwp_bind. eapply hwp_opt; [exact Hv|]. apply hwp_bind. eapply hwp_mono; [by apply set_item_keep|].
  intros r s1 H1. cbv beta in H1. case_match; [by apply hwp_bind, hwp_get, hwp_ret|].
  apply hwp_bind, hwp_modify, hwp_ret. eapply hkeep_trans; [exact H1|].
  apply buf_ok_same; try done; try apply H1.
  transitivity 256%nat; [reflexivity|]. symmetry. apply H1.
Qed.

Lemma events_keep s n : buf_ok s -> hwp (HIDGetEvents n) (fun _ s' => hkeep s s') s.
Proof.
  intros Hs. unfold HIDGetEvents. apply hwp_bind, hwp_get, hwp_bind. unfold get_interrupt.
  apply hwp_bind, hwp_get, hwp_bind, hwp_modify, hwp_ret. set (s1 := set_hd_dev _ _ _ _ _ _).
  assert (hkeep s s1) as H1 by (apply buf_ok_same; try done; [apply Hs|apply dev_tail, Hs]).
  pose proof (dev_head _ (bo_int _ Hs)) as Hdev.
  destruct (dev_next (hd_int s)) as [e|bs].
  { assert (- Z.abs e <=? 0 = true) as -> by (apply Z.leb_le; lia). by apply hwp_ret. }
  set (bs' := take _ bs). assert (is_bytes bs') as Hb by (by apply Forall_take). clearbody bs'.
  destruct bs' as [|id rest]; [by apply hwp_ret|]. pose proof (Forall_inv Hb) as Hid.
  assert (Z.of_nat (length (id :: rest)) <=? 0 = false) as -> by (apply Z.leb_gt; simpl; lia).
  apply hwp_bind. unfold file_report_buffer. apply hwp_bind. eapply hwp_opt; [done|].
  destruct H1 as [Hs1 Ed1]. pose proof (bo_slots _ Hs1) as [S1 S2 S3 S4].
  destruct (lookup_256 _ id S1 Hid) as [l El]. destruct (lookup_256 _ id S2 Hid) as [c Ec].
  destruct (lookup_256 _ id S3 Hid) as [x Ex]. pose proof (S4 _ _ _ _ El Ec Ex) as Hslot.
  apply hwp_bind, hwp_get, hwp_bind. eapply hwp_opt; [exact El|]. apply hwp_bind. eapply hwp_mono.
  - apply (put_data_keep s1 _ x _ Hs1 Ex); [|by apply Forall_take]. rewrite length_take. unfold slot_ok in Hslot. destruct x; simpl in *; lia.
  - intros [] s2 H2. apply hwp_bind, hwp_get, hwp_bind. eapply hwp_mono; [apply stamp_keep, H2|].
    intros [] s3 H3. apply hwp_ret. cbn [Z.ltb]. apply hwp_bind, hwp_get, hwp_ret.
    destruct H2, H3. split; [done|congruence].
Qed.

Lemma dump_keep lvl vendor product s : buf_ok s -> hwp (HIDDumpTree lvl vendor product) (fun _ s' => hkeep s s') s.
Proof.
  intros Hs. unfold HIDDumpTree. apply hwp_bind, hwp_get. case_match; [by apply hwp_ret, hkeep_refl|].
  assert (forall l, (forall d, d ∈ l -> d ∈ item (hd_desc s)) -> forall s1, hkeep s s1 ->
    hwp (dump_items vendor product l) (fun _ s' => hkeep s s') s1) as Hl; [|by apply Hl; [|apply hkeep_refl]].
  induction l as [|d l IH]; intros Hin s1 H1; cbn [dump_items]; [by apply hwp_ret|]. apply hwp_bind.
  case_match; [apply hwp_ret, IH; [intros; apply Hin; by right|done]|].
  apply hwp_bind. eapply hwp_mono.
  - apply get_value_keep; [apply H1|]. rewrite (proj2 H1). apply Hin. by left.
  - intros r s2 H2. apply hwp_ret, IH; [intros; apply Hin; by right|]. exact (hkeep_trans _ _ _ H1 H2).
Qed.

(** ** Whole runs *)

(** What a driver asks for *)
Inductive hid_cmd :=
| CmdGet (d : HIDData) (age : Z)
| CmdSet (d : HIDData) (x : double)
| CmdEvents (n : nat)
| CmdDump (lvl vendor product : Z).

Definition run_cmd (c : hid_cmd) : HM unit :=
  match c with
  | CmdGet d age => HIDGetDataValue (Some d) age;; mret tt
  | CmdSet d x => HIDSetDataValue (Some d) x;; mret tt
  | CmdEvents n => HIDGetEvents n;; mret tt
  | CmdDump lvl vendor product => HIDDumpTree lvl vendor product
  end.

Fixpoint run_cmds (cs : list hid_cmd) : HM unit :=
  match cs with [] => mret tt | c :: cs => run_cmd c;; run_cmds cs end.

(** The items are those of the descriptor, and a value to set can be converted to [long]. *)
Definition cmd_ok (h : HIDDesc) (c : hid_cmd) : Prop :=
  match c with
  | CmdGet d _ => d ∈ item h
  | CmdSet d x => d ∈ item h /\ is_Some (physical_to_logical d (f64_div x (exponent (of_long 10) (get_unit_expo d))))
  | _ => True
  end.

Lemma run_cmd_keep s c : buf_ok s -> cmd_ok (hd_desc s) c -> hwp (run_cmd c) (fun _ s' => hkeep s s') s.
Proof.
  intros Hs Hc. destruct c as [d age|d x|n|lvl v p]; cbn [run_cmd cmd_ok] in *.
  - apply hwp_bind. eapply hwp_mono; [by apply get_value_keep|]. intros r s1 H1. by apply hwp_ret.
  - destruct Hc as [Hd [v Hv]]. apply hwp_bind. eapply hwp_mono; [by eapply set_value_keep|]. intros r s1 H1. by apply hwp_ret.
  - apply hwp_bind. eapply hwp_mono; [by apply events_keep|]. intros r s1 H1. by apply hwp_ret.
  - by apply dump_keep.
Qed.

Lemma new_buffer_ok s :
  desc_ok (hd_desc s) -> Forall dev_bytes (hd_get s) -> Forall dev_bytes (hd_int s) -> hwp new_report_buffer (fun _ s' => hkeep s s') s.
Proof.
  intros Hd Hg Hi. unfold new_report_buffer. apply hwp_bind, hwp_get, hwp_bind.
  destruct (alloc_reports_ok (hd_max_report_size s) (replen (hd_desc s)) (item (hd_desc s))
    (replicate 256 0) (replicate 256 0) (replicate 256 None)) as (lens & caps & datas & E & Hs & _ & Hslots);
    try apply Hd.
  - split; rewrite ?length_replicate; try done. intros i l c x Hl Hc Hx.
    apply lookup_replicate in Hl as [-> _]. apply lookup_replicate in Hc as [-> _]. by apply lookup_replicate in Hx as [-> _].
  - intros i l x _ Hx. by apply lookup_replicate in Hx as [? _].
  - eapply hwp_opt; [change (id s) with s; rewrite take_ge by (rewrite (de_item _ Hd); lia); exact E|]. apply hwp_modify.
    split; [|done]. split; cbn; try done; by rewrite length_replicate.
Qed.

(** C14. Whatever report descriptor of at most 500 bytes a device has, and whatever bytes it answers, or interrupts with, afterwards
    (any length, any error, with or without the tweaks), the report buffers made for it are large enough: no sequence
    of reading items, setting items, taking events and dumping the tree makes libhid read or write
    outside a buffer or use one that was not allocated. *)
Theorem hid_reports_in_bounds desc h s cs :
  (length desc <= 500)%nat -> Parse_ReportDesc desc = Ok (Some h) -> hd_desc s = h ->
  Forall dev_bytes (hd_get s) -> Forall dev_bytes (hd_int s) -> Forall (cmd_ok h) cs ->
  exists s', (new_report_buffer;; run_cmds cs) s = Some (tt, s') /\ buf_ok s'.
Proof.
  intros Hn Hp Hh Hg Hi Hcs. destruct (Parse_ReportDesc_ok desc Hn) as (r & Er & Hok).
  assert (desc_ok h) as Hd by (apply Hok; congruence). rewrite <- Hh in Hd.
  assert (forall s1, hkeep s s1 -> hwp (run_cmds cs) (fun _ s' => buf_ok s') s1) as Hrun.
  { induction Hcs as [|c cs Hc _ IH]; intros s1 H1; cbn [run_cmds]; [apply hwp_ret, H1|]. apply hwp_bind. eapply hwp_mono.
    - apply run_cmd_keep; [apply H1|]. by rewrite (proj2 H1), Hh.
    - intros [] s2 H2. apply IH. exact (hkeep_trans _ _ _ H1 H2). }
  assert (hwp (new_report_buffer;; run_cmds cs) (fun _ s' => buf_ok s') s) as Hw.
  { apply hwp_bind. eapply hwp_mono; [by apply new_buffer_ok|]. intros [] s1 H1. by apply Hrun. }
  unfold hwp in Hw. destruct ((new_report_buffer;; run_cmds cs) s) as [[[] s']|]; [by exists s'|done].
Qed.

(** ** An example *)

(** A UPS with a feature report 7: a flag for the events, and a delay of 12 bits that can be set. *)
Definition ups_desc : list Z :=
  [0x05; 0x84; 0x09; 0x04; 0xA1; 0x01; 0x85; 0x07; 0x09; 0x02; 0x15; 0x00; 0x25; 0x01; 0x75; 0x03; 0x95; 0x01; 0x81; 0x02;
   0x09; 0x57; 0x16; 0x9C; 0xFF; 0x25; 0x64; 0x75; 0x0C; 0x95; 0x01; 0xB1; 0xA2; 0xC0].

Definition ups_parsed : HIDDesc :=
  match Parse_ReportDesc ups_desc with Ok (Some h) => h | _ => mkHIDDesc 0 [] [] end.

Definition ups_flag : HIDData := default data0 (item ups_parsed !! 0%nat).
Definition ups_delay : HIDData := default data0 (item ups_parsed !! 1%nat).

(** It gives a report that is too long, and then fails; it takes one setting, and refuses another one. *)
Definition ups_state : hidst :=
  mkHid ups_parsed [] [] [] [] 0 0 0 1000 0 [DevData [7; 255; 170; 85; 1]; DevError 110] [3; -32] [DevData [7; 1; 1; 1]] [] [].

Lemma ups_parsed_eq : Parse_ReportDesc ups_desc = Ok (Some ups_parsed).
Proof. vm_compute. reflexivity. Qed.

Lemma ups_items : ups_flag ∈ item ups_parsed /\ ups_delay ∈ item ups_parsed.
Proof. split; vm_compute; [apply list_elem_of_here|apply list_elem_of_further, list_elem_of_here]. Qed.

Lemma ups_bytes : Forall dev_bytes (hd_get ups_state) /\ Forall dev_bytes (hd_int ups_state).
Proof. split; repeat constructor; simpl; lia. Qed.

Definition ups_cmds : list hid_cmd :=
  [CmdGet ups_delay 0; CmdSet ups_delay (of_long 99); CmdEvents 5; CmdGet ups_flag 2; CmdSet ups_delay (of_long 12);
   CmdDump 1 0 0].

Lemma ups_settable v :
  bool_decide (is_Some (physical_to_logical ups_delay (f64_div (of_long v) (exponent (of_long 10) (get_unit_expo ups_delay))))) = true ->
  cmd_ok ups_parsed (CmdSet ups_delay (of_long v)).
Proof. intros H. split; [apply ups_items|]. by apply bool_decide_eq_true in H. Qed.

Lemma ups_cmds_ok : Forall (cmd_ok ups_parsed) ups_cmds.
Proof.
  unfold ups_cmds. repeat apply Forall_cons_2; [apply ups_items|apply ups_settable; by vm_compute|exact I|apply ups_items|
    apply ups_settable; by vm_compute|exact I|apply Forall_nil_2].
Qed.

Lemma hid_reports_in_bounds_witness :
  exists s', (new_report_buffer;; run_cmds ups_cmds) ups_state = Some (tt, s') /\ buf_ok s'.
Proof.
  apply (hid_reports_in_bounds ups_desc ups_parsed ups_state ups_cmds).
  - apply Nat.leb_le. reflexivity.
  - exact ups_parsed_eq.
  - reflexivity.
  - apply ups_bytes.
  - apply ups_bytes.
  - exact ups_cmds_ok.
Defined.

(** The state after the buffer was made *)
Definition ups_ready : hidst := match new_report_buffer ups_state with Some (_, s) => s | None => ups_state end.

Lemma ups_ready_ok : buf_ok ups_ready.
Proof.
  destruct (Parse_ReportDesc_ok ups_desc) as (r & Hr & Hok); [apply Nat.leb_le; reflexivity|].
  rewrite ups_parsed_eq in Hr. injection Hr as <-.
  pose proof (new_buffer_ok ups_state (Hok _ eq_refl) (proj1 ups_bytes) (proj2 ups_bytes)) as H.
  unfold hwp in H. unfold ups_ready. destruct (new_report_buffer ups_state) as [[[] s]|]; [apply H|destruct H].
Qed.
