(* ===== verification/LibHidEnd.v ===== *)
(** * What is written to a device is what is read from it

    A value that the device took is read back from it; a value that it refused is read back too, from the buffer, until the
    report is too old. *)

From S2P Require Import Prelude CStr StrUtil NumFacts HidParser HidFacts HidSafe Float64 LibHid LibHidFacts.
From stdpp Require Import options.

(** The monad, run *)
Ltac hid_run :=
  unfold hget, hopt, hmodify, stamp, set_errno, mbind, HM_bind, mret, HM_ret;
  cbn [fmap option_fmap option_map mbind option_bind default from_option id negb orb].

(** ** One item *)

Lemma exponent_0 a : exponent a 0 = of_long 1.
Proof. reflexivity. Qed.

(** Items without units or a physical range show the integer of the report. *)
Definition plain_item (d : HIDData) : Prop := no_physical d = true /\ get_unit_expo d = 0.

Lemma plain_to_logical d v :
  plain_item d -> Z.abs v < 2 ^ 53 ->
  physical_to_logical d (f64_div (of_long v) (exponent (of_long 10) (get_unit_expo d))) = Some v.
Proof.
  intros [Hp Hu] Hv. unfold physical_to_logical. rewrite Hp, Hu, exponent_0, f64_div_1_r by (by apply of_long_normal).
  by apply to_long_of_long.
Qed.

Lemma plain_to_physical d v :
  plain_item d -> Z.abs v < 2 ^ 53 ->
  f64_mul (logical_to_physical d v) (exponent (of_long 10) (get_unit_expo d)) = of_long v.
Proof.
  intros [Hp Hu] Hv. unfold logical_to_physical. rewrite Hp, Hu, exponent_0, f64_mul_1_r by (by apply of_long_normal). done.
Qed.

Lemma charbufsize_small r : r <= 256 -> charbufsize r r = r.
Proof. intros Hr. unfold charbufsize, USB_CTRL_CHARBUFSIZE_MAX. case_match eqn:E; [|done]. apply Z.gtb_lt in E. lia. Qed.

(** The new content of the report, before the device has seen it *)
Definition filled (s : hidst) (d : HIDData) (new : list Z) (out : hid_io) : hidst :=
  set_hd_dev (set_hd_data s (<[Z.to_nat (d_ReportID d) := Some new]> (hd_data s)))
    (hd_get s) (tail (hd_set s)) (hd_int s) (hd_str s) (hd_out s ++ [out]).

(** [report] is the start of [buf] with the number [v], as bits of two's complement, in the place of the item [d]. *)
Definition report_of (d : HIDData) (buf : list Z) (v : Z) (report : list Z) : Prop :=
  d_Offset d + 8 + d_Size d <= 8 * Z.of_nat (length report) /\ (length report <= length buf)%nat
  /\ forall k, 0 <= k < 8 * Z.of_nat (length report) ->
     fbit report k = if decide (d_Offset d + 8 <= k < d_Offset d + 8 + d_Size d) then Z.testbit v (k - (d_Offset d + 8)) else fbit buf k.

Lemma fbit_take n buf k : 0 <= k < 8 * Z.of_nat n -> fbit (take n buf) k = fbit buf k.
Proof.
  intros Hk. unfold fbit. rewrite lookup_take_lt; [done|]. rewrite shiftr3. apply Nat2Z.inj_lt. rewrite Z2Nat.id by (apply Z.div_pos; lia).
  apply Z.div_lt_upper_bound; lia.
Qed.

Lemma report_sent d buf v new len :
  is_bytes buf -> SetValue d buf v = Some new -> inside d len -> 1 <= len <= Z.of_nat (length buf) -> d_Size d <= 63 ->
  report_of d buf v (take (Z.to_nat len) new).
Proof.
  intros Hby Ev (Ho & Hsz & Hin) Hlen Hs. unfold SetValue in Ev.
  destruct (set_bits_spec (Z.to_nat (d_Size d)) buf (d_Offset d + 8) 0 v Hby) as (new' & E & Hl & _ & Hf); [lia..|].
  rewrite E in Ev. injection Ev as ->. unfold report_of. rewrite length_take_le by lia. split; [lia|]. split; [lia|].
  intros k Hk. rewrite fbit_take by lia. rewrite Hf by lia. rewrite Z2Nat.id by lia. done.
Qed.

Lemma set_item_eq s d v :
  buf_ok s -> d ∈ item (hd_desc s) -> d_Size d <= 63 -> range_fits d -> d_LogMin d <= v <= d_LogMax d ->
  exists len cap buf new, hd_cap s !! Z.to_nat (d_ReportID d) = Some cap /\ slot_ok len cap (Some new)
    /\ hd_data s !! Z.to_nat (d_ReportID d) = Some (Some buf) /\ SetValue d buf v = Some new /\ GetValue new d = Some v
    /\ report_of d buf v (take (Z.to_nat len) new)
    /\ set_item_buffered d v s =
         let s1 := filled s d new (SetReport (d_ReportID d) (take (Z.to_nat len) new)) in
         Some (if default (- EIO) (head (hd_set s)) <=? 0 then (-1, s1)
               else (0, set_hd_ts s1 (<[Z.to_nat (d_ReportID d) := 0]> (hd_ts s)))).
Proof.
  intros Hs Hd Hsz Hfit Hv.
  destruct (item_slot s d Hs Hd) as (len & cap & buf & El & Ec & Eb & (Hlen & Hcap & Hbl & Hby) & Hin & Hid).
  destruct (SetValue_GetValue d buf v) as (new & Ev & Eg & Hln & Hbyn & _); [done| |done|done|].
  { eapply inside_field; [exact Hin|lia|done]. }
  exists len, cap, buf, new. split; [done|]. split; [unfold slot_ok; rewrite Hln; tauto|]. do 3 (split; [done|]).
  split; [apply report_sent; try done; lia|].
  unfold set_item_buffered, set_report. hid_run. rewrite El. hid_run. rewrite Eb. hid_run.
  rewrite Ev. hid_run.
  rewrite charbufsize_small by lia. hid_run. 
  destruct (default (- EIO) (head (hd_set s)) <=? 0) eqn:E; cbn in E |- *; by rewrite E.
Qed.

(** A report that is young enough is not fetched. *)
Lemma get_item_young s d age t buf v :
  hd_ts s !! Z.to_nat (d_ReportID d) = Some t -> hd_now s < t + age ->
  hd_data s !! Z.to_nat (d_ReportID d) = Some (Some buf) -> GetValue buf d = Some v ->
  get_item_buffered d age s = Some ((0, Some v), s).
Proof.
  intros Et Ht Eb Ev. unfold get_item_buffered, refresh_report_buffer. hid_run. rewrite Et. hid_run.
  assert (t + age >? hd_now s = true) as -> by (apply Z.gtb_lt; lia). rewrite orb_true_r. hid_run.
  rewrite Z.ltb_irrefl, Eb. hid_run. by rewrite Ev.
Qed.

(** The report is fetched from a device that has the start of what is in the buffer. *)
Lemma get_item_same s d age t len cap buf gets :
  hd_interrupt_only s = 0 -> hd_ts s !! Z.to_nat (d_ReportID d) = Some t -> t + age <= hd_now s ->
  hd_cap s !! Z.to_nat (d_ReportID d) = Some cap -> hd_data s !! Z.to_nat (d_ReportID d) = Some (Some buf) ->
  slot_ok len cap (Some buf) -> hd_get s = DevData (take (Z.to_nat len) buf) :: gets ->
  exists s', refresh_report_buffer d age s = Some (0, s') /\ hd_data s' = hd_data s
    /\ hd_out s' = hd_out s ++ [GetReport (d_ReportID d) cap].
Proof.
  intros Hi Et Ht Ec Eb (Hlen & Hcap & Hl & _) Eg. unfold refresh_report_buffer, get_report, put_data. hid_run.
  rewrite Et. hid_run. rewrite Hi, Z.eqb_refl.
  assert (t + age >? hd_now s = false) as -> by (rewrite Z.gtb_ltb; apply Z.ltb_ge; lia). hid_run.
  rewrite Ec. hid_run. rewrite Eg, charbufsize_small by lia. cbn [dev_next head default from_option id].
  rewrite (take_ge (take (Z.to_nat len) buf)) by (rewrite length_take; lia). hid_run. cbn [hd_data set_hd_dev]. rewrite Eb. hid_run.
  unfold copy_to. rewrite length_take_le by lia.
  rewrite (proj2 (Nat.leb_le _ _)) by lia. hid_run.
  rewrite (proj2 (Z.leb_gt _ _)) by lia. hid_run. rewrite take_drop.
  eexists. split; [done|]. split; [cbn|done]. by rewrite list_insert_id.
Qed.

(** ** Values *)

(** The item can be set, and [v] is one of its values; numbers of 53 bits are exact as doubles. *)
Record settable (s : hidst) (d : HIDData) (v : Z) : Prop := {
  st_item : d ∈ item (hd_desc s);
  st_variable : d_Attribute d <> ATTR_DATA_CST;
  st_plain : plain_item d;
  st_size : d_Size d <= 63;
  st_fits : range_fits d;
  st_range : d_LogMin d <= v <= d_LogMax d;
  st_exact : Z.abs v < 2 ^ 53
}.

(** The device, with [report] as its next answer *)
Definition answering (report : list Z) (s : hidst) : hidst :=
  set_hd_dev s (DevData report :: hd_get s) (hd_set s) (hd_int s) (hd_str s) (hd_out s).

(** Setting an item that the device takes sends one report, that is the old one with the value in the bits of the item, and
    answers 1.  When the device is asked afterwards, and gives this report, the value that is read is the one that was
    set, whatever the sizes, offsets and signs of the item are.  The report is asked for, however old the
    buffered ones may be. *)
Lemma set_value_run s d v ret age :
  buf_ok s -> settable s d v -> hd_interrupt_only s = 0 -> head (hd_set s) = Some ret -> 0 < ret -> age <= hd_now s ->
  exists s1 s2 buf report cap, HIDSetDataValue (Some d) (of_long v) s = Some (1, s1)
    /\ hd_data s !! Z.to_nat (d_ReportID d) = Some (Some buf) /\ report_of d buf v report
    /\ hd_out s1 = hd_out s ++ [SetReport (d_ReportID d) report]
    /\ HIDGetDataValue (Some d) age (answering report s1) = Some ((1, Some (of_long v)), s2)
    /\ hd_out s2 = hd_out s1 ++ [GetReport (d_ReportID d) cap].
Proof.
  intros Hs [Hd Ha Hp Hsz Hfit Hv Hx] Hi Hset Hret Hage.
  destruct (set_item_eq s d v Hs Hd Hsz Hfit Hv) as (len & cap & buf & new & Ec & Hslot & Eb & Ev & Eg & Hrep & E).
  destruct (item_slot s d Hs Hd) as (_ & _ & _ & _ & _ & _ & _ & _ & Hid).
  rewrite Hset in E. cbn [default from_option id] in E. rewrite (proj2 (Z.leb_gt _ _)) in E by lia. cbv zeta in E.
  set (s0 := set_hd_ts _ _) in E.
  assert (HIDSetDataValue (Some d) (of_long v) s = Some (1, set_hd_ts s0 (replicate 256 0))) as E1.
  { cbn [HIDSetDataValue]. rewrite (proj2 (Z.eqb_neq _ _) Ha), (plain_to_logical d v Hp Hx). hid_run. rewrite E. done. }
  set (s1 := answering (take (Z.to_nat len) new) (set_hd_ts s0 (replicate 256 0))).
  assert (hd_data s1 !! Z.to_nat (d_ReportID d) = Some (Some new)) as Eb1.
  { apply list_lookup_insert_eq. by eapply lookup_lt_Some. }
  destruct (get_item_same s1 d age 0 len cap new (hd_get s)) as (s2 & Er & E2 & E3); try done.
  { apply lookup_replicate. split; [done|]. lia. }
  exists (set_hd_ts s0 (replicate 256 0)), s2, buf, (take (Z.to_nat len) new), cap. do 4 (split; [done|]).
  split; [|exact E3]. cbn [HIDGetDataValue]. unfold get_item_buffered. hid_run. fold s1. rewrite Er. hid_run. cbn [Z.ltb Z.compare].
  hid_run. rewrite E2, Eb1. hid_run. rewrite Eg. hid_run. by rewrite (plain_to_physical d v Hp Hx).
Qed.

(** C33. When the device refuses a value that is set, or when it is not there, the value remains in the buffer as if the device had
    it: as long as the buffered report is young enough, reading the item gives the refused value, without asking the
    device.  (For an item of up to 63 bits without units or a physical range, and a value in its logical range.) *)
Theorem refused_value_reads_back s d v age t :
  buf_ok s -> settable s d v -> default (- EIO) (head (hd_set s)) <= 0 ->
  hd_ts s !! Z.to_nat (d_ReportID d) = Some t -> hd_now s < t + age ->
  exists s1, HIDSetDataValue (Some d) (of_long v) s = Some (- hd_errno s, s1)
    /\ HIDGetDataValue (Some d) age s1 = Some ((1, Some (of_long v)), s1).
Proof.
  intros Hs [Hd Ha Hp Hsz Hfit Hv Hx] Hret Et Hage.
  destruct (set_item_eq s d v Hs Hd Hsz Hfit Hv) as (len & cap & buf & new & Ec & Hslot & Eb & Ev & Eg & Hrep & E).
  rewrite (proj2 (Z.leb_le _ _) Hret) in E. cbv zeta in E. set (s1 := filled _ _ _ _) in E. exists s1. split.
  - cbn [HIDSetDataValue]. rewrite (proj2 (Z.eqb_neq _ _) Ha), (plain_to_logical d v Hp Hx). hid_run. by rewrite E.
  - cbn [HIDGetDataValue]. hid_run. rewrite (get_item_young s1 d age t new v); [|done|done| |done].
    + hid_run. by rewrite (plain_to_physical d v Hp Hx).
    + apply list_lookup_insert_eq. by eapply lookup_lt_Some.
Qed.

(** ** Examples *)

Lemma ups_delay_settable s v : hd_desc s = ups_parsed -> -100 <= v <= 100 -> settable s ups_delay v.
Proof.
  intros Hs Hv. split; [rewrite Hs; apply ups_items|clear Hs..].
  - vm_compute. discriminate.
  - by vm_compute.
  - vm_compute. discriminate.
  - by vm_compute.
  - assert (d_LogMin ups_delay = -100 /\ d_LogMax ups_delay = 100) as [-> ->] by by vm_compute. exact Hv.
  - lia.
Qed.

(** The device does not take anything. *)
Definition ups_stubborn : hidst :=
  set_hd_ts (set_hd_dev ups_ready (hd_get ups_ready) [-32] [] [] []) (replicate 256 999).

Lemma ups_stubborn_ok : buf_ok ups_stubborn.
Proof.
  destruct (buf_ok_same ups_ready ups_stubborn ups_ready_ok) as [H _]; try done.
  apply (bo_get _ ups_ready_ok).
Qed.

Lemma refused_value_reads_back_witness :
  exists s1, HIDSetDataValue (Some ups_delay) (of_long 30) ups_stubborn = Some (0, s1)
    /\ HIDGetDataValue (Some ups_delay) 2 s1 = Some ((1, Some (of_long 30)), s1).
Proof.
  apply (refused_value_reads_back ups_stubborn ups_delay 30 2 999).
  - exact ups_stubborn_ok.
  - apply ups_delay_settable; [reflexivity|lia].
  - vm_compute. discriminate.
  - vm_compute. reflexivity.
  - vm_compute. reflexivity.
Defined.

(** The bits of a value that is too large are cut off: an item of 8 bits without a physical range, set to 300, becomes 44. *)
Example unclamped_set :
  let d := mkData 1 [] 7 0 8 ITEM_FEATURE 2 0 0 0 255 false 0 0 0 0 in
  physical_to_logical d (of_long 300) = Some 300 /\ SetValue d [7; 0] 300 = Some [7; 44].
Proof. by vm_compute. Qed.

(** The conversions round towards zero: a delay in tenths that shows 4.3, when it is set to the same 4.3, becomes 4.2. *)
Example truncated_set :
  let d := mkData 1 [] 7 0 8 ITEM_FEATURE 2 0 (-1) 0 255 false 0 0 0 0 in
  let unit := exponent (of_long 10) (get_unit_expo d) in
  physical_to_logical d (f64_div (f64_mul (logical_to_physical d 43) unit) unit) = Some 42.
Proof. by vm_compute. Qed.

(** The same with a physical range: of 0 to 255 shown as 0 to 100, 7 is the largest value below 8, that becomes 7. *)
Example truncated_range :
  let d := mkData 1 [] 7 0 8 ITEM_FEATURE 2 0 0 0 255 false 0 100 1 1 in
  map (fun v => physical_to_logical d (logical_to_physical d v)) [6; 7; 8; 255] = [Some 6; Some 7; Some 7; Some 254].
Proof. by vm_compute. Qed.
