(* ===== verification/HidPath.v ===== *)
(** * Paths of HID items as text

    The text of a path, that [path_to_string] prints with the names of usage tables, is read back as the path by
    [string_to_path], when it fits the buffer and no name of it belongs to an earlier usage. *)

From S2P Require Import Prelude CStr StrUtil StrFacts NumFacts Tokens HidParser Float64 LibHid LibHidFacts.
From stdpp Require Import options.

(** ** Characters and names *)

Definition hexchar (c : ascii) : bool := existsb (Ascii.eqb c) ($"1234567890abcdefABCDEF").
Definition DOT : ascii := chr 46.

(** A name that is neither a number nor an index, and has no dot *)
Definition plain_name (name : bytes) : bool :=
  match name with [] => false | c :: _ => negb (Ascii.eqb c (chr 91)) end
  && forallb (fun c => negb (Ascii.eqb c DOT)) name && existsb (fun c => negb (hexchar c)) name.

Lemma plain_name_word name : plain_name name = true -> name <> [] /\ DOT ∉ name.
Proof.
  unfold plain_name. intros H. apply andb_true_iff in H as [[H1 H2]%andb_true_iff _]. split; [by destruct name|].
  intros Hin. rewrite forallb_forall in H2. apply list_elem_of_In, H2 in Hin. done.
Qed.

(** What the tables of the drivers are like *)
Definition table_ok (tab : usage_table) : bool :=
  forallb (fun e => plain_name e.1 && (0 <=? e.2) && (e.2 <? 2 ^ 32)) tab.

Lemma hexchar_lower c : hexchar (tolower c) = hexchar c.
Proof. revert c. by_ascii. Qed.

Lemma bracket_lower c : Ascii.eqb (tolower c) (chr 91) = Ascii.eqb c (chr 91).
Proof. revert c. by_ascii. Qed.

Lemma hex_case a b : strcaseeq a b = true -> forallb hexchar a = forallb hexchar b.
Proof.
  intros H. apply strcaseeq_true in H.
  assert (forall s, forallb hexchar (lower s) = forallb hexchar s) as Hl.
  { induction s as [|c s IH]; [done|]. simpl. by rewrite hexchar_lower, IH. }
  by rewrite <- (Hl a), <- (Hl b), H.
Qed.

Lemma plain_name_not name text :
  plain_name name = true -> strcaseeq name text = true -> forallb hexchar text = false /\ starts_with (fun c => Ascii.eqb c (chr 91)) text = false.
Proof.
  unfold plain_name. intros Hp Hc. breflect. split.
  - rewrite <- (hex_case _ _ Hc). apply existsb_exists in H0 as (c & Hc1 & Hc2). apply not_true_iff_false. intros Hf.
    rewrite forallb_forall in Hf. rewrite (Hf c Hc1) in Hc2. done.
  - apply strcaseeq_true in Hc. destruct name as [|c name], text as [|c' text]; try done. simpl in *. injection Hc as Hc _.
    rewrite <- bracket_lower, <- Hc, bracket_lower. by destruct (Ascii.eqb c (chr 91)).
Qed.

(** No number and no index is a name. *)
Lemma lookup_usage_none text utab :
  table_ok (concat utab) = true -> forallb hexchar text = true \/ starts_with (fun c => Ascii.eqb c (chr 91)) text = true ->
  hid_lookup_usage text utab = None.
Proof.
  unfold hid_lookup_usage, table_ok. intros Ht Hx. induction (concat utab) as [|e tab IH]; [done|]. simpl in Ht. breflect.
  simpl. destruct (strcaseeq e.1 text) eqn:E; [|by apply IH].
  destruct (plain_name_not e.1 text) as [Hn1 Hn2]; [done..|]. destruct Hx; congruence.
Qed.

(** ** Numbers *)

Lemma hex_lower_digit z : 0 <= z < 16 -> is_digit 16 (hex_lower z) = Some z /\ hexchar (hex_lower z) = true /\ hex_lower z <> DOT.
Proof.
  intros Hz. assert (z = 0 \/ z = 1 \/ z = 2 \/ z = 3 \/ z = 4 \/ z = 5 \/ z = 6 \/ z = 7 \/ z = 8 \/ z = 9 \/ z = 10 \/ z = 11
    \/ z = 12 \/ z = 13 \/ z = 14 \/ z = 15) as H by lia.
  repeat destruct H as [->|H]; subst; by vm_compute.
Qed.

Lemma show_hex_spec n : forall z, 0 <= z ->
  length (show_hex n z) = n /\ Forall (fun c => digit_of 16 c /\ hexchar c = true /\ c <> DOT) (show_hex n z)
  /\ digits_value 16 0 (show_hex n z) = z mod 16 ^ Z.of_nat n.
Proof.
  induction n as [|n IH]; intros z Hz; cbn [show_hex]; [split_and!; [done..|]; by rewrite Z.mod_1_r|].
  destruct (IH (z / 16)) as (Hl & Hf & Hv); [by apply Z.div_pos|].
  pose proof (Z.mod_pos_bound z 16 ltac:(lia)) as Hm. destruct (hex_lower_digit (z mod 16) Hm) as (Hd & Hx & Hdot).
  split_and!.
  - rewrite length_app. simpl. lia.
  - apply Forall_app. split; [done|]. apply Forall_singleton. split_and!; [by eexists|done|done].
  - rewrite digits_value_app, Hv. unfold digits_value. simpl. rewrite Hd. simpl.
    rewrite Nat2Z.inj_succ, Z.pow_succ_r by lia. rewrite Z.rem_mul_r by lia. lia.
Qed.

Lemma strtol_hex n : 0 <= n < 2 ^ 32 -> (strtol (show_hex 8 n) 16).1.1 = n.
Proof.
  intros Hn. destruct (show_hex_spec 8 n) as (Hl & Hf & Hv); [lia|]. set (m := show_hex 8 n) in *.
  assert (Forall (digit_of 16) m) as Hd by (eapply Forall_impl; [exact Hf|]; by intros ? (? & _)).
  assert (magnitude 16 m n) as Hm.
  { exists 16, m. split_and!; [by destruct m|done|split; auto|]. rewrite Hv. symmetry. apply Z.mod_small. exact Hn. }
  destruct (magnitude_plain _ _ _ Hm) as (_ & Hsp & Hpm).
  destruct (strto_magnitude 16 m false m n) as (k & E); [right; lia|done|by apply strip_sign_plain|done|].
  unfold strtol. rewrite E. unfold LONG_MIN, LONG_MAX.
  rewrite (proj2 (Z.ltb_ge _ _)) by lia. by rewrite (proj2 (Z.ltb_ge _ _)) by lia.
Qed.

Lemma scan_digits_stop b ds c r : is_digit b c = None -> Forall (digit_of b) ds -> forall acc,
  scan_digits b acc (ds ++ c :: r) = (digits_value b acc ds, length ds, c :: r).
Proof.
  intros Hc. induction 1 as [|d ds [x Hx] _ IH]; intros acc; simpl; [by rewrite Hc|]. by rewrite Hx, IH.
Qed.

Lemma show_digits k : 0 <= k -> show_Z k <> [] /\ Forall (digit_of 10) (show_Z k) /\ digits_value 10 0 (show_Z k) = k.
Proof.
  intros Hk. destruct k as [|p|p]; [|by destruct (show_pos p) as (? & ? & ? & _)|lia].
  split_and!; [done| |done]. repeat constructor. by eexists.
Qed.

Lemma atoi_index k : 0 <= k <= INT_MAX -> atoi (show_Z k ++ [chr 93]) = k.
Proof.
  unfold INT_MAX. intros Hk. destruct (show_digits k) as (Hne & Hd & Hv); [lia|].
  assert (magnitude 10 (show_Z k) k) as Hm by (exists 10, (show_Z k); split_and!; [done|done|split; auto|done]).
  destruct (magnitude_plain _ _ _ Hm) as (_ & Hsp & Hpm).
  unfold atoi, strtol. rewrite (strto_scan 10 _ false (show_Z k ++ [chr 93])).
  - change (eff_base 10 _) with 10. change (scanned 10 _) with (show_Z k ++ [chr 93]).
    rewrite scan_digits_stop, Hv by done. destruct (show_Z k) as [|c ds]; [done|]. cbn [length Nat.eqb].
    unfold LONG_MIN, LONG_MAX. rewrite (proj2 (Z.ltb_ge _ _)) by lia. rewrite (proj2 (Z.ltb_ge _ _)) by lia.
    apply wrapS_small; simpl; lia.
  - right. lia.
  - by destruct (show_Z k).
  - apply strip_sign_plain. by destruct (show_Z k).
Qed.

(** ** Nodes *)

(** The node is printed by a name that is looked up as the node. *)
Definition node_ok (utab : list usage_table) (n : Z) : Prop :=
  0 <= n < 2 ^ 32 /\ match hid_lookup_path n utab with Some name => hid_lookup_usage name utab = Some n | None => True end.

Definition index_node (n : Z) : bool := Z.land n 0xffff0000 =? 0x00ff0000.

Lemma index_node_spec n : 0 <= n < 2 ^ 32 -> index_node n = true -> n = 0x00ff0000 + Z.land n 0xffff.
Proof.
  intros Hn Hi. unfold index_node in Hi. apply Z.eqb_eq in Hi.
  transitivity (Z.land n (Z.ones 32)); [by rewrite Z.land_ones, Z.mod_small by lia|].
  change (Z.ones 32) with (Z.lor 0xffff0000 0xffff). rewrite Z.land_lor_distr_r, Hi.
  assert (Z.land 0x00ff0000 (Z.land n 0xffff) = 0) as E by (rewrite (Z.land_comm n), Z.land_assoc; apply Z.land_0_l).
  rewrite <- Z.lxor_lor by done. symmetry. by apply Z.add_nocarry_lxor.
Qed.

(** A text of numbers or indices *)
Definition hex_text (t : bytes) : Prop := t <> [] /\ Forall (fun c => hexchar c = true /\ c <> DOT) t.

Lemma index_chars k : 0 <= k -> Forall (fun c => existsb (Ascii.eqb c) ($"[1234567890]") = true /\ c <> DOT) (show_Z k).
Proof.
  intros Hk. destruct (show_digits k Hk) as (_ & Hd & _). eapply Forall_impl; [exact Hd|].
  cut (forall c, bool_decide (is_Some (is_digit 10 c)) = true -> existsb (Ascii.eqb c) ($"[1234567890]") = true /\ c <> DOT).
  { intros H c Hc. apply H. by apply bool_decide_eq_true. }
  by_ascii.
Qed.

Lemma forallb_Forall {A} (f : A -> bool) l : Forall (fun x => f x = true) l -> forallb f l = true.
Proof. intros H. apply forallb_forall. intros x Hx. rewrite Forall_forall in H. by apply H, list_elem_of_In. Qed.

Lemma lookup_path_in n utab name : hid_lookup_path n utab = Some name -> (name, n) ∈ concat utab.
Proof.
  unfold hid_lookup_path. destruct (find _ _) as [[a b]|] eqn:E; [|done]. intros [= ->].
  apply find_some in E as [H1 H2]. simpl in H2. apply Z.eqb_eq in H2 as ->. by apply list_elem_of_In.
Qed.

Section Tables.
Context (utab : list usage_table) (Htab : table_ok (concat utab) = true).

Lemma node_word n : node_ok utab n -> node_text n (Some utab) <> [] /\ DOT ∉ node_text n (Some utab).
Proof using Htab.
  intros [Hn Hok]. unfold node_text. cbn [mbind option_bind]. destruct (hid_lookup_path n utab) as [name|] eqn:E.
  - apply lookup_path_in in E. unfold table_ok in Htab. rewrite forallb_forall in Htab.
    apply list_elem_of_In in E. specialize (Htab _ E). simpl in Htab. breflect. by apply plain_name_word.
  - fold (index_node n). destruct (index_node n).
    + split; [done|]. assert (0 <= Z.land n 0x0000ffff) as Hk by (apply Z.land_nonneg; right; lia).
      pose proof (index_chars _ Hk) as Hf. rewrite Forall_forall in Hf.
      change (DOT ∉ chr 91 :: show_Z (Z.land n 0x0000ffff) ++ [chr 93]). intros Hin.
      apply elem_of_cons in Hin as [?|[Hin|Hin%list_elem_of_singleton]%elem_of_app]; [done| |done].
      by destruct (Hf DOT Hin).
    + destruct (show_hex_spec 8 n) as (Hl & Hf & _); [lia|]. split; [by destruct (show_hex 8 n)|].
      intros Hin. rewrite Forall_forall in Hf. by destruct (Hf _ Hin) as (_ & _ & ?).
Qed.

(** A node is printed and read back. *)
Lemma path_node_text n : node_ok utab n -> path_node (node_text n (Some utab)) utab = Some n.
Proof using Htab.
  intros [Hn Hok]. unfold node_text. cbn [mbind option_bind]. unfold path_node. destruct (hid_lookup_path n utab) as [name|] eqn:E.
  { rewrite Hok. f_equal. apply wrapU_small; simpl; lia. }
  fold (index_node n). destruct (index_node n) eqn:Ei.
  - assert (0 <= Z.land n 0x0000ffff) as Hk by (apply Z.land_nonneg; right; lia).
    assert (Z.land n 0x0000ffff < 65536) as Hk2.
    { change 0x0000ffff with (Z.ones 16). rewrite Z.land_ones by lia. by apply Z.mod_pos_bound. }
    rewrite lookup_usage_none by (done || by right). pose proof (index_chars _ Hk) as Hf.
    assert (strspn_all ($"[" ++ show_Z (Z.land n 0x0000ffff) ++ $"]") ($"[1234567890]") = true) as Hs.
    { apply forallb_Forall, Forall_app. split; [by apply Forall_singleton|]. apply Forall_app.
      split; [|by apply Forall_singleton]. eapply Forall_impl; [exact Hf|]. by intros ? [? _]. }
    set (t := _ ++ _ ++ _) in *. assert (strspn_all t ($"1234567890abcdefABCDEF") = false) as -> by done.
    rewrite Hs. simpl tail.
    change ($"]") with [chr 93]. rewrite atoi_index by (unfold INT_MAX; lia). unfold UINT_MAX.
    rewrite (proj2 (Z.ltb_ge _ _)) by lia. rewrite Z.gtb_ltb, (proj2 (Z.ltb_ge _ _)) by lia. simpl.
    rewrite (index_node_spec n Hn Ei) at 2. f_equal. apply wrapU_small; simpl; lia.
  - destruct (show_hex_spec 8 n) as (Hl & Hf & _); [lia|].
    assert (forallb hexchar (show_hex 8 n) = true) as Hs.
    { apply forallb_Forall. eapply Forall_impl; [exact Hf|]. by intros ? (_ & ? & _). }
    rewrite lookup_usage_none by (done || by left). unfold strspn_all. fold hexchar. rewrite Hs, strtol_hex by done. unfold UINT_MAX.
    rewrite (proj2 (Z.ltb_ge _ _)) by lia. by rewrite Z.gtb_ltb, (proj2 (Z.ltb_ge _ _)) by lia.
Qed.

(** ** Whole paths *)

Definition node_texts (path : list Z) : list bytes := map (fun n => node_text n (Some utab)) path.

(** The texts with dots before them, and between them *)
Definition dots (ts : list bytes) : bytes := concat (map (cons DOT) ts).
Definition dotted (ts : list bytes) : bytes := match ts with [] => [] | t :: ts => t ++ dots ts end.

Lemma print_loop_eq path : forall string size i,
  let text := if (0 <? i)%nat then dots (node_texts path) else dotted (node_texts path) in
  (S (length (string ++ text)) < size)%nat -> print_loop string size i path (Some utab) = string ++ text.
Proof.
  induction path as [|n path IH]; intros string size i text Hl; cbn [print_loop].
  { unfold text. by destruct (0 <? i)%nat; rewrite app_nil_r. }
  assert (text = (if (0 <? i)%nat then [DOT] else []) ++ node_text n (Some utab) ++ dots (node_texts path)) as ->
    by (unfold text; by destruct (0 <? i)%nat).
  set (dot := if (0 <? i)%nat then [DOT] else []) in *. set (t := node_text n (Some utab)) in *.
  rewrite !length_app in Hl.
  assert ((if (0 <? i)%nat then snprintfcat string size ($".") else string) = string ++ dot) as ->.
  { unfold dot in *. destruct (0 <? i)%nat; [|by rewrite app_nil_r]. apply snprintfcat_id. rewrite length_app. simpl in *. lia. }
  rewrite snprintfcat_id by (rewrite !length_app; lia). rewrite IH; simpl; rewrite ?length_app; [by rewrite !app_assoc|lia].
Qed.

Lemma strtok_dots ts : Forall (fun t => t <> [] /\ DOT ∉ t) ts -> forall t, DOT ∉ t ->
  strtok_words DOT [] (t ++ dots ts) = match t with [] => ts | _ => t :: ts end.
Proof.
  induction 1 as [|u ts [Hne Hu] _ IH]; intros t Ht; rewrite strtok_no_sep by done; unfold dots; simpl; [by destruct t|].
  fold (dots ts). rewrite IH by done. destruct u; [done|]. by destruct t.
Qed.

Lemma path_loop_texts path : forall acc, Forall (node_ok utab) path -> (length acc + length path <= PATH_NODES)%nat ->
  path_loop (node_texts path) utab acc = Some (acc ++ path).
Proof using Htab.
  induction path as [|n path IH]; intros acc Hok Hl; [by rewrite app_nil_r|]. apply Forall_cons in Hok as [Hn Hok].
  cbn [node_texts map path_loop]. rewrite path_node_text by done. simpl in Hl.
  rewrite (proj2 (Nat.ltb_lt _ _)) by lia. rewrite IH; [by rewrite <- app_assoc|done|rewrite length_app; simpl; lia].
Qed.

Lemma path_text_parses path size :
  Forall (node_ok utab) path -> (length path <= PATH_NODES)%nat -> (size <= SMALLBUF)%nat ->
  (S (length (dotted (node_texts path))) < size)%nat ->
  string_to_path (path_to_string size path (Some utab)) utab = Some path.
Proof using Htab.
  intros Hok Hn Hsize Hl. unfold path_to_string. rewrite print_loop_eq by done. simpl app.
  unfold string_to_path. rewrite snprintf_s_id by lia.
  assert (Forall (fun t => t <> [] /\ DOT ∉ t) (node_texts path)) as Hw.
  { apply Forall_map. eapply Forall_impl; [exact Hok|]. intros n Hn'. by apply node_word. }
  assert (strtok_words (chr 46) [] (dotted (node_texts path)) = node_texts path) as ->; [|by apply path_loop_texts].
  destruct Hw as [|t ts [Hne Ht] Hw]; [done|]. cbn [dotted]. rewrite strtok_dots by done. by destruct t.
Qed.
End Tables.

(** ** The usages of the HID class *)

Lemma usages_ok : table_ok (concat [hid_usage_lkp]) = true.
Proof. vm_compute. reflexivity. Qed.

(** Two of the usages have names that belong to others. *)
Definition shadowed (n : Z) : bool := (n =? 0x00850000) || (n =? 0x008500d8).

Lemma usages_first :
  forallb (fun e => shadowed e.2 || bool_decide (hid_lookup_usage e.1 [hid_usage_lkp] = Some e.2)) hid_usage_lkp = true.
Proof. vm_compute. reflexivity. Qed.

Lemma usage_node_ok n : 0 <= n < 2 ^ 32 -> shadowed n = false -> node_ok [hid_usage_lkp] n.
Proof.
  intros Hn Hs. split; [done|]. destruct (hid_lookup_path n _) as [name|] eqn:E; [|done].
  apply lookup_path_in, list_elem_of_In in E. cbn [concat] in E. rewrite app_nil_r in E.
  pose proof usages_first as H. rewrite forallb_forall in H. specialize (H _ E). cbn [fst snd] in H. rewrite Hs in H.
  by apply bool_decide_eq_true in H.
Qed.

(** The path of an item *)
Definition path_of (d : HIDData) : list Z := take (Z.to_nat (d_path_size d)) (d_path d).

Lemma FindObject_total items d : d ∈ items ->
  exists d', FindObject items d = Some d' /\ d' ∈ items /\ d_Type d' = d_Type d
    /\ take (Z.to_nat (d_path_size d)) (d_path d') = path_of d.
Proof.
  intros Hd. unfold FindObject, FindObject_with_Path. destruct (find _ items) as [d'|] eqn:E.
  - exists d'. apply find_some in E as [H1 [H2 H3]%andb_true_iff]. split_and!; [done|by apply list_elem_of_In|lia|].
    by apply bool_decide_eq_true in H3.
  - eapply find_none in E; [|by apply list_elem_of_In]. rewrite Z.eqb_refl in E. unfold same_path in E. simpl in E.
    by apply bool_decide_eq_false in E.
Qed.



(** What is printed for one of the two others is read as another usage. *)
Example shadowed_name :
  let name := path_to_string 128 [0x00840004; 0x008500d8] (Some [hid_usage_lkp]) in
  name = $"UPS.VoltageOutOfRange" /\ string_to_path name [hid_usage_lkp] = Some [0x00840004; 0x00840063].
Proof. by vm_compute. Qed.

(** A path of eleven components is written past the ten nodes of [HIDPath_t]: the length is compared with 255, afterwards. *)
Example long_path_overflows :
  string_to_path ($"UPS.UPS.UPS.UPS.UPS.UPS.UPS.UPS.UPS.UPS") [hid_usage_lkp] = Some (replicate 10 0x00840004)
  /\ string_to_path ($"UPS.UPS.UPS.UPS.UPS.UPS.UPS.UPS.UPS.UPS.UPS") [hid_usage_lkp] = None.
Proof. by vm_compute. Qed.
