(* ===== verification/HidInfo.v ===== *)
(** * drivers/usbhid-ups.c: tables between HID values and NUT values

    The lookup tables and conversions of the values of items, and the flags that are collected from boolean items.

    A table ends with an entry without a NUT value.  The conversion functions of usbhid-ups.c are given by name; those of a
    subdriver as functions, when they depend on their argument only.  [errno] is the number, 0 or [EINVAL]. *)

From S2P Require Import Prelude CStr StrUtil Fmt HidParser Float64 LibHid.
From Stdlib Require Import SpecFloat.
From stdpp Require Import options.

Definition EINVAL : Z := 22.

(** ** Dates, temperatures and other numbers *)

(** [%0<n>ld] *)
Definition show_padded (n : nat) (z : Z) : bytes :=
  let digits := show_Z (Z.abs z) in
  if z <? 0 then chr 45 :: replicate (n - 1 - length digits) (chr 48) ++ digits
  else replicate (n - length digits) (chr 48) ++ digits.

(** [None] where the value is not a [long]. *)
Definition date_conversion_fun (value : double) : option bytes :=
  v ← to_long value;
  if v =? 0 then Some ($"not set")
  else
    let year := 1980 + Z.shiftr v 9 in
    let month := Z.land (Z.shiftr v 5) 0x0f in
    let day := Z.land v 0x1f in
    Some (snprintf_s 32 (show_padded 4 year ++ $"/" ++ show_padded 2 month ++ $"/" ++ show_padded 2 day)).

(** [%0<n>ld] of [sscanf]: the number, of at most [n] characters, and the rest *)
Definition scan_ld (n : nat) (s : bytes) : option (Z * bytes) :=
  let s := skip_space s in
  let '(neg, m) := strip_sign (take n s) in
  let '(v, k, r) := scan_digits 10 0 m in
  if (k =? 0)%nat then None else Some (if neg then - v else v, r ++ drop n s).

(** A slash in the format of [sscanf] *)
Definition scan_slash (s : bytes) : option bytes :=
  match s with c :: s => if Ascii.eqb c (chr 47) then Some s else None | [] => None end.

(** [None] where the function would look at a number that was not read, or at a [NULL] string. *)
Definition date_conversion_reverse (date_string : option bytes) : option double :=
  s ← date_string;
  '(year, s1) ← scan_ld 4 s;
  if year - 1980 >? 127 then Some (of_long 0)
  else
    '(month, s2) ← (scan_slash s1 ≫= scan_ld 2);
    if month >? 12 then Some (of_long 0)
    else
      '(day, _) ← (scan_slash s2 ≫= scan_ld 2);
      if day >? 31 then Some (of_long 0)
      else Some (of_long (Z.shiftl (year - 1980) 9 + Z.shiftl month 5 + day)).

(** [%0<n>lx] *)
Definition show_hex_min (n : nat) (z : Z) : bytes :=
  let digits := Nat.max n (Z.to_nat (if z =? 0 then 1 else Z.log2 z / 4 + 1)) in show_hex digits z.

(** The conversion of a double to [unsigned long] is defined for what fits. *)
Definition hex_conversion_fun (value : double) : option bytes :=
  v ← trunc value;
  if (0 <=? v) && (v <? 2 ^ 64) then Some (snprintf_s 20 (show_hex_min 8 v)) else None.

Definition print_value (fmt : bytes) (x : double) : option bytes := snprintf_s 20 <$> sprintf_double fmt x.

Definition divide_by_10_conversion_fun (value : double) : option bytes :=
  print_value ($"%0.1f") (f64_mul value (f64_div (of_long 1) (of_long 10))).

Definition divide_by_100_conversion_fun (value : double) : option bytes :=
  print_value ($"%0.1f") (f64_mul value (f64_div (of_long 1) (of_long 100))).

Definition f64_le (x y : double) : bool := SFleb x y.

Definition kelvin_celsius_conversion_fun (value : double) : option bytes :=
  if f64_le (of_long 273) value && f64_le value (of_long 373)
  then print_value ($"%.1f") (f64_sub value (f64_div (of_long 27315) (of_long 100)))
  else print_value ($"%.1f") value.

(** ** Lookup tables *)

(** The member [fun]; a result is a string or [NULL]. *)
Inductive lkp_fun :=
| FunDate | FunHex | FunStringid | FunBy10 | FunBy100 | FunKelvin
| FunOwn (f : double -> option bytes).

(** The member [nuf], with what it makes of [errno] *)
Inductive lkp_nuf := NufDate | NufOwn (f : option bytes -> double * Z).

Record info_lkp := mkLkp { hid_value : Z; nut_value : option bytes; lk_fun : option lkp_fun; lk_nuf : option lkp_nuf }.

Definition lkp (z : Z) (s : bytes) : info_lkp := mkLkp z (Some s) None None.
Definition lkp_end : info_lkp := mkLkp 0 None None None.

(** 1 sets the flag, 0 clears it. *)
Definition flag_info (s : bytes) : list info_lkp := [lkp 1 s; lkp 0 ($"!" ++ s); lkp_end].

Definition online_info := [lkp 1 ($"online"); lkp 0 ($"offline"); lkp_end].
Definition discharging_info := flag_info ($"dischrg").
Definition charging_info := flag_info ($"chrg").
Definition lowbatt_info := flag_info ($"lowbatt").
Definition overload_info := flag_info ($"overload").
Definition replacebatt_info := flag_info ($"replacebatt").
Definition trim_info := flag_info ($"trim").
Definition boost_info := flag_info ($"boost").
Definition bypass_auto_info := flag_info ($"bypassauto").
Definition bypass_manual_info := flag_info ($"bypassman").
Definition eco_mode_info := [lkp 0 ($"normal"); lkp 1 ($"ecomode"); lkp 2 ($"essmode"); lkp_end].
Definition off_info := [lkp 0 ($"off"); lkp 1 ($"!off"); lkp_end].
Definition calibration_info := flag_info ($"cal").
Definition nobattery_info := [lkp 1 ($"!nobattery"); lkp 0 ($"nobattery"); lkp_end].
Definition fanfail_info := flag_info ($"fanfail").
Definition shutdownimm_info := flag_info ($"shutdownimm").
Definition overheat_info := flag_info ($"overheat").
Definition awaitingpower_info := flag_info ($"awaitingpower").
Definition commfault_info := flag_info ($"commfault").
Definition timelimitexpired_info := flag_info ($"timelimitexp").
Definition battvoltlo_info := flag_info ($"battvoltlo").
Definition battvolthi_info := flag_info ($"battvolthi").
Definition chargerfail_info := flag_info ($"chargerfail").
Definition fullycharged_info := [lkp 1 ($"fullycharged"); lkp 0 ($"notfullycharged"); lkp_end].
Definition depleted_info := flag_info ($"depleted").
Definition vrange_info := [lkp 0 ($"!vrange"); lkp 1 ($"vrange"); lkp_end].
Definition frange_info := [lkp 0 ($"!frange"); lkp 1 ($"frange"); lkp_end].

Definition test_write_info :=
  [lkp 0 ($"No test"); lkp 1 ($"Quick test"); lkp 2 ($"Deep test"); lkp 3 ($"Abort test"); lkp_end].
Definition test_read_info :=
  [lkp 1 ($"Done and passed"); lkp 2 ($"Done and warning"); lkp 3 ($"Done and error"); lkp 4 ($"Aborted");
   lkp 5 ($"In progress"); lkp 6 ($"No test initiated"); lkp 7 ($"Test scheduled"); lkp_end].
Definition beeper_info := [lkp 1 ($"disabled"); lkp 2 ($"enabled"); lkp 3 ($"muted"); lkp_end].
Definition yes_no_info := [lkp 0 ($"no"); lkp 1 ($"yes"); lkp_end].
Definition on_off_info := [lkp 0 ($"off"); lkp 1 ($"on"); lkp_end].

Definition date_conversion := [mkLkp 0 None (Some FunDate) (Some NufDate)].
Definition hex_conversion := [mkLkp 0 None (Some FunHex) None].
Definition stringid_conversion := [mkLkp 0 None (Some FunStringid) None].
Definition divide_by_10_conversion := [mkLkp 0 None (Some FunBy10) None].
Definition divide_by_100_conversion := [mkLkp 0 None (Some FunBy100) None].
Definition kelvin_celsius_conversion := [mkLkp 0 None (Some FunKelvin) None].

(** The loops over a table, [None] past its end *)
Fixpoint lookup_nut (table : list info_lkp) (value : bytes) : option (option Z) :=
  match table with
  | [] => None
  | e :: table =>
      match nut_value e with
      | None => Some None
      | Some s => if streq s value then Some (Some (hid_value e)) else lookup_nut table value
      end
  end.

Fixpoint lookup_hid (table : list info_lkp) (value : Z) : option (option bytes) :=
  match table with
  | [] => None
  | e :: table =>
      match nut_value e with
      | None => Some None
      | Some s => if hid_value e =? value then Some (Some s) else lookup_hid table value
      end
  end.

(** The result and [errno]; [None] for undefined behaviour, a [NULL] value that is compared included *)
Definition hu_find_valinfo (hid2info : list info_lkp) (value : option bytes) : option (Z * Z) :=
  first ← head hid2info;
  match lk_nuf first with
  | Some NufDate => x ← date_conversion_reverse value; v ← to_long x; Some (v, 0)
  | Some (NufOwn f) => let '(x, e) := f value in v ← to_long x; Some (v, e)
  | None =>
      match nut_value first, value with
      | None, _ => Some (-1, EINVAL)
      | Some _, None => None
      | Some _, Some value =>
          r ← lookup_nut hid2info value;
          Some match r with Some v => (v, 0) | None => (-1, EINVAL) end
      end
  end.

(** ** Flags *)

Definition STATUS (x : Z) : Z := Z.shiftl 1 x.

Definition ONLINE : Z := 0.
Definition OFFLINE : Z := 1.
Definition DISCHRG : Z := 2.
Definition CHRG : Z := 3.
Definition LOWBATT : Z := 4.
Definition OVERLOAD : Z := 5.
Definition REPLACEBATT : Z := 6.
Definition SHUTDOWNIMM : Z := 7.
Definition TRIM : Z := 8.
Definition BOOST : Z := 9.
Definition BYPASSAUTO : Z := 10.
Definition BYPASSMAN : Z := 11.
Definition ECOMODE : Z := 12.
Definition ESSMODE : Z := 13.
Definition OFF : Z := 14.
Definition CALIB : Z := 15.
Definition OVERHEAT : Z := 16.
Definition COMMFAULT : Z := 17.
Definition DEPLETED : Z := 18.
Definition TIMELIMITEXP : Z := 19.
Definition FULLYCHARGED : Z := 20.
Definition NOTFULLYCHARGED : Z := 21.
Definition AWAITINGPOWER : Z := 22.
Definition FANFAIL : Z := 23.
Definition NOBATTERY : Z := 24.
Definition BATTVOLTLO : Z := 25.
Definition BATTVOLTHI : Z := 26.
Definition CHARGERFAIL : Z := 27.
Definition VRANGE : Z := 28.
Definition FRANGE : Z := 29.

Definition status_info : list (bytes * Z) := [
  ($"online", STATUS ONLINE); ($"offline", STATUS OFFLINE); ($"dischrg", STATUS DISCHRG); ($"chrg", STATUS CHRG);
  ($"lowbatt", STATUS LOWBATT); ($"overload", STATUS OVERLOAD); ($"replacebatt", STATUS REPLACEBATT);
  ($"shutdownimm", STATUS SHUTDOWNIMM); ($"trim", STATUS TRIM); ($"boost", STATUS BOOST);
  ($"bypassauto", STATUS BYPASSAUTO); ($"bypassman", STATUS BYPASSMAN); ($"ecomode", STATUS ECOMODE);
  ($"essmode", STATUS ESSMODE); ($"off", STATUS OFF); ($"cal", STATUS CALIB); ($"overheat", STATUS OVERHEAT);
  ($"commfault", STATUS COMMFAULT); ($"depleted", STATUS DEPLETED); ($"timelimitexp", STATUS TIMELIMITEXP);
  ($"fullycharged", STATUS FULLYCHARGED); ($"notfullycharged", STATUS NOTFULLYCHARGED);
  ($"awaitingpower", STATUS AWAITINGPOWER); ($"fanfail", STATUS FANFAIL); ($"nobattery", STATUS NOBATTERY);
  ($"battvoltlo", STATUS BATTVOLTLO); ($"battvolthi", STATUS BATTVOLTHI); ($"chargerfail", STATUS CHARGERFAIL);
  ($"vrange", STATUS VRANGE); ($"frange", STATUS FRANGE)].

(** What [process_boolean_info] does after the opposite flag was cleared *)
Definition update_flag (nutvalue : bytes) (st : Z) : Z :=
  let '(clear, name) :=
    match nutvalue with
    | c :: rest => if Ascii.eqb c (chr 33) then (true, rest) else (false, nutvalue)
    | [] => (false, nutvalue)
    end in
  match find (fun i => strcaseeq i.1 name) status_info with
  | Some i => if clear then Z.land st (Z.lnot i.2) else Z.lor st i.2
  | None => st
  end.

(** The calls for the opposite flag do nothing but [update_flag]. *)
Definition process_boolean_info (nutvalue : bytes) (st : Z) : Z :=
  let st :=
    if streq nutvalue ($"online") then update_flag ($"!offline") st
    else if streq nutvalue ($"offline") then update_flag ($"!online") st else st in
  let st :=
    if streq nutvalue ($"fullycharged") then update_flag ($"!notfullycharged") st
    else if streq nutvalue ($"notfullycharged") then update_flag ($"!fullycharged") st else st in
  update_flag nutvalue st.
