(* ===== verification/UsbHid.v ===== *)
(** * drivers/usbhid-ups.c: a driver on top of libhid

    The state of the driver, the status from the collected flags, walks over the table of the subdriver, updates, and the
    handlers of commands and settings.

    A function has type [U A]: it maps a state to a result and a new state, or to a fault: one of the driver
    framework, [HidFault] where libhid has none, and [Undefined] for a value that was not set, a conversion that C leaves
    undefined or a [NULL] string that is read.  [time] is the clock of libhid, [errno] its [errno]; HID items are equal
    when the pointers to them are, because the lookups by path give the first of equal items.  The options of
    ups.conf are in a record, with the outcomes of [open_dev] in the state.  The hooks of subdrivers
    ([aux], [fix_report_desc]), the Windows backend and logging are not modelled. *)

From S2P Require Import Prelude CStr StrUtil ParseConf StateTree Tokens Fmt HidParser Float64 LibHid HidInfo DState DStatus DriverMain.
From stdpp Require Import options.

(** ** Data *)

Definition HU_FLAG_STATIC : Z := 2.
Definition HU_FLAG_SEMI_STATIC : Z := 4.
Definition HU_FLAG_ABSENT : Z := 8.
Definition HU_FLAG_QUICK_POLL : Z := 16.
Definition HU_TYPE_CMD : Z := 64.
Definition HU_FLAG_ENUM : Z := 128.
Definition HU_FLAG_PARAM_REQUIRED : Z := 256.
Definition DEFAULT_POLLFREQ : Z := 30.
Definition DEFAULT_POLLFREQ_CPS : Z := 12.
Definition MAX_EVENT_NUM : nat := 32.
Definition INT_MAX : Z := 2 ^ 31 - 1.

Definition STAT_INSTCMD_FAILED : Z := 3.
Definition STAT_INSTCMD_CONVERSION_FAILED : Z := 4.
Definition STAT_SET_CONVERSION_FAILED : Z := 4.

(** libusb 1.0 *)
Definition LIBUSB_ERROR_IO : Z := -1.
Definition LIBUSB_ERROR_ACCESS : Z := -3.
Definition LIBUSB_ERROR_NO_DEVICE : Z := -4.
Definition LIBUSB_ERROR_NOT_FOUND : Z := -5.
Definition LIBUSB_ERROR_BUSY : Z := -6.
Definition LIBUSB_ERROR_NO_MEM : Z := -11.

#[export] Instance HIDData_eq_dec : EqDecision HIDData.
Proof. solve_decision. Defined.

Record hid_info := mkInfo {
  info_type : bytes;
  info_flags : Z;
  info_len : Z;
  hidpath : option bytes;
  hiddata : option HIDData;
  dfl : option bytes;
  hidflags : Z;
  hid2info : option (list info_lkp)
}.

Definition set_hiddata (i : hid_info) x := mkInfo (info_type i) (info_flags i) (info_len i) (hidpath i) x (dfl i)
  (hidflags i) (hid2info i).

(** The subdriver and the options; [hc_cps]: the subdriver is the one for CyberPower. *)
Record hu_conf := mkConf {
  hc_name : bytes;
  hc_utab : list usage_table;
  hc_cps : bool;
  hc_vendor : Z;
  hc_product : Z;
  poll_interval : Z;
  onlinedischarge_onbattery : bool;
  onlinedischarge_calibration : bool;
  log_throttle_hovercharge : Z;
  lbrb_log_delay_sec : Z;
  lbrb_log_delay_without_calibrating : bool;
  reconnect_max_tries : Z;
  hc_lowbatt : option bytes;
  hc_ondelay : option bytes;
  hc_offdelay : option bytes;
  hc_pollfreq : option bytes;
  hc_pollonly : bool;
  hc_tolerance : option bytes
}.

Inductive walkmode := HU_WALKMODE_INIT | HU_WALKMODE_QUICK_UPDATE | HU_WALKMODE_FULL_UPDATE.
Inductive reconnect_state := RECONNECT_SUCCESS | RECONNECT_TRYING | RECONNECT_UPDATEINFO.

Record ust := mkU {
  u_d : dstate; (* the driver framework *)
  u_hid : hidst; (* libhid and the device *)
  hid2nut : list hid_info; (* [subdriver->hid2nut] *)
  ups_status : Z;
  data_has_changed : bool;
  u_hd : bool; (* [hd != NULL] *)
  use_interrupt_pipe : bool;
  interrupt_pipe_EIO_count : Z;
  interrupt_pipe_no_events_tolerance : Z;
  interrupt_pipe_no_events_count : Z;
  pollfreq : Z;
  lastpoll : Z;
  last_calibration_start : Z;
  last_calibration_finish : Z;
  last_lb_start : Z;
  last_rb_start : Z;
  log_throttle_sec : Z; (* [onlinedischarge_log_throttle_sec] and so on *)
  log_throttle_timestamp : Z;
  log_throttle_charge : Z;
  reconnect_count : Z; (* of drivers/main.c *)
  u_open : list Z (* what [open_dev] returns, in order *)
}.

Definition set_u_d (s : ust) x := mkU x (u_hid s) (hid2nut s) (ups_status s) (data_has_changed s) (u_hd s)
  (use_interrupt_pipe s) (interrupt_pipe_EIO_count s) (interrupt_pipe_no_events_tolerance s)
  (interrupt_pipe_no_events_count s) (pollfreq s) (lastpoll s) (last_calibration_start s) (last_calibration_finish s)
  (last_lb_start s) (last_rb_start s) (log_throttle_sec s) (log_throttle_timestamp s) (log_throttle_charge s)
  (reconnect_count s) (u_open s).
Definition set_u_hid (s : ust) x := mkU (u_d s) x (hid2nut s) (ups_status s) (data_has_changed s) (u_hd s)
  (use_interrupt_pipe s) (interrupt_pipe_EIO_count s) (interrupt_pipe_no_events_tolerance s)
  (interrupt_pipe_no_events_count s) (pollfreq s) (lastpoll s) (last_calibration_start s) (last_calibration_finish s)
  (last_lb_start s) (last_rb_start s) (log_throttle_sec s) (log_throttle_timestamp s) (log_throttle_charge s)
  (reconnect_count s) (u_open s).
Definition set_hid2nut (s : ust) x := mkU (u_d s) (u_hid s) x (ups_status s) (data_has_changed s) (u_hd s)
  (use_interrupt_pipe s) (interrupt_pipe_EIO_count s) (interrupt_pipe_no_events_tolerance s)
  (interrupt_pipe_no_events_count s) (pollfreq s) (lastpoll s) (last_calibration_start s) (last_calibration_finish s)
  (last_lb_start s) (last_rb_start s) (log_throttle_sec s) (log_throttle_timestamp s) (log_throttle_charge s)
  (reconnect_count s) (u_open s).
Definition set_ups_status (s : ust) x := mkU (u_d s) (u_hid s) (hid2nut s) x (data_has_changed s) (u_hd s)
  (use_interrupt_pipe s) (interrupt_pipe_EIO_count s) (interrupt_pipe_no_events_tolerance s)
  (interrupt_pipe_no_events_count s) (pollfreq s) (lastpoll s) (last_calibration_start s) (last_calibration_finish s)
  (last_lb_start s) (last_rb_start s) (log_throttle_sec s) (log_throttle_timestamp s) (log_throttle_charge s)
  (reconnect_count s) (u_open s).
Definition set_data_has_changed (s : ust) x := mkU (u_d s) (u_hid s) (hid2nut s) (ups_status s) x (u_hd s)
  (use_interrupt_pipe s) (interrupt_pipe_EIO_count s) (interrupt_pipe_no_events_tolerance s)
  (interrupt_pipe_no_events_count s) (pollfreq s) (lastpoll s) (last_calibration_start s) (last_calibration_finish s)
  (last_lb_start s) (last_rb_start s) (log_throttle_sec s) (log_throttle_timestamp s) (log_throttle_charge s)
  (reconnect_count s) (u_open s).
Definition set_u_hd (s : ust) x := mkU (u_d s) (u_hid s) (hid2nut s) (ups_status s) (data_has_changed s) x
  (use_interrupt_pipe s) (interrupt_pipe_EIO_count s) (interrupt_pipe_no_events_tolerance s)
  (interrupt_pipe_no_events_count s) (pollfreq s) (lastpoll s) (last_calibration_start s) (last_calibration_finish s)
  (last_lb_start s) (last_rb_start s) (log_throttle_sec s) (log_throttle_timestamp s) (log_throttle_charge s)
  (reconnect_count s) (u_open s).
Definition set_use_interrupt_pipe (s : ust) x := mkU (u_d s) (u_hid s) (hid2nut s) (ups_status s) (data_has_changed s)
  (u_hd s) x (interrupt_pipe_EIO_count s) (interrupt_pipe_no_events_tolerance s) (interrupt_pipe_no_events_count s)
  (pollfreq s) (lastpoll s) (last_calibration_start s) (last_calibration_finish s) (last_lb_start s) (last_rb_start s)
  (log_throttle_sec s) (log_throttle_timestamp s) (log_throttle_charge s) (reconnect_count s) (u_open s).
Definition set_interrupt_pipe_EIO_count (s : ust) x := mkU (u_d s) (u_hid s) (hid2nut s) (ups_status s)
  (data_has_changed s) (u_hd s) (use_interrupt_pipe s) x (interrupt_pipe_no_events_tolerance s)
  (interrupt_pipe_no_events_count s) (pollfreq s) (lastpoll s) (last_calibration_start s) (last_calibration_finish s)
  (last_lb_start s) (last_rb_start s) (log_throttle_sec s) (log_throttle_timestamp s) (log_throttle_charge s)
  (reconnect_count s) (u_open s).
Definition set_interrupt_pipe_no_events_tolerance (s : ust) x := mkU (u_d s) (u_hid s) (hid2nut s) (ups_status s)
  (data_has_changed s) (u_hd s) (use_interrupt_pipe s) (interrupt_pipe_EIO_count s) x (interrupt_pipe_no_events_count
  s) (pollfreq s) (lastpoll s) (last_calibration_start s) (last_calibration_finish s) (last_lb_start s) (last_rb_start
  s) (log_throttle_sec s) (log_throttle_timestamp s) (log_throttle_charge s) (reconnect_count s) (u_open s).
Definition set_interrupt_pipe_no_events_count (s : ust) x := mkU (u_d s) (u_hid s) (hid2nut s) (ups_status s)
  (data_has_changed s) (u_hd s) (use_interrupt_pipe s) (interrupt_pipe_EIO_count s)
  (interrupt_pipe_no_events_tolerance s) x (pollfreq s) (lastpoll s) (last_calibration_start s)
  (last_calibration_finish s) (last_lb_start s) (last_rb_start s) (log_throttle_sec s) (log_throttle_timestamp s)
  (log_throttle_charge s) (reconnect_count s) (u_open s).
Definition set_pollfreq (s : ust) x := mkU (u_d s) (u_hid s) (hid2nut s) (ups_status s) (data_has_changed s) (u_hd s)
  (use_interrupt_pipe s) (interrupt_pipe_EIO_count s) (interrupt_pipe_no_events_tolerance s)
  (interrupt_pipe_no_events_count s) x (lastpoll s) (last_calibration_start s) (last_calibration_finish s)
  (last_lb_start s) (last_rb_start s) (log_throttle_sec s) (log_throttle_timestamp s) (log_throttle_charge s)
  (reconnect_count s) (u_open s).
Definition set_lastpoll (s : ust) x := mkU (u_d s) (u_hid s) (hid2nut s) (ups_status s) (data_has_changed s) (u_hd s)
  (use_interrupt_pipe s) (interrupt_pipe_EIO_count s) (interrupt_pipe_no_events_tolerance s)
  (interrupt_pipe_no_events_count s) (pollfreq s) x (last_calibration_start s) (last_calibration_finish s)
  (last_lb_start s) (last_rb_start s) (log_throttle_sec s) (log_throttle_timestamp s) (log_throttle_charge s)
  (reconnect_count s) (u_open s).
Definition set_last_calibration_start (s : ust) x := mkU (u_d s) (u_hid s) (hid2nut s) (ups_status s)
  (data_has_changed s) (u_hd s) (use_interrupt_pipe s) (interrupt_pipe_EIO_count s)
  (interrupt_pipe_no_events_tolerance s) (interrupt_pipe_no_events_count s) (pollfreq s) (lastpoll s) x
  (last_calibration_finish s) (last_lb_start s) (last_rb_start s) (log_throttle_sec s) (log_throttle_timestamp s)
  (log_throttle_charge s) (reconnect_count s) (u_open s).
Definition set_last_calibration_finish (s : ust) x := mkU (u_d s) (u_hid s) (hid2nut s) (ups_status s)
  (data_has_changed s) (u_hd s) (use_interrupt_pipe s) (interrupt_pipe_EIO_count s)
  (interrupt_pipe_no_events_tolerance s) (interrupt_pipe_no_events_count s) (pollfreq s) (lastpoll s)
  (last_calibration_start s) x (last_lb_start s) (last_rb_start s) (log_throttle_sec s) (log_throttle_timestamp s)
  (log_throttle_charge s) (reconnect_count s) (u_open s).
Definition set_last_lb_start (s : ust) x := mkU (u_d s) (u_hid s) (hid2nut s) (ups_status s) (data_has_changed s)
  (u_hd s) (use_interrupt_pipe s) (interrupt_pipe_EIO_count s) (interrupt_pipe_no_events_tolerance s)
  (interrupt_pipe_no_events_count s) (pollfreq s) (lastpoll s) (last_calibration_start s) (last_calibration_finish s)
  x (last_rb_start s) (log_throttle_sec s) (log_throttle_timestamp s) (log_throttle_charge s) (reconnect_count s)
  (u_open s).
Definition set_last_rb_start (s : ust) x := mkU (u_d s) (u_hid s) (hid2nut s) (ups_status s) (data_has_changed s)
  (u_hd s) (use_interrupt_pipe s) (interrupt_pipe_EIO_count s) (interrupt_pipe_no_events_tolerance s)
  (interrupt_pipe_no_events_count s) (pollfreq s) (lastpoll s) (last_calibration_start s) (last_calibration_finish s)
  (last_lb_start s) x (log_throttle_sec s) (log_throttle_timestamp s) (log_throttle_charge s) (reconnect_count s)
  (u_open s).
Definition set_log_throttle_sec (s : ust) x := mkU (u_d s) (u_hid s) (hid2nut s) (ups_status s) (data_has_changed s)
  (u_hd s) (use_interrupt_pipe s) (interrupt_pipe_EIO_count s) (interrupt_pipe_no_events_tolerance s)
  (interrupt_pipe_no_events_count s) (pollfreq s) (lastpoll s) (last_calibration_start s) (last_calibration_finish s)
  (last_lb_start s) (last_rb_start s) x (log_throttle_timestamp s) (log_throttle_charge s) (reconnect_count s) (u_open
  s).
Definition set_log_throttle_timestamp (s : ust) x := mkU (u_d s) (u_hid s) (hid2nut s) (ups_status s)
  (data_has_changed s) (u_hd s) (use_interrupt_pipe s) (interrupt_pipe_EIO_count s)
  (interrupt_pipe_no_events_tolerance s) (interrupt_pipe_no_events_count s) (pollfreq s) (lastpoll s)
  (last_calibration_start s) (last_calibration_finish s) (last_lb_start s) (last_rb_start s) (log_throttle_sec s) x
  (log_throttle_charge s) (reconnect_count s) (u_open s).
Definition set_log_throttle_charge (s : ust) x := mkU (u_d s) (u_hid s) (hid2nut s) (ups_status s) (data_has_changed
  s) (u_hd s) (use_interrupt_pipe s) (interrupt_pipe_EIO_count s) (interrupt_pipe_no_events_tolerance s)
  (interrupt_pipe_no_events_count s) (pollfreq s) (lastpoll s) (last_calibration_start s) (last_calibration_finish s)
  (last_lb_start s) (last_rb_start s) (log_throttle_sec s) (log_throttle_timestamp s) x (reconnect_count s) (u_open
  s).
Definition set_reconnect_count (s : ust) x := mkU (u_d s) (u_hid s) (hid2nut s) (ups_status s) (data_has_changed s)
  (u_hd s) (use_interrupt_pipe s) (interrupt_pipe_EIO_count s) (interrupt_pipe_no_events_tolerance s)
  (interrupt_pipe_no_events_count s) (pollfreq s) (lastpoll s) (last_calibration_start s) (last_calibration_finish s)
  (last_lb_start s) (last_rb_start s) (log_throttle_sec s) (log_throttle_timestamp s) (log_throttle_charge s) x
  (u_open s).
Definition set_u_open (s : ust) x := mkU (u_d s) (u_hid s) (hid2nut s) (ups_status s) (data_has_changed s) (u_hd s)
  (use_interrupt_pipe s) (interrupt_pipe_EIO_count s) (interrupt_pipe_no_events_tolerance s)
  (interrupt_pipe_no_events_count s) (pollfreq s) (lastpoll s) (last_calibration_start s) (last_calibration_finish s)
  (last_lb_start s) (last_rb_start s) (log_throttle_sec s) (log_throttle_timestamp s) (log_throttle_charge s)
  (reconnect_count s) x.

(** ** The monad *)

Inductive ufault := DFault (f : fault) | HidFault | Undefined.

Definition U (A : Type) : Type := ust -> ufault + A * ust.

#[export] Instance U_ret : MRet U := fun A a s => inr (a, s).
#[export] Instance U_bind : MBind U := fun A B f m s => match m s with inr (a, s') => f a s' | inl e => inl e end.

Definition uget {A} (f : ust -> A) : U A := fun s => inr (f s, s).
Definition umodify (f : ust -> ust) : U unit := fun s => inr (tt, f s).
Definition uwhen (b : bool) (m : U unit) : U unit := if b then m else mret tt.
Definition ufail {A} (e : ufault) : U A := fun _ => inl e.
Definition udef {A} (o : option A) : U A := match o with Some a => mret a | None => ufail Undefined end.

Definition liftD {A} (m : D A) : U A := fun s =>
  match m (u_d s) with inr (a, d) => inr (a, set_u_d s d) | inl e => inl (DFault e) end.
Definition liftH {A} (m : HM A) : U A := fun s =>
  match m (u_hid s) with Some (a, h) => inr (a, set_u_hid s h) | None => inl HidFault end.

Definition time : U Z := uget (fun s => hd_now (u_hid s)).

Definition setinfo (var val : bytes) : U unit := _ ← liftD (dstate_setinfo var val); mret tt.
Definition getinfo (var : bytes) : U (option bytes) := liftD (dstate_getinfo var).
Definition status (buf : bytes) : U unit := liftD (status_set buf).
Definition has_bit (st bit : Z) : bool := negb (Z.land st (STATUS bit) =? 0).

(** [dstate_setinfo_dynamic] with the reference [%f] and a double; nothing is done without a matching format. *)
Definition dstate_setinfo_dynamic (var : bytes) (fmt : option bytes) (value : double) : U Z :=
  if validate_formatting_string fmt (Some ($"%f")) <? 0 then mret (-1)
  else
    text ← udef (fmt ≫= fun fmt => sprintf_double fmt value);
    liftD (vdstate_setinfo var text).

(** ** Status *)

Definition alarm_texts : list (Z * bytes) := [
  (REPLACEBATT, $"Replace battery!"); (SHUTDOWNIMM, $"Shutdown imminent!"); (FANFAIL, $"Fan failure!");
  (NOBATTERY, $"No battery installed!"); (BATTVOLTLO, $"Battery voltage too low!");
  (BATTVOLTHI, $"Battery voltage too high!"); (CHARGERFAIL, $"Battery charger fail!");
  (OVERHEAT, $"Temperature too high!"); (COMMFAULT, $"Internal UPS fault!"); (AWAITINGPOWER, $"Awaiting power!");
  (BYPASSAUTO, $"Automatic bypass mode!"); (BYPASSMAN, $"Manual bypass mode!")].

Fixpoint set_alarms (st : Z) (l : list (Z * bytes)) : U unit :=
  match l with
  | [] => mret tt
  | (bit, text) :: l => uwhen (has_bit st bit) (liftD (alarm_set text));; set_alarms st l
  end.

Definition ups_alarm_set : U unit := st ← uget ups_status; set_alarms st alarm_texts.

Definition status_set_CAL : U unit :=
  wasSet ← liftD (status_get ($"CAL"));
  now ← time;
  start ← uget last_calibration_start;
  uwhen ((start : Z) =? 0) (umodify (fun s => set_last_calibration_start s now));;
  uwhen (negb wasSet) (status ($"CAL")).

Definition TRANSFER : bytes := $"input.transfer.reason".

Section Driver.
Context (conf : hu_conf).

(** Whether the situation OL+DISCHRG is logged, and the charge: the throttle *)
Definition throttle_log : U (bool * Z) :=
  charge ← getinfo ($"battery.charge");
  last ← uget log_throttle_charge;
  first ← match charge with
          | Some c =>
              let cc := atoi c in
              mret ((cc >? 0) && negb (cc =? last) && (cc <? log_throttle_hovercharge conf), cc)
          | None =>
              sec ← uget log_throttle_sec;
              uwhen ((sec : Z) =? -2) (umodify (fun s => set_log_throttle_sec s 30));;
              mret (false, 0)
          end;
  stamp ← uget log_throttle_timestamp;
  sec ← uget log_throttle_sec;
  now ← time;
  mret (first.1 || (((stamp : Z) >? 0) && ((sec : Z) >=? 0) && (now - stamp >=? sec)), first.2).

(** Online and discharging *)
Definition online_discharging (st : Z) : U unit :=
  uwhen (onlinedischarge_calibration conf) status_set_CAL;;
  uwhen (onlinedischarge_onbattery conf) (status ($"OB"));;
  if negb (onlinedischarge_onbattery conf) && negb (onlinedischarge_calibration conf) then
    status ($"OL");;
    if has_bit st CALIB then mret tt
    else
      '(do_logmsg, current_charge) ← throttle_log;
      uwhen do_logmsg (
        now ← time;
        umodify (fun s => set_log_throttle_timestamp s now);;
        last ← uget log_throttle_charge;
        uwhen ((current_charge >? 0) && negb (current_charge =? last))
          (umodify (fun s => set_log_throttle_charge s current_charge)))
  else mret tt.

(** LB and RB may be held back when the UPS is online. *)
Definition patience (set_start : ust -> Z -> ust) (start : ust -> Z) (token : bytes) : U unit :=
  now ← time;
  st ← uget start;
  if (st : Z) =? 0 then umodify (fun s => set_start s now)
  else uwhen (now - st >? lbrb_log_delay_sec conf) (status token).

Definition status_lb (st : Z) (isCalibrating : bool) : U unit :=
  if has_bit st LOWBATT || has_bit st TIMELIMITEXP || has_bit st SHUTDOWNIMM then
    if (lbrb_log_delay_sec conf <? 1)
       || (negb isCalibrating && negb (lbrb_log_delay_without_calibrating conf))
       || negb (has_bit st ONLINE)
    then status ($"LB")
    else patience set_last_lb_start last_lb_start ($"LB")
  else umodify (fun s => set_last_lb_start s 0).

Definition status_rb (st : Z) (isCalibrating : bool) : U unit :=
  if has_bit st REPLACEBATT || has_bit st NOBATTERY then
    lb ← uget last_lb_start;
    if (lbrb_log_delay_sec conf <? 1)
       || (negb isCalibrating && negb (lbrb_log_delay_without_calibrating conf))
       || ((lb : Z) =? 0)
       || negb (has_bit st ONLINE)
    then status ($"RB")
    else patience set_last_rb_start last_rb_start ($"RB")
  else umodify (fun s => set_last_rb_start s 0).

Definition status_chrg (st : Z) : U unit :=
  uwhen (has_bit st CHRG)
    (if has_bit st NOTFULLYCHARGED then status ($"CHRG")
     else if negb (has_bit st FULLYCHARGED) then
       charge ← getinfo ($"battery.charge");
       match charge with
       | Some c => uwhen ((atoi c >? 0) && (atoi c <? 100)) (status ($"CHRG"))
       | None => mret tt
       end
     else mret tt).

(** On line or on battery *)
Definition status_power (st : Z) : U unit :=
  uwhen (has_bit st OFFLINE) (status ($"OB"));;
  if negb (has_bit st ONLINE) then
    if has_bit st OFFLINE then status ($"OB") else uwhen (has_bit st DISCHRG) (status ($"OB"))
  else if has_bit st DISCHRG then online_discharging st
  else status ($"OL").

Definition ups_status_set : U unit :=
  st ← uget ups_status;
  (if has_bit st VRANGE then setinfo TRANSFER ($"input voltage out of range")
   else if has_bit st FRANGE then setinfo TRANSFER ($"input frequency out of range")
   else _ ← liftD (dstate_delinfo TRANSFER); mret tt);;
  uwhen (has_bit st CALIB) status_set_CAL;;
  uwhen (negb (has_bit st DISCHRG))
    (umodify (fun s => set_log_throttle_charge (set_log_throttle_timestamp s 0) (-1)));;
  status_power st;;
  isCalibrating ← liftD (status_get ($"CAL"));
  uwhen (has_bit st DISCHRG && negb (has_bit st DEPLETED)) (status ($"DISCHRG"));;
  status_chrg st;;
  status_lb st isCalibrating;;
  uwhen (has_bit st OVERLOAD) (status ($"OVER"));;
  status_rb st isCalibrating;;
  uwhen (has_bit st TRIM) (status ($"TRIM"));;
  uwhen (has_bit st BOOST) (status ($"BOOST"));;
  uwhen (has_bit st BYPASSAUTO || has_bit st BYPASSMAN) (status ($"BYPASS"));;
  uwhen (has_bit st ECOMODE) (liftD (buzzmode_set ($"vendor:default:ECO")));;
  uwhen (has_bit st ESSMODE) (liftD (buzzmode_set ($"vendor:default:ESS")));;
  uwhen (has_bit st OFF) (status ($"OFF"));;
  if (isCalibrating : bool) then mret tt
  else
    start ← uget last_calibration_start;
    now ← time;
    uwhen (negb ((start : Z) =? 0)) (umodify (fun s => set_last_calibration_finish s now));;
    umodify (fun s => set_last_calibration_start s 0).

(** ** Values *)

Definition errno (e : Z) : U unit := umodify (fun s => set_u_hid s (set_hd_errno (u_hid s) e)).

Definition find_nut_info (varname : bytes) : U (option hid_info) :=
  match varname with
  | [] => errno EINVAL;; mret None
  | _ =>
      items ← uget hid2nut;
      match find (fun i => strcaseeq (info_type i) varname && bool_decide (is_Some (hiddata i))) items with
      | Some i => errno 0;; mret (Some i)
      | None => errno EINVAL;; mret None
      end
  end.

Definition find_hid_info (d : option HIDData) : U (option hid_info) :=
  match d with
  | None => errno EINVAL;; mret None
  | Some d =>
      items ← uget hid2nut;
      match find (fun i => (Z.land (hidflags i) HU_FLAG_ABSENT =? 0) && bool_decide (hiddata i = Some d)) items with
      | Some i => errno 0;; mret (Some i)
      | None => errno EINVAL;; mret None
      end
  end.

Definition run_fun (f : lkp_fun) (value : double) : U (option bytes) :=
  match f with
  | FunDate => r ← udef (date_conversion_fun value); mret (Some r)
  | FunHex => r ← udef (hex_conversion_fun value); mret (Some r)
  | FunStringid => i ← udef (to_int 32 value); liftH (HIDGetIndexString i 20)
  | FunBy10 => r ← udef (divide_by_10_conversion_fun value); mret (Some r)
  | FunBy100 => r ← udef (divide_by_100_conversion_fun value); mret (Some r)
  | FunKelvin => r ← udef (kelvin_celsius_conversion_fun value); mret (Some r)
  | FunOwn f => mret (f value)
  end.

Definition hu_find_infoval (table : list info_lkp) (value : double) : U (option bytes) :=
  errno 0;;
  first ← udef (head table);
  match lk_fun first with
  | Some f => run_fun f value
  | None =>
      match nut_value first with
      | None => errno EINVAL;; mret None
      | Some _ =>
          v ← udef (to_long value);
          r ← udef (lookup_hid table v);
          match r with Some s => mret (Some s) | None => errno EINVAL;; mret None end
      end
  end.

(** -1 on failure, 0 for a status update and 1 otherwise *)
Definition ups_infoval_set (i : hid_info) (value : double) : U Z :=
  match hid2info i with
  | Some table =>
      r ← hu_find_infoval table value;
      match r with
      | None => mret (-1)
      | Some nutvalue =>
          if strncmp (info_type i) ($"BOOL") 4 =? 0 then
            umodify (fun s => set_ups_status s (process_boolean_info nutvalue (ups_status s)));; mret 0
          else if strncmp (info_type i) ($"ups.alarm") 9 =? 0 then liftD (alarm_set nutvalue);; mret 0
          else setinfo (info_type i) nutvalue;; mret 1
      end
  | None => _ ← dstate_setinfo_dynamic (info_type i) (dfl i) value; mret 1
  end.

(** ** Walks over the table *)

Definition any_flag (flags mask : Z) : bool := negb (Z.land flags mask =? 0).

Definition set_limits (i : hid_info) : U unit :=
  liftD (dstate_setflags (info_type i) (info_flags i));;
  uwhen (any_flag (info_flags i) ST_FLAG_STRING) (liftD (dstate_setaux (info_type i) (info_len i))).

(** The [switch] on the mode, and the report that one device must not be asked for: the item, and whether to poll it *)
Definition walk_select (mode : walkmode) (i : hid_info) : U (hid_info * bool) :=
  match mode with
  | HU_WALKMODE_INIT =>
      match hiddata i with
      | Some _ => mret (i, true)
      | None =>
          path ← udef (hidpath i);
          p ← liftH (HIDGetItemData path (hc_utab conf));
          let i := set_hiddata i p in
          match p with
          | None => mret (i, false)
          | Some _ =>
              if any_flag (hidflags i) HU_FLAG_ABSENT then
                old ← getinfo (info_type i);
                match old with
                | Some _ => mret (i, false)
                | None => d ← udef (dfl i); setinfo (info_type i) d;; set_limits i;; mret (i, false)
                end
              else if strncmp (info_type i) ($"ups.alarm") 9 =? 0 then mret (i, true)
              else
                old ← getinfo (info_type i);
                match old with
                | None => mret (i, true)
                | Some _ => mret (set_hiddata i None, false)
                end
          end
      end
  | HU_WALKMODE_QUICK_UPDATE => mret (i, any_flag (hidflags i) HU_FLAG_QUICK_POLL)
  | HU_WALKMODE_FULL_UPDATE =>
      pipe ← uget use_interrupt_pipe;
      changed ← uget data_has_changed;
      mret (i, negb (any_flag (hidflags i) (Z.lor HU_FLAG_ABSENT HU_TYPE_CMD))
               && negb (any_flag (hidflags i) HU_FLAG_STATIC && pipe)
               && negb (any_flag (hidflags i) HU_FLAG_SEMI_STATIC && negb changed && pipe))
  end.

Definition skips_report (d : HIDData) : bool :=
  (hc_vendor conf =? 0x09ae) && (hc_product conf =? 0x1330) && (d_ReportID d =? 0x54).

(** The connection is lost: the driver will have to open the device again. *)
Definition lost : U unit :=
  setinfo ($"driver.state") ($"reconnect.trying");; umodify (fun s => set_u_hd s false).

Definition reconnect_error (ret : Z) : bool :=
  (ret =? LIBUSB_ERROR_BUSY) || (ret =? LIBUSB_ERROR_NO_DEVICE) || (ret =? LIBUSB_ERROR_ACCESS)
  || (ret =? LIBUSB_ERROR_NOT_FOUND) || (ret =? LIBUSB_ERROR_NO_MEM).

Fixpoint add_enums (table todo : list info_lkp) (var : bytes) : U unit :=
  match todo with
  | [] => mret tt
  | e :: todo =>
      match nut_value e with
      | None => mret tt
      | Some s =>
          r ← hu_find_infoval table (of_long (hid_value e));
          (match r with Some _ => _ ← liftD (dstate_addenum var s); mret tt | None => mret tt end);;
          add_enums table todo var
      end
  end.

(** What is done with a value that was read *)
Definition walk_store (mode : walkmode) (i : hid_info) (value : double) : U unit :=
  if any_flag (hidflags i) HU_TYPE_CMD then liftD (dstate_addcmd (info_type i))
  else
    r ← ups_infoval_set i value;
    if negb (r =? 1) then mret tt
    else
      pipe ← uget use_interrupt_pipe;
      if match mode with HU_WALKMODE_INIT => true | _ => negb pipe end then
        set_limits i;;
        if negb (any_flag (hidflags i) HU_FLAG_ENUM) || negb (any_flag (info_flags i) ST_FLAG_RW) then mret tt
        else match hid2info i with Some table => add_enums table table (info_type i) | None => mret tt end
      else mret tt.

Inductive walk_step := WSkipped | WPolled (succeeded : bool) | WLost.

Definition walk_poll (mode : walkmode) (i : hid_info) : U walk_step :=
  match hiddata i with
  | None => mret WSkipped
  | Some d =>
      if skips_report d then mret WSkipped
      else
        '(ret, value) ← liftH (HIDGetDataValue (Some d) (poll_interval conf));
        if reconnect_error ret then lost;; mret WLost
        else if ret =? LIBUSB_ERROR_IO then
          umodify (fun s => set_interrupt_pipe_EIO_count s (interrupt_pipe_EIO_count s + 1));; mret (WPolled false)
        else match value with
             | Some value => walk_store mode i value;; mret (WPolled true)
             | None => mret (WPolled false)
             end
  end.

Definition is_init (mode : walkmode) : bool := match mode with HU_WALKMODE_INIT => true | _ => false end.

(** One round of the loop: the item, and what became of it *)
Definition walk_item (mode : walkmode) (i : hid_info) : U (hid_info * walk_step) :=
  '(i, go) ← walk_select mode i;
  step ← (if go : bool then walk_poll mode i else mret WSkipped);
  mret (i, step).

(** The table is stored when the loop ends; nothing reads it before. *)
Fixpoint walk_loop (mode : walkmode) (table todo : list hid_info) (polled succeeded : Z) : U bool :=
  match todo with
  | [] =>
      umodify (fun s => set_hid2nut s table);;
      if (polled >? 0) && (succeeded =? 0) && negb (is_init mode) then lost;; mret false else mret true
  | i :: todo =>
      '(i, step) ← walk_item mode i;
      match step with
      | WLost => umodify (fun s => set_hid2nut s (table ++ i :: todo));; mret false
      | WSkipped => walk_loop mode (table ++ [i]) todo polled succeeded
      | WPolled ok => walk_loop mode (table ++ [i]) todo (polled + 1) (if ok then succeeded + 1 else succeeded)
      end
  end.

Definition hid_ups_walk (mode : walkmode) : U bool :=
  items ← uget hid2nut; walk_loop mode [] items 0 0.

(** ** Updates *)

(** drivers/main.c; the result is not used. *)
Definition reconnect_trying (trying : reconnect_state) : U unit :=
  match trying with
  | RECONNECT_SUCCESS => umodify (fun s => set_reconnect_count s 0);; setinfo ($"driver.state") ($"quiet")
  | RECONNECT_UPDATEINFO => setinfo ($"driver.state") ($"reconnect.updateinfo")
  | RECONNECT_TRYING =>
      let max := reconnect_max_tries conf in
      if max =? 0 then liftD (set_exit_flag EF_EXIT_FAILURE)
      else
        setinfo ($"driver.state") ($"reconnect.trying");;
        count ← uget reconnect_count;
        if (count : Z) <? INT_MAX then
          umodify (fun s => set_reconnect_count s (count + 1));;
          uwhen ((max >? 0) && (max <? count + 1)) (liftD (set_exit_flag EF_EXIT_FAILURE))
        else uwhen (max >? 0) (liftD (set_exit_flag EF_EXIT_FAILURE))
  end.

Definition reconnect_ups : U bool :=
  setinfo ($"driver.state") ($"reconnect.trying");;
  opens ← uget u_open;
  umodify (fun s => set_u_open s (tail opens));;
  if default (-1) (head opens) >? 0 then setinfo ($"driver.state") ($"quiet");; mret true else mret false.

(** The item of an event, that the driver may use *)
Definition event_item (d : HIDData) : U (option hid_info) :=
  desc ← uget (fun s => hd_desc (u_hid s));
  only ← uget (fun s => hd_interrupt_only (u_hid s));
  let look type := FindObject_with_Path (item desc) (d_path d) (d_path_size d) type in
  let found :=
    if (only : Z) =? 0 then match look ITEM_FEATURE with Some x => Some x | None => look ITEM_INPUT end
    else look ITEM_INPUT in
  match found with None => mret None | Some _ => find_hid_info found end.

Fixpoint process_events (events : list HIDData) : U unit :=
  match events with
  | [] => mret tt
  | d :: events =>
      '(ret, value) ← liftH (HIDGetDataValue (Some d) (poll_interval conf));
      (match value with
       | Some value =>
           i ← event_item d;
           match i with Some i => _ ← ups_infoval_set i value; mret tt | None => mret tt end
       | None => mret tt
       end);;
      process_events events
  end.

(** The [switch] on the result of [HIDGetEvents]: the events, or nothing when the connection is lost *)
Definition get_events : U (option (list HIDData)) :=
  pipe ← uget use_interrupt_pipe;
  if negb pipe then mret (Some [])
  else
    '(n, events) ← liftH (HIDGetEvents MAX_EVENT_NUM);
    if (n : Z) =? 0 then
      umodify (fun s => set_interrupt_pipe_no_events_count s (interrupt_pipe_no_events_count s + 1));;
      tolerance ← uget interrupt_pipe_no_events_tolerance;
      count ← uget interrupt_pipe_no_events_count;
      if ((tolerance : Z) >=? 0) && (tolerance <? count) then lost;; mret None else mret (Some [])
    else if reconnect_error n then lost;; mret None
    else if n =? LIBUSB_ERROR_IO then
      umodify (fun s => set_interrupt_pipe_EIO_count s (interrupt_pipe_EIO_count s + 1));; lost;; mret None
    else
      uwhen (n >? 0) (umodify (fun s => set_interrupt_pipe_no_events_count s 0));;
      mret (Some events).

(** [false]: the function returns. *)
Definition reconnect (now : Z) : U bool :=
  last ← uget lastpoll;
  if now <? last + poll_interval conf then mret false
  else
    reconnect_trying RECONNECT_TRYING;;
    opened ← reconnect_ups;
    if negb opened then umodify (fun s => set_lastpoll s now);; liftD dstate_datastale;; mret false
    else
      umodify (fun s => set_interrupt_pipe_no_events_count (set_interrupt_pipe_EIO_count (set_u_hd s true) 0) 0);;
      reconnect_trying RECONNECT_UPDATEINFO;;
      ok ← hid_ups_walk HU_WALKMODE_INIT;
      if (ok : bool) then mret true else umodify (fun s => set_u_hd s false);; mret false.

Section Update.
Context (previous_battery_charge_value : double).

(** The full or the quick walk; [false] when the device is lost *)
Definition update_walk (now : Z) : U bool :=
  last ← uget lastpoll;
  freq ← uget pollfreq;
  changed ← uget data_has_changed;
  if (now >? last + freq) || changed then
    liftD alarm_init;;
    ok ← hid_ups_walk HU_WALKMODE_FULL_UPDATE;
    if negb ok then mret false
    else
      umodify (fun s => set_data_has_changed (set_lastpoll s now) false);;
      ups_alarm_set;;
      liftD alarm_commit;;
      mret true
  else hid_ups_walk HU_WALKMODE_QUICK_UPDATE.

Definition publish : U unit :=
  ups_status_set;;
  liftD buzzmode_commit;;
  liftD (status_commit previous_battery_charge_value);;
  liftD dstate_dataok.

Definition upsdrv_updateinfo : U unit :=
  now ← time;
  there ← uget u_hd;
  go ← (if (there : bool) then mret true else reconnect now);
  if negb go then mret tt
  else
    events ← get_events;
    match events with
    | None => mret tt
    | Some events =>
        process_events events;;
        liftD status_init;;
        liftD buzzmode_init;;
        ok ← update_walk now;
        if negb ok then mret tt
        else publish;; uwhen (negb there) (reconnect_trying RECONNECT_SUCCESS)
    end.
End Update.

(** ** Commands and settings *)

(** The value for the device; [None]: it is refused. *)
Definition device_value (i : hid_info) (val : option bytes) : U (option double) :=
  match hid2info i with
  | Some table =>
      '(v, e) ← udef (hu_find_valinfo table val);
      errno e;;
      mret (if (v =? -1) && (e =? EINVAL) then None else Some (of_long v))
  | None => mret (Some (match val with None => of_long 0 | Some val => of_long (strtol val 10).1.1 end))
  end.

Definition send_value (i : hid_info) (value : double) : U bool :=
  r ← liftH (HIDSetDataValue (hiddata i) value);
  if r =? 1 then umodify (fun s => set_data_has_changed s true);; mret true else mret false.

Definition setvar (varname : bytes) (val : option bytes) : U Z :=
  i ← find_nut_info varname;
  match i with
  | None => mret STAT_SET_UNKNOWN
  | Some i =>
      if negb (any_flag (info_flags i) ST_FLAG_RW) then mret STAT_SET_UNKNOWN
      else if any_flag (hidflags i) HU_FLAG_ABSENT then
        v ← udef val; setinfo (info_type i) v;; mret STAT_SET_HANDLED
      else if bool_decide (hidpath i = None) then mret STAT_SET_UNKNOWN
      else if bool_decide (val = None) && any_flag (hidflags i) HU_FLAG_PARAM_REQUIRED then mret STAT_SET_CONVERSION_FAILED
      else
        value ← device_value i val;
        match value with
        | None => mret STAT_SET_CONVERSION_FAILED
        | Some value =>
            ok ← send_value i value;
            mret (if (ok : bool) then STAT_SET_HANDLED else STAT_SET_UNKNOWN)
        end
  end.

(** The command of an item *)
Definition instcmd_item (i : hid_info) (extradata : option bytes) : U Z :=
  if negb (any_flag (hidflags i) HU_TYPE_CMD) then mret STAT_INSTCMD_INVALID
  else
    let val := match extradata with Some e => Some e | None => dfl i end in
    if bool_decide (val = None) && any_flag (hidflags i) HU_FLAG_PARAM_REQUIRED then mret STAT_INSTCMD_CONVERSION_FAILED
    else
      value ← device_value i val;
      match value with
      | None => mret STAT_INSTCMD_CONVERSION_FAILED
      | Some value =>
          ok ← send_value i value;
          mret (if (ok : bool) then STAT_INSTCMD_HANDLED else STAT_INSTCMD_FAILED)
      end.

Definition START_AUTO : bytes := $"ups.start.auto".

(** The alias and composite commands call the function again. *)
Fixpoint instcmd_fuel (fuel : nat) (cmdname : bytes) (extradata : option bytes) : U Z :=
  match fuel with
  | O => ufail (DFault OutOfFuel)
  | S fuel =>
      if strcaseeq cmdname ($"beeper.off") then instcmd_fuel fuel ($"beeper.disable") None
      else if strcaseeq cmdname ($"beeper.on") then instcmd_fuel fuel ($"beeper.enable") None
      else
        i ← find_nut_info cmdname;
        match i with
        | Some i => instcmd_item i extradata
        | None =>
            let shutdown (auto : bytes) (on : U (option bytes)) :=
              old ← getinfo START_AUTO;
              (match old with Some _ => _ ← setvar START_AUTO (Some auto); mret tt | None => mret tt end);;
              delay ← on;
              ret ← instcmd_fuel fuel ($"load.on.delay") delay;
              if negb (ret =? STAT_INSTCMD_HANDLED) then mret ret
              else delay ← getinfo ($"ups.delay.shutdown"); instcmd_fuel fuel ($"load.off.delay") delay in
            if strcaseeq cmdname ($"load.on") then instcmd_fuel fuel ($"load.on.delay") (Some ($"0"))
            else if strcaseeq cmdname ($"load.off") then instcmd_fuel fuel ($"load.off.delay") (Some ($"0"))
            else if strcaseeq cmdname ($"shutdown.return") then shutdown ($"yes") (getinfo ($"ups.delay.start"))
            else if strcaseeq cmdname ($"shutdown.stayoff") then shutdown ($"no") (mret (Some ($"-1")))
            else mret STAT_INSTCMD_INVALID
        end
  end.

(** The commands that are called are not aliases. *)
Definition instcmd : bytes -> option bytes -> U Z := instcmd_fuel 2.

(** ** Start *)

(** A threshold of the user, when the device has it *)
Definition user_value (var : bytes) (val : option bytes) : U unit :=
  old ← getinfo var;
  match old, val with
  | Some _, Some val => setinfo var (show_Z (strtol val 10).1.1)
  | _, _ => mret tt
  end.

Definition has_info (name : bytes) : U bool := i ← find_nut_info name; mret (bool_decide (is_Some i)).

Definition upsdrv_initinfo : U unit :=
  setinfo ($"driver.version.data") (hc_name conf);;
  ok ← hid_ups_walk HU_WALKMODE_INIT;
  if negb ok then ufail (DFault (Exited EXIT_FAILURE))
  else
    user_value ($"battery.charge.low") (hc_lowbatt conf);;
    user_value ($"ups.delay.start") (hc_ondelay conf);;
    user_value ($"ups.delay.shutdown") (hc_offdelay conf);;
    off ← has_info ($"load.off.delay");
    uwhen off (liftD (dstate_addcmd ($"load.off")));;
    on ← has_info ($"load.on.delay");
    uwhen on (liftD (dstate_addcmd ($"load.on")));;
    off ← has_info ($"load.off.delay");
    on ← (if (off : bool) then has_info ($"load.on.delay") else mret false);
    uwhen on (liftD (dstate_addcmd ($"shutdown.return"));; liftD (dstate_addcmd ($"shutdown.stayoff")));;
    (match hc_pollfreq conf with
     | Some v => umodify (fun s => set_pollfreq s (atoi v))
     | None => uwhen (hc_cps conf) (umodify (fun s => set_pollfreq s DEFAULT_POLLFREQ_CPS))
     end);;
    freq ← uget pollfreq;
    setinfo ($"driver.parameter.pollfreq") (show_Z freq);;
    uwhen (hc_pollonly conf) (umodify (fun s => set_use_interrupt_pipe s false));;
    let '(ok, t, _) := str_to_long (hc_tolerance conf) 10 in
    let tolerance := if negb (bool_decide (hc_tolerance conf = None)) && negb (ok =? 0) then t else -1 in
    umodify (fun s => set_interrupt_pipe_no_events_tolerance s tolerance);;
    setinfo ($"driver.parameter.interrupt_pipe_no_events_tolerance") (show_Z tolerance);;
    now ← time;
    umodify (fun s => set_lastpoll s now).
End Driver.
