(* ===== verification/UsbHidStatus.v ===== *)
(** * usbhid-ups: from flags to ups.status

    The flags that items report, and the words that the driver publishes for them. *)

From S2P Require Import Prelude CStr StrUtil StrFacts ParseConf ParseConfFacts StateTree StateFacts Tokens NumFacts.
From S2P Require Import Float64 DState DStateFacts DStatus DSock Wire DMirror DReplay DFollow DStatusFacts HidParser LibHid LibHidFacts HidInfo UsbHid.
From stdpp Require Import options.

(** ** Rules *)

Definition uwp {A} (m : U A) (s : ust) (Q : A -> ust -> Prop) : Prop :=
  match m s with inr (a, s') => Q a s' | inl _ => False end.

Lemma uwp_ret {A} (a : A) s (Q : A -> ust -> Prop) : Q a s -> uwp (mret a) s Q.
Proof. done. Qed.

Lemma uwp_bind {A B} (m : U A) (f : A -> U B) s Q : uwp m s (fun a s' => uwp (f a) s' Q) -> uwp (m ≫= f) s Q.
Proof. unfold uwp, mbind, U_bind. by destruct (m s) as [|[a s']]. Qed.

Lemma uwp_mono {A} (m : U A) s (P Q : A -> ust -> Prop) : uwp m s P -> (forall a s', P a s' -> Q a s') -> uwp m s Q.
Proof. unfold uwp. destruct (m s) as [|[a s']]; auto. Qed.

Lemma uwp_get {A} (f : ust -> A) s (Q : A -> ust -> Prop) : Q (f s) s -> uwp (uget f) s Q.
Proof. done. Qed.

Lemma uwp_modify f s (Q : unit -> ust -> Prop) : Q tt (f s) -> uwp (umodify f) s Q.
Proof. done. Qed.

Lemma uwp_when (b : bool) m s (Q : unit -> ust -> Prop) : (if b then uwp m s Q else Q tt s) -> uwp (uwhen b m) s Q.
Proof. by destruct b. Qed.

Lemma uwp_liftD {A} (m : D A) s a d (Q : A -> ust -> Prop) :
  m (u_d s) = inr (a, d) -> Q a (set_u_d s d) -> uwp (liftD m) s Q.
Proof. unfold uwp, liftD. by intros ->. Qed.

Lemma uwp_run {A} (m : U A) s Q : uwp m s Q -> exists a s', m s = inr (a, s') /\ Q a s'.
Proof. unfold uwp. destruct (m s) as [|[a s']]; [done|]. by exists a, s'. Qed.

(** ** Flags *)

Lemma has_bit_spec st bit : 0 <= bit -> has_bit st bit = Z.testbit st bit.
Proof.
  intros Hb. unfold has_bit, STATUS. rewrite Z.shiftl_1_l. destruct (Z.testbit st bit) eqn:E.
  - apply negb_true_iff, Z.eqb_neq. intros H0.
    assert (Z.testbit (Z.land st (2 ^ bit)) bit = true) as Ht by (by rewrite Z.land_spec, E, Z.pow2_bits_true).
    by rewrite H0, Z.bits_0 in Ht.
  - apply negb_false_iff, Z.eqb_eq. apply Z.bits_inj'. intros n Hn.
    rewrite Z.land_spec, Z.bits_0, Z.pow2_bits_eqb by done. destruct (Z.eqb_spec bit n) as [<-|]; [by rewrite E|by rewrite andb_false_r].
Qed.

(** The flag that a word names, and whether it is set *)
Definition flag_of (v : bytes) : option (Z * bool) :=
  let '(clear, name) :=
    match v with c :: rest => if Ascii.eqb c (chr 33) then (true, rest) else (false, v) | [] => (false, v) end in
  (fun i => (Z.log2 i.2, negb clear)) <$> find (fun i => strcaseeq i.1 name) status_info.

Lemma status_masks : forallb (fun i => (i.2 =? 2 ^ Z.log2 i.2) && (0 <=? Z.log2 i.2)) status_info = true.
Proof. vm_compute. reflexivity. Qed.

Lemma update_flag_bit v st n : 0 <= n ->
  Z.testbit (update_flag v st) n
  = match flag_of v with Some (b, set) => if n =? b then set else Z.testbit st n | None => Z.testbit st n end.
Proof.
  intros Hn. unfold update_flag, flag_of.
  set (p := match v with [] => _ | c :: rest => _ end). destruct p as [clear name].
  destruct (find _ status_info) as [[s m]|] eqn:E; [|done]. cbn [fmap option_fmap option_map fst snd].
  apply find_some in E as [E _]. pose proof status_masks as Hm. rewrite forallb_forall in Hm.
  specialize (Hm _ E). cbn [snd] in Hm. apply andb_true_iff in Hm as [Hm%Z.eqb_eq Hp%Z.leb_le].
  rewrite Hm, Z.log2_pow2 by done. set (b := Z.log2 m) in *. destruct clear; cbn [negb].
  - rewrite Z.land_spec, Z.lnot_spec, Z.pow2_bits_eqb by done. rewrite (Z.eqb_sym b n).
    destruct (n =? b); [by rewrite andb_false_r|by rewrite andb_true_r].
  - rewrite Z.lor_spec, Z.pow2_bits_eqb by done. rewrite (Z.eqb_sym b n).
    destruct (n =? b); [by rewrite orb_true_r|by rewrite orb_false_r].
Qed.

(** A UPS is not online and offline, and its battery is not full and not full, at the same time. *)
Definition exclusive (st : Z) : Prop :=
  (Z.testbit st ONLINE && Z.testbit st OFFLINE = false) /\ (Z.testbit st FULLYCHARGED && Z.testbit st NOTFULLYCHARGED = false).

Definition opposites : list bytes := [$"online"; $"offline"; $"fullycharged"; $"notfullycharged"].

(** Only these words set the four flags. *)
Lemma opposite_flag v b : lower v = v -> flag_of v = Some (b, true) ->
  b ∈ [ONLINE; OFFLINE; FULLYCHARGED; NOTFULLYCHARGED] -> v ∈ opposites.
Proof.
  intros Hl Hf Hb. unfold flag_of in Hf.
  assert (exists m, find (fun i => strcaseeq i.1 v) status_info = Some m /\ b = Z.log2 m.2) as ([w m] & E & ->).
  { destruct v as [|c rest]; [by vm_compute in Hf|]. destruct (Ascii.eqb c (chr 33)).
    - by destruct (find _ status_info) in Hf.
    - destruct (find _ status_info) as [m|]; [|done]. injection Hf as <-. by exists m. }
  apply find_some in E as [E Hc%strcaseeq_true]. cbn [fst snd] in *.
  assert (forallb (fun i => bool_decide (Z.log2 i.2 ∈ [ONLINE; OFFLINE; FULLYCHARGED; NOTFULLYCHARGED] -> lower i.1 ∈ opposites))
    status_info = true) as H by (vm_compute; reflexivity).
  rewrite forallb_forall in H. specialize (H _ E). apply bool_decide_eq_true in H. cbn [fst snd] in H.
  rewrite Hc, Hl in H. by apply H.
Qed.

(** The words of the tables are in lower case. *)
Lemma process_exclusive v st : lower v = v -> exclusive st -> exclusive (process_boolean_info v st).
Proof.
  intros Hl [H1 H2]. unfold process_boolean_info, exclusive.
  destruct (decide (v ∈ opposites)) as [Hv|Hv].
  - unfold opposites in Hv. rewrite !elem_of_cons, elem_of_nil in Hv.
    destruct Hv as [->|[->|[->|[->|[]]]]];
      repeat match goal with |- context [streq ?x ?y] => let b := eval vm_compute in (streq x y) in change (streq x y) with b end;
      cbv iota; rewrite !update_flag_bit by done.
    all: repeat match goal with |- context [flag_of ?x] => let y := eval vm_compute in (flag_of x) in
      assert (flag_of x = y) as -> by (vm_compute; reflexivity) end.
    all: simpl; rewrite ?andb_false_r; done.
  - assert (forall w, w ∈ opposites -> streq v w = false) as Hne.
    { intros w Hw. rewrite streq_spec. apply bool_decide_false. by intros ->. }
    rewrite !Hne by (unfold opposites; set_solver). rewrite !update_flag_bit by done.
    destruct (flag_of v) as [[b set]|] eqn:Ef; [|done].
    assert (set = true -> b ∉ [ONLINE; OFFLINE; FULLYCHARGED; NOTFULLYCHARGED]) as Hb.
    { intros -> Hin. by apply Hv, (opposite_flag v b). }
    destruct set; [specialize (Hb eq_refl); rewrite !not_elem_of_cons in Hb; destruct Hb as (? & ? & ? & ? & _)|clear Hb].
    + by rewrite !(proj2 (Z.eqb_neq _ _)) by congruence.
    + split; repeat case_match; try done; by rewrite ?andb_false_r.
Qed.

(** ** The words of a status *)

Definition TOKENS : list bytes :=
  [$"CAL"; $"OB"; $"OL"; $"DISCHRG"; $"CHRG"; $"LB"; $"OVER"; $"RB"; $"TRIM"; $"BOOST"; $"BYPASS"; $"OFF"].

Definition only (b : bool) (t : bytes) : list bytes := if b then [t] else [].

Section Plan.
Context (conf : hu_conf) (st : Z).

(** Online and discharging counts as calibration, when it was configured so. *)
Definition calibrating : bool :=
  has_bit st CALIB || (has_bit st ONLINE && has_bit st DISCHRG && onlinedischarge_calibration conf).

Definition power_words : list bytes :=
  only (has_bit st OFFLINE) ($"OB") ++
  if negb (has_bit st ONLINE) then only (has_bit st OFFLINE || has_bit st DISCHRG) ($"OB")
  else if has_bit st DISCHRG then
    only (onlinedischarge_calibration conf) ($"CAL") ++ only (onlinedischarge_onbattery conf) ($"OB") ++
    only (negb (onlinedischarge_onbattery conf) && negb (onlinedischarge_calibration conf)) ($"OL")
  else [$"OL"].

Definition charging (charge : option bytes) : bool :=
  has_bit st CHRG &&
  (has_bit st NOTFULLYCHARGED
   || (negb (has_bit st FULLYCHARGED) && match charge with Some c => (atoi c >? 0) && (atoi c <? 100) | None => false end)).

Definition low_battery : bool := has_bit st LOWBATT || has_bit st TIMELIMITEXP || has_bit st SHUTDOWNIMM.
Definition bad_battery : bool := has_bit st REPLACEBATT || has_bit st NOBATTERY.

(** May LB and RB be held back? *)
Definition patient : bool :=
  negb (lbrb_log_delay_sec conf <? 1) && (calibrating || lbrb_log_delay_without_calibrating conf) && has_bit st ONLINE.

Definition expired (now start : Z) : bool := negb (start =? 0) && (now - start >? lbrb_log_delay_sec conf).

Definition next_start (held : bool) (now start : Z) : Z := if held && (start =? 0) then now else start.

Definition lb_start (now start : Z) : Z := if low_battery then next_start patient now start else 0.
Definition shows_lb (now start : Z) : bool := low_battery && (negb patient || expired now start).
Definition shows_rb (now lb start : Z) : bool := bad_battery && (negb (patient && negb (lb =? 0)) || expired now start).

Definition status_words (charge : option bytes) (now lb rb : Z) : list bytes :=
  only (has_bit st CALIB) ($"CAL") ++ power_words
  ++ only (has_bit st DISCHRG && negb (has_bit st DEPLETED)) ($"DISCHRG")
  ++ only (charging charge) ($"CHRG")
  ++ only (shows_lb now lb) ($"LB")
  ++ only (has_bit st OVERLOAD) ($"OVER")
  ++ only (shows_rb now (lb_start now lb) rb) ($"RB")
  ++ only (has_bit st TRIM) ($"TRIM")
  ++ only (has_bit st BOOST) ($"BOOST")
  ++ only (has_bit st BYPASSAUTO || has_bit st BYPASSMAN) ($"BYPASS")
  ++ only (has_bit st OFF) ($"OFF").
End Plan.

(** The words that were set so far, each once; LB is left to ignorelb. *)
Definition add_status (ig : Z) (ws : list bytes) (t : bytes) : list bytes :=
  if decide (t ∈ ws) then ws else if negb (ig =? 0) && streq t ($"LB") then ws else ws ++ [t].

Definition plan_words (ig : Z) (ts : list bytes) : list bytes := fold_left (add_status ig) ts [].

Definition good (ws : list bytes) : Prop := NoDup ws /\ Forall (fun w => w ∈ TOKENS) ws.

Lemma good_nil : good [].
Proof. split; [by apply NoDup_nil_2|done]. Qed.

Lemma add_good ig ws t : good ws -> t ∈ TOKENS -> good (add_status ig ws t).
Proof.
  intros [Hn Hf] Ht. unfold add_status. destruct (decide _) as [?|Hin]; [done|]. case_match; [done|]. split.
  - apply NoDup_app. split_and!; [done| |by apply NoDup_singleton]. intros w Hw ->%list_elem_of_singleton. done.
  - apply Forall_app. by rewrite Forall_singleton.
Qed.

Definition sizes (ws : list bytes) : nat := sum_list_with (fun w => S (length w)) ws.

Lemma join_sizes ws : (length (join ws) <= sizes ws)%nat.
Proof.
  induction ws as [|w ws IH]; [done|]. unfold sizes in *. cbn [join sum_list_with]. destruct ws as [|w' ws]; [lia|].
  rewrite !length_app. cbn [length] in *. lia.
Qed.

Lemma good_sizes ws : good ws -> (sizes ws <= sizes TOKENS)%nat.
Proof.
  intros [Hn Hf]. destruct (submseteq_Permutation ws TOKENS) as [k Hk].
  { apply NoDup_submseteq; [done|]. by apply Forall_forall. }
  unfold sizes. rewrite Hk, sum_list_with_app. lia.
Qed.

Lemma tokens_words : Forall (fun t => word t /\ words t = [t] /\ is_alarm t = false /\ strcaseeq t ($"LB") = streq t ($"LB")) TOKENS.
Proof.
  unfold word. apply (bool_decide_unpack _). vm_compute. exact I.
Qed.

Lemma token_word t : t ∈ TOKENS -> word t.
Proof. intros Ht. pose proof tokens_words as H. rewrite Forall_forall in H. by apply H. Qed.

Lemma good_words ws : good ws -> Forall word ws.
Proof.
  intros [_ Hf]. eapply Forall_impl; [exact Hf|]. intros w Hw. pose proof tokens_words as H. rewrite Forall_forall in H. by apply H.
Qed.

(** There is room for another of the tokens. *)
Lemma one_more_fits ws t : good ws -> t ∈ TOKENS -> t ∉ ws -> (S (length (join (ws ++ [t]))) < ST_MAX_VALUE_LEN)%nat.
Proof.
  intros Hg Ht Hin. assert (good (ws ++ [t])) as Hg'.
  { pose proof (add_good 0 ws t Hg Ht) as Ha. unfold add_status in Ha. by rewrite decide_False in Ha. }
  pose proof (join_sizes (ws ++ [t])) as Hj. pose proof (good_sizes _ Hg') as Hs.
  assert (sizes TOKENS < 200)%nat as E by (apply Nat.ltb_lt; reflexivity). unfold ST_MAX_VALUE_LEN. lia.
Qed.

Lemma one_whole ws t (b : bool) :
  good ws -> t ∈ TOKENS -> whole ST_MAX_VALUE_LEN ws (if b then [t] else []) = true.
Proof.
  intros Hg Ht. destruct b; [|done]. cbn [whole]. rewrite andb_true_r. case_bool_decide as Hin; [done|].
  pose proof (one_more_fits ws t Hg Ht Hin). apply negb_true_iff, Nat.eqb_neq. lia.
Qed.

(** Setting one of the tokens *)
Lemma status_token d ws t :
  good ws -> t ∈ TOKENS ->
  status_set t (with_status d ws 0) = inr (tt, with_status d (add_status (b_ignorelb (d_status d)) ws t) 0).
Proof.
  intros Hg Ht. pose proof tokens_words as Hw. rewrite Forall_forall in Hw. destruct (Hw t Ht) as (H1 & H2 & H3 & H4).
  pose proof (status_sets_run [t] d ws 0 (good_words ws Hg)) as H. cbn [status_sets concat fmap list_fmap map] in H.
  rewrite app_nil_r, H2 in H. cbn [existsb] in H. rewrite filter_cons, filter_nil in H.
  assert (forall P `{Decision P}, whole ST_MAX_VALUE_LEN ws (if decide P then [t] else []) = true) as Hwh
    by (intros P HP; destruct (decide P); [exact (one_whole ws t true Hg Ht)|done]).
  specialize (H (Hwh _ _)). rewrite H3 in H. cbn [orb] in H.
  unfold mbind, D_bind in H. destruct (status_set t (with_status d ws 0)) as [|[[] d']]; [done|]. unfold mret, D_ret in H. injection H as ->. do 3 f_equal.
  unfold accepted, add_status. rewrite H3, H4. cbn [negb]. rewrite andb_true_r.
  destruct (decide (t ∈ ws)) as [Hin|Hin].
  - case_decide; [|done]. cbn [fold_left]. unfold add_word. by rewrite decide_True.
  - destruct (negb (b_ignorelb (d_status d) =? 0) && streq t ($"LB")); cbn [negb]; [by rewrite decide_False|].
    rewrite decide_True by done. cbn [fold_left]. unfold add_word. rewrite decide_False by done.
    by rewrite (proj2 (Nat.ltb_lt _ _) (one_more_fits ws t Hg Ht Hin)).
Qed.

(** ** The run *)

(** Another text of buzzwords *)
Definition set_buzz (d : dstate) (bz : bytes) : dstate := set_d_status d (set_b_buzzmode_buf (d_status d) bz).

(** [s] is [s0] but for the words in the two buffers and what is only logged about. *)
Record at_words (s0 : ust) (d : dstate) (ws : list bytes) (s : ust) : Prop := {
  aw_d : exists bz, u_d s = with_status (set_buzz d bz) ws 0;
  aw_hid : u_hid s = u_hid s0;
  aw_table : hid2nut s = hid2nut s0;
  aw_status : ups_status s = ups_status s0;
  aw_hd : u_hd s = u_hd s0;
  aw_lb : last_lb_start s = last_lb_start s0;
  aw_rb : last_rb_start s = last_rb_start s0
}.

(** A piece of the function that sets the words [ts] *)
Definition says (m : U unit) (s0 : ust) (d : dstate) (ts : list bytes) : Prop :=
  forall ws s, good ws -> at_words s0 d ws s ->
    uwp m s (fun _ s' => at_words s0 d (fold_left (add_status (b_ignorelb (d_status d))) ts ws) s').

Lemma fold_good ig ts ws : good ws -> Forall (fun t => t ∈ TOKENS) ts -> good (fold_left (add_status ig) ts ws).
Proof. intros Hg Ht. revert ws Hg. induction Ht as [|t ts Ht _ IH]; intros ws Hg; [done|]. by apply IH, add_good. Qed.

Lemma says_status s0 d t : t ∈ TOKENS -> says (status t) s0 d [t].
Proof.
  intros Ht ws s Hg [[bz E1] ? ? ? ? ? ?]. eapply uwp_liftD; [rewrite E1; by apply status_token|]. split; [by exists bz|done..].
Qed.

Lemma says_nothing m s0 d :
  (forall s, exists s', m s = inr (tt, s') /\ u_d s' = u_d s /\ u_hid s' = u_hid s /\ hid2nut s' = hid2nut s
    /\ ups_status s' = ups_status s /\ u_hd s' = u_hd s /\ last_lb_start s' = last_lb_start s /\ last_rb_start s' = last_rb_start s) ->
  says m s0 d [].
Proof.
  intros H ws s Hg [? ? ? ? ? ? ?]. destruct (H s) as (s' & E & Ed & ? & ? & ? & ? & ? & ?). unfold uwp. rewrite E. cbn [fold_left].
  split; rewrite ?Ed; congruence || done.
Qed.

Lemma says_ret s0 d : says (mret tt) s0 d [].
Proof. by intros ws s Hg H. Qed.

Lemma says_bind m1 m2 s0 d ts1 ts2 :
  Forall (fun t => t ∈ TOKENS) ts1 -> says m1 s0 d ts1 -> says m2 s0 d ts2 -> says (m1;; m2) s0 d (ts1 ++ ts2).
Proof.
  intros Ht H1 H2 ws s Hg Hs. apply uwp_bind. eapply uwp_mono; [by apply H1|]. intros [] s1 Hs1. rewrite fold_left_app.
  apply H2; [by apply fold_good|done].
Qed.

Lemma says_when (b : bool) m s0 d ts : (b = true -> says m s0 d ts) -> says (uwhen b m) s0 d (if b then ts else []).
Proof. destruct b; [by intros H; apply H|]. intros _. apply says_ret. Qed.

Lemma says_when_token (b : bool) s0 d t : t ∈ TOKENS -> says (uwhen b (status t)) s0 d (only b t).
Proof. intros Ht. apply says_when. intros _. by apply says_status. Qed.

Lemma only_tokens b t : t ∈ TOKENS -> Forall (fun t => t ∈ TOKENS) (only b t).
Proof. intros Ht. destruct b; [by apply Forall_singleton|done]. Qed.

(** A value that is read from the state *)
Lemma says_get {A} (f : ust -> A) (k : A -> U unit) s0 d ts :
  (forall a, says (k a) s0 d ts) -> says (a ← uget f; k a) s0 d ts.
Proof. intros H ws s Hg Hs. apply uwp_bind, uwp_get. by apply H. Qed.

Lemma says_get_eq {A} (f : ust -> A) (k : A -> U unit) s0 d ts :
  (forall ws s, at_words s0 d ws s -> f s = f s0) -> says (k (f s0)) s0 d ts -> says (a ← uget f; k a) s0 d ts.
Proof. intros Hf H ws s Hg Hs. apply uwp_bind, uwp_get. rewrite (Hf ws s Hs). by apply H. Qed.

Lemma says_getinfo var (k : option bytes -> U unit) s0 d ts :
  says (k (state_getinfo (d_root d) var)) s0 d ts -> says (a ← getinfo var; k a) s0 d ts.
Proof.
  intros H ws s Hg Hs. apply uwp_bind. unfold getinfo, dstate_getinfo, dget.
  eapply uwp_liftD; [done|]. pose proof Hs as [[bz E] ? ? ? ? ? ?].
  change (d_root d) with (d_root (with_status (set_buzz d bz) ws 0)) in H. rewrite <- E in H. apply H; [done|]. by split; [exists bz|..].
Qed.

(** The tokens, for proofs *)
Ltac token := first [apply list_elem_of_here | apply list_elem_of_further; token].
Ltac tokens := repeat first [apply Forall_app_2 | apply only_tokens; unfold TOKENS; token | apply Forall_cons_2; [unfold TOKENS; token|]
  | apply Forall_nil_2].

Lemma get_CAL s0 d ws s (Q : bool -> ust -> Prop) :
  good ws -> at_words s0 d ws s -> (forall s', at_words s0 d ws s' -> s' = s -> Q (bool_decide ($"CAL" ∈ ws)) s') ->
  uwp (liftD (status_get ($"CAL"))) s Q.
Proof.
  intros Hg Hs HQ. unfold status_get, status_get_field, dget, mret, D_ret, mbind, D_bind.
  eapply uwp_liftD; [done|]. pose proof Hs as [[bz E] ? ? ? ? ? ?].
  assert (set_u_d s (u_d s) = s) as Es by (by destruct s). rewrite Es.
  assert (str_contains_token (Some (b_status_buf (d_status (u_d s)))) (Some ($"CAL")) = bool_decide ($"CAL" ∈ ws)) as ->.
  { rewrite E. change (b_status_buf (d_status (with_status (set_buzz d bz) ws 0))) with (join ws).
    rewrite str_contains_token_spec, words_join; [done|by apply good_words|]. apply token_word. unfold TOKENS. token. }
  by apply HQ.
Qed.

Lemma says_CAL s0 d : says status_set_CAL s0 d [$"CAL"].
Proof.
  intros ws s Hg Hs. unfold status_set_CAL. apply uwp_bind. eapply get_CAL; [done..|]. intros s1 Hs1 ->.
  apply uwp_bind, uwp_get, uwp_bind, uwp_get, uwp_bind, uwp_when.
  assert (forall s2, at_words s0 d ws s2 ->
    uwp (uwhen (negb (bool_decide ($"CAL" ∈ ws))) (status ($"CAL"))) s2
      (fun _ s' => at_words s0 d (fold_left (add_status (b_ignorelb (d_status d))) [$"CAL"] ws) s')) as Hlast.
  { intros s2 H2. apply uwp_when. case_bool_decide as Hin; cbn [negb].
    - cbn [fold_left]. unfold add_status. by rewrite decide_True.
    - apply says_status; [unfold TOKENS; token|done|done]. }
  case_match; [|by apply Hlast]. apply uwp_modify, Hlast. destruct Hs. by split.
Qed.

Section Run.
Context (conf : hu_conf).

(** The throttle of a log message *)
Lemma throttle_quiet s0 d ws s :
  good ws -> at_words s0 d ws s -> uwp (throttle_log conf) s (fun _ s' => at_words s0 d ws s').
Proof.
  intros Hg Hs. unfold throttle_log, getinfo, dstate_getinfo, dget. apply uwp_bind. eapply uwp_liftD; [done|].
  assert (at_words s0 d ws (set_u_d s (u_d s))) as H1 by (destruct Hs; split; done).
  apply uwp_bind, uwp_get, uwp_bind.
  assert (forall a s1, at_words s0 d ws s1 -> uwp (stamp ← uget log_throttle_timestamp; sec ← uget log_throttle_sec; now ← time;
    mret (fst a || (((stamp : Z) >? 0) && ((sec : Z) >=? 0) && (now - stamp >=? sec)), (snd a : Z))) s1 (fun _ s' => at_words s0 d ws s')) as Hrest.
  { intros a s1 Hs1. by repeat (apply uwp_bind, uwp_get). }
  destruct (state_getinfo _ _); [by apply uwp_ret, Hrest|].
  apply uwp_bind, uwp_get, uwp_bind, uwp_when. case_match; [apply uwp_modify|]; apply uwp_ret, Hrest; [|done].
  destruct H1. by split.
Qed.

Lemma says_online_discharging s0 d st :
  says (online_discharging conf st) s0 d
    (only (onlinedischarge_calibration conf) ($"CAL") ++ only (onlinedischarge_onbattery conf) ($"OB") ++
     only (negb (onlinedischarge_onbattery conf) && negb (onlinedischarge_calibration conf)) ($"OL")).
Proof.
  unfold online_discharging. apply says_bind; [tokens|apply says_when; intros _; apply says_CAL|].
  apply says_bind; [tokens|apply says_when_token; unfold TOKENS; token|].
  destruct (negb (onlinedischarge_onbattery conf) && negb (onlinedischarge_calibration conf)); [|apply says_ret].
  change (only true ($"OL")) with ([$"OL"] ++ []). apply says_bind; [tokens|apply says_status; unfold TOKENS; token|].
  destruct (has_bit st CALIB); [apply says_ret|].
  intros ws s Hg Hs. apply uwp_bind. eapply uwp_mono; [by apply throttle_quiet|]. intros [log cc] s1 Hs1.
  apply uwp_when. destruct log; [|done]. apply uwp_bind, uwp_get, uwp_bind, uwp_modify, uwp_bind, uwp_get, uwp_when.
  case_match; [apply uwp_modify|]; destruct Hs1; by split.
Qed.

Lemma says_power s0 d st : says (status_power conf st) s0 d (power_words conf st).
Proof.
  unfold status_power, power_words. apply says_bind; [tokens|apply says_when_token; unfold TOKENS; token|].
  destruct (has_bit st ONLINE); cbn [negb].
  - destruct (has_bit st DISCHRG); [apply says_online_discharging|apply says_status; unfold TOKENS; token].
  - destruct (has_bit st OFFLINE); [apply says_status; unfold TOKENS; token|].
    apply says_when_token. unfold TOKENS; token.
Qed.

Lemma says_chrg s0 d st :
  says (status_chrg st) s0 d (only (charging st (state_getinfo (d_root d) ($"battery.charge"))) ($"CHRG")).
Proof.
  unfold status_chrg, charging. destruct (has_bit st CHRG); [|apply says_ret]. cbn [uwhen andb].
  destruct (has_bit st NOTFULLYCHARGED); [apply says_status; unfold TOKENS; token|].
  destruct (has_bit st FULLYCHARGED); [apply says_ret|]. cbn [negb orb andb].
  apply says_getinfo. destruct (state_getinfo _ _) as [c|]; [|apply says_ret]. apply says_when_token. unfold TOKENS; token.
Qed.
End Run.

Lemma says_step m s0 d ts ws s (Q : unit -> ust -> Prop) :
  says m s0 d ts -> good ws -> at_words s0 d ws s ->
  (forall s', at_words s0 d (fold_left (add_status (b_ignorelb (d_status d))) ts ws) s' -> Q tt s') -> uwp m s Q.
Proof. intros H Hg Hs HQ. eapply uwp_mono; [by apply H|]. intros [] s' Hs'. by apply HQ. Qed.

(** Only the two start times of [s0] change. *)
Lemma at_lb s0 d ws s x : at_words s0 d ws s -> at_words (set_last_lb_start s0 x) d ws (set_last_lb_start s x).
Proof. intros [? ? ? ? ? ? ?]. by split. Qed.
Lemma at_rb s0 d ws s x : at_words s0 d ws s -> at_words (set_last_rb_start s0 x) d ws (set_last_rb_start s x).
Proof. intros [? ? ? ? ? ? ?]. by split. Qed.
Lemma at_lb_same s0 d ws s : at_words s0 d ws s -> at_words (set_last_lb_start s0 (last_lb_start s0)) d ws s.
Proof. intros [? ? ? ? ? ? ?]. by split. Qed.
Lemma at_rb_same s0 d ws s : at_words s0 d ws s -> at_words (set_last_rb_start s0 (last_rb_start s0)) d ws s.
Proof. intros [? ? ? ? ? ? ?]. by split. Qed.

Section Held.
Context (conf : hu_conf) (st : Z).

Notation now s := (hd_now (u_hid s)).
Notation added d ts ws := (fold_left (add_status (b_ignorelb (d_status d))) ts ws).

Lemma negb_patient :
  (lbrb_log_delay_sec conf <? 1) || (negb (calibrating conf st) && negb (lbrb_log_delay_without_calibrating conf))
  || negb (has_bit st ONLINE) = negb (patient conf st).
Proof.
  unfold patient. destruct (lbrb_log_delay_sec conf <? 1), (calibrating conf st), (lbrb_log_delay_without_calibrating conf),
    (has_bit st ONLINE); done.
Qed.

Lemma lb_run s0 d ws s :
  good ws -> at_words s0 d ws s ->
  uwp (status_lb conf st (calibrating conf st)) s (fun _ s' =>
    at_words (set_last_lb_start s0 (lb_start conf st (now s0) (last_lb_start s0))) d
      (added d (only (shows_lb conf st (now s0) (last_lb_start s0)) ($"LB")) ws) s').
Proof.
  intros Hg Hs. unfold status_lb, shows_lb, lb_start. fold (low_battery st). rewrite negb_patient.
  destruct (low_battery st); cbn [andb]; [|apply uwp_modify; by apply at_lb].
  destruct (patient conf st); cbn [negb orb]; unfold next_start; cbn [andb].
  - unfold patience, expired. apply uwp_bind, uwp_get, uwp_bind, uwp_get. rewrite (aw_lb _ _ _ _ Hs), (aw_hid _ _ _ _ Hs).
    destruct (last_lb_start s0 =? 0); cbn [negb andb]; [apply uwp_modify; by apply at_lb|].
    eapply says_step; [apply says_when_token; unfold TOKENS; token|done|done|]. intros s' H'. by apply at_lb_same.
  - eapply says_step; [apply says_status; unfold TOKENS; token|done|done|]. intros s' H'. by apply at_lb_same.
Qed.

Lemma rb_run s0 d ws s :
  good ws -> at_words s0 d ws s ->
  exists rb, uwp (status_rb conf st (calibrating conf st)) s (fun _ s' =>
    at_words (set_last_rb_start s0 rb) d
      (added d (only (shows_rb conf st (now s0) (last_lb_start s0) (last_rb_start s0)) ($"RB")) ws) s').
Proof.
  intros Hg Hs. unfold status_rb, shows_rb. fold (bad_battery st).
  destruct (bad_battery st); cbn [andb]; [|eexists; apply uwp_modify; by apply at_rb].
  assert (forall Q, uwp (if negb (patient conf st) || (last_lb_start s0 =? 0) then status ($"RB")
     else patience conf set_last_rb_start last_rb_start ($"RB")) s Q ->
     uwp (lb ← uget last_lb_start;
      if (lbrb_log_delay_sec conf <? 1) || (negb (calibrating conf st) && negb (lbrb_log_delay_without_calibrating conf))
         || ((lb : Z) =? 0) || negb (has_bit st ONLINE)
      then status ($"RB") else patience conf set_last_rb_start last_rb_start ($"RB")) s Q) as Hif.
  { intros Q HQ. apply uwp_bind, uwp_get. rewrite (aw_lb _ _ _ _ Hs).
    match goal with |- uwp (if ?b then _ else _) _ _ => replace b with (negb (patient conf st) || (last_lb_start s0 =? 0)); [done|] end.
    rewrite <- negb_patient. destruct (lbrb_log_delay_sec conf <? 1), (calibrating conf st),
      (lbrb_log_delay_without_calibrating conf), (has_bit st ONLINE), (last_lb_start s0 =? 0); done. }
  destruct (patient conf st), (last_lb_start s0 =? 0); cbn [negb orb andb] in *.
  2: { unfold expired. destruct (last_rb_start s0 =? 0) eqn:E0; cbn [negb andb]; eexists; apply Hif; unfold patience;
         apply uwp_bind, uwp_get, uwp_bind, uwp_get; rewrite (aw_rb _ _ _ _ Hs), (aw_hid _ _ _ _ Hs), E0.
       - apply uwp_modify. by apply at_rb.
       - eapply says_step; [apply says_when_token; unfold TOKENS; token|done|done|]. intros s' H'. by apply at_rb_same. }
  all: exists (last_rb_start s0); apply Hif; eapply says_step; [apply says_status; unfold TOKENS; token|done|done|];
    intros s' H'; by apply at_rb_same.
Qed.
End Held.

(** ** The whole function *)

Lemma says_buzz (b : bool) w s0 d : says (uwhen b (liftD (buzzmode_set w))) s0 d [].
Proof.
  intros ws s Hg Hs. apply uwp_when. destruct b; [|done]. pose proof Hs as [[bz E] ? ? ? ? ? ?].
  unfold buzzmode_set, status_get_field, status_upd, dget, dmodify, mbind, D_bind. eapply uwp_liftD; [done|].
  split; try done. eexists. cbn [u_d set_u_d fold_left]. rewrite E. reflexivity.
Qed.

Lemma added_words ig ts ws t :
  t ∈ fold_left (add_status ig) ts ws <-> t ∈ ws \/ (t ∈ ts /\ (ig = 0 \/ t <> $"LB")).
Proof.
  revert ws. induction ts as [|u ts IH]; intros ws; cbn [fold_left]; [set_solver|]. rewrite IH.
  assert (t ∈ add_status ig ws u <-> t ∈ ws \/ (t = u /\ (ig = 0 \/ t <> $"LB"))) as ->; [|set_solver].
  unfold add_status. destruct (decide (u ∈ ws)) as [Hu|Hu]; [split; [by left|by intros [?|[-> _]]]|].
  rewrite streq_spec. destruct (Z.eqb_spec ig 0) as [->|Hig]; cbn [negb andb]; [set_solver|].
  case_bool_decide as Hl; [subst u|]; [split; [by left|intros [?|[-> [?|?]]]; done]|].
  rewrite elem_of_app, list_elem_of_singleton. split; [intros [?| ->]; [by left|right; split; [done|by right]]|intros [?|[-> _]]; [by left|by right]].
Qed.

Lemma only_elem b u t : t ∈ only b u <-> b = true /\ t = u.
Proof. destruct b; cbn; rewrite ?list_elem_of_singleton; [naive_solver|]. split; [by intros ?%elem_of_nil|by intros [? _]]. Qed.

Lemma power_CAL conf st : $"CAL" ∈ power_words conf st <-> has_bit st ONLINE && has_bit st DISCHRG && onlinedischarge_calibration conf = true.
Proof.
  unfold power_words. destruct (has_bit st ONLINE), (has_bit st DISCHRG), (has_bit st OFFLINE), (onlinedischarge_calibration conf),
    (onlinedischarge_onbattery conf); rewrite list_elem_of_In; cbn; split; intros H; try done; repeat destruct H as [H|H]; try done; auto.
Qed.

(** ** Other variables *)

(** At most the variable [var] is another one. *)
Record touched (var : bytes) (d d' : dstate) : Prop := {
  to_healthy : healthy d';
  to_bst : bst (d_root d');
  to_status : d_status d' = d_status d;
  to_others : forall v, lower v <> lower var -> state_tree_find (d_root d') v = state_tree_find (d_root d) v
}.

Lemma other_key t t' var v f :
  bst t -> bst t' -> to_map t' = partial_alter f (lower var) (to_map t) -> lower v <> lower var ->
  state_tree_find t' v = state_tree_find t v.
Proof. intros Hb Hb' Hm Hne. rewrite !find_lookup, Hm by done. by rewrite lookup_partial_alter_ne by congruence. Qed.

Lemma setinfo_touches var text d :
  healthy d -> bst (d_root d) -> (length var <= NAME_LIMIT)%nat ->
  exists r d', dstate_setinfo var text d = inr (r, d') /\ touched var d d'.
Proof.
  intros Hh Hb Hv. destruct (setinfo_healthy d var text Hh Hv) as (r & d' & E & Hh' & Hr & Hs).
  destruct (state_setinfo_spec (d_now d) (d_root d) var (snprintf_s ST_MAX_VALUE_LEN text) Hb) as (Hb' & Hm & _).
  rewrite <- Hr in Hb', Hm. exists r, d'. split; [done|]. split; [done..|]. intros v Hne. by eapply other_key.
Qed.

Lemma delinfo_touches var d :
  healthy d -> bst (d_root d) -> (length var <= NAME_LIMIT)%nat ->
  exists r d', dstate_delinfo var d = inr (r, d') /\ touched var d d'.
Proof.
  intros Hh Hb Hv. unfold dstate_delinfo, tree_op, dget, dmodify, dwhen, mbind, D_bind.
  destruct (delinfo_if_spec deletable (d_root d) var Hb) as (Hb' & Hm & _). rewrite <- delinfo_eq in Hb', Hm.
  destruct (state_delinfo (d_root d) var) as [t ret]. cbn [fst] in *.
  assert (healthy (set_d_root d t)) as Hh1 by (by apply (healthy_change d)).
  assert (forall d', healthy d' -> d_root d' = t -> d_status d' = d_status d -> touched var d d') as Ht.
  { intros d' H1 H2 H3. split; [done|by rewrite H2|done|]. intros v Hne. rewrite H2. by eapply other_key. }
  destruct (ret =? 1).
  - rewrite send_to_all_calm; [|done|].
    + eexists _, _. split; [done|]. apply Ht; [|done|done]. destruct Hh1 as [? [? ?] ?]. by repeat split.
    + split; [done|]. unfold NAME_LIMIT, ST_SOCK_BUF_LEN in *. rewrite !length_app. simpl. lia.
  - eexists _, _. split; [done|]. by apply Ht.
Qed.

Lemma touched_trans_others var d d' v n :
  touched var d d' -> lower v <> lower var -> state_tree_find (d_root d) v = n -> state_tree_find (d_root d') v = n.
Proof. intros [_ _ _ H] Hne <-. by apply H. Qed.

Lemma set_u_d_same s : set_u_d s (u_d s) = s.
Proof. by destruct s. Qed.

(** The reason of a transfer *)
Lemma transfer_run st s :
  healthy (u_d s) -> bst (d_root (u_d s)) ->
  uwp (if has_bit st VRANGE then setinfo TRANSFER ($"input voltage out of range")
       else if has_bit st FRANGE then setinfo TRANSFER ($"input frequency out of range")
       else _ ← liftD (dstate_delinfo TRANSFER); mret tt) s
    (fun _ s' => exists d', s' = set_u_d s d' /\ touched TRANSFER (u_d s) d').
Proof.
  intros Hh Hb. assert (length TRANSFER <= NAME_LIMIT)%nat as Hl by (apply Nat.leb_le; reflexivity).
  assert (forall text, uwp (setinfo TRANSFER text) s (fun _ s' => exists d', s' = set_u_d s d' /\ touched TRANSFER (u_d s) d')) as Hset.
  { intros text. destruct (setinfo_touches TRANSFER text (u_d s) Hh Hb Hl) as (r & d' & E & Ht).
    unfold setinfo. apply uwp_bind. eapply uwp_liftD; [exact E|]. apply uwp_ret. by exists d'. }
  destruct (has_bit st VRANGE); [apply Hset|]. destruct (has_bit st FRANGE); [apply Hset|].
  destruct (delinfo_touches TRANSFER (u_d s) Hh Hb Hl) as (r & d' & E & Ht).
  apply uwp_bind. eapply uwp_liftD; [exact E|]. apply uwp_ret. by exists d'.
Qed.

(** What [ups_status_set] does after that, from an empty buffer *)
Lemma words_run conf s d :
  at_words s d [] s ->
  let st := ups_status s in
  let ig := b_ignorelb (d_status d) in
  uwp (uwhen (has_bit st CALIB) status_set_CAL;;
    uwhen (negb (has_bit st DISCHRG)) (umodify (fun s => set_log_throttle_charge (set_log_throttle_timestamp s 0) (-1)));;
    status_power conf st;;
    isCalibrating ← liftD (status_get ($"CAL"));
    uwhen (has_bit st DISCHRG && negb (has_bit st DEPLETED)) (status ($"DISCHRG"));;
    status_chrg st;;
    status_lb conf st isCalibrating;;
    uwhen (has_bit st OVERLOAD) (status ($"OVER"));;
    status_rb conf st isCalibrating;;
    uwhen (has_bit st TRIM) (status ($"TRIM"));;
    uwhen (has_bit st BOOST) (status ($"BOOST"));;
    uwhen (has_bit st BYPASSAUTO || has_bit st BYPASSMAN) (status ($"BYPASS"));;
    uwhen (has_bit st ECOMODE) (liftD (buzzmode_set ($"vendor:default:ECO")));;
    uwhen (has_bit st ESSMODE) (liftD (buzzmode_set ($"vendor:default:ESS")));;
    uwhen (has_bit st OFF) (status ($"OFF"));;
    if (isCalibrating : bool) then mret tt
    else
      start ← uget last_calibration_start;
      now ← time;
      uwhen (negb ((start : Z) =? 0)) (umodify (fun s => set_last_calibration_finish s now));;
      umodify (fun s => set_last_calibration_start s 0)) s
    (fun _ s' => (exists bz, u_d s' = with_status (set_buzz d bz)
        (plan_words ig (status_words conf st (state_getinfo (d_root d) ($"battery.charge")) (hd_now (u_hid s))
           (last_lb_start s) (last_rb_start s))) 0)
      /\ u_hid s' = u_hid s /\ hid2nut s' = hid2nut s /\ ups_status s' = st /\ u_hd s' = u_hd s).
Proof.
  intros Hs st ig. unfold plan_words, status_words. rewrite !fold_left_app.
  assert (forall conf st, Forall (fun t => t ∈ TOKENS) (power_words conf st)) as Hpow.
  { intros c x. unfold power_words. destruct (negb (has_bit x ONLINE)); [tokens|]. destruct (has_bit x DISCHRG); tokens. }
  apply uwp_bind. eapply says_step; [apply says_when; intros _; apply says_CAL|apply good_nil|exact Hs|]. intros s1 H1.
  fold (only (has_bit st CALIB) ($"CAL")) in H1.
  set (w1 := fold_left _ (only (has_bit st CALIB) ($"CAL")) []) in *. assert (good w1) as G1 by (apply fold_good; [apply good_nil|tokens]).
  apply uwp_bind. eapply (says_step _ s d []); [|exact G1|exact H1|].
  { apply says_nothing. intros x. unfold uwhen. case_match; eexists; (split; [done|]); by split_and!. }
  intros s2 H2. cbn [fold_left] in H2.
  apply uwp_bind. eapply says_step; [apply says_power|exact G1|exact H2|]. intros s3 H3.
  set (w3 := fold_left _ (power_words conf st) w1) in *. assert (good w3) as G3 by (by apply fold_good).
  apply uwp_bind. eapply get_CAL; [exact G3|exact H3|]. intros s3' _ ->.
  assert (bool_decide ($"CAL" ∈ w3) = calibrating conf st) as ->.
  { apply Bool.eq_iff_eq_true. rewrite bool_decide_eq_true. unfold w3, w1, calibrating.
    rewrite !added_words, only_elem, power_CAL, orb_true_iff.
    assert ($"CAL" <> $"LB") by done. rewrite elem_of_nil. naive_solver. }
  apply uwp_bind. eapply says_step; [apply says_when_token; unfold TOKENS; token|exact G3|exact H3|]. intros s4 H4.
  set (w4 := fold_left _ (only (has_bit st DISCHRG && _) _) w3) in *. assert (good w4) as G4 by (apply fold_good; [exact G3|tokens]).
  apply uwp_bind. eapply says_step; [apply says_chrg|exact G4|exact H4|]. intros s5 H5.
  set (w5 := fold_left _ (only (charging st _) _) w4) in *. assert (good w5) as G5 by (apply fold_good; [exact G4|tokens]).
  apply uwp_bind. eapply uwp_mono; [by apply (lb_run conf st s d w5)|]. intros [] s6 H6. cbv beta in H6.
  set (sl := set_last_lb_start s _) in *.
  set (w6 := fold_left _ (only (shows_lb _ _ _ _) _) w5) in *. assert (good w6) as G6 by (apply fold_good; [exact G5|tokens]).
  apply uwp_bind. eapply says_step; [apply says_when_token; unfold TOKENS; token|exact G6|exact H6|]. intros s7 H7.
  set (w7 := fold_left _ (only (has_bit st OVERLOAD) _) w6) in *. assert (good w7) as G7 by (apply fold_good; [exact G6|tokens]).
  destruct (rb_run conf st sl d w7 s7 G7 H7) as [rb Hrb].
  apply uwp_bind. eapply uwp_mono; [exact Hrb|]. intros [] s8 H8. cbv beta in H8.
  set (sr := set_last_rb_start sl rb) in *.
  change (hd_now (u_hid sl)) with (hd_now (u_hid s)) in H8.
  change (last_lb_start sl) with (lb_start conf st (hd_now (u_hid s)) (last_lb_start s)) in H8.
  change (last_rb_start sl) with (last_rb_start s) in H8.
  set (w8 := fold_left _ (only (shows_rb _ _ _ _ _) _) w7) in *. assert (good w8) as G8 by (apply fold_good; [exact G7|tokens]).
  apply uwp_bind. eapply says_step; [apply says_when_token; unfold TOKENS; token|exact G8|exact H8|]. intros s9 H9.
  set (w9 := fold_left _ (only (has_bit st TRIM) _) w8) in *. assert (good w9) as G9 by (apply fold_good; [exact G8|tokens]).
  apply uwp_bind. eapply says_step; [apply says_when_token; unfold TOKENS; token|exact G9|exact H9|]. intros s10 H10.
  set (w10 := fold_left _ (only (has_bit st BOOST) _) w9) in *. assert (good w10) as G10 by (apply fold_good; [exact G9|tokens]).
  apply uwp_bind. eapply says_step; [apply says_when_token; unfold TOKENS; token|exact G10|exact H10|]. intros s11 H11.
  set (w11 := fold_left _ (only (has_bit st BYPASSAUTO || _) _) w10) in *. assert (good w11) as G11 by (apply fold_good; [exact G10|tokens]).
  apply uwp_bind. eapply says_step; [apply says_buzz|exact G11|exact H11|]. intros s12 H12. cbn [fold_left] in H12.
  apply uwp_bind. eapply says_step; [apply says_buzz|exact G11|exact H12|]. intros s13 H13. cbn [fold_left] in H13.
  apply uwp_bind. eapply says_step; [apply says_when_token; unfold TOKENS; token|exact G11|exact H13|]. intros s14 H14.
  assert (forall x, u_d x = u_d s14 -> u_hid x = u_hid s14 -> hid2nut x = hid2nut s14 -> ups_status x = ups_status s14 -> u_hd x = u_hd s14 ->
    (exists bz, u_d x = with_status (set_buzz d bz) (fold_left (add_status ig) (only (has_bit st OFF) ($"OFF")) w11) 0)
    /\ u_hid x = u_hid s /\ hid2nut x = hid2nut s /\ ups_status x = st /\ u_hd x = u_hd s) as Hend.
  { intros x E1 E2 E3 E4 E5. rewrite E1, E2, E3, E4, E5. by destruct H14. }
  destruct (calibrating conf st); [by apply uwp_ret, Hend|].
  apply uwp_bind, uwp_get, uwp_bind, uwp_get, uwp_bind, uwp_when. case_match; [apply uwp_modify|]; by apply uwp_modify, Hend.
Qed.

(** ** Publishing *)

Definition ignores_lb (d : dstate) : Z := match state_getinfo (d_root d) ($"driver.flag.ignorelb") with Some _ => 1 | None => 0 end.

Lemma status_init_run d :
  status_init d = inr (tt, with_status (set_d_status d (set_b_alarm_status (set_b_ignorelb (d_status d) (ignores_lb d)) 0)) [] 0).
Proof. unfold status_init, dstate_getinfo, status_upd, mbind, D_bind, dget, dmodify, with_status, ignores_lb. reflexivity. Qed.

Lemma with_status_same d : b_status_buf (d_status d) = [] -> b_alarm_legacy_status (d_status d) = 0 ->
  with_status (set_buzz d (b_buzzmode_buf (d_status d))) [] 0 = d.
Proof. destruct d as [? ? ? ? ? ? ? ? ? ? ? [] ?]. simpl. by intros -> ->. Qed.

Lemma buzz_commit_run d :
  healthy d -> bst (d_root d) -> exists d', buzzmode_commit d = inr (tt, d') /\ touched BUZZWORDS d d'.
Proof.
  intros Hh Hb. assert (length BUZZWORDS <= NAME_LIMIT)%nat as Hl by (apply Nat.leb_le; reflexivity).
  unfold buzzmode_commit, status_get_field, dget, mbind, D_bind, mret, D_ret. destruct (b_buzzmode_buf (d_status d)) as [|c t].
  - destruct (delinfo_touches BUZZWORDS d Hh Hb Hl) as (r & d' & E & Ht). rewrite E. by exists d'.
  - destruct (setinfo_touches BUZZWORDS (c :: t) d Hh Hb Hl) as (r & d' & E & Ht). rewrite E. by exists d'.
Qed.

Lemma dataok_run d : healthy d -> exists d', dstate_dataok d = inr (tt, d') /\ healthy d' /\ d_root d' = d_root d.
Proof.
  intros Hh. unfold dstate_dataok, dget, dmodify, dwhen, mbind, D_bind. destruct (d_stale d =? 1); [|by exists d].
  assert (healthy (set_d_stale d 0)) as H0 by (by apply (healthy_change d)). rewrite send_to_all_calm; [|done|].
  - eexists. split; [done|]. split; [|done]. destruct H0 as [? [? ?] ?]. by repeat split.
  - split; [done|]. apply Nat.ltb_lt. reflexivity.
Qed.

Lemma plan_good conf st ig charge now lb rb : good (plan_words ig (status_words conf st charge now lb rb)).
Proof.
  apply fold_good; [apply good_nil|]. unfold status_words, power_words.
  destruct (negb (has_bit st ONLINE)); [tokens|]. destruct (has_bit st DISCHRG); tokens.
Qed.

Lemma lb_fits ws lb :
  good ws -> with_lb (join ws) lb = join ws ++ (if lb then $" LB" else []) /\ (length (with_lb (join ws) lb) < 110)%nat.
Proof.
  intros Hg. pose proof (join_sizes ws). pose proof (good_sizes ws Hg). assert (sizes TOKENS < 100)%nat by (apply Nat.ltb_lt; reflexivity).
  assert (with_lb (join ws) lb = join ws ++ (if lb then $" LB" else [])) as ->.
  { unfold with_lb. destruct lb; [|by rewrite app_nil_r]. apply snprintfcat_id. rewrite length_app. cbn [length]. unfold ST_MAX_VALUE_LEN. simpl. lia. }
  split; [done|]. rewrite length_app; destruct lb; simpl; lia.
Qed.

Lemma charge_length trend text : (length (with_charge trend text) <= length text + 8)%nat.
Proof.
  unfold with_charge, charge_words. destruct trend as [[]|]; repeat (case_match; cbn [fold_left]); rewrite ?length_app; simpl; lia.
Qed.

Lemma text_fits ws lb trend alarm : good ws ->
  snprintf_s ST_MAX_VALUE_LEN (with_alarm (with_charge trend (with_lb (join ws) lb)) alarm)
  = with_alarm (with_charge trend (join ws ++ (if lb then $" LB" else []))) alarm.
Proof.
  intros Hg. destruct (lb_fits ws lb Hg) as [E Hl]. rewrite <- E. apply snprintf_s_id.
  pose proof (charge_length trend (with_lb (join ws) lb)). set (text := with_charge _ _) in *.
  unfold with_alarm, ST_MAX_VALUE_LEN. destruct alarm; [|lia]. destruct text; [simpl; lia|]. rewrite length_app. simpl in *. lia.
Qed.

Lemma publish_run conf previous s :
  let d := u_d s in
  healthy d -> bst (d_root d) -> mutable_status d ->
  let ws := plan_words (ignores_lb d) (status_words conf (ups_status s) (state_getinfo (d_root d) ($"battery.charge"))
    (hd_now (u_hid s)) (last_lb_start s) (last_rb_start s)) in
  let low := negb (ignores_lb d =? 0) && battery_low (d_root d) in
  uwp (liftD status_init;; publish conf previous) s (fun _ s' => healthy (u_d s') /\ u_hid s' = u_hid s /\ hid2nut s' = hid2nut s /\ ups_status s' = ups_status s /\ u_hd s' = u_hd s
    /\ n_raw <$> state_tree_find (d_root (u_d s')) ($"ups.status")
       = Some (with_alarm (with_charge (charge_trend previous (d_root d)) (join ws ++ (if low then $" LB" else []))) (negb (b_alarm_active (d_status d) =? 0)))).
Proof.
  intros d Hh Hb Hm ws low. assert (good ws) as Hg by apply plan_good.
  apply uwp_bind. eapply uwp_liftD; [apply status_init_run|]. fold d.
  set (d0 := with_status _ [] 0). set (s0 := set_u_d s d0).
  assert (healthy d0) as Hh0 by (by apply healthy_status, healthy_status).
  unfold publish. apply uwp_bind. unfold ups_status_set. apply uwp_bind, uwp_get. change (ups_status s0) with (ups_status s).
  apply uwp_bind. eapply uwp_mono; [by apply transfer_run|]. intros [] s1 (d1 & -> & [Hh1 Hb1 Hs1 Ho1]).
  change (u_d s0) with d0 in Ho1, Hs1. change (d_root d0) with (d_root d) in Ho1.
  assert (at_words (set_u_d s0 d1) d1 [] (set_u_d s0 d1)) as Hat.
  { split; try done. exists (b_buzzmode_buf (d_status d1)). symmetry. apply (with_status_same d1); by rewrite Hs1. }
  eapply uwp_mono; [apply (words_run conf _ _ Hat)|]. cbv beta. change (ups_status (set_u_d s0 d1)) with (ups_status s).
  intros [] s2 ([bz E2] & E3 & E4 & E5 & E6).
  assert (b_ignorelb (d_status d1) = ignores_lb d) as Hig by (by rewrite Hs1).
  assert (forall v, lower v <> lower TRANSFER -> state_getinfo (d_root d1) v = state_getinfo (d_root d) v) as Hinfo
    by (intros v Hne; unfold state_getinfo; by rewrite Ho1).
  rewrite Hig, (Hinfo ($"battery.charge")) in E2 by done.
  change (hd_now (u_hid (set_u_d s0 d1))) with (hd_now (u_hid s)) in E2.
  change (last_lb_start (set_u_d s0 d1)) with (last_lb_start s) in E2. change (last_rb_start (set_u_d s0 d1)) with (last_rb_start s) in E2.
  fold ws in E2. set (d2 := u_d s2) in *.
  assert (healthy d2) as Hh2 by (rewrite E2; by apply healthy_status, healthy_status).
  assert (d_root d2 = d_root d1) as Hr2 by (by rewrite E2).
  destruct (buzz_commit_run d2 Hh2) as (d3 & E7 & [Hh3 Hb3 Hs3 Ho3]); [by rewrite Hr2|].
  assert (forall v, lower v <> lower TRANSFER -> lower v <> lower BUZZWORDS ->
    state_tree_find (d_root d3) v = state_tree_find (d_root d) v) as Ho by (intros v H1 H2; by rewrite Ho3, Hr2, Ho1).
  apply uwp_bind. eapply uwp_liftD; [exact E7|].
  assert (d_status d3 = set_b_alarm_legacy_status (set_b_status_buf (set_b_buzzmode_buf (d_status d1) bz) (join ws)) 0) as Hst
    by (rewrite Hs3, E2; done).
  assert (b_status_buf (d_status d3) = join ws /\ b_ignorelb (d_status d3) = ignores_lb d
    /\ b_alarm_active (d_status d3) = b_alarm_active (d_status d) /\ b_alarm_legacy_status (d_status d3) = 0) as (F1 & F2 & F3 & F4)
    by (rewrite Hst; split_and!; first [done | exact Hig | by rewrite Hs1]).
  assert (battery_low (d_root d3) = battery_low (d_root d)) as F5 by (unfold battery_low, state_getinfo; by rewrite !Ho).
  assert (charge_trend previous (d_root d3) = charge_trend previous (d_root d)) as F6 by (unfold charge_trend; by rewrite Ho).
  pose proof (status_commit_run previous d3) as Hc. cbv zeta in Hc. rewrite F1, F2, F3, F4, F5, F6, orb_false_r in Hc. fold low in Hc.
  destruct Hc as (d4 & E8 & Hh4 & Hraw); [done| | |].
  { right. destruct (lb_fits ws low Hg) as [_ ?]. unfold ST_MAX_VALUE_LEN. lia. }
  { intros n. rewrite Ho by done. apply Hm. }
  apply uwp_bind. eapply uwp_liftD; [exact E8|]. destruct (dataok_run d4 Hh4) as (d5 & E9 & Hh5 & Hr5).
  eapply uwp_liftD; [exact E9|]. split_and!; [done..|]. cbn [u_d set_u_d]. rewrite Hr5, Hraw. f_equal. by apply text_fits.
Qed.

(** C12. What clients see of the flags of a UPS.  After [status_init], the end of an update publishes in ups.status
    the words of [status_words], each once and in this order: CAL, the power words, DISCHRG, CHRG, LB, OVER, RB,
    TRIM, BOOST, BYPASS and OFF, where the power words say OB for a UPS that reports to be offline, or nothing while it
    discharges; and OL for one that is online, unless it discharges and the options make that OB or CAL.  LB and RB are
    held back by [lbrb_log_delay_sec] only while the UPS is online.  ALARM comes first when alarms are
    active, and with ignorelb the device's LB is left out, and LB is there, after the others, when the charge or the runtime
    is low.  When battery.charge, below 100, is not what it was when the loop of the driver began, CHRG or DISCHRG comes
    last, whichever the change shows, unless it is there already, and besides the other one if that is what the device
    reports; nothing else is published.  (Nothing fails while the driver writes, and ups.status is not immutable.) *)
Theorem flags_published conf previous s :
  let d := u_d s in
  healthy d -> bst (d_root d) -> mutable_status d ->
  let ws := plan_words (ignores_lb d) (status_words conf (ups_status s) (state_getinfo (d_root d) ($"battery.charge"))
    (hd_now (u_hid s)) (last_lb_start s) (last_rb_start s)) in
  let low := negb (ignores_lb d =? 0) && battery_low (d_root d) in
  exists s', (liftD status_init;; publish conf previous) s = inr (tt, s')
    /\ healthy (u_d s') /\ u_hid s' = u_hid s /\ hid2nut s' = hid2nut s /\ ups_status s' = ups_status s /\ u_hd s' = u_hd s
    /\ n_raw <$> state_tree_find (d_root (u_d s')) ($"ups.status")
       = Some (with_alarm (with_charge (charge_trend previous (d_root d)) (join ws ++ (if low then $" LB" else [])))
                 (negb (b_alarm_active (d_status d) =? 0))).
Proof.
  intros d Hh Hb Hm ws low. destruct (uwp_run _ _ _ (publish_run conf previous s Hh Hb Hm)) as ([] & s' & E & H).
  by exists s'.
Qed.

(** A device with a delay, and the driver for it; the flags say that it runs on a battery that is nearly empty. *)
Definition ups_conf : hu_conf :=
  mkConf ($"demo HID 1.0") [hid_usage_lkp] false 0x0463 0xffff 2 false false 0 3 false 0 None None None None false None.

Definition delay_item (d : option HIDData) : hid_info :=
  mkInfo ($"ups.delay.shutdown") (Z.lor ST_FLAG_RW ST_FLAG_STRING) 8 (Some ($"UPS.DelayBeforeShutdown")) d (Some ($"20"))
    HU_FLAG_ABSENT None.

Definition battery_flags : Z := Z.lor (STATUS OFFLINE) (Z.lor (STATUS LOWBATT) (Z.lor (STATUS DISCHRG) (STATUS OVERLOAD))).

Definition usb_driver : ust :=
  mkU demo_driver ups_ready [delay_item (Some ups_delay)] battery_flags false true true 0 0 0 30 0 0 0 0 0 0 0 (-1) 0 [].

Lemma demo_healthy : healthy demo_driver.
Proof. split; [apply (bool_decide_unpack _); vm_compute; exact I|split; [reflexivity|discriminate]|by repeat constructor]. Qed.

Lemma demo_bst : bst (d_root demo_driver).
Proof. apply (do_bst _ demo_driver_ok). Qed.

Lemma demo_mutable : mutable_status demo_driver.
Proof. intros n Hn. vm_compute in Hn. injection Hn as <-. reflexivity. Qed.

(** The charge of its battery was 15 when the loop began, and is 17 now. *)
Definition charging_driver : ust :=
  set_u_d usb_driver (set_d_root demo_driver (state_setinfo 4 demo_tree ($"battery.charge") ($"17")).1).

Lemma flags_published_witness :
  exists s', (liftD status_init;; publish ups_conf (of_long 15)) charging_driver = inr (tt, s')
    /\ n_raw <$> state_tree_find (d_root (u_d s')) ($"ups.status") = Some ($"OB DISCHRG LB OVER CHRG").
Proof.
  destruct (flags_published ups_conf (of_long 15) charging_driver) as (s' & Hrun & _ & _ & _ & _ & _ & Hr).
  - split; [apply (bool_decide_unpack _); vm_compute; exact I|split; [reflexivity|discriminate]|by repeat constructor].
  - apply state_setinfo_spec, demo_bst.
  - intros n Hn. vm_compute in Hn. injection Hn as <-. reflexivity.
  - exists s'. split; [exact Hrun|]. rewrite Hr. vm_compute. reflexivity.
Defined.
