(* ===== verification/UsbHidEnd.v ===== *)
(** * usbhid-ups: reconnections, a lost device, and settings

    What a reconnection resets, how long a driver looks for its device, and a setting on its way from the client to
    the device and back. *)

From S2P Require Import Prelude CStr Fmt FmtFacts StrUtil StrFacts ParseConf ParseConfFacts NumFacts Tokens.
From S2P Require Import StateTree StateFacts DState DStateFacts DStatus DriverMain DSock Wire DMirror DReplay.
From S2P Require Import DFollow DStatusFacts Float64 HidParser HidFacts LibHid LibHidFacts LibHidEnd HidInfo UsbHid.
From S2P Require Import UsbHidStatus.
From stdpp Require Import options.

(** ** Flags and limits of variables *)

Lemma broadcast_run msg d : healthy d -> fits msg -> exists d', send_to_all msg d = inr (tt, d') /\ healthy d' /\ d_root d' = d_root d.
Proof.
  intros Hh Hf. rewrite send_to_all_calm by done. eexists. split; [done|]. split; [|done].
  destruct Hh as [? [? ?] ?]. by repeat split.
Qed.

(** The texts of variables stay. *)
Definition same_texts (d d' : dstate) : Prop := forall v, n_raw <$> state_tree_find (d_root d') v = n_raw <$> state_tree_find (d_root d) v.

Lemma update_texts t var f v :
  bst t -> (forall n, n_var (f n) = n_var n) -> (forall n, n_raw (f n) = n_raw n) ->
  n_raw <$> state_tree_find (tree_update t var f) v = n_raw <$> state_tree_find t v.
Proof.
  intros Hb Hv Hr. destruct (tree_update_spec t var f Hb Hv) as [Hb' Hm]. rewrite !find_lookup, Hm by done.
  destruct (decide (lower v = lower var)) as [->|Hne]; [|by rewrite lookup_alter_ne].
  rewrite lookup_alter_eq. destruct (to_map t !! lower var); simpl; [|done]. by rewrite Hr.
Qed.

Lemma update_healthy d var f msg :
  healthy d -> bst (d_root d) -> fits msg -> (forall n, n_var (f n) = n_var n) -> (forall n, n_raw (f n) = n_raw n) ->
  exists d', (dmodify (fun s => set_d_root s (tree_update (d_root d) var f));; send_to_all msg) d = inr (tt, d')
    /\ healthy d' /\ bst (d_root d') /\ same_texts d d'.
Proof.
  intros Hh Hb Hf Hv Hr. unfold dmodify, mbind, D_bind. set (d1 := set_d_root d _).
  destruct (broadcast_run msg d1) as (d' & E & Hh' & Hr'); [by apply (healthy_change d)|done|].
  exists d'. split; [done|]. split; [done|]. rewrite Hr'. split; [by apply tree_update_spec|].
  intros v. rewrite Hr'. by apply update_texts.
Qed.

Lemma word_added (b : bool) dst n s (k m : nat) :
  length s = k -> (length dst <= m)%nat -> (length (if b then snprintfcat dst n s else dst) <= m + k)%nat.
Proof. intros <- H. destruct b; [by apply snprintfcat_length|lia]. Qed.

Lemma flag_list_length var flags : (length (flag_list var flags) <= length var + 17)%nat.
Proof.
  unfold flag_list, snprintf_s. pose proof (firstn_le_length (SMALLBUF - 1) var).
  replace (length var + 17)%nat with (length var + 3 + 7 + 7)%nat by lia.
  repeat (apply word_added; [done|]). rewrite length_take. lia.
Qed.

Lemma setflags_run var flags d :
  healthy d -> bst (d_root d) -> (length var <= NAME_LIMIT)%nat ->
  exists d', dstate_setflags var flags d = inr (tt, d') /\ healthy d' /\ bst (d_root d') /\ same_texts d d'.
Proof.
  intros Hh Hb Hv. unfold dstate_setflags, dget. unfold mbind at 1, D_bind at 1.
  assert (exists d', mret (M := D) tt d = inr (tt, d') /\ healthy d' /\ bst (d_root d') /\ same_texts d d') as Hret by (by exists d).
  destruct (state_tree_find _ _); [|done]. destruct (has_flag _ _); [done|]. destruct (_ =? _); [done|].
  apply update_healthy; try done. split; [done|]. pose proof (flag_list_length var flags).
  rewrite !length_app. unfold NAME_LIMIT, ST_SOCK_BUF_LEN in *. simpl. lia.
Qed.

Lemma setaux_run var aux d :
  healthy d -> bst (d_root d) -> (length var <= NAME_LIMIT)%nat -> LONG_MIN <= aux <= LONG_MAX ->
  exists d', dstate_setaux var aux d = inr (tt, d') /\ healthy d' /\ bst (d_root d') /\ same_texts d d'.
Proof.
  intros Hh Hb Hv Ha. unfold dstate_setaux, dget. unfold mbind at 1, D_bind at 1.
  assert (exists d', mret (M := D) tt d = inr (tt, d') /\ healthy d' /\ bst (d_root d') /\ same_texts d d') as Hret by (by exists d).
  destruct (state_tree_find _ _); [|done]. destruct (_ =? _); [done|].
  apply update_healthy; try done. split; [done|]. pose proof (show_length aux Ha).
  rewrite !length_app. unfold NAME_LIMIT, ST_SOCK_BUF_LEN in *. simpl. lia.
Qed.

(** [s'] is [s] but for the framework, where the texts of variables are the same. *)
Definition same_vars (s : ust) (s' : ust) : Prop :=
  exists d, s' = set_u_d s d /\ healthy d /\ bst (d_root d) /\ same_texts (u_d s) d.

Lemma set_limits_run i s :
  healthy (u_d s) -> bst (d_root (u_d s)) -> (length (info_type i) <= NAME_LIMIT)%nat -> LONG_MIN <= info_len i <= LONG_MAX ->
  uwp (set_limits i) s (fun _ s' => same_vars s s').
Proof.
  intros Hh Hb Hv Ha. unfold set_limits. apply uwp_bind.
  destruct (setflags_run (info_type i) (info_flags i) _ Hh Hb Hv) as (d1 & E1 & Hh1 & Hb1 & Ht1).
  eapply uwp_liftD; [exact E1|]. apply uwp_when. case_match; [|by exists d1].
  destruct (setaux_run (info_type i) (info_len i) d1 Hh1 Hb1 Hv Ha) as (d2 & E2 & Hh2 & Hb2 & Ht2).
  eapply uwp_liftD; [exact E2|]. exists d2. split_and!; [by destruct s|done|done|]. intros v. by rewrite Ht2, Ht1.
Qed.

(** The seconds pass. *)
Definition later (n : Z) : U unit := umodify (fun s => let h := u_hid s in
  set_u_hid s (mkHid (hd_desc h) (hd_ts h) (hd_len h) (hd_cap h) (hd_data h) (hd_max_report_size h) (hd_interrupt_only h)
    (hd_interrupt_size h) (hd_now h + n) (hd_errno h) (hd_get h) (hd_set h) (hd_int h) (hd_str h) (hd_out h))).

(** ** Defaults as formats

    A default without conversions is a format that prints itself, and that is accepted where [%f] is expected. *)

Definition plain_text (t : bytes) : Prop := Forall (fun c => Ascii.eqb c (chr 37) = false) t.

Lemma mini_text t : plain_text t -> mini t false = ([], false).
Proof. induction 1 as [|c t Hc _ IH]; [done|]. by rewrite mini_plain. Qed.

Lemma text_validates t : plain_text t -> validate_formatting_string (Some t) (Some ($"%f")) = 1.
Proof.
  intros Ht. unfold validate_formatting_string. rewrite !minimize_fits by lia. rewrite mini_text by done. by vm_compute.
Qed.

Lemma text_prints t n x : plain_text t -> (length t <= n)%nat -> printf_double n t x = Some t.
Proof.
  intros Ht. revert n. induction Ht as [|c t Hc _ IH]; intros [|n] Hn; cbn [length] in Hn; try done; [lia|].
  cbn [printf_double]. rewrite Hc, IH by lia. done.
Qed.

Lemma dynamic_text var t x s r d :
  plain_text t -> dstate_setinfo var t (u_d s) = inr (r, d) -> dstate_setinfo_dynamic var (Some t) x s = inr (r, set_u_d s d).
Proof.
  intros Ht E. unfold dstate_setinfo_dynamic. rewrite text_validates by done. cbn [Z.ltb Z.compare mbind option_bind].
  unfold sprintf_double. rewrite text_prints by done. unfold mbind, U_bind, udef, liftD. cbn. unfold dstate_setinfo in E. by rewrite E.
Qed.

(** ** Settings that the driver keeps

    An item with [HU_FLAG_ABSENT] is a variable of the driver, whatever the device says. *)

Definition mutable (d : dstate) (var : bytes) : Prop :=
  forall n, state_tree_find (d_root d) var = Some n -> has_flag (n_flags n) ST_FLAG_IMMUTABLE = false.

Lemma val_escape_flags n : n_flags (val_escape n) = n_flags n.
Proof. unfold val_escape. by case_match. Qed.

Lemma setinfo_node_flags now n val : n_flags (setinfo_node now n val).1 = n_flags n.
Proof. unfold setinfo_node. cbv zeta. repeat case_match; cbn [fst]; by rewrite ?val_escape_flags. Qed.

Lemma store_run var text d :
  healthy d -> bst (d_root d) -> (length var <= NAME_LIMIT)%nat -> (length text < ST_MAX_VALUE_LEN)%nat -> mutable d var ->
  exists r d', dstate_setinfo var text d = inr (r, d') /\ healthy d' /\ bst (d_root d') /\ mutable d' var
    /\ n_raw <$> state_tree_find (d_root d') var = Some text.
Proof.
  intros Hh Hb Hv Ht Hm. destruct (setinfo_healthy d var text Hh Hv) as (r & d' & E & Hh' & Hr & _).
  rewrite snprintf_s_id in Hr by done. exists r, d'. split_and!; [done..| | |].
  - rewrite Hr. by apply state_setinfo_spec.
  - intros n Hn. rewrite Hr in Hn. destruct (setinfo_find_same (d_now d) (d_root d) var text) as [Hf _]. rewrite Hf in Hn.
    injection Hn as <-. destruct (state_tree_find (d_root d) var) as [m|] eqn:Em; cbn.
    + rewrite setinfo_node_flags. by apply Hm.
    + unfold setinfo_new. by rewrite val_escape_flags.
  - rewrite Hr. by apply setinfo_stored.
Qed.

Lemma find_nut_run var s i :
  find (fun i => strcaseeq (info_type i) var && bool_decide (is_Some (hiddata i))) (hid2nut s) = Some i -> var <> [] ->
  find_nut_info var s = inr (Some i, set_u_hid s (set_hd_errno (u_hid s) 0)).
Proof. intros E Hv. unfold find_nut_info. destruct var; [done|]. unfold mbind, U_bind, uget. by rewrite E. Qed.

Section Reset.
Context (conf : hu_conf) (i : hid_info) (data : HIDData) (text : bytes).

(** A text that the driver keeps, for an item that the device has *)
Record kept_setting : Prop := {
  ks_data : hiddata i = Some data;
  ks_absent : any_flag (hidflags i) HU_FLAG_ABSENT = true;
  ks_cmd : any_flag (hidflags i) HU_TYPE_CMD = false;
  ks_enum : any_flag (hidflags i) HU_FLAG_ENUM = false;
  ks_rw : any_flag (info_flags i) ST_FLAG_RW = true;
  ks_table : hid2info i = None;
  ks_dfl : dfl i = Some text;
  ks_text : plain_text text;
  ks_length : (length text < ST_MAX_VALUE_LEN)%nat;
  ks_name : (length (info_type i) <= NAME_LIMIT)%nat;
  ks_len : LONG_MIN <= info_len i <= LONG_MAX;
  ks_report : skips_report conf data = false
}.

Lemma setvar_keeps s var val :
  kept_setting -> healthy (u_d s) -> bst (d_root (u_d s)) -> mutable (u_d s) (info_type i) ->
  find (fun i => strcaseeq (info_type i) var && bool_decide (is_Some (hiddata i))) (hid2nut s) = Some i -> var <> [] ->
  (length val < ST_MAX_VALUE_LEN)%nat ->
  exists s1 d1, setvar var (Some val) s = inr (STAT_SET_HANDLED, s1) /\ s1 = set_u_d (set_u_hid s (set_hd_errno (u_hid s) 0)) d1
    /\ healthy d1 /\ bst (d_root d1) /\ mutable d1 (info_type i)
    /\ n_raw <$> state_tree_find (d_root d1) (info_type i) = Some val.
Proof.
  intros Hk Hh Hb Hm Hf Hv Hl. destruct Hk.
  destruct (store_run (info_type i) val (u_d s)) as (r & d1 & E & Hd1); try done.
  eexists _, d1. split; [|split; [reflexivity|exact Hd1]].
  unfold setvar. unfold mbind at 1, U_bind at 1. rewrite (find_nut_run var s i Hf Hv), ks_rw0, ks_absent0. cbn [negb].
  unfold setinfo, mbind, U_bind, udef, liftD. cbn. by rewrite E.
Qed.

(** The start of a walk sets the default again. *)
Lemma walk_resets s v h :
  kept_setting -> healthy (u_d s) -> bst (d_root (u_d s)) -> mutable (u_d s) (info_type i) ->
  HIDGetDataValue (Some data) (poll_interval conf) (u_hid s) = Some ((1, Some v), h) ->
  uwp (walk_item conf HU_WALKMODE_INIT i) s (fun r s' =>
    r = (i, WPolled true) /\ n_raw <$> state_tree_find (d_root (u_d s')) (info_type i) = Some text).
Proof.
  intros Hk Hh Hb Hm Hg. destruct Hk. unfold walk_item, walk_select. rewrite ks_data0.
  apply uwp_bind, uwp_ret, uwp_bind. eapply (uwp_mono _ _ (fun r s' => r = WPolled true /\ _)); [|intros r s' [-> H]; exact (conj eq_refl H)].
  unfold walk_poll. rewrite ks_data0, ks_report0. apply uwp_bind. unfold uwp at 1, liftH. rewrite Hg. cbn [Z.eqb reconnect_error orb].
  change (reconnect_error 1) with false. cbv iota. change (1 =? LIBUSB_ERROR_IO) with false. cbv iota.
  apply uwp_bind. unfold walk_store. rewrite ks_cmd0. apply uwp_bind. unfold ups_infoval_set. rewrite ks_table0.
  set (s1 := set_u_hid s h). destruct (store_run (info_type i) text (u_d s1)) as (r & d1 & E & Hh1 & Hb1 & Hm1 & Hr1); try done.
  apply uwp_bind. unfold uwp at 1. rewrite ks_dfl0, (dynamic_text _ _ _ _ _ _ ks_text0 E). apply uwp_ret. cbn [Z.eqb negb]. apply uwp_bind, uwp_get, uwp_bind.
  eapply uwp_mono; [by apply set_limits_run|]. intros [] s2 (d2 & -> & _ & _ & Hsame). rewrite ks_enum0. cbn [negb orb].
  apply uwp_ret, uwp_ret. split; [done|]. cbn [u_d set_u_d]. rewrite Hsame. exact Hr1.
Qed.
End Reset.

(** C34. A delay that a client sets is lost when the device is connected again.  Setting a variable that the driver keeps itself
    ([HU_FLAG_ABSENT], as ups.delay.shutdown is in most subdrivers) stores the text of the client and answers HANDLED.
    The first walk after a reconnection does not see such items as absent any more: it reads the report of the
    device, whatever its value is, and stores the default of the table, which is accepted as a format that prints
    itself. *)
Theorem reconnection_resets_setting conf i data text s var val v h :
  kept_setting conf i data text -> healthy (u_d s) -> bst (d_root (u_d s)) -> mutable (u_d s) (info_type i) ->
  find (fun i => strcaseeq (info_type i) var && bool_decide (is_Some (hiddata i))) (hid2nut s) = Some i -> var <> [] ->
  (length val < ST_MAX_VALUE_LEN)%nat ->
  HIDGetDataValue (Some data) (poll_interval conf) (set_hd_errno (u_hid s) 0) = Some ((1, Some v), h) ->
  exists s1 s2, setvar var (Some val) s = inr (STAT_SET_HANDLED, s1)
    /\ n_raw <$> state_tree_find (d_root (u_d s1)) (info_type i) = Some val
    /\ walk_item conf HU_WALKMODE_INIT i s1 = inr ((i, WPolled true), s2)
    /\ n_raw <$> state_tree_find (d_root (u_d s2)) (info_type i) = Some text.
Proof.
  intros Hk Hh Hb Hm Hf Hv Hl Hg.
  destruct (setvar_keeps conf i data text s var val Hk Hh Hb Hm Hf Hv Hl) as (s1 & d1 & E1 & -> & Hh1 & Hb1 & Hm1 & Hr1).
  set (s1 := set_u_d _ d1) in *. pose proof (walk_resets conf i data text s1 v h Hk Hh1 Hb1 Hm1 Hg) as H.
  apply uwp_run in H as (r & s2 & E2 & -> & Hr2). by exists s1, s2.
Qed.

(** The device reports 77 seconds, what no one has set. *)
Definition usb_fresh : ust := set_u_hid usb_driver (answering [7; 77; 0] (set_hd_ts (u_hid usb_driver) (replicate 256 0))).

Lemma delay_kept : kept_setting ups_conf (delay_item (Some ups_delay)) ups_delay ($"20").
Proof.
  split; try reflexivity.
  - apply (bool_decide_unpack _). vm_compute. exact I.
  - apply Nat.ltb_lt. reflexivity.
  - apply Nat.leb_le. reflexivity.
  - split; vm_compute; discriminate.
Qed.

Lemma reconnection_resets_setting_witness :
  exists s1 s2, setvar ($"ups.delay.shutdown") (Some ($"120")) usb_fresh = inr (STAT_SET_HANDLED, s1)
    /\ n_raw <$> state_tree_find (d_root (u_d s1)) ($"ups.delay.shutdown") = Some ($"120")
    /\ walk_item ups_conf HU_WALKMODE_INIT (delay_item (Some ups_delay)) s1 = inr ((delay_item (Some ups_delay), WPolled true), s2)
    /\ n_raw <$> state_tree_find (d_root (u_d s2)) ($"ups.delay.shutdown") = Some ($"20").
Proof.
  destruct (HIDGetDataValue (Some ups_delay) (poll_interval ups_conf) (set_hd_errno (u_hid usb_fresh) 0)) as [[[r [v|]] h]|] eqn:E;
    [|exfalso; vm_compute in E; discriminate E..].
  assert (r = 1) as -> by (vm_compute in E; congruence).
  eapply (reconnection_resets_setting ups_conf (delay_item (Some ups_delay)) ups_delay ($"20") usb_fresh ($"ups.delay.shutdown") ($"120") v h).
  - exact delay_kept.
  - exact demo_healthy.
  - exact demo_bst.
  - intros n Hn. exfalso. vm_compute in Hn. discriminate Hn.
  - reflexivity.
  - discriminate.
  - apply Nat.ltb_lt. reflexivity.
  - exact E.
Defined.

Definition shutdown_delay {A} (m : U A) (s : ust) : option bytes :=
  match m s with inr (_, s) => n_raw <$> state_tree_find (d_root (u_d s)) ($"ups.delay.shutdown") | inl _ => None end.

(** The whole driver: with [offdelay = 120] in ups.conf the device is there, lost, and connected again. *)
Example reconnection_run :
  let conf := mkConf ($"demo HID 1.0") [hid_usage_lkp] false 0x0463 0xffff 2 false false 0 3 false (-1)
    None None (Some ($"120")) None false None in
  let update := later 2;; upsdrv_updateinfo conf (of_long (-1)) in
  let gone := DevError (- LIBUSB_ERROR_NO_DEVICE) in
  let s := set_hid2nut (set_u_open (set_u_hid usb_fresh (set_hd_dev (u_hid usb_fresh) (hd_get (u_hid usb_fresh)) [] [gone] [] [])) [1])
    [delay_item None] in
  map (fun m => shutdown_delay m s) [upsdrv_initinfo conf; upsdrv_initinfo conf;; update; upsdrv_initinfo conf;; update;; update]
    = [Some ($"120"); Some ($"120"); Some ($"20")].
Proof. vm_compute. reflexivity. Qed.

(** ** A device that does not come back *)

(** What a variable does not change *)
Lemma setinfo_keeps var text d r d' :
  healthy d -> (length var <= NAME_LIMIT)%nat -> dstate_setinfo var text d = inr (r, d') ->
  d_main d' = d_main d /\ d_stale d' = d_stale d.
Proof.
  intros Hh Hv. unfold dstate_setinfo, vdstate_setinfo, setinfo_with, dget, dmodify, dwhen, mbind, D_bind, mret, D_ret.
  set (value := snprintf_s _ _). destruct (state_setinfo _ _ _ _) as [t ret]. set (d1 := set_d_root d t).
  assert (length value <= 255)%nat as Hval by (unfold value, snprintf_s, ST_MAX_VALUE_LEN; rewrite length_take; lia).
  destruct (ret =? 1); [|by intros [= <- <-]].
  rewrite send_to_all_calm; [by intros [= <- <-]|by apply (healthy_change d)|].
  split; [done|]. unfold NAME_LIMIT, ST_SOCK_BUF_LEN, quoted in *. rewrite !length_app. simpl. lia.
Qed.

(** The driver looks for its device: [c] attempts failed so far. *)
Record lost_at (c : Z) (s : ust) : Prop := {
  la_healthy : healthy (u_d s);
  la_bst : bst (d_root (u_d s));
  la_hd : u_hd s = false;
  la_poll : lastpoll s <= hd_now (u_hid s);
  la_open : Forall (fun r => r <= 0) (u_open s);
  la_count : reconnect_count s = c
}.

(** The driver's state, the exit flag and the staleness *)
Lemma state_run text s :
  healthy (u_d s) -> bst (d_root (u_d s)) ->
  uwp (setinfo ($"driver.state") text) s (fun _ s' => exists d, s' = set_u_d s d /\ healthy d /\ bst (d_root d)
    /\ d_main d = d_main (u_d s) /\ d_stale d = d_stale (u_d s)).
Proof.
  intros Hh Hb. assert (length ($"driver.state") <= NAME_LIMIT)%nat as Hl by (apply Nat.leb_le; reflexivity).
  destruct (setinfo_touches _ text (u_d s) Hh Hb Hl) as (r & d & E & [Hh' Hb' _ _]).
  destruct (setinfo_keeps _ _ _ _ _ Hh Hl E). unfold setinfo. apply uwp_bind. eapply uwp_liftD; [exact E|]. apply uwp_ret. by exists d.
Qed.

Lemma datastale_run d : healthy d -> d_stale d = 0 \/ d_stale d = 1 ->
  exists d', dstate_datastale d = inr (tt, d') /\ healthy d' /\ d_root d' = d_root d /\ d_main d' = d_main d /\ d_stale d' = 1.
Proof.
  intros Hh Hs. unfold dstate_datastale, dget, dmodify, dwhen, mbind, D_bind.
  destruct Hs as [Hs|Hs]; rewrite Hs; [|by exists d]. cbn [Z.eqb].
  assert (healthy (set_d_stale d 1)) as H0 by (by apply (healthy_change d)). rewrite send_to_all_calm; [|done|].
  - eexists. split; [done|]. split; [|done]. destruct H0 as [? [? ?] ?]. by repeat split.
  - split; [done|]. apply Nat.ltb_lt. reflexivity.
Qed.

Definition exit_flag (s : ust) : Z := m_exit_flag (d_main (u_d s)).

Section GiveUp.
Context (conf : hu_conf) (previous : double).

(** Does the driver give up with the [c]th attempt? *)
Definition gives_up (c : Z) : bool :=
  (reconnect_max_tries conf =? 0) || ((reconnect_max_tries conf >? 0) && (reconnect_max_tries conf <? c)).

Definition counted (c : Z) : Z := if reconnect_max_tries conf =? 0 then 0 else c.

Lemma exit_run s d Q : Q tt (set_u_d s (set_d_main d (set_m_exit_flag (d_main d) EF_EXIT_FAILURE))) ->
  uwp (liftD (set_exit_flag EF_EXIT_FAILURE)) (set_u_d s d) Q.
Proof. intros H. by eapply uwp_liftD. Qed.

Lemma trying_run c s :
  lost_at (counted c) s -> 0 <= c < INT_MAX ->
  uwp (reconnect_trying conf RECONNECT_TRYING) s (fun _ s' => exists d, s' = set_reconnect_count (set_u_d s d) (counted (c + 1))
    /\ healthy d /\ bst (d_root d) /\ d_stale d = d_stale (u_d s)
    /\ m_exit_flag (d_main d) = if gives_up (c + 1) then EF_EXIT_FAILURE else exit_flag s).
Proof.
  intros [Hh Hb Hhd Hp Ho Hc] Hr. unfold counted, gives_up in *. cbn [reconnect_trying].
  destruct (reconnect_max_tries conf =? 0) eqn:E0; cbn [orb].
  - rewrite <- (set_u_d_same s). apply exit_run. exists (set_d_main (u_d s) (set_m_exit_flag (d_main (u_d s)) EF_EXIT_FAILURE)).
    split; [by destruct s; cbn in *; subst|]. by split; [apply (healthy_change (u_d s))|].
  - apply uwp_bind. eapply uwp_mono; [by apply state_run|]. intros [] s1 (d & -> & Hh1 & Hb1 & Hm1 & Hs1).
    apply uwp_bind, uwp_get. cbn [reconnect_count set_u_d]. rewrite Hc, (proj2 (Z.ltb_lt _ _)) by lia.
    apply uwp_bind, uwp_modify, uwp_when. destruct (_ && _); [|exists d; split_and!; [done..|by rewrite Hm1]].
    change (set_reconnect_count (set_u_d s d) (c + 1)) with (set_u_d (set_reconnect_count s (c + 1)) d).
    apply exit_run. eexists. split; [reflexivity|]. by split; [apply (healthy_change d)|].
Qed.

(** One update, when it is time for an attempt *)
Definition attempt : U unit := later (poll_interval conf);; upsdrv_updateinfo conf previous.

Fixpoint attempts (n : nat) : U unit := match n with O => mret tt | S n => attempts n;; attempt end.

Lemma attempt_run c s :
  lost_at (counted c) s -> 0 <= c < INT_MAX -> 0 <= poll_interval conf -> d_stale (u_d s) = 0 \/ d_stale (u_d s) = 1 ->
  uwp attempt s (fun _ s' => lost_at (counted (c + 1)) s' /\ d_stale (u_d s') = 1
    /\ exit_flag s' = if gives_up (c + 1) then EF_EXIT_FAILURE else exit_flag s).
Proof.
  intros [Hh Hb Hhd Hp Ho Hc] Hr Hpi Hst. unfold attempt, later. apply uwp_bind, uwp_modify. cbv zeta.
  set (h := mkHid _ _ _ _ _ _ _ _ _ _ _ _ _ _ _). set (s0 := set_u_hid s h).
  assert (hd_now (u_hid s0) = hd_now (u_hid s) + poll_interval conf) as Hnow by done.
  unfold upsdrv_updateinfo, time. apply uwp_bind, uwp_get, uwp_bind, uwp_get. change (u_hd s0) with (u_hd s). rewrite Hhd.
  apply uwp_bind. unfold reconnect. apply uwp_bind, uwp_get. change (lastpoll s0) with (lastpoll s).
  rewrite (proj2 (Z.ltb_ge _ _)) by lia. apply uwp_bind.
  eapply uwp_mono; [apply (trying_run c s0); [split; try done; change (lastpoll s <= hd_now (u_hid s0)); lia|done]|].
  intros [] s1 (d1 & -> & Hh1 & Hb1 & Hs1 & Hm1). apply uwp_bind. unfold reconnect_ups. apply uwp_bind.
  eapply uwp_mono; [by apply state_run|]. intros [] s2 (d2 & -> & Hh2 & Hb2 & Hm2 & Hs2). apply uwp_bind, uwp_get, uwp_bind, uwp_modify.
  cbn [u_open set_u_d set_reconnect_count s0 set_u_hid].
  assert (default (-1) (head (u_open s)) >? 0 = false) as ->.
  { rewrite Z.gtb_ltb. apply Z.ltb_ge. destruct Ho; cbn; lia. }
  apply uwp_ret. cbn [negb]. apply uwp_bind, uwp_modify, uwp_bind.
  destruct (datastale_run d2 Hh2) as (d3 & E3 & Hh3 & Hr3 & Hm3 & Hs3).
  { change (d_stale (u_d (set_reconnect_count (set_u_d s0 d1) (counted (c + 1))))) with (d_stale d1) in Hs2.
    change (d_stale (u_d s0)) with (d_stale (u_d s)) in Hs1. by rewrite Hs2, Hs1. }
  eapply uwp_liftD; [exact E3|]. apply uwp_ret. cbn [negb]. apply uwp_ret. split; [split|split].
  - done.
  - change (bst (d_root d3)). by rewrite Hr3.
  - done.
  - change (hd_now (u_hid s0) <= hd_now (u_hid s0)). lia.
  - change (Forall (fun r => r <= 0) (tail (u_open s))). by destruct Ho.
  - done.
  - done.
  - change (m_exit_flag (d_main d3) = if gives_up (c + 1) then EF_EXIT_FAILURE else exit_flag s0).
    change (d_main (u_d (set_reconnect_count (set_u_d s0 d1) (counted (c + 1))))) with (d_main d1) in Hm2.
    by rewrite Hm3, Hm2.
Qed.
End GiveUp.

(** C32. A driver that has lost its device and does not get it back: every attempt leaves the data stale and is counted, and the driver
    asks to exit when [reconnect_max_tries] is 0, at the first attempt, or when it is positive, at the first
    attempt after that many; with a negative one it does not ask to.  (For as many attempts as an int can count; with 0 they
    are not counted.) *)
Theorem lost_device_gives_up conf previous n s :
  lost_at 0 s -> 0 <= poll_interval conf -> d_stale (u_d s) = 0 \/ d_stale (u_d s) = 1 -> Z.of_nat n <= INT_MAX -> exit_flag s = 0 ->
  let max := reconnect_max_tries conf in
  exists s', attempts conf previous n s = inr (tt, s')
    /\ u_hd s' = false /\ reconnect_count s' = (if max =? 0 then 0 else Z.of_nat n)
    /\ (n <> O -> d_stale (u_d s') = 1)
    /\ exit_flag s' = if (0 <? n)%nat && ((max =? 0) || ((max >? 0) && (max <? Z.of_nat n))) then EF_EXIT_FAILURE else 0.
Proof.
  intros Hl Hpi Hst Hn He max.
  assert (uwp (attempts conf previous n) s (fun _ s' => lost_at (counted conf (Z.of_nat n)) s'
    /\ (d_stale (u_d s') = 0 \/ d_stale (u_d s') = 1) /\ (n <> O -> d_stale (u_d s') = 1)
    /\ exit_flag s' = if (0 <? n)%nat && gives_up conf (Z.of_nat n) then EF_EXIT_FAILURE else 0)) as H.
  { induction n as [|n IH]; [split_and!; [unfold counted; by case_match|done..]|].
    apply uwp_bind. eapply uwp_mono; [apply IH; lia|]. intros [] s1 (Hl1 & Hst1 & _ & He1).
    eapply uwp_mono; [apply (attempt_run conf previous (Z.of_nat n)); [done|lia|done..]|]. intros [] s2 (Hl2 & Hst2 & He2).
    rewrite Nat2Z.inj_succ, <- Z.add_1_r. split_and!; [done|by right|done|]. rewrite He2, He1. cbn [Nat.ltb Nat.leb andb].
    unfold gives_up. destruct n as [|n]; cbn [Nat.ltb Nat.leb andb]; [done|].
    destruct (reconnect_max_tries conf =? 0); cbn [orb]; [done|]. destruct (Z.gtb_spec (reconnect_max_tries conf) 0); cbn [andb]; [|done].
    destruct (Z.ltb_spec (reconnect_max_tries conf) (Z.of_nat (S n) + 1)), (Z.ltb_spec (reconnect_max_tries conf) (Z.of_nat (S n)));
      done || lia. }
  apply uwp_run in H as ([] & s' & E & [_ _ Hhd _ _ Hc] & _ & Hs' & He'). by exists s'.
Qed.


Definition trying_conf : hu_conf :=
  mkConf ($"demo HID 1.0") [hid_usage_lkp] false 0x0463 0xffff 2 false false 0 3 false 2 None None None None false None.

Lemma lost_device_gives_up_witness :
  exists s', attempts trying_conf (of_long (-1)) 3 (set_u_hd usb_driver false) = inr (tt, s')
    /\ u_hd s' = false /\ reconnect_count s' = 3 /\ (3%nat <> O -> d_stale (u_d s') = 1) /\ exit_flag s' = EF_EXIT_FAILURE.
Proof.
  apply (lost_device_gives_up trying_conf (of_long (-1)) 3 (set_u_hd usb_driver false)).
  - split; [exact demo_healthy|exact demo_bst|reflexivity|by vm_compute|constructor|reflexivity].
  - by vm_compute.
  - right. reflexivity.
  - by vm_compute.
  - reflexivity.
Defined.

(** ** usbhid-ups: a setting, from the client to the device and back

    The words of a variable with a table are sent as numbers, and numbers that are read are shown as words. *)

(** ** Tables of words *)

Definition enum_table (l : list (Z * bytes)) : list info_lkp := map (fun e => lkp e.1 e.2) l ++ [lkp_end].

Lemma nut_cons z w l val : lookup_nut (enum_table ((z, w) :: l)) val = if streq w val then Some (Some z) else lookup_nut (enum_table l) val.
Proof. done. Qed.
Lemma hid_cons z w l v : lookup_hid (enum_table ((z, w) :: l)) v = if z =? v then Some (Some w) else lookup_hid (enum_table l) v.
Proof. done. Qed.

Lemma nut_found l val v : lookup_nut (enum_table l) val = Some (Some v) -> v ∈ l.*1.
Proof.
  induction l as [|[z w] l IH]; [done|]. rewrite nut_cons. destruct (streq w val).
  - intros [= ->]. apply list_elem_of_here.
  - intros Hl. by apply list_elem_of_further, IH.
Qed.

Lemma words_inverse l val v :
  NoDup l.*1 -> lookup_nut (enum_table l) val = Some (Some v) -> lookup_hid (enum_table l) v = Some (Some val).
Proof.
  induction l as [|[z w] l IH]; [done|]. intros [Hz Hn]%NoDup_cons. rewrite nut_cons, hid_cons. destruct (streq w val) eqn:E.
  - intros [= ->]. apply streq_true in E as ->. by rewrite Z.eqb_refl.
  - intros Hl. destruct (Z.eqb_spec z v) as [->|]; [|by apply IH]. destruct Hz. by eapply nut_found.
Qed.

Lemma word_value l val v :
  lookup_nut (enum_table l) val = Some (Some v) -> hu_find_valinfo (enum_table l) (Some val) = Some (v, 0).
Proof.
  intros Hl. unfold hu_find_valinfo. destruct l as [|[z w] l]; [done|]. cbn [enum_table map app head mbind option_bind lk_nuf lkp nut_value].
  cbn [enum_table map app] in Hl. by rewrite Hl.
Qed.

Lemma value_word l val v s :
  NoDup l.*1 -> lookup_nut (enum_table l) val = Some (Some v) -> Z.abs v < 2 ^ 53 ->
  hu_find_infoval (enum_table l) (of_long v) s = inr (Some val, set_u_hid s (set_hd_errno (u_hid s) 0)).
Proof.
  intros Hn Hl Hv. pose proof (words_inverse l val v Hn Hl) as Hh. unfold hu_find_infoval.
  destruct l as [|[z w] l]; [done|]. unfold errno, umodify, mbind, U_bind. cbn [enum_table map app head udef lk_fun lkp nut_value].
  unfold mret, U_ret. rewrite to_long_of_long by done. cbn [udef mret U_ret].
  cbn [enum_table map app] in Hh. unfold mret, U_ret. by rewrite Hh.
Qed.

(** ** The way there and back *)

Section Setting.
Context (conf : hu_conf) (i : hid_info) (d : HIDData) (l : list (Z * bytes)).

(** A variable of the device, with a table of words *)
Record word_item : Prop := {
  wi_data : hiddata i = Some d;
  wi_rw : any_flag (info_flags i) ST_FLAG_RW = true;
  wi_absent : any_flag (hidflags i) HU_FLAG_ABSENT = false;
  wi_cmd : any_flag (hidflags i) HU_TYPE_CMD = false;
  wi_static : any_flag (hidflags i) HU_FLAG_STATIC = false;
  wi_path : hidpath i <> None;
  wi_table : hid2info i = Some (enum_table l);
  wi_words : NoDup l.*1;
  wi_bool : strncmp (info_type i) ($"BOOL") 4 <> 0;
  wi_alarm : strncmp (info_type i) ($"ups.alarm") 9 <> 0;
  wi_name : (length (info_type i) <= NAME_LIMIT)%nat;
  wi_report : skips_report conf d = false
}.

Lemma word_sent s val v :
  hid2info i = Some (enum_table l) -> lookup_nut (enum_table l) val = Some (Some v) ->
  device_value i (Some val) s = inr (Some (of_long v), set_u_hid s (set_hd_errno (u_hid s) 0)).
Proof.
  intros Ht Hl. unfold device_value. rewrite Ht, (word_value _ _ _ Hl). unfold udef, errno, umodify, mbind, U_bind, mret, U_ret.
  change (0 =? EINVAL) with false. by rewrite andb_false_r.
Qed.

Lemma setvar_sends s s0 var val v h :
  word_item -> lookup_nut (enum_table l) val = Some (Some v) -> s0 = set_hd_errno (u_hid s) 0 ->
  find (fun i => strcaseeq (info_type i) var && bool_decide (is_Some (hiddata i))) (hid2nut s) = Some i -> var <> [] ->
  HIDSetDataValue (Some d) (of_long v) s0 = Some (1, h) ->
  setvar var (Some val) s = inr (STAT_SET_HANDLED, set_data_has_changed (set_u_hid s h) true).
Proof.
  intros [] Hl -> Hf Hv Hset. unfold setvar. unfold mbind at 1, U_bind at 1. rewrite (find_nut_run var s i Hf Hv), wi_rw0, wi_absent0. cbn [negb].
  rewrite (bool_decide_false (hidpath i = None)), (bool_decide_false (Some val = None)) by done. cbn [andb].
  unfold mbind at 1, U_bind at 1. rewrite (word_sent _ _ _ wi_table0 Hl). unfold send_value, liftH, umodify, mbind, U_bind, mret, U_ret.
  rewrite wi_data0. cbn [u_hid set_u_hid]. change (set_hd_errno (set_hd_errno (u_hid s) 0) 0) with (set_hd_errno (u_hid s) 0).
  by rewrite Hset.
Qed.

Lemma poll_shows s val v h :
  word_item -> lookup_nut (enum_table l) val = Some (Some v) -> Z.abs v < 2 ^ 53 ->
  healthy (u_d s) -> bst (d_root (u_d s)) -> mutable (u_d s) (info_type i) -> (length val < ST_MAX_VALUE_LEN)%nat ->
  use_interrupt_pipe s = true -> data_has_changed s = true ->
  HIDGetDataValue (Some d) (poll_interval conf) (u_hid s) = Some ((1, Some (of_long v)), h) ->
  uwp (walk_item conf HU_WALKMODE_FULL_UPDATE i) s (fun r s' =>
    r = (i, WPolled true) /\ u_hid s' = set_hd_errno h 0
    /\ n_raw <$> state_tree_find (d_root (u_d s')) (info_type i) = Some val).
Proof.
  intros [] Hl Hx Hh Hb Hm Hlen Hpipe Hch Hg. unfold walk_item, walk_select. apply uwp_bind, uwp_bind, uwp_get, uwp_bind, uwp_get, uwp_ret.
  assert (any_flag (hidflags i) (Z.lor HU_FLAG_ABSENT HU_TYPE_CMD) = false) as ->.
  { unfold any_flag in *. apply negb_false_iff, Z.eqb_eq in wi_absent0. apply negb_false_iff, Z.eqb_eq in wi_cmd0.
    by rewrite Z.land_lor_distr_r, wi_absent0, wi_cmd0. }
  rewrite wi_static0, Hpipe, Hch. cbn [negb andb]. rewrite andb_false_r. cbn [negb andb].
  apply uwp_bind. eapply (uwp_mono _ _ (fun r s' => r = WPolled true /\ _)); [|intros r s' [-> H]; exact (conj eq_refl H)].
  unfold walk_poll. rewrite wi_data0, wi_report0. apply uwp_bind. unfold uwp at 1, liftH. rewrite Hg.
  change (reconnect_error 1) with false. cbv iota. change (1 =? LIBUSB_ERROR_IO) with false. cbv iota.
  apply uwp_bind. unfold walk_store. rewrite wi_cmd0. apply uwp_bind. unfold ups_infoval_set. rewrite wi_table0.
  apply uwp_bind. unfold uwp at 1. rewrite (value_word l val v) by done.
  rewrite !(proj2 (Z.eqb_neq _ _)) by done. apply uwp_bind. unfold setinfo. apply uwp_bind.
  destruct (store_run (info_type i) val (u_d s) Hh Hb wi_name0 Hlen Hm) as (r & d1 & E & _ & _ & _ & Hr1).
  eapply uwp_liftD; [exact E|]. apply uwp_ret, uwp_ret. cbn [Z.eqb Pos.eqb negb]. apply uwp_bind, uwp_get.
  cbn [use_interrupt_pipe set_u_d set_u_hid]. rewrite Hpipe. cbn [negb]. apply uwp_ret, uwp_ret. by split.
Qed.
End Setting.

(** C13. A client sets a variable to a word, and later sees this word, because the device has it: one report is sent, that
    is the buffered one with the number of the word in the bits of the item, at any offset and in up to 63 bits, signed or not,
    and every other bit as it was; the answer is HANDLED, and the next full update is due at once.  There the item is
    polled with one request for this report to the device, and when the device then gives what it was sent, the variable
    shows the word that was set.  (The item is variable, without units or a physical range, and the number is in its logical
    range; the words of its table have different numbers.) *)
Theorem setvar_reads_back conf i d l s var val v ret :
  word_item conf i d l -> lookup_nut (enum_table l) val = Some (Some v) -> (length val < ST_MAX_VALUE_LEN)%nat ->
  find (fun i => strcaseeq (info_type i) var && bool_decide (is_Some (hiddata i))) (hid2nut s) = Some i -> var <> [] ->
  healthy (u_d s) -> bst (d_root (u_d s)) -> mutable (u_d s) (info_type i) -> use_interrupt_pipe s = true ->
  buf_ok (u_hid s) -> settable (u_hid s) d v -> hd_interrupt_only (u_hid s) = 0 ->
  head (hd_set (u_hid s)) = Some ret -> 0 < ret -> poll_interval conf <= hd_now (u_hid s) ->
  exists s1 s2 buf report cap, setvar var (Some val) s = inr (STAT_SET_HANDLED, s1)
    /\ hd_data (u_hid s) !! Z.to_nat (d_ReportID d) = Some (Some buf) /\ report_of d buf v report
    /\ data_has_changed s1 = true /\ hd_out (u_hid s1) = hd_out (u_hid s) ++ [SetReport (d_ReportID d) report]
    /\ walk_item conf HU_WALKMODE_FULL_UPDATE i (set_u_hid s1 (answering report (u_hid s1))) = inr ((i, WPolled true), s2)
    /\ hd_out (u_hid s2) = hd_out (u_hid s1) ++ [GetReport (d_ReportID d) cap]
    /\ n_raw <$> state_tree_find (d_root (u_d s2)) (info_type i) = Some val.
Proof.
  intros Hi Hl Hlen Hf Hv Hh Hb Hm Hpipe Hbuf Hset Honly Hhead Hret Hage.
  set (h0 := set_hd_errno (u_hid s) 0).
  assert (buf_ok h0) as Hbuf0 by (by destruct (buf_ok_same (u_hid s) h0 Hbuf); try apply Hbuf).
  assert (settable h0 d v) as Hset0 by (by destruct Hset).
  destruct (set_value_run h0 d v ret (poll_interval conf) Hbuf0 Hset0 Honly Hhead Hret Hage)
    as (h1 & h2 & buf & report & cap & E1 & Eb & Hrep & Ho & E2 & Ho2).
  pose proof (setvar_sends conf i d l s h0 var val v h1 Hi Hl eq_refl Hf Hv E1) as Es.
  set (s1 := set_data_has_changed _ _) in Es.
  pose proof (poll_shows conf i d l (set_u_hid s1 (answering report (u_hid s1))) val v h2 Hi Hl (st_exact _ _ _ Hset) Hh Hb Hm Hlen Hpipe
    eq_refl E2) as H.
  apply uwp_run in H as (r & s2 & Ew & -> & Hh2 & Hraw). exists s1, s2, buf, report, cap. split_and!; try done.
  by rewrite Hh2.
Qed.

Definition sensitivity : list (Z * bytes) := [(-1, $"low"); (60, $"medium"); (90, $"high")].

Definition word_info : hid_info :=
  mkInfo ($"input.sensitivity") (Z.lor ST_FLAG_RW ST_FLAG_STRING) 10 (Some ($"UPS.DelayBeforeShutdown")) (Some ups_delay) None
    HU_FLAG_SEMI_STATIC (Some (enum_table sensitivity)).

Definition word_driver : ust := set_hid2nut usb_driver [delay_item (Some ups_delay); word_info].

Lemma setvar_reads_back_witness :
  exists s1 s2 buf report cap, setvar ($"input.sensitivity") (Some ($"low")) word_driver = inr (STAT_SET_HANDLED, s1)
    /\ hd_data (u_hid word_driver) !! Z.to_nat (d_ReportID ups_delay) = Some (Some buf) /\ report_of ups_delay buf (-1) report
    /\ data_has_changed s1 = true /\ hd_out (u_hid s1) = hd_out (u_hid word_driver) ++ [SetReport (d_ReportID ups_delay) report]
    /\ walk_item ups_conf HU_WALKMODE_FULL_UPDATE word_info (set_u_hid s1 (answering report (u_hid s1))) = inr ((word_info, WPolled true), s2)
    /\ hd_out (u_hid s2) = hd_out (u_hid s1) ++ [GetReport (d_ReportID ups_delay) cap]
    /\ n_raw <$> state_tree_find (d_root (u_d s2)) ($"input.sensitivity") = Some ($"low").
Proof.
  apply (setvar_reads_back ups_conf word_info ups_delay sensitivity word_driver ($"input.sensitivity") ($"low") (-1) 3).
  - split; try reflexivity.
    + discriminate.
    + apply (bool_decide_unpack _). vm_compute. exact I.
    + vm_compute. discriminate.
    + vm_compute. discriminate.
    + apply Nat.leb_le. reflexivity.
  - reflexivity.
  - apply Nat.ltb_lt. reflexivity.
  - vm_compute. reflexivity.
  - discriminate.
  - exact demo_healthy.
  - exact demo_bst.
  - intros n Hn. exfalso. vm_compute in Hn. discriminate Hn.
  - reflexivity.
  - exact ups_ready_ok.
  - apply ups_delay_settable; [reflexivity|lia].
  - reflexivity.
  - reflexivity.
  - lia.
  - vm_compute. discriminate.
Defined.
