(* ===== verification/Upssched.v ===== *)
(** * clients/upssched.c: the timer daemon

    upsmon runs upssched for each notice; its AT lines start and cancel named timers, which a daemon
    keeps and which run CMDSCRIPT when they elapse.  This file models the daemon: the queue of timers,
    the commands on its socket and a round of its main loop.  [UpsschedCli] models the process that
    upsmon starts.

    A [ttype_t *] or [conn_t *] is an identity that is found in its list or not.  The three arrays of
    strings of a timer carry the number of bytes allocated for them.  Where the code leaves defined
    behaviour an [OFault] is recorded and the model goes on as if a freed node kept its [next] field,
    memory beyond a block could be used, and a stray read gave [s_junk].  The clock stands still while
    a function runs; [fork], [waitpid] and memory allocation do not fail, and no text is longer than
    an [int] can tell. *)

From S2P Require Import Prelude CStr Fmt ParseConf.
From stdpp Require Import options.

(** ** State *)

(** An array of strings ended by NULL, and the bytes allocated for it. *)
Record sarr := mkArr { a_items : list bytes; a_size : nat }.

Record ttype_s := mkTimer {
  t_id : nat;
  t_name : bytes;
  t_etime : Z;
  t_upsnames : option sarr;
  t_notifytypes : option sarr;
  t_notifymsgs : option sarr
}.

Record conn_s := mkConn { cn_id : nat; cn_fd : Z; cn_ctx : PCONF_CTX }.

Inductive fault := UseAfterFree | OutOfBounds | SignedOverflow.

#[export] Instance fault_eq_dec : EqDecision fault.
Proof. solve_decision. Defined.

(** What the daemon does that others see: commands with the variables UPSNAME, NOTIFYTYPE and
    NOTIFYMSG of their environment, bytes written to a descriptor, and the rest. *)
Inductive out :=
| OExec (argv : list bytes) (env : gmap bytes bytes)
| OSend (fd : Z) (data : bytes)
| OClose (fd : Z)
| OUnlink (fn : bytes)
| OFault (f : fault).

Record sched := mkSched {
  thead : list ttype_s;
  connhead : list conn_s;
  emptyctr : Z;
  cmdscript_argv : list bytes;
  pipefn : option bytes;
  s_env : gmap bytes bytes;
  s_now : Z;               (* what time() tells *)
  s_writes : list Z;       (* the results of the next calls of write(); when none is left, all is written *)
  s_fresh : nat;           (* the next unused identity *)
  s_junk : bytes;          (* what a read outside of an array yields *)
  s_out : list out
}.

Definition with_thead (s : sched) x := mkSched x (connhead s) (emptyctr s) (cmdscript_argv s) (pipefn s)
  (s_env s) (s_now s) (s_writes s) (s_fresh s) (s_junk s) (s_out s).
Definition with_connhead (s : sched) x := mkSched (thead s) x (emptyctr s) (cmdscript_argv s) (pipefn s)
  (s_env s) (s_now s) (s_writes s) (s_fresh s) (s_junk s) (s_out s).
Definition with_emptyctr (s : sched) x := mkSched (thead s) (connhead s) x (cmdscript_argv s) (pipefn s)
  (s_env s) (s_now s) (s_writes s) (s_fresh s) (s_junk s) (s_out s).
Definition with_env (s : sched) x := mkSched (thead s) (connhead s) (emptyctr s) (cmdscript_argv s) (pipefn s)
  x (s_now s) (s_writes s) (s_fresh s) (s_junk s) (s_out s).
Definition with_now (s : sched) x := mkSched (thead s) (connhead s) (emptyctr s) (cmdscript_argv s) (pipefn s)
  (s_env s) x (s_writes s) (s_fresh s) (s_junk s) (s_out s).
Definition with_writes (s : sched) x := mkSched (thead s) (connhead s) (emptyctr s) (cmdscript_argv s) (pipefn s)
  (s_env s) (s_now s) x (s_fresh s) (s_junk s) (s_out s).
Definition with_fresh (s : sched) x := mkSched (thead s) (connhead s) (emptyctr s) (cmdscript_argv s) (pipefn s)
  (s_env s) (s_now s) (s_writes s) x (s_junk s) (s_out s).
Definition with_out (s : sched) x := mkSched (thead s) (connhead s) (emptyctr s) (cmdscript_argv s) (pipefn s)
  (s_env s) (s_now s) (s_writes s) (s_fresh s) (s_junk s) x.

Definition emit (o : out) (s : sched) : sched := with_out s (s_out s ++ [o]).

(** A pointer of [sizeof(char * )] bytes. *)
Definition PTR : nat := 8.

(** Access to the first [n] pointers of an array. *)
Definition touch (a : sarr) (n : nat) (s : sched) : sched :=
  if (PTR * n <=? a_size a)%nat then s else emit (OFault OutOfBounds) s.

Definition EMPTY_WAIT : Z := 15.
Definition US_SOCK_BUF_LEN : nat := 256.
Definition US_MAX_READ : nat := 128.

(** ** Running CMDSCRIPT *)

Definition exec_cmd (cmd : bytes) (s : sched) : sched :=
  match cmdscript_argv s with
  | [] => s
  | argv => emit (OExec (argv ++ [cmd]) (s_env s)) s
  end.

(** *** The list of strings as one text *)

(** The buffer of [collect_string]: its size, [prevlen], its bytes. *)
Record cbuf := mkCbuf { cb_size : nat; cb_prev : nat; cb_bytes : bytes }.

Definition put (buf : bytes) (off : nat) (x : bytes) : bytes := take off buf ++ x ++ drop (off + length x) buf.

(** [snprintf(buf + off, n, "%s", x)] *)
Definition snprintf_at (buf : bytes) (off n : nat) (x : bytes) : bytes :=
  if (n =? 0)%nat then buf else put buf off (take (n - 1) x ++ [NUL]).

Definition SIZE_MAX : Z := 2 ^ 64 - 1.

(** The [do ... while (retry)] loop for one text; what [realloc] adds is not initialized. *)
Fixpoint collect_retry (fuel : nat) (junk : ascii) (text : bytes) (b : cbuf) : cbuf :=
  match fuel with
  | O => b
  | S fuel =>
      let '(mkCbuf bufsize prevlen buf) := b in
      let buf := snprintf_at buf prevlen (bufsize - prevlen - 1) text in
      let buf := put buf (bufsize - 1) [NUL] in
      if (bufsize <=? length text + prevlen)%nat then
        if Z.of_nat bufsize <? SIZE_MAX - Z.of_nat LARGEBUF then
          collect_retry fuel junk text (mkCbuf (bufsize + LARGEBUF) prevlen (buf ++ replicate LARGEBUF junk))
        else mkCbuf bufsize prevlen (put buf prevlen [NUL])
      else mkCbuf bufsize (prevlen + length text) buf
  end.

(** The loop over the array; it ends at an empty string too. *)
Fixpoint collect_loop (junk : ascii) (sep : bytes) (l : list bytes) (count : nat) (b : cbuf) : cbuf :=
  match l with
  | [] | [] :: _ => b
  | x :: l =>
      let text := (if (count =? 0)%nat then [] else sep) ++ x in
      collect_loop junk sep l (S count) (collect_retry (S (length text)) junk text b)
  end.

(** How many pointers the loop reads. *)
Fixpoint collect_reads (l : list bytes) : nat :=
  match l with
  | [] | [] :: _ => 1
  | _ :: l => S (collect_reads l)
  end.

(** [if (arr && *arr && **arr)] of the callers and of [collect_string], and its result. *)
Definition collect_string (string_arr : option sarr) (sep : bytes) (s : sched) : option bytes * sched :=
  match string_arr with
  | Some a =>
      match a_items a with
      | [] | [] :: _ => (None, touch a 1 s)
      | _ =>
          let b := mkCbuf SMALLBUF 0 (replicate SMALLBUF NUL) in
          let b := collect_loop (hd NUL (s_junk s)) sep (a_items a) 0 b in
          (cstring (cb_bytes b), touch a (collect_reads (a_items a)) s)
      end
  | None => (None, s)
  end.

Definition opt_setenv (name : bytes) (value : option bytes) (s : sched) : sched :=
  match value with Some v => with_env s (<[name := v]> (s_env s)) | None => s end.
Definition opt_unsetenv (name : bytes) (value : option bytes) (s : sched) : sched :=
  match value with Some _ => with_env s (delete name (s_env s)) | None => s end.

Definition exec_cmd_timer (item : ttype_s) (s : sched) : sched :=
  match t_name item with
  | [] => s
  | _ =>
      let '(upsnames, s) := collect_string (t_upsnames item) ($",") s in
      let '(notifytypes, s) := collect_string (t_notifytypes item) ($",") s in
      let '(notifymsgs, s) := collect_string (t_notifymsgs item) ($"." ++ [chr 9]) s in
      let s := opt_setenv ($"UPSNAME") upsnames s in
      let s := opt_setenv ($"NOTIFYTYPE") notifytypes s in
      let s := opt_setenv ($"NOTIFYMSG") notifymsgs s in
      let s := exec_cmd (t_name item) s in
      let s := opt_unsetenv ($"UPSNAME") upsnames s in
      let s := opt_unsetenv ($"NOTIFYTYPE") notifytypes s in
      opt_unsetenv ($"NOTIFYMSG") notifymsgs s
  end.

(** ** The queue of timers *)

Fixpoint remove_id (tfind : nat) (l : list ttype_s) : list ttype_s :=
  match l with
  | [] => []
  | t :: l => if (t_id t =? tfind)%nat then l else t :: remove_id tfind l
  end.

(** The loop that frees the strings of an array reads all its pointers. *)
Definition free_array (a : option sarr) (s : sched) : sched :=
  match a with Some a => touch a (S (length (a_items a))) s | None => s end.

Definition removetimer (tfind : nat) (s : sched) : sched :=
  match List.find (fun t => t_id t =? tfind)%nat (thead s) with
  | Some tmp =>
      let s := with_thead s (remove_id tfind (thead s)) in
      free_array (t_notifymsgs tmp) (free_array (t_notifytypes tmp) (free_array (t_upsnames tmp) s))
  | None => s
  end.

(** The loop over the queue; [tmpnext] is read before the timer is removed, so that the nodes
    visited are those of the queue [l] at the start. *)
Fixpoint checktimers_loop (l : list ttype_s) (s : sched) : sched :=
  match l with
  | [] => s
  | tmp :: l =>
      let s := if t_etime tmp <=? s_now s then removetimer (t_id tmp) (exec_cmd_timer tmp s) else s in
      checktimers_loop l s
  end.

(** The result tells whether the daemon exits. *)
Definition checktimers (s : sched) : bool * sched :=
  match thead s with
  | [] =>
      let s := with_emptyctr s (emptyctr s + 1) in
      if emptyctr s <? EMPTY_WAIT then (false, s)
      else (true, match pipefn s with Some fn => emit (OUnlink fn) s | None => s end)
  | l => (false, checktimers_loop l (with_emptyctr s 0))
  end.

(** A fresh array of one string: [xcalloc(2, sizeof(char* ))]. *)
Definition new_array (x : bytes) : option sarr :=
  match x with [] => None | _ => Some (mkArr [x] (2 * PTR)) end.

(** The position of a string, or the number of strings. *)
Fixpoint find_string (x : bytes) (l : list bytes) : nat :=
  match l with
  | [] => 0
  | y :: l => if streq y x then 0 else S (find_string x l)
  end.

(** The three blocks that add a string to an array unless it is there.  The new size of the array is
    [count + 2], in bytes; two pointers are written from the position [count]. *)
Definition share_string (x : bytes) (a : option sarr) (s : sched) : option sarr * sched :=
  match x with
  | [] => (a, s)
  | _ =>
      match a with
      | Some a =>
          let count := find_string x (a_items a) in
          let s := touch a (S count) s in
          if (count <? length (a_items a))%nat then (Some a, s)
          else
            let a := mkArr (a_items a ++ [x]) (count + 2) in
            (Some a, touch a (count + 2) s)
      | None => (new_array x, s)
      end
  end.

(** The branch of [start_timer] for a timer that is found. *)
Definition share_timer (notifytype upsname notifymsg : bytes) (tmp : ttype_s) (s : sched) : ttype_s * sched :=
  let '(types, s) := share_string notifytype (t_notifytypes tmp) s in
  let '(msgs, s) := share_string notifymsg (t_notifymsgs tmp) s in
  let '(names, s) := share_string upsname (t_upsnames tmp) s in
  (mkTimer (t_id tmp) (t_name tmp) (t_etime tmp) names types msgs, s).

(** The search for the first timer of that name: the new queue when there is one. *)
Fixpoint share_loop (name notifytype upsname notifymsg : bytes) (l : list ttype_s) (s : sched)
    : option (list ttype_s * sched) :=
  match l with
  | [] => None
  | tmp :: l =>
      if streq (t_name tmp) name then
        let '(tmp, s) := share_timer notifytype upsname notifymsg tmp s in Some (tmp :: l, s)
      else
        '(l, s) ← share_loop name notifytype upsname notifymsg l s; Some (tmp :: l, s)
  end.

Definition add_timer (name : bytes) (ofs : Z) (notifytype upsname notifymsg : bytes) (s : sched) : sched :=
  let s := if s_now s + ofs <=? LONG_MAX then s else emit (OFault SignedOverflow) s in
  let tmp := mkTimer (s_fresh s) name (wrapS 64 (s_now s + ofs))
               (new_array upsname) (new_array notifytype) (new_array notifymsg) in
  with_fresh (with_thead s (thead s ++ [tmp])) (S (s_fresh s)).

Definition start_timer (name ofsstr notifytype upsname notifymsg : bytes) (shared_timer : bool) (s : sched) : sched :=
  let ofs := (strtol ofsstr 10).1.1 in
  if ofs <? 0 then s
  else
    match (if shared_timer then share_loop name notifytype upsname notifymsg (thead s) s else None) with
    | Some (l, s) => with_thead s l
    | None => add_timer name ofs notifytype upsname notifymsg s
    end.

(** A constraint of CANCEL-MATCHED: [None] is a NULL pointer. *)
Definition match_string (x : option bytes) (a : option sarr) (s : sched) : bool * sched :=
  match x with
  | None => (true, s)
  | Some x =>
      match a with
      | None => (false, s)
      | Some a =>
          let k := find_string x (a_items a) in
          ((k <? length (a_items a))%nat, touch a (S k) s)
      end
  end.

Definition trivial (x : option bytes) : bool := match x with None | Some [] => true | _ => false end.

Definition cancel_matches (notifytype upsname : option bytes) (do_cancel_matched : bool)
    (tmp : ttype_s) (s : sched) : bool * sched :=
  if negb do_cancel_matched || (trivial notifytype && trivial upsname) then (true, s)
  else
    let '(m, s) := match_string notifytype (t_notifytypes tmp) s in
    if m then match_string upsname (t_upsnames tmp) s else (false, s).

(** [tmp = tmp->next]: the memory of a timer that is not in the queue any more has been freed; it is taken to hold what
    it did. *)
Definition read_next (tmp : ttype_s) (s : sched) : sched :=
  if existsb (fun t => t_id t =? t_id tmp)%nat (thead s) then s else emit (OFault UseAfterFree) s.

(** The loop, which goes on from a timer that it has removed. *)
Fixpoint cancel_loop (name : bytes) (notifytype upsname : option bytes) (do_cancel_matched : bool)
    (l : list ttype_s) (removed : nat) (s : sched) : nat * sched :=
  match l with
  | [] => (removed, s)
  | tmp :: l =>
      let '(m, s) := if streq (t_name tmp) name then cancel_matches notifytype upsname do_cancel_matched tmp s
                     else (false, s) in
      let '(removed, s) := if m then (S removed, removetimer (t_id tmp) s) else (removed, s) in
      cancel_loop name notifytype upsname do_cancel_matched l removed (read_next tmp s)
  end.

Definition cancel_timer (name : bytes) (cname notifytype upsname : option bytes) (do_cancel_matched : bool)
    (s : sched) : sched :=
  let '(removed, s) := cancel_loop name notifytype upsname do_cancel_matched (thead s) 0 s in
  if (0 <? removed)%nat then s
  else match cname with Some (c :: cname) => exec_cmd (c :: cname) s | _ => s end.

(** ** Connections *)

Definition find_conn (id : nat) (s : sched) : option conn_s := List.find (fun c => cn_id c =? id)%nat (connhead s).

Fixpoint remove_conn (id : nat) (l : list conn_s) : list conn_s :=
  match l with
  | [] => []
  | c :: l => if (cn_id c =? id)%nat then l else c :: remove_conn id l
  end.

Definition conn_del (id : nat) (s : sched) : sched := with_connhead s (remove_conn id (connhead s)).

Definition set_ctx (id : nat) (ctx : PCONF_CTX) (s : sched) : sched :=
  with_connhead s (map (fun c => if (cn_id c =? id)%nat then mkConn id (cn_fd c) ctx else c) (connhead s)).

Definition next_write (len : nat) (s : sched) : Z * sched :=
  match s_writes s with
  | [] => (Z.of_nat len, s)
  | r :: rest => (r, with_writes s rest)
  end.

(** [text] is the text that [fmt] and its arguments describe.  A connection that an earlier failure has
    deleted is used after it was freed; its descriptor is taken to be still there. *)
Definition send_to_one (c : conn_s) (text : bytes) (s : sched) : Z * sched :=
  let buf := snprintf_s US_SOCK_BUF_LEN text in
  let s := if find_conn (cn_id c) s then s else emit (OFault UseAfterFree) s in
  let '(ret, s) := next_write (length buf) s in
  let s := emit (OSend (cn_fd c) (take (Z.to_nat ret) buf)) s in
  if (ret <? 1) || negb (ret =? Z.of_nat (length buf)) then
    (0, conn_del (cn_id c) (emit (OClose (cn_fd c)) s))
  else (1, s).

(** [accept] and the two calls of [fcntl]: the descriptor, or a failure. *)
Definition conn_add (acc : option Z) (s : sched) : sched :=
  match acc with
  | None => s
  | Some fd => with_fresh (with_connhead s (connhead s ++ [mkConn (s_fresh s) fd pconf_init])) (S (s_fresh s))
  end.

(** *** Commands *)

(** [%g] of a whole number: up to six significant digits. *)
Definition show_g (z : Z) : bytes :=
  let a := Z.abs z in
  if a <? 1000000 then show_Z z
  else
    let e := Z.of_nat (length (show_Z a)) - 1 in
    let p := 10 ^ (e - 5) in
    let q := a / p in
    let r := 2 * (a mod p) in
    let m := if (p <? r) || ((r =? p) && Z.odd q) then q + 1 else q in
    let '(m, e) := if m =? 1000000 then (100000, e + 1) else (m, e) in
    let digits := show_Z m in
    let fix strip (l : bytes) := match l with
      | c :: l => match strip l with [] => if Ascii.eqb c (chr 48) then [] else [c] | l => c :: l end
      | [] => [] end in
    let frac := strip (drop 1 digits) in
    (if z <? 0 then $"-" else []) ++ take 1 digits ++ (match frac with [] => [] | _ => $"." ++ frac end)
      ++ $"e+" ++ (if e <? 10 then $"0" else []) ++ show_Z e.

Definition TAB : bytes := [chr 9].

(** A list of strings of a timer in the answer to LIST-TIMERS. *)
Definition list_field (c : conn_s) (a : option sarr) (sep term : bytes) (s : sched) : sched :=
  let '(text, s) := collect_string a sep s in
  match text with
  | Some (x :: text) => (send_to_one c ((x :: text) ++ term) s).2
  | _ => (send_to_one c (qt ++ qt ++ term) s).2
  end.

Fixpoint list_timers_loop (c : conn_s) (l : list ttype_s) (s : sched) : sched :=
  match l with
  | [] => s
  | item :: l =>
      let s := (send_to_one c (t_name item ++ TAB ++ show_Z (t_etime item) ++ TAB
                               ++ show_g (t_etime item - s_now s) ++ TAB) s).2 in
      let s := list_field c (t_notifytypes item) ($",") TAB s in
      let s := list_field c (t_upsnames item) ($",") TAB s in
      let s := list_field c (t_notifymsgs item) ($"." ++ TAB) [LF] s in
      list_timers_loop c l s
  end.

(** [conn->ctx.arglist[k]] *)
Definition arg_at (c : conn_s) (k : nat) (s : sched) : bytes * sched :=
  match nth_error (p_arglist (cn_ctx c)) k with
  | Some x => (x, s)
  | None => (s_junk s, emit (OFault OutOfBounds) s)
  end.

Definition sock_arg (c : conn_s) (s : sched) : Z * sched :=
  let numargs := p_numargs (cn_ctx c) in
  if (numargs <? 1)%nat then (0, s)
  else
    let '(cmd, s) := arg_at c 0 s in
    if streq cmd ($"LIST-TIMERS") then
      let s := (send_to_one c ($"BEGIN LIST TIMERS" ++ [LF]) s).2 in
      let s := list_timers_loop c (thead s) s in
      let s := (send_to_one c ($"END LIST TIMERS" ++ [LF]) s).2 in
      (1, (send_to_one c ($"OK" ++ [LF]) s).2)
    else if streq cmd ($"CANCEL") || streq cmd ($"CANCEL-MATCHED") then
      let do_cancel_matched := streq cmd ($"CANCEL-MATCHED") in
      let '(name, s) := arg_at c 1 s in
      let s :=
        if (numargs <? 3)%nat then cancel_timer name None None None do_cancel_matched s
        else
          let '(cname, s) := arg_at c 2 s in
          if (numargs <? 6)%nat then cancel_timer name (Some cname) None None do_cancel_matched s
          else
            let '(ntype, s) := arg_at c 3 s in
            let '(uname, s) := arg_at c 4 s in
            cancel_timer name (Some cname) (Some ntype) (Some uname) do_cancel_matched s in
      (1, (send_to_one c ($"OK" ++ [LF]) s).2)
    else if (numargs <? 6)%nat then (0, s)
    else
      let '(name, s) := arg_at c 1 s in
      let '(ofs, s) := arg_at c 2 s in
      let '(ntype, s) := arg_at c 3 s in
      let '(uname, s) := arg_at c 4 s in
      let '(msg, s) := arg_at c 5 s in
      if streq cmd ($"START") then
        (1, (send_to_one c ($"OK" ++ [LF]) (start_timer name ofs ntype uname msg false s)).2)
      else if streq cmd ($"START-SHARED") then
        (1, (send_to_one c ($"OK" ++ [LF]) (start_timer name ofs ntype uname msg true s)).2)
      else (0, s).

(** ** Reading *)

(** What a descriptor has: bytes, and what [read] tells after them.  At the end of the data a second
    look at the descriptor ([fcntl], [poll]) may find it usable still. *)
Inductive read_end := RE_again | RE_eof (usable : bool) | RE_error.
Record input := mkInput { in_bytes : bytes; in_end : read_end }.

(** The loop with [n] rounds left, for the connection [id]: the result and the bytes not read. *)
Fixpoint sock_read_loop (n : nat) (id : nat) (data : bytes) (e : read_end) (s : sched) : Z * bytes * sched :=
  match n with
  | O => (0, data, s)
  | S n =>
      match find_conn id s with
      | None => (0, data, s)
      | Some c =>
          match data with
          | [] =>
              match e with
              | RE_again => (0, [], s)
              | RE_eof usable => if negb usable || (n =? 0)%nat then (-1, [], s) else sock_read_loop n id [] e s
              | RE_error => (-1, [], s)
              end
          | ch :: data =>
              let '(ret, ctx) := pconf_char (cn_ctx c) ch in
              let s := set_ctx id ctx s in
              if ret =? 0 then sock_read_loop n id data e s
              else if ret =? -1 then (0, data, s)
              else
                let c := mkConn id (cn_fd c) ctx in
                let '(r, s) := sock_arg c s in
                (1, data, if r =? 0 then (send_to_one c ($"ERR UNKNOWN" ++ [LF]) s).2 else s)
          end
      end
  end.

Definition sock_read (id : nat) (inp : input) (s : sched) : Z * bytes * sched :=
  sock_read_loop US_MAX_READ id (in_bytes inp) (in_end inp) s.

(** ** The main loop *)

(** What happens in a round: the time, a new connection, and the input of the descriptors that are ready. *)
Record round := mkRound { r_now : Z; r_accept : option (option Z); r_ready : list (Z * input) }.

Definition ready_input (fd : Z) (l : list (Z * input)) : option input := snd <$> List.find (fun x => x.1 =? fd) l.

(** The loop over the connections; [tmpnext] is read first, and only [tmp] can be deleted meanwhile. *)
Fixpoint read_conns (l : list conn_s) (ready : list (Z * input)) (s : sched) : sched :=
  match l with
  | [] => s
  | tmp :: l =>
      let s :=
        match ready_input (cn_fd tmp) ready with
        | Some inp =>
            let '(ret, _, s) := sock_read (cn_id tmp) inp s in
            if ret <? 0 then conn_del (cn_id tmp) (emit (OClose (cn_fd tmp)) s) else s
        | None => s
        end in
      read_conns l ready s
  end.

(** A round of the loop of [start_daemon]: whether the daemon exits. *)
Definition daemon_round (r : round) (s : sched) : bool * sched :=
  let s := with_now s (r_now r) in
  let s := match r_accept r with Some acc => conn_add acc s | None => s end in
  let s := read_conns (connhead s) (r_ready r) s in
  checktimers s.

Fixpoint daemon_rounds (rs : list round) (s : sched) : bool * sched :=
  match rs with
  | [] => (false, s)
  | r :: rs => let '(done, s) := daemon_round r s in if done then (true, s) else daemon_rounds rs s
  end.

(** The child of [start_daemon] when it enters its loop, with the settings of the process it was forked from. *)
Definition start_daemon (argv : list bytes) (pipe : option bytes) (env : gmap bytes bytes) (now : Z) (junk : bytes)
    (writes : list Z) : sched :=
  mkSched [] [] 0 argv pipe (delete ($"NOTIFYMSG") (delete ($"UPSNAME") (delete ($"NOTIFYTYPE") env)))
    now writes 0 junk [].

Example show_g_ex : map show_g [-5; 999999; 1000000; 1234567; 9999995; 86400000] =
  [$"-5"; $"999999"; $"1e+06"; $"1.23457e+06"; $"1e+07"; $"8.64e+07"].
Proof. reflexivity. Qed.
