(* ===== verification/UpsschedCli.v ===== *)
(** * clients/upssched.c: the process that upsmon starts

    upsmon starts upssched with the UPS and the type of a notice in the environment.  It reads
    upssched.conf, runs or forwards what the matching AT lines ask for, and starts the daemon of
    [Upssched] when there is none.  The outcomes of the system calls are taken from lists; when a list
    is used up, connecting, locking and writing succeed and nothing more can be read. *)

From S2P Require Import Prelude CStr Fmt ParseConf ConfFile StrUtil Upssched.
From stdpp Require Import options.

(** What a round of waiting for an answer tells: [select] fails, times out, or [read] follows, with
    its result and the bytes read. *)
Inductive select_end := SelError | SelTimeout | SelData (ret : Z) (data : bytes).

Inductive cout :=
| KExec (argv : list bytes)
| KPrint (text : bytes)
| KStartDaemon (argv : list bytes) (pipe : bytes)
| KWrite (data : bytes).

Record cli := mkCli {
  k_argv : list bytes;           (* cmdscript_argv *)
  k_pipefn : option bytes;
  k_lockfn : option bytes;
  k_debug : Z;                   (* nut_debug_level *)
  list_timers : bool;
  ups_name : option bytes;
  notify_type : option bytes;
  notify_msg : option bytes;
  k_connects : list bool;
  k_locks : list bool;
  k_writes : list Z;
  k_selects : list select_end;
  k_out : list cout
}.

(** A computation returns, or the process exits with a status, or waits for ever, or follows a NULL
    pointer. *)
Inductive kres (A : Type) := KRet (a : A) (k : cli) | KExit (status : Z) (k : cli) | KHang (k : cli) | KCrash (k : cli).
Arguments KRet {A} a k.
Arguments KExit {A} status k.
Arguments KHang {A} k.
Arguments KCrash {A} k.

Definition K (A : Type) : Type := cli -> kres A.

#[export] Instance K_ret : MRet K := fun A a k => KRet a k.
#[export] Instance K_bind : MBind K := fun A B f m k =>
  match m k with
  | KRet a k => f a k
  | KExit st k => KExit st k
  | KHang k => KHang k
  | KCrash k => KCrash k
  end.

Definition k_state {A} (r : kres A) : cli :=
  match r with KRet _ k | KExit _ k | KHang k | KCrash k => k end.

Definition k_get : K cli := fun k => KRet k k.
Definition k_exit {A} (status : Z) : K A := fun k => KExit status k.
Definition k_hang {A} : K A := fun k => KHang k.
Definition k_crash {A} : K A := fun k => KCrash k.

Definition k_set_conf (k : cli) argv pipe lock dbg := mkCli argv pipe lock dbg (list_timers k)
  (ups_name k) (notify_type k) (notify_msg k) (k_connects k) (k_locks k) (k_writes k) (k_selects k) (k_out k).
Definition k_set_os (k : cli) connects locks writes selects out := mkCli (k_argv k) (k_pipefn k) (k_lockfn k)
  (k_debug k) (list_timers k) (ups_name k) (notify_type k) (notify_msg k) connects locks writes selects out.

Definition k_emit (o : cout) : K unit := fun k =>
  KRet tt (k_set_os k (k_connects k) (k_locks k) (k_writes k) (k_selects k) (k_out k ++ [o])).

Definition MAX_TRIES : nat := 30.

(** [try_connect] *)
Definition try_connect : K bool := fun k =>
  match k_connects k with
  | [] => KRet true k
  | b :: l => KRet b (k_set_os k l (k_locks k) (k_writes k) (k_selects k) (k_out k))
  end.

(** [get_lock] *)
Definition get_lock : K bool := fun k =>
  match k_locks k with
  | [] => KRet true k
  | b :: l => KRet b (k_set_os k (k_connects k) l (k_writes k) (k_selects k) (k_out k))
  end.

(** [write(pipefd, enc, enclen)] *)
Definition sys_write (enc : bytes) : K Z := fun k =>
  let '(ret, l) := match k_writes k with [] => (Z.of_nat (length enc), []) | r :: l => (r, l) end in
  KRet ret (k_set_os k (k_connects k) (k_locks k) l (k_selects k) (k_out k ++ [KWrite (take (Z.to_nat ret) enc)])).

(** [select] and [read] *)
Definition sys_select : K (option select_end) := fun k =>
  match k_selects k with
  | [] => KRet None k
  | r :: l => KRet (Some r) (k_set_os k (k_connects k) (k_locks k) (k_writes k) l (k_out k))
  end.

(** ** Finding the daemon *)

Inductive parent := ParentFd | PARENT_STARTED | PARENT_UNNECESSARY.

(** The loop of [check_parent] with [tries] rounds left. *)
Fixpoint check_parent_loop (tries : nat) (cmd : bytes) (arg2 : option bytes) : K parent :=
  match tries with
  | O => k_exit 1
  | S tries =>
      connected ← try_connect;
      if connected : bool then mret ParentFd
      else if streq cmd ($"CANCEL") && bool_decide (arg2 = None) then mret PARENT_UNNECESSARY
      else
        locked ← get_lock;
        if locked : bool then
          k ← k_get;
          k_emit (KStartDaemon (k_argv k) (default [] (k_pipefn k)));;
          mret PARENT_STARTED
        else check_parent_loop tries cmd arg2
  end.

Definition check_parent (cmd : bytes) (arg2 : option bytes) : K parent := check_parent_loop MAX_TRIES cmd arg2.

(** ** Sending a command *)

Definition ENCBUF : nat := LARGEBUF + 8.

Definition send_word (arg : option bytes) : bytes :=
  $" " ++ quoted (match arg with Some a => pconf_encode a ENCBUF | None => [] end).

(** The line in [enc]. *)
Definition sendcmd_line (cmd : bytes) (arg1 arg2 ntype uname msg : option bytes) : bytes :=
  let buf := snprintf_s LARGEBUF (cmd ++ send_word arg1) in
  let buf := snprintfcat buf LARGEBUF (send_word arg2) in
  let buf := snprintfcat buf LARGEBUF (send_word ntype) in
  let buf := snprintfcat buf LARGEBUF (send_word uname) in
  let buf := snprintfcat buf LARGEBUF (send_word msg) in
  snprintf_s ENCBUF (buf ++ [LF]).

Definition strstr (s p : bytes) : option nat := strstr_pos s p.

Definition BEGIN_LIST : bytes := $"BEGIN LIST TIMERS" ++ [LF].
Definition END_LIST : bytes := $"END LIST TIMERS" ++ [LF].
Definition OK_LINE : bytes := $"OK" ++ [LF].

(** What is printed of a piece of the answer to LIST-TIMERS, and whether the answer is complete. *)
Definition list_piece (data : bytes) : bytes * bool :=
  let buf := default data (cstring data) in
  let ok := strstr buf OK_LINE in
  let cut (n : option nat) (s : bytes) := match n with Some n => take n s | None => s end in
  let buf1 :=
    match strstr buf END_LIST with
    | Some e => take e buf
    | None => cut (S <$> strstr buf (LF :: $"END")) buf
    end in
  let buf1 := cut ok buf1 in
  (if has_prefix BEGIN_LIST buf1 then drop (length BEGIN_LIST) buf1 else buf1,
   match ok with Some _ => true | None => false end).

(** The [do ... while (ret_s <= 0)] loop over the outcomes [l]: [ret] and [buf] at its end. *)
Fixpoint wait_answer (l : list select_end) : K (Z * bytes) :=
  match l with
  | [] => k_hang
  | _ :: rest =>
      r ← sys_select;
      match r with
      | Some (SelData ret data) =>
          k ← k_get;
          if list_timers k && (0 <? ret) then
            let '(text, ok) := list_piece data in
            k_emit (KPrint text);;
            if ok : bool then mret (3, OK_LINE) else wait_answer rest
          else mret (ret, default data (cstring data))
      | _ => wait_answer rest
      end
  end.

(** The loop of [sendcmd] with [tries] rounds left. *)
Fixpoint sendcmd_loop (tries : nat) (cmd : bytes) (arg2 : option bytes) (enc : bytes) : K unit :=
  match tries with
  | O => k_exit 1
  | S tries =>
      k ← k_get;
      let listing := list_timers k in
      p ← (if listing then b ← try_connect; if b : bool then mret ParentFd else k_exit 1
           else check_parent cmd arg2);
      match p with
      | PARENT_STARTED => sendcmd_loop tries cmd arg2 enc
      | PARENT_UNNECESSARY => mret tt
      | ParentFd =>
          ret ← sys_write enc;
          if (ret <? 1) || negb (ret =? Z.of_nat (length enc)) then
            if listing : bool then k_exit 1 else sendcmd_loop tries cmd arg2 enc
          else
            k ← k_get;
            '(ret, buf) ← wait_answer (k_selects k);
            if ret <? 2 then if listing : bool then k_exit 1 else sendcmd_loop tries cmd arg2 enc
            else if strncmp buf ($"OK") 2 =? 0 then mret tt
            else if listing : bool then k_exit 1 else sendcmd_loop tries cmd arg2 enc
      end
  end.

Definition sendcmd (cmd : bytes) (arg1 arg2 : option bytes) : K unit :=
  k ← k_get;
  if bool_decide (arg1 = None) && negb (list_timers k) then mret tt
  else
    sendcmd_loop MAX_TRIES cmd arg2
      (sendcmd_line cmd arg1 arg2 (notify_type k) (ups_name k) (notify_msg k)).

(** ** upssched.conf *)

Definition cli_exec_cmd (cmd : bytes) : K unit :=
  k ← k_get;
  match k_argv k with [] => mret tt | argv => k_emit (KExec (argv ++ [cmd])) end.

(** [ups_name] and [notify_type] are compared as they are: a NULL pointer is followed. *)
Definition parse_at (ntype un cmd ca1 : bytes) (ca2 : option bytes) : K unit :=
  k ← k_get;
  if bool_decide (k_argv k = []) then k_emit (KPrint ($"CMDSCRIPT must be set before any ATs in the config file!" ++ [LF]));; k_exit 1
  else if bool_decide (k_pipefn k = None) then k_emit (KPrint ($"PIPEFN must be set before any ATs in the config file!" ++ [LF]));; k_exit 1
  else if bool_decide (k_lockfn k = None) then k_emit (KPrint ($"LOCKFN must be set before any ATs in the config file!" ++ [LF]));; k_exit 1
  else
    match ups_name k with
    | None => k_crash
    | Some ups =>
        if negb (streq ups un) && negb (streq un ($"*")) then mret tt
        else
          match notify_type k with
          | None => k_crash
          | Some nt =>
              if negb (strcaseeq nt ntype) then mret tt
              else if streq cmd ($"START-TIMER") then sendcmd ($"START") (Some ca1) ca2
              else if streq cmd ($"START-TIMER-SHARED") then sendcmd ($"START-SHARED") (Some ca1) ca2
              else if streq cmd ($"CANCEL-TIMER") then sendcmd ($"CANCEL") (Some ca1) ca2
              else if streq cmd ($"EXECUTE") then
                match ca1 with [] => mret tt | _ => cli_exec_cmd ca1 end
              else mret tt
          end
    end.

Definition conf_arg (arg : list bytes) : K Z :=
  match arg with
  | cmd :: arg1 :: more =>
      if streq cmd ($"CMDSCRIPT") then
        fun k => KRet 1 (k_set_conf k (arg1 :: more) (k_pipefn k) (k_lockfn k) (k_debug k))
      else if streq cmd ($"DEBUG_MIN") then
        fun k =>
          let '(ok, v, _) := str_to_int (Some arg1) 10 in
          KRet 1 (if (ok =? 1) && (k_debug k <? v) then k_set_conf k (k_argv k) (k_pipefn k) (k_lockfn k) v else k)
      else if streq cmd ($"PIPEFN") then
        fun k => KRet 1 (k_set_conf k (k_argv k) (Some arg1) (k_lockfn k) (k_debug k))
      else if streq cmd ($"LOCKFN") then
        fun k => KRet 1 (k_set_conf k (k_argv k) (k_pipefn k) (Some arg1) (k_debug k))
      else
        k ← k_get;
        if list_timers k then mret 2
        else
          match more with
          | arg2 :: arg3 :: arg4 :: more =>
              if streq cmd ($"AT") then parse_at arg1 arg2 arg3 arg4 (head more);; mret 1 else mret 0
          | _ => mret 0
          end
  | _ => mret 0
  end.

(** A line of the file, as the body of the loop of [checkconf]. *)
Definition conf_body (r : kres unit) (arg : list bytes) : kres unit :=
  match r with
  | KRet _ k => match arg with [] => KRet tt k | _ => (conf_arg arg ≫= fun _ => mret tt) k end
  | r => r
  end.

(** The whole of [checkconf], for a file that [fopen] opens or not; the fuel is that of
    [conf_load]. *)
Definition checkconf (fopen : bytes -> bytes + bytes) (fn : bytes) (k : cli) : kres unit :=
  match conf_load fopen fn conf_body (KRet tt k) with
  | None => KExit 1 k
  | Some (KRet _ k) =>
      if list_timers k then
        match k_pipefn k with
        | None | Some [] => KExit 1 k
        | Some _ => sendcmd ($"LIST-TIMERS") None None k
        end
      else KRet tt k
  | Some r => r
  end.

(** [main] after its options: [None] is the complaint about the environment. *)
Definition upssched_main (fopen : bytes -> bytes + bytes) (fn : bytes) (listing : bool)
    (ups nt : option bytes) (argv_msg : option bytes) (debug : Z)
    (connects locks : list bool) (writes : list Z) (selects : list select_end) : kres unit :=
  let msg := match argv_msg with Some (c :: m) => Some (c :: m) | _ => None end in
  let k := mkCli [] None None debug listing ups nt msg connects locks writes selects [] in
  if negb listing && (bool_decide (ups = None) || bool_decide (nt = None)) then
    KExit 1 (mkCli [] None None debug listing ups nt msg connects locks writes selects
      [KPrint ($"Error: environment variables UPSNAME and NOTIFYTYPE must be set." ++ [LF]
               ++ $"This program should only be run from upsmon(8)." ++ [LF])])
  else
    match checkconf fopen fn k with
    | KRet _ k => KExit 0 k
    | r => r
    end.
