(* ===== verification/UpsschedFacts.v ===== *)
(** * What the timer daemon of upssched does

    The queue of timers under each command, when commands are run and with which environment, and
    when the daemon ends. *)

From S2P Require Import Prelude CStr Fmt ParseConf ParseConfFacts Upssched.
From stdpp Require Import options.

(** ** The state between commands *)

Definition timer_ids (s : sched) : list nat := t_id <$> thead s.
Definition conn_ids (s : sched) : list nat := cn_id <$> connhead s.

(** Identities are different and used ones are below [s_fresh]. *)
Record sched_wf (s : sched) : Prop := mkSchedWf {
  wf_timers : NoDup (timer_ids s);
  wf_timers_old : Forall (fun t => t_id t < s_fresh s)%nat (thead s);
  wf_conns : NoDup (conn_ids s);
  wf_conns_old : Forall (fun c => cn_id c < s_fresh s)%nat (connhead s)
}.

(** The states differ in the output at most, which only grows. *)
Definition says (s s' : sched) : Prop := exists o, s' = with_out s (s_out s ++ o).

#[export] Instance says_preorder : PreOrder says.
Proof.
  split.
  - intros s. exists []. rewrite app_nil_r. by destruct s.
  - intros s1 s2 s3 [o1 ->] [o2 ->]. exists (o1 ++ o2). simpl. by rewrite app_assoc.
Qed.

Lemma says_emit o s : says s (emit o s).
Proof. by exists [o]. Qed.

Lemma says_touch a n s : says s (touch a n s).
Proof. unfold touch. case_match; [done|apply says_emit]. Qed.

#[export] Hint Resolve says_emit says_touch : nut.

Lemma says_exec_cmd cmd s : says s (exec_cmd cmd s).
Proof. unfold exec_cmd. case_match; [done|apply says_emit]. Qed.

Lemma says_collect a sep s : says s (collect_string a sep s).2.
Proof. unfold collect_string. repeat case_match; simpl; auto with nut; reflexivity. Qed.

Lemma says_free a s : says s (free_array a s).
Proof. unfold free_array. case_match; [apply says_touch|done]. Qed.

#[export] Hint Resolve says_exec_cmd says_collect says_free : nut.

(** ** One text from a list of strings *)

Fixpoint join_sep (sep : bytes) (l : list bytes) : bytes :=
  match l with
  | [] => []
  | [x] => x
  | x :: l => x ++ sep ++ join_sep sep l
  end.

Lemma cstring_prefix x rest : no_nul x -> cstring (x ++ NUL :: rest) = Some x.
Proof.
  intros H. induction H as [|c x Hc H IH]; simpl; [done|].
  rewrite decide_False by done. by rewrite IH.
Qed.

Lemma put_app pre rest x : put (pre ++ rest) (length pre) x = pre ++ x ++ drop (length x) rest.
Proof.
  unfold put. rewrite take_app_length. f_equal. f_equal.
  rewrite drop_app_ge by lia. f_equal. lia.
Qed.

(** A text that fits is appended. *)
Lemma collect_retry_fits fuel junk text size pre tail :
  length (pre ++ NUL :: tail) = size -> (length pre + length text < size - 1)%nat ->
  exists tail', collect_retry (S fuel) junk text (mkCbuf size (length pre) (pre ++ NUL :: tail))
    = mkCbuf size (length pre + length text) ((pre ++ text) ++ NUL :: tail')
    /\ length ((pre ++ text) ++ NUL :: tail') = size.
Proof.
  intros Hl Hfit. rewrite length_app in Hl. simpl in Hl. cbn [collect_retry].
  replace (size <=? length text + length pre)%nat with false by (symmetry; apply Nat.leb_gt; lia).
  unfold snprintf_at. replace (size - length pre - 1 =? 0)%nat with false by (symmetry; apply Nat.eqb_neq; lia).
  rewrite take_ge by lia. rewrite put_app. rewrite length_app. simpl length.
  set (d := drop (length text + 1) (NUL :: tail)).
  assert (length d = size - length pre - length text - 1)%nat as Hd by (unfold d; rewrite length_drop; simpl; lia).
  replace (pre ++ (text ++ [NUL]) ++ d) with ((pre ++ text ++ [NUL]) ++ d) by by rewrite <- !app_assoc.
  unfold put. rewrite take_app_ge by (rewrite !length_app; simpl; lia).
  exists (take (size - 1 - length (pre ++ text ++ [NUL])) d ++ [NUL]
          ++ drop (size - 1 + length [NUL]) ((pre ++ text ++ [NUL]) ++ d)).
  split.
  - f_equal. by rewrite <- !app_assoc.
  - autorewrite with nutrw. cbn [length]. autorewrite with nutrw. cbn [length]. rewrite Hd. lia.
Qed.

Lemma collect_loop_join junk sep l count pre tail size :
  Forall (fun x => x <> []) l -> length (pre ++ NUL :: tail) = size ->
  (length (pre ++ (if (count =? 0)%nat then [] else match l with [] => [] | _ => sep end) ++ join_sep sep l) < size - 1)%nat ->
  exists tail', cb_bytes (collect_loop junk sep l count (mkCbuf size (length pre) (pre ++ NUL :: tail)))
    = (pre ++ (if (count =? 0)%nat then [] else match l with [] => [] | _ => sep end) ++ join_sep sep l) ++ NUL :: tail'.
Proof.
  intros Hl. revert count pre tail. induction Hl as [|x l Hx Hl IH]; intros count pre tail Hs Hfit; cbn [collect_loop].
  - exists tail. simpl. case_match; by rewrite !app_nil_r.
  - destruct x as [|c x]; [done|]. set (text := (if (count =? 0)%nat then [] else sep) ++ (c :: x)).
    assert ((if (count =? 0)%nat then [] else sep) ++ join_sep sep ((c :: x) :: l)
            = text ++ (match l with [] => [] | _ => sep end) ++ join_sep sep l) as E.
    { unfold text. rewrite <- app_assoc. f_equal. destruct l; simpl; by rewrite ?app_nil_r. }
    rewrite E in Hfit |- *.
    edestruct (collect_retry_fits (length text) junk text size pre tail) as (tail1 & Eq & Hl1); [done| |].
    { rewrite !length_app in Hfit. lia. }
    rewrite Eq. rewrite <- length_app. destruct (IH (S count) (pre ++ text) tail1 Hl1) as [tail2 E2].
    { simpl. by rewrite <- app_assoc. }
    exists tail2. rewrite E2. simpl. f_equal. by rewrite <- !app_assoc.
Qed.

(** An array as [start_timer] makes it: its pointers are inside what is allocated. *)
Definition arr_ok (a : sarr) : Prop :=
  a_items a <> [] /\ Forall (fun x => x <> [] /\ no_nul x) (a_items a)
  /\ (PTR * S (length (a_items a)) <= a_size a)%nat.
Definition opt_arr_ok (a : option sarr) : Prop := match a with Some a => arr_ok a | None => True end.

Definition items (a : option sarr) : list bytes := match a with Some a => a_items a | None => [] end.

(** What [collect_string] makes of an array when all is well. *)
Definition text_of (sep : bytes) (a : option sarr) : option bytes :=
  match a with Some a => Some (join_sep sep (a_items a)) | None => None end.

Lemma join_sep_no_nul sep l : no_nul sep -> Forall no_nul l -> no_nul (join_sep sep l).
Proof.
  intros Hs Hl. induction Hl as [|x l Hx Hl IH]; [constructor|].
  destruct l as [|y l]; [done|]. change (join_sep sep (x :: y :: l)) with (x ++ sep ++ join_sep sep (y :: l)).
  unfold no_nul in *. by rewrite !Forall_app.
Qed.

Lemma touch_ok a n s : (PTR * n <= a_size a)%nat -> touch a n s = s.
Proof. intros H. unfold touch. by apply Nat.leb_le in H as ->. Qed.

Lemma collect_reads_le l : (collect_reads l <= S (length l))%nat.
Proof. induction l as [|[|c x] l IH]; simpl; lia. Qed.

(** The texts of a timer fit into the first buffer. *)
Definition text_fits (sep : bytes) (a : option sarr) : Prop :=
  (length (join_sep sep (items a)) < SMALLBUF - 1)%nat.

Lemma collect_string_join a sep s :
  opt_arr_ok a -> no_nul sep -> text_fits sep a -> collect_string a sep s = (text_of sep a, s).
Proof.
  intros Ha Hsep Hfit. destruct a as [a|]; [|done]. destruct Ha as (Hne & Hi & Hsz).
  unfold text_fits, items in Hfit. unfold collect_string, text_of. destruct (a_items a) as [|x l] eqn:E; [done|].
  destruct x as [|c x]; [by inversion Hi as [|? ? []]|].
  replace (touch a _ s) with s.
  2: { symmetry. apply touch_ok. pose proof (collect_reads_le ((c :: x) :: l)). unfold PTR in *. lia. }
  f_equal. change (replicate SMALLBUF NUL) with ([] ++ NUL :: replicate (SMALLBUF - 1) NUL).
  edestruct (collect_loop_join (hd NUL (s_junk s)) sep ((c :: x) :: l) 0 [] (replicate (SMALLBUF - 1) NUL) SMALLBUF)
    as [tail Et].
  - eapply Forall_impl; [exact Hi|]. by intros y [].
  - reflexivity.
  - exact Hfit.
  - change (length (@nil ascii)) with 0%nat in Et. rewrite Et. apply cstring_prefix.
    apply join_sep_no_nul; [done|]. eapply Forall_impl; [exact Hi|]. by intros y [].
Qed.

(** ** Running the command of a timer *)

Definition dot_tab : bytes := $"." ++ TAB.

Definition set_opt (name : bytes) (value : option bytes) (env : gmap bytes bytes) : gmap bytes bytes :=
  match value with Some v => <[name := v]> env | None => env end.

Definition unset_opt (name : bytes) (value : option bytes) (env : gmap bytes bytes) : gmap bytes bytes :=
  match value with Some _ => delete name env | None => env end.

(** The environment of a timer's command: the lists of the notices that started it. *)
Definition timer_env (t : ttype_s) (env : gmap bytes bytes) : gmap bytes bytes :=
  set_opt ($"NOTIFYMSG") (text_of dot_tab (t_notifymsgs t))
    (set_opt ($"NOTIFYTYPE") (text_of ($",") (t_notifytypes t))
      (set_opt ($"UPSNAME") (text_of ($",") (t_upsnames t)) env)).

Definition timer_cmd (s : sched) (t : ttype_s) : list out :=
  match t_name t, cmdscript_argv s with
  | [], _ | _, [] => []
  | _, argv => [OExec (argv ++ [t_name t]) (timer_env t (s_env s))]
  end.

(** The daemon's own environment has none of the three variables. *)
Definition clean_env (s : sched) : Prop :=
  s_env s !! ($"UPSNAME") = None /\ s_env s !! ($"NOTIFYTYPE") = None /\ s_env s !! ($"NOTIFYMSG") = None.

Definition timer_arrays_ok (t : ttype_s) : Prop :=
  opt_arr_ok (t_upsnames t) /\ opt_arr_ok (t_notifytypes t) /\ opt_arr_ok (t_notifymsgs t).

Definition timer_fits (t : ttype_s) : Prop :=
  text_fits ($",") (t_upsnames t) /\ text_fits ($",") (t_notifytypes t) /\ text_fits dot_tab (t_notifymsgs t).

Lemma with_env_id s : with_env s (s_env s) = s.
Proof. by destruct s. Qed.

(** What [exec_cmd] does depends on the environment, and nothing else of the state. *)
Lemma exec_cmd_env cmd e s :
  exec_cmd cmd (with_env s e)
  = with_env (with_out s (s_out s ++ match cmdscript_argv s with [] => [] | argv => [OExec (argv ++ [cmd]) e] end)) e.
Proof. unfold exec_cmd. simpl. case_match; simpl; [|done]. rewrite app_nil_r. by destruct s. Qed.

Lemma opt_setenv_eq n v s : opt_setenv n v s = with_env s (set_opt n v (s_env s)).
Proof. destruct v; simpl; [done|]. by rewrite with_env_id. Qed.

Lemma opt_unsetenv_eq n v s :
  opt_unsetenv n v s = with_env s (unset_opt n v (s_env s)).
Proof. destruct v; simpl; [done|]. by rewrite with_env_id. Qed.

(** Setting the three variables and removing them again. *)
Lemma env_restored (env : gmap bytes bytes) (a b c : option bytes) :
  env !! ($"UPSNAME") = None -> env !! ($"NOTIFYTYPE") = None -> env !! ($"NOTIFYMSG") = None ->
  unset_opt ($"NOTIFYMSG") c (unset_opt ($"NOTIFYTYPE") b (unset_opt ($"UPSNAME") a
    (set_opt ($"NOTIFYMSG") c (set_opt ($"NOTIFYTYPE") b (set_opt ($"UPSNAME") a env))))) = env.
Proof.
  intros Ha Hb Hc. apply map_eq. intros k.
  destruct (decide (k = $"UPSNAME")) as [->|N1]; [|destruct (decide (k = $"NOTIFYTYPE")) as [->|N2];
    [|destruct (decide (k = $"NOTIFYMSG")) as [->|N3]]]; destruct a, b, c; cbn [set_opt unset_opt];
    repeat first [rewrite lookup_delete_eq | rewrite lookup_delete_ne by first [congruence | discriminate]
                 | rewrite lookup_insert_ne by first [congruence | discriminate]]; congruence.
Qed.

Lemma exec_cmd_timer_spec t s :
  timer_arrays_ok t -> timer_fits t -> clean_env s ->
  exec_cmd_timer t s = with_out s (s_out s ++ timer_cmd s t).
Proof.
  intros (A1 & A2 & A3) (F1 & F2 & F3) (E1 & E2 & E3). unfold exec_cmd_timer, timer_cmd.
  destruct (t_name t) as [|c n] eqn:En; [rewrite app_nil_r; by destruct s|].
  assert (no_nul ($",") /\ no_nul dot_tab) as [N1 N2] by (split; repeat constructor; done).
  fold dot_tab. rewrite !collect_string_join by done.
  rewrite !opt_unsetenv_eq, !opt_setenv_eq. cbn [s_env with_env].
  match goal with |- context [exec_cmd _ ?x] => change x with (with_env s (s_env x)) end.
  rewrite exec_cmd_env. cbn [s_env with_env with_out s_out cmdscript_argv].
  rewrite env_restored by done. destruct s as [? ? ? argv]; simpl. by destruct argv.
Qed.

(** ** The queue *)

Lemma find_timer (l1 l2 : list ttype_s) t :
  NoDup (t_id <$> (l1 ++ t :: l2)) ->
  List.find (fun x => t_id x =? t_id t)%nat (l1 ++ t :: l2) = Some t
  /\ remove_id (t_id t) (l1 ++ t :: l2) = l1 ++ l2.
Proof.
  intros Hn. induction l1 as [|x l1 IH]; simpl.
  - by rewrite Nat.eqb_refl.
  - simpl in Hn. apply NoDup_cons in Hn as [Hx Hn].
    replace (t_id x =? t_id t)%nat with false.
    2: { symmetry. apply Nat.eqb_neq. intros E. apply Hx. rewrite E, fmap_app, elem_of_app. right. by left. }
    destruct (IH Hn) as [-> ->]. done.
Qed.

Lemma free_array_ok a s : opt_arr_ok a -> free_array a s = s.
Proof. destruct a as [a|]; [|done]. intros (_ & _ & H). by apply touch_ok. Qed.

Lemma removetimer_says l1 l2 t s :
  NoDup (timer_ids s) -> thead s = l1 ++ t :: l2 ->
  says (with_thead s (l1 ++ l2)) (removetimer (t_id t) s).
Proof.
  intros Hn E. unfold timer_ids in Hn. unfold removetimer. rewrite E in *.
  destruct (find_timer l1 l2 t Hn) as [-> ->].
  etransitivity; [|apply says_free]. etransitivity; apply says_free.
Qed.

Lemma removetimer_ok l1 l2 t s :
  NoDup (timer_ids s) -> thead s = l1 ++ t :: l2 -> timer_arrays_ok t ->
  removetimer (t_id t) s = with_thead s (l1 ++ l2).
Proof.
  intros Hn E (A1 & A2 & A3). unfold timer_ids in Hn. unfold removetimer. rewrite E in *.
  destruct (find_timer l1 l2 t Hn) as [-> ->]. by rewrite !free_array_ok.
Qed.

Definition due (now : Z) (t : ttype_s) : Prop := t_etime t <= now.
#[export] Instance due_dec now t : Decision (due now t).
Proof. unfold due. apply _. Defined.

Lemma checktimers_loop_spec l kept s :
  NoDup (timer_ids s) -> thead s = kept ++ l -> clean_env s ->
  Forall (fun t => timer_arrays_ok t /\ timer_fits t) l ->
  checktimers_loop l s =
    with_thead (with_out s (s_out s ++ flat_map (timer_cmd s) (filter (due (s_now s)) l)))
      (kept ++ filter (fun t => ~ due (s_now s) t) l).
Proof.
  intros Hn Ht He Hl. revert kept s Hn Ht He. induction Hl as [|t l [Ha Hf] Hl IH]; intros kept s Hn Ht He; simpl.
  - rewrite !app_nil_r in *. rewrite <- Ht. by destruct s.
  - rewrite !filter_cons. destruct (Z.leb_spec (t_etime t) (s_now s)) as [D|D].
    + rewrite decide_True by done. rewrite decide_False by (intros H; by apply H).
      rewrite exec_cmd_timer_spec by done. rewrite (removetimer_ok kept l) by done.
      rewrite (IH kept); simpl; try done.
      * change (flat_map (timer_cmd (with_thead (with_out s _) _))) with (flat_map (timer_cmd s)).
        by rewrite <- !app_assoc.
      * unfold timer_ids in *. simpl. rewrite Ht in Hn. rewrite fmap_app in *. simpl in Hn.
        apply NoDup_app in Hn as (? & N & H2). apply NoDup_cons in H2 as [? ?]. apply NoDup_app.
        split; [done|]. split; [|done]. intros x Hx Hx'. apply (N x Hx). by right.
    + rewrite decide_False by (unfold due; lia). rewrite decide_True by (unfold due; lia).
      rewrite (IH (kept ++ [t])); try done; rewrite <- ?app_assoc; done.
Qed.

(** ** The invariant *)

Record sched_inv (s : sched) : Prop := mkInv { inv_wf : sched_wf s; inv_env : clean_env s }.

Lemma says_frame s s' : says s s' ->
  thead s' = thead s /\ connhead s' = connhead s /\ s_env s' = s_env s /\ s_now s' = s_now s
  /\ s_fresh s' = s_fresh s /\ cmdscript_argv s' = cmdscript_argv s /\ s_junk s' = s_junk s.
Proof. by intros [o ->]. Qed.

Lemma says_inv s s' : says s s' -> sched_inv s -> sched_inv s'.
Proof. intros [o ->] [[] []]. by split; [split|]. Qed.

Lemma timer_ids_app (l1 l2 : list ttype_s) t :
  NoDup (t_id <$> (l1 ++ t :: l2)) -> NoDup (t_id <$> (l1 ++ l2)).
Proof.
  rewrite !fmap_app. simpl. rewrite !NoDup_app. intros (? & N & H). apply NoDup_cons in H as [? ?].
  split; [done|]. split; [|done]. intros x Hx Hx'. apply (N x Hx). by right.
Qed.

Lemma removetimer_inv id s : sched_inv s -> sched_inv (removetimer id s).
Proof.
  intros H. destruct (List.find (fun t => t_id t =? id)%nat (thead s)) as [t|] eqn:F.
  2: { unfold removetimer. by rewrite F. }
  apply find_some in F as [Hin E]. apply Nat.eqb_eq in E. subst id.
  apply list_elem_of_In, list_elem_of_split in Hin as (l1 & l2 & E).
  destruct H as [[W1 W2 W3 W4] Hc]. eapply says_inv; [by apply removetimer_says|].
  split; [|done]. unfold timer_ids in *. rewrite E in *. split; try done; simpl.
  - by eapply timer_ids_app.
  - apply Forall_app in W2 as [? W2]. inversion W2. by apply Forall_app.
Qed.

Lemma exec_cmd_timer_says t s : clean_env s -> says s (exec_cmd_timer t s).
Proof.
  intros E. unfold exec_cmd_timer. destruct (t_name t) as [|ch n]; [done|].
  pose proof (says_collect (t_upsnames t) ($",") s) as S1. destruct (collect_string (t_upsnames t) _ s) as [a s1].
  pose proof (says_collect (t_notifytypes t) ($",") s1) as S2. destruct (collect_string (t_notifytypes t) _ s1) as [b s2].
  pose proof (says_collect (t_notifymsgs t) ($"." ++ [chr 9]) s2) as S3.
  destruct (collect_string (t_notifymsgs t) _ s2) as [c s3]. cbn [snd] in *.
  assert (says s s3) as S by (etransitivity; [exact S1|etransitivity; done]).
  destruct S as [o ->]. destruct E as (E1 & E2 & E3).
  rewrite !opt_unsetenv_eq, !opt_setenv_eq. cbn [s_env with_env].
  match goal with |- context [exec_cmd _ ?x] => change x with (with_env (with_out s (s_out s ++ o)) (s_env x)) end.
  rewrite exec_cmd_env. cbn [s_env with_env with_out s_out cmdscript_argv]. rewrite env_restored by done.
  eexists. rewrite <- app_assoc. by destruct s.
Qed.

Lemma checktimers_loop_inv l s : sched_inv s -> sched_inv (checktimers_loop l s).
Proof.
  revert s. induction l as [|t l IH]; intros s H; simpl; [done|]. apply IH. case_match; [|done].
  apply removetimer_inv. eapply says_inv; [|done]. apply exec_cmd_timer_says. apply H.
Qed.

Lemma checktimers_inv s : sched_inv s -> sched_inv (checktimers s).2.
Proof.
  intros H. unfold checktimers.
  assert (forall z, sched_inv (with_emptyctr s z)) as He by (intros; by destruct H as [[] ?]; split; [split|]).
  destruct (thead s) eqn:E; [|by apply checktimers_loop_inv].
  case_match; [apply He|]. cbn [snd]. case_match; [|apply He]. eapply says_inv; [apply says_emit|apply He].
Qed.

Lemma says_share x a s : says s (share_string x a s).2.
Proof. unfold share_string. repeat case_match; cbn [snd]; auto with nut; try done. etransitivity; apply says_touch. Qed.

#[export] Hint Resolve says_share : nut.

Lemma share_timer_says ty up msg t s :
  says s (share_timer ty up msg t s).2 /\ t_id (share_timer ty up msg t s).1 = t_id t
  /\ t_name (share_timer ty up msg t s).1 = t_name t.
Proof.
  unfold share_timer.
  pose proof (says_share ty (t_notifytypes t) s) as S1. destruct (share_string ty _ s) as [a s1].
  pose proof (says_share msg (t_notifymsgs t) s1) as S2. destruct (share_string msg _ s1) as [b s2].
  pose proof (says_share up (t_upsnames t) s2) as S3. destruct (share_string up _ s2) as [c s3].
  split; [|done]. cbn [snd] in *. etransitivity; [exact S1|]. etransitivity; done.
Qed.

Lemma share_loop_says name ty up msg l s l' s' :
  share_loop name ty up msg l s = Some (l', s') -> says s s' /\ t_id <$> l' = t_id <$> l.
Proof.
  revert l'. induction l as [|t l IH]; intros l'; simpl; [done|]. case_match eqn:E.
  - destruct (share_timer ty up msg t s) as [t' s1] eqn:Et. intros [= <- <-].
    pose proof (share_timer_says ty up msg t s) as (H1 & H2 & _). rewrite Et in *. simpl in *. by rewrite H2.
  - destruct (share_loop name ty up msg l s) as [[l1 s1]|]; [|done]. intros [= <- <-].
    destruct (IH l1 eq_refl) as [? Eq]. split; [done|]. by rewrite !fmap_cons, Eq.
Qed.

Lemma Forall_ids (P : nat -> Prop) (l l' : list ttype_s) :
  t_id <$> l' = t_id <$> l -> Forall (fun t => P (t_id t)) l -> Forall (fun t => P (t_id t)) l'.
Proof.
  intros E H. assert (Forall P (t_id <$> l)) as H1 by (by apply Forall_fmap). rewrite <- E in H1.
  exact (proj1 (Forall_fmap t_id P l') H1).
Qed.

Lemma start_timer_inv name ofs ty up msg sh s :
  sched_inv s -> sched_inv (start_timer name ofs ty up msg sh s).
Proof.
  intros H. unfold start_timer. case_match; [done|].
  destruct (if sh then _ else None) as [[l s1]|] eqn:E.
  - destruct sh; [|done]. apply share_loop_says in E as [S E].
    destruct (says_inv _ _ S H) as [[W1 W2 W3 W4] ?]. apply says_frame in S as (F1 & F2 & F3 & F4 & F5 & _).
    split; [|done]. unfold timer_ids in *. rewrite F1 in *. split; simpl; unfold timer_ids; simpl; try done.
    + by rewrite E.
    + by apply (Forall_ids (fun n => n < s_fresh s1)%nat _ _ E).
  - unfold add_timer.
    assert (sched_inv (if s_now s + (strtol ofs 10).1.1 <=? LONG_MAX then s else emit (OFault SignedOverflow) s)) as H1
      by (destruct (_ <=? _); [done|]; eapply says_inv; [apply says_emit|done]).
    revert H1. generalize (if s_now s + (strtol ofs 10).1.1 <=? LONG_MAX then s else emit (OFault SignedOverflow) s).
    intros s1 [[W1 W2 W3 W4] ?]. split; [|done]. unfold timer_ids, conn_ids in *.
    split; unfold timer_ids, conn_ids; simpl; try done.
    + rewrite fmap_app. apply NoDup_app. split; [done|]. split; [|apply NoDup_singleton].
      intros x Hx Hx'. apply list_elem_of_singleton in Hx'. simpl in Hx'. subst x.
      apply list_elem_of_fmap in Hx as (t & Et & Ht). rewrite Forall_forall in W2. specialize (W2 t Ht). lia.
    + apply Forall_app. split; [|by repeat constructor]. eapply Forall_impl; [exact W2|]. simpl. lia.
    + eapply Forall_impl; [exact W4|]. simpl. lia.
Qed.

(** What holds between the state before and after anything the daemon does for its clients. *)
Record serves (s s' : sched) : Prop := mkServes {
  sv_inv : sched_inv s -> sched_inv s';
  sv_const : (emptyctr s', s_now s', cmdscript_argv s', pipefn s', s_junk s')
             = (emptyctr s, s_now s, cmdscript_argv s, pipefn s, s_junk s);
  sv_env : s_env s' = s_env s;
  sv_out : s_out s `prefix_of` s_out s'
}.

#[export] Instance serves_preorder : PreOrder serves.
Proof.
  split.
  - intros s. by split.
  - intros s1 s2 s3 [] []. split; [auto|congruence|congruence|by etrans].
Qed.

Lemma serves_says s s' : says s s' -> serves s s'.
Proof. intros S. split; [by apply says_inv|..]; destruct S as [o ->]; simpl; try done. by apply prefix_app_r. Qed.

Lemma removetimer_says_any id s : exists l, says (with_thead s l) (removetimer id s).
Proof.
  unfold removetimer. case_match.
  - eexists. etransitivity; [|apply says_free]. etransitivity; apply says_free.
  - exists (thead s). by destruct s.
Qed.

Lemma removetimer_serves id s : serves s (removetimer id s).
Proof.
  destruct (removetimer_says_any id s) as [l [o E]]. split; [apply removetimer_inv|rewrite E; simpl..]; try done.
  by apply prefix_app_r.
Qed.

Lemma start_timer_serves name ofs ty up msg sh s : serves s (start_timer name ofs ty up msg sh s).
Proof.
  split; [apply start_timer_inv|..]; unfold start_timer; case_match; try done;
    (destruct (if sh then _ else None) as [[l s1]|] eqn:E;
     [destruct sh; [|done]; apply share_loop_says in E as [[o ->] _]; simpl; try done; by apply prefix_app_r|]);
    unfold add_timer; destruct (_ <=? _); simpl; try done; by apply prefix_app_r.
Qed.

Lemma says_match x a s : says s (match_string x a s).2.
Proof. unfold match_string. repeat case_match; simpl; auto with nut; reflexivity. Qed.

Lemma says_cancel_matches ty up m t s : says s (cancel_matches ty up m t s).2.
Proof.
  unfold cancel_matches. case_match; [reflexivity|].
  pose proof (says_match ty (t_notifytypes t) s) as S. destruct (match_string ty _ s) as [[] s1]; [|done].
  etransitivity; [exact S|apply says_match].
Qed.

Lemma says_read_next t s : says s (read_next t s).
Proof. unfold read_next. case_match; [reflexivity|apply says_emit]. Qed.

Lemma cancel_loop_serves name ty up m l k s : serves s (cancel_loop name ty up m l k s).2.
Proof.
  revert k s. induction l as [|t l IH]; intros k s; cbn [cancel_loop]; [reflexivity|].
  destruct (if streq (t_name t) name then _ else _) as [b s1] eqn:E.
  assert (serves s s1) as S.
  { apply serves_says. case_match; [|by simplify_eq]. pose proof (says_cancel_matches ty up m t s) as H1.
    by rewrite E in H1. }
  etransitivity; [exact S|].
  destruct b; [etransitivity; [apply removetimer_serves|]|]; (etransitivity; [apply serves_says, says_read_next|apply IH]).
Qed.

Lemma cancel_timer_serves name cn ty up m s : serves s (cancel_timer name cn ty up m s).
Proof.
  unfold cancel_timer. pose proof (cancel_loop_serves name ty up m (thead s) 0 s) as S.
  destruct (cancel_loop _ _ _ _ _ _ _) as [k s1]. etransitivity; [exact S|].
  case_match; [reflexivity|]. destruct cn as [[|c cn]|]; try reflexivity. apply serves_says, says_exec_cmd.
Qed.

(** *** Connections *)

Lemma remove_conn_sublist id l : remove_conn id l `sublist_of` l.
Proof.
  induction l as [|c l IH]; simpl; [done|]. case_match; [by apply sublist_cons|by apply sublist_skip].
Qed.

Lemma remove_conn_elem id l c : c ∈ remove_conn id l -> c ∈ l.
Proof. intros H. eapply elem_of_submseteq; [exact H|]. apply sublist_submseteq, remove_conn_sublist. Qed.

Lemma with_connhead_inv s l :
  NoDup (cn_id <$> l) -> Forall (fun c => cn_id c < s_fresh s)%nat l -> sched_inv s -> sched_inv (with_connhead s l).
Proof. intros H1 H2 [[] ?]. by split; [split|]. Qed.

Lemma conn_del_serves id s : serves s (conn_del id s).
Proof.
  unfold conn_del. split; try done. intros H.
  apply with_connhead_inv; [| |done]; destruct H as [[W1 W2 W3 W4] _].
  - eapply sublist_NoDup; [exact W3|]. apply fmap_sublist, remove_conn_sublist.
  - rewrite Forall_forall in W4 |- *. intros c Hc. apply W4. by eapply remove_conn_elem.
Qed.

Lemma set_ctx_serves id ctx s : serves s (set_ctx id ctx s).
Proof.
  unfold set_ctx. split; try done. intros H. apply with_connhead_inv; [| |done]; destruct H as [[W1 W2 W3 W4] _].
  - unfold conn_ids in W3. replace (cn_id <$> map _ _) with (cn_id <$> connhead s); [done|].
    rewrite <- list_fmap_compose. apply list_fmap_ext. intros i c _. simpl. case_match; [|done].
    by apply Nat.eqb_eq.
  - apply Forall_fmap. eapply Forall_impl; [exact W4|]. intros c Hc. simpl. case_match eqn:E; [|done].
    apply Nat.eqb_eq in E. by subst.
Qed.

Lemma send_serves c text s : serves s (send_to_one c text s).2.
Proof.
  unfold send_to_one.
  assert (serves s (if find_conn (cn_id c) s then s else emit (OFault UseAfterFree) s)) as S1
    by (case_match; [reflexivity|apply serves_says, says_emit]).
  revert S1. generalize (if find_conn (cn_id c) s then s else emit (OFault UseAfterFree) s). intros s1 S1.
  destruct (next_write _ s1) as [ret s2] eqn:E.
  assert (serves s1 s2) as S2.
  { unfold next_write in E. case_match; simplify_eq; [reflexivity|]. split; try done. intros [[] ?]. by split; [split|]. }
  etransitivity; [exact S1|]. etransitivity; [exact S2|].
  case_match; [|apply serves_says, says_emit]. cbn [snd].
  etransitivity; [|apply conn_del_serves]. etransitivity; apply serves_says, says_emit.
Qed.

Lemma list_field_serves c a sep term s : serves s (list_field c a sep term s).
Proof.
  unfold list_field. pose proof (says_collect a sep s) as S. destruct (collect_string a sep s) as [text s1].
  etransitivity; [apply serves_says, S|]. destruct text as [[|x text]|]; apply send_serves.
Qed.

Lemma list_timers_loop_serves c l s : serves s (list_timers_loop c l s).
Proof.
  revert s. induction l as [|t l IH]; intros s; cbn [list_timers_loop]; [reflexivity|].
  repeat (etransitivity; [|apply IH]). repeat (etransitivity; [|apply list_field_serves]). apply send_serves.
Qed.

Lemma arg_at_serves c k s : serves s (arg_at c k s).2.
Proof. unfold arg_at. case_match; [reflexivity|apply serves_says, says_emit]. Qed.

(** A read of a word, followed by anything that serves. *)
Lemma arg_at_bind {A} c k s (f : bytes -> sched -> A * sched) :
  (forall x s1, serves s1 (f x s1).2) -> serves s (let '(x, s1) := arg_at c k s in f x s1).2.
Proof.
  intros H. pose proof (arg_at_serves c k s) as S. destruct (arg_at c k s) as [x s1]. etransitivity; [exact S|apply H].
Qed.

Lemma arg_at_bind' c k s (f : bytes -> sched -> sched) :
  (forall x s1, serves s1 (f x s1)) -> serves s (let '(x, s1) := arg_at c k s in f x s1).
Proof.
  intros H. pose proof (arg_at_serves c k s) as S. destruct (arg_at c k s) as [x s1]. etransitivity; [exact S|apply H].
Qed.

Lemma sock_arg_serves c s : serves s (sock_arg c s).2.
Proof.
  unfold sock_arg. case_match; [reflexivity|]. apply arg_at_bind. intros cmd s1. case_match.
  { cbn [snd]. etransitivity; [|apply send_serves]. etransitivity; [|apply send_serves].
    etransitivity; [|apply list_timers_loop_serves]. apply send_serves. }
  case_match.
  { apply arg_at_bind. intros name s2. cbn [snd]. etransitivity; [|apply send_serves].
    case_match; [apply cancel_timer_serves|]. apply arg_at_bind'. intros cname s3.
    case_match; [apply cancel_timer_serves|]. apply arg_at_bind'. intros ty s4. apply arg_at_bind'.
    intros up s5. apply cancel_timer_serves. }
  case_match; [reflexivity|]. do 5 (apply arg_at_bind; intros ? ?).
  repeat case_match; try reflexivity; (etransitivity; [apply start_timer_serves|apply send_serves]).
Qed.

Lemma sock_read_loop_serves n id data e s : serves s (sock_read_loop n id data e s).2.
Proof.
  revert data s. induction n as [|n IH]; intros data s; cbn [sock_read_loop]; [reflexivity|].
  case_match; [|reflexivity]. destruct data as [|ch data].
  { destruct e; try reflexivity. case_match; [reflexivity|apply IH]. }
  destruct (pconf_char _ ch) as [r ctx]. etransitivity; [apply (set_ctx_serves id ctx)|].
  case_match; [apply IH|]. case_match; [reflexivity|].
  match goal with |- context [sock_arg ?c ?s] => pose proof (sock_arg_serves c s) as S; destruct (sock_arg c s) as [k s1] end.
  etransitivity; [exact S|]. cbn [snd]. case_match; [apply send_serves|reflexivity].
Qed.

Lemma read_conns_serves l ready s : serves s (read_conns l ready s).
Proof.
  revert s. induction l as [|c l IH]; intros s; cbn [read_conns]; [reflexivity|]. etransitivity; [|apply IH].
  case_match; [|reflexivity]. unfold sock_read.
  pose proof (sock_read_loop_serves US_MAX_READ (cn_id c) (in_bytes i) (in_end i) s) as S.
  destruct (sock_read_loop _ _ _ _ _) as [[r d] s1]. etransitivity; [exact S|]. case_match; [|reflexivity].
  etransitivity; [apply serves_says, says_emit|apply conn_del_serves].
Qed.

Lemma conn_add_serves acc s : serves s (conn_add acc s).
Proof.
  unfold conn_add. case_match; [|reflexivity]. split; try done. intros [[W1 W2 W3 W4] He]. split; [|done].
  unfold timer_ids, conn_ids in *. split; unfold timer_ids, conn_ids; simpl; try done.
  - eapply Forall_impl; [exact W2|]. simpl. lia.
  - rewrite fmap_app. apply NoDup_app. split; [done|]. split; [|apply NoDup_singleton].
    intros x Hx Hx'. apply list_elem_of_singleton in Hx'. simpl in Hx'. subst x.
    apply list_elem_of_fmap in Hx as (t & Et & Ht). rewrite Forall_forall in W4. specialize (W4 t Ht). lia.
  - apply Forall_app. split; [|by repeat constructor]. eapply Forall_impl; [exact W4|]. simpl. lia.
Qed.

(** The state in which a round comes to the timers. *)
Definition served (r : round) (s : sched) : sched :=
  let s := with_now s (r_now r) in
  let s := match r_accept r with Some acc => conn_add acc s | None => s end in
  read_conns (connhead s) (r_ready r) s.

Lemma daemon_round_eq r s : daemon_round r s = checktimers (served r s).
Proof. done. Qed.

Lemma served_serves r s : serves (with_now s (r_now r)) (served r s).
Proof.
  unfold served. etransitivity; [|apply read_conns_serves]. case_match; [apply conn_add_serves|reflexivity].
Qed.

Lemma served_inv r s : sched_inv s -> sched_inv (served r s).
Proof. intros [[] ?]. apply (sv_inv _ _ (served_serves r s)). by split; [split|]. Qed.

Lemma daemon_round_inv r s : sched_inv s -> sched_inv (daemon_round r s).2.
Proof. intros H. rewrite daemon_round_eq. by apply checktimers_inv, served_inv. Qed.

Lemma daemon_rounds_inv rs s : sched_inv s -> sched_inv (daemon_rounds rs s).2.
Proof.
  revert s. induction rs as [|r rs IH]; intros s H; cbn [daemon_rounds]; [done|].
  pose proof (daemon_round_inv r s H) as H1. destruct (daemon_round r s) as [[] s1]; [done|by apply IH].
Qed.

Lemma start_daemon_inv argv pipe env now junk writes : sched_inv (start_daemon argv pipe env now junk writes).
Proof.
  split; [split; simpl; constructor|]. unfold clean_env, start_daemon. cbn [s_env].
  repeat split; repeat first [apply lookup_delete_eq | rewrite lookup_delete_ne by discriminate].
Qed.
