(* ===== verification/UpsschedQueue.v ===== *)
(** * The queue of upssched as an abstract data type

    A timer is a name, a time and three sets of words; the commands of the socket are functions on the
    list of timers.  [Upssched] implements them, and leaves defined behaviour in the ways shown here. *)

From S2P Require Import Prelude CStr Fmt ParseConf ParseConfFacts Upssched UpsschedFacts.
From stdpp Require Import options.

(** ** The specification *)

Record atimer := mkATimer {
  at_name : bytes;
  at_etime : Z;
  at_ups : list bytes;
  at_types : list bytes;
  at_msgs : list bytes
}.

#[export] Instance atimer_eq_dec : EqDecision atimer.
Proof. solve_decision. Defined.

(** A word is added unless it is empty or known. *)
Definition add_unique (x : bytes) (l : list bytes) : list bytes :=
  if decide (x = [] \/ x ∈ l) then l else l ++ [x].

Definition a_add (ty up msg : bytes) (a : atimer) : atimer :=
  mkATimer (at_name a) (at_etime a) (add_unique up (at_ups a)) (add_unique ty (at_types a)) (add_unique msg (at_msgs a)).

(** The first timer of that name gets the words. *)
Fixpoint a_share (name ty up msg : bytes) (q : list atimer) : option (list atimer) :=
  match q with
  | [] => None
  | a :: q => if decide (at_name a = name) then Some (a_add ty up msg a :: q)
              else cons a <$> a_share name ty up msg q
  end.

Definition a_add_timer (now : Z) (name : bytes) (ofs : Z) (ty up msg : bytes) (shared : bool) (q : list atimer) : list atimer :=
  if ofs <? 0 then q
  else
    match (if shared then a_share name ty up msg q else None) with
    | Some q => q
    | None => q ++ [mkATimer name (wrapS 64 (now + ofs)) (add_unique up []) (add_unique ty []) (add_unique msg [])]
    end.

(** Whether a timer is cancelled, with the constraints [ty] and [up] if [matched]. *)
Definition a_admits (x : option bytes) (l : list bytes) : bool :=
  match x with None => true | Some x => bool_decide (x ∈ l) end.
Definition a_cancels (name : bytes) (ty up : option bytes) (matched : bool) (a : atimer) : bool :=
  bool_decide (at_name a = name)
  && (negb matched || (trivial ty && trivial up) || (a_admits ty (at_types a) && a_admits up (at_ups a))).

Definition a_keeps (name : bytes) (ty up : option bytes) (matched : bool) (a : atimer) : Prop :=
  a_cancels name ty up matched a = false.
#[export] Instance a_keeps_dec name ty up m a : Decision (a_keeps name ty up m a).
Proof. unfold a_keeps. apply _. Defined.

(** The new queue, and the command to run: [cname] when there was nothing to cancel. *)
Definition a_cancel (name : bytes) (cname ty up : option bytes) (matched : bool) (q : list atimer)
    : list atimer * option bytes :=
  let q' := filter (a_keeps name ty up matched) q in
  (q', if (length q' <? length q)%nat then None else match cname with Some (c :: x) => Some (c :: x) | _ => None end).

(** A command of the socket: whether it is known, the new queue, and the command to run. *)
Definition a_command (now : Z) (w : list bytes) (q : list atimer) : bool * list atimer * option bytes :=
  let n := length w in
  let word k := nth k w [] in
  if (n =? 0)%nat then (false, q, None)
  else if decide (word 0%nat = $"LIST-TIMERS") then (true, q, None)
  else if decide (word 0%nat = $"CANCEL" \/ word 0%nat = $"CANCEL-MATCHED") then
    let m := bool_decide (word 0%nat = $"CANCEL-MATCHED") in
    let cname := if (n <? 3)%nat then None else Some (word 2%nat) in
    let ty := if (n <? 6)%nat then None else Some (word 3%nat) in
    let up := if (n <? 6)%nat then None else Some (word 4%nat) in
    let '(q, run) := a_cancel (word 1%nat) cname ty up m q in (true, q, run)
  else if (n <? 6)%nat then (false, q, None)
  else
    let start sh := a_add_timer now (word 1%nat) (strtol (word 2%nat) 10).1.1 (word 3%nat) (word 4%nat) (word 5%nat) sh q in
    if decide (word 0%nat = $"START") then (true, start false, None)
    else if decide (word 0%nat = $"START-SHARED") then (true, start true, None)
    else (false, q, None).

(** ** The abstraction *)

Definition abs (t : ttype_s) : atimer :=
  mkATimer (t_name t) (t_etime t) (items (t_upsnames t)) (items (t_notifytypes t)) (items (t_notifymsgs t)).
Definition queue (s : sched) : list atimer := abs <$> thead s.

Definition is_exec (o : out) : bool := match o with OExec _ _ => true | _ => false end.
Definition execs (l : list out) : list out := List.filter is_exec l.

(** What running [cmd] shows. *)
Definition run (s : sched) (cmd : option bytes) : list out :=
  match cmd, cmdscript_argv s with
  | Some c, (_ :: _) as argv => [OExec (argv ++ [c]) (s_env s)]
  | _, _ => []
  end.

Lemma execs_app l1 l2 : execs (l1 ++ l2) = execs l1 ++ execs l2.
Proof. apply List.filter_app. Qed.

(** The states differ in output that is not a command. *)
Definition mutters (s s' : sched) : Prop := says s s' /\ execs (s_out s') = execs (s_out s).

#[export] Instance mutters_preorder : PreOrder mutters.
Proof.
  split.
  - intros s. by split.
  - intros s1 s2 s3 [] []. split; [by etransitivity|congruence].
Qed.

Lemma mutters_emit o s : is_exec o = false -> mutters s (emit o s).
Proof. intros H. split; [apply says_emit|]. simpl. rewrite execs_app. simpl. by rewrite H, app_nil_r. Qed.

Lemma mutters_touch a n s : mutters s (touch a n s).
Proof. unfold touch. case_match; [done|by apply mutters_emit]. Qed.

Lemma mutters_free a s : mutters s (free_array a s).
Proof. unfold free_array. case_match; [apply mutters_touch|done]. Qed.

Lemma mutters_says_thead s s' : mutters s s' -> thead s' = thead s.
Proof. by intros [[o ->] _]. Qed.

(** ** Words of an array *)

Lemma find_string_lt x l : (find_string x l <? length l)%nat = bool_decide (x ∈ l).
Proof.
  induction l as [|y l IH]; cbn [find_string length]; [done|].
  destruct (streq y x) eqn:E.
  - apply streq_true in E. subst. symmetry. apply bool_decide_eq_true_2. by left.
  - change (S (find_string x l) <? S (length l))%nat with (find_string x l <? length l)%nat. rewrite IH.
    apply bool_decide_ext. rewrite elem_of_cons. split; [by right|]. intros [->|?]; [|done].
    by rewrite streq_refl in E.
Qed.

Lemma find_string_absent x l : x ∉ l -> find_string x l = length l.
Proof.
  intros H. induction l as [|y l IH]; simpl; [done|]. destruct (streq y x) eqn:E.
  - apply streq_true in E. subst. exfalso. apply H. by left.
  - f_equal. apply IH. intros H1. apply H. by right.
Qed.

Lemma items_new x : items (new_array x) = add_unique x [].
Proof.
  unfold add_unique. destruct x; [done|]. rewrite decide_False; [done|]. intros [|H]; [done|]. inversion H.
Qed.

Lemma share_string_spec x a s :
  items (share_string x a s).1 = add_unique x (items a) /\ mutters s (share_string x a s).2.
Proof.
  unfold share_string. destruct x as [|c x]; [by unfold add_unique; rewrite decide_True by auto|].
  destruct a as [a|]; [|split; [apply (items_new (c :: x))|done]]. cbn zeta. rewrite find_string_lt. case_bool_decide as E; simpl.
  - unfold add_unique. rewrite decide_True by auto. split; [done|apply mutters_touch].
  - unfold add_unique. rewrite decide_False by naive_solver. split; [done|]. etransitivity; apply mutters_touch.
Qed.

Lemma share_timer_spec ty up msg t s :
  let r := share_timer ty up msg t s in abs r.1 = a_add ty up msg (abs t) /\ mutters s r.2.
Proof.
  unfold share_timer.
  destruct (share_string_spec ty (t_notifytypes t) s) as [I1 S1]. destruct (share_string ty _ s) as [a s1].
  destruct (share_string_spec msg (t_notifymsgs t) s1) as [I2 S2]. destruct (share_string msg _ s1) as [b s2].
  destruct (share_string_spec up (t_upsnames t) s2) as [I3 S3]. destruct (share_string up _ s2) as [c s3].
  simpl in *. split; [unfold abs, a_add; simpl; congruence|]. etransitivity; [exact S1|]. by etransitivity.
Qed.

Lemma share_loop_spec name ty up msg l s :
  match share_loop name ty up msg l s with
  | Some (l', s') => a_share name ty up msg (abs <$> l) = Some (abs <$> l') /\ mutters s s'
  | None => a_share name ty up msg (abs <$> l) = None
  end.
Proof.
  induction l as [|t l IH]; [done|]. rewrite fmap_cons. cbn [share_loop a_share].
  change (at_name (abs t)) with (t_name t). rewrite streq_spec. case_bool_decide as E.
  - rewrite decide_True by done. pose proof (share_timer_spec ty up msg t s) as H. cbn zeta in H.
    destruct (share_timer ty up msg t s) as [t' s']. destruct H as [H ?]. cbn [fst snd] in *. by rewrite fmap_cons, H.
  - rewrite decide_False by done. destruct (share_loop name ty up msg l s) as [[l' s']|]; cbn [mbind option_bind].
    + destruct IH as [-> ?]. by rewrite fmap_cons.
    + by rewrite IH.
Qed.

Lemma start_timer_spec name ofs ty up msg sh s :
  let s' := start_timer name ofs ty up msg sh s in
  queue s' = a_add_timer (s_now s) name (strtol ofs 10).1.1 ty up msg sh (queue s) /\ execs (s_out s') = execs (s_out s).
Proof.
  unfold start_timer, a_add_timer, queue. case_match; [done|]. pose proof (share_loop_spec name ty up msg (thead s) s) as H1.
  assert (forall s1, mutters s s1 -> let s2 := with_fresh (with_thead s1 (thead s1 ++ [mkTimer (s_fresh s1) name
            (wrapS 64 (s_now s1 + (strtol ofs 10).1.1)) (new_array up) (new_array ty) (new_array msg)])) (S (s_fresh s1)) in
          abs <$> thead s2 = (abs <$> thead s) ++ [mkATimer name (wrapS 64 (s_now s + (strtol ofs 10).1.1))
            (add_unique up []) (add_unique ty []) (add_unique msg [])] /\ execs (s_out s2) = execs (s_out s)) as Hadd.
  { intros s1 [[o E] Ho]. simpl. rewrite fmap_app. unfold abs at 2. simpl. rewrite !items_new. by subst s1. }
  assert (mutters s (if s_now s + (strtol ofs 10).1.1 <=? LONG_MAX then s else emit (OFault SignedOverflow) s)) as Hm
    by (destruct (_ <=? _); [done|by apply mutters_emit]).
  destruct sh; [|by apply Hadd]. destruct (share_loop _ _ _ _ _ _) as [[l s1]|]; [|rewrite H1; by apply Hadd].
  destruct H1 as [-> [_ H1]]. done.
Qed.

(** ** Cancelling *)

Lemma match_string_spec x a s :
  (match_string x a s).1 = a_admits x (items a) /\ mutters s (match_string x a s).2.
Proof.
  unfold match_string, a_admits. destruct x as [x|]; [|done]. destruct a as [a|].
  - simpl. rewrite find_string_lt. split; [done|apply mutters_touch].
  - done.
Qed.

Lemma cancel_matches_spec ty up m t s :
  (cancel_matches ty up m t s).1
  = (negb m || (trivial ty && trivial up) || (a_admits ty (at_types (abs t)) && a_admits up (at_ups (abs t))))
  /\ mutters s (cancel_matches ty up m t s).2.
Proof.
  unfold cancel_matches. destruct (negb m || _) eqn:E; [done|]. cbn [orb].
  destruct (match_string_spec ty (t_notifytypes t) s) as [M1 S1].
  destruct (match_string ty _ s) as [[] s1]; simpl in *; rewrite <- M1; [|done].
  destruct (match_string_spec up (t_upsnames t) s1) as [M2 S2]. split; [done|]. by etransitivity.
Qed.

Definition cancelled (name : bytes) (ty up : option bytes) (m : bool) (t : ttype_s) : Prop :=
  a_cancels name ty up m (abs t) = true.
#[export] Instance cancelled_dec name ty up m t : Decision (cancelled name ty up m t).
Proof. unfold cancelled. apply _. Defined.

Definition uaf_count (l : list out) : nat :=
  length (List.filter (fun o => match o with OFault UseAfterFree => true | _ => false end) l).

Lemma uaf_app l1 l2 : uaf_count (l1 ++ l2) = (uaf_count l1 + uaf_count l2)%nat.
Proof. unfold uaf_count. by rewrite List.filter_app, length_app. Qed.

Lemma touch_uaf a n s : uaf_count (s_out (touch a n s)) = uaf_count (s_out s).
Proof. unfold touch. case_match; [done|]. simpl. rewrite uaf_app. apply Nat.add_0_r. Qed.

Lemma free_uaf a s : uaf_count (s_out (free_array a s)) = uaf_count (s_out s).
Proof. destruct a; [apply touch_uaf|done]. Qed.

Lemma match_uaf x a s : uaf_count (s_out (match_string x a s).2) = uaf_count (s_out s).
Proof. unfold match_string. destruct x, a; simpl; try done. apply touch_uaf. Qed.

Lemma cancel_matches_uaf ty up m t s : uaf_count (s_out (cancel_matches ty up m t s).2) = uaf_count (s_out s).
Proof.
  unfold cancel_matches. case_match; [done|]. pose proof (match_uaf ty (t_notifytypes t) s) as H1.
  destruct (match_string ty _ s) as [[] s1]; simpl in *; [|done]. by rewrite match_uaf.
Qed.

(** What [removetimer] does to the timer it is given. *)
Lemma removetimer_spec l1 l2 t s :
  NoDup (timer_ids s) -> thead s = l1 ++ t :: l2 ->
  mutters (with_thead s (l1 ++ l2)) (removetimer (t_id t) s)
  /\ uaf_count (s_out (removetimer (t_id t) s)) = uaf_count (s_out s).
Proof.
  intros Hn E. unfold timer_ids in Hn. unfold removetimer. rewrite E in *.
  destruct (find_timer l1 l2 t Hn) as [-> ->]. split.
  - etransitivity; [|apply mutters_free]. etransitivity; apply mutters_free.
  - by rewrite !free_uaf.
Qed.

(** A timer of the queue can be read, one that was removed can not. *)
Lemma read_next_live l1 l2 t s : thead s = l1 ++ t :: l2 -> read_next t s = s.
Proof.
  intros E. unfold read_next. rewrite E, existsb_app. cbn [existsb]. by rewrite Nat.eqb_refl, orb_true_r.
Qed.

Lemma read_next_freed l1 l2 t s s' :
  NoDup (timer_ids s) -> thead s = l1 ++ t :: l2 -> thead s' = l1 ++ l2 -> read_next t s' = emit (OFault UseAfterFree) s'.
Proof.
  intros Hn E E'. unfold read_next. rewrite E'. destruct (existsb _ _) eqn:Ex; [|done]. exfalso.
  apply existsb_exists in Ex as (x & Hx%list_elem_of_In & Hid%Nat.eqb_eq).
  unfold timer_ids in Hn. rewrite E, map_app, map_cons in Hn. apply NoDup_app in Hn as (_ & Hd & [Hn _]%NoDup_cons).
  apply elem_of_app in Hx as [Hx|Hx].
  - apply (Hd (t_id t)); [|left]. rewrite <- Hid. by apply list_elem_of_fmap_2.
  - apply Hn. rewrite <- Hid. by apply list_elem_of_fmap_2.
Qed.

Lemma cancel_loop_spec name ty up m l kept k s :
  NoDup (timer_ids s) -> thead s = kept ++ l ->
  let n := length (filter (cancelled name ty up m) l) in
  let r := cancel_loop name ty up m l k s in
  r.1 = (k + n)%nat
  /\ thead r.2 = kept ++ filter (fun t => ~ cancelled name ty up m t) l
  /\ mutters (with_thead s (thead r.2)) r.2
  /\ uaf_count (s_out r.2) = (uaf_count (s_out s) + n)%nat.
Proof.
  revert kept k s. induction l as [|t l IH]; intros kept k s Hn Ht; cbn [cancel_loop].
  { simpl. rewrite app_nil_r, !Nat.add_0_r in *. rewrite Ht. split_and!; try done. by destruct s; simpl in *; subst. }
  destruct (if streq (t_name t) name then _ else _) as [b s1] eqn:E.
  assert (b = a_cancels name ty up m (abs t) /\ mutters s s1 /\ uaf_count (s_out s1) = uaf_count (s_out s))
    as (Hb & Hm & Hu).
  { unfold a_cancels. rewrite streq_spec in E. simpl at_name. case_bool_decide; [|by simplify_eq].
    pose proof (cancel_matches_spec ty up m t s) as [M1 M2]. pose proof (cancel_matches_uaf ty up m t s) as M3.
    rewrite E in *. simpl in *. by rewrite <- M1. }
  rewrite !filter_cons. destruct Hm as [[o Eo] Hx].
  assert (thead s1 = kept ++ t :: l /\ NoDup (timer_ids s1)) as [Ht1 Hn1] by (subst s1; done).
  destruct b.
  - rewrite decide_True by done. rewrite decide_False by (intros H; by apply H).
    destruct (removetimer_spec kept l t s1 Hn1 Ht1) as [[[o2 Er] Hr] Hru].
    rewrite (read_next_freed kept l t s1) by (done || by rewrite Er).
    destruct (IH kept (S k) (emit (OFault UseAfterFree) (removetimer (t_id t) s1))) as (R1 & R2 & [[o3 R3] R4] & R5).
    { rewrite Er. unfold timer_ids. simpl. unfold timer_ids in Hn1. rewrite Ht1 in Hn1. by eapply timer_ids_app. }
    { by rewrite Er. }
    cbn zeta in *. split_and!.
    + rewrite R1. simpl. lia.
    + exact R2.
    + split; [|simpl in *; rewrite R4; simpl; rewrite execs_app, app_nil_r, Hr; exact Hx].
      exists (o ++ o2 ++ [OFault UseAfterFree] ++ o3). rewrite R3 at 1. rewrite Er, Eo. simpl. by rewrite <- !app_assoc.
    + rewrite R5. simpl. rewrite uaf_app, Hru, Hu. change (uaf_count [OFault UseAfterFree]) with 1%nat. lia.
  - rewrite decide_False by (unfold cancelled; by rewrite <- Hb).
    rewrite decide_True by (unfold cancelled; by rewrite <- Hb).
    rewrite (read_next_live kept l) by done.
    destruct (IH (kept ++ [t]) k s1) as (R1 & R2 & [[o3 R3] R4] & R5); [done|by rewrite <- app_assoc|].
    cbn zeta in *. split_and!; [done|by rewrite R2, <- app_assoc| |by rewrite R5, Hu].
    split; [|by rewrite R4]. exists (o ++ o3). rewrite R3 at 1. rewrite Eo. simpl. by rewrite app_assoc.
Qed.

Lemma kept_queue name ty up m (l : list ttype_s) :
  abs <$> filter (fun t => ~ cancelled name ty up m t) l = filter (a_keeps name ty up m) (abs <$> l).
Proof.
  induction l as [|t l IH]; [done|]. rewrite fmap_cons, !filter_cons.
  destruct (decide (cancelled name ty up m t)) as [E|E]; unfold cancelled in E.
  - rewrite decide_False by auto. rewrite decide_False; [done|]. unfold a_keeps. by rewrite E.
  - apply not_true_is_false in E. rewrite decide_True by (unfold cancelled; by rewrite E).
    rewrite decide_True by done. by rewrite fmap_cons, IH.
Qed.

Lemma cancelled_count name ty up m (l : list ttype_s) :
  (length (filter (cancelled name ty up m) l) + length (filter (fun t => ~ cancelled name ty up m t) l))%nat = length l.
Proof.
  induction l as [|t l IH]; [done|]. rewrite !filter_cons. destruct (decide (cancelled name ty up m t)) as [D|D].
  - rewrite decide_False by auto. simpl. lia.
  - rewrite decide_True by done. simpl. lia.
Qed.

Lemma says_out o s s' : says s s' -> s_out s' = s_out s ++ o -> s' = with_out s (s_out s ++ o).
Proof. intros [o' ->] E. simpl in E. by rewrite E. Qed.

Lemma cancel_timer_spec name cname ty up m s :
  NoDup (timer_ids s) ->
  let s' := cancel_timer name cname ty up m s in
  let r := a_cancel name cname ty up m (queue s) in
  queue s' = r.1 /\ execs (s_out s') = execs (s_out s) ++ run s r.2
  /\ uaf_count (s_out s') = (uaf_count (s_out s) + length (filter (cancelled name ty up m) (thead s)))%nat.
Proof.
  intros Hn. unfold cancel_timer, a_cancel.
  destruct (cancel_loop_spec name ty up m (thead s) [] 0 s Hn eq_refl) as (R1 & R2 & [[o Eo] Hx] & R4).
  destruct (cancel_loop _ _ _ _ _ _ _) as [k s1]. cbn [fst snd app] in *. unfold queue.
  rewrite <- kept_queue, !length_fmap. pose proof (cancelled_count name ty up m (thead s)) as C. rewrite R1.
  simpl in Hx. destruct (Nat.ltb_spec 0 (0 + length (filter (cancelled name ty up m) (thead s)))) as [L|L].
  - destruct (Nat.ltb_spec (length (filter (λ t, ~ cancelled name ty up m t) (thead s))) (length (thead s)))
      as [L'|L']; [|lia]. rewrite R2, Hx, app_nil_r. by split_and!.
  - destruct (Nat.ltb_spec (length (filter (λ t, ~ cancelled name ty up m t) (thead s))) (length (thead s)))
      as [L'|L']; [lia|]. rewrite <- R2, <- R4. simpl.
    destruct cname as [[|c x]|]; [by rewrite app_nil_r| |by rewrite app_nil_r].
    unfold exec_cmd. assert (cmdscript_argv s1 = cmdscript_argv s /\ s_env s1 = s_env s) as [-> ->] by (by rewrite Eo).
    unfold run. destruct (cmdscript_argv s) as [|a argv]; [by rewrite app_nil_r|]. simpl.
    rewrite execs_app, uaf_app, Hx. simpl. by split_and!.
Qed.

(** ** The commands of the socket *)

(** Answers leave the queue alone and run nothing. *)
Definition only_sends (s s' : sched) : Prop :=
  thead s' = thead s /\ execs (s_out s') = execs (s_out s) /\ (uaf_count (s_out s) <= uaf_count (s_out s'))%nat.

#[export] Instance only_sends_preorder : PreOrder only_sends.
Proof.
  split.
  - intros s. by split_and!.
  - intros s1 s2 s3 (? & ? & ?) (? & ? & ?). split_and!; [congruence|congruence|lia].
Qed.

Lemma only_sends_emit o s : is_exec o = false -> only_sends s (emit o s).
Proof.
  intros H. split_and!; [done| |].
  - simpl. rewrite execs_app. simpl. by rewrite H, app_nil_r.
  - simpl. rewrite uaf_app. lia.
Qed.

Lemma send_only_sends c text s : only_sends s (send_to_one c text s).2.
Proof.
  unfold send_to_one.
  assert (only_sends s (if find_conn (cn_id c) s then s else emit (OFault UseAfterFree) s)) as S1
    by (case_match; [done|by apply only_sends_emit]).
  revert S1. generalize (if find_conn (cn_id c) s then s else emit (OFault UseAfterFree) s). intros s1 S1.
  destruct (next_write _ s1) as [ret s2] eqn:E.
  assert (only_sends s1 s2) as S2 by (unfold next_write in E; case_match; by simplify_eq).
  etransitivity; [exact S1|]. etransitivity; [exact S2|].
  case_match; [|by apply only_sends_emit]. cbn [snd].
  transitivity (emit (OClose (cn_fd c)) (emit (OSend (cn_fd c) (take (Z.to_nat ret) (snprintf_s US_SOCK_BUF_LEN text))) s2)).
  - etransitivity; by apply only_sends_emit.
  - by split_and!.
Qed.

Lemma collect_only_sends a sep s : only_sends s (collect_string a sep s).2.
Proof.
  unfold collect_string. repeat case_match; cbn [snd]; try done; (unfold touch; case_match; [done|by apply only_sends_emit]).
Qed.

Lemma list_field_only_sends c a sep term s : only_sends s (list_field c a sep term s).
Proof.
  unfold list_field. pose proof (collect_only_sends a sep s) as S. destruct (collect_string a sep s) as [text s1].
  etransitivity; [exact S|]. destruct text as [[|x text]|]; apply send_only_sends.
Qed.

Lemma list_timers_only_sends c l s : only_sends s (list_timers_loop c l s).
Proof.
  revert s. induction l as [|t l IH]; intros s; cbn [list_timers_loop]; [done|].
  etransitivity; [|apply IH]. repeat (etransitivity; [|apply list_field_only_sends]). apply send_only_sends.
Qed.

Lemma arg_at_word c k s :
  pconf_wf (cn_ctx c) -> (k < length (args (cn_ctx c)))%nat -> arg_at c k s = (nth k (args (cn_ctx c)) [], s).
Proof.
  intros W H. rewrite (args_length _ W) in H. unfold arg_at, args.
  destruct (nth_error (p_arglist (cn_ctx c)) k) as [x|] eqn:E.
  - f_equal. symmetry. apply nth_error_nth. rewrite nth_error_firstn.
    replace (k <? p_numargs (cn_ctx c))%nat with true by (symmetry; by apply Nat.ltb_lt). done.
  - exfalso. apply nth_error_None in E. pose proof (args_length _ W) as L. unfold args in L.
    rewrite length_take in L. lia.
Qed.

Lemma only_sends_run s s' x : only_sends s s' -> queue s' = queue s /\ execs (s_out s') = execs (s_out s) ++ run x None.
Proof. intros (E & -> & _). unfold queue, run. by rewrite E, app_nil_r. Qed.

Definition reply_ok (c : conn_s) (s : sched) : sched := (send_to_one c ($"OK" ++ [LF]) s).2.

Lemma cancel_replied c name cn ty up m s :
  NoDup (timer_ids s) ->
  let s1 := reply_ok c (cancel_timer name cn ty up m s) in
  let r := a_cancel name cn ty up m (queue s) in
  queue s1 = r.1 /\ execs (s_out s1) = execs (s_out s) ++ run s r.2.
Proof.
  intros Hn. destruct (cancel_timer_spec name cn ty up m s Hn) as (Q & X & _). cbn zeta in *.
  destruct (send_only_sends c ($"OK" ++ [LF]) (cancel_timer name cn ty up m s)) as (T & Y & _).
  unfold reply_ok, queue in *. by rewrite T, Y.
Qed.

Lemma start_replied c name ofs ty up msg sh s :
  let s1 := reply_ok c (start_timer name ofs ty up msg sh s) in
  queue s1 = a_add_timer (s_now s) name (strtol ofs 10).1.1 ty up msg sh (queue s)
  /\ execs (s_out s1) = execs (s_out s) ++ run s None.
Proof.
  destruct (start_timer_spec name ofs ty up msg sh s) as [Q X]. cbn zeta in *.
  destruct (send_only_sends c ($"OK" ++ [LF]) (start_timer name ofs ty up msg sh s)) as (T & Y & _).
  unfold reply_ok, queue in *. rewrite T, Y, Q, X. unfold run. by rewrite app_nil_r.
Qed.

Lemma bool_decide_orb (P Q : Prop) `{Decision P, Decision Q} :
  bool_decide P || bool_decide Q = bool_decide (P \/ Q).
Proof. repeat case_bool_decide; naive_solver. Qed.

Lemma sock_arg_spec c s :
  sched_inv s -> pconf_wf (cn_ctx c) ->
  (nth 0 (args (cn_ctx c)) [] = $"CANCEL" \/ nth 0 (args (cn_ctx c)) [] = $"CANCEL-MATCHED" ->
   2 <= length (args (cn_ctx c)))%nat ->
  let '(known, q, cmd) := a_command (s_now s) (args (cn_ctx c)) (queue s) in
  let '(r, s') := sock_arg c s in
  r = Zbool known /\ queue s' = q /\ execs (s_out s') = execs (s_out s) ++ run s cmd.
Proof.
  intros H W Hc. pose proof (args_length _ W) as HL. unfold sock_arg, a_command.
  set (w := args (cn_ctx c)) in *. rewrite <- HL. clear HL.
  destruct (Nat.ltb_spec (length w) 1) as [L|L].
  { replace (length w) with 0%nat by lia. simpl. by rewrite app_nil_r. }
  destruct (Nat.eqb_spec (length w) 0); [lia|].
  rewrite arg_at_word by done. fold w. rewrite !streq_spec.
  destruct (bool_decide_reflect (nth 0 w [] = $"LIST-TIMERS")) as [E1|E1];
    [rewrite decide_True by done|rewrite decide_False by done].
  { split; [done|]. apply only_sends_run. do 2 (etransitivity; [|apply send_only_sends]).
    etransitivity; [apply send_only_sends|]. apply list_timers_only_sends. }
  rewrite bool_decide_orb.
  destruct (bool_decide_reflect (nth 0 w [] = $"CANCEL" \/ nth 0 w [] = $"CANCEL-MATCHED")) as [E2|E2];
    [rewrite decide_True by done|rewrite decide_False by done].
  { specialize (Hc E2). rewrite arg_at_word by first [exact W | fold w; lia]. fold w.
    pose proof (fun cn ty up m => cancel_replied c (nth 1 w []) cn ty up m s (wf_timers _ (inv_wf _ H))) as HC.
    unfold reply_ok in HC. cbn zeta in HC. destruct (Nat.ltb_spec (length w) 3).
    { destruct (Nat.ltb_spec (length w) 6); [|lia]. rewrite (surjective_pairing (a_cancel _ _ _ _ _ _)).
      split; [done|apply HC]. }
    rewrite arg_at_word by first [exact W | fold w; lia]. fold w. rewrite (surjective_pairing (a_cancel _ _ _ _ _ _)).
    destruct (Nat.ltb_spec (length w) 6); [split; [done|apply HC]|].
    rewrite !arg_at_word by first [exact W | fold w; lia]. fold w. split; [done|apply HC]. }
  destruct (Nat.ltb_spec (length w) 6); [unfold run; by rewrite app_nil_r|].
  rewrite !arg_at_word by first [exact W | fold w; lia]. fold w.
  case_bool_decide; [rewrite decide_True by done; split; [done|apply start_replied]|rewrite decide_False by done].
  case_bool_decide; [rewrite decide_True by done; split; [done|apply start_replied]|rewrite decide_False by done].
  unfold run. by rewrite app_nil_r.
Qed.

(** A line that [sock_arg_spec] covers: not a bare CANCEL. *)
Definition cmd_args_ok (c : conn_s) : Prop :=
  pconf_wf (cn_ctx c)
  /\ (nth 0 (args (cn_ctx c)) [] = $"CANCEL" \/ nth 0 (args (cn_ctx c)) [] = $"CANCEL-MATCHED" ->
      2 <= length (args (cn_ctx c)))%nat.

