(* ===== verification/UpsschedEnd.v ===== *)
(** * upssched from a notice to CMDSCRIPT

    The line that the client process sends arrives in the daemon's queue whatever pieces it travels in; a
    timer's command is run once, in time, with the notices that started it; the daemon ends when nothing is
    left to do.  And where the queue leaves defined behaviour. *)

From S2P Require Import Prelude CStr Fmt ParseConf ParseConfFacts Tracking StateTree World SState Upsd Server ProtoLines.
From S2P Require Import Upssched UpsschedFacts UpsschedQueue UpsschedCli.
From stdpp Require Import options.

(** ** Reading a line piece by piece *)

Lemma find_conn_id id s c : find_conn id s = Some c -> cn_id c = id.
Proof. intros H. apply find_some in H as [_ H]. by apply Nat.eqb_eq. Qed.

Lemma find_set_ctx id ctx s c :
  find_conn id s = Some c -> find_conn id (set_ctx id ctx s) = Some (mkConn id (cn_fd c) ctx).
Proof.
  unfold find_conn, set_ctx. simpl. induction (connhead s) as [|d l IH]; simpl; [done|].
  destruct (cn_id d =? id)%nat eqn:E; simpl.
  - rewrite Nat.eqb_refl. by intros [= ->].
  - by rewrite E.
Qed.

Lemma set_ctx_twice id c1 c2 s : set_ctx id c2 (set_ctx id c1 s) = set_ctx id c2 s.
Proof.
  unfold set_ctx. destruct s; simpl. f_equal. rewrite map_map. apply map_ext. intros d.
  destruct (cn_id d =? id)%nat eqn:E; simpl; [by rewrite Nat.eqb_refl|by rewrite E].
Qed.

Lemma set_ctx_same id s c : find_conn id s = Some c -> NoDup (conn_ids s) -> set_ctx id (cn_ctx c) s = s.
Proof.
  unfold find_conn, set_ctx, conn_ids. intros H Hn. transitivity (with_connhead s (connhead s)); [|by destruct s].
  f_equal. revert H Hn. induction (connhead s) as [|d l IH]; simpl; [done|]. intros H Hn.
  apply NoDup_cons in Hn as [Hd Hn]. destruct (cn_id d =? id)%nat eqn:E; [|f_equal; by apply IH].
  injection H as ->. apply Nat.eqb_eq in E. subst id. replace (mkConn _ _ _) with c by (by destruct c). f_equal.
  transitivity (map (fun x => x) l); [|apply map_id]. apply map_ext_in. intros x Hx. case_match eqn:Ex; [|done].
  apply Nat.eqb_eq in Ex. exfalso. apply Hd. rewrite <- Ex. apply list_elem_of_fmap_2. by apply list_elem_of_In.
Qed.

(** Characters that complete nothing. *)
Lemma sock_read_partial n id data s c :
  find_conn id s = Some c -> Forall (eq 0) (feed_chars (cn_ctx c) data).1 -> (length data <= n)%nat ->
  NoDup (conn_ids s) ->
  sock_read_loop n id data RE_again s = (0, [], set_ctx id (feed_chars (cn_ctx c) data).2 s).
Proof.
  revert n s c. induction data as [|x data IH]; intros n s c Hc Hf Hn Hd.
  - simpl. rewrite (set_ctx_same _ _ _ Hc Hd). destruct n; simpl; [done|]. by rewrite Hc.
  - destruct n as [|n]; [simpl in Hn; lia|]. cbn [sock_read_loop feed_chars] in *. rewrite Hc.
    destruct (pconf_char (cn_ctx c) x) as [r c1]. destruct (feed_chars c1 data) as [rs c2] eqn:Ef.
    cbn [fst snd] in *. apply Forall_cons in Hf as [<- Hf]. cbn [Z.eqb].
    rewrite (IH n (set_ctx id c1 s) (mkConn id (cn_fd c) c1)).
    + simpl cn_ctx. by rewrite Ef, set_ctx_twice.
    + by apply find_set_ctx.
    + simpl. by rewrite Ef.
    + simpl in Hn. lia.
    + unfold conn_ids, set_ctx in *. simpl. rewrite <- list_fmap_compose. erewrite list_fmap_ext; [exact Hd|].
      intros i d _. simpl. case_match eqn:E; [|done]. by apply Nat.eqb_eq in E.
Qed.

(** What the daemon does with a complete line. *)
Definition line_served (id : nat) (fd : Z) (ctx : PCONF_CTX) (s : sched) : sched :=
  let '(r, s1) := sock_arg (mkConn id fd ctx) (set_ctx id ctx s) in
  if r =? 0 then (send_to_one (mkConn id fd ctx) ($"ERR UNKNOWN" ++ [LF]) s1).2 else s1.

Lemma sock_read_line n id data x s c :
  find_conn id s = Some c -> Forall (eq 0) (feed_chars (cn_ctx c) data).1 ->
  (pconf_char (feed_chars (cn_ctx c) data).2 x).1 = 1 -> (length data < n)%nat ->
  sock_read_loop n id (data ++ [x]) RE_again s
  = (1, [], line_served id (cn_fd c) (pconf_char (feed_chars (cn_ctx c) data).2 x).2 s).
Proof.
  revert n s c. induction data as [|y data IH]; intros n s c Hc Hf Hx Hn; (destruct n as [|n]; [simpl in Hn; lia|]).
  - cbn [app sock_read_loop feed_chars fst snd] in *. rewrite Hc. unfold line_served.
    destruct (pconf_char (cn_ctx c) x) as [r c1]. cbn [fst snd] in *. subst r. cbn [Z.eqb].
    by destruct (sock_arg _ _).
  - cbn [app sock_read_loop feed_chars] in *. rewrite Hc.
    destruct (pconf_char (cn_ctx c) y) as [r c1]. destruct (feed_chars c1 data) as [rs c2] eqn:Ef.
    cbn [fst snd] in *. apply Forall_cons in Hf as [<- Hf]. cbn [Z.eqb].
    rewrite (IH n (set_ctx id c1 s) (mkConn id (cn_fd c) c1)); simpl cn_ctx; simpl cn_fd; rewrite ?Ef; try done.
    + unfold line_served. cbn [fst snd]. by rewrite set_ctx_twice.
    + by apply find_set_ctx.
    + simpl in Hn. lia.
Qed.

(** The reads of one connection. *)
Fixpoint sock_reads (id : nat) (chunks : list bytes) (s : sched) : sched :=
  match chunks with
  | [] => s
  | ch :: chunks => sock_reads id chunks (sock_read id (mkInput ch RE_again) s).2
  end.

Lemma sock_reads_line id chunks pre x s c :
  find_conn id s = Some c -> NoDup (conn_ids s) ->
  Forall (fun ch => ch <> [] /\ (length ch <= US_MAX_READ)%nat) chunks -> concat chunks = pre ++ [x] ->
  Forall (eq 0) (feed_chars (cn_ctx c) pre).1 -> (pconf_char (feed_chars (cn_ctx c) pre).2 x).1 = 1 ->
  sock_reads id chunks s = line_served id (cn_fd c) (pconf_char (feed_chars (cn_ctx c) pre).2 x).2 s.
Proof.
  intros Hc Hd Hch. revert pre s c Hc Hd. induction Hch as [|ch chunks [Hne Hl] Hch IH]; intros pre s c Hc Hd Hcat Hf Hx.
  { by destruct pre. }
  cbn [concat sock_reads] in *. unfold sock_read. cbn [in_bytes in_end].
  destruct chunks as [|ch2 chunks].
  - simpl in Hcat. rewrite app_nil_r in Hcat. subst ch. rewrite length_app in Hl. simpl in Hl.
    rewrite (sock_read_line _ _ _ _ _ c) by (done || lia). done.
  - destruct (exists_last (l := concat (ch2 :: chunks))) as (pre2 & y & E).
    { inversion Hch as [|? ? [H ?]]. by destruct ch2. }
    rewrite E in Hcat. rewrite app_assoc in Hcat. apply app_inj_tail in Hcat as [<- ->].
    rewrite feed_chars_app in Hf, Hx |- *. cbn zeta in *. cbn [fst snd] in *. apply Forall_app in Hf as [Hf1 Hf2].
    rewrite (sock_read_partial _ _ _ _ c) by done. cbn [snd].
    rewrite (IH pre2 _ (mkConn id (cn_fd c) (feed_chars (cn_ctx c) ch).2)); try done.
    + unfold line_served. cbn [cn_fd cn_ctx]. by rewrite set_ctx_twice.
    + by apply find_set_ctx.
    + unfold conn_ids, set_ctx in *. simpl. rewrite <- list_fmap_compose. erewrite list_fmap_ext; [exact Hd|].
      intros i d _. simpl. case_match eqn:E2; [|done]. by apply Nat.eqb_eq in E2.
Qed.

(** ** The client's line *)

Definition cmd_tokens (cmd : bytes) (words : list bytes) : list token := Bare cmd :: map Quoted words.

Definition opt_word (x : option bytes) : bytes := default [] x.

Definition cmd_words (arg1 arg2 ntype uname msg : option bytes) : list bytes := map opt_word [arg1; arg2; ntype; uname; msg].

(** Words that the line, of at most 1022 characters, and the parser have room for. *)
Definition cmd_fits (cmd : bytes) (words : list bytes) : Prop :=
  line_ok (cmd_tokens cmd words) /\ (length (render (cmd_tokens cmd words)) < LARGEBUF - 1)%nat.
#[export] Instance cmd_fits_dec cmd words : Decision (cmd_fits cmd words).
Proof. unfold cmd_fits. apply _. Defined.

Lemma render_quoted t w ws : render (t :: map Quoted (w :: ws)) = render_token t ++ [chr 32] ++ render (map Quoted (w :: ws)).
Proof. done. Qed.

Lemma send_word_eq x :
  Forall printable (opt_word x) -> (length (escape (opt_word x)) < LARGEBUF)%nat ->
  send_word x = [chr 32] ++ render_token (Quoted (opt_word x)).
Proof.
  intros Hp Hl. unfold send_word. destruct x as [x|]; [|done]. simpl opt_word in *.
  rewrite pconf_encode_fits; [done|by apply printable_no_nul| | |]; unfold ENCBUF, LARGEBUF in *; lia.
Qed.

Lemma cat_five n a b c d e :
  (S (length (a ++ b ++ c ++ d ++ e)) < n)%nat ->
  snprintfcat (snprintfcat (snprintfcat (snprintfcat (snprintf_s n a) n b) n c) n d) n e = a ++ b ++ c ++ d ++ e.
Proof.
  rewrite !length_app. intros H. rewrite (snprintf_s_id n a) by lia.
  rewrite (snprintfcat_id a) by (rewrite !length_app; lia). rewrite (snprintfcat_id (a ++ b)) by (rewrite !length_app; lia).
  rewrite (snprintfcat_id ((a ++ b) ++ c)) by (rewrite !length_app; lia).
  rewrite snprintfcat_id by (rewrite !length_app; lia). by rewrite <- !app_assoc.
Qed.

Lemma sendcmd_line_eq cmd a1 a2 nt up msg :
  cmd_fits cmd (cmd_words a1 a2 nt up msg) ->
  sendcmd_line cmd a1 a2 nt up msg = render (cmd_tokens cmd (cmd_words a1 a2 nt up msg)) ++ [LF].
Proof.
  intros [(_ & Hok & _) Hl].
  assert (render (cmd_tokens cmd (cmd_words a1 a2 nt up msg))
    = cmd ++ [chr 32] ++ render_token (Quoted (opt_word a1)) ++ [chr 32] ++ render_token (Quoted (opt_word a2))
      ++ [chr 32] ++ render_token (Quoted (opt_word nt)) ++ [chr 32] ++ render_token (Quoted (opt_word up))
      ++ [chr 32] ++ render_token (Quoted (opt_word msg))) as E by done.
  rewrite E in Hl |- *. unfold cmd_tokens, cmd_words in Hok. rewrite Forall_cons in Hok. destruct Hok as [_ Hok].
  rewrite Forall_map in Hok. simpl map in Hok. rewrite !Forall_cons in Hok.
  destruct Hok as ([_ P1] & [_ P2] & [_ P3] & [_ P4] & [_ P5] & _).
  unfold sendcmd_line. rewrite !send_word_eq; try done;
    try (clear E; unfold render_token in Hl; rewrite !length_app in Hl; lia).
  rewrite cat_five by (unfold LARGEBUF in *; rewrite !length_app in *; lia). rewrite <- !app_assoc.
  rewrite snprintf_s_id by (unfold ENCBUF; rewrite !length_app in *; change (length [LF]) with 1%nat; lia).
  done.
Qed.

Lemma line_served_spec id fd ctx s :
  sched_inv s -> pconf_wf ctx ->
  (nth 0 (args ctx) [] = $"CANCEL" \/ nth 0 (args ctx) [] = $"CANCEL-MATCHED" -> 2 <= length (args ctx))%nat ->
  let r := a_command (s_now s) (args ctx) (queue s) in
  queue (line_served id fd ctx s) = r.1.2 /\ execs (s_out (line_served id fd ctx s)) = execs (s_out s) ++ run s r.2.
Proof.
  intros H W Hc. pose proof (sv_inv _ _ (set_ctx_serves id ctx s) H) as H1.
  pose proof (sock_arg_spec (mkConn id fd ctx) (set_ctx id ctx s) H1 W Hc) as R. cbn [cn_ctx] in R.
  unfold line_served. destruct (sock_arg _ _) as [r s1]. cbn zeta.
  change (s_now (set_ctx id ctx s)) with (s_now s) in R. change (queue (set_ctx id ctx s)) with (queue s) in R.
  destruct (a_command _ _ _) as [[known q] cmd]. destruct R as (-> & Q & X). cbn [fst snd].
  destruct (send_only_sends (mkConn id fd ctx) ($"ERR UNKNOWN" ++ [LF]) s1) as (T & Y & _).
  unfold queue in *. destruct known; [done|]. change (Zbool false =? 0) with true. cbv iota. by rewrite T, Y.
Qed.

Lemma command_arrives cmd a1 a2 nt up msg id s c chunks :
  cmd_fits cmd (cmd_words a1 a2 nt up msg) ->
  sched_inv s -> find_conn id s = Some c -> ready (cn_ctx c) ->
  concat chunks = sendcmd_line cmd a1 a2 nt up msg ->
  Forall (fun ch => ch <> [] /\ (length ch <= US_MAX_READ)%nat) chunks ->
  let r := a_command (s_now s) (cmd :: cmd_words a1 a2 nt up msg) (queue s) in
  let s' := sock_reads id chunks s in
  queue s' = r.1.2 /\ execs (s_out s') = execs (s_out s) ++ run s r.2 /\ sched_inv s'
  /\ exists ctx, pconf_wf ctx /\ args ctx = cmd :: cmd_words a1 a2 nt up msg /\ serves s s'
     /\ s' = line_served id (cn_fd c) ctx s.
Proof.
  intros Hfit H Hc Hr Hcat Hch. rewrite sendcmd_line_eq in Hcat by done. destruct Hfit as [Hlo _].
  destruct (feed_line _ _ Hr Hlo) as (F1 & F2 & F3). rewrite feed_chars_app in F1, F2, F3. cbn zeta in *. cbn [fst snd] in *.
  cbn [feed_chars] in F1, F2, F3. destruct (pconf_char (feed_chars (cn_ctx c) (render _)).2 LF) as [r ctx] eqn:Ep.
  cbn [fst snd] in *. apply app_inj_tail in F1 as [F1 ->].
  rewrite (sock_reads_line id chunks (render (cmd_tokens cmd (cmd_words a1 a2 nt up msg))) LF s c); try done.
  2: { apply H. } 2: { rewrite F1. by apply Forall_replicate. } 2: { by rewrite Ep. }
  rewrite Ep. cbn [snd].
  assert (args ctx = cmd :: cmd_words a1 a2 nt up msg) as Ea by done. destruct F3 as [W F3].
  pose proof (line_served_spec id (cn_fd c) ctx s H W) as L. rewrite Ea in L. cbn zeta in L.
  destruct L as [Q X]; [intros _; simpl; lia|]. split; [exact Q|]. split; [exact X|].
  assert (serves s (line_served id (cn_fd c) ctx s)) as S.
  { unfold line_served. etransitivity; [apply (set_ctx_serves id ctx)|].
    pose proof (sock_arg_serves (mkConn id (cn_fd c) ctx) (set_ctx id ctx s)) as S1. destruct (sock_arg _ _) as [r1 s1].
    etransitivity; [exact S1|]. cbn [snd]. case_match; [apply send_serves|done]. }
  split; [by apply (sv_inv _ _ S)|]. by exists ctx.
Qed.

(** ** Rounds in which no client does anything *)

Definition quiet_round (now : Z) : round := mkRound now None [].

Lemma read_conns_nothing l s : read_conns l [] s = s.
Proof. induction l as [|c l IH]; simpl; [done|by rewrite IH]. Qed.

Lemma daemon_round_quiet now s : daemon_round (quiet_round now) s = checktimers (with_now s now).
Proof. unfold daemon_round, quiet_round. cbn [r_now r_accept r_ready]. by rewrite read_conns_nothing. Qed.

Definition timer_sound (t : ttype_s) : Prop := timer_arrays_ok t /\ timer_fits t.

Lemma checktimers_spec s :
  sched_inv s -> thead s <> [] -> Forall timer_sound (thead s) ->
  checktimers s =
    (false, with_thead (with_out (with_emptyctr s 0)
              (s_out s ++ flat_map (timer_cmd s) (filter (due (s_now s)) (thead s))))
            (filter (fun t => ~ due (s_now s) t) (thead s))).
Proof.
  intros [[W1 W2 W3 W4] E] Hne Ht. unfold checktimers. destruct (thead s) as [|t l] eqn:Eh; [done|]. rewrite <- Eh in *.
  f_equal. rewrite (checktimers_loop_spec (thead s) []); done.
Qed.

(** A timer of one notice. *)
Lemma new_timer_sound i name e up ty msg :
  no_nul up -> no_nul ty -> no_nul msg ->
  (length up < SMALLBUF - 1)%nat -> (length ty < SMALLBUF - 1)%nat -> (length msg < SMALLBUF - 1)%nat ->
  timer_sound (mkTimer i name e (new_array up) (new_array ty) (new_array msg)).
Proof.
  intros N1 N2 N3 L1 L2 L3.
  assert (forall x sep, no_nul x -> (length x < SMALLBUF - 1)%nat -> opt_arr_ok (new_array x) /\ text_fits sep (new_array x)) as H.
  { intros [|c x] sep N L; [split; [done|unfold text_fits; simpl; unfold SMALLBUF; lia]|]. split; [|exact L].
    split_and!; [done|by apply Forall_singleton|simpl; unfold PTR; lia]. }
  split; split_and!; cbn [t_upsnames t_notifytypes t_notifymsgs];
    first [by apply (H _ []) | by apply H].
Qed.

Lemma new_array_text sep x : x <> [] -> text_of sep (new_array x) = Some x.
Proof. by destruct x. Qed.

(** A queue of one timer that is not due stays as it is, round after round. *)
Lemma waiting_rounds t times s :
  sched_inv s -> thead s = [t] -> timer_sound t -> Forall (fun now => now < t_etime t) times ->
  let r := daemon_rounds (map quiet_round times) s in
  r.1 = false /\ thead r.2 = [t] /\ s_out r.2 = s_out s /\ sched_inv r.2
  /\ s_env r.2 = s_env s /\ cmdscript_argv r.2 = cmdscript_argv s.
Proof.
  intros H Ht Hs Hlt. revert s H Ht. induction Hlt as [|now times Hlt Hts IH]; intros s H Ht; [done|].
  cbn [map daemon_rounds]. rewrite daemon_round_quiet.
  assert (sched_inv (with_now s now)) as H1 by (destruct H as [[] ?]; by split; [split|]).
  pose proof (checktimers_inv _ H1) as H2.
  rewrite checktimers_spec in H2 |- *; try done; cbn [thead with_now s_now] in *;
    try (rewrite Ht; done || by constructor).
  rewrite Ht in *. rewrite !filter_cons in *. rewrite decide_False in H2 |- * by (unfold due; lia).
  rewrite decide_True in H2 |- * by (unfold due; lia). rewrite filter_nil in *.
  cbn [flat_map] in *. rewrite app_nil_r in *. cbn [snd] in H2. cbv zeta.
  destruct (IH _ H2 eq_refl) as (R1 & R2 & R3 & R4 & R5 & R6). by split_and!.
Qed.

Lemma start_line id fd ctx s name ofs ty up msg :
  pconf_wf ctx -> args ctx = [$"START"; name; ofs; ty; up; msg] -> 0 <= (strtol ofs 10).1.1 ->
  thead (line_served id fd ctx s)
  = thead s ++ [mkTimer (s_fresh s) name (wrapS 64 (s_now s + (strtol ofs 10).1.1))
                  (new_array up) (new_array ty) (new_array msg)].
Proof.
  intros W Ha Hofs. pose proof (args_length _ W) as HL. rewrite Ha in HL. cbn [length] in HL.
  unfold line_served, sock_arg. cbn [cn_ctx]. rewrite <- HL. cbn [Nat.ltb Nat.leb].
  rewrite !arg_at_word by first [exact W | cbn [cn_ctx]; rewrite Ha; simpl; lia]. cbn [cn_ctx]. rewrite Ha. cbn [nth].
  change (streq ($"START") ($"LIST-TIMERS")) with false. change (streq ($"START") ($"CANCEL")) with false.
  change (streq ($"START") ($"CANCEL-MATCHED")) with false. change (streq ($"START") ($"START")) with true.
  cbn [orb]. cbv iota. change (1 =? 0) with false. cbv iota.
  match goal with |- thead (send_to_one ?c ?t ?s).2 = _ => destruct (send_only_sends c t s) as (T & _) end. rewrite T.
  unfold start_timer. replace ((strtol ofs 10).1.1 <? 0) with false by (symmetry; by apply Z.ltb_ge).
  unfold add_timer. by destruct (_ <=? _).
Qed.

(** ** The client's part *)

(** The daemon is there, takes the line and says OK. *)
Definition daemon_answers (k : cli) : Prop :=
  list_timers k = false /\ k_connects k = [] /\ k_writes k = [] /\ exists rest, k_selects k = SelData 3 OK_LINE :: rest.

Lemma sendcmd_loop_ok n cmd arg2 enc k :
  daemon_answers k -> (0 < length enc)%nat ->
  exists k', sendcmd_loop (S n) cmd arg2 enc k = KRet tt k' /\ k_out k' = k_out k ++ [KWrite enc].
Proof.
  intros (Hl & Hc & Hw & rest & Hs) Hpos. destruct k as [argv p l dbg ls u nt m cs locks ws sel out]. simpl in *. subst.
  eexists. cbn [sendcmd_loop]. unfold mbind, K_bind, k_get. cbn [list_timers].
  unfold check_parent. change MAX_TRIES with (S 29). cbn [check_parent_loop]. unfold mbind, K_bind, try_connect.
  cbn [k_connects]. unfold mret, K_ret, sys_write. cbn [k_writes].
  assert ((Z.of_nat (length enc) <? 1) || negb (Z.of_nat (length enc) =? Z.of_nat (length enc)) = false) as ->.
  { rewrite Z.eqb_refl. apply orb_false_iff. split; [apply Z.ltb_ge; lia|done]. }
  unfold k_set_os. cbn [k_selects wait_answer]. unfold mbind, K_bind, sys_select, k_get. cbn [k_selects].
  unfold k_set_os. cbn [list_timers andb]. unfold mret, K_ret. change (default OK_LINE (cstring OK_LINE)) with OK_LINE.
  change (3 <? 2) with false. change (strncmp OK_LINE ($"OK") 2 =? 0) with true. cbv iota.
  split; [reflexivity|]. cbn [k_out]. by rewrite Nat2Z.id, firstn_all.
Qed.

Lemma parse_at_starts nt un name secs ups ty k :
  k_argv k <> [] -> is_Some (k_pipefn k) -> is_Some (k_lockfn k) ->
  ups_name k = Some ups -> notify_type k = Some ty -> (un = ups \/ un = $"*") -> lower ty = lower nt ->
  daemon_answers k ->
  let line := sendcmd_line ($"START") (Some name) (Some secs) (Some ty) (Some ups) (notify_msg k) in
  (0 < length line)%nat ->
  exists k', parse_at nt un ($"START-TIMER") name (Some secs) k = KRet tt k' /\ k_out k' = k_out k ++ [KWrite line].
Proof.
  intros Ha [pipe Hp] [lock Hl] Hu Hn Hun Hty Hd line Hpos.
  destruct (sendcmd_loop_ok 29 ($"START") (Some secs) line k Hd Hpos) as (k' & E & Ho).
  exists k'. split; [|done]. rewrite <- E. clear E Ho. destruct Hd as (Hls & _).
  unfold parse_at, mbind at 1, K_bind at 1, k_get at 1. rewrite Hp, Hl, Hu, Hn.
  rewrite !bool_decide_eq_false_2 by done. rewrite !streq_spec, strcaseeq_spec.
  replace (negb (bool_decide (ups = un)) && negb (bool_decide (un = $"*"))) with false.
  2: { destruct Hun as [->| ->]; [by rewrite bool_decide_eq_true_2|]. rewrite (bool_decide_eq_true_2 ($"*" = $"*")) by done.
       by rewrite andb_false_r. }
  rewrite (bool_decide_eq_true_2 (lower ty = lower nt)) by done.
  rewrite (bool_decide_eq_true_2 ($"START-TIMER" = $"START-TIMER")) by done. cbn [negb].
  unfold sendcmd, mbind at 1, K_bind at 1, k_get at 1. rewrite Hls.
  rewrite bool_decide_eq_false_2 by done. cbn [andb]. by rewrite Hu, Hn.
Qed.

(** ** The properties *)

Lemma cmd_fits_line cmd a1 a2 nt up msg :
  cmd_fits cmd (cmd_words a1 a2 nt up msg) -> (0 < length (sendcmd_line cmd a1 a2 nt up msg))%nat.
Proof. intros H. rewrite sendcmd_line_eq by done. rewrite length_app. simpl. lia. Qed.

(** A word of an environment variable. *)
Definition env_word (x : bytes) : Prop := x <> [] /\ (length x < SMALLBUF - 1)%nat.

Lemma cmd_fits_words cmd a1 a2 nt up msg x :
  cmd_fits cmd (cmd_words a1 a2 nt up msg) -> In x (cmd_words a1 a2 nt up msg) -> no_nul x.
Proof.
  intros [(_ & H & _) _] Hin. unfold cmd_tokens in H. rewrite Forall_cons in H. destruct H as [_ H].
  rewrite Forall_map, Forall_forall in H. apply list_elem_of_In in Hin. specialize (H x Hin) as [_ H].
  by apply printable_no_nul.
Qed.

(** C15. From a notice to CMDSCRIPT: when an AT line for the notice says START-TIMER, the client process writes
    one line; a daemon with an empty queue that reads it, in whatever pieces, runs nothing in all rounds before
    the time of the timer, keeps running, and in the first round at or after that time runs CMDSCRIPT with the
    timer's name once, with UPSNAME, NOTIFYTYPE and NOTIFYMSG telling the notice, and forgets the timer. *)
Theorem notice_to_script nt un name secs ups ty msg k s c id chunks times now :
  k_argv k <> [] -> is_Some (k_pipefn k) -> is_Some (k_lockfn k) -> ups_name k = Some ups ->
  notify_type k = Some ty -> notify_msg k = Some msg -> (un = ups \/ un = $"*") -> lower ty = lower nt ->
  daemon_answers k -> cmd_fits ($"START") [name; secs; ty; ups; msg] ->
  env_word ups -> env_word ty -> env_word msg -> name <> [] ->
  sched_inv s -> thead s = [] -> cmdscript_argv s <> [] -> find_conn id s = Some c -> ready (cn_ctx c) ->
  let ofs := (strtol secs 10).1.1 in
  0 <= ofs -> 0 <= s_now s -> s_now s + ofs <= LONG_MAX ->
  let line := sendcmd_line ($"START") (Some name) (Some secs) (Some ty) (Some ups) (Some msg) in
  concat chunks = line -> Forall (fun ch => ch <> [] /\ (length ch <= US_MAX_READ)%nat) chunks ->
  Forall (fun t => t < s_now s + ofs) times -> s_now s + ofs <= now ->
  (exists k', parse_at nt un ($"START-TIMER") name (Some secs) k = KRet tt k' /\ k_out k' = k_out k ++ [KWrite line])
  /\ let r := daemon_rounds (map quiet_round times) (sock_reads id chunks s) in
     let r' := daemon_round (quiet_round now) r.2 in
     r.1 = false /\ execs (s_out r.2) = execs (s_out s)
     /\ r'.1 = false /\ thead r'.2 = []
     /\ execs (s_out r'.2) = execs (s_out s) ++ [OExec (cmdscript_argv s ++ [name])
          (<[$"NOTIFYMSG" := msg]> (<[$"NOTIFYTYPE" := ty]> (<[$"UPSNAME" := ups]> (s_env s))))].
Proof.
  intros Ka Kp Kl Ku Kn Km Hun Hty Kd Hfit [U1 U2] [T1 T2] [M1 M2] Hname H Hth Hargv Hc Hr ofs Ho Hnow Hmax line Hcat Hch Hts Hle.
  split.
  { unfold line. rewrite <- Km. eapply parse_at_starts; try done. rewrite Km. apply cmd_fits_line. exact Hfit. }
  destruct (command_arrives ($"START") (Some name) (Some secs) (Some ty) (Some ups) (Some msg) id s c chunks
    Hfit H Hc Hr Hcat Hch) as (_ & X & H1 & ctx & W & Ea & S & E).
  set (s1 := sock_reads id chunks s) in *. cbn zeta in X.
  assert (thead s1 = [mkTimer (s_fresh s) name (s_now s + ofs) (new_array ups) (new_array ty) (new_array msg)]) as Ht1.
  { rewrite E, (start_line _ _ _ _ name secs ty ups msg) by done. rewrite Hth. fold ofs.
    by rewrite wrapS_small by (unfold LONG_MAX in *; lia). }
  assert (execs (s_out s1) = execs (s_out s)) as X1.
  { rewrite X. unfold a_command. cbn [length cmd_words map opt_word default Nat.eqb nth Nat.ltb Nat.leb].
    rewrite !decide_False by first [discriminate | intros [?|?]; discriminate]. rewrite decide_True by done. unfold run. cbn [snd]. by rewrite app_nil_r. }
  pose proof (fun x => cmd_fits_words ($"START") (Some name) (Some secs) (Some ty) (Some ups) (Some msg) x Hfit) as N.
  simpl in N.
  assert (timer_sound (mkTimer (s_fresh s) name (s_now s + ofs) (new_array ups) (new_array ty) (new_array msg))) as Hsd
    by (apply new_timer_sound; try done; apply N; tauto).
  destruct (waiting_rounds _ times s1 H1 Ht1 Hsd Hts) as (R1 & R2 & R3 & R4 & R5 & R6).
  destruct (daemon_rounds (map quiet_round times) s1) as [d s2]. cbn zeta. cbn [fst snd] in *. subst d.
  rewrite daemon_round_quiet.
  assert (sched_inv (with_now s2 now)) as H2 by (destruct R4 as [[] ?]; by split; [split|]).
  rewrite checktimers_spec; try done; cbn [thead with_now s_now] in *; rewrite ?R2; [|done|by apply Forall_singleton].
  rewrite !filter_cons, decide_True by (unfold due; simpl; lia). rewrite decide_False by (unfold due; simpl; lia).
  rewrite !filter_nil. cbn [fst snd thead with_thead s_out with_out with_now flat_map]. rewrite app_nil_r, execs_app, R3, X1.
  split_and!; try done. f_equal. destruct S as [_ Sc Se _]. injection Sc as _ _ Sa _ _.
  unfold timer_cmd. cbn [t_name cmdscript_argv with_now s_env]. rewrite R6, R5, Sa, Se.
  destruct name as [|ch name]; [done|]. destruct (cmdscript_argv s) as [|a argv] eqn:Eargv; [done|].
  unfold timer_env. cbn [t_upsnames t_notifytypes t_notifymsgs]. rewrite !new_array_text by done. reflexivity.
Qed.

(** C17. When a round comes to the timers, it runs exactly those that are due, in the order of the queue, each
    with the UPSes, types and texts of the notices that started it in its environment, keeps the others as they
    are, and goes on. *)
Theorem due_timers_run r s :
  let s1 := served r s in
  sched_inv s -> thead s1 <> [] -> Forall timer_sound (thead s1) ->
  daemon_round r s =
    (false, with_thead (with_out (with_emptyctr s1 0)
              (s_out s1 ++ flat_map (timer_cmd s1) (filter (due (r_now r)) (thead s1))))
            (filter (fun t => ~ due (r_now r) t) (thead s1))).
Proof.
  intros s1 H Hne Hs. rewrite daemon_round_eq. fold s1.
  assert (s_now s1 = r_now r) as <-.
  { unfold s1. destruct (served_serves r s) as [_ Sc _ _]. by injection Sc as _ -> _ _ _. }
  apply checktimers_spec; [by apply served_inv|done|done].
Qed.

(** *** The end of the daemon *)

(** The names of the commands that were run. *)
Definition ran (l : list out) : list (list bytes) :=
  omap (fun o => match o with OExec argv _ => Some argv | _ => None end) l.

Lemma ran_app l1 l2 : ran (l1 ++ l2) = ran l1 ++ ran l2.
Proof. unfold ran. apply omap_app. Qed.

Definition script_call (s : sched) (t : ttype_s) : list (list bytes) :=
  match t_name t, cmdscript_argv s with [], _ | _, [] => [] | n, argv => [argv ++ [n]] end.

Lemma ran_touch a n s : ran (s_out (touch a n s)) = ran (s_out s).
Proof. unfold touch. case_match; [done|]. simpl. by rewrite ran_app, app_nil_r. Qed.

Lemma ran_collect a sep s : ran (s_out (collect_string a sep s).2) = ran (s_out s).
Proof. unfold collect_string. repeat case_match; cbn [snd]; try done; apply ran_touch. Qed.

Lemma ran_free a s : ran (s_out (free_array a s)) = ran (s_out s).
Proof. destruct a; [apply ran_touch|done]. Qed.

Lemma exec_cmd_timer_ran t s :
  clean_env s -> ran (s_out (exec_cmd_timer t s)) = ran (s_out s) ++ script_call s t.
Proof.
  intros E. unfold exec_cmd_timer, script_call. destruct (t_name t) as [|ch n]; [by rewrite app_nil_r|].
  assert (forall a sep s s', (collect_string a sep s).2 = s' -> ran (s_out s') = ran (s_out s)
    /\ cmdscript_argv s' = cmdscript_argv s) as Hcol.
  { intros a sep s0 s' <-. split; [apply ran_collect|]. destruct (says_collect a sep s0) as [o Eo]. by rewrite Eo. }
  destruct (collect_string (t_upsnames t) _ s) as [a s1] eqn:E1. apply (f_equal snd), Hcol in E1 as [O1 A1].
  destruct (collect_string (t_notifytypes t) _ s1) as [b s2] eqn:E2. apply (f_equal snd), Hcol in E2 as [O2 A2].
  destruct (collect_string (t_notifymsgs t) _ s2) as [c s3] eqn:E3. apply (f_equal snd), Hcol in E3 as [O3 A3].
  cbn [snd] in *. rewrite !opt_unsetenv_eq, !opt_setenv_eq. cbn [s_env with_env s_out].
  match goal with |- context [exec_cmd _ ?x] => change x with (with_env s3 (s_env x)) end.
  rewrite exec_cmd_env. cbn [s_out with_env with_out]. rewrite ran_app, O3, O2, O1, A3, A2, A1.
  by destruct (cmdscript_argv s).
Qed.

Lemma checktimers_loop_all l s :
  sched_inv s -> thead s = l -> Forall (due (s_now s)) l ->
  let s' := checktimers_loop l s in
  thead s' = [] /\ ran (s_out s') = ran (s_out s) ++ flat_map (script_call s) l
  /\ emptyctr s' = emptyctr s /\ pipefn s' = pipefn s /\ s_now s' = s_now s.
Proof.
  intros H Ht Hd. revert s H Ht Hd. induction l as [|t l IH]; intros s H Ht Hd; cbn [checktimers_loop flat_map].
  { by rewrite app_nil_r. }
  apply Forall_cons in Hd as [D Hd]. unfold due in D. replace (t_etime t <=? s_now s) with true by (symmetry; by apply Z.leb_le).
  destruct (exec_cmd_timer_says t s (inv_env _ H)) as [o Eo]. pose proof (exec_cmd_timer_ran t s (inv_env _ H)) as Ro.
  rewrite Eo in Ro |- *. set (s1 := with_out s (s_out s ++ o)) in *.
  assert (sched_inv s1) as H1 by (eapply says_inv; [by exists o|done]).
  assert (thead s1 = [] ++ t :: l) as Ht1 by done.
  destruct (removetimer_says [] l t s1 (wf_timers _ (inv_wf _ H1)) Ht1) as [o2 Er].
  assert (ran (s_out (removetimer (t_id t) s1)) = ran (s_out s1)) as Rr.
  { unfold removetimer. destruct (List.find _ _); [|done]. by rewrite !ran_free. }
  destruct (IH (removetimer (t_id t) s1)) as (I1 & I2 & I3 & I4 & I5).
  { by apply removetimer_inv. } { by rewrite Er. } { by rewrite Er. }
  cbn zeta. rewrite I1, I2, I3, I4, I5, Rr, Ro, Er. split_and!; try done. by rewrite <- app_assoc.
Qed.

Lemma quiet_empty n now s :
  thead s = [] -> (Z.to_nat (EMPTY_WAIT - emptyctr s) <= S n)%nat ->
  let r := daemon_rounds (replicate (S n) (quiet_round now)) s in
  r.1 = true /\ thead r.2 = [] /\ ran (s_out r.2) = ran (s_out s)
  /\ match pipefn s with Some fn => last (s_out r.2) = Some (OUnlink fn) | None => True end.
Proof.
  revert s. induction n as [|n IH]; intros s Ht Hn; cbn [replicate daemon_rounds]; rewrite daemon_round_quiet;
    unfold checktimers; cbn [thead with_now]; rewrite Ht; cbn [emptyctr with_emptyctr with_now pipefn];
    (destruct (Z.ltb_spec (emptyctr s + 1) EMPTY_WAIT) as [L|L];
     [|destruct (pipefn s); cbn; rewrite ?ran_app, ?last_snoc, ?app_nil_r; done]).
  - unfold EMPTY_WAIT in *. lia.
  - apply (IH (with_emptyctr (with_now s now) (emptyctr s + 1))); [done|]. simpl. unfold EMPTY_WAIT in *. lia.
Qed.

(** C18. The daemon ends, and not too early: when all timers are due and no client does anything, it has run
    CMDSCRIPT once for each of them in the order of the queue, removed its socket and exited after at most
    sixteen rounds, of a second each. *)
Theorem daemon_ends now s :
  sched_inv s -> 0 <= emptyctr s -> Forall (due now) (thead s) ->
  let r := daemon_rounds (replicate 16 (quiet_round now)) s in
  r.1 = true /\ thead r.2 = [] /\ ran (s_out r.2) = ran (s_out s) ++ flat_map (script_call s) (thead s)
  /\ match pipefn s with Some fn => last (s_out r.2) = Some (OUnlink fn) | None => True end.
Proof.
  intros H He Hd. destruct (thead s) as [|t l] eqn:Eh.
  - cbn [flat_map]. rewrite app_nil_r. apply quiet_empty; [done|]. unfold EMPTY_WAIT. lia.
  - change (replicate 16 (quiet_round now)) with (quiet_round now :: replicate 15 (quiet_round now)). cbn [daemon_rounds].
    rewrite daemon_round_quiet. unfold checktimers. cbn [thead with_now]. rewrite Eh.
    set (s0 := with_emptyctr (with_now s now) 0).
    assert (sched_inv s0) as H0 by (destruct H as [[] ?]; by split; [split|]).
    destruct (checktimers_loop_all (t :: l) s0 H0) as (I1 & I2 & I3 & I4 & _); [done|done|].
    change (flat_map (script_call s)) with (flat_map (script_call s0)). change (pipefn s) with (pipefn s0).
    change (ran (s_out s)) with (ran (s_out s0)). rewrite <- I2, <- I4.
    apply quiet_empty; [done|]. rewrite I3. simpl. unfold EMPTY_WAIT. lia.
Qed.

(** *** Where defined behaviour ends *)

(** Each timer that a CANCEL removes is used after it was freed, to find the next one. *)
Theorem cancel_uses_freed_timers name cname ty up matched s :
  sched_inv s ->
  let s' := cancel_timer name cname ty up matched s in
  (length (thead s') + (uaf_count (s_out s') - uaf_count (s_out s)) = length (thead s))%nat.
Proof.
  intros [W _]. destruct (cancel_timer_spec name cname ty up matched s (wf_timers _ W)) as (Q & _ & U).
  cbn zeta. rewrite U. pose proof (cancelled_count name ty up matched (thead s)) as C.
  apply (f_equal length) in Q. unfold a_cancel, queue in Q. cbn [fst] in Q. rewrite <- kept_queue in Q.
  rewrite !length_fmap in Q. lia.
Qed.

(** A START-SHARED for a timer that has a notice type already, with another one, writes outside the array
    of types: the size given to realloc counts pointers, not bytes. *)
Theorem shared_type_overflows name ofs ty up msg t l a s :
  thead s = t :: l -> t_name t = name -> t_notifytypes t = Some a -> 0 <= (strtol ofs 10).1.1 ->
  ty <> [] -> ty ∉ a_items a ->
  exists o, s_out (start_timer name ofs ty up msg true s) = s_out s ++ o /\ In (OFault OutOfBounds) o.
Proof.
  intros Ht Hn Ha Hofs Hty Hin. unfold start_timer. replace (_ <? 0) with false by (symmetry; by apply Z.ltb_ge).
  rewrite Ht. cbn [share_loop]. rewrite Hn, streq_refl. unfold share_timer. rewrite Ha.
  assert (exists a' o, share_string ty (Some a) s = (a', with_out s (s_out s ++ o)) /\ In (OFault OutOfBounds) o)
    as (a' & o & -> & Ho).
  { unfold share_string. destruct ty as [|c ty]; [done|]. rewrite (find_string_absent _ _ Hin). rewrite Nat.ltb_irrefl.
    destruct (says_touch a (S (length (a_items a))) s) as [o Eo]. rewrite Eo.
    eexists _, (o ++ [OFault OutOfBounds]). split.
    - f_equal. unfold touch at 1. cbn [a_size]. replace (_ <=? _)%nat with false by (symmetry; apply Nat.leb_gt; unfold PTR; lia).
      unfold emit. simpl. by rewrite <- app_assoc.
    - apply in_app_iff. right. by left. }
  set (s1 := with_out s (s_out s ++ o)).
  destruct (share_string_spec msg (t_notifymsgs t) s1) as [_ [[o2 E2] _]]. destruct (share_string msg _ s1) as [b s2].
  cbn [snd] in E2. subst s2.
  match goal with |- context [share_string up ?x ?y] => destruct (share_string_spec up x y) as [_ [[o3 E3] _]];
    destruct (share_string up x y) as [d s3] end. cbn [snd] in E3. subst s3. cbn [s_out with_thead with_out s1].
  exists (o ++ o2 ++ o3). rewrite <- !app_assoc. split; [done|]. apply in_app_iff. by left.
Qed.

(** The manual's CANCEL-TIMER-MATCHED is not among the commands of [parse_at]: such a line has no effect. *)
Lemma matched_cancel_is_unknown nt un name ca2 ups ty k :
  k_argv k <> [] -> is_Some (k_pipefn k) -> is_Some (k_lockfn k) -> ups_name k = Some ups -> notify_type k = Some ty ->
  parse_at nt un ($"CANCEL-TIMER-MATCHED") name ca2 k = KRet tt k.
Proof.
  intros Ha [pipe Hp] [lock Hl] Hu Hn. unfold parse_at, mbind, K_bind, k_get. rewrite Hp, Hl, Hu, Hn.
  rewrite !bool_decide_eq_false_2 by done. by repeat case_match.
Qed.

(** ** The properties at concrete states *)

Definition demo_sched : sched :=
  conn_add (Some 5) (start_daemon [$"/usr/bin/upssched-cmd"] (Some ($"/run/nut/upssched.pipe")) ∅ 100 [] []).
Definition demo_cli : cli := mkCli [$"/usr/bin/upssched-cmd"] (Some ($"/run/nut/upssched.pipe")) (Some ($"/run/nut/upssched.lock"))
  0 false (Some ($"ups@localhost")) (Some ($"ONBATT")) (Some ($"UPS on battery")) [] [] [] [SelData 3 OK_LINE] [].
Definition demo_line : bytes := sendcmd_line ($"START") (Some ($"onbatt")) (Some ($"30"))
  (Some ($"ONBATT")) (Some ($"ups@localhost")) (Some ($"UPS on battery")).

Lemma demo_sched_inv : sched_inv demo_sched.
Proof. apply conn_add_serves, start_daemon_inv. Qed.

Lemma notice_to_script_witness :
  thead (daemon_round (quiet_round 130) (daemon_rounds (map quiet_round [101; 129])
    (sock_reads 0 [take 7 demo_line; drop 7 demo_line] demo_sched)).2).2 = [].
Proof.
  refine (proj1 (proj2 (proj2 (proj2 (proj2 (notice_to_script ($"onbatt") ($"*") ($"onbatt") ($"30") ($"ups@localhost")
    ($"ONBATT") ($"UPS on battery") demo_cli demo_sched (mkConn 0 5 pconf_init) 0 [take 7 demo_line; drop 7 demo_line]
    [101; 129] 130 _ _ _ _ _ _ _ _ _ _ _ _ _ _ _ _ _ _ _ _ _ _ _ _ _ _))))));
    try done; try (by eexists); try (by right); try (by split); try (by vm_compute);
    try (apply (bool_decide_unpack _); by vm_compute).
  - split; [done|]. split; [done|]. split; [done|]. by exists [].
  - apply demo_sched_inv.
  - apply ready_init.
Defined.

Definition demo_timer (i : nat) (name : bytes) (etime : Z) : ttype_s :=
  mkTimer i name etime (new_array ($"ups@localhost")) (new_array ($"ONBATT")) (new_array ($"UPS on battery")).
Definition demo_waiting : sched := with_fresh (with_thead demo_sched [demo_timer 1 ($"onbatt") 130; demo_timer 2 ($"late") 500]) 3.

Lemma demo_waiting_inv : sched_inv demo_waiting.
Proof.
  split; [|apply demo_sched_inv]. split; vm_compute.
  - apply (bool_decide_unpack _). by vm_compute.
  - repeat constructor.
  - apply (bool_decide_unpack _). by vm_compute.
  - repeat constructor.
Qed.

Lemma demo_timer_sound i name e : timer_sound (demo_timer i name e).
Proof. apply new_timer_sound; try (by vm_compute; lia); apply (bool_decide_unpack _); by vm_compute. Qed.

Lemma due_timers_run_witness :
  (daemon_round (quiet_round 130) demo_waiting).1 = false /\ thead (daemon_round (quiet_round 130) demo_waiting).2 = [demo_timer 2 ($"late") 500].
Proof.
  rewrite (due_timers_run (quiet_round 130) demo_waiting); [by vm_compute|apply demo_waiting_inv|by vm_compute|].
  assert (thead (served (quiet_round 130) demo_waiting) = thead demo_waiting) as -> by reflexivity.
  apply Forall_cons. split; [apply demo_timer_sound|]. apply Forall_singleton, demo_timer_sound.
Defined.

Lemma daemon_ends_witness : (daemon_rounds (replicate 16 (quiet_round 500)) demo_waiting).1 = true.
Proof.
  refine (proj1 (daemon_ends 500 demo_waiting _ _ _)); [apply demo_waiting_inv|done|].
  apply (bool_decide_unpack _). by vm_compute.
Defined.

Lemma cancel_uses_freed_timers_witness :
  let s' := cancel_timer ($"onbatt") None None None false demo_waiting in
  (length (thead s') + uaf_count (s_out s'))%nat = 2%nat /\ uaf_count (s_out s') = 1%nat.
Proof.
  pose proof (cancel_uses_freed_timers ($"onbatt") None None None false demo_waiting demo_waiting_inv) as H.
  cbn zeta in *. split; [|reflexivity]. rewrite <- (Nat.sub_0_r (uaf_count _)). exact H.
Defined.

Lemma shared_type_overflows_witness :
  exists o, s_out (start_timer ($"onbatt") ($"30") ($"LOWBATT") ($"ups@localhost") ($"UPS battery is low") true demo_waiting)
    = s_out demo_waiting ++ o /\ In (OFault OutOfBounds) o.
Proof.
  refine (shared_type_overflows _ _ _ _ _ (demo_timer 1 ($"onbatt") 130) [demo_timer 2 ($"late") 500]
    (mkArr [$"ONBATT"] 16) demo_waiting _ _ _ _ _ _); try done.
  apply (bool_decide_unpack _). by vm_compute.
Defined.

Definition demo_words_conn (line : bytes) : conn_s := mkConn 0 5 (pconf_line pconf_init line).2.

