(* ===== verification/UpsdConfFacts.v ===== *)
(** * The configuration of upsd: what a reload does

    A reload keeps the invariant of the server under any configuration files and failing calls, and what it
    makes of the list of UPSes is what ups.conf says, the clients of the remaining UPSes undisturbed. *)

From S2P Require Import Prelude CStr ParseConf ConfFile StrUtil StateTree StateFacts Users Desc Tracking World.
From S2P Require Import SState Upsd UpsdConf ServerLib ServerFacts ServerInv.
From stdpp Require Import options.

(** ** Results of the configuration code

    [wpc crash m Q E v]: [m] returns with [Q], exits with [E], or crashes, and then [crash] holds. *)

Definition wpc {A} (crash : Prop) (m : CM A) (Q : A -> srv -> Prop) (E : srv -> Prop) (v : srv) : Prop :=
  match m v with CRet a v' => Q a v' | CExit _ v' => E v' | CCrash => crash end.

Section Wpc.
Context (crash : Prop) (E : srv -> Prop).

Lemma wpc_ret {A} (a : A) (Q : A -> srv -> Prop) v : Q a v -> wpc crash (mret a) Q E v.
Proof. done. Qed.

Lemma wpc_bind {A B} (m : CM A) (f : A -> CM B) Q v :
  wpc crash m (fun a => wpc crash (f a) Q E) E v -> wpc crash (m ≫= f) Q E v.
Proof. unfold wpc, mbind, CM_bind. by destruct (m v). Qed.

Lemma wpc_mono {A} (m : CM A) (P Q : A -> srv -> Prop) v :
  wpc crash m P E v -> (forall a v', P a v' -> Q a v') -> wpc crash m Q E v.
Proof. unfold wpc. destruct (m v); auto. Qed.

Lemma wpc_lift {A} (m : M A) (Q : A -> srv -> Prop) v :
  wp m (fun a w => Q a (vset_world v w)) (v_world v) -> wpc crash (lift m) Q E v.
Proof. unfold wpc, wp, lift. by destruct (m (v_world v)) as [[a w]|]. Qed.

Lemma wpc_get {A} (f : srv -> A) (Q : A -> srv -> Prop) v : Q (f v) v -> wpc crash (cget f) Q E v.
Proof. done. Qed.

Lemma wpc_modify f (Q : unit -> srv -> Prop) v : Q tt (f v) -> wpc crash (cmodify f) Q E v.
Proof. done. Qed.
End Wpc.

(** ** Clients that go *)

Lemma oldest_client_in o l c : oldest_client o l = Some c -> o = Some c \/ c ∈ l.
Proof.
  revert o. induction l as [|d l IH]; intros o; simpl; [by left|].
  destruct o as [o|]; intros [H|H]%IH; try (right; by right).
  - case_match; [injection H as ->; right; by left|by left].
  - injection H as ->. right. by left.
Qed.

Lemma wp_close_oldest w : server_wf w -> wp close_oldest_client (fun _ w' => server_wf w') w.
Proof.
  intros Hw. unfold close_oldest_client. apply wp_bind, wp_get.
  destruct (oldest_client None (w_clients w)) as [o|] eqn:Eo; [|by apply wp_ret].
  apply oldest_client_in in Eo as [?|Ho]; [done|]. eapply wp_mono.
  - apply wp_disconnect_client; [done|]. by apply list_elem_of_fmap_2.
  - by intros [] w' [? _].
Qed.

(** Only the login counter of the UPS at [i] may differ. *)
Definition relogged (i : nat) (l l' : list upstype) : Prop := exists n, l' = alter (fun u => set_u_numlogins u n) i l.

Lemma relogged_refl i l : relogged i l l.
Proof.
  exists (default 0 (u_numlogins <$> l !! i)). apply list_eq. intros j.
  destruct (decide (i = j)) as [->|]; [|by rewrite list_lookup_alter_ne].
  rewrite list_lookup_alter_eq. destruct (l !! j) as [u|] eqn:Eu; simpl; [|done]. rewrite ?Eu. by destruct u.
Qed.

Lemma relogged_trans i l1 l2 l3 : relogged i l1 l2 -> relogged i l2 l3 -> relogged i l1 l3.
Proof.
  intros [n ->] [m ->]. exists m. apply list_eq. intros j.
  destruct (decide (i = j)) as [->|]; [|by rewrite !list_lookup_alter_ne].
  rewrite !list_lookup_alter_eq. by destruct (l1 !! j).
Qed.

Lemma relogged_names i l l' : relogged i l l' -> u_name <$> l' = u_name <$> l.
Proof.
  intros [n ->]. revert i. induction l as [|u l IH]; intros [|i]; csimpl; try done. by rewrite IH.
Qed.

Lemma ups_find_names l l' name : u_name <$> l' = u_name <$> l -> ups_find l' name = ups_find l name.
Proof.
  revert l'. induction l as [|u l IH]; intros [|u' l'] H; csimpl in H; try done.
  injection H as Hn H. simpl. rewrite Hn. by rewrite (IH _ H).
Qed.

Lemma wp_and {A} (m : M A) (P Q : A -> world -> Prop) w :
  wp m P w -> wp m Q w -> wp m (fun a w' => P a w' /\ Q a w') w.
Proof. unfold wp. by destruct (m w) as [[a w']|]. Qed.

Lemma disconnect_effect cl w c :
  server_wf w -> client_find cl (w_clients w) = Some c ->
  wp (client_disconnect cl) (fun _ w' => server_wf w' /\ exists us,
    w' = set_w_clients (set_w_ups w us) (filter (fun c => c_id c <> cl) (w_clients w))
    /\ forall l i, c_loginups c = Some l -> ups_find (w_ups w) l = Some i -> relogged i (w_ups w) us) w.
Proof.
  intros Hw Hc. apply wp_and; [by eapply wp_client_disconnect; [done..|]; intros w' []|].
  unfold client_disconnect. apply wp_bind. eapply wp_client_get; [done|]. apply wp_bind.
  destruct (c_loginups c) as [l|].
  - unfold declogins. apply wp_get_ups.
    + intros Hn. apply wp_ret, wp_modify. exists (w_ups w). split; [by destruct w|]. intros; congruence.
    + intros i u Hi Hu _. eapply wp_ups_upd; [done|]. apply wp_modify. eexists. split; [done|].
      intros l' i' [= <-] Hi'. assert (i' = i) as -> by congruence. exists (u_numlogins u - 1).
      apply list_eq. intros j. destruct (decide (i = j)) as [->|]; [|by rewrite !list_lookup_alter_ne].
      by rewrite !list_lookup_alter_eq, Hu.
  - apply wp_ret, wp_modify. exists (w_ups w). by split; [destruct w|].
Qed.

Lemma filter_ext_in {A} (P Q : A -> Prop) `{forall x, Decision (P x)} `{forall x, Decision (Q x)} (l : list A) :
  (forall x, x ∈ l -> P x <-> Q x) -> filter P l = filter Q l.
Proof.
  induction l as [|a l IH]; [done|]. intros Hl. rewrite !filter_cons.
  rewrite IH by (intros; apply Hl; by right). specialize (Hl a ltac:(by left)).
  destruct (decide (P a)), (decide (Q a)); tauto.
Qed.

Lemma filter_true {A} (l : list A) : filter (fun _ => True) l = l.
Proof. induction l as [|a l IH]; [done|]. by rewrite filter_cons_True, IH. Qed.

(** The effect of disconnecting those of the clients in [P] who are logged into the UPS [name]. *)
Definition kicked_of (P : nat -> Prop) `{forall cl, Decision (P cl)} (name : bytes) (w w' : world) : Prop :=
  server_wf w' /\ exists us,
  w' = set_w_clients (set_w_ups w us) (filter (fun c => ~ (c_loginups c = Some name /\ P (c_id c))) (w_clients w))
  /\ forall i, ups_find (w_ups w) name = Some i -> relogged i (w_ups w) us.

Lemma client_unique w cl c d :
  server_wf w -> client_find cl (w_clients w) = Some c -> d ∈ w_clients w -> c_id d = cl -> d = c.
Proof.
  intros Hw Hc Hd Hid. destruct (client_find_elem _ _ _ Hc) as [Hcin Hcid].
  apply list_elem_of_lookup in Hd as [j Hj]. apply list_elem_of_lookup in Hcin as [k Hk].
  assert (j = k) as ->; [|congruence]. eapply (NoDup_lookup _ j k cl); [apply (sw_ids _ Hw)|..].
  - by rewrite list_lookup_fmap, Hj, <- Hid.
  - by rewrite list_lookup_fmap, Hk, <- Hcid.
Qed.

Section Kick.
Context (name : bytes).

Definition kick_one (cl : nat) : M unit :=
  client ← client_get cl;
  match c_loginups client with
  | None => mret tt
  | Some l => when (streq l name) (client_disconnect cl)
  end.

Lemma kicked_none w : server_wf w -> kicked_of (fun cl => cl ∈ []) name w w.
Proof.
  intros Hw. split; [done|]. exists (w_ups w). split; [|intros; apply relogged_refl].
  rewrite (filter_ext_in _ (fun _ => True)) by (intros c _; split; [done|]; intros _ [_ H]; by apply elem_of_nil in H).
  rewrite filter_true. by destruct w.
Qed.

(** A client that was not logged in there, and then the others. *)
Lemma kicked_skip cl c L w w' :
  server_wf w -> client_find cl (w_clients w) = Some c -> c_loginups c <> Some name ->
  kicked_of (fun cl => cl ∈ L) name w w' -> kicked_of (fun d => d ∈ cl :: L) name w w'.
Proof.
  intros Hw Hc Hne (Hw' & us & -> & Hus). split; [done|]. exists us. split; [|done]. f_equal.
  apply filter_ext_in. intros d Hd. rewrite elem_of_cons. split; [|tauto]. intros H [H1 [H2|H2]]; [|tauto].
  by rewrite (client_unique w cl c d Hw Hc Hd H2) in H1.
Qed.

(** A client that was, and then the others. *)
Lemma kicked_cons cl c L w us w' :
  server_wf w -> client_find cl (w_clients w) = Some c -> c_loginups c = Some name ->
  (forall i, ups_find (w_ups w) name = Some i -> relogged i (w_ups w) us) ->
  u_name <$> us = u_name <$> w_ups w ->
  kicked_of (fun cl => cl ∈ L) name
    (set_w_clients (set_w_ups w us) (filter (fun c => c_id c <> cl) (w_clients w))) w' ->
  kicked_of (fun d => d ∈ cl :: L) name w w'.
Proof.
  intros Hw Hc El Hus Hn (Hw' & us' & -> & Hus'). simpl in *. split; [done|]. exists us'. split.
  - cbn. f_equal. rewrite list_filter_filter. apply filter_ext_in. intros d Hd. rewrite elem_of_cons.
    split; [|intros H; split; [tauto|]].
    + intros [H1 H2] [H3 [H4|H4]]; tauto.
    + intros H4. apply H. by rewrite (client_unique w cl c d Hw Hc Hd H4) in H4 |- *; auto.
  - intros i Hi. eapply relogged_trans; [by apply Hus|]. apply Hus'. by rewrite (ups_find_names _ _ name Hn).
Qed.

Lemma kick_loop L w :
  server_wf w -> NoDup L -> (forall cl, cl ∈ L -> cl ∈ (c_id <$> w_clients w)) ->
  wp (for_each L kick_one) (fun _ w' => kicked_of (fun cl => cl ∈ L) name w w') w.
Proof.
  revert w. induction L as [|cl L IH]; intros w Hw Hnd Hin; cbn [for_each]; [by apply wp_ret, kicked_none|].
  apply NoDup_cons in Hnd as [Hni Hnd].
  destruct (proj1 (find_ids cl (w_clients w)) (Hin cl ltac:(by left))) as [c Hc].
  apply wp_bind. unfold kick_one at 1. apply wp_bind. eapply wp_client_get; [done|].
  assert (c_loginups c <> Some name -> wp (for_each L kick_one) (fun _ w' => kicked_of (fun d => d ∈ cl :: L) name w w') w)
    as Hskip.
  { intros Hne. eapply wp_mono; [apply IH; [done|done|]; intros; apply Hin; by right|].
    intros [] w'. by eapply kicked_skip. }
  destruct (c_loginups c) as [l|] eqn:El; [|by apply wp_ret, Hskip].
  destruct (streq l name) eqn:Es; cbn [when]; [|apply wp_ret, Hskip; intros [= ->]; by rewrite streq_refl in Es].
  apply streq_true in Es as ->. eapply wp_mono; [by apply disconnect_effect|].
  intros [] w1 (Hw1 & us & -> & Hus). eapply wp_mono; [apply IH; [done|done|]|].
  - intros d Hd. simpl. destruct (proj1 (list_elem_of_fmap _ _ _) (Hin d ltac:(by right))) as (x & -> & Hx).
    apply list_elem_of_fmap_2, list_elem_of_filter. split; [by intros Heq; rewrite Heq in Hd|done].
  - intros [] w'. apply (kicked_cons cl c); try done; [by intros i; apply Hus|].
    destruct (client_find_elem _ _ _ Hc) as [Hcin _].
    destruct (ups_find_login _ _ _ Hw Hcin El) as (i & u & Hi & _). by eapply relogged_names, Hus.
Qed.
End Kick.

(** Everybody who is logged into the UPS [name] is disconnected. *)
Definition kicked (name : bytes) (w w' : world) : Prop := server_wf w' /\ exists us,
  w' = set_w_clients (set_w_ups w us) (filter (fun c => c_loginups c <> Some name) (w_clients w))
  /\ forall i, ups_find (w_ups w) name = Some i -> relogged i (w_ups w) us.

Lemma wp_kick name w : server_wf w -> wp (kick_login_clients name) (fun _ w' => kicked name w w') w.
Proof.
  intros Hw. unfold kick_login_clients. apply wp_bind, wp_get.
  eapply wp_mono; [by apply (kick_loop name); [|apply (sw_ids _ Hw)|]|]. intros [] w' (Hw' & us & -> & Hus).
  split; [done|]. exists us. split; [|done]. f_equal. apply filter_ext_in. intros c Hc.
  split; [|tauto]. intros H1 H2. apply H1. split; [done|by apply list_elem_of_fmap_2].
Qed.

(** ** UPSes that go *)

Lemma ups_find_at w i u : server_wf w -> w_ups w !! i = Some u -> ups_find (w_ups w) (u_name u) = Some i.
Proof.
  intros Hw Hu. pose proof (sw_names _ Hw) as Hnd. revert i Hu. induction (w_ups w) as [|v l IH]; [done|].
  csimpl in Hnd. apply NoDup_cons in Hnd as [Hni Hnd]. intros [|i]; simpl.
  - intros [= ->]. by rewrite strcaseeq_refl.
  - intros Hu. destruct (strcaseeq (u_name v) (u_name u)) eqn:E; [|by rewrite (IH Hnd i Hu)].
    apply strcaseeq_true in E. exfalso. apply Hni. rewrite E.
    apply (list_elem_of_fmap_2 (fun u => lower (u_name u))). by eapply list_elem_of_lookup_2.
Qed.

Lemma delete_alter_eq {A} (f : A -> A) i (l : list A) : delete i (alter f i l) = delete i l.
Proof. revert i. induction l as [|a l IH]; intros [|i]; simpl; [done..|]. f_equal. apply IH. Qed.

(** A UPS into which nobody is logged leaves the list. *)
Lemma wf_delete_ups w i u :
  server_wf w -> w_ups w !! i = Some u -> Forall (fun c => c_loginups c <> Some (u_name u)) (w_clients w) ->
  server_wf (set_w_ups w (delete i (w_ups w))).
Proof.
  intros [H1 H2 H3 H4 H5 H6] Hu Hno. pose proof (delete_Permutation _ _ _ Hu) as Hp.
  split; simpl; try done.
  - rewrite (fmap_Permutation (fun u => lower (u_name u)) _ _ Hp) in H3. csimpl in H3. by apply NoDup_cons in H3 as [_ H3].
  - apply Forall_forall. intros c Hc l Hl. rewrite Forall_forall in H4, Hno.
    destruct (H4 c Hc l Hl) as (v & Hv & Hn). exists v. split; [|done]. rewrite Hp in Hv.
    apply elem_of_cons in Hv as [->|Hv]; [|done]. destruct (Hno c Hc). by rewrite Hl, Hn.
  - rewrite Hp in H5. by inversion H5.
  - rewrite Hp in H6. by inversion H6.
Qed.

Definition without_login (name : bytes) (l : list nut_ctype) : list nut_ctype :=
  filter (fun c => c_loginups c <> Some name) l.

Lemma wp_delete_ups i u v (crash : Prop) E (Q : unit -> srv -> Prop) :
  let w := v_world v in server_wf w -> w_ups w !! i = Some u ->
  (let w' := set_w_clients (set_w_ups w (delete i (w_ups w))) (without_login (u_name u) (w_clients w)) in
   server_wf w' -> Q tt (vset_world v w')) ->
  wpc crash (delete_ups i) Q E v.
Proof.
  intros w Hw Hu HQ. apply wpc_lift, wp_bind. eapply wp_ups_get; [done|]. apply wp_bind.
  eapply wp_mono; [by apply wp_kick|]. intros [] w1 (Hw1 & us & -> & Hus). apply wp_modify.
  destruct (Hus i (ups_find_at _ _ _ Hw Hu)) as [n ->]. cbn in Hw1 |- *. fold w in Hw1, Hu |- *.
  assert (delete i (alter (fun u => set_u_numlogins u n) i (w_ups w)) = delete i (w_ups w)) as Hd by apply delete_alter_eq.
  rewrite Hd. apply HQ.
  assert (exists u', alter (fun u => set_u_numlogins u n) i (w_ups w) !! i = Some u' /\ u_name u' = u_name u) as (u' & Hu' & Hn).
  { rewrite list_lookup_alter_eq, Hu. by eexists. }
  pose proof (wf_delete_ups _ i u' Hw1 Hu') as H. cbn in H. rewrite Hd in H. apply H. rewrite Hn.
  apply Forall_forall. by intros c [? _]%list_elem_of_filter.
Qed.

(** The UPSes that the reload did not find, and the clients that were logged into them *)
Definition retained (l : list upstype) : list upstype := filter (fun u => u_retain u <> 0) l.
Definition logged_into_lost (l : list upstype) (c : nut_ctype) : bool :=
  existsb (fun u => (u_retain u =? 0) && bool_decide (c_loginups c = Some (u_name u))) l.
Definition still_served (l : list upstype) (cl : list nut_ctype) : list nut_ctype :=
  filter (fun c => logged_into_lost l c = false) cl.

Lemma delete_lost_spec fuel i v pre post (crash : Prop) E (Q : unit -> srv -> Prop) :
  let w := v_world v in server_wf w -> w_ups w = pre ++ post -> i = length pre -> (length post <= fuel)%nat ->
  (let w' := set_w_clients (set_w_ups w (pre ++ retained post)) (still_served post (w_clients w)) in
   server_wf w' -> Q tt (vset_world v w')) ->
  wpc crash (delete_lost fuel i) Q E v.
Proof.
  revert i v pre post. induction fuel as [|fuel IH]; intros i v pre post w Hw Hups -> Hfuel HQ.
  all: assert (post = [] -> Q tt v) as Hnil by
    (intros ->; unfold retained, still_served in HQ; rewrite app_nil_r in Hups; cbn in HQ;
     rewrite app_nil_r, <- Hups, (filter_ext_in _ (fun _ => True)), filter_true in HQ by done;
     destruct v as [[]]; cbn in *; by apply HQ).
  { destruct post; [|simpl in Hfuel; lia]. by apply wpc_ret, Hnil. }
  cbn [delete_lost]. apply wpc_bind, wpc_get. fold w. rewrite Hups.
  destruct post as [|u post]; [rewrite app_nil_r, lookup_ge_None_2 by lia; by apply wpc_ret, Hnil|].
  rewrite list_lookup_middle by done. unfold retained, still_served in HQ. rewrite filter_cons in HQ.
  destruct (u_retain u =? 0) eqn:E0; breflect.
  - rewrite decide_False in HQ by (intros H; by apply H). apply wpc_bind.
    eapply (wp_delete_ups _ u); [done|fold w; rewrite Hups; by apply list_lookup_middle|]. fold w. intros w' Hw'.
    assert (delete (length pre) (w_ups w) = pre ++ post) as Hd by (rewrite Hups; by rewrite delete_middle).
    apply (IH _ _ pre post); cbn; [done|done|done|simpl in Hfuel; lia|]. intros Hw2. unfold w' in Hw2 |- *.
    assert (filter (fun c => logged_into_lost post c = false) (without_login (u_name u) (w_clients w))
            = filter (fun c => logged_into_lost (u :: post) c = false) (w_clients w)) as Hf.
    { unfold without_login. rewrite list_filter_filter. apply filter_ext_in. intros c _. simpl.
      rewrite (proj2 (Z.eqb_eq _ _) E0). simpl. destruct (bool_decide_reflect (c_loginups c = Some (u_name u))); naive_solver. }
    rewrite Hf in Hw2 |- *. by apply HQ.
  - rewrite decide_True in HQ by done.
    apply (IH _ _ (pre ++ [u]) post); cbn; [done|by rewrite <- app_assoc|rewrite length_app; simpl; lia|simpl in Hfuel; lia|].
    fold w. rewrite <- app_assoc. cbn.
    assert (still_served post (w_clients w) = filter (fun c => logged_into_lost (u :: post) c = false) (w_clients w)) as ->
      by (apply filter_ext_in; intros c _; simpl; by rewrite (proj2 (Z.eqb_neq _ _) E0)).
    exact HQ.
Qed.

(** ** The settings of a file *)

(** A word with its value, if it has one, and the section it stands in *)
Definition setting : Type := option bytes * bytes * option bytes.

Fixpoint settings (sec : option bytes) (lines : list (list bytes)) : list setting :=
  match lines with
  | [] => []
  | arg :: lines =>
      match arg with
      | [] => settings sec lines
      | w :: more =>
          match section_name w, more with
          | Some name, _ => settings (Some name) lines
          | None, [] => (sec, w, None) :: settings sec lines
          | None, eq :: val :: _ => (if streq eq ($"=") then cons (sec, w, Some val) else id) (settings sec lines)
          | None, _ => settings sec lines
          end
      end
  end.

Lemma conf_args_settings {S} (callback : S -> option bytes -> bytes -> option bytes -> S) lines sec s :
  (fold_left (conf_args callback) lines (sec, s)).2
  = fold_left (fun s '(sec, var, val) => callback s sec var val) (settings sec lines) s.
Proof.
  revert sec s. induction lines as [|arg lines IH]; intros sec s; [done|]. cbn [fold_left settings]. unfold conf_args at 2.
  destruct arg as [|w more]; [apply IH|]. destruct (section_name w); [apply IH|].
  destruct more as [|eq [|val more]]; [apply IH|apply IH|]. destruct (streq eq _); apply IH.
Qed.

(** The word [statepath] without a value, above all sections *)
Definition bare_statepath (x : setting) : Prop :=
  let '(sec, w, val) := x in sec = None /\ strcaseeq w ($"STATEPATH") = true /\ val = None.

(** ** A reload keeps the invariant *)

Section Keeps.
Context (files : bytes -> option bytes).

Definition good (v : srv) : Prop := server_wf (v_world v) /\ v_files v = files.
Definition bad_upsconf : Prop := exists text, files UPS_CONF = Some text /\ Exists bare_statepath (settings None (conf_lines text)).
Definition keeps {A} (m : CM A) : Prop := forall v, good v -> wpc bad_upsconf m (fun _ => good) good v.

(** [m] keeps the invariant of the world. *)
Definition wkeeps {A} (m : M A) : Prop := forall w, server_wf w -> wp m (fun _ w' => server_wf w') w.

Lemma keeps_ret {A} (a : A) : keeps (mret a).
Proof. by intros v. Qed.

Lemma keeps_bind {A B} (m : CM A) (f : A -> CM B) : keeps m -> (forall a, keeps (f a)) -> keeps (m ≫= f).
Proof.
  intros Hm Hf v Hv. apply wpc_bind. eapply wpc_mono; [by apply Hm|]. intros a v' Hv'. by apply Hf.
Qed.

Lemma keeps_lift {A} (m : M A) : wkeeps m -> keeps (lift m).
Proof.
  intros Hm v [Hw Hf]. apply wpc_lift. eapply wp_mono; [by apply Hm|]. intros a w Hw'. by split.
Qed.

Lemma keeps_get {A} (f : srv -> A) : keeps (cget f).
Proof. by intros v. Qed.

Lemma keeps_modify f : (forall v, good v -> good (f v)) -> keeps (cmodify f).
Proof. intros Hf v Hv. by apply Hf. Qed.

Lemma keeps_exit {A} st : keeps (@cexit A st).
Proof. by intros v. Qed.

Lemma keeps_try_open fn : keeps (try_open fn).
Proof. intros v [? ?]. unfold wpc, try_open. by destruct (v_emfile v) as [|[] ?]. Qed.

Lemma wkeeps_modify f : (forall w, server_wf w -> server_wf (f w)) -> wkeeps (modify f).
Proof. intros Hf w Hw. by apply wp_modify, Hf. Qed.

Lemma wkeeps_close : wkeeps close_oldest_client.
Proof. intros w. apply wp_close_oldest. Qed.

Lemma wkeeps_bind {A B} (m : M A) (f : A -> M B) : wkeeps m -> (forall a, wkeeps (f a)) -> wkeeps (m ≫= f).
Proof. intros Hm Hf w Hw. apply wp_bind. eapply wp_mono; [by apply Hm|]. intros a w' ?. by apply Hf. Qed.

(** What relates only other parts of the world keeps the invariant. *)
Lemma wf_same w w' :
  server_wf w -> w_clients w' = w_clients w -> w_ups w' = w_ups w -> w_next_id w' = w_next_id w -> server_wf w'.
Proof. intros Hw ? ? ?. by destruct (stable_same w w'). Qed.

(** A good result, for the handlers of lines *)
Definition good_result {A} (r : cres A) : Prop :=
  match r with CRet _ v | CExit _ v => good v | CCrash => bad_upsconf end.

Lemma keeps_result {A} (m : CM A) : keeps m <-> forall v, good v -> good_result (m v).
Proof. unfold keeps, wpc, good_result. split; intros H v Hv; specialize (H v Hv); by destruct (m v). Qed.

Lemma keeps_read_lines {A} (body : cres A -> list bytes -> cres A) text a :
  (forall r arg, good_result r -> good_result (body r arg)) -> keeps (read_lines body text a).
Proof.
  intros Hb. apply keeps_result. intros v Hv. unfold read_lines. rewrite conf_load_lines. simpl. revert v Hv.
  generalize (conf_lines text) as l. intros l v Hv. assert (good_result (CRet a v)) as Hr by done. revert Hr.
  generalize (CRet a v) as r. clear v Hv. induction l as [|arg l IH]; intros r Hr; simpl; auto.
Qed.
End Keeps.

Create HintDb keeps discriminated.
#[export] Hint Resolve keeps_ret keeps_bind keeps_lift keeps_get keeps_exit keeps_try_open wkeeps_close : keeps.

(** One construct of the code. *)
Ltac keeps_step :=
  match goal with
  | |- keeps _ (_ ≫= _) => apply keeps_bind; [|intros ?]
  | |- keeps _ (cmodify _) => apply keeps_modify; intros ? [? ?]; repeat case_match; by split
  | |- keeps _ (cwhen ?b _) => destruct b; cbn [cwhen]
  | |- keeps _ (if ?b then _ else _) => destruct b
  | |- keeps _ (match ?x with _ => _ end) => destruct x
  | |- _ => solve [auto with keeps]
  end.

Section KeepsAll.
Context (files : bytes -> option bytes).

Lemma keeps_conf_set f : keeps files (lift (modify (conf_set f))).
Proof. apply keeps_lift, wkeeps_modify. intros w Hw. by apply (wf_same w). Qed.

Lemma keeps_upsd_conf_args arg : keeps files (parse_upsd_conf_args arg).
Proof. unfold parse_upsd_conf_args, listen_add. repeat first [apply keeps_conf_set | keeps_step]. Qed.

Lemma keeps_open_retry n fn b : keeps files (open_retry n fn b).
Proof. induction n as [|n IH]; cbn [open_retry]; repeat first [exact IH | keeps_step]. Qed.

Lemma keeps_load_upsdconf r : keeps files (load_upsdconf r).
Proof.
  unfold load_upsdconf.
  repeat first [apply keeps_open_retry | apply keeps_read_lines | keeps_step].
  intros [n v|st v|] arg Hr; cbn [upsdconf_body]; try done. destruct arg as [|word arg]; [done|].
  revert v Hr. apply (keeps_result files). apply keeps_bind; [apply keeps_upsd_conf_args|]. intros p. apply keeps_ret.
Qed.

Lemma keeps_read_upsconf_text text : files UPS_CONF = Some text -> keeps files (read_upsconf_text text).
Proof.
  intros Hf. apply keeps_result. intros v Hv. unfold read_upsconf_text. rewrite conf_load_lines. simpl.
  rewrite conf_args_settings. assert (good_result files (CRet tt v)) as Hr by done. revert Hr. generalize (CRet tt v) as r.
  clear v Hv. assert (forall x, x ∈ settings None (conf_lines text) -> bare_statepath x -> bad_upsconf files) as Hbad.
  { intros x Hx Hval. exists text. split; [done|]. apply Exists_exists. eauto. }
  revert Hbad. generalize (settings None (conf_lines text)) as l. clear text Hf.
  induction l as [|[[sec var] val] l IH]; intros Hbad r Hr; simpl; [done|].
  apply IH; [intros x Hx; apply Hbad; by right|]. specialize (Hbad (sec, var, val) ltac:(by left)).
  destruct r as [[] v|st v|]; try done. destruct Hr as [Hw Hf]. destruct sec as [sec|]; simpl.
  - by split.
  - destruct (strcaseeq var _) eqn:Ev; [|by split]. destruct val; [by split|]. by apply Hbad.
Qed.
End KeepsAll.

(** ** A UPS that is added or updated *)

(** The members that the connection to the driver does not touch *)
Definition uident (u : upstype) : bytes * bytes * option bytes * Z * Z * Z :=
  (u_name u, u_fn u, u_desc u, u_numlogins u, u_fsd u, u_retain u).

(** [w'] is [w] but for the UPS at [i], whose identity is the same, and for what system calls leave. *)
Record at_ups (i : nat) (w w' : world) : Prop := {
  au_clients : w_clients w' = w_clients w;
  au_users : w_users w' = w_users w;
  au_conf : w_conf w' = w_conf w;
  au_ups : exists f, (forall u, uident (f u) = uident u) /\ w_ups w' = alter f i (w_ups w)
}.

Lemma at_ups_same i w w' :
  w_clients w' = w_clients w -> w_users w' = w_users w -> w_conf w' = w_conf w -> w_ups w' = w_ups w -> at_ups i w w'.
Proof. intros ? ? ? Hu. split; try done. exists id. split; [done|]. by rewrite Hu, list_alter_id. Qed.

Lemma at_ups_trans i w1 w2 w3 : at_ups i w1 w2 -> at_ups i w2 w3 -> at_ups i w1 w3.
Proof.
  intros [? ? ? (f & Hf & E)] [? ? ? (g & Hg & E')]. split; try congruence.
  exists (fun u => g (f u)). split; [intros u; by rewrite Hg|]. rewrite E', E. symmetry. apply list_eq. intros j.
  destruct (decide (i = j)) as [->|]; [|by rewrite !list_lookup_alter_ne].
  rewrite !list_lookup_alter_eq. by destruct (w_ups w1 !! j).
Qed.

Definition at_only {A} (i : nat) (m : M A) : Prop :=
  forall w, (i < length (w_ups w))%nat -> wp m (fun _ w' => at_ups i w w') w.

Lemma at_only_ret {A} i (a : A) : at_only i (mret a).
Proof. intros w _. by apply wp_ret, at_ups_same. Qed.

Lemma at_only_bind {A B} i (m : M A) (f : A -> M B) : at_only i m -> (forall a, at_only i (f a)) -> at_only i (m ≫= f).
Proof.
  intros Hm Hf w Hi. apply wp_bind. eapply wp_mono; [by apply Hm|]. intros a w1 H1. cbv beta in H1.
  assert (i < length (w_ups w1))%nat by (destruct (au_ups _ _ _ H1) as (g & _ & ->); by rewrite length_alter).
  eapply wp_mono; [by apply Hf|]. intros b w2 H2. by eapply at_ups_trans.
Qed.

Lemma at_only_upd i f : (forall u, uident (f u) = uident u) -> at_only i (ups_upd i f).
Proof. intros Hf w [u Hu]%has_ups. eapply wp_ups_upd; [done|]. split; try done. by exists f. Qed.

Lemma at_only_get_ups i : at_only i (ups_get i).
Proof. intros w [u Hu]%has_ups. eapply wp_ups_get; [done|]. by apply at_ups_same. Qed.

Lemma at_only_syscall i : at_only i syscall.
Proof. intros w _. apply wp_syscall. intros. by apply at_ups_same. Qed.

Lemma connect_at i : at_only i (sstate_connect i).
Proof.
  unfold sstate_connect, driver_write, upd_tree.
  repeat match goal with
  | |- at_only _ (_ ≫= _) => apply at_only_bind; [|intros ?]
  | |- at_only _ (mret _) => apply at_only_ret
  | |- at_only _ (ups_get _) => apply at_only_get_ups
  | |- at_only _ (ups_upd _ _) => apply at_only_upd; by intros
  | |- at_only _ syscall => apply at_only_syscall
  | |- at_only _ (emit _) => intros w ?; by apply wp_modify, at_ups_same
  | |- at_only _ time => intros w ?; by apply wp_get, at_ups_same
  | |- at_only _ (if ?b then _ else _) => destruct b
  end.
Qed.

Lemma no_logins w name :
  server_wf w -> ups_find (w_ups w) name = None -> logins (w_clients w) name = 0.
Proof.
  intros Hw Hn. assert (forall c, c ∈ w_clients w -> c_loginups c <> Some name) as Hno.
  { intros c Hc Hl. destruct (ups_find_login w c name Hw Hc Hl) as (i & u & Hi & _). congruence. }
  unfold logins. clear -Hno. induction (w_clients w) as [|c l IH]; [done|].
  rewrite filter_cons_False by (apply Hno; by left). apply IH. intros. apply Hno. by right.
Qed.

Lemma wf_new_ups w fn name desc :
  server_wf w -> ups_find (w_ups w) name = None -> server_wf (set_w_ups w (new_upstype fn name desc :: w_ups w)).
Proof.
  intros Hw Hn. pose proof (no_logins w name Hw Hn) as H0. destruct Hw as [H1 H2 H3 H4 H5 H6]. split; simpl; try done.
  - apply NoDup_cons. split; [|done]. intros (u & Hl & Hu)%list_elem_of_fmap. simpl in Hl.
    apply list_elem_of_lookup in Hu as [j Hj]. clear -Hn Hl Hj. revert j Hj.
    induction (w_ups w) as [|v l IH]; [done|]. simpl in Hn. destruct (strcaseeq (u_name v) name) eqn:E; [done|].
    intros [|j]; simpl; [|by apply IH; destruct (ups_find l name)].
    intros [= ->]. apply not_true_iff_false in E. rewrite strcaseeq_true in E. congruence.
  - eapply Forall_impl; [exact H4|]. intros c Hc l Hl. destruct (Hc l Hl) as (u & Hu & ?). exists u. split; [by right|done].
  - constructor; [done|exact H5].
  - constructor; [split; [apply tree_wf_leaf|constructor]|done].
Qed.

(** A new UPS *)
Definition is_new (fn name : bytes) (desc : option bytes) (u : upstype) : Prop :=
  uident u = (name, fn, desc, 0, 0, 1).

(** What updates make of a UPS: with another state file, its data and connection go. *)
Definition updated (fn : bytes) (desc : option bytes) (u : upstype) : upstype :=
  let u :=
    if streq (u_fn u) fn then u
    else set_u_fn (set_u_dumpdone (set_u_conn (set_u_sock_ctx (set_u_cmdlist (set_u_inforoot u Leaf) [])
           (pconf_finish (u_sock_ctx u))) false) 0) fn in
  set_u_retain (set_u_desc u desc) 1.

Lemma updated_safe fn desc : ups_safe (updated fn desc).
Proof.
  intros u. unfold updated. destruct (streq (u_fn u) fn); [by split|]. split; [done|]. intros _.
  split; [apply tree_wf_leaf|constructor].
Qed.

Lemma wp_ups_create crash E fn name desc v (Q : unit -> srv -> Prop) :
  let w := v_world v in server_wf w ->
  (is_Some (ups_find (w_ups w) name) -> Q tt v) ->
  (forall w' u, ups_find (w_ups w) name = None -> server_wf w' -> w_ups w' = u :: w_ups w -> is_new fn name desc u ->
     w_clients w' = w_clients w -> w_users w' = w_users w ->
     Q tt (vset_num_ups (vset_world v w') (v_num_ups v + 1))) ->
  wpc crash (ups_create fn name desc) Q E v.
Proof.
  intros w Hw H1 H2. unfold ups_create. apply wpc_bind, wpc_get. fold w.
  assert (existsb (fun temp => strcaseeq (u_name temp) name) (w_ups w) = true <-> is_Some (ups_find (w_ups w) name)) as Hex.
  { clear. induction (w_ups w) as [|u l IH]; simpl; [by split; [|intros []]|].
    destruct (strcaseeq (u_name u) name); simpl; [by split; [eexists|]|]. rewrite IH. by destruct (ups_find l name). }
  destruct (existsb _ _) eqn:Ee; [by apply H1, Hex|].
  destruct (ups_find (w_ups w) name) as [i|] eqn:Ef; [discriminate (proj2 Hex ltac:(eauto))|]. clear Hex.
  apply wpc_bind, wpc_lift, wp_bind, wp_modify. fold w.
  pose proof (wf_new_ups w fn name desc Hw Ef) as Hw0.
  set (w0 := set_w_ups w (new_upstype fn name desc :: w_ups w)) in *. change (set_w_ups w _) with w0.
  assert (0 < length (w_ups w0))%nat as Hlen by (simpl; lia).
  apply wp_bind. eapply wp_mono; [apply wp_and; [by apply (connect_stays 0 w0)|by apply (connect_at 0 w0)]|].
  intros fd w1 [[Hw1 _ Hl1] [Hc Hu _ (f & Hf & Hups)]]. cbn in Hups. cbn.
  assert (w_ups w1 = f (new_upstype fn name desc) :: w_ups w) as Hups1 by (by rewrite Hups). clear Hups.
  eapply wp_bind, wp_ups_upd; [by rewrite Hups1|]. apply wp_bind, wp_get. cbn. eapply wp_ups_upd; [by rewrite Hups1|].
  apply (H2 _ (set_u_last_heard (set_u_conn (f (new_upstype fn name desc)) fd) (w_now w1))); try done.
  - assert (forall g w, server_wf w -> ups_safe g -> server_wf (upd_ups 0 g w)) as Hupd.
    { intros g w2 Hw2 Hg. by apply stable_upd_ups. }
    assert (ups_safe (fun u => set_u_conn u fd)) as S1 by (by apply safe_field).
    assert (ups_safe (fun u => set_u_last_heard u (w_now w1))) as S2 by (by apply safe_field).
    pose proof (Hupd _ _ (Hupd _ _ Hw1 S1) S2) as H. unfold upd_ups in H. by rewrite Hups1 in H |- *.
  - cbn. by rewrite Hups1.
  - unfold is_new. pose proof (Hf (new_upstype fn name desc)) as H. unfold uident in H |- *. by cbn in *.
Qed.

Lemma wp_ups_update crash E fn name desc v i (Q : unit -> srv -> Prop) :
  let w := v_world v in server_wf w -> ups_find (w_ups w) name = Some i ->
  (let w' := set_w_ups w (alter (updated fn desc) i (w_ups w)) in server_wf w' -> Q tt (vset_world v w')) ->
  wpc crash (ups_update fn name desc) Q E v.
Proof.
  intros w Hw Hi HQ. specialize (HQ (st_wf _ _ (stable_upd_ups i _ w Hw (updated_safe fn desc)))).
  unfold ups_update. apply wpc_lift, wp_bind, wp_get. fold w. rewrite Hi.
  destruct (ups_find_Some _ _ _ Hi) as (u & Hu & _). apply wp_bind. eapply wp_ups_get; [exact Hu|].
  unfold sstate_infofree, sstate_cmdfree.
  assert (forall f g, alter f i (alter g i (w_ups w)) = alter (fun u => f (g u)) i (w_ups w)) as Hfuse.
  { intros f g. apply list_eq. intros j. destruct (decide (i = j)) as [->|]; [|by rewrite !list_lookup_alter_ne].
    rewrite !list_lookup_alter_eq. by destruct (w_ups w !! j). }
  assert (forall f g, (f u = g u) -> alter f i (w_ups w) = alter g i (w_ups w)) as Hat.
  { intros f g Hfg. apply list_eq. intros j. destruct (decide (i = j)) as [<-|]; [|by rewrite !list_lookup_alter_ne].
    rewrite !list_lookup_alter_eq, Hu. simpl. by rewrite Hfg. }
  apply wp_bind. apply wp_when. destruct (streq (u_fn u) fn) eqn:Efn; cbn [negb];
    repeat (lazymatch goal with |- wp (_ ≫= _) _ _ => apply wp_bind | _ => idtac end;
      eapply wp_ups_upd; [cbn; by rewrite ?list_lookup_alter_eq, Hu|]; cbn);
    rewrite !Hfuse;
    match goal with |- Q tt (vset_world v (set_w_ups _ (alter ?f i _))) => rewrite (Hat f (updated fn desc)); [exact HQ|] end;
    unfold updated; by rewrite Efn.
Qed.

Section KeepsReload.
Context (files : bytes -> option bytes).

Lemma keeps_upsconf_entry b t : keeps files (upsconf_entry b t).
Proof.
  unfold upsconf_entry. destruct (ut_driver t) as [d|], (ut_port t) as [p|]; auto with keeps.
  intros v [Hw Hf]. apply wpc_bind, wpc_lift. unfold get_ups_ptr. apply wp_get.
  set (fn := snprintf_s _ _). set (v' := vset_world v (v_world v)).
  assert (wpc (bad_upsconf files) (ups_create fn (ut_upsname t) (ut_desc t)) (fun _ => good files) (good files) v') as Hc.
  { apply wp_ups_create; [done|by split|]. intros w' u _ Hw' _ _ _ _. by split. }
  destruct (ups_find (w_ups (v_world v)) (ut_upsname t)) as [i|] eqn:Ei; [|by rewrite andb_false_r].
  destruct b; [|done]. cbn. eapply wp_ups_update; [done|exact Ei|]. intros w' Hw'. by split.
Qed.

Lemma keeps_upsconf_add b : keeps files (upsconf_add b).
Proof.
  unfold upsconf_add. apply keeps_bind; [apply keeps_get|]. intros l. apply keeps_bind.
  - induction l as [|t l IH]; cbn [upsconf_entries]; [apply keeps_ret|].
    apply keeps_bind; [apply keeps_upsconf_entry|done].
  - intros []. keeps_step.
Qed.

Lemma keeps_read_upsconf b : keeps files (read_upsconf b).
Proof.
  intros v Hv. unfold read_upsconf. apply wpc_bind. pose proof Hv as [Hw Hf].
  unfold wpc at 1, try_open.
  assert (forall v', good files v' -> wpc (bad_upsconf files)
    (match match v_files v UPS_CONF with Some text => Opened text | None => OpenFailed end with
     | Opened text => read_upsconf_text text;; mret (1, false)
     | OpenEMFILE => if b then cexit 1 else mret (-1, true)
     | OpenFailed => if b then cexit 1 else mret (-1, false)
     end) (fun _ => good files) (good files) v') as Hopen.
  { intros v' Hv'. rewrite Hf. destruct (files UPS_CONF) as [text|] eqn:Et; [|by destruct b].
    revert v' Hv'. apply (keeps_bind files); [by apply keeps_read_upsconf_text|]. intros []. apply keeps_ret. }
  destruct (v_emfile v) as [|[] rest]; [by apply Hopen|by destruct b|by apply Hopen].
Qed.

Lemma keeps_load_upsconf r : keeps files (load_upsconf r).
Proof.
  unfold load_upsconf.
  repeat first [apply keeps_read_upsconf | keeps_step].
Qed.

Lemma keeps_delete_lost n i : keeps files (delete_lost n i).
Proof.
  revert i. induction n as [|n IH]; intros i; cbn [delete_lost]; [apply keeps_ret|].
  intros v [Hw Hf]. apply wpc_bind, wpc_get. destruct (w_ups (v_world v) !! i) as [u|] eqn:Hu; [|by split].
  destruct (u_retain u =? 0); [|by apply IH]. apply wpc_bind. eapply wp_delete_ups; [done|exact Hu|].
  intros w' Hw'. apply IH. by split.
Qed.

Lemma wf_retain_reset w : server_wf w -> server_wf (set_w_ups w (map (fun u => set_u_retain u 0) (w_ups w))).
Proof.
  intros Hw. apply (server_wf_shape w); try done; cbn.
  - by rewrite <- list_fmap_compose.
  - apply Forall_fmap. eapply Forall_impl; [apply (sw_ok _ Hw)|]. by intros u.
Qed.

Lemma keeps_conf_reload : keeps files conf_reload.
Proof.
  unfold conf_reload, check_file.
  repeat first
    [ apply keeps_open_retry | apply keeps_load_upsconf | apply keeps_upsconf_add | apply keeps_load_upsdconf
    | apply keeps_delete_lost | keeps_step
    | apply keeps_lift, wkeeps_modify; intros w Hw; first [by apply wf_retain_reset | by apply (wf_same w)] ].
Qed.
End KeepsReload.
