(* ===== verification/UpsdReload.v ===== *)
(** * What upsd makes of ups.conf

    The settings of the file section by section, the table that [do_upsconf_args] makes of them, and the list of
    UPSes and clients that a reload leaves. *)

From S2P Require Import Prelude CStr ParseConf ConfFile StrUtil StateTree StateFacts Users Desc Tracking World.
From S2P Require Import SState Upsd UpsdConf ServerLib ServerFacts ServerInv UpsdConfFacts.
From stdpp Require Import options.

(** ** Values *)

(** The value that [var] has in a section: what the last setting of it says, and a word alone unsets it *)
Definition value_in (name var : bytes) (x : setting) : option (option bytes) :=
  let '(sec, w, val) := x in if bool_decide (sec = Some name /\ w = var) then Some val else None.

Definition conf_value (ls : list setting) (name var : bytes) : option bytes :=
  fold_left (fun o x => default o (value_in name var x)) ls None.

Lemma conf_value_snoc ls x name var :
  conf_value (ls ++ [x]) name var = default (conf_value ls name var) (value_in name var x).
Proof. unfold conf_value. by rewrite fold_left_app. Qed.

Lemma conf_value_none ls name var : (forall x, x ∈ ls -> x.1.1 <> Some name) -> conf_value ls name var = None.
Proof.
  induction ls as [|x ls IH] using rev_ind; [done|]. intros H. rewrite conf_value_snoc.
  rewrite IH by (intros; apply H, elem_of_app; by left).
  destruct x as [[sec w] val]. simpl. case_bool_decide as Hs; [|done]. destruct Hs as [-> _].
  exfalso. apply (H (Some name, w, val)); [apply elem_of_app; right; by left|done].
Qed.

(** ** The table *)

Record table_of (ls : list setting) (T : list ups_t) : Prop := {
  to_names : NoDup (ut_upsname <$> T);
  to_values : Forall (fun t =>
    ut_driver t = conf_value ls (ut_upsname t) ($"driver") /\ ut_port t = conf_value ls (ut_upsname t) ($"port")
    /\ ut_desc t = conf_value ls (ut_upsname t) ($"desc")) T;
  to_all : forall x name, x ∈ ls -> x.1.1 = Some name -> name ∈ (ut_upsname <$> T)
}.

Lemma update_entry_spec name f T :
  NoDup (ut_upsname <$> T) ->
  update_entry name f T =
    if bool_decide (name ∈ (ut_upsname <$> T)) then Some (map (fun t => if streq (ut_upsname t) name then f t else t) T)
    else None.
Proof.
  induction T as [|t T IH]; intros Hnd; [done|]. cbn [update_entry map]. rewrite fmap_cons in Hnd |- *.
  apply NoDup_cons in Hnd as [Hni Hnd]. specialize (IH Hnd). destruct (streq (ut_upsname t) name) eqn:E.
  - apply streq_true in E. subst name. rewrite bool_decide_eq_true_2 by (by left). do 2 f_equal.
    clear -Hni. induction T as [|t' T IH]; [done|]. simpl. rewrite fmap_cons in Hni.
    apply not_elem_of_cons in Hni as [Hne Hni]. rewrite <- IH by done.
    destruct (streq (ut_upsname t') (ut_upsname t)) eqn:E; [apply streq_true in E; congruence|done].
  - rewrite IH. destruct (bool_decide_reflect (name ∈ (ut_upsname <$> T))) as [Hin|Hin]; simpl.
    + by rewrite bool_decide_eq_true_2 by (by right).
    + rewrite bool_decide_eq_false_2; [done|]. intros [->|?]%elem_of_cons; [by rewrite streq_refl in E|done].
Qed.

Lemma value_in_same name var w val :
  value_in name var (Some name, w, val) = if streq w var then Some val else None.
Proof.
  unfold value_in. rewrite streq_spec. by destruct (bool_decide_reflect (Some name = Some name /\ w = var)),
    (bool_decide_reflect (w = var)); naive_solver.
Qed.

Lemma value_in_other name var sec w val : sec <> Some name -> value_in name var (sec, w, val) = None.
Proof. intros H. unfold value_in. rewrite bool_decide_eq_false_2; [done|]. by intros [? _]. Qed.

Lemma set_entry_name var val t : ut_upsname (set_entry var val t) = ut_upsname t.
Proof. unfold set_entry. by repeat case_match. Qed.

Lemma set_entry_values var val t (o1 o2 o3 : option bytes) :
  ut_driver t = o1 /\ ut_port t = o2 /\ ut_desc t = o3 ->
  let upd s o := default o (if streq var s then Some val else None) in
  ut_driver (set_entry var val t) = upd ($"driver") o1 /\ ut_port (set_entry var val t) = upd ($"port") o2
  /\ ut_desc (set_entry var val t) = upd ($"desc") o3.
Proof.
  intros (<- & <- & <-). cbv zeta. unfold set_entry. destruct (streq var ($"driver")) eqn:E1.
  { apply streq_true in E1 as ->. by cbn. }
  destruct (streq var ($"port")) eqn:E2.
  { apply streq_true in E2 as ->. by cbn. }
  destruct (streq var ($"desc")) eqn:E3; by cbn.
Qed.

Definition add_setting (T : list ups_t) (name var : bytes) (val : option bytes) : list ups_t :=
  match update_entry name (set_entry var val) T with
  | Some l => l
  | None => set_entry var val (mkUpsT name None None None) :: T
  end.

Lemma add_setting_table ls T name var val :
  table_of ls T -> table_of (ls ++ [(Some name, var, val)]) (add_setting T name var val).
Proof.
  intros [Hnd Hv Hall]. unfold add_setting. rewrite update_entry_spec by done.
  assert (forall t, ut_upsname t = name ->
    (ut_driver t = conf_value ls (ut_upsname t) ($"driver") /\ ut_port t = conf_value ls (ut_upsname t) ($"port")
     /\ ut_desc t = conf_value ls (ut_upsname t) ($"desc")) ->
    let t' := set_entry var val t in let ls' := ls ++ [(Some name, var, val)] in
    ut_driver t' = conf_value ls' (ut_upsname t') ($"driver") /\ ut_port t' = conf_value ls' (ut_upsname t') ($"port")
    /\ ut_desc t' = conf_value ls' (ut_upsname t') ($"desc")) as Hset.
  { intros t Hn H t' ls'. unfold t', ls'. rewrite set_entry_name, !conf_value_snoc, Hn, !value_in_same.
    rewrite Hn in H. by apply (set_entry_values var val t) in H. }
  destruct (bool_decide_reflect (name ∈ (ut_upsname <$> T))) as [Hin|Hin].
  - assert (ut_upsname <$> map (fun t => if streq (ut_upsname t) name then set_entry var val t else t) T = ut_upsname <$> T) as Hn.
    { rewrite <- list_fmap_compose. apply list_fmap_ext. intros _ t _. simpl. case_match; [apply set_entry_name|done]. }
    split.
    + by rewrite Hn.
    + apply Forall_fmap. eapply Forall_impl; [exact Hv|]. intros t Ht. simpl.
      destruct (streq (ut_upsname t) name) eqn:E; [apply streq_true in E; by apply Hset|].
      rewrite !conf_value_snoc, !value_in_other; [done|..]; intros [= ->]; by rewrite streq_refl in E.
    + rewrite Hn. intros x n [Hx|Hx]%elem_of_app Hs; [by eapply Hall|].
      apply list_elem_of_singleton in Hx as ->. by injection Hs as <-.
  - split; rewrite ?fmap_cons, ?set_entry_name; cbn [ut_upsname].
    + by apply NoDup_cons.
    + apply Forall_cons. split.
      * apply Hset; [done|]. cbn. rewrite !conf_value_none; [done|..]; intros x Hx Hs; by eapply Hin, Hall.
      * apply Forall_forall. rewrite Forall_forall in Hv. intros t Ht.
        rewrite !conf_value_snoc, !value_in_other; [by apply Hv|..]; intros [= ->];
          by apply Hin, list_elem_of_fmap_2.
    + intros x n [Hx|Hx]%elem_of_app Hs; [right; by eapply Hall|].
      apply list_elem_of_singleton in Hx as ->. injection Hs as <-. by left.
Qed.

(** ** Reading the file *)

Definition is_crash {A} (r : cres A) : bool := match r with CCrash => true | _ => false end.

Lemma upsconf_callback_crash ls : fold_left (fun s '(sec, var, val) => upsconf_callback s sec var val) ls CCrash = CCrash.
Proof. by induction ls as [|[[sec var] val] ls IH]. Qed.

Definition vset_read (v : srv) (T : list ups_t) (p : bytes * option bytes) : srv :=
  vset_upstable (vset_statepath v p.1 p.2) T.

(** Without a bare [statepath] the table is made; with one the process crashes. *)
Lemma read_settings ls v :
  Forall (fun x => ~ bare_statepath x) ls -> forall done T, table_of done T -> forall p, exists T' p',
  fold_left (fun s '(sec, var, val) => upsconf_callback s sec var val) ls (CRet tt (vset_read v T p))
  = CRet tt (vset_read v T' p') /\ table_of (done ++ ls) T'.
Proof.
  induction 1 as [|[[sec var] val] ls Hx _ IH]; intros seen T HT p.
  { exists T, p. by rewrite app_nil_r. }
  cbn [fold_left]. rewrite cons_middle, app_assoc. destruct sec as [sec|].
  - assert (upsconf_callback (CRet tt (vset_read v T p)) (Some sec) var val
            = CRet tt (vset_read v (add_setting T sec var val) p)) as ->.
    { done. }
    by apply IH, add_setting_table.
  - assert (exists p', upsconf_callback (CRet tt (vset_read v T p)) None var val = CRet tt (vset_read v T p')) as [p' ->].
    { cbn [upsconf_callback do_upsconf_args]. destruct (strcaseeq var _) eqn:Ev; [|by exists p].
      destruct val; [by eexists (_, _)|by destruct Hx]. }
    apply IH. destruct HT as [H1 H2 H3]. split; [done| |].
    + eapply Forall_impl; [exact H2|]. intros t. by rewrite !conf_value_snoc, !value_in_other by done.
    + intros x n [Hin|Hin]%elem_of_app Hs; [by eapply H3|]. apply list_elem_of_singleton in Hin as ->. done.
Qed.

Lemma read_text_ok text v :
  v_upstable v = [] -> let ls := settings None (conf_lines text) in Forall (fun x => ~ bare_statepath x) ls ->
  exists T p, read_upsconf_text text v = CRet tt (vset_read v T p) /\ table_of ls T.
Proof.
  intros Hv ls Hls. unfold read_upsconf_text. rewrite conf_load_lines. simpl. rewrite conf_args_settings. fold ls.
  assert (v = vset_read v [] (v_statepath v, v_env_statepath v)) as E by (unfold vset_read; destruct v; cbn in *; by subst).
  assert (table_of [] []) as H0 by (split; [constructor|constructor|]; by intros x n ?%elem_of_nil).
  pose proof (read_settings ls v Hls [] [] H0 (v_statepath v, v_env_statepath v)) as H. by rewrite <- E in H.
Qed.

Lemma read_text_crash text v :
  Exists bare_statepath (settings None (conf_lines text)) -> read_upsconf_text text v = CCrash.
Proof.
  intros Hex. unfold read_upsconf_text. rewrite conf_load_lines. simpl. rewrite conf_args_settings. revert v.
  induction Hex as [[[sec var] val] ls (-> & Hx & ->)|[[sec var] val] ls _ IH]; intros v; cbn [fold_left].
  - assert (upsconf_callback (CRet tt v) None var None = CCrash) as ->; [|apply upsconf_callback_crash].
    cbn [upsconf_callback do_upsconf_args]. by rewrite Hx.
  - assert (upsconf_callback (CRet tt v) sec var val = CCrash
            \/ exists v', upsconf_callback (CRet tt v) sec var val = CRet tt v') as [->|[v' ->]].
    + destruct sec as [sec|]; cbn [upsconf_callback do_upsconf_args]; unfold mbind, CM_bind; cbn [cget];
        repeat case_match; eauto.
    + apply upsconf_callback_crash.
    + apply IH.
Qed.

(** ** The list of UPSes, by name *)

Definition ups_at (l : list upstype) (name : bytes) : option upstype := find (fun u => strcaseeq (u_name u) name) l.
#[local] Arguments ups_at : simpl never.

Lemma ups_at_find l name : ups_at l name = ups_find l name ≫= (l !!.).
Proof.
  unfold ups_at. induction l as [|u l IH]; [done|]. cbn [find ups_find].
  destruct (strcaseeq (u_name u) name); [done|]. rewrite IH. by destruct (ups_find l name).
Qed.

Lemma strcaseeq_names a b n : strcaseeq a n = true -> strcaseeq b n = true -> lower a = lower b.
Proof. rewrite !strcaseeq_true. congruence. Qed.

Lemma ups_at_alter l name i f n :
  NoDup ((fun u => lower (u_name u)) <$> l) -> (forall u, u_name (f u) = u_name u) -> ups_find l name = Some i ->
  ups_at (alter f i l) n = if strcaseeq name n then f <$> ups_at l n else ups_at l n.
Proof.
  intros Hnd Hf. unfold ups_at. revert i. induction l as [|u l IH]; intros i; [done|]. rewrite fmap_cons in Hnd.
  apply NoDup_cons in Hnd as [Hni Hnd]. cbn [ups_find]. destruct (strcaseeq (u_name u) name) eqn:E.
  - intros [= <-]. cbn. rewrite Hf. destruct (strcaseeq (u_name u) n) eqn:En.
    + apply strcaseeq_true in E, En. by rewrite (proj2 (strcaseeq_true name n)) by congruence.
    + destruct (strcaseeq name n) eqn:Enn; [|done]. apply strcaseeq_true in E, Enn.
      rewrite (proj2 (strcaseeq_true _ _)) in En by congruence. done.
  - destruct (ups_find l name) as [j|] eqn:Ej; [|done]. intros [= <-]. cbn. rewrite (IH Hnd j eq_refl).
    destruct (strcaseeq (u_name u) n) eqn:En; [|done]. destruct (strcaseeq name n) eqn:Enn; [|done].
    apply strcaseeq_true in En, Enn. rewrite (proj2 (strcaseeq_true _ _)) in E by congruence. done.
Qed.

Lemma ups_at_ci l a b : lower a = lower b -> ups_at l a = ups_at l b.
Proof.
  intros H. unfold ups_at. induction l as [|u l IH]; [done|]. cbn [find]. rewrite IH.
  assert (strcaseeq (u_name u) a = strcaseeq (u_name u) b) as ->; [|done].
  apply eq_true_iff_eq. rewrite !strcaseeq_true. by rewrite H.
Qed.

Lemma ups_at_elem l u : NoDup ((fun u => lower (u_name u)) <$> l) -> u ∈ l <-> ups_at l (u_name u) = Some u.
Proof.
  intros Hnd. unfold ups_at. split.
  - induction l as [|v l IH]; [by intros ?%elem_of_nil|]. rewrite fmap_cons in Hnd.
    apply NoDup_cons in Hnd as [Hni Hnd]. intros [->|Hu]%elem_of_cons; cbn [find]; [by rewrite strcaseeq_refl|].
    destruct (strcaseeq (u_name v) (u_name u)) eqn:E; [|by apply IH]. apply strcaseeq_true in E.
    exfalso. apply Hni. rewrite E. by apply (list_elem_of_fmap_2 (fun u => lower (u_name u))).
  - intros [Hin _]%find_some. by apply list_elem_of_In.
Qed.

(** ** The entries of the table *)

Definition complete (t : ups_t) : bool := match ut_driver t, ut_port t with Some _, Some _ => true | _, _ => false end.

Definition state_file (driver name : bytes) : bytes := snprintf_s NUT_PATH_MAX (driver ++ $"-" ++ name).

(** An entry of the file is served: by the UPS of that name, if there was one, and else by a new one. *)
Definition serves (driver name : bytes) (desc : option bytes) (before after : option upstype) : Prop :=
  match before with
  | Some u => after = Some (updated (state_file driver name) desc u)
  | None => exists u, after = Some u /\ is_new (state_file driver name) name desc u
  end.

Definition entry_serves (t : ups_t) (before after : option upstype) : Prop :=
  exists driver, ut_driver t = Some driver /\ serves driver (ut_upsname t) (ut_desc t) before after.

(** What the entries change *)
Definition ups_only (v v' : srv) : Prop :=
  exists w n, v' = vset_num_ups (vset_world v w) n /\ w_clients w = w_clients (v_world v) /\ w_users w = w_users (v_world v).

Lemma ups_only_refl v : ups_only v v.
Proof. exists (v_world v), (v_num_ups v). by destruct v. Qed.

Lemma ups_only_trans v1 v2 v3 : ups_only v1 v2 -> ups_only v2 v3 -> ups_only v1 v3.
Proof.
  intros (w & n & -> & H1 & H2) (w' & n' & -> & H3 & H4). exists w', n'. split; [done|]. cbn in *. by rewrite H3, H4.
Qed.

Lemma upsconf_entry_spec t v crash E (Q : unit -> srv -> Prop) :
  server_wf (v_world v) -> complete t = true ->
  (forall v', server_wf (v_world v') -> ups_only v v' ->
     (forall n, let o := ups_at (w_ups (v_world v)) n in let o' := ups_at (w_ups (v_world v')) n in
        if strcaseeq (ut_upsname t) n then entry_serves t o o' else o' = o) -> Q tt v') ->
  wpc crash (upsconf_entry true t) Q E v.
Proof.
  intros Hw Hc HQ. unfold upsconf_entry, complete, entry_serves in *. destruct (ut_driver t) as [d|]; [|done].
  destruct (ut_port t) as [p|]; [|done]. apply wpc_bind, wpc_lift. unfold get_ups_ptr. apply wp_get.
  assert (vset_world v (v_world v) = v) as -> by (by destruct v). fold (state_file d (ut_upsname t)).
  destruct (ups_find (w_ups (v_world v)) (ut_upsname t)) as [i|] eqn:Ei; cbn [andb].
  - rewrite bool_decide_eq_true_2 by done. eapply wp_ups_update; [done|exact Ei|]. intros w' Hw'.
    apply HQ; [done|by exists w', (v_num_ups v)|]. intros n. cbn.
    rewrite (ups_at_alter _ (ut_upsname t) i) by first [apply Hw | done | by intros u; unfold updated; case_match].
    destruct (strcaseeq (ut_upsname t) n) eqn:En; [|done]. exists d. split; [done|]. apply strcaseeq_true in En.
    rewrite <- (ups_at_ci _ _ _ En), ups_at_find, Ei. cbn. destruct (ups_find_Some _ _ _ Ei) as (u & -> & _). done.
  - rewrite bool_decide_eq_false_2 by (intros H; by apply H). apply wp_ups_create; [done|by rewrite Ei; intros []|].
    intros w' u _ Hw' Hups Hnew Hcl Hus. apply HQ; [done|by exists w', (v_num_ups v + 1)|]. intros n. cbn. rewrite Hups.
    assert (u_name u = ut_upsname t) as Hn by (unfold is_new, uident in Hnew; congruence).
    assert (ups_at (u :: w_ups (v_world v)) n = if strcaseeq (u_name u) n then Some u else ups_at (w_ups (v_world v)) n) as ->
      by done.
    rewrite Hn. destruct (strcaseeq (ut_upsname t) n) eqn:En; [|done].
    exists d. split; [done|]. apply strcaseeq_true in En.
    rewrite <- (ups_at_ci _ _ _ En), ups_at_find, Ei. cbn. by exists u.
Qed.

Definition wanted (T : list ups_t) (n : bytes) : option ups_t :=
  find (fun t => complete t && strcaseeq (ut_upsname t) n) T.

Lemma upsconf_entries_spec T v crash E (Q : unit -> srv -> Prop) :
  server_wf (v_world v) -> NoDup ((fun t => lower (ut_upsname t)) <$> filter (fun t => complete t = true) T) ->
  (forall v', server_wf (v_world v') -> ups_only v v' ->
     (forall n, let o := ups_at (w_ups (v_world v)) n in let o' := ups_at (w_ups (v_world v')) n in
        match wanted T n with Some t => entry_serves t o o' | None => o' = o end) -> Q tt v') ->
  wpc crash (upsconf_entries true T) Q E v.
Proof.
  revert v. induction T as [|t T IH]; intros v Hw Hnd HQ; cbn [upsconf_entries].
  { apply wpc_ret, HQ; [done|apply ups_only_refl|done]. }
  apply wpc_bind. rewrite filter_cons in Hnd. unfold wanted in HQ. cbn [find] in HQ. destruct (complete t) eqn:Ec.
  - rewrite decide_True in Hnd by done. rewrite fmap_cons in Hnd. apply NoDup_cons in Hnd as [Hni Hnd].
    eapply upsconf_entry_spec; [done..|]. intros v1 Hw1 Ho1 H1. apply IH; [done..|]. intros v2 Hw2 Ho2 H2.
    apply HQ; [done|by eapply ups_only_trans|]. intros n. specialize (H1 n). specialize (H2 n). cbn [andb].
    destruct (strcaseeq (ut_upsname t) n) eqn:En; cbv zeta in *; [|by rewrite H1 in H2].
    destruct (wanted T n) as [t'|] eqn:Et; [|by rewrite H2].
    unfold wanted in Et. apply find_some in Et as [Hin [Hc Hn]%andb_true_iff]. destruct Hni.
    rewrite (strcaseeq_names _ _ _ En Hn). apply (list_elem_of_fmap_2 (fun t => lower (ut_upsname t))).
    apply list_elem_of_filter. split; [done|]. by apply list_elem_of_In.
  - rewrite decide_False in Hnd by done. assert (upsconf_entry true t v = CRet tt v) as He.
    { unfold upsconf_entry, complete in *. by destruct (ut_driver t), (ut_port t). }
    unfold wpc at 1. rewrite He. by apply IH.
Qed.

(** ** upsd.conf leaves UPSes, clients and users *)

Record conf_only (v v' : srv) : Prop := {
  co_clients : w_clients (v_world v') = w_clients (v_world v);
  co_ups : w_ups (v_world v') = w_ups (v_world v);
  co_users : w_users (v_world v') = w_users (v_world v);
  co_next : w_next_id (v_world v') = w_next_id (v_world v);
  co_files : v_files v' = v_files v;
  co_emfile : v_emfile v' = v_emfile v
}.

Definition sets_conf {A} (m : CM A) : Prop :=
  forall v, wpc False m (fun _ v' => conf_only v v') (fun _ => False) v.

Lemma sets_conf_ret {A} (a : A) : sets_conf (mret a).
Proof. intros v. by split. Qed.

Lemma sets_conf_bind {A B} (m : CM A) (f : A -> CM B) : sets_conf m -> (forall a, sets_conf (f a)) -> sets_conf (m ≫= f).
Proof.
  intros Hm Hf v. apply wpc_bind. eapply wpc_mono; [apply Hm|]. intros a v1 [? ? ? ? ? ?].
  eapply wpc_mono; [apply Hf|]. intros b v2 [? ? ? ? ? ?]. split; congruence.
Qed.

Lemma sets_conf_args arg : sets_conf (parse_upsd_conf_args arg).
Proof.
  unfold parse_upsd_conf_args, listen_add.
  repeat match goal with
  | |- sets_conf (_ ≫= _) => apply sets_conf_bind; [|intros ?]
  | |- sets_conf (mret _) => apply sets_conf_ret
  | |- sets_conf (cmodify _) => intros v; apply wpc_modify; repeat case_match; by split
  | |- sets_conf (lift (modify _)) => intros v; by apply wpc_lift, wp_modify
  | |- sets_conf (if ?b then _ else _) => destruct b
  | |- sets_conf (match ?x with _ => _ end) => destruct x
  end.
Qed.

Lemma sets_conf_lines text a : sets_conf (read_lines upsdconf_body text a).
Proof.
  intros v. unfold wpc, read_lines. rewrite conf_load_lines. cbn [default].
  assert (forall l r, (exists z v', r = CRet z v' /\ conf_only v v') ->
    exists z v', fold_left upsdconf_body l r = CRet z v' /\ conf_only v v') as H.
  { induction l as [|arg l IH]; intros r (z & v1 & -> & H1); cbn [fold_left]; [by eauto|]. apply IH.
    cbn [upsdconf_body]. destruct arg as [|w arg]; [by eauto|].
    assert (sets_conf (parsed ← parse_upsd_conf_args (w :: arg); mret (if (parsed : Z) <? 0 then z + 1 else z))) as Hs
      by (apply sets_conf_bind; [apply sets_conf_args|intros; apply sets_conf_ret]).
    specialize (Hs v1). unfold wpc in Hs.
    match type of Hs with match ?r with _ => _ end => destruct r as [z' v2| |] end; [|done|done].
    exists z', v2. split; [done|]. destruct H1, Hs. split; congruence. }
  destruct (H (conf_lines text) (CRet a v)) as (z & v' & -> & Hv); [by eexists _, _|done].
Qed.

Lemma open_retry_opens n fn b text v crash E (Q : open_result -> srv -> Prop) :
  v_emfile v = [] -> v_files v fn = Some text -> Q (Opened text) v -> wpc crash (open_retry n fn b) Q E v.
Proof.
  intros He Hf HQ. assert (try_open fn v = CRet (Opened text) v) as Ht.
  { unfold try_open. rewrite He, Hf. destruct v; cbn in *. by subst. }
  unfold wpc. destruct n; cbn [open_retry]; unfold mbind, CM_bind; by rewrite Ht.
Qed.

Lemma load_upsdconf_spec text v crash E (Q : unit -> srv -> Prop) :
  v_emfile v = [] -> v_files v UPSD_CONF = Some text -> (forall v', conf_only v v' -> Q tt v') ->
  wpc crash (load_upsdconf 2) Q E v.
Proof.
  intros He Hf HQ. unfold load_upsdconf. apply wpc_bind, wpc_get, wpc_bind. eapply open_retry_opens; [done..|].
  cbn [Z.eqb negb cwhen]. apply wpc_bind, wpc_modify, wpc_bind.
  pose proof (sets_conf_lines text 0 (vset_debug v (-1) (v_debug v))) as H. unfold wpc in H |- * at 1.
  destruct (read_lines _ _ _ _) as [z v1| |]; [|done|done]. rewrite andb_false_r.
  apply HQ. destruct H. by split.
Qed.

(** ** A whole reload *)

(** The section is complete: it names a driver and a port. *)
Definition listed (ls : list setting) (name driver : bytes) : Prop :=
  conf_value ls name ($"driver") = Some driver /\ conf_value ls name ($"port") <> None.

Definition distinct_sections (ls : list setting) : Prop :=
  forall a da b db, listed ls a da -> listed ls b db -> lower a = lower b -> a = b.

Section Table.
Context (ls : list setting) (T : list ups_t) (HT : table_of ls T) (Hls : distinct_sections ls).

Lemma table_entry t driver :
  t ∈ T -> listed ls (ut_upsname t) driver <-> complete t = true /\ ut_driver t = Some driver.
Proof using HT.
  intros Ht. pose proof (to_values _ _ HT) as Hv. rewrite Forall_forall in Hv. destruct (Hv t Ht) as (Hd & Hp & _).
  unfold listed, complete. rewrite <- Hd, <- Hp. destruct (ut_driver t), (ut_port t); naive_solver.
Qed.

Lemma entry_unique t t' : t ∈ T -> t' ∈ T -> ut_upsname t = ut_upsname t' -> t = t'.
Proof using HT.
  intros [i Hi]%list_elem_of_lookup [j Hj]%list_elem_of_lookup Hn.
  assert (i = j) as ->; [|congruence]. eapply (NoDup_lookup _ i j (ut_upsname t)); [apply (to_names _ _ HT)|..].
  - by rewrite list_lookup_fmap, Hi.
  - by rewrite list_lookup_fmap, Hj, Hn.
Qed.

Lemma table_distinct : NoDup ((fun t => lower (ut_upsname t)) <$> filter (fun t => complete t = true) T).
Proof using HT Hls.
  apply NoDup_fmap_2_strong; [|apply NoDup_filter, (NoDup_fmap_1 ut_upsname), HT].
  intros x y [Hx Hxin]%list_elem_of_filter [Hy Hyin]%list_elem_of_filter Hxy. apply entry_unique; [done..|].
  assert (forall t, complete t = true -> exists d, ut_driver t = Some d) as Hd
    by (intros t; unfold complete; destruct (ut_driver t); [eauto|done]).
  destruct (Hd x Hx) as [dx ?], (Hd y Hy) as [dy ?].
  eapply Hls; [by apply (table_entry x dx)|by apply (table_entry y dy)|done].
Qed.

Lemma wanted_listed n t :
  wanted T n = Some t -> exists driver, listed ls (ut_upsname t) driver /\ lower (ut_upsname t) = lower n.
Proof using HT.
  intros [Hin [Hc Hn]%andb_true_iff]%find_some. apply list_elem_of_In in Hin. apply strcaseeq_true in Hn.
  assert (exists d, ut_driver t = Some d) as [d Hd] by (revert Hc; unfold complete; destruct (ut_driver t); [eauto|done]).
  exists d. split; [|done]. by apply (table_entry t d).
Qed.

Lemma listed_wanted name driver n :
  listed ls name driver -> lower name = lower n ->
  exists t, wanted T n = Some t /\ ut_upsname t = name /\ ut_driver t = Some driver /\ ut_desc t = conf_value ls name ($"desc").
Proof using HT Hls.
  intros Hl Hn. pose proof Hl as [Hd _].
  assert (name ∈ (ut_upsname <$> T)) as (t & -> & Ht)%list_elem_of_fmap.
  { destruct (decide (name ∈ (ut_upsname <$> T))) as [|Hni]; [done|]. exfalso.
    rewrite conf_value_none in Hd; [done|]. intros x Hx Hs. by eapply Hni, (to_all _ _ HT). }
  destruct (proj1 (table_entry t driver Ht) Hl) as [Hc Hdr].
  destruct (wanted T n) as [t'|] eqn:Ew.
  - destruct (wanted_listed n t' Ew) as (d' & Hl' & Hn'). exists t'. split; [done|].
    assert (t' = t) as ->.
    { apply find_some in Ew as [Hin _]. apply list_elem_of_In in Hin. apply entry_unique; [done..|].
      eapply Hls; [exact Hl'|exact Hl|congruence]. }
    pose proof (to_values _ _ HT) as Hv. rewrite Forall_forall in Hv. by destruct (Hv t Ht) as (_ & _ & ?).
  - exfalso. pose proof (find_none _ _ Ew t) as Hnone. cbv beta in Hnone. rewrite Hc in Hnone.
    rewrite (proj2 (strcaseeq_true _ _) Hn) in Hnone. by discriminate Hnone; apply list_elem_of_In.
Qed.
End Table.

Lemma updated_reset fn desc u : updated fn desc (set_u_retain u 0) = updated fn desc u.
Proof. unfold updated. destruct u. cbn. by case_match. Qed.

Lemma ups_at_reset l n : ups_at (map (fun u => set_u_retain u 0) l) n = (fun u => set_u_retain u 0) <$> ups_at l n.
Proof. unfold ups_at. induction l as [|u l IH]; [done|]. cbn. by destruct (strcaseeq (u_name u) n). Qed.

Lemma ups_at_retained l n :
  NoDup ((fun u => lower (u_name u)) <$> l) ->
  ups_at (retained l) n = u ← ups_at l n; if u_retain u =? 0 then None else Some u.
Proof.
  intros Hnd. unfold ups_at, retained. induction l as [|u l IH]; [done|]. rewrite fmap_cons in Hnd.
  apply NoDup_cons in Hnd as [Hni Hnd]. specialize (IH Hnd). rewrite filter_cons. cbn [find].
  destruct (strcaseeq (u_name u) n) eqn:E.
  - cbn [mbind option_bind]. destruct (Z.eqb_spec (u_retain u) 0) as [H0|H0].
    + rewrite decide_False by (intros H; by apply H). rewrite IH.
      destruct (find _ l) as [u'|] eqn:Ef; [|done]. apply find_some in Ef as [Hin Hn]. destruct Hni.
      rewrite (strcaseeq_names _ _ _ E Hn). apply (list_elem_of_fmap_2 (fun u => lower (u_name u))).
      by apply list_elem_of_In.
    + rewrite decide_True by done. cbn [find]. by rewrite E.
  - destruct (decide (u_retain u <> 0)); [cbn [find]; by rewrite E|done].
Qed.

(** The server after the entries of the table: the UPSes to keep are marked. *)
Section Marked.
Context (ls : list setting) (T : list ups_t) (HT : table_of ls T) (Hls : distinct_sections ls).
Context (l0 l1 : list upstype) (Hnd : NoDup ((fun u => lower (u_name u)) <$> l1)).
Context (Hl1 : forall n, let o := (fun u => set_u_retain u 0) <$> ups_at l0 n in
  match wanted T n with Some t => entry_serves t o (ups_at l1 n) | None => ups_at l1 n = o end).

Lemma marked_wanted n u : ups_at l1 n = Some u -> u_retain u = 0 <-> wanted T n = None.
Proof using Hl1.
  intros Hu. specialize (Hl1 n). cbv zeta in Hl1. destruct (wanted T n) as [t|].
  - split; [|done]. intros H0. destruct Hl1 as (d & _ & Hs). unfold serves in Hs.
    destruct (ups_at l0 n) as [u0|]; cbn [fmap option_fmap option_map] in Hs.
    + rewrite Hu in Hs. injection Hs as ->. done.
    + destruct Hs as (u' & Hu' & Hnew). assert (u' = u) as -> by congruence. unfold is_new, uident in Hnew.
      by injection Hnew as _ _ _ _ _ Hnew; rewrite H0 in Hnew.
  - split; [done|]. intros _. rewrite Hu in Hl1. destruct (ups_at l0 n); [|done]. by injection Hl1 as ->.
Qed.

Lemma marked_listed name driver :
  listed ls name driver ->
  serves driver name (conf_value ls name ($"desc")) (ups_at l0 name) (ups_at (retained l1) name).
Proof using All.
  intros Hl. destruct (listed_wanted ls T HT Hls name driver name Hl eq_refl) as (t & Hw & Hn & Hd & Hdesc).
  pose proof (Hl1 name) as H. cbv zeta in H. rewrite Hw in H. destruct H as (d & Hd' & Hs).
  assert (d = driver) as -> by congruence. rewrite Hn, Hdesc in Hs. rewrite ups_at_retained by done.
  assert (forall u, ups_at l1 name = Some u -> (u_retain u =? 0) = false) as Hret.
  { intros u Hu. apply Z.eqb_neq. rewrite (marked_wanted name u Hu). by rewrite Hw. }
  unfold serves in Hs |- *. destruct (ups_at l0 name) as [u0|]; cbn [fmap option_fmap option_map] in Hs.
  - rewrite Hs. cbn [mbind option_bind]. by rewrite (Hret _ Hs), updated_reset.
  - destruct Hs as (u & Hu & Hnew). exists u. rewrite Hu. cbn [mbind option_bind]. by rewrite (Hret _ Hu).
Qed.

Lemma marked_only u :
  u ∈ retained l1 -> exists name driver, listed ls name driver /\ lower name = lower (u_name u).
Proof using All.
  intros [Hr Hu]%list_elem_of_filter. apply ups_at_elem in Hu; [|done].
  destruct (wanted T (u_name u)) as [t|] eqn:Ew.
  - destruct (wanted_listed ls T HT _ _ Ew) as (d & ? & ?). by exists (ut_upsname t), d.
  - destruct Hr. by apply (marked_wanted (u_name u)).
Qed.

Lemma marked_login c l :
  c_loginups c = Some l -> (exists u, u ∈ l1 /\ u_name u = l) ->
  logged_into_lost l1 c = false <-> exists name driver, listed ls name driver /\ lower name = lower l.
Proof using All.
  intros Hc (u & Hu & Hn). pose proof Hu as Hat. apply ups_at_elem in Hat; [|done]. rewrite Hn in Hat.
  assert (logged_into_lost l1 c = true <-> u_retain u = 0) as Hlost.
  { unfold logged_into_lost. rewrite existsb_exists. split.
    - intros (u' & Hin & [H0 Hl]%andb_true_iff). apply bool_decide_eq_true_1 in Hl.
      assert (u' = u) as ->; [|by apply Z.eqb_eq]. apply list_elem_of_In, ups_at_elem in Hin; [|done]. congruence.
    - intros H0. exists u. split; [by apply list_elem_of_In|]. rewrite H0, Hc, Hn. by rewrite bool_decide_eq_true_2. }
  rewrite <- not_true_iff_false, Hlost, (marked_wanted l u Hat). split.
  - intros Hw. destruct (wanted T l) as [t|] eqn:Ew; [|done].
    destruct (wanted_listed ls T HT _ _ Ew) as (d & ? & ?). by exists (ut_upsname t), d.
  - intros (name & d & Hl & Hlow) Hw. destruct (listed_wanted ls T HT Hls name d l Hl Hlow) as (t & Ht & _). congruence.
Qed.
End Marked.

(** What a reload makes of ups.conf and of upsd.users *)
Definition reloaded (ls : list setting) (w w' : world) (users : option bytes) : Prop :=
  (forall name driver, listed ls name driver ->
     serves driver name (conf_value ls name ($"desc")) (ups_at (w_ups w) name) (ups_at (w_ups w') name))
  /\ (forall u, u ∈ w_ups w' -> exists name driver, listed ls name driver /\ lower name = lower (u_name u))
  /\ (forall c, c ∈ w_clients w' <-> c ∈ w_clients w /\ forall l, c_loginups c = Some l ->
        exists name driver, listed ls name driver /\ lower name = lower l)
  /\ w_users w' = match users with
                  | Some text => user_load (fun _ => inl text) [] (user_flush (w_users w))
                  | None => w_users w
                  end.

(** The end of a reload: upsd.users is read again. *)
Lemma reload_users_spec v crash E (Q : unit -> srv -> Prop) :
  v_emfile v = [] ->
  (forall v', v_world v' = set_w_users (v_world v) match v_files v UPSD_USERS with
     | Some text => user_load (fun _ => inl text) [] (user_flush (w_users (v_world v)))
     | None => w_users (v_world v) end -> Q tt v') ->
  wpc crash
    (ok ← check_file UPSD_USERS;
     if negb ok then mret tt
     else
       lift (modify (fun w => set_w_users w (user_flush (w_users w))));;
       f ← try_open UPSD_USERS;
       let fopen (_ : bytes) : bytes + bytes := match f with Opened text => inl text | _ => inr [] end in
       lift (modify (fun w => set_w_users w (user_load fopen [] (w_users w))))) Q E v.
Proof.
  intros He HQ. apply wpc_bind. unfold check_file. apply wpc_bind. destruct (v_files v UPSD_USERS) as [text|] eqn:Ef.
  - eapply open_retry_opens; [done..|]. apply wpc_ret. cbn [negb]. apply wpc_bind, wpc_lift, wp_modify, wpc_bind.
    unfold wpc at 1, try_open. cbn [v_emfile v_files vset_world]. rewrite He, Ef. cbv zeta.
    by apply wpc_lift, wp_modify, HQ.
  - assert (open_retry 10 UPSD_USERS true v = CRet OpenFailed v) as Ho.
    { cbn [open_retry]. unfold mbind at 1, CM_bind at 1, try_open at 1. rewrite He, Ef. cbn [tail].
      assert (vset_emfile v [] = v) as -> by (destruct v; cbn in *; by subst). done. }
    unfold wpc at 1. rewrite Ho. apply wpc_ret. cbn [negb]. apply wpc_ret, HQ. by destruct v as [[]].
Qed.

(** Deleting the unmarked UPSes gives it. *)
Lemma marked_reloaded ls T w w2 w' users :
  table_of ls T -> distinct_sections ls -> server_wf w2 -> w_clients w2 = w_clients w ->
  (forall n, let o := (fun u => set_u_retain u 0) <$> ups_at (w_ups w) n in
    match wanted T n with
    | Some t => entry_serves t o (ups_at (w_ups w2) n)
    | None => ups_at (w_ups w2) n = o
    end) ->
  w_ups w' = retained (w_ups w2) -> w_clients w' = still_served (w_ups w2) (w_clients w2) ->
  w_users w' = match users with
               | Some text => user_load (fun _ => inl text) [] (user_flush (w_users w))
               | None => w_users w
               end ->
  reloaded ls w w' users.
Proof.
  intros HT Hls Hw2 Hc Hl1 Hu' Hc' Hus. pose proof (sw_names _ Hw2) as Hnd. unfold reloaded. rewrite Hu', Hc'.
  split_and!; [|by eapply marked_only| |done].
  - intros name driver Hl. by eapply marked_listed.
  - intros c. unfold still_served. rewrite list_elem_of_filter, <- Hc.
    assert (c ∈ w_clients w2 -> forall l, c_loginups c = Some l ->
      logged_into_lost (w_ups w2) c = false <-> exists name driver, listed ls name driver /\ lower name = lower l) as Hlog.
    { intros Hin l Hl. apply (marked_login ls T HT Hls (w_ups w) (w_ups w2) Hnd Hl1 c l Hl).
      pose proof (sw_login _ Hw2) as Hlog. rewrite Forall_forall in Hlog. by apply (Hlog c Hin). }
    split.
    + intros [Hno Hin]. split; [done|]. intros l Hl. by apply (Hlog Hin l Hl).
    + intros [Hin Hall]. split; [|done]. destruct (c_loginups c) as [l|] eqn:El; [by apply (Hlog Hin l eq_refl), Hall|].
      apply not_true_iff_false. intros (u & _ & [_ Hb]%andb_true_iff)%existsb_exists.
      apply bool_decide_eq_true_1 in Hb. congruence.
Qed.

Lemma conf_reload_spec v upsd ups :
  server_wf (v_world v) -> v_emfile v = [] -> v_upstable v = [] ->
  v_files v UPSD_CONF = Some upsd -> v_files v UPS_CONF = Some ups ->
  let ls := settings None (conf_lines ups) in
  Forall (fun x => ~ bare_statepath x) ls -> distinct_sections ls ->
  wpc False conf_reload (fun _ v' => reloaded ls (v_world v) (v_world v') (v_files v UPSD_USERS)) (fun _ => False) v.
Proof.
  intros Hw He Htab Hupsd Hups ls Hval Hls. unfold conf_reload, check_file.
  apply wpc_bind, wpc_bind. eapply open_retry_opens; [done..|]. apply wpc_ret. cbn [negb].
  apply wpc_bind, wpc_lift, wp_modify. apply wpc_bind.
  set (w0 := set_w_ups _ _). set (v0 := vset_world v w0). pose proof (wf_retain_reset _ Hw : server_wf w0) as Hw0.
  destruct (read_text_ok ups v0 Htab Hval) as (T & p & Hread & HT). fold ls in HT.
  assert (load_upsconf 2 v0 = CRet 1 (vset_read v0 T p)) as Hload.
  { unfold load_upsconf, read_upsconf, try_open, mbind, CM_bind. cbn [v_emfile v0 vset_world].
    rewrite He. cbn [v_files v0 vset_world]. rewrite Hups.
    assert (vset_emfile v0 (tail []) = v0) as -> by (unfold v0; destruct v; cbn in *; by subst).
    by rewrite Hread. }
  unfold wpc at 1. rewrite Hload. clear Hload Hread. set (v1 := vset_read v0 T p).
  apply wpc_bind. unfold upsconf_add. apply wpc_bind, wpc_get, wpc_bind.
  apply upsconf_entries_spec; [done|by eapply table_distinct|]. intros v2 Hw2 (w2 & n2 & -> & Hcl2 & Hus2) H2.
  apply wpc_modify, wpc_bind, (load_upsdconf_spec upsd); [done|done|]. intros v3 [Hc3 Hu3 Hus3 Hn3 Hf3 He3].
  cbn in Hc3, Hu3, Hus3, Hn3, Hf3, He3, Hcl2, Hus2, Hw2. apply wpc_bind, wpc_get, wpc_bind.
  assert (server_wf (v_world v3)) as Hw3 by (by eapply (wf_same w2)).
  eapply (delete_lost_spec _ _ _ []); [done|reflexivity|done|done|]. intros w4 Hw4.
  assert (forall n, let o := (fun u => set_u_retain u 0) <$> ups_at (w_ups (v_world v)) n in
    match wanted T n with Some t => entry_serves t o (ups_at (w_ups w2) n) | None => ups_at (w_ups w2) n = o end) as Hl1.
  { intros n. specialize (H2 n). cbn -[wanted] in H2. cbv zeta. by rewrite <- ups_at_reset. }
  assert (forall v', w_ups (v_world v') = retained (w_ups w2) ->
    w_clients (v_world v') = still_served (w_ups w2) (w_clients w2) ->
    w_users (v_world v') = match v_files v UPSD_USERS with
      | Some text => user_load (fun _ => inl text) [] (user_flush (w_users (v_world v))) | None => w_users (v_world v) end ->
    reloaded ls (v_world v) (v_world v') (v_files v UPSD_USERS)) as Hfin
    by (intros v' ? ? ?; by apply (marked_reloaded ls T _ w2)).
  rewrite <- Hu3, <- Hc3 in Hfin. apply reload_users_spec; [by transitivity (v_emfile v)|].
  intros v' Hv'. apply Hfin; rewrite Hv'; [done|done|]. cbn. by rewrite Hf3, Hus3, Hus2.
Qed.

(** ** Theorems *)

(** C7. A reload on SIGHUP is sound: whatever the configuration files hold, whenever opening one of them fails for
    want of descriptors so that the oldest clients are disconnected for it, and whatever system calls fail, the
    server's invariant holds again when [conf_reload] returns or ends the process, and no stale UPS or client is
    followed on the way: UPSes are added, redefined and removed with the clients that were logged into them, and
    the login counters still count the logins.  The only crash is the one of a line of ups.conf,
    above all sections, that is the single word [statepath]. *)
Theorem reload_sound v :
  server_wf (v_world v) ->
  match conf_reload v with
  | CRet _ v' | CExit _ v' => server_wf (v_world v') /\ v_files v' = v_files v
  | CCrash => exists text, v_files v UPS_CONF = Some text /\ Exists bare_statepath (settings None (conf_lines text))
  end.
Proof.
  intros Hw. pose proof (keeps_conf_reload (v_files v) v (conj Hw eq_refl)) as H. unfold wpc, good, bad_upsconf in H.
  by destruct (conf_reload v).
Qed.

(** C8. After a reload the server's list of UPSes is what ups.conf says: for every section with a driver and
    a port there is a UPS of that name (up to case), the one that was there before, its clients counted
    and, if its state file is the same, its data and its connection kept, or else a new one nobody is logged into;
    there are no other UPSes; the clients that remain are exactly those who are not logged in at all or logged into a UPS that
    ups.conf still has; and the users are those of upsd.users.  The last setting of a word in a section counts,
    wherever in the file it stands.  (Both files can be opened, there are descriptors left for the drivers' sockets, the names
    of the sections differ in more than case, and no [statepath] stands alone above the sections.) *)
Theorem reload_follows_ups_conf v upsd ups :
  server_wf (v_world v) -> v_emfile v = [] -> v_upstable v = [] ->
  v_files v UPSD_CONF = Some upsd -> v_files v UPS_CONF = Some ups ->
  let ls := settings None (conf_lines ups) in
  Forall (fun x => ~ bare_statepath x) ls -> distinct_sections ls ->
  exists v', conf_reload v = CRet tt v' /\ reloaded ls (v_world v) (v_world v') (v_files v UPSD_USERS).
Proof.
  intros Hw He Ht Hd Hu ls Hb Hls. pose proof (conf_reload_spec v upsd ups Hw He Ht Hd Hu Hb Hls) as H.
  unfold wpc in H. destruct (conf_reload v) as [[] v'| |]; [by exists v'|done|done].
Qed.

(** C31. What ends the server in a reload, though upsd.conf was looked at first so as not to lose the configuration: that
    ups.conf cannot be opened, and then the process exits, UPSes and clients as they are; and a line
    above the sections of ups.conf that is the word [statepath] alone, whose missing value is followed. *)
Theorem reload_can_end_the_server v upsd :
  v_emfile v = [] -> v_files v UPSD_CONF = Some upsd ->
  (v_files v UPS_CONF = None -> exists v', conf_reload v = CExit 1 v'
     /\ w_clients (v_world v') = w_clients (v_world v)
     /\ w_ups (v_world v') = map (fun u => set_u_retain u 0) (w_ups (v_world v)))
  /\ (forall ups, v_files v UPS_CONF = Some ups -> Exists bare_statepath (settings None (conf_lines ups)) ->
        conf_reload v = CCrash).
Proof.
  intros He Hf. set (w0 := set_w_ups (v_world v) (map (fun u => set_u_retain u 0) (w_ups (v_world v)))).
  assert (check_file UPSD_CONF v = CRet true v) as Hc.
  { pose proof (open_retry_opens 10 UPSD_CONF true upsd v False (fun _ => False) (fun r v' => r = Opened upsd /\ v' = v) He Hf) as H.
    unfold check_file, wpc, mbind, CM_bind in *. destruct (open_retry _ _ _ v) as [r v'| |];
      [|by destruct (H (conj eq_refl eq_refl))..]. by destruct (H (conj eq_refl eq_refl)) as [-> ->]. }
  assert (try_open UPS_CONF (vset_world v w0) =
    CRet (match v_files v UPS_CONF with Some t => Opened t | None => OpenFailed end) (vset_world v w0)) as Ho.
  { unfold try_open. cbn. rewrite He. f_equal. destruct v; cbn in *. by subst. }
  unfold conf_reload, mbind, CM_bind. rewrite Hc. cbn [negb]. unfold lift, modify.
  change (set_w_ups (v_world v) (map _ _)) with w0. unfold load_upsconf, read_upsconf, mbind, CM_bind. rewrite Ho.
  split.
  - intros ->. cbn. by eexists.
  - intros ups -> Hex. by rewrite read_text_crash.
Qed.

(** ** An example: one UPS is kept, one goes with its client, one is new. *)

Definition gone_ups : upstype :=
  mkUps ($"gone") ($"dummy-ups-gone") None true 0 1 0 0 0 0 pconf_init Leaf [] 1 0 1.

Definition demo_srv_world : world :=
  mkWorld [set_u_numlogins demo_ups 1; gone_ups]
    [mkClient 2 ($"::1") 90 None None None 0 pconf_init;
     mkClient 1 ($"::1") 90 (Some ($"gone")) None None 0 pconf_init;
     mkClient 0 ($"::1") 90 (Some ($"su700")) None None 0 pconf_init]
    3 demo_users (mkDesc [] []) [] 0 100 [] [] [] (mkConfig 15 3600 ($"2.8.4") None).

Definition nl (l : list bytes) : bytes := concat (map (fun s => s ++ [LF]) l).

Definition demo_ups_conf : bytes :=
  nl [$"maxretry = 3"; $"[SU700]"; $"driver = usbhid-ups"; $"port = auto"; $"[new]"; $"driver = dummy-ups";
      $"port = a.dev"; $"desc = Test"; $"[half]"; $"port = auto"].

Definition demo_srv (ups : option bytes) : srv :=
  mkSrv demo_srv_world [] 2 ($"/var/state/ups") None ($"/usr/share") 0 0 0 [] true (-1) 0 0
    (fun fn => if streq fn UPSD_CONF then Some (nl [$"MAXAGE 20"]) else if streq fn UPS_CONF then ups else None) [].

Lemma demo_srv_wf : server_wf demo_srv_world.
Proof.
  split.
  - apply (bool_decide_unpack _). by vm_compute.
  - apply (bool_decide_unpack _). by vm_compute.
  - apply (bool_decide_unpack _). by vm_compute.
  - repeat (apply Forall_cons; split); [| | |constructor]; intros l; [done| |]; intros [= <-].
    + exists gone_ups. split; [right; by left|done].
    + exists (set_u_numlogins demo_ups 1). split; [by left|done].
  - apply (bool_decide_unpack _). by vm_compute.
  - repeat (apply Forall_cons; split); [| |constructor].
    + apply (Forall_inv (sw_ok _ idle_world_wf)).
    + split; [apply tree_wf_leaf|constructor].
Qed.

(** Sections are distinct up to case when the ones that occur are. *)
Lemma distinct_sections_by ls :
  let names := omap (fun x : setting => x.1.1) ls in
  Forall (fun a => Forall (fun b => lower a = lower b -> a = b) names) names -> distinct_sections ls.
Proof.
  intros names Hall a da b db [Ha _] [Hb _] Hlow.
  assert (forall n d, conf_value ls n ($"driver") = Some d -> n ∈ names) as Hin.
  { intros n d Hd. destruct (decide (n ∈ names)) as [|Hni]; [done|]. rewrite conf_value_none in Hd; [done|].
    intros x Hx Hs. apply Hni. apply list_elem_of_omap. by exists x. }
  rewrite Forall_forall in Hall. specialize (Hall a (Hin a da Ha)). rewrite Forall_forall in Hall.
  by apply (Hall b (Hin b db Hb)).
Qed.

Lemma demo_sections : distinct_sections (settings None (conf_lines demo_ups_conf)).
Proof. apply distinct_sections_by. apply (bool_decide_unpack _). by vm_compute. Qed.

Lemma demo_no_statepath : Forall (fun x => ~ bare_statepath x) (settings None (conf_lines demo_ups_conf)).
Proof.
  assert (forallb (fun x : setting => negb (bool_decide (x.1.1 = None) && strcaseeq x.1.2 ($"STATEPATH")))
    (settings None (conf_lines demo_ups_conf)) = true) as H by by vm_compute.
  apply Forall_forall. intros [[sec w] val] Hx%list_elem_of_In (-> & Hw & ->).
  rewrite forallb_forall in H. specialize (H _ Hx). clear Hx. cbn [fst snd] in H. rewrite Hw, bool_decide_eq_true_2 in H by reflexivity. discriminate H.
Qed.

Lemma reload_follows_ups_conf_witness :
  exists v', conf_reload (demo_srv (Some demo_ups_conf)) = CRet tt v'
    /\ reloaded (settings None (conf_lines demo_ups_conf)) demo_srv_world (v_world v') None.
Proof.
  apply (reload_follows_ups_conf (demo_srv (Some demo_ups_conf)) (nl [$"MAXAGE 20"]) demo_ups_conf);
    [exact demo_srv_wf|reflexivity..|exact demo_no_statepath|exact demo_sections].
Defined.

Example demo_reload :
  match conf_reload (demo_srv (Some demo_ups_conf)) with
  | CRet _ v' => map (fun u => (u_name u, u_fn u, u_numlogins u)) (w_ups (v_world v'))
        = [($"new", $"dummy-ups-new", 0); ($"su700", $"usbhid-ups-SU700", 1)]
      /\ map c_id (w_clients (v_world v')) = [2; 0]%nat
  | _ => False
  end.
Proof. vm_compute. by split. Qed.

Lemma reload_can_end_the_server_witness :
  (exists v', conf_reload (demo_srv None) = CExit 1 v')
  /\ conf_reload (demo_srv (Some (nl [$"statepath"]))) = CCrash.
Proof.
  split.
  - destruct (reload_can_end_the_server (demo_srv None) (nl [$"MAXAGE 20"]) eq_refl eq_refl) as [H _].
    destruct (H eq_refl) as (v' & E & _). by exists v'.
  - destruct (reload_can_end_the_server (demo_srv (Some (nl [$"statepath"]))) (nl [$"MAXAGE 20"]) eq_refl eq_refl)
      as [_ H]. apply (H _ eq_refl). apply Exists_exists. exists (None, $"statepath", None).
    split; [|by vm_compute]. apply (bool_decide_unpack _). by vm_compute.
Defined.

Lemma reload_sound_witness :
  match conf_reload (demo_srv (Some demo_ups_conf)) with
  | CRet _ v' => server_wf (v_world v')
  | _ => True
  end.
Proof.
  pose proof (reload_sound (demo_srv (Some demo_ups_conf)) demo_srv_wf) as H.
  destruct (conf_reload (demo_srv (Some demo_ups_conf))) as [[] v'| |]; [exact (proj1 H)|exact I|exact I].
Defined.

(** Of two sections whose names differ in case only, the start takes the later one and a reload of the same file
    the earlier one. *)
Definition twin_conf : bytes := nl [$"[a]"; $"driver = d1"; $"port = p"; $"[A]"; $"driver = d2"; $"port = p"].

Example case_twins_at_start_and_reload :
  let v := vset_num_ups (vset_world (demo_srv (Some twin_conf)) (set_w_ups (set_w_clients demo_srv_world []) [])) 0 in
  let fns v := map (fun u => (u_name u, u_fn u)) (w_ups (v_world v)) in
  match start_ups v with
  | CRet _ v1 => fns v1 = [($"A", $"d2-A")]
      /\ match conf_reload v1 with CRet _ v2 => fns v2 = [($"A", $"d1-a")] | _ => False end
  | _ => False
  end.
Proof. vm_compute. by split. Qed.
